(* ===== verification/_CoqProject ===== *)
-Q . S2P
Prelude.v
Ring.v
Telemetry.v
Handoff.v
Diagnostic.v
Identity.v
Crc32.v
Spool.v
SpoolFrames.v
SpoolQueue.v
SpoolDurable.v
SpoolRuns.v
Json.v
ProcessGraph.v
Journal.v
JournalFacts.v
JournalSpec.v
JournalRuns.v
Ledger.v
Command.v
CommandFacts.v
Uploader.v
UploaderFacts.v
UploaderRuns.v
Calendar.v
Enrollment.v
SourceGaps.v
Freshness.v
Usn.v
ImageCache.v
AuditSemantics.v
SysmonDecoder.v
SysmonFacts.v
SysmonCollector.v
SysmonCollectorFacts.v
SysmonExample.v
EventLog.v
EventLogFacts.v
EventLogExample.v
EventDecoder.v
FileAcquisition.v
Transport.v
TransportFacts.v
ArtifactFacts.v
ArtifactExample.v
FileAcquisitionFacts.v
FileAcquisitionLogic.v
FileAcquisitionRuns.v
FileAcquisitionTheorems.v
FileAcquisitionKey.v
FileAcquisitionExample.v
ProcessActions.v
Outbox.v
Serializer.v
SerializerFacts.v
SerializerExact.v
SourceFacts.v
Normalizer.v
NormalizerFacts.v
EndpointRecord.v
EndpointFacts.v
SysmonRecords.v
Pipeline.v
PipelineFacts.v
Response.v
ResponseFacts.v
ResponseExample.v
JournalLegacy.v
JournalLegacyFacts.v
Ancestry.v
AncestryFacts.v
Policy.v
PolicyFacts.v
UpdateTrust.v
UpdatePackage.v
UpdateLogic.v
UpdateFacts.v
UpdateRuns.v
UpdateTheorems.v
UpdateExample.v
