(* ===== verification/Prelude.v ===== *)
(** * Officer: a verified model of the Panopticon endpoint agent

    Officer collects security telemetry on a Windows host, gives every event and
    process a stable identity, keeps the evidence in a local journal until the
    Manager has accounted for it, and executes response commands at most
    once.  This library models the parts of the program that carry those
    promises, translated function by function from the C++ sources, and proves
    them.

    ** The program and the files that model it

    - Collectors publish raw facts ([Telemetry]: the structs of
      [telemetry/raw_event_common.hpp] and [raw_process_event.hpp]) into a bounded
      queue ([Handoff]: [pipeline/raw_handoff.cpp]); one worker takes them out.
      [Diagnostic] is the display queue beside it ([pipeline/diagnostic_output.cpp]);
      both stand on the ring lemmas of [Ring].
      [ImageCache] is the two-generation cache that completes process contexts
      ([collectors/process_image_cache.cpp]) and the capability registry
      ([health/coverage.cpp]); [Usn] decodes the NTFS change journal
      ([collectors/usn_decoder.cpp]); [AuditSemantics] labels Security events and
      reports the audit policy ([collectors/security_audit_semantics.cpp]).
    - [SysmonDecoder] decodes the events of the Sysmon channel
      ([collectors/sysmon_process_decoder.cpp], [sysmon_telemetry_decoder.cpp]);
      [SysmonFacts] has its theorems.  [SysmonCollector] is the
      subscription whose callbacks publish them ([sysmon_event_collector.cpp]), as
      steps that interleave with [start] and [stop]; [SysmonCollectorFacts] proves
      what holds of every interleaving, [SysmonExample] is a run.
    - [EventLog] is the worker that follows one channel of the Windows event log
      ([collectors/windows_event_log.cpp]) as steps with crashes, a client of the
      journal through the class [CheckpointJournal]; [EventLogFacts] proves its
      guarantee from the class's laws and gives the instance for [Journal],
      [EventLogExample] is a life with a crash.  [EventDecoder] decodes its
      records ([windows_event_decoder.cpp], [authentication_telemetry.cpp], the
      classification of [powershell_script_telemetry.cpp]) and has its theorem.
    - [Identity] derives event, process and context identities
      ([core/entity_id.cpp]) and keeps the bounded store of process instances
      ([core/process_instance.cpp]); [ProcessGraph] rederives them from a
      retained record ([core/process_graph.cpp]).
    - [Pipeline] is the worker's handler ([process_raw_event], [emit_direct] and
      [emit_normalized] of [main.cpp]).  It turns a raw event into a legacy event
      ([Normalizer], [Calendar]: [pipeline/normalizer.cpp]) that [Serializer]
      writes and strictly reads back ([pipeline/serializer.cpp],
      [telemetry/panopticon_event.hpp]), and into a canonical record
      ([EndpointRecord]: [pipeline/endpoint_record.cpp]; [SourceFacts]:
      [pipeline/source_facts.cpp]; [SysmonRecords]: [pipeline/sysmon_records.cpp]).
      [SerializerFacts], [SerializerExact], [NormalizerFacts], [EndpointFacts] and
      [PipelineFacts] have their theorems.
    - [Policy] is the signed collection policy and its store
      ([configuration/policy.cpp]), [PolicyFacts] its theorems over runs.
    - [Journal] is the durable journal ([delivery/journal.cpp]): the tables and
      triggers of the SQLite database, transactions that roll back, and every
      request of the class.  [JournalFacts] proves its invariant, [JournalSpec]
      what it promises, [JournalRuns] runs it on a concrete journal.
      [JournalLegacy] is its import of a legacy spool, [Ancestry] its query of a
      process's ancestors, each with its [Facts] file.
    - [Spool] is the older file-based queue ([delivery/spool.cpp]) with [Crc32];
      [SpoolFrames], [SpoolQueue] and [SpoolDurable] show that it refines an
      abstract queue, [SpoolRuns] states this for whole runs with crashes.
    - [Uploader] is the delivery worker ([delivery/uploader.cpp]), a client of the
      journal through the class [EvidenceJournal]; [UploaderFacts] proves its
      guarantees from the class's laws [EvidenceJournalLaws] and gives the
      instance for [Journal]; [UploaderRuns] is a concrete delivery.
    - [Ledger] and [Command] are the response side: identifiers and the replay
      ledger ([response/identity.cpp], [response/replay_ledger.cpp]), the strict
      decoder, the admission gate and the result serializer
      ([response/command.cpp]); [CommandFacts] has their theorems.
      [Enrollment] is the enrolled identity and its file ([response/identity.cpp]),
      with the boot identifier of [core/process_instance.cpp].
    - [Transport] is the client of the response path with its receipts and the
      signed, resumable upload of artifacts ([response/transport.cpp]);
      [TransportFacts] and [ArtifactFacts] have its theorems, [ArtifactExample] an
      upload.  [Outbox] is the result and the artifact outbox
      ([response/result_outbox.hpp], [artifact_outbox.hpp]), clients of
      [EvidenceJournal] too.  [ProcessActions] re-observes and terminates
      processes ([response/process_actions.cpp]).
    - [Response] puts these together as [main.cpp] does: [execute_command],
      [process_durable_commands], [run_response_cycle] and the artifact thread
      over three journals, the network and Windows, with a crash before any step;
      [ResponseFacts] proves what holds over whole lives of the endpoint,
      [ResponseExample] is a life with a crash.
    - [FileAcquisition] is the encrypted store of captured files
      ([forensics/file_acquisition.cpp]): manifests, chunks, resumption and the
      protected key over a directory; [FileAcquisitionFacts] has its lemmas,
      [FileAcquisitionLogic] a crash logic, [FileAcquisitionRuns] the proof for one
      call, [FileAcquisitionTheorems] and [FileAcquisitionKey] the results over
      lives of the store, [FileAcquisitionExample] an interrupted capture.
    - [UpdateTrust] and [UpdatePackage] are the publisher trust store and the
      staging of signed updates ([deployment/update_package.cpp]) over a
      directory; [UpdateLogic], [UpdateFacts] and [UpdateRuns] are the proof,
      [UpdateTheorems] the results, [UpdateExample] runs them.
    - [SourceGaps] ([health/source_supervisor.cpp]) records what changed between
      two status samples of a source, [Freshness] ([health/state_freshness.cpp])
      withdraws positive statements whose capture is overdue.
    - [Json] is what the code uses of its JSON library.

    This file holds what they share: the result type of code that throws,
    machine integers, byte strings and decimal text, list lemmas, the hint
    databases and tactics.

    ** Conventions

    A C++ class is a [Record] of its fields; a method is a function from the
    record (and its arguments) to the answer and the new record.  Code that
    throws returns [result]; the journal's methods live in a state and exception
    monad whose [transaction] restores the database when its body throws.
    Unsigned arithmetic is wrapped with [u32] and [u64] wherever the source can
    wrap; sizes bounded by memory or disk are plain integers, as each file says.
    Threads: an operation that holds a mutex is one step, and an execution is an
    arbitrary sequence of steps; the uploader's calls that release its lock take
    what other threads do meanwhile as arguments.  Crashes keep the directory or
    the file and lose the object.

    What is not in the sources is a parameter: the SHA-256 provider, DPAPI, UTF-8
    and UTF-16 conversion, the JSON parser and printer, the XML parser, network replies, the
    clock, and what the system reports about disks and files.  Hypotheses on
    parameters are named where they are used, and each theorem that has them is
    applied to concrete functions by its [_witness].

    Loops that are not structural run on fuel computed from their input, and the
    theorems show it is enough: eviction of the spool removes a file per turn
    and has one unit per file ([SpoolDurable.append_refines] excludes divergence),
    the read loop is bounded by the bytes and segments ahead
    ([SpoolRuns.peek_ready_refines]), the USN decoder by the buffer
    ([Usn.usn_rows_partition] excludes running out), the policy's JSON guard by
    two units per byte and two more, since every call but the entry of an array
    reads at least one byte ([PolicyFacts.policy_guard_terminates]).  The frames of
    a legacy segment have a unit per byte, the cycle search of the ancestry query
    one per edge and two more ([AncestryFacts.ancestry_cycles_exact]).
    An upload needs one round per four chunks of its content
    ([ArtifactFacts.artifact_upload_completes]).  A file capture has a unit per
    full chunk and one more, and a unit per byte of a chunk for its reads
    ([FileAcquisitionTheorems.interrupted_capture_resumes]).

    ** What the theorems show

    - Evidence is not lost: retention, exact acknowledgement, idempotent
      acceptance, bounded batches, counters that match the tables, refused
      requests that change nothing, fenced source checkpoints (journal);
      at-least-once delivery and the retry schedule (uploader); a crash-safe
      FIFO with bounded retries (spool); the legacy import takes over every frame
      once and records what it could not read.
    - Commands are executed at most once: strict decoding, the exact calendar of
      the timestamp parser, acceptance at most once across restarts, the
      one-way inbox, truthful results; over any life of the response runtime,
      with crashes anywhere, a handler is entered at most once per command
      ([ResponseFacts.commands_execute_at_most_once]), and a kill reaches only the
      named process instance.
    - Evidence reaches the Manager intact: receipts are believed only when exact,
      an upload sends only what its signed manifest describes, and ends in a
      receipt when the Manager follows the protocol.
    - Captured files are evidence: whatever fails and wherever processes end, the
      manifests and chunks of the acquisition store agree, a capture reported as
      final is exactly a prefix of the source with its digest, an interrupted
      capture is finished by asking again, and the key is never replaced.
    - Updates only move forward: staged generations and trust bundles never go
      back, a staged package is the signed one, an exposed directory is left
      alone, a key rotation leaves no gap.
    - Identities bind what they are derived from, are stable, and are rederived
      exactly from a retained record; the process store is bounded; an ancestry
      answer contains only recorded parents, finds exactly the cycles, and stays
      within its budget; the enrolled identity is read back as stored.
    - The handoff is a bounded FIFO that admits and drains as its counters say.
    - Health never overstates: gaps are reported completely and in order, a
      stale capture is never positive, enrichment only copies what was observed.
    - Every event is accounted for: the handler records an event or counts and
      reports that it could not ([PipelineFacts.event_accounted]); the reader
      accepts exactly what the writer writes and gives it back, normalized
      events are readable, source facts and timestamps lose nothing, lifecycle
      records are interpreted by the process graph, DNS answers are kept
      complete, the diagnostic log is a gap-free prefix of what was admitted.
    - The Sysmon source is faithful: under every interleaving the delivered events
      are handed to the sink or counted, nothing is in flight once the collector has
      stopped, a published event is the decoder's reading with at most the evidence
      of an earlier creation attached; times are exact, the order of the fields does
      not matter.
    - The event log has no silent gap: over any life of a channel's worker the commits
      walk through the log record by record or leave it with a durable gap
      ([EventLogFacts.event_log_no_silent_gap]), and every record becomes evidence.
    - Policies only move forward: over any run of the store a generation is never
      lowered or rewritten and collection never weakened, the effective policy
      matches the accepted one, and a feature is shown as effective only with
      valid signatures behind it.
    - Five theorems record defects: [SpoolRuns.torn_tail_swallows_append],
      [CommandFacts.torn_ledger_line_replays],
      [PipelineFacts.refused_facts_not_recorded],
      [UpdateTheorems.renewal_blocks_staging] and
      [ResponseFacts.interrupted_acquisition_not_resumed]; smaller ones are
      examples ([large_ticks_refused], [empty_leaf_refused],
      [confirmation_drops_features], [wide_schema_version_accepted],
      [token_cut_at_line_break], [process_years_wrap], [fresh_channel_legacy]).

    ** What is not modelled

    Code that only drives Windows interfaces: the ETW and change journal collectors,
    the inspection of registry policies, file integrity, state inventories, the HTTP
    client, keys and CNG, host isolation, the other file actions of the response path
    (the runtime uses their results, also of the acquisition), service control, the
    wiring in [main.cpp] around the event handler and the response runtime, SQLite
    itself and the one-time opening of the database; and the separate query tool. *)

From Stdlib Require Export ZArith Lia Bool.
From Stdlib Require Export Ascii String.
From stdpp Require Export base numbers list gmap strings.
#[export] Set Warnings "-clear-no-such-hyp".
#[global] Open Scope Z_scope.
#[global] Arguments String.append : simpl nomatch.
#[global] Arguments Z.add : simpl never.
#[global] Arguments Z.sub : simpl never.
#[global] Arguments Z.mul : simpl never.
#[global] Arguments Z.pow : simpl never.

(** ** Exceptions and results

    The C++ code reports failure by throwing; a function that may throw is
    modelled by a value of [result A].  Only the exception class is observable
    to the handlers of the program, the text is kept for the messages the code
    stores in its health records. *)
Inductive exn :=
| invalid_argument (what : string)
| runtime_error (what : string)
| length_error (what : string)
| logic_error (what : string)
| json_exception (what : string).

Definition what (e : exn) : string :=
  match e with
  | invalid_argument w | runtime_error w | length_error w
  | logic_error w | json_exception w => w
  end.

Inductive result (A : Type) :=
| Ok (a : A)
| Throw (e : exn).
Arguments Ok {A} a.
Arguments Throw {A} e.

#[global] Instance result_ret : MRet result := fun A a => Ok a.
#[global] Instance result_bind : MBind result := fun A B f r =>
  match r with Ok a => f a | Throw e => Throw e end.
#[global] Instance result_fmap : FMap result := fun A B f r =>
  match r with Ok a => Ok (f a) | Throw e => Throw e end.

#[global] Instance exn_eq_dec : EqDecision exn.
Proof. solve_decision. Defined.
#[global] Instance result_eq_dec `{EqDecision A} : EqDecision (result A).
Proof. solve_decision. Defined.

(** Left-associated sequencing, for the accumulating helpers of the code. *)
Declare Scope officer_scope.
Delimit Scope officer_scope with officer.
Notation "r |> f" := (@mbind result result_bind _ _ f r)
  (at level 57, left associativity, only parsing) : officer_scope.
#[global] Open Scope officer_scope.

(** [if (b) throw e;] *)
Definition throw_if (b : bool) (e : exn) : result unit :=
  if b then Throw e else Ok tt.

Definition of_option {A} (o : option A) (e : exn) : result A :=
  match o with Some a => Ok a | None => Throw e end.

(** [std::optional<T>::value_or] *)
Definition value_or {A} (o : option A) (d : A) : A :=
  match o with Some a => a | None => d end.

Definition is_ok {A} (r : result A) : bool :=
  match r with Ok _ => true | Throw _ => false end.

Lemma bind_Ok {A B} (r : result A) (f : A -> result B) b :
  (r ≫= f) = Ok b -> exists a, r = Ok a /\ f a = Ok b.
Proof. destruct r; simpl; [eauto | done]. Qed.

Lemma Ok_inj {A} (a b : A) : Ok a = Ok b -> a = b.
Proof. by intros [= ->]. Qed.
Lemma throw_if_Ok b e u : throw_if b e = Ok u -> b = false.
Proof. by destruct b. Qed.

(** ** Machine integers *)
Definition u16_max : Z := 65535.
Definition u32_max : Z := 4294967295.
Definition u64_max : Z := 18446744073709551615.
Definition i64_max : Z := 9223372036854775807.
Definition u32 (z : Z) : Z := z mod 4294967296.
Definition u64 (z : Z) : Z := z mod 18446744073709551616.

Lemma u64_small z : 0 <= z <= u64_max -> u64 z = z.
Proof. unfold u64, u64_max. intros. apply Z.mod_small. lia. Qed.
Lemma u64_range z : 0 <= u64 z <= u64_max.
Proof.
  unfold u64, u64_max.
  pose proof (Z.mod_pos_bound z 18446744073709551616 ltac:(lia)). lia.
Qed.
Lemma u32_small z : 0 <= z <= u32_max -> u32 z = z.
Proof. unfold u32, u32_max. intros. apply Z.mod_small. lia. Qed.
Lemma u32_range z : 0 <= u32 z <= u32_max.
Proof.
  unfold u32, u32_max.
  pose proof (Z.mod_pos_bound z 4294967296 ltac:(lia)). lia.
Qed.
Lemma u64_add_l a b : u64 (u64 a + b) = u64 (a + b).
Proof. unfold u64. apply Zplus_mod_idemp_l. Qed.
Lemma u64_add_r a b : u64 (a + u64 b) = u64 (a + b).
Proof. unfold u64. apply Zplus_mod_idemp_r. Qed.

(** ** Strings

    [std::string] is a sequence of bytes: Rocq's [string].  [slen] is
    [std::string::size]. *)
Definition slen (s : string) : Z := Z.of_nat (String.length s).

Lemma slen_nonneg s : 0 <= slen s.
Proof. unfold slen. lia. Qed.
Lemma slen_app s t : slen (s +:+ t) = slen s + slen t.
Proof.
  unfold slen. induction s as [|c s IH]; simpl; lia.
Qed.
Lemma slen_cons c s : slen (String c s) = 1 + slen s.
Proof. unfold slen. simpl. lia. Qed.

Lemma string_app_assoc (s t u : string) : (s +:+ t) +:+ u = s +:+ (t +:+ u).
Proof. induction s; simpl; congruence. Qed.
Lemma string_app_nil_r (s : string) : s +:+ "" = s.
Proof. induction s; simpl; congruence. Qed.

Lemma string_app_inj_len (a b c d : string) :
  String.length a = String.length c -> a +:+ b = c +:+ d -> a = c /\ b = d.
Proof.
  revert c; induction a as [|x a IH]; intros [|y c]; simpl; try done.
  intros Hl Heq. injection Heq as -> Heq. injection Hl as Hl.
  destruct (IH c Hl Heq) as [-> ->]. done.
Qed.

Fixpoint str_forallb (p : ascii -> bool) (s : string) : bool :=
  match s with
  | "" => true
  | String c s => p c && str_forallb p s
  end.

(** [s.find(c) != npos] *)
Fixpoint str_contains (c : ascii) (s : string) : bool :=
  match s with
  | "" => false
  | String d s => Ascii.eqb c d || str_contains c s
  end.

Fixpoint starts_with (p s : string) : bool :=
  match p, s with
  | "", _ => true
  | String a p, String b s => Ascii.eqb a b && starts_with p s
  | String _ _, "" => false
  end.

Fixpoint str_drop (n : nat) (s : string) : string :=
  match n, s with
  | O, _ => s
  | S n, String _ s => str_drop n s
  | S _, "" => ""
  end.
Fixpoint str_take (n : nat) (s : string) : string :=
  match n, s with
  | S n, String c s => String c (str_take n s)
  | _, _ => ""
  end.
Fixpoint zeros (n : nat) : string :=
  match n with O => "" | S n => String "0" (zeros n) end.
(** so many zero bytes *)
Fixpoint nul_bytes (n : nat) : string :=
  match n with O => "" | S n => String (ascii_of_N 0) (nul_bytes n) end.
(** the text before and after the first [c] *)
Fixpoint str_split (c : ascii) (s : string) : option (string * string) :=
  match s with
  | "" => None
  | String d r =>
      if Ascii.eqb d c then Some ("", r)
      else match str_split c r with Some (a, b) => Some (String d a, b) | None => None end
  end.
Definition str_empty (s : string) : bool :=
  match s with "" => true | _ => false end.
Fixpoint str_get (s : string) (n : nat) : option ascii :=
  match s, n with
  | "", _ => None
  | String c _, O => Some c
  | String _ s, S n => str_get s n
  end.

Definition code (c : ascii) : Z := Z.of_N (N_of_ascii c).
Definition is_digit (c : ascii) : bool := (48 <=? code c) && (code c <=? 57).
Definition digit_val (c : ascii) : Z := code c - 48.
Definition digit_char (d : Z) : ascii := ascii_of_N (Z.to_N (48 + d)).
(** the lowercase hexadecimal alphabet [0-9a-f] *)
Definition is_lower_hex (c : ascii) : bool :=
  is_digit c || ((97 <=? code c) && (code c <=? 102)).

(** [std::isalnum] in the C locale *)
Definition is_alnum (c : ascii) : bool :=
  is_digit c || ((65 <=? code c) && (code c <=? 90)) || ((97 <=? code c) && (code c <=? 122)).

Lemma zeros_length n : String.length (zeros n) = n.
Proof. induction n as [|n IH]; simpl; congruence. Qed.
Lemma str_length_app a b : String.length (a +:+ b) = (String.length a + String.length b)%nat.
Proof. induction a as [|c a IH]; simpl; [done|]. by rewrite IH. Qed.
Lemma starts_with_app p s : starts_with p (p +:+ s) = true.
Proof. induction p as [|c p IH]; [done|]. simpl. by rewrite Ascii.eqb_refl. Qed.
Lemma str_take_app a b : str_take (String.length a) (a +:+ b) = a.
Proof. induction a as [|c a IH]; simpl; [by destruct b|]. by rewrite IH. Qed.
Lemma str_drop_app_add s t k : str_drop (String.length s + k) (s +:+ t) = str_drop k t.
Proof. induction s as [|c s IH]; [done|]. apply IH. Qed.
Lemma str_drop_app a b : str_drop (String.length a) (a +:+ b) = b.
Proof. rewrite <- (Nat.add_0_r (String.length a)), str_drop_app_add. by destruct b. Qed.
Lemma slen_take n s : slen (str_take n s) = Z.min (Z.of_nat n) (slen s).
Proof.
  revert s. induction n as [|n IH]; intros [|c s]; simpl; rewrite ?slen_cons, ?IH; unfold slen in *; simpl; lia.
Qed.
Lemma slen_drop n s : slen (str_drop n s) = Z.max 0 (slen s - Z.of_nat n).
Proof.
  revert s. induction n as [|n IH]; intros [|c s]; simpl; rewrite ?slen_cons, ?IH; unfold slen in *; simpl; lia.
Qed.
Lemma str_take_add n k s : str_take (n + k) s = str_take n s +:+ str_take k (str_drop n s).
Proof. revert s. induction n as [|n IH]; intros [|c s]; simpl; try done; [by destruct k|by rewrite IH]. Qed.
Lemma str_take_clip n s : str_take n s = str_take (Nat.min n (String.length s)) s.
Proof. revert s. induction n as [|n IH]; intros [|c s]; simpl; [done..|]. by rewrite <- IH. Qed.
Lemma str_take_self n s : str_take (String.length (str_take n s)) s = str_take n s.
Proof. revert s. induction n as [|n IH]; intros [|c s]; simpl; [done..|]. by rewrite IH. Qed.
Lemma str_drop_drop n k s : str_drop n (str_drop k s) = str_drop (k + n) s.
Proof. revert s. induction k as [|k IH]; intros [|c s]; simpl; [done|done|by destruct n|apply IH]. Qed.
Lemma str_take_0 s : str_take 0 s = "".
Proof. by destruct s. Qed.

Lemma code_range c : 0 <= code c < 256.
Proof. destruct c as [[] [] [] [] [] [] [] []]; vm_compute; split; congruence. Qed.
Lemma code_inj c d : code c = code d -> c = d.
Proof.
  unfold code. intros H%N2Z.inj.
  rewrite <- (ascii_N_embedding c), <- (ascii_N_embedding d). by rewrite H.
Qed.
Lemma code_digit_char d : 0 <= d < 10 -> code (digit_char d) = 48 + d.
Proof.
  intros. unfold code, digit_char. rewrite N_ascii_embedding by lia. lia.
Qed.
Lemma is_digit_char d : 0 <= d < 10 -> is_digit (digit_char d) = true.
Proof. intros. unfold is_digit. rewrite code_digit_char by lia. lia. Qed.
Lemma digit_val_char d : 0 <= d < 10 -> digit_val (digit_char d) = d.
Proof. intros. unfold digit_val. rewrite code_digit_char by lia. lia. Qed.

(** ** Decimal text: [std::to_string] and [std::from_chars] *)
Fixpoint udec_aux (fuel : nat) (z : Z) (acc : string) : string :=
  match fuel with
  | O => acc
  | S f =>
      let acc := String (digit_char (z mod 10)) acc in
      if z <? 10 then acc else udec_aux f (z / 10) acc
  end.
(** One decimal digit at least halves the number, so [log2 z + 1] rounds suffice. *)
Definition udec (z : Z) : string := udec_aux (S (Z.to_nat (Z.log2 z))) z "".
Definition to_string (z : Z) : string :=
  if z <? 0 then String "-" (udec (- z)) else udec z.

(** The value of a digit sequence, continuing from [acc]; [None] at the first
    character that is not a digit. *)
Fixpoint dec_value (s : string) (acc : Z) : option Z :=
  match s with
  | "" => Some acc
  | String c s => if is_digit c then dec_value s (acc * 10 + digit_val c) else None
  end.
(** [from_chars(s.data(), s.data() + s.size(), value)] succeeds and consumes
    all of [s], for an unsigned type with largest value [max]. *)
Definition from_chars_all (max : Z) (s : string) : option Z :=
  match s with
  | "" => None
  | _ => match dec_value s 0 with
         | Some v => if v <=? max then Some v else None
         | None => None
         end
  end.

Lemma udec_aux_value f z acc :
  0 <= z < 2 ^ Z.of_nat (S f) -> dec_value (udec_aux (S f) z acc) 0 = dec_value acc z.
Proof.
  revert z acc; induction f as [|f IH]; intros z acc Hz.
  - change (2 ^ Z.of_nat 1) with 2 in Hz. simpl.
    assert ((z <? 10) = true) as -> by lia.
    assert (z mod 10 = z) as -> by (apply Z.mod_small; lia). simpl.
    rewrite is_digit_char, digit_val_char by lia. done.
  - rewrite Nat2Z.inj_succ, Z.pow_succ_r in Hz by lia.
    pose proof (Z.mod_pos_bound z 10 ltac:(lia)).
    change (udec_aux (S (S f)) z acc) with
      (let a := String (digit_char (z mod 10)) acc in
       if z <? 10 then a else udec_aux (S f) (z / 10) a).
    cbv zeta. destruct (z <? 10) eqn:E.
    + assert (z mod 10 = z) as Hm by (apply Z.mod_small; lia). rewrite Hm. simpl.
      rewrite is_digit_char, digit_val_char by lia. done.
    + rewrite IH by (split; [apply Z.div_pos; lia | apply Z.div_lt_upper_bound; lia]).
      simpl. rewrite is_digit_char, digit_val_char by lia.
      f_equal. pose proof (Z.div_mod z 10 ltac:(lia)). lia.
Qed.

Lemma udec_fuel z : 0 <= z -> 0 <= z < 2 ^ Z.of_nat (S (Z.to_nat (Z.log2 z))).
Proof.
  intros Hz. split; [done|]. destruct (decide (z = 0)) as [->|]; [done|].
  rewrite Nat2Z.inj_succ, Z2Nat.id by apply Z.log2_nonneg.
  apply Z.log2_spec. lia.
Qed.

Lemma dec_value_zeros n s : dec_value (zeros n +:+ s) 0 = dec_value s 0.
Proof. induction n as [|n IH]; [done|]. simpl. exact IH. Qed.
Lemma dec_value_udec z : 0 <= z -> dec_value (udec z) 0 = Some z.
Proof. intros Hz. unfold udec. by rewrite udec_aux_value by by apply udec_fuel. Qed.

Lemma udec_aux_digits f z acc :
  0 <= z -> str_forallb is_digit acc = true -> str_forallb is_digit (udec_aux f z acc) = true.
Proof.
  revert z acc; induction f as [|f IH]; intros z acc Hz Hacc; [done|].
  simpl. pose proof (Z.mod_pos_bound z 10 ltac:(lia)).
  assert (str_forallb is_digit (String (digit_char (z mod 10)) acc) = true).
  { simpl. rewrite is_digit_char by lia. done. }
  destruct (z <? 10); [done|]. apply IH; [apply Z.div_pos; lia | done].
Qed.
Lemma udec_digits z : 0 <= z -> str_forallb is_digit (udec z) = true.
Proof. intros. by apply udec_aux_digits. Qed.

Lemma udec_aux_nonempty f z acc : udec_aux (S f) z acc <> "".
Proof.
  revert z acc; induction f as [|f IH]; intros z acc.
  - simpl. by destruct (z <? 10).
  - change (udec_aux (S (S f)) z acc) with
      (let a := String (digit_char (z mod 10)) acc in
       if z <? 10 then a else udec_aux (S f) (z / 10) a).
    cbv zeta. destruct (z <? 10); [done|]. apply IH.
Qed.
Lemma udec_nonempty z : udec z <> "".
Proof. apply udec_aux_nonempty. Qed.

(** the decimal text of a positive number has no leading zero *)
Lemma udec_aux_leading f z acc :
  0 < z < 2 ^ Z.of_nat (S f) ->
  exists c r, udec_aux (S f) z acc = String c r /\ c <> "0"%char.
Proof.
  revert z acc; induction f as [|f IH]; intros z acc Hz.
  - change (2 ^ Z.of_nat 1) with 2 in Hz. assert (z = 1) as -> by lia. simpl. eauto.
  - change (udec_aux (S (S f)) z acc) with
      (let a := String (digit_char (z mod 10)) acc in
       if z <? 10 then a else udec_aux (S f) (z / 10) a).
    cbv zeta. destruct (Z.ltb_spec z 10).
    + rewrite Z.mod_small by lia. eexists _, _. split; [done|]. intros E.
      apply (f_equal code) in E. rewrite code_digit_char in E by lia.
      change (code "0") with 48 in E. lia.
    + rewrite Nat2Z.inj_succ, Z.pow_succ_r in Hz by lia.
      apply IH. split; [apply Z.div_str_pos; lia|apply Z.div_lt_upper_bound; lia].
Qed.
Lemma udec_leading z : 0 < z -> exists c r, udec z = String c r /\ c <> "0"%char.
Proof. intros Hz. apply udec_aux_leading. split; [done|]. apply udec_fuel. lia. Qed.

Lemma to_string_nonneg z : 0 <= z -> to_string z = udec z.
Proof. intros. unfold to_string. by destruct (Z.ltb_spec z 0); [lia|]. Qed.

(** Reading back the decimal text of a value the type can hold gives the value. *)
Lemma from_chars_to_string max z :
  0 <= z <= max -> from_chars_all max (to_string z) = Some z.
Proof.
  intros Hz. rewrite to_string_nonneg by lia. unfold from_chars_all.
  pose proof (udec_nonempty z). destruct (udec z) eqn:E; [done|].
  rewrite <- E, dec_value_udec by lia. by destruct (Z.leb_spec z max); [|lia].
Qed.

Lemma udec_inj a b : 0 <= a -> 0 <= b -> udec a = udec b -> a = b.
Proof.
  intros Ha Hb E. pose proof (dec_value_udec a Ha) as H.
  rewrite E, dec_value_udec in H by done. congruence.
Qed.

Lemma digits_no_minus s : str_forallb is_digit s = true -> forall t, s <> String "-" t.
Proof. destruct s as [|c s]; [done|]. simpl. intros H t [= ->]. done. Qed.

Lemma to_string_inj a b : to_string a = to_string b -> a = b.
Proof.
  unfold to_string. destruct (Z.ltb_spec a 0), (Z.ltb_spec b 0); intros E.
  - injection E as E. apply udec_inj in E; lia.
  - symmetry in E. by apply digits_no_minus in E; [|apply udec_digits].
  - by apply digits_no_minus in E; [|apply udec_digits].
  - apply udec_inj in E; lia.
Qed.

Lemma dec_value_nonneg s acc v : 0 <= acc -> dec_value s acc = Some v -> 0 <= v.
Proof.
  revert acc; induction s as [|c s IH]; simpl; intros acc Hacc H; [congruence|].
  destruct (is_digit c) eqn:D; [|done]. apply IH in H; [done|].
  unfold is_digit, digit_val in *. lia.
Qed.
Lemma from_chars_range max s v : from_chars_all max s = Some v -> 0 <= v <= max.
Proof.
  unfold from_chars_all. destruct s as [|c s]; [done|].
  destruct (dec_value (String c s) 0) as [w|] eqn:E; [|done].
  apply dec_value_nonneg in E; [|lia].
  destruct (Z.leb_spec w max); intros; simplify_eq; lia.
Qed.

(** ** Length-prefixed fields

    A digit string is delimited by the first non-digit, so [<size>:<bytes>]
    decodes in one way only.  Both identity modules of the agent rely on it. *)
Lemma digits_split d1 d2 c r1 r2 :
  str_forallb is_digit d1 = true -> str_forallb is_digit d2 = true -> is_digit c = false ->
  d1 +:+ String c r1 = d2 +:+ String c r2 -> d1 = d2 /\ r1 = r2.
Proof.
  revert d2; induction d1 as [|a d1 IH]; intros [|b d2]; simpl; intros H1 H2 Hc E.
  - by injection E.
  - injection E as -> E. rewrite Hc in H2. done.
  - injection E as -> E. rewrite Hc in H1. done.
  - injection E as -> E. apply andb_true_iff in H1 as [_ H1], H2 as [_ H2].
    by destruct (IH d2 H1 H2 Hc E) as [-> ->].
Qed.

Definition sized (v : string) (rest : string) : string :=
  to_string (slen v) +:+ String ":" (v +:+ rest).

Lemma sized_inj v w r1 r2 : sized v r1 = sized w r2 -> v = w /\ r1 = r2.
Proof.
  unfold sized. rewrite !to_string_nonneg by apply slen_nonneg. intros E.
  apply digits_split in E as [E1 E2];
    [|apply udec_digits, slen_nonneg|apply udec_digits, slen_nonneg|done].
  apply udec_inj in E1; [|apply slen_nonneg|apply slen_nonneg].
  unfold slen in E1. apply string_app_inj_len in E2 as [-> ->]; [done|lia].
Qed.

(** ** Sums over lists *)
Definition zsum {A} (f : A -> Z) (l : list A) : Z := foldr (fun a s => f a + s) 0 l.

#[global] Arguments zsum : simpl never.
Lemma zsum_nil {A} (f : A -> Z) : zsum f [] = 0.
Proof. done. Qed.
Lemma zsum_cons {A} (f : A -> Z) a l : zsum f (a :: l) = f a + zsum f l.
Proof. done. Qed.
Lemma zsum_app {A} (f : A -> Z) l k : zsum f (l ++ k) = zsum f l + zsum f k.
Proof. induction l as [|a l IH]; [done|]. simpl. rewrite !zsum_cons, IH. lia. Qed.
Lemma zsum_nonneg {A} (f : A -> Z) l : (forall a, 0 <= f a) -> 0 <= zsum f l.
Proof. intros H. induction l as [|a l IH]; [done|]. rewrite zsum_cons. pose proof (H a). lia. Qed.

#[global] Instance zsum_perm {A} (f : A -> Z) : Proper ((≡ₚ) ==> (=)) (zsum f).
Proof.
  intros l k H. induction H as [|x l k H IH|x y l|l k m H1 IH1 H2 IH2]; [done| | |congruence].
  - by rewrite !zsum_cons, IH.
  - rewrite !zsum_cons. lia.
Qed.

(** a map's sum of a measure of its values, after one binding is replaced *)
Definition map_sum {A} (f : A -> Z) (m : gmap string A) : Z :=
  zsum (fun e => f e.2) (map_to_list m).
Lemma map_sum_insert {A} (f : A -> Z) (m : gmap string A) k v :
  map_sum f (<[k := v]> m) = map_sum f m - match m !! k with Some w => f w | None => 0 end + f v.
Proof.
  unfold map_sum. rewrite <- insert_delete_eq, map_to_list_insert by apply lookup_delete_eq.
  rewrite zsum_cons. simpl. destruct (m !! k) as [w|] eqn:E.
  - rewrite <- (map_to_list_delete m k w E), zsum_cons. simpl. lia.
  - rewrite delete_id by done. lia.
Qed.
Lemma map_sum_nonneg {A} (f : A -> Z) (m : gmap string A) :
  (forall k v, m !! k = Some v -> 0 <= f v) -> 0 <= map_sum f m.
Proof.
  intros H. unfold map_sum.
  assert (Hl : forall k v, (k, v) ∈ map_to_list m -> 0 <= f v)
    by (intros k v Hk; apply (H k), elem_of_map_to_list, Hk).
  induction (map_to_list m) as [|[k v] l IH]; [done|]. rewrite zsum_cons. simpl.
  pose proof (Hl k v ltac:(apply elem_of_cons; by left)).
  assert (0 <= zsum (fun e : string * A => f e.2) l); [|lia]. apply IH.
  intros k' v' Hk. apply (Hl k'). apply elem_of_cons. by right.
Qed.

Definition zlen {A} (l : list A) : Z := Z.of_nat (length l).
#[global] Arguments zlen : simpl never.
Lemma zlen_nil {A} : zlen (@nil A) = 0.
Proof. done. Qed.
Lemma zlen_cons {A} (a : A) l : zlen (a :: l) = 1 + zlen l.
Proof. unfold zlen. simpl. lia. Qed.
Lemma zlen_app {A} (l k : list A) : zlen (l ++ k) = zlen l + zlen k.
Proof. unfold zlen. rewrite length_app. lia. Qed.
Lemma zlen_nonneg {A} (l : list A) : 0 <= zlen l.
Proof. unfold zlen. lia. Qed.

(** ** Automation *)
Create HintDb officer.
Create Rewrite HintDb officer.
#[export] Hint Rewrite @zlen_nil @zlen_cons @zlen_app @zsum_nil @zsum_cons @zsum_app
  slen_app slen_cons @length_app : officer.
#[export] Hint Resolve slen_nonneg zlen_nonneg u64_range u32_range : officer.

(** Case analysis on the tests of the code: split every [if] and [match] on a
    boolean or option scrutinee in the goal, keeping the equation. *)
Ltac split_code :=
  repeat match goal with
  | |- context [if ?b then _ else _] => destruct b eqn:?
  | |- context [match ?o with Some _ => _ | None => _ end] => destruct o eqn:?
  | |- context [match ?r with Ok _ => _ | Throw _ => _ end] => destruct r eqn:?
  end.
(** Invert a successful run of a [result] computation in [H]. *)
Ltac inv_ok H :=
  repeat match type of H with
  | (_ ≫= _) = Ok _ =>
      let a := fresh "a" in let Ha := fresh "Ha" in
      apply bind_Ok in H as (a & Ha & H); cbv beta in H;
      try match type of Ha with throw_if _ _ = _ => apply throw_if_Ok in Ha; clear a end
  end.
(** Replace the length of an empty list by 0. *)
Ltac zlen_nil_simpl :=
  repeat match goal with
  | |- context [zlen (@nil ?A)] => change (zlen (@nil A)) with 0
  | |- context [zsum ?f (@nil ?A)] => change (zsum f (@nil A)) with 0
  end.

(** ** Finite checks *)
(** a property of the first [n] numbers, checked by evaluation *)
Lemma below_forallb (p : Z -> bool) n v :
  forallb p (seqZ 0 n) = true -> 0 <= v < n -> p v = true.
Proof.
  rewrite forallb_forall. intros H Hv. apply H, list_elem_of_In, elem_of_seqZ. lia.
Qed.
