(* ===== verification/Ring.v ===== *)
(** * Preallocated rings

    Both bounded queues of the agent ([pipeline/raw_handoff.cpp] and
    [pipeline/diagnostic_output.cpp]) are a vector of optional slots with a head,
    a tail and a count.  [ring_shape] says which slots are occupied, and by what;
    the lemmas follow one write at the tail and one read at the head. *)

From S2P Require Import Prelude.

Lemma rotate_split {A} (t d : list A) x :
  rotate (length t) (t ++ x :: d) = (x :: d) ++ t /\
  rotate ((length t + 1) mod length (t ++ x :: d)) (t ++ x :: d) = (d ++ t) ++ [x].
Proof.
  unfold rotate. rewrite Nat.Div0.mod_mod, !length_app. simpl.
  rewrite (Nat.mod_small (length t)) by lia. rewrite drop_app_length, take_app_length.
  split; [done|].
  destruct (decide (length d = 0)%nat) as [Hd|Hd].
  - apply nil_length_inv in Hd as ->. simpl. by rewrite Nat.Div0.mod_same, drop_0, app_nil_r.
  - rewrite Nat.mod_small by lia.
    rewrite drop_app_ge, take_app_ge by lia.
    replace (length t + 1 - length t)%nat with 1%nat by lia. simpl.
    by rewrite drop_0, take_0, app_assoc.
Qed.
Lemma rotate_step {A} (l : list A) n x r :
  (n < length l)%nat -> rotate n l = x :: r ->
  rotate ((n + 1) mod length l) l = r ++ [x].
Proof.
  intros Hn E. destruct (lookup_lt_is_Some_2 l n Hn) as [y Hy].
  apply take_drop_middle in Hy. revert E. rewrite <- Hy.
  assert (Hlt : n = length (take n l)) by (rewrite length_take; lia).
  rewrite Hlt at 1 4. destruct (rotate_split (take n l) (drop (S n) l) y) as [-> ->].
  by intros [= -> <-].
Qed.

Lemma rotate_index base off len :
  (base < len)%nat -> rotate_nat_add base off len = ((base + off) mod len)%nat.
Proof.
  intros. unfold rotate_nat_add.
  rewrite <- Nat2Z.inj_add, <- Nat2Z.inj_mod. apply Nat2Z.id.
Qed.

Section Ring.
Context {A : Type}.
Implicit Types (slots : list (option A)) (items : list A).

(** The occupied slots are the [queued] ones from [head] on; [items] is what
    they hold, oldest first. *)
Definition ring_shape (limit : nat) slots (head tail queued : nat) items : Prop :=
  length slots = limit /\ (0 < limit)%nat /\ (head < limit)%nat /\ queued = length items /\
  (length items <= limit)%nat /\ tail = ((head + length items) mod limit)%nat /\
  rotate head slots = (Some <$> items) ++ replicate (limit - length items) None.

Lemma ring_shape_empty limit : (0 < limit)%nat -> ring_shape limit (replicate limit None) 0 0 0 [].
Proof.
  intros H. repeat split; simpl; try lia.
  - by rewrite length_replicate.
  - by rewrite Nat.Div0.mod_0_l.
  - unfold rotate. rewrite Nat.Div0.mod_0_l, drop_0, take_0, app_nil_r. by rewrite Nat.sub_0_r.
Qed.
Lemma ring_shape_contents limit slots head tail queued items :
  ring_shape limit slots head tail queued items -> omap id (rotate head slots) = items.
Proof.
  intros (_ & _ & _ & _ & _ & _ & ->). rewrite omap_app.
  assert (forall n, omap id (replicate n (@None A)) = []) as ->.
  { intros n. induction n as [|n IH]; [done | exact IH]. }
  rewrite app_nil_r. induction items as [|a l IH]; [done|].
  rewrite fmap_cons. cbn. by rewrite IH.
Qed.
Lemma ring_shape_push limit slots head tail queued items it :
  ring_shape limit slots head tail queued items -> (length items < limit)%nat ->
  ring_shape limit (<[tail := Some it]> slots) head ((tail + 1) mod limit)%nat (S queued) (items ++ [it]).
Proof.
  intros (Hlen & Hpos & Hhd & Hq & Hle & Htl & Hrot) Hlt.
  unfold ring_shape. rewrite length_insert, length_app. simpl.
  repeat split; try lia.
  - rewrite Htl, Nat.Div0.add_mod_idemp_l. f_equal. lia.
  - rewrite Htl, <- (rotate_index head (length items)) by done.
    rewrite <- Hlen, rotate_insert_l, Hrot, Hlen by lia.
    rewrite insert_app_r_alt, length_fmap, Nat.sub_diag by (rewrite length_fmap; lia).
    replace (limit - length items)%nat with (S (limit - (length items + 1))) by lia.
    simpl. rewrite fmap_app. simpl. by rewrite <- app_assoc.
Qed.
Lemma ring_shape_pop limit slots head tail queued items :
  ring_shape limit slots head tail queued items -> queued <> 0%nat ->
  exists it rest, items = it :: rest /\ slots !! head = Some (Some it) /\
    ring_shape limit (<[head := None]> slots) ((head + 1) mod limit)%nat tail (pred queued) rest.
Proof.
  intros (Hlen & Hpos & Hhd & Hq & Hle & Htl & Hrot) Hne.
  destruct items as [|it rest]; [done|]. exists it, rest. split; [done|]. simpl in *.
  assert (Hi : rotate_nat_add head 0 (length slots) = head).
  { rewrite rotate_index, Nat.add_0_r by lia. apply Nat.mod_small. lia. }
  split.
  - pose proof (lookup_rotate_r slots head 0 ltac:(lia)) as HL. by rewrite Hrot, Hi in HL.
  - unfold ring_shape. rewrite length_insert. repeat split; try lia.
    + apply Nat.mod_upper_bound. lia.
    + rewrite Htl, Nat.Div0.add_mod_idemp_l. f_equal. lia.
    + pose proof (rotate_insert_l slots head 0 None ltac:(lia)) as HI.
      rewrite Hi, Hrot in HI. simpl in HI.
      rewrite <- Hlen at 1. rewrite <- (length_insert slots head None).
      assert (Hh : (head < length (<[head := None]> slots))%nat) by (rewrite length_insert; lia).
      rewrite (rotate_step _ _ _ _ Hh HI).
      replace (limit - length rest)%nat with (S (limit - S (length rest))) by lia.
      rewrite <- app_assoc, <- replicate_S_end. done.
Qed.
End Ring.
