(* ===== verification/Telemetry.v ===== *)
(** * Raw telemetry contracts

    The source-neutral facts the collectors publish
    ([telemetry/raw_event_common.hpp], [telemetry/raw_process_event.hpp]).
    One record per struct, fields in the order of the header, one constructor
    of [RawEvent] per alternative of the variant.  A [UtcTimestamp] is its
    signed nanosecond count; fixed-size arrays are lists. *)

From S2P Require Import Prelude.

Definition UtcTimestamp := Z.

Inductive TelemetrySourceKind :=
| etw | sysmon | windows_event_log | minifilter | api_hook | etw_kernel.
#[global] Instance TelemetrySourceKind_eq_dec : EqDecision TelemetrySourceKind.
Proof. solve_decision. Defined.

Definition source_kind_name (kind : TelemetrySourceKind) : string :=
  match kind with
  | etw => "etw"
  | sysmon => "sysmon"
  | windows_event_log => "windows_event_log"
  | minifilter => "minifilter"
  | api_hook => "api_hook"
  | etw_kernel => "etw_kernel"
  end.

Inductive OperationPhase := reported | attempted | completed_phase.
Inductive NativeStatusKind := ntstatus | win32_error.
Record NativeStatus := { ns_kind : NativeStatusKind; ns_value : Z }.

Record SourceProvenance := {
  sp_kind : TelemetrySourceKind;
  sp_provider : string;
  sp_channel : option string;
  sp_record_id : option Z
}.
#[global] Instance SourceProvenance_eq_dec : EqDecision SourceProvenance.
Proof. solve_decision. Defined.

Record CachedProcessContext := {
  cc_source : SourceProvenance;
  cc_process_start_time : UtcTimestamp;
  cc_pid : Z;
  cc_process_guid : string;
  cc_executable : option string;
  cc_user_name : option string;
  cc_user_sid : option string
}.
#[global] Instance CachedProcessContext_eq_dec : EqDecision CachedProcessContext.
Proof. unfold UtcTimestamp. solve_decision. Defined.

Record RawProcessContext := {
  pc_pid : Z;
  pc_start_time_ticks : option Z;
  pc_executable : option string;
  pc_process_name : option string;
  pc_user_name : option string;
  pc_user_sid : option string;
  pc_process_guid : option string;
  pc_cached_context : option CachedProcessContext
}.

Inductive EtwUIntFieldState := copied | absent | type_refused | size_refused | query_failed.
Record EtwUIntField := {
  ef_state : EtwUIntFieldState;
  ef_in_type : option Z;
  ef_native_status : option Z;
  ef_reported_bytes : option Z;
  ef_value : option Z
}.
Record EtwProcessNativeFields := {
  en_event_id : Z;
  en_event_version : Z;
  en_fields : list EtwUIntField
}.
Record SysmonProcessFields := { sf_fields : list (option string) }.

Record RawProcessEvent := {
  pe_source : SourceProvenance;
  pe_process_start_time : UtcTimestamp;
  pe_pid : Z;
  pe_start_time_ticks : option Z;
  pe_process_guid : option string;
  pe_parent_process_guid : option string;
  pe_parent_pid : option Z;
  pe_parent_executable : option string;
  pe_executable : option string;
  pe_command_line : option string;
  pe_user_sid : option string;
  pe_user_name : option string;
  pe_sha256 : option string;
  pe_terminated : bool;
  pe_termination_time : option UtcTimestamp;
  pe_termination_time_ticks : option Z;
  pe_exit_code : option Z;
  pe_native_fields : option EtwProcessNativeFields;
  pe_sysmon_fields : option SysmonProcessFields
}.

Inductive NetworkDirection := inbound | outbound.
Inductive NetworkProtocol := tcp | udp | other_protocol.
Record RawNetworkEvent := {
  ne_source : SourceProvenance;
  ne_timestamp : UtcTimestamp;
  ne_process : RawProcessContext;
  ne_direction : NetworkDirection;
  ne_protocol : NetworkProtocol;
  ne_source_ip : option string;
  ne_source_port : option Z;
  ne_destination_ip : option string;
  ne_destination_port : option Z;
  ne_destination_hostname : option string
}.

Inductive FileOperation :=
| file_create | file_remove | file_rename | file_open | file_write
| file_set_information | file_overwrite.
Record RawFileEvent := {
  fe_source : SourceProvenance;
  fe_timestamp : UtcTimestamp;
  fe_process : RawProcessContext;
  fe_operation : FileOperation;
  fe_path : option string;
  fe_target_path : option string;
  fe_previous_path : option string;
  fe_sha256 : option string;
  fe_phase : OperationPhase;
  fe_status : option NativeStatus
}.

Inductive RegistryOperation := add_key | delete_key | set_value | rename_key.
Record RawRegistryEvent := {
  re_source : SourceProvenance;
  re_timestamp : UtcTimestamp;
  re_process : RawProcessContext;
  re_operation : RegistryOperation;
  re_key_path : option string;
  re_value_name : option string;
  re_value_type : option string;
  re_value_data : option string
}.

Record RawImageLoadEvent := {
  ie_source : SourceProvenance;
  ie_timestamp : UtcTimestamp;
  ie_process : RawProcessContext;
  ie_path : option string;
  ie_is_signed : option bool;
  ie_signature_status : option string;
  ie_sha256 : option string
}.

Record RawSysmonExtendedEvent := {
  xe_source : SourceProvenance;
  xe_timestamp : UtcTimestamp;
  xe_process : RawProcessContext;
  xe_event_id : Z;
  xe_event_time_field : string;
  xe_target : option RawProcessContext;
  xe_granted_access : option Z;
  xe_start_address : option Z;
  xe_new_thread_id : option Z;
  xe_query_status : option Z;
  xe_call_trace : option string;
  xe_start_module : option string;
  xe_start_function : option string;
  xe_query_name : option string;
  xe_query_results : option string;
  xe_source_fields : list (string * string)
}.

Inductive RawEvent :=
| ProcessEvent (e : RawProcessEvent)
| NetworkEvent (e : RawNetworkEvent)
| FileEvent (e : RawFileEvent)
| RegistryEvent (e : RawRegistryEvent)
| ImageLoadEvent (e : RawImageLoadEvent)
| SysmonExtendedEvent (e : RawSysmonExtendedEvent).

Lemma source_kind_name_inj a b : source_kind_name a = source_kind_name b -> a = b.
Proof. destruct a, b; done. Qed.
