(* ===== verification/Handoff.v ===== *)
(** * The raw-event handoff

    [pipeline/raw_handoff.cpp]: the bounded ring between the acquisition
    callbacks (producers) and the one worker that runs the handler.  Every
    operation takes the mutex once, except the worker's loop body, which takes
    it twice with the handler call in between; each critical section is one
    function on [RawHandoff] here, and an execution is any sequence of them.
    [working] is the item the worker holds between its two critical sections. *)

From S2P Require Import Prelude Ring Telemetry.

(** ** The charge of an event *)
Section charge.
(** [std::string::capacity], [std::vector::capacity] and [sizeof] are the
    implementation's: any values with [capacity >= size] *)
Context (capacity : string -> Z) (fields_capacity : list (string * string) -> Z).
Context (sizeof_event sizeof_pair : Z).

Definition add (bytes : Z) (value : string) : result Z :=
  if u64_max - bytes <=? capacity value
  then Throw (length_error "raw event charge overflow")
  else Ok (bytes + (capacity value + 1)).
Definition add_optional (value : option string) (bytes : Z) : result Z :=
  match value with Some v => add bytes v | None => Ok bytes end.
Definition add_source (value : SourceProvenance) (bytes : Z) : result Z :=
  add bytes (sp_provider value) |> add_optional (sp_channel value).
Definition add_context (process : RawProcessContext) (bytes : Z) : result Z :=
  add_optional (pc_executable process) bytes |> add_optional (pc_process_name process)
  |> add_optional (pc_user_name process) |> add_optional (pc_user_sid process)
  |> add_optional (pc_process_guid process)
  |> fun bytes =>
    match pc_cached_context process with
    | None => Ok bytes
    | Some cached =>
        add_source (cc_source cached) bytes |> (fun b => add b (cc_process_guid cached))
        |> add_optional (cc_executable cached) |> add_optional (cc_user_name cached)
        |> add_optional (cc_user_sid cached)
    end.
Definition add_all (values : list (option string)) (bytes : Z) : result Z :=
  foldl (fun r v => r |> add_optional v) (Ok bytes) values.
Definition add_source_fields (fields : list (string * string)) (bytes : Z) : result Z :=
  if (u64_max - bytes) / sizeof_pair <? fields_capacity fields
  then Throw (length_error "raw source fields charge overflow")
  else foldl (fun r f => r |> (fun b => add b f.1) |> (fun b => add b f.2))
         (Ok (bytes + fields_capacity fields * sizeof_pair)) fields.

(** the visitor: what one event's owned strings add to [bytes] *)
Definition visit_charge (event : RawEvent) (bytes : Z) : result Z :=
  match event with
  | ProcessEvent raw =>
      add_source (pe_source raw) bytes
      |> add_optional (pe_process_guid raw) |> add_optional (pe_parent_process_guid raw)
      |> add_optional (pe_parent_executable raw) |> add_optional (pe_executable raw)
      |> add_optional (pe_command_line raw) |> add_optional (pe_user_sid raw)
      |> add_optional (pe_user_name raw) |> add_optional (pe_sha256 raw)
      |> fun bytes => match pe_sysmon_fields raw with
                      | Some s => add_all (sf_fields s) bytes
                      | None => Ok bytes
                      end
  | NetworkEvent raw =>
      add_source (ne_source raw) bytes |> add_context (ne_process raw)
      |> add_optional (ne_source_ip raw) |> add_optional (ne_destination_ip raw)
      |> add_optional (ne_destination_hostname raw)
  | FileEvent raw =>
      add_source (fe_source raw) bytes |> add_context (fe_process raw)
      |> add_optional (fe_path raw) |> add_optional (fe_target_path raw)
      |> add_optional (fe_previous_path raw) |> add_optional (fe_sha256 raw)
  | RegistryEvent raw =>
      add_source (re_source raw) bytes |> add_context (re_process raw)
      |> add_optional (re_key_path raw) |> add_optional (re_value_name raw)
      |> add_optional (re_value_type raw) |> add_optional (re_value_data raw)
  | ImageLoadEvent raw =>
      add_source (ie_source raw) bytes |> add_context (ie_process raw)
      |> add_optional (ie_path raw) |> add_optional (ie_signature_status raw)
      |> add_optional (ie_sha256 raw)
  | SysmonExtendedEvent raw =>
      add_source (xe_source raw) bytes |> add_context (xe_process raw)
      |> (fun b => add b (xe_event_time_field raw))
      |> add_optional (xe_call_trace raw) |> add_optional (xe_start_module raw)
      |> add_optional (xe_start_function raw) |> add_optional (xe_query_name raw)
      |> add_optional (xe_query_results raw)
      |> add_source_fields (xe_source_fields raw)
      |> fun bytes => match xe_target raw with
                      | Some t => add_context t bytes
                      | None => Ok bytes
                      end
  end.

Definition raw_event_charge (event : RawEvent) : result Z :=
  visit_charge event sizeof_event.
End charge.

(** ** State *)
Record Item := { item_event : RawEvent; item_charge : Z }.

Record HandoffStats := {
  admitted : Z; completed : Z; failed : Z; refused : Z;
  contention_refused : Z; stats_exception_refused : Z;
  owned_events : nat; charged_bytes : Z;
  stats_event_limit : nat; stats_byte_limit : Z;
  fixed_ring_bytes : Z;
  accepting : bool
}.

Record RawHandoff := {
  event_limit : nat;
  byte_limit : Z;
  queue : list (option Item);
  head : nat;
  tail : nat;
  queued : nat;
  status : HandoffStats;
  exception_refused : Z;
  working : option Item;
  worker_returned : bool
}.

Definition initial_stats (events : nat) (bytes ring : Z) : HandoffStats := {|
  admitted := 0; completed := 0; failed := 0; refused := 0;
  contention_refused := 0; stats_exception_refused := 0;
  owned_events := 0; charged_bytes := 0;
  stats_event_limit := events; stats_byte_limit := bytes;
  fixed_ring_bytes := ring; accepting := true |}.

(** The constructor; [handler] says whether a callable was passed. *)
Definition make (sizeof_slot : Z) (events : nat) (bytes : Z) (handler : bool)
  : result RawHandoff :=
  _ ← throw_if ((events =? 0)%nat || (65536 <? Z.of_nat events) || (bytes =? 0) || negb handler)
        (invalid_argument "invalid raw handoff configuration");
  Ok {| event_limit := events; byte_limit := bytes;
        queue := replicate events None; head := 0; tail := 0; queued := 0;
        status := initial_stats events bytes (Z.of_nat events * sizeof_slot);
        exception_refused := 0; working := None; worker_returned := false |}.

Definition set_status (f : HandoffStats -> HandoffStats) (h : RawHandoff) : RawHandoff :=
  {| event_limit := event_limit h; byte_limit := byte_limit h; queue := queue h;
     head := head h; tail := tail h; queued := queued h; status := f (status h);
     exception_refused := exception_refused h; working := working h;
     worker_returned := worker_returned h |}.

Definition count_refused (s : HandoffStats) : HandoffStats :=
  {| admitted := admitted s; completed := completed s; failed := failed s;
     refused := u64 (refused s + 1); contention_refused := contention_refused s;
     stats_exception_refused := stats_exception_refused s;
     owned_events := owned_events s; charged_bytes := charged_bytes s;
     stats_event_limit := stats_event_limit s; stats_byte_limit := stats_byte_limit s;
     fixed_ring_bytes := fixed_ring_bytes s; accepting := accepting s |}.
Definition count_admitted (charge : Z) (s : HandoffStats) : HandoffStats :=
  {| admitted := u64 (admitted s + 1); completed := completed s; failed := failed s;
     refused := refused s; contention_refused := contention_refused s;
     stats_exception_refused := stats_exception_refused s;
     owned_events := S (owned_events s); charged_bytes := u64 (charged_bytes s + charge);
     stats_event_limit := stats_event_limit s; stats_byte_limit := stats_byte_limit s;
     fixed_ring_bytes := fixed_ring_bytes s; accepting := accepting s |}.
Definition count_finished (ok : bool) (charge : Z) (s : HandoffStats) : HandoffStats :=
  {| admitted := admitted s;
     completed := if ok then u64 (completed s + 1) else completed s;
     failed := if ok then failed s else u64 (failed s + 1);
     refused := refused s; contention_refused := contention_refused s;
     stats_exception_refused := stats_exception_refused s;
     owned_events := pred (owned_events s); charged_bytes := u64 (charged_bytes s - charge);
     stats_event_limit := stats_event_limit s; stats_byte_limit := stats_byte_limit s;
     fixed_ring_bytes := fixed_ring_bytes s; accepting := accepting s |}.
Definition stop_accepting (s : HandoffStats) : HandoffStats :=
  {| admitted := admitted s; completed := completed s; failed := failed s;
     refused := refused s; contention_refused := contention_refused s;
     stats_exception_refused := stats_exception_refused s;
     owned_events := owned_events s; charged_bytes := charged_bytes s;
     stats_event_limit := stats_event_limit s; stats_byte_limit := stats_byte_limit s;
     fixed_ring_bytes := fixed_ring_bytes s; accepting := false |}.

(** ** Operations *)

(** [try_submit]: [charge] is what [raw_event_charge(event)] returned or threw. *)
Definition try_submit (event : RawEvent) (charge : result Z) (h : RawHandoff)
  : bool * RawHandoff :=
  match charge with
  | Throw _ =>
      (false, {| event_limit := event_limit h; byte_limit := byte_limit h; queue := queue h;
                 head := head h; tail := tail h; queued := queued h; status := status h;
                 exception_refused := u64 (exception_refused h + 1); working := working h;
                 worker_returned := worker_returned h |})
  | Ok charge =>
      if negb (accepting (status h)) || (event_limit h <=? owned_events (status h))%nat
         || (u64 (byte_limit h - charged_bytes (status h)) <? charge)
      then (false, set_status count_refused h)
      else
        (true,
         {| event_limit := event_limit h; byte_limit := byte_limit h;
            queue := <[tail h := Some {| item_event := event; item_charge := charge |}]> (queue h);
            head := head h; tail := ((tail h + 1) mod event_limit h)%nat;
            queued := S (queued h); status := count_admitted charge (status h);
            exception_refused := exception_refused h; working := working h;
            worker_returned := worker_returned h |})
  end.

(** First critical section of [run]: [None] while the worker waits on the
    condition variable (nothing queued and still accepting), and after it has
    returned or while it is in the handler. *)
Definition run_take (h : RawHandoff) : option RawHandoff :=
  match worker_returned h, working h with
  | false, None =>
      if (queued h =? 0)%nat && accepting (status h) then None
      else if (queued h =? 0)%nat then
        Some {| event_limit := event_limit h; byte_limit := byte_limit h; queue := queue h;
                head := head h; tail := tail h; queued := queued h; status := status h;
                exception_refused := exception_refused h; working := None;
                worker_returned := true |}
      else match queue h !! head h with
      | Some (Some item) =>
          Some {| event_limit := event_limit h; byte_limit := byte_limit h;
                  queue := <[head h := None]> (queue h);
                  head := ((head h + 1) mod event_limit h)%nat; tail := tail h;
                  queued := pred (queued h); status := status h;
                  exception_refused := exception_refused h; working := Some item;
                  worker_returned := false |}
      | _ => None
      end
  | _, _ => None
  end.

(** Second critical section of [run], after the handler returned ([ok]) or threw. *)
Definition run_finish (ok : bool) (h : RawHandoff) : option RawHandoff :=
  match working h with
  | None => None
  | Some item =>
      Some {| event_limit := event_limit h; byte_limit := byte_limit h; queue := queue h;
              head := head h; tail := tail h; queued := queued h;
              status := count_finished ok (item_charge item) (status h);
              exception_refused := exception_refused h; working := None;
              worker_returned := worker_returned h |}
  end.

(** The critical section of [close]; the join is the wait for [worker_returned]. *)
Definition close (h : RawHandoff) : RawHandoff := set_status stop_accepting h.

Definition stats (h : RawHandoff) : HandoffStats :=
  let s := status h in
  {| admitted := admitted s; completed := completed s; failed := failed s;
     refused := u64 (refused s + exception_refused h);
     contention_refused := contention_refused s;
     stats_exception_refused := exception_refused h;
     owned_events := owned_events s; charged_bytes := charged_bytes s;
     stats_event_limit := stats_event_limit s; stats_byte_limit := stats_byte_limit s;
     fixed_ring_bytes := fixed_ring_bytes s; accepting := accepting s |}.

(** ** The charge is the exact total, or an exception *)
Section charge_exact.
Context (capacity : string -> Z) (fields_capacity : list (string * string) -> Z).
Context (sizeof_event sizeof_pair : Z).
Context (capacity_size : forall s, slen s <= capacity s).
Context (fields_capacity_size : forall l, zlen l <= fields_capacity l).
Context (sizeof_pair_pos : 0 < sizeof_pair).

Definition cost (s : string) : Z := capacity s + 1.
Definition opt_strings (o : option string) : list string := option_list o.
Definition source_strings (s : SourceProvenance) : list string :=
  sp_provider s :: opt_strings (sp_channel s).
Definition cached_strings (c : CachedProcessContext) : list string :=
  source_strings (cc_source c) ++ [cc_process_guid c] ++ opt_strings (cc_executable c)
  ++ opt_strings (cc_user_name c) ++ opt_strings (cc_user_sid c).
Definition context_strings (p : RawProcessContext) : list string :=
  opt_strings (pc_executable p) ++ opt_strings (pc_process_name p)
  ++ opt_strings (pc_user_name p) ++ opt_strings (pc_user_sid p)
  ++ opt_strings (pc_process_guid p)
  ++ match pc_cached_context p with Some c => cached_strings c | None => [] end.

(** every string object the event owns *)
Definition owned_strings (event : RawEvent) : list string :=
  match event with
  | ProcessEvent raw =>
      source_strings (pe_source raw) ++ opt_strings (pe_process_guid raw)
      ++ opt_strings (pe_parent_process_guid raw) ++ opt_strings (pe_parent_executable raw)
      ++ opt_strings (pe_executable raw) ++ opt_strings (pe_command_line raw)
      ++ opt_strings (pe_user_sid raw) ++ opt_strings (pe_user_name raw)
      ++ opt_strings (pe_sha256 raw)
      ++ match pe_sysmon_fields raw with
         | Some s => mjoin (opt_strings <$> sf_fields s)
         | None => []
         end
  | NetworkEvent raw =>
      source_strings (ne_source raw) ++ context_strings (ne_process raw)
      ++ opt_strings (ne_source_ip raw) ++ opt_strings (ne_destination_ip raw)
      ++ opt_strings (ne_destination_hostname raw)
  | FileEvent raw =>
      source_strings (fe_source raw) ++ context_strings (fe_process raw)
      ++ opt_strings (fe_path raw) ++ opt_strings (fe_target_path raw)
      ++ opt_strings (fe_previous_path raw) ++ opt_strings (fe_sha256 raw)
  | RegistryEvent raw =>
      source_strings (re_source raw) ++ context_strings (re_process raw)
      ++ opt_strings (re_key_path raw) ++ opt_strings (re_value_name raw)
      ++ opt_strings (re_value_type raw) ++ opt_strings (re_value_data raw)
  | ImageLoadEvent raw =>
      source_strings (ie_source raw) ++ context_strings (ie_process raw)
      ++ opt_strings (ie_path raw) ++ opt_strings (ie_signature_status raw)
      ++ opt_strings (ie_sha256 raw)
  | SysmonExtendedEvent raw =>
      source_strings (xe_source raw) ++ context_strings (xe_process raw)
      ++ [xe_event_time_field raw]
      ++ opt_strings (xe_call_trace raw) ++ opt_strings (xe_start_module raw)
      ++ opt_strings (xe_start_function raw) ++ opt_strings (xe_query_name raw)
      ++ opt_strings (xe_query_results raw)
      ++ mjoin ((fun f => [f.1; f.2]) <$> xe_source_fields raw)
      ++ match xe_target raw with Some t => context_strings t | None => [] end
  end.
Definition owned_array (event : RawEvent) : Z :=
  match event with
  | SysmonExtendedEvent raw => fields_capacity (xe_source_fields raw) * sizeof_pair
  | _ => 0
  end.

(** [f] adds [n] bytes, or throws when the total does not fit [size_t]. *)
Definition charges (f : Z -> result Z) (n : Z) : Prop :=
  0 <= n /\ forall b, 0 <= b <= u64_max ->
    (b + n <= u64_max -> f b = Ok (b + n)) /\
    (u64_max < b + n -> exists w, f b = Throw (length_error w)).

Lemma charges_eq f n m : charges f n -> n = m -> charges f m.
Proof. by intros ? <-. Qed.
Lemma charges_bind f g n m :
  charges f n -> charges g m -> charges (fun b => f b |> g) (n + m).
Proof.
  intros [Hn Hf] [Hm Hg]. split; [lia|]. intros b Hb.
  destruct (Hf b Hb) as [Hok Hno]. split; intros H.
  - rewrite Hok by lia. simpl. rewrite (proj1 (Hg (b + n) ltac:(lia))) by lia.
    f_equal. lia.
  - destruct (decide (b + n <= u64_max)).
    + rewrite Hok by lia. simpl. apply (Hg (b + n)); lia.
    + destruct (Hno ltac:(lia)) as [w ->]. simpl. eauto.
Qed.
Lemma charges_ret : charges (fun b => Ok b) 0.
Proof. split; [lia|]. intros b Hb. split; intros; [f_equal; lia | lia]. Qed.
Lemma charges_add s : charges (fun b => add capacity b s) (cost s).
Proof.
  pose proof (capacity_size s). pose proof (slen_nonneg s).
  unfold charges, cost, add. split; [lia|]. intros b Hb.
  destruct (Z.leb_spec (u64_max - b) (capacity s)); split; intros; try lia; eauto.
Qed.
Lemma charges_optional o :
  charges (add_optional capacity o) (zsum cost (opt_strings o)).
Proof.
  destruct o as [s|]; [|apply charges_ret].
  eapply charges_eq; [apply (charges_add s) | unfold zsum; simpl; lia].
Qed.

Lemma charges_source s :
  charges (add_source capacity s) (zsum cost (source_strings s)).
Proof.
  eapply charges_eq.
  - apply (charges_bind (fun b => add capacity b (sp_provider s))
             (add_optional capacity (sp_channel s))); [apply charges_add|apply charges_optional].
  - done.
Qed.
Lemma charges_cached c :
  charges (fun b => add_source capacity (cc_source c) b
    |> (fun b => add capacity b (cc_process_guid c))
    |> add_optional capacity (cc_executable c) |> add_optional capacity (cc_user_name c)
    |> add_optional capacity (cc_user_sid c)) (zsum cost (cached_strings c)).
Proof.
  pose proof (charges_source (cc_source c)). unfold cached_strings.
  eapply charges_eq.
  - repeat first [apply charges_optional | apply charges_add | eassumption | apply charges_bind].
  - rewrite ?zsum_app, ?zsum_cons, ?zsum_nil. lia.
Qed.
Lemma charges_context p :
  charges (add_context capacity p) (zsum cost (context_strings p)).
Proof.
  unfold add_context, context_strings. eapply charges_eq.
  - repeat first [apply charges_optional | apply charges_bind].
    instantiate (1 := zsum cost match pc_cached_context p with
                                | Some c => cached_strings c | None => [] end).
    destruct (pc_cached_context p) as [c|]; [apply charges_cached | apply charges_ret].
  - rewrite ?zsum_app, ?zsum_cons, ?zsum_nil. lia.
Qed.
Lemma charges_foldl {A} (g : A -> Z -> result Z) (w : A -> Z) (l : list A) f n :
  (forall a, charges (g a) (w a)) -> charges f n ->
  charges (fun b => foldl (fun r a => r |> g a) (f b) l) (n + zsum w l).
Proof.
  intros Hg. revert f n. induction l as [|a l IH]; intros f n Hf.
  - eapply charges_eq; [exact Hf | rewrite zsum_nil; lia].
  - eapply charges_eq; [apply (IH (fun b => f b |> g a) (n + w a)) |].
    + by apply charges_bind.
    + rewrite zsum_cons. lia.
Qed.
Lemma zsum_mjoin {A B} (f : B -> Z) (g : A -> list B) (l : list A) :
  zsum f (mjoin (g <$> l)) = zsum (fun a => zsum f (g a)) l.
Proof.
  induction l as [|a l IH]; [done|]. rewrite fmap_cons. simpl.
  change (zsum f (g a ++ mjoin (g <$> l)) = zsum f (g a) + zsum (fun a => zsum f (g a)) l).
  rewrite zsum_app. congruence.
Qed.
Lemma charges_all l :
  charges (add_all capacity l) (zsum cost (mjoin (opt_strings <$> l))).
Proof.
  rewrite zsum_mjoin. eapply charges_eq.
  - apply (charges_foldl (add_optional capacity) (fun o => zsum cost (opt_strings o)) l
             (fun b => Ok b) 0); [apply charges_optional | apply charges_ret].
  - lia.
Qed.
Lemma foldl_throw {A} (g : A -> Z -> result Z) (l : list A) e :
  foldl (fun r a => r |> g a) (Throw e) l = Throw e.
Proof. by induction l as [|a l IH]. Qed.
Lemma foldl_bind_assoc {A} (g h : A -> Z -> result Z) (l : list A) r :
  foldl (fun r a => r |> g a |> h a) r l = foldl (fun r a => r |> (fun b => g a b |> h a)) r l.
Proof. revert r; induction l as [|a l IH]; intros r; [done|]. simpl. rewrite IH. by destruct r. Qed.
Lemma charges_fields l :
  charges (add_source_fields capacity fields_capacity sizeof_pair l)
    (fields_capacity l * sizeof_pair + zsum cost (mjoin ((fun f => [f.1; f.2]) <$> l))).
Proof.
  pose proof (fields_capacity_size l). pose proof (zlen_nonneg l).
  rewrite zsum_mjoin. unfold add_source_fields.
  assert (Hp : charges (fun b => if (u64_max - b) / sizeof_pair <? fields_capacity l
    then Throw (length_error "raw source fields charge overflow")
    else Ok (b + fields_capacity l * sizeof_pair)) (fields_capacity l * sizeof_pair)).
  { split; [nia|]. intros b Hb.
    destruct (Z.ltb_spec ((u64_max - b) / sizeof_pair) (fields_capacity l)) as [Hlt|Hge].
    - split; intros; [|eauto].
      exfalso. pose proof (Z.div_le_lower_bound (u64_max - b) sizeof_pair (fields_capacity l)
        ltac:(lia) ltac:(lia)). lia.
    - split; intros; [done|]. exfalso.
      pose proof (Z.mul_div_le (u64_max - b) sizeof_pair ltac:(lia)). nia. }
  pose proof (charges_foldl (fun f b => add capacity b f.1 |> (fun b => add capacity b f.2))
    (fun f : string * string => zsum cost [f.1; f.2]) l _ _ ltac:(intros f;
      eapply charges_eq; [apply charges_bind; apply charges_add | rewrite !zsum_cons, !zsum_nil; lia])
    Hp) as [Hn Hc].
  split; [exact Hn|]. intros b Hb. specialize (Hc b Hb).
  destruct ((u64_max - b) / sizeof_pair <? fields_capacity l) eqn:E.
  - rewrite foldl_throw in Hc. split; intros Hb2; [by apply Hc in Hb2 | eauto].
  - rewrite (foldl_bind_assoc (fun (f : string * string) b => add capacity b f.1)). exact Hc.
Qed.
Lemma charges_visit event :
  charges (visit_charge capacity fields_capacity sizeof_pair event)
    (owned_array event + zsum cost (owned_strings event)).
Proof.
  destruct event as [raw|raw|raw|raw|raw|raw];
  cbv beta iota delta [visit_charge owned_strings owned_array]; (eapply charges_eq;
    [ repeat first [apply charges_optional | apply charges_add | apply charges_source
                   | apply charges_context | apply charges_fields | apply charges_bind] | ]).
  - instantiate (1 := zsum cost match pe_sysmon_fields raw with
      | Some s => mjoin (opt_strings <$> sf_fields s) | None => [] end).
    destruct (pe_sysmon_fields raw) as [s|]; [apply charges_all | apply charges_ret].
  - rewrite !zsum_app. lia.
  - rewrite !zsum_app. lia.
  - rewrite !zsum_app. lia.
  - rewrite !zsum_app. lia.
  - rewrite !zsum_app. lia.
  - instantiate (1 := zsum cost match xe_target raw with
      | Some t => context_strings t | None => [] end).
    destruct (xe_target raw) as [t|]; [apply charges_context | apply charges_ret].
  - rewrite !zsum_app, zsum_cons, zsum_nil. lia.
Qed.
End charge_exact.

(** ** The ring as a queue *)
Implicit Types h : RawHandoff.

(** What the ring holds, oldest first. *)
Definition contents (h : RawHandoff) : list Item :=
  omap id (rotate (head h) (queue h)).

(** The occupied slots are the [queued] ones from [head] on. *)
Definition ring_ok (h : RawHandoff) (items : list Item) : Prop :=
  ring_shape (event_limit h) (queue h) (head h) (tail h) (queued h) items.

Definition owned (h : RawHandoff) (items : list Item) : list Item :=
  option_list (working h) ++ items.

(** Accounting: the worker's item and the queued ones are exactly what is
    owned and charged, and every admitted event is completed, failed or owned. *)
Definition accounts_ok (h : RawHandoff) (items : list Item) : Prop :=
  owned_events (status h) = length (owned h items) /\
  (owned_events (status h) <= event_limit h)%nat /\
  charged_bytes (status h) = zsum item_charge (owned h items) /\
  charged_bytes (status h) <= byte_limit h <= u64_max /\
  Forall (fun i => 0 <= item_charge i) (owned h items) /\
  admitted (status h) =
    u64 (completed (status h) + failed (status h) + Z.of_nat (owned_events (status h))) /\
  (worker_returned h = true ->
     accepting (status h) = false /\ items = [] /\ working h = None).

Definition inv (h : RawHandoff) : Prop :=
  exists items, ring_ok h items /\ accounts_ok h items.

Lemma contents_ring h items : ring_ok h items -> contents h = items.
Proof. apply ring_shape_contents. Qed.

(** One more completion or failure and one event less owned: the same total. *)
Lemma u64_finish (ok : bool) c f n :
  u64 (c + f + Z.of_nat (S n)) =
  u64 ((if ok then u64 (c + 1) else c) + (if ok then f else u64 (f + 1)) + Z.of_nat n).
Proof.
  destruct ok.
  - rewrite <- (Z.add_assoc (u64 (c + 1))), u64_add_l. f_equal. lia.
  - replace (c + u64 (f + 1) + Z.of_nat n) with (u64 (f + 1) + (c + Z.of_nat n)) by lia.
    rewrite u64_add_l. f_equal. lia.
Qed.

Lemma ring_push h items it h' :
  ring_ok h items -> (length items < event_limit h)%nat ->
  event_limit h' = event_limit h -> head h' = head h ->
  queue h' = <[tail h := Some it]> (queue h) ->
  tail h' = ((tail h + 1) mod event_limit h)%nat -> queued h' = S (queued h) ->
  ring_ok h' (items ++ [it]).
Proof. unfold ring_ok. intros H Hlt -> -> -> -> ->. by apply ring_shape_push. Qed.

Lemma ring_pop h items :
  ring_ok h items -> queued h <> 0%nat ->
  exists it rest, items = it :: rest /\ queue h !! head h = Some (Some it) /\
    forall h', event_limit h' = event_limit h ->
      head h' = ((head h + 1) mod event_limit h)%nat ->
      queue h' = <[head h := None]> (queue h) -> tail h' = tail h ->
      queued h' = pred (queued h) -> ring_ok h' rest.
Proof.
  intros H Hne. destruct (ring_shape_pop _ _ _ _ _ _ H Hne) as (it & rest & -> & Hq & Hr).
  exists it, rest. split; [done|]. split; [done|]. unfold ring_ok. by intros h' -> -> -> -> ->.
Qed.

(** ** Executions *)
Section executions.
Context (capacity : string -> Z) (fields_capacity : list (string * string) -> Z).
Context (sizeof_event sizeof_pair sizeof_slot : Z).
Context (capacity_size : forall s, slen s <= capacity s).
Context (fields_capacity_size : forall l, zlen l <= fields_capacity l).
Context (sizeof_pair_pos : 0 < sizeof_pair) (sizeof_event_range : 0 <= sizeof_event <= u64_max).

Abbreviation charge_of :=
  (raw_event_charge capacity fields_capacity sizeof_event sizeof_pair).

Inductive label :=
| LAdmit (e : RawEvent) | LRefuse (e : RawEvent)
| LTake (e : RawEvent) | LReturn | LFinish (e : RawEvent) (ok : bool) | LClose.

(** One critical section of any thread. *)
Inductive step (h : RawHandoff) : label -> RawHandoff -> Prop :=
| step_submit e ok h' :
    try_submit e (charge_of e) h = (ok, h') ->
    step h (if ok then LAdmit e else LRefuse e) h'
| step_take h' :
    run_take h = Some h' ->
    step h (match working h' with Some i => LTake (item_event i) | None => LReturn end) h'
| step_finish ok i h' :
    working h = Some i -> run_finish ok h = Some h' ->
    step h (LFinish (item_event i) ok) h'
| step_close : step h LClose (close h).

(** Any interleaving of producers, worker and closer from a fresh handoff. *)
Inductive execution (events : nat) (bytes : Z) : list label -> RawHandoff -> Prop :=
| execution_start h :
    make sizeof_slot events bytes true = Ok h -> execution events bytes [] h
| execution_step tr h l h' :
    execution events bytes tr h -> step h l h' -> execution events bytes (tr ++ [l]) h'.

Definition admitted_events (tr : list label) : list RawEvent :=
  omap (fun l => match l with LAdmit e => Some e | _ => None end) tr.
Definition handled_events (tr : list label) : list RawEvent :=
  omap (fun l => match l with LFinish e _ => Some e | _ => None end) tr.

Lemma charge_nonneg e n : charge_of e = Ok n -> 0 <= n.
Proof.
  pose proof (charges_visit capacity fields_capacity sizeof_pair capacity_size
    fields_capacity_size sizeof_pair_pos e) as [Hw Hc].
  unfold raw_event_charge. destruct (Hc sizeof_event sizeof_event_range) as [Hok Hno].
  intros E. destruct (decide (sizeof_event + (owned_array fields_capacity sizeof_pair e
    + zsum (cost capacity) (owned_strings e)) <= u64_max)) as [Hd|Hd].
  - rewrite Hok in E by done. injection E as <-. lia.
  - destruct (Hno ltac:(lia)) as [w Hw']. congruence.
Qed.

Lemma make_inv events bytes h :
  0 <= bytes <= u64_max -> make sizeof_slot events bytes true = Ok h ->
  ring_ok h [] /\ accounts_ok h [].
Proof.
  intros Hb E. unfold make in E. inv_ok E. injection E as <-.
  apply orb_false_iff in Ha as [Ha _]. apply orb_false_iff in Ha as [Ha _].
  apply orb_false_iff in Ha as [Ha _]. apply Nat.eqb_neq in Ha.
  split; [|repeat split; simpl; try done; try lia; constructor].
  apply ring_shape_empty. lia.
Qed.

(** What a submission decides, and what it changes. *)
Lemma try_submit_cases h items e ok h' :
  ring_ok h items -> accounts_ok h items -> try_submit e (charge_of e) h = (ok, h') ->
  working h' = working h /\
  exists items', ring_ok h' items' /\ accounts_ok h' items' /\
    (if ok then exists n, charge_of e = Ok n /\
       items' = items ++ [{| item_event := e; item_charge := n |}] else items' = items).
Proof.
  intros Hr Ha E. unfold try_submit in E.
  destruct (charge_of e) as [n|ex] eqn:En.
  - destruct (negb (accepting (status h)) || (event_limit h <=? owned_events (status h))%nat
      || (u64 (byte_limit h - charged_bytes (status h)) <? n)) eqn:Et.
    + injection E as <- <-. split; [done|]. by exists items.
    + apply orb_false_iff in Et as [Et Hcap]. apply orb_false_iff in Et as [Hacc Hown].
      apply Nat.leb_gt in Hown. pose proof (charge_nonneg _ _ En) as Hn.
      injection E as <- <-. split; [done|].
      exists (items ++ [{| item_event := e; item_charge := n |}]).
      destruct Ha as (Ho & Hol & Hc & Hcl & Hf & Hadm & Hret).
      assert (Hli : (length items < event_limit h)%nat).
      { rewrite Ho in Hown. unfold owned in Hown. rewrite length_app in Hown. lia. }
      split; [|split; [|by exists n]].
      { eapply ring_push; try done. }
      assert (Hc0 : 0 <= zsum item_charge (owned h items)).
      { clear -Hf. induction Hf; [done|]. rewrite zsum_cons. lia. }
      rewrite u64_small in Hcap by lia.
      assert (Hown' : forall q hd tl nq s er wr, owned {| event_limit := event_limit h;
        byte_limit := byte_limit h; queue := q; head := hd; tail := tl; queued := nq;
        status := s; exception_refused := er; working := working h; worker_returned := wr |}
        (items ++ [{| item_event := e; item_charge := n |}])
        = owned h items ++ [{| item_event := e; item_charge := n |}]).
      { intros. unfold owned. simpl. by rewrite app_assoc. }
      unfold accounts_ok. rewrite Hown'. simpl.
      rewrite length_app, zsum_app, zsum_cons, zsum_nil. simpl.
      repeat split; try lia.
      * rewrite u64_small by lia. lia.
      * rewrite u64_small by lia. lia.
      * apply Forall_app. split; [done|]. by repeat constructor.
      * rewrite Hadm, u64_add_l. f_equal. lia.
      * destruct (Hret ltac:(assumption)) as (Hf' & _). by rewrite Hf' in Hacc.
      * destruct (Hret ltac:(assumption)) as (Hf' & _). by rewrite Hf' in Hacc.
      * by destruct (Hret ltac:(assumption)) as (_ & _ & ?).
  - injection E as <- <-. split; [done|]. by exists items.
Qed.

Lemma run_take_cases h items h' :
  ring_ok h items -> accounts_ok h items -> run_take h = Some h' ->
  working h = None /\ status h' = status h /\
  exists items', ring_ok h' items' /\ accounts_ok h' items' /\
    owned h' items' = items /\ (working h' = None -> items = [] /\ worker_returned h' = true).
Proof.
  intros Hr Ha E. unfold run_take in E.
  destruct (worker_returned h) eqn:Ew; [done|].
  destruct (working h) as [i|] eqn:Ek; [done|].
  destruct ((queued h =? 0)%nat) eqn:Eq; simpl in E.
  - destruct (accepting (status h)) eqn:Eacc; [done|]. injection E as <-.
    apply Nat.eqb_eq in Eq. assert (items = []) as ->.
    { destruct Hr as (_ & _ & _ & Hq & _). apply nil_length_inv. lia. }
    destruct Ha as (Ho & Hol & Hc & Hcl & Hf & Hadm & Hret). unfold owned in *.
    rewrite Ek in *. split; [done|]. split; [done|]. exists []. split; [exact Hr|].
    repeat split; simpl in *; try done; lia.
  - apply Nat.eqb_neq in Eq.
    destruct (ring_pop h items Hr Eq) as (it & rest & -> & Hq & Hring).
    rewrite Hq in E. injection E as <-.
    repeat split; try done. exists rest. split; [by apply Hring|].
    destruct Ha as (Ho & Hol & Hc & Hcl & Hf & Hadm & Hret).
    unfold accounts_ok, owned in *. rewrite Ek in *.
    repeat split; simpl in *; try done; lia.
Qed.

Lemma run_finish_cases h items ok i h' :
  ring_ok h items -> accounts_ok h items -> working h = Some i ->
  run_finish ok h = Some h' ->
  ring_ok h' items /\ accounts_ok h' items /\ working h' = None /\
  accepting (status h') = accepting (status h).
Proof.
  intros Hr Ha Ek E. unfold run_finish in E. rewrite Ek in E. injection E as <-.
  destruct Ha as (Ho & Hol & Hc & Hcl & Hf & Hadm & Hret). unfold accounts_ok, owned in *.
  rewrite Ek in *. simpl in *. rewrite zsum_cons in Hc.
  assert (Hi : 0 <= item_charge i) by by inversion Hf.
  assert (Hc0 : 0 <= zsum item_charge items).
  { inversion Hf as [|? ? _ Hf']. clear -Hf'. induction Hf'; [done|]. rewrite zsum_cons. lia. }
  split; [exact Hr|]. split; [|done].
  refine (conj _ (conj _ (conj _ (conj _ (conj _ (conj _ _)))))); simpl.
  - lia.
  - lia.
  - rewrite u64_small by lia. lia.
  - rewrite u64_small by lia. lia.
  - by inversion Hf.
  - rewrite Hadm, Ho. apply u64_finish.
  - intros Hw. by destruct (Hret Hw) as (_ & _ & ?).
Qed.

Lemma close_cases h items :
  ring_ok h items -> accounts_ok h items ->
  ring_ok (close h) items /\ accounts_ok (close h) items.
Proof.
  intros Hr (Ho & Hol & Hc & Hcl & Hf & Hadm & Hret). split; [done|].
  refine (conj _ (conj _ (conj _ (conj _ (conj _ (conj _ _)))))); try done.
  intros Hw. by destruct (Hret Hw) as (_ & ? & ?).
Qed.

(** Every reachable handoff satisfies the invariant, and its history is a
    queue's: admitted = handled, then in the handler, then queued. *)
Lemma execution_inv events bytes tr h :
  0 <= bytes <= u64_max -> execution events bytes tr h ->
  exists items, ring_ok h items /\ accounts_ok h items /\
    admitted_events tr = handled_events tr ++ (item_event <$> owned h items).
Proof.
  intros Hb He. induction He as [h Hm|tr h l h' He IH Hs].
  - destruct (make_inv _ _ _ Hb Hm) as [Hr Ha]. exists [].
    split; [done|]. split; [done|].
    unfold make in Hm. inv_ok Hm. by injection Hm as <-.
  - destruct IH as (items & Hr & Ha & Htr).
    unfold admitted_events, handled_events in *. rewrite !omap_app.
    destruct Hs as [e ok h' E|h' E|ok i h' Ek E|].
    + destruct (try_submit_cases _ _ _ _ _ Hr Ha E) as (Hw & items' & Hr' & Ha' & Hi).
      exists items'. split; [done|]. split; [done|]. unfold owned in *. rewrite Hw.
      destruct ok; simpl; rewrite Htr, ?app_nil_r.
      * destruct Hi as (n & _ & ->). by rewrite !fmap_app, <- !app_assoc.
      * by rewrite Hi.
    + destruct (run_take_cases _ _ _ Hr Ha E) as (Hk & _ & items' & Hr' & Ha' & Ho & _).
      exists items'. split; [done|]. split; [done|]. rewrite Ho.
      unfold owned in Htr. rewrite Hk in Htr. simpl in Htr.
      destruct (working h'); simpl; by rewrite !app_nil_r.
    + destruct (run_finish_cases _ _ _ _ _ Hr Ha Ek E) as (Hr' & Ha' & Hw & _).
      exists items. split; [done|]. split; [done|]. unfold owned in *.
      rewrite Ek in Htr. rewrite Hw. simpl in *. rewrite app_nil_r, Htr.
      by rewrite <- app_assoc.
    + destruct (close_cases _ _ Hr Ha) as [Hr' Ha'].
      exists items. split; [done|]. split; [done|]. simpl. by rewrite !app_nil_r.
Qed.

(** ** Draining after [close] *)

(** The worker's loop run alone; [oks] says which handler calls return. *)
Fixpoint drain (oks : nat -> bool) (fuel : nat) (h : RawHandoff) : RawHandoff :=
  match fuel with
  | O => h
  | S f =>
      match run_finish (oks f) h with
      | Some h' => drain oks f h'
      | None => match run_take h with
                | Some h' => drain oks f h'
                | None => h
                end
      end
  end.

Lemma run_take_ready h items :
  ring_ok h items -> worker_returned h = false -> working h = None ->
  accepting (status h) = false -> is_Some (run_take h).
Proof.
  intros Hr Hw Hk Hacc. unfold run_take. rewrite Hw, Hk, Hacc, andb_false_r.
  destruct ((queued h =? 0)%nat) eqn:Eq; [by eexists|].
  apply Nat.eqb_neq in Eq. destruct (ring_pop h items Hr Eq) as (it & rest & _ & -> & _).
  by eexists.
Qed.

Lemma step_no_admit h l h' tr :
  step h l h' -> (forall e, l <> LAdmit e) -> admitted_events (tr ++ [l]) = admitted_events tr.
Proof.
  intros _ Hl. unfold admitted_events. rewrite omap_app.
  destruct l; simpl; rewrite ?app_nil_r; try done. by destruct (Hl e).
Qed.

Lemma drain_execution oks events bytes fuel tr h items :
  0 <= bytes <= u64_max -> execution events bytes tr h ->
  ring_ok h items -> accounts_ok h items -> accepting (status h) = false ->
  worker_returned h = true \/
    (2 * length items + length (option_list (working h)) + 1 <= fuel)%nat ->
  exists tr', execution events bytes (tr ++ tr') (drain oks fuel h) /\
    worker_returned (drain oks fuel h) = true /\
    admitted_events (tr ++ tr') = admitted_events tr.
Proof.
  intros Hb. revert tr h items. induction fuel as [|f IH]; intros tr h items He Hr Ha Hacc Hf.
  - destruct Hf as [Hf|Hf]; [|lia]. exists []. by rewrite app_nil_r.
  - simpl. destruct (working h) as [i|] eqn:Ek.
    + destruct (run_finish (oks f) h) as [h'|] eqn:E;
        [|unfold run_finish in E; by rewrite Ek in E].
      destruct (run_finish_cases _ _ _ _ _ Hr Ha Ek E) as (Hr' & Ha' & Hw & Hacc').
      pose proof (step_finish _ _ _ _ Ek E) as Hs.
      assert (Hf' : worker_returned h = true -> False).
      { intros W. destruct Ha as (_ & _ & _ & _ & _ & _ & Hret).
        destruct (Hret W) as (_ & _ & ?). congruence. }
      destruct (IH _ h' items (execution_step _ _ _ _ _ _ He Hs) Hr' Ha')
        as (tr' & He' & Hret & Had); [congruence | |].
      { right. rewrite Hw. simpl in *. destruct Hf as [Hf|Hf]; [done|lia]. }
      exists ([LFinish (item_event i) (oks f)] ++ tr'). rewrite app_assoc.
      split; [done|]. split; [done|]. rewrite Had. by eapply step_no_admit.
    + assert (E : run_finish (oks f) h = None) by (unfold run_finish; by rewrite Ek).
      rewrite E. destruct (worker_returned h) eqn:Ew.
      { assert (run_take h = None) as -> by (unfold run_take; by rewrite Ew).
        exists []. by rewrite app_nil_r. }
      destruct (run_take_ready h items Hr Ew Ek Hacc) as [h' E']. rewrite E'.
      destruct (run_take_cases _ _ _ Hr Ha E') as (_ & Hst & items' & Hr' & Ha' & Ho & Hn).
      pose proof (step_take _ _ E') as Hs.
      destruct (IH _ h' items' (execution_step _ _ _ _ _ _ He Hs) Hr' Ha')
        as (tr' & He' & Hret & Had); [by rewrite Hst | |].
      { destruct (working h') as [i|] eqn:Ek'; [right | by left; apply Hn].
        unfold owned in Ho. rewrite Ek' in Ho. subst items. simpl in *.
        destruct Hf as [Hf|Hf]; [done|]. lia. }
      eexists ([_] ++ tr'). rewrite app_assoc.
      split; [done|]. split; [done|]. rewrite Had. eapply step_no_admit; [done|].
      by destruct (working h').
Qed.

(** ** Properties *)

(** C38: The handoff is a first-in first-out queue: in every interleaving of
    submissions, worker steps and close, the admitted events are, in order,
    the handled ones, then the one in the handler, then those in the ring.
    No admitted event is lost, duplicated or reordered. *)
Theorem handoff_fifo events bytes tr h :
  0 <= bytes <= u64_max -> execution events bytes tr h ->
  admitted_events tr =
    handled_events tr ++ (item_event <$> option_list (working h) ++ contents h).
Proof.
  intros Hb He. destruct (execution_inv _ _ _ _ Hb He) as (items & Hr & _ & Htr).
  by rewrite (contents_ring _ _ Hr).
Qed.

(** In every reachable state the owned events and charged bytes stay
    within the configured limits, the charged bytes are exactly the charges
    of the events held, and (modulo the counters' 64-bit width) every admitted
    event is completed, failed or still owned. *)
Theorem handoff_bounds events bytes tr h :
  0 <= bytes <= u64_max -> execution events bytes tr h ->
  (owned_events (status h) = length (option_list (working h)) + queued h)%nat /\
  (owned_events (status h) <= event_limit h)%nat /\
  charged_bytes (status h) = zsum item_charge (option_list (working h) ++ contents h) /\
  charged_bytes (status h) <= byte_limit h /\
  admitted (status h) =
    u64 (completed (status h) + failed (status h) + Z.of_nat (owned_events (status h))).
Proof.
  intros Hb He. destruct (execution_inv _ _ _ _ Hb He) as (items & Hr & Ha & _).
  rewrite (contents_ring _ _ Hr). destruct Hr as (_ & _ & _ & Hq & _).
  destruct Ha as (Ho & Hol & Hc & Hcl & _ & Hadm & _). unfold owned in *.
  rewrite length_app in Ho. repeat split; (done || lia).
Qed.

(** After [close] the worker, run to completion with any mix of returning
    and throwing handler calls, drains the ring in at most [2 * queued + 2]
    critical sections and returns; every event ever admitted has then been
    handled and nothing stays owned or charged. *)
Theorem handoff_drains oks fuel events bytes tr h :
  0 <= bytes <= u64_max -> execution events bytes tr h ->
  accepting (status h) = false -> (2 * queued h + 2 <= fuel)%nat ->
  let h' := drain oks fuel h in
  worker_returned h' = true /\ contents h' = [] /\
  owned_events (status h') = 0%nat /\ charged_bytes (status h') = 0 /\
  exists tr', execution events bytes (tr ++ tr') h' /\
    handled_events (tr ++ tr') = admitted_events tr.
Proof.
  intros Hb He Hacc Hf h'. destruct (execution_inv _ _ _ _ Hb He) as (items & Hr & Ha & _).
  destruct (drain_execution oks events bytes fuel tr h items Hb He Hr Ha Hacc)
    as (tr' & He' & Hret & Had).
  { right. destruct Hr as (_ & _ & _ & Hq & _). destruct (working h); simpl; lia. }
  destruct (execution_inv _ _ _ _ Hb He') as (items' & Hr' & Ha' & Htr').
  fold h' in Hret, He', Hr', Ha', Htr'. pose proof (contents_ring _ _ Hr') as Hcon.
  destruct Ha' as (Ho & _ & Hc & _ & _ & _ & Hret').
  destruct (Hret' Hret) as (_ & -> & Hk). unfold owned in *. rewrite Hk in *. simpl in *.
  rewrite app_nil_r in Htr'. repeat split; try done. exists tr'. split; [done|]. congruence.
Qed.

(** A submission is admitted exactly when the handoff is accepting, an
    event slot is free and the event's charge fits the bytes left; the
    subtraction of the code never wraps.  A refusal changes one counter only. *)
Theorem handoff_admission events bytes tr h e n :
  0 <= bytes <= u64_max -> execution events bytes tr h -> charge_of e = Ok n ->
  let '(ok, h') := try_submit e (charge_of e) h in
  (ok = true <-> accepting (status h) = true /\
     (owned_events (status h) < event_limit h)%nat /\
     n + charged_bytes (status h) <= byte_limit h) /\
  (ok = false -> contents h' = contents h /\ charged_bytes (status h') = charged_bytes (status h)
     /\ refused (status h') = u64 (refused (status h) + 1)) /\
  (ok = true -> contents h' = contents h ++ [{| item_event := e; item_charge := n |}]).
Proof.
  intros Hb He En. destruct (execution_inv _ _ _ _ Hb He) as (items & Hr & Ha & _).
  destruct (try_submit e (charge_of e) h) as [ok h'] eqn:E.
  destruct (try_submit_cases _ _ _ _ _ Hr Ha E) as (_ & items' & Hr' & _ & Hi).
  rewrite (contents_ring _ _ Hr), (contents_ring _ _ Hr').
  pose proof Ha as (_ & _ & Hc & Hcl & Hf & _).
  assert (Hc0 : 0 <= zsum item_charge (owned h items)).
  { clear -Hf. induction Hf; [done|]. rewrite zsum_cons. lia. }
  unfold try_submit in E. rewrite En in E, Hi. rewrite u64_small in E by lia.
  destruct (accepting (status h)) eqn:Eacc; simpl in E;
    [destruct (Nat.leb_spec (event_limit h) (owned_events (status h))); simpl in E;
      [|destruct (Z.ltb_spec (byte_limit h - charged_bytes (status h)) n)]|];
    injection E as <- <-; (split; [split; [intros; repeat split; (done || lia) |
      intros (? & ? & ?); (done || lia)] | split; [|intros Hok]]); try done.
  destruct Hi as (m & Hm & ->). by injection Hm as ->.
Qed.
End executions.

(** The charge of an event is the size of the event object plus one more
    than the capacity of every string it owns, plus the array of a Sysmon
    event's source fields; when that total does not fit [size_t] the function
    throws instead of wrapping. *)
Theorem raw_event_charge_exact capacity fields_capacity sizeof_event sizeof_pair event :
  (forall s, slen s <= capacity s) -> (forall l, zlen l <= fields_capacity l) ->
  0 < sizeof_pair -> 0 <= sizeof_event <= u64_max ->
  let total := sizeof_event + owned_array fields_capacity sizeof_pair event
               + zsum (cost capacity) (owned_strings event) in
  (total <= u64_max ->
     raw_event_charge capacity fields_capacity sizeof_event sizeof_pair event = Ok total) /\
  (u64_max < total -> exists w,
     raw_event_charge capacity fields_capacity sizeof_event sizeof_pair event
     = Throw (length_error w)).
Proof.
  intros Hc Hf Hp Hs total.
  destruct (charges_visit capacity fields_capacity sizeof_pair Hc Hf Hp event) as [_ H].
  destruct (H sizeof_event Hs) as [Hok Hno]. unfold total, raw_event_charge.
  rewrite <- Z.add_assoc. split; [exact Hok | exact Hno].
Qed.

(** ** Witnesses *)
Definition demo_event : RawEvent :=
  ImageLoadEvent {|
    ie_source := {| sp_kind := sysmon; sp_provider := "Sysmon"; sp_channel := None;
                    sp_record_id := Some 7 |};
    ie_timestamp := 0;
    ie_process := {| pc_pid := 4; pc_start_time_ticks := None; pc_executable := Some "a.exe";
                     pc_process_name := None; pc_user_name := None; pc_user_sid := None;
                     pc_process_guid := None; pc_cached_context := None |};
    ie_path := Some "b.dll"; ie_is_signed := None; ie_signature_status := None;
    ie_sha256 := None |}.
Definition demo_charge : result Z := raw_event_charge slen zlen 64 64 demo_event.
Definition demo0 : RawHandoff := {|
  event_limit := 2; byte_limit := 100; queue := [None; None]; head := 0; tail := 0; queued := 0;
  status := initial_stats 2 100 144; exception_refused := 0; working := None;
  worker_returned := false |}.
Definition demo1 : RawHandoff := (try_submit demo_event demo_charge demo0).2.
Definition demo2 : RawHandoff := default demo1 (run_take demo1).
Definition demo3 : RawHandoff := close demo2.

Lemma slen_le s : slen s <= slen s.
Proof. lia. Qed.
Lemma zlen_le (l : list (string * string)) : zlen l <= zlen l.
Proof. lia. Qed.
Lemma demo_range : 0 <= 64 <= u64_max.
Proof. unfold u64_max. lia. Qed.
Lemma demo_bytes : 0 <= 100 <= u64_max.
Proof. unfold u64_max. lia. Qed.
Lemma demo_execution0 : execution slen zlen 64 64 72 2 100 [] demo0.
Proof. by apply execution_start. Qed.
Lemma demo_execution1 : execution slen zlen 64 64 72 2 100 [LAdmit demo_event] demo1.
Proof.
  apply (execution_step _ _ _ _ _ _ _ [] demo0 (LAdmit demo_event) demo1 demo_execution0).
  by apply (step_submit _ _ _ _ _ demo_event true).
Qed.
Lemma demo_execution3 :
  execution slen zlen 64 64 72 2 100 [LAdmit demo_event; LTake demo_event; LClose] demo3.
Proof.
  apply (execution_step _ _ _ _ _ _ _ [LAdmit demo_event; LTake demo_event] demo2 LClose demo3).
  2: apply step_close.
  apply (execution_step _ _ _ _ _ _ _ [LAdmit demo_event] demo1 (LTake demo_event) demo2).
  - apply demo_execution1.
  - by apply (step_take _ _ _ _ demo1 demo2).
Qed.

Lemma handoff_fifo_witness :
  admitted_events [LAdmit demo_event] = [demo_event] /\
  admitted_events [LAdmit demo_event] = [] ++ (item_event <$> option_list None ++ contents demo1).
Proof.
  split; [reflexivity|].
  exact (handoff_fifo slen zlen 64 64 72 slen_le zlen_le ltac:(lia) demo_range 2 100 _ _
    demo_bytes demo_execution1).
Defined.
Lemma handoff_bounds_witness :
  owned_events (status demo1) = 1%nat /\
  charged_bytes (status demo1) = zsum item_charge (option_list (working demo1) ++ contents demo1).
Proof.
  split; [reflexivity|].
  apply (handoff_bounds slen zlen 64 64 72 slen_le zlen_le ltac:(lia) demo_range 2 100 _ _
    demo_bytes demo_execution1).
Defined.
Lemma handoff_drains_witness :
  worker_returned (drain (fun _ => false) 4 demo3) = true /\
  owned_events (status (drain (fun _ => false) 4 demo3)) = 0%nat.
Proof.
  destruct (handoff_drains slen zlen 64 64 72 slen_le zlen_le ltac:(lia) demo_range
    (fun _ => false) 4 2 100 _ _ demo_bytes demo_execution3 eq_refl
    ltac:(change (queued demo3) with 0%nat; lia)) as (H1 & _ & H2 & _).
  exact (conj H1 H2).
Defined.
Lemma handoff_admission_witness :
  demo_charge = Ok 83 /\ contents demo1 = [{| item_event := demo_event; item_charge := 83 |}].
Proof.
  split; [reflexivity|].
  destruct (handoff_admission slen zlen 64 64 72 slen_le zlen_le ltac:(lia) demo_range 2 100 _ _
    demo_event 83 demo_bytes demo_execution0 eq_refl) as (_ & _ & H).
  exact (H eq_refl).
Defined.
Lemma raw_event_charge_exact_witness : demo_charge = Ok 83.
Proof.
  refine (proj1 (raw_event_charge_exact slen zlen 64 64 demo_event slen_le zlen_le
    ltac:(lia) demo_range) _).
  vm_compute. discriminate.
Defined.
