(* ===== verification/Diagnostic.v ===== *)
(** * Diagnostic output

    [pipeline/diagnostic_output.cpp]: the bounded best-effort queue behind the
    agent's standard output and error.  Each critical section is a function on
    [DiagnosticState]; between them the worker's position in [run] is its
    [phase], with the item and the offset it holds.  [WriteFile]'s outcome, the
    clock and the capacity of the copied line are arguments of the steps. *)

From Stdlib Require Import ZifyBool.
From S2P Require Import Prelude Ring.

(** ** State *)
Record DiagnosticItem := { d_line : string; d_charge : Z }.

(** where the worker stands: waiting for work, before the test of [abort], in
    [WriteFile], after the loop with the failure it saw, or returned *)
Inductive phase :=
| Waiting
| Checking (item : DiagnosticItem) (offset : nat)
| Writing (item : DiagnosticItem) (offset : nat)
| Finishing (item : DiagnosticItem) (offset : nat) (kind : string) (error failure_bytes : Z)
| Returned.

Record DiagnosticState := {
  d_queue : list (option DiagnosticItem);
  d_head : nat; d_tail : nat; d_queued : nat; d_owned : nat; d_bytes : Z;
  d_event_limit : nat; d_byte_limit : Z; d_line_limit : Z;
  d_admitted : Z; d_completed : Z; d_failed : Z; d_abandoned : Z; d_refused : Z;
  d_written_bytes : Z; d_partial_records : Z; d_write_started : Z;
  d_last_native_error : Z; d_last_cancel_error : Z; d_reported_failure_bytes : Z;
  d_last_failure_kind : string;
  d_available : bool; d_accepting : bool; d_closing : bool; d_abort : bool; d_done : bool;
  d_writing : bool; d_deadline_exceeded : bool;
  d_exception_refused : Z;
  d_phase : phase
}.

(** the ring: slots, head, tail, count, and what is owned and charged *)
Definition set_ring (q : list (option DiagnosticItem)) (hd tl n own : nat) (bytes : Z) (s : DiagnosticState)
  : DiagnosticState := {|
  d_queue := q; d_head := hd; d_tail := tl; d_queued := n; d_owned := own; d_bytes := bytes;
  d_event_limit := d_event_limit s; d_byte_limit := d_byte_limit s; d_line_limit := d_line_limit s;
  d_admitted := d_admitted s; d_completed := d_completed s; d_failed := d_failed s;
  d_abandoned := d_abandoned s; d_refused := d_refused s; d_written_bytes := d_written_bytes s;
  d_partial_records := d_partial_records s; d_write_started := d_write_started s;
  d_last_native_error := d_last_native_error s; d_last_cancel_error := d_last_cancel_error s;
  d_reported_failure_bytes := d_reported_failure_bytes s; d_last_failure_kind := d_last_failure_kind s;
  d_available := d_available s; d_accepting := d_accepting s; d_closing := d_closing s; d_abort := d_abort s;
  d_done := d_done s; d_writing := d_writing s; d_deadline_exceeded := d_deadline_exceeded s;
  d_exception_refused := d_exception_refused s; d_phase := d_phase s |}.
Definition set_counts (admitted completed failed abandoned refused exceptions : Z) (s : DiagnosticState)
  : DiagnosticState := {|
  d_queue := d_queue s; d_head := d_head s; d_tail := d_tail s; d_queued := d_queued s; d_owned := d_owned s;
  d_bytes := d_bytes s; d_event_limit := d_event_limit s; d_byte_limit := d_byte_limit s;
  d_line_limit := d_line_limit s; d_admitted := admitted; d_completed := completed; d_failed := failed;
  d_abandoned := abandoned; d_refused := refused; d_written_bytes := d_written_bytes s;
  d_partial_records := d_partial_records s; d_write_started := d_write_started s;
  d_last_native_error := d_last_native_error s; d_last_cancel_error := d_last_cancel_error s;
  d_reported_failure_bytes := d_reported_failure_bytes s; d_last_failure_kind := d_last_failure_kind s;
  d_available := d_available s; d_accepting := d_accepting s; d_closing := d_closing s; d_abort := d_abort s;
  d_done := d_done s; d_writing := d_writing s; d_deadline_exceeded := d_deadline_exceeded s;
  d_exception_refused := exceptions; d_phase := d_phase s |}.
Definition set_flags (available accepting closing abort done deadline : bool) (s : DiagnosticState)
  : DiagnosticState := {|
  d_queue := d_queue s; d_head := d_head s; d_tail := d_tail s; d_queued := d_queued s; d_owned := d_owned s;
  d_bytes := d_bytes s; d_event_limit := d_event_limit s; d_byte_limit := d_byte_limit s;
  d_line_limit := d_line_limit s; d_admitted := d_admitted s; d_completed := d_completed s;
  d_failed := d_failed s; d_abandoned := d_abandoned s; d_refused := d_refused s;
  d_written_bytes := d_written_bytes s; d_partial_records := d_partial_records s;
  d_write_started := d_write_started s; d_last_native_error := d_last_native_error s;
  d_last_cancel_error := d_last_cancel_error s; d_reported_failure_bytes := d_reported_failure_bytes s;
  d_last_failure_kind := d_last_failure_kind s; d_available := available; d_accepting := accepting;
  d_closing := closing; d_abort := abort; d_done := done; d_writing := d_writing s;
  d_deadline_exceeded := deadline; d_exception_refused := d_exception_refused s; d_phase := d_phase s |}.
(** the worker's own: position, progress and the last failure *)
Definition set_worker (p : phase) (writing : bool) (started written partial native reported : Z) (kind : string)
  (s : DiagnosticState) : DiagnosticState := {|
  d_queue := d_queue s; d_head := d_head s; d_tail := d_tail s; d_queued := d_queued s; d_owned := d_owned s;
  d_bytes := d_bytes s; d_event_limit := d_event_limit s; d_byte_limit := d_byte_limit s;
  d_line_limit := d_line_limit s; d_admitted := d_admitted s; d_completed := d_completed s;
  d_failed := d_failed s; d_abandoned := d_abandoned s; d_refused := d_refused s;
  d_written_bytes := written; d_partial_records := partial; d_write_started := started;
  d_last_native_error := native; d_last_cancel_error := d_last_cancel_error s;
  d_reported_failure_bytes := reported; d_last_failure_kind := kind; d_available := d_available s;
  d_accepting := d_accepting s; d_closing := d_closing s; d_abort := d_abort s; d_done := d_done s;
  d_writing := writing; d_deadline_exceeded := d_deadline_exceeded s;
  d_exception_refused := d_exception_refused s; d_phase := p |}.
Definition set_phase (p : phase) (s : DiagnosticState) : DiagnosticState :=
  set_worker p (d_writing s) (d_write_started s) (d_written_bytes s) (d_partial_records s)
    (d_last_native_error s) (d_reported_failure_bytes s) (d_last_failure_kind s) s.
Definition set_cancel_error (e : Z) (s : DiagnosticState) : DiagnosticState := {|
  d_queue := d_queue s; d_head := d_head s; d_tail := d_tail s; d_queued := d_queued s; d_owned := d_owned s;
  d_bytes := d_bytes s; d_event_limit := d_event_limit s; d_byte_limit := d_byte_limit s;
  d_line_limit := d_line_limit s; d_admitted := d_admitted s; d_completed := d_completed s;
  d_failed := d_failed s; d_abandoned := d_abandoned s; d_refused := d_refused s;
  d_written_bytes := d_written_bytes s; d_partial_records := d_partial_records s;
  d_write_started := d_write_started s; d_last_native_error := d_last_native_error s;
  d_last_cancel_error := e; d_reported_failure_bytes := d_reported_failure_bytes s;
  d_last_failure_kind := d_last_failure_kind s; d_available := d_available s; d_accepting := d_accepting s;
  d_closing := d_closing s; d_abort := d_abort s; d_done := d_done s; d_writing := d_writing s;
  d_deadline_exceeded := d_deadline_exceeded s; d_exception_refused := d_exception_refused s;
  d_phase := d_phase s |}.

(** ** Construction *)
(** how the handle and the worker came up *)
Inductive startup := InvalidHandle | DuplicateFailed (error : Z) | WorkerFailed | Started.
Definition fresh_diagnostic (events : nat) (bytes line_limit : Z) (up : startup) : DiagnosticState :=
  let ok := match up with Started => true | _ => false end in
  {| d_queue := replicate events None; d_head := 0; d_tail := 0; d_queued := 0; d_owned := 0; d_bytes := 0;
     d_event_limit := events; d_byte_limit := bytes; d_line_limit := line_limit;
     d_admitted := 0; d_completed := 0; d_failed := 0; d_abandoned := 0; d_refused := 0;
     d_written_bytes := 0; d_partial_records := 0; d_write_started := 0;
     d_last_native_error := match up with InvalidHandle => 6 | DuplicateFailed e => e | _ => 0 end;
     d_last_cancel_error := 0; d_reported_failure_bytes := 0;
     d_last_failure_kind := match up with
       | InvalidHandle => "initialization_invalid_handle" | DuplicateFailed _ => "Win32_duplicate_handle"
       | WorkerFailed => "worker_start_failure" | Started => "" end;
     d_available := ok; d_accepting := ok; d_closing := false; d_abort := false; d_done := negb ok;
     d_writing := false; d_deadline_exceeded := false; d_exception_refused := 0;
     d_phase := if ok then Waiting else Returned |}.
Definition make_diagnostic (events : nat) (bytes line_limit : Z) (up : startup) : result DiagnosticState :=
  _ ← throw_if ((events =? 0)%nat || (8192 <? Z.of_nat events) || (bytes =? 0) || (64 * 1024 * 1024 <? bytes)
                || (line_limit =? 0) || (1024 * 1024 <? line_limit))
        (invalid_argument "diagnostic output limits invalid");
  Ok (fresh_diagnostic events bytes line_limit up).

(** ** Submission *)
Definition count_d_refused (s : DiagnosticState) : DiagnosticState :=
  set_counts (d_admitted s) (d_completed s) (d_failed s) (d_abandoned s) (u64 (d_refused s + 1))
    (d_exception_refused s) s.
Section Submission.
Context (sizeof_item : Z).
(** [capacity] of the owned copy, or [None] when making it threw *)
Definition diagnostic_submit (line : string) (capacity : option Z) (s : DiagnosticState) : bool * DiagnosticState :=
  if d_line_limit s <? slen line then (false, count_d_refused s)
  else match capacity with
  | None => (false, set_counts (d_admitted s) (d_completed s) (d_failed s) (d_abandoned s) (d_refused s)
                      (u64 (d_exception_refused s + 1)) s)
  | Some capacity =>
      let charge := u64 (sizeof_item + capacity) in
      if negb (d_accepting s) || (d_event_limit s <=? d_owned s)%nat
         || (u64 (d_byte_limit s - d_bytes s) <? charge)
      then (false, count_d_refused s)
      else
        let item := {| d_line := line +:+ String (ascii_of_N 10) ""; d_charge := charge |} in
        (true,
         set_counts (u64 (d_admitted s + 1)) (d_completed s) (d_failed s) (d_abandoned s) (d_refused s)
           (d_exception_refused s)
           (set_ring (<[d_tail s := Some item]> (d_queue s)) (d_head s)
              ((d_tail s + 1) mod d_event_limit s)%nat (S (d_queued s)) (S (d_owned s))
              (u64 (d_bytes s + charge)) s))
  end.

End Submission.

(** ** The worker *)
(** one round of [abandon_queued]'s loop, [n] rounds *)
Fixpoint abandon_loop (n : nat) (s : DiagnosticState) : DiagnosticState :=
  match n with
  | O => s
  | S n =>
      match d_queue s !! d_head s with
      | Some (Some item) =>
          abandon_loop n
            (set_counts (d_admitted s) (d_completed s) (d_failed s) (u64 (d_abandoned s + 1)) (d_refused s)
               (d_exception_refused s)
               (set_ring (<[d_head s := None]> (d_queue s)) ((d_head s + 1) mod d_event_limit s)%nat (d_tail s)
                  (pred (d_queued s)) (pred (d_owned s)) (u64 (d_bytes s - d_charge item)) s))
      | _ => s
      end
  end.
Definition abandon_queued (s : DiagnosticState) : DiagnosticState := abandon_loop (d_queued s) s.

(** the first critical section of [run]: [None] while it waits *)
Definition run_next (tick : Z) (s : DiagnosticState) : option DiagnosticState :=
  match d_phase s with
  | Waiting =>
      if (d_queued s =? 0)%nat && negb (d_closing s) && d_available s then None
      else if d_abort s || negb (d_available s) || ((d_queued s =? 0)%nat && d_closing s) then
        let s := abandon_queued s in
        Some (set_phase Returned
          (set_flags (d_available s) (d_accepting s) (d_closing s) (d_abort s) true (d_deadline_exceeded s) s))
      else match d_queue s !! d_head s with
      | Some (Some item) =>
          Some (set_worker (Checking item 0) true tick (d_written_bytes s) (d_partial_records s)
            (d_last_native_error s) (d_reported_failure_bytes s) (d_last_failure_kind s)
            (set_ring (<[d_head s := None]> (d_queue s)) ((d_head s + 1) mod d_event_limit s)%nat (d_tail s)
               (pred (d_queued s)) (d_owned s) (d_bytes s) s))
      | _ => None
      end
  | _ => None
  end.
(** the head of the write loop: its condition, then the test of [abort] *)
Definition run_check (s : DiagnosticState) : option DiagnosticState :=
  match d_phase s with
  | Checking item offset =>
      Some (set_phase
        (if (offset <? String.length (d_line item))%nat
         then if d_abort s then Finishing item offset "shutdown_abandonment" 0 0 else Writing item offset
         else Finishing item offset "" 0 0) s)
  | _ => None
  end.
Inductive write_outcome := WriteFailed (error written : Z) | Wrote (written : Z).
Definition run_write (o : write_outcome) (s : DiagnosticState) : option DiagnosticState :=
  match d_phase s with
  | Writing item offset =>
      let remaining := Z.of_nat (String.length (d_line item) - offset) in
      Some (set_phase
        match o with
        | WriteFailed error written => Finishing item offset "Win32" error written
        | Wrote written =>
            if (written =? 0) || (remaining <? written)
            then Finishing item offset "validation_native_write_progress" 0 written
            else Checking item (offset + Z.to_nat written)
        end s)
  | _ => None
  end.
(** the critical section after the loop *)
Definition run_account (s : DiagnosticState) : option DiagnosticState :=
  match d_phase s with
  | Finishing item offset kind error failure_bytes =>
      let ok := str_empty kind in
      let written := u64 (d_written_bytes s + Z.of_nat offset) in
      let partial := if negb ok && negb (offset =? 0)%nat then u64 (d_partial_records s + 1)
                     else d_partial_records s in
      let s := set_counts (d_admitted s) (if ok then u64 (d_completed s + 1) else d_completed s)
                 (if ok then d_failed s else u64 (d_failed s + 1)) (d_abandoned s) (d_refused s)
                 (d_exception_refused s) s in
      let s := set_flags (ok && d_available s) (ok && d_accepting s) (d_closing s) (d_abort s) (d_done s)
                 (d_deadline_exceeded s) s in
      let s := set_worker Waiting false (d_write_started s) written partial
                 (if ok then d_last_native_error s else error)
                 (if ok then d_reported_failure_bytes s else failure_bytes)
                 (if ok then d_last_failure_kind s else kind) s in
      Some (set_ring (d_queue s) (d_head s) (d_tail s) (d_queued s) (pred (d_owned s))
              (u64 (d_bytes s - d_charge item)) s)
  | _ => None
  end.

(** ** Closing *)
Definition close_begin (s : DiagnosticState) : DiagnosticState :=
  set_flags (d_available s) false true (d_abort s) (d_done s) (d_deadline_exceeded s) s.
(** 100 ms have passed without the worker finishing *)
Definition close_abort (s : DiagnosticState) : option DiagnosticState :=
  if d_closing s && negb (d_done s) then
    Some (abandon_queued (set_flags (d_available s) (d_accepting s) (d_closing s) true (d_done s)
            (d_deadline_exceeded s) s))
  else None.
(** the second has passed *)
Definition close_deadline (s : DiagnosticState) : option DiagnosticState :=
  if d_abort s && negb (d_done s) then
    Some (set_flags false (d_accepting s) (d_closing s) (d_abort s) (d_done s) true s)
  else None.
Definition close_cancel (error : Z) (s : DiagnosticState) : option DiagnosticState :=
  if d_abort s then Some (set_cancel_error error s) else None.

(** ** Executions *)
Section Executions.
Context (sizeof_item : Z) (sizeof_range : 0 <= sizeof_item <= 65536).

Inductive diagnostic_label := DAdmit (line : string) | DWrite (bytes : string) | DTau.
(** what reached the handle: the bytes [WriteFile] reported *)
Definition written_text (o : write_outcome) (s : DiagnosticState) : string :=
  match o, d_phase s with
  | Wrote written, Writing item offset =>
      if (written =? 0) || (Z.of_nat (String.length (d_line item) - offset) <? written) then ""
      else str_take (Z.to_nat written) (str_drop offset (d_line item))
  | _, _ => ""
  end.
Inductive diagnostic_step (s : DiagnosticState) : diagnostic_label -> DiagnosticState -> Prop :=
| dstep_submit line capacity ok s' :
    match capacity with Some c => slen line < c <= 2 ^ 63 | None => True end ->
    diagnostic_submit sizeof_item line capacity s = (ok, s') ->
    diagnostic_step s (if ok then DAdmit (line +:+ String (ascii_of_N 10) "") else DTau) s'
| dstep_next tick s' : run_next tick s = Some s' -> diagnostic_step s DTau s'
| dstep_check s' : run_check s = Some s' -> diagnostic_step s DTau s'
| dstep_write o s' :
    match o with Wrote w | WriteFailed _ w => 0 <= w end ->
    run_write o s = Some s' -> diagnostic_step s (DWrite (written_text o s)) s'
| dstep_account s' : run_account s = Some s' -> diagnostic_step s DTau s'
| dstep_close : diagnostic_step s DTau (close_begin s)
| dstep_abort s' : close_abort s = Some s' -> diagnostic_step s DTau s'
| dstep_deadline s' : close_deadline s = Some s' -> diagnostic_step s DTau s'
| dstep_cancel e s' : close_cancel e s = Some s' -> diagnostic_step s DTau s'.
Inductive diagnostic_run (events : nat) (bytes line_limit : Z) : list diagnostic_label -> DiagnosticState -> Prop :=
| drun_start up s :
    0 <= bytes -> make_diagnostic events bytes line_limit up = Ok s -> diagnostic_run events bytes line_limit [] s
| drun_step tr s l s' :
    diagnostic_run events bytes line_limit tr s -> diagnostic_step s l s' ->
    diagnostic_run events bytes line_limit (tr ++ [l]) s'.

Definition joined (l : list string) : string := foldr String.append "" l.
Definition admitted_lines (tr : list diagnostic_label) : list string :=
  omap (fun l => match l with DAdmit t => Some t | _ => None end) tr.
Definition output_text (tr : list diagnostic_label) : string :=
  joined (omap (fun l => match l with DWrite t => Some t | _ => None end) tr).

(** *** The invariant *)
Definition in_flight (s : DiagnosticState) : list DiagnosticItem :=
  match d_phase s with Checking it _ | Writing it _ | Finishing it _ _ _ _ => [it] | _ => [] end.
(** the ring, the charges and the counters *)
Record core (s : DiagnosticState) (items : list DiagnosticItem) : Prop := {
  co_ring : ring_shape (d_event_limit s) (d_queue s) (d_head s) (d_tail s) (d_queued s) items;
  co_owned : d_owned s = length (in_flight s ++ items);
  co_limit : (d_owned s <= d_event_limit s)%nat;
  co_bytes : d_bytes s = zsum d_charge (in_flight s ++ items);
  co_byte_limit : d_bytes s <= d_byte_limit s <= 64 * 1024 * 1024;
  co_charges : Forall (fun i => 0 <= d_charge i) (in_flight s ++ items);
  co_counts : d_admitted s =
    u64 (d_completed s + d_failed s + d_abandoned s + Z.of_nat (d_owned s)) }.
(** the flags *)
Record flags_ok (s : DiagnosticState) : Prop := {
  fl_available : d_available s = false -> d_accepting s = false;
  fl_closing : d_closing s = true -> d_accepting s = false;
  fl_abort : d_abort s = true -> d_closing s = true;
  fl_returned : d_phase s = Returned -> d_accepting s = false }.
(** [whole] lines are out, then [partial]; [rest] is what was admitted and is not *)
Definition text_prefix (a b : string) : Prop := exists c, b = a +:+ c.
Definition position (s : DiagnosticState) (items : list DiagnosticItem) (lost : list string)
  (partial : string) (rest : list string) : Prop :=
  let queued := (d_line <$> items) ++ lost in
  match d_phase s with
  | Checking it offset | Writing it offset =>
      (offset <= String.length (d_line it))%nat /\ partial = str_take offset (d_line it) /\ rest = d_line it :: queued
  | Finishing it offset kind _ _ =>
      (offset <= String.length (d_line it))%nat /\ partial = str_take offset (d_line it) /\ rest = d_line it :: queued
      /\ (kind = "" -> offset = String.length (d_line it))
  | Waiting => text_prefix partial (joined rest) /\ (d_available s = true -> partial = "" /\ rest = queued)
  | Returned => text_prefix partial (joined rest)
  end.
Definition order (tr : list diagnostic_label) (s : DiagnosticState) (items : list DiagnosticItem) : Prop :=
  exists whole rest lost partial,
    admitted_lines tr = whole ++ rest /\ output_text tr = joined whole +:+ partial /\
    position s items lost partial rest /\ (lost = [] \/ items = [] /\ d_accepting s = false).

(** *** Preservation *)
Lemma zsum_charges_nonneg l : Forall (fun i => 0 <= d_charge i) l -> 0 <= zsum d_charge l.
Proof. induction 1 as [|i l Hi _ IH]; [done|]. rewrite zsum_cons. lia. Qed.
Definition kept (s s' : DiagnosticState) : Prop :=
  d_phase s' = d_phase s /\ d_available s' = d_available s /\ d_accepting s' = d_accepting s /\
  d_closing s' = d_closing s /\ d_abort s' = d_abort s /\ d_done s' = d_done s.
(** dropping the oldest queued item *)
Lemma abandon_one s it items : core s (it :: items) ->
  d_queue s !! d_head s = Some (Some it) /\
  core (set_counts (d_admitted s) (d_completed s) (d_failed s) (u64 (d_abandoned s + 1)) (d_refused s)
         (d_exception_refused s)
         (set_ring (<[d_head s := None]> (d_queue s)) ((d_head s + 1) mod d_event_limit s)%nat (d_tail s)
            (pred (d_queued s)) (pred (d_owned s)) (u64 (d_bytes s - d_charge it)) s)) items.
Proof.
  intros [Hr Ho Hl Hb Hbl Hc Hn].
  destruct (ring_shape_pop _ _ _ _ _ _ Hr) as (x & rest & E & Hq & Hr').
  { destruct Hr as (_ & _ & _ & -> & _). done. }
  injection E as <- <-. split; [done|].
  apply Forall_app in Hc as [Hc1 Hc2]. apply Forall_cons in Hc2 as [Hi Hc2].
  pose proof (zsum_charges_nonneg _ Hc1). pose proof (zsum_charges_nonneg _ Hc2).
  rewrite length_app in Ho. simpl in Ho. rewrite zsum_app, zsum_cons in Hb.
  constructor; simpl; try done; rewrite ?length_app, ?zsum_app.
  - change (in_flight _) with (in_flight s). lia.
  - lia.
  - change (in_flight _) with (in_flight s). rewrite u64_small by (unfold u64_max; lia). lia.
  - rewrite u64_small by (unfold u64_max; lia). lia.
  - by apply Forall_app.
  - rewrite Hn, Ho. replace (d_completed s + d_failed s + u64 (d_abandoned s + 1))
      with (u64 (d_abandoned s + 1) + (d_completed s + d_failed s)) by lia.
    rewrite <- (Z.add_assoc (u64 _)), u64_add_l. f_equal. lia.
Qed.
Lemma abandon_spec s items : core s items -> core (abandon_queued s) [] /\ kept s (abandon_queued s).
Proof.
  unfold abandon_queued. intros Hc. assert (d_queued s = length items) as -> by apply Hc.
  revert s Hc. induction items as [|it items IH]; intros s Hc; [done|].
  destruct (abandon_one _ _ _ Hc) as [Hq Hc']. cbn [length abandon_loop]. rewrite Hq.
  destruct (IH _ Hc') as [H1 H2]. split; [exact H1|exact H2].
Qed.
Lemma text_prefix_refl a : text_prefix a a.
Proof. exists "". by rewrite string_app_nil_r. Qed.
Lemma text_prefix_nil a : text_prefix "" a.
Proof. by exists a. Qed.
Lemma take_prefix n t rest : text_prefix (str_take n t) (joined (t :: rest)).
Proof.
  exists (str_drop n t +:+ joined rest). cbn [joined foldr]. fold (joined rest).
  rewrite <- string_app_assoc. f_equal. revert n. induction t as [|c t IH]; intros [|n]; simpl; [done..|]. by rewrite <- IH.
Qed.
Lemma joined_app l k : joined (l ++ k) = joined l +:+ joined k.
Proof. induction l as [|a l IH]; [done|]. cbn [app joined foldr]. fold (joined (l ++ k)) (joined l). by rewrite IH, string_app_assoc. Qed.
Lemma admitted_tau tr : admitted_lines (tr ++ [DTau]) = admitted_lines tr.
Proof. unfold admitted_lines. by rewrite omap_app, app_nil_r. Qed.
Lemma output_silent tr l : (forall t, l <> DWrite t) -> output_text (tr ++ [l]) = output_text tr.
Proof.
  intros H. unfold output_text. rewrite omap_app. destruct l as [?|t|]; cbn; rewrite ?app_nil_r; try done.
  by destruct (H t).
Qed.
(** a step of another thread that only changes flags or counters the invariant does not read *)
Lemma order_tau tr s s' items : d_phase s' = d_phase s ->
  (d_available s' = true -> d_available s = true) -> (d_accepting s = false -> d_accepting s' = false) ->
  order tr s items -> order (tr ++ [DTau]) s' items.
Proof.
  intros Hp Ha Hc (whole & rest & lost & partial & H1 & H2 & H3 & H4). exists whole, rest, lost, partial.
  rewrite admitted_tau, output_silent by done. split_and!; [done|done| |].
  - unfold position in *. rewrite Hp. destruct (d_phase s); try done. destruct H3 as [? H3]. split; [done|]. auto.
  - destruct H4 as [?|[]]; [by left|right; auto].
Qed.
(** the queue is dropped: what it held is lost, and nothing can follow *)
Lemma order_abandon tr s s' items : d_phase s' = d_phase s -> d_available s' = d_available s ->
  d_accepting s' = false -> order tr s items -> order (tr ++ [DTau]) s' [].
Proof.
  intros Hp Ha Hc (whole & rest & lost & partial & H1 & H2 & H3 & H4).
  exists whole, rest, ((d_line <$> items) ++ lost), partial.
  rewrite admitted_tau, output_silent by done. split_and!; [done|done| |by right].
  unfold position in *. rewrite Hp, Ha. by destruct (d_phase s).
Qed.
Definition diagnostic_inv (tr : list diagnostic_label) (s : DiagnosticState) : Prop :=
  exists items, core s items /\ flags_ok s /\ order tr s items.

Lemma submit_preserves tr s items line capacity ok s' :
  match capacity with Some c => slen line < c <= 2 ^ 63 | None => True end ->
  core s items -> flags_ok s -> order tr s items ->
  diagnostic_submit sizeof_item line capacity s = (ok, s') ->
  diagnostic_inv (tr ++ [if ok then DAdmit (line +:+ String (ascii_of_N 10) "") else DTau]) s'.
Proof.
  intros Hcap Hc [F1 F2 F3 F4] Ho H. unfold diagnostic_submit in H.
  assert (Hrefused : forall r x, s' = set_counts (d_admitted s) (d_completed s) (d_failed s) (d_abandoned s) r x s ->
    ok = false -> diagnostic_inv (tr ++ [if ok then DAdmit (line +:+ String (ascii_of_N 10) "") else DTau]) s').
  { intros r x -> ->. exists items. split; [by destruct Hc|]. split; [by constructor|]. by eapply order_tau. }
  destruct (d_line_limit s <? slen line); [injection H as <- <-; by eapply Hrefused|].
  destruct capacity as [c|]; [|injection H as <- <-; by eapply Hrefused].
  destruct (_ || _ || _) eqn:Et; [injection H as <- <-; by eapply Hrefused|]. clear Hrefused.
  apply orb_false_iff in Et as [[Hacc Hown]%orb_false_iff Hch]. apply negb_false_iff in Hacc.
  apply Nat.leb_gt in Hown. injection H as <- <-. set (it := {| d_line := _; d_charge := _ |}).
  destruct Hc as [Hr Hco Hl Hb Hbl Hcs Hn]. pose proof (zsum_charges_nonneg _ Hcs).
  pose proof (slen_nonneg line). rewrite (u64_small (d_byte_limit s - _)) in Hch by (unfold u64_max; lia).
  assert (Hu : u64 (sizeof_item + c) = sizeof_item + c) by (apply u64_small; unfold u64_max; lia).
  assert (Hit : d_charge it = sizeof_item + c) by exact Hu. rewrite Hu in Hch |- *.
  assert (Hlen : (length items < d_event_limit s)%nat) by (rewrite length_app in Hco; lia).
  exists (items ++ [it]). split_and!.
  - constructor; simpl; change (in_flight _) with (in_flight s); rewrite ?app_assoc, ?length_app, ?zsum_app, ?zsum_cons, ?zsum_nil.
    + by apply ring_shape_push.
    + rewrite length_app in Hco. simpl. lia.
    + lia.
    + rewrite u64_small by (unfold u64_max; lia). rewrite zsum_app in Hb. lia.
    + rewrite u64_small by (unfold u64_max; lia). lia.
    + apply Forall_app. split; [done|]. constructor; [lia|constructor].
    + rewrite Hn, u64_add_l. f_equal. lia.
  - by constructor.
  - destruct Ho as (whole & rest & lost & partial & H1 & H2 & H3 & [->|[_ H4]]); [|congruence].
    assert (Hav : d_available s = true) by (destruct (d_available s); [done|]; rewrite F1 in Hacc; done).
    exists whole, (rest ++ [d_line it]), [], partial. unfold admitted_lines in *. rewrite omap_app, H1. cbn [omap list_omap].
    rewrite output_silent by done. rewrite app_assoc. split_and!; [done|done| |by left].
    unfold position in *. cbn [set_counts set_ring d_phase d_available]. rewrite fmap_app, !app_nil_r in *.
    destruct (d_phase s).
    + destruct H3 as [_ H3]. destruct (H3 Hav) as [-> ->]. split; [apply text_prefix_nil|done].
    + by destruct H3 as (? & ? & ->).
    + by destruct H3 as (? & ? & ->).
    + by destruct H3 as (? & ? & -> & ?).
    + rewrite F4 in Hacc; done.
Qed.
Lemma next_preserves tr s items tick s' : core s items -> flags_ok s -> order tr s items ->
  run_next tick s = Some s' -> diagnostic_inv (tr ++ [DTau]) s'.
Proof.
  intros Hc F Ho H. unfold run_next in H. destruct (d_phase s) eqn:Ep; try done.
  destruct (_ && _ && _) eqn:Ew; [done|].
  destruct (d_abort s || _ || _) eqn:Ea.
  - injection H as <-. destruct (abandon_spec _ _ Hc) as [Hc' (K1 & K2 & K3 & K4 & K5 & K6)].
    assert (Hacc : d_accepting s = false).
    { destruct F as [F1 F2 F3 F4]. destruct (d_abort s); [auto|]. destruct (d_available s); [|auto]. simpl in Ea.
      apply andb_true_iff in Ea as [_ Ea]. auto. }
    exists []. split_and!.
    + destruct Hc' as [C1 C2 C3 C4 C5 C6 C7]. unfold in_flight in *. rewrite K1, Ep in *. by constructor.
    + destruct F. constructor; cbn [set_phase set_worker set_flags d_available d_accepting d_closing d_abort d_phase];
        rewrite ?K2, ?K3, ?K4, ?K5; auto.
    + destruct Ho as (whole & rest & lost & partial & H1 & H2 & H3 & H4). exists whole, rest, [], partial.
      rewrite admitted_tau, output_silent by done. split_and!; [done|done| |by left].
      unfold position in *. rewrite Ep in H3. apply H3.
  - destruct (d_queue s !! d_head s) as [[it|]|] eqn:Eq; try done. injection H as <-.
    apply orb_false_iff in Ea as [[Ea1 Ea2%negb_false_iff]%orb_false_iff Ea3].
    destruct Hc as [C1 C2 C3 C4 C5 C6 C7]. unfold in_flight in *. rewrite Ep in *.
    assert (Hq : d_queued s <> O).
    { intros E. rewrite E in *. simpl in Ew, Ea3. by rewrite Ea3, Ea2 in Ew. }
    destruct (ring_shape_pop _ _ _ _ _ _ C1 Hq) as (x & rest' & -> & Hx & Hr). simplify_eq.
    exists rest'. split_and!; [by constructor|destruct F; by constructor|].
    destruct Ho as (whole & rest & lost & partial & H1 & H2 & H3 & H4). unfold position in H3. rewrite Ep in H3.
    destruct H3 as [_ H3]. destruct (H3 Ea2) as [-> ->]. destruct H4 as [->|[]]; [|done].
    exists whole, ((d_line <$> it :: rest') ++ []), [], "".
    rewrite admitted_tau, output_silent by done. split_and!; [done|done| |by left].
    split_and!; [lia|by destruct (d_line it)|done].
Qed.
(** the worker moves on with the same item *)
Lemma core_set_phase p s items :
  match p with Checking it _ | Writing it _ | Finishing it _ _ _ _ => [it] | _ => [] end =
  match d_phase s with Checking it _ | Writing it _ | Finishing it _ _ _ _ => [it] | _ => [] end ->
  core s items -> core (set_phase p s) items.
Proof.
  intros E []. assert (Ei : in_flight (set_phase p s) = in_flight s) by exact E.
  constructor; simpl; rewrite ?Ei; done.
Qed.
Lemma flags_set_phase p s : p <> Returned -> flags_ok s -> flags_ok (set_phase p s).
Proof. intros Hp []. by constructor. Qed.
Lemma check_preserves tr s items s' : core s items -> flags_ok s -> order tr s items ->
  run_check s = Some s' -> diagnostic_inv (tr ++ [DTau]) s'.
Proof.
  intros Hc F Ho H. unfold run_check in H. destruct (d_phase s) as [|it off| | |] eqn:Ep; try done. injection H as <-.
  exists items. split_and!.
  - apply core_set_phase; [|done]. rewrite Ep. by destruct (off <? _)%nat, (d_abort s).
  - apply flags_set_phase; [|done]. by destruct (off <? _)%nat, (d_abort s).
  - destruct Ho as (whole & rest & lost & partial & H1 & H2 & H3 & H4). exists whole, rest, lost, partial.
    rewrite admitted_tau, output_silent by done. split_and!; [done|done| |done].
    unfold position in *. rewrite Ep in H3. cbn [set_phase set_worker d_phase].
    destruct (Nat.ltb_spec off (String.length (d_line it))); [by destruct (d_abort s); [naive_solver|]|].
    destruct H3 as (? & ? & ?). split_and!; try done. lia.
Qed.
Lemma take_more off w t : (off + w <= String.length t)%nat ->
  str_take off t +:+ str_take w (str_drop off t) = str_take (off + w) t.
Proof.
  revert off. induction t as [|c t IH]; intros off; simpl.
  - intros ?. assert (off = O) as -> by lia. assert (w = O) as -> by lia. done.
  - intros H. destruct off as [|off]; simpl; [by destruct w|]. rewrite IH by lia. done.
Qed.
Lemma write_preserves tr s items o s' : match o with Wrote w | WriteFailed _ w => 0 <= w end ->
  core s items -> flags_ok s -> order tr s items ->
  run_write o s = Some s' -> diagnostic_inv (tr ++ [DWrite (written_text o s)]) s'.
Proof.
  intros Hw Hc F Ho H. unfold run_write in H. destruct (d_phase s) as [| |it off| |] eqn:Ep; try done. injection H as <-.
  assert (Hadm : forall t, admitted_lines (tr ++ [DWrite t]) = admitted_lines tr).
  { intros t. unfold admitted_lines. by rewrite omap_app, app_nil_r. }
  assert (Hout : forall t, output_text (tr ++ [DWrite t]) = output_text tr +:+ t).
  { intros t. unfold output_text. rewrite omap_app, joined_app. cbn. by rewrite string_app_nil_r. }
  exists items. split_and!.
  - apply core_set_phase; [|done]. rewrite Ep. destruct o; [done|]. by destruct (_ || _).
  - apply flags_set_phase; [|done]. destruct o; [done|]. by destruct (_ || _).
  - destruct Ho as (whole & rest & lost & partial & H1 & H2 & H3 & H4).
    unfold position in H3. rewrite Ep in H3. destruct H3 as (? & -> & ->).
    unfold written_text. rewrite Ep.
    assert (Hstay : forall k e b, k <> "" -> order (tr ++ [DWrite ""]) (set_phase (Finishing it off k e b) s) items).
    { intros k e b Hk. exists whole, (d_line it :: (d_line <$> items) ++ lost), lost, (str_take off (d_line it)).
      by rewrite Hadm, Hout, string_app_nil_r. }
    destruct o as [e w|w]; [by apply Hstay|]. destruct ((w =? 0) || _) eqn:Et; [by apply Hstay|].
    apply orb_false_iff in Et as [? ?]. cbv beta iota in Hw.
    exists whole, (d_line it :: (d_line <$> items) ++ lost), lost, (str_take (off + Z.to_nat w) (d_line it)).
    assert (Hle : (off + Z.to_nat w <= String.length (d_line it))%nat).
    { apply Z.ltb_ge in H3. clear -H H3 Hw. lia. }
    rewrite Hadm, Hout, H2, string_app_assoc, take_more by done. split_and!; [done|done| |done].
    split_and!; [lia|done|done].
Qed.
Lemma account_preserves tr s items s' : core s items -> flags_ok s -> order tr s items ->
  run_account s = Some s' -> diagnostic_inv (tr ++ [DTau]) s'.
Proof.
  intros [C1 C2 C3 C4 C5 C6 C7] [F1 F2 F3 F4] Ho H. unfold run_account in H.
  destruct (d_phase s) as [| | |it off k e b|] eqn:Ep; try done. injection H as <-.
  unfold in_flight in C2, C4, C6. rewrite Ep in *. cbn [app] in *. rewrite zsum_cons in C4. simpl in C2.
  apply Forall_cons in C6 as [Hi C6]. pose proof (zsum_charges_nonneg _ C6).
  exists items. split_and!.
  - constructor; simpl; try done; try lia.
    + rewrite u64_small by (unfold u64_max; lia). lia.
    + rewrite u64_small by (unfold u64_max; lia). lia.
    + rewrite C7, C2. destruct (str_empty k); cbn [pred].
      * rewrite <- !(Z.add_assoc (u64 (_ + 1))), u64_add_l. f_equal. lia.
      * replace (d_completed s + u64 (d_failed s + 1)) with (u64 (d_failed s + 1) + d_completed s) by lia.
        rewrite <- !(Z.add_assoc (u64 (_ + 1))), u64_add_l. f_equal. lia.
  - constructor; simpl; try done; destruct (str_empty k); simpl; auto.
  - destruct Ho as (whole & rest & lost & partial & H1 & H2 & H3 & H4). unfold position in H3. rewrite Ep in H3.
    destruct H3 as (? & -> & -> & Hk). destruct (str_empty k) eqn:Ek.
    + assert (off = String.length (d_line it)) as -> by (apply Hk; by destruct k).
      exists (whole ++ [d_line it]), ((d_line <$> items) ++ lost), lost, "".
      rewrite admitted_tau, output_silent, H1, H2, joined_app by done. rewrite <- app_assoc.
      split_and!; [done| | |destruct H4 as [->|[-> Hacc]]; [by left|right; split; [done|cbn; by rewrite ?Hacc, ?Ek]]].
      * cbn. rewrite !string_app_nil_r. f_equal. pose proof (str_take_app (d_line it) "") as E.
        by rewrite string_app_nil_r in E.
      * split; [apply text_prefix_nil|done].
    + exists whole, (d_line it :: (d_line <$> items) ++ lost), lost, (str_take off (d_line it)).
      rewrite admitted_tau, output_silent by done.
      split_and!; [done|done| |destruct H4 as [->|[-> Hacc]]; [by left|right; split; [done|cbn; by rewrite ?Hacc, ?Ek]]].
      split; [apply take_prefix|done].
Qed.
Lemma step_preserves tr s l s' : diagnostic_inv tr s -> diagnostic_step s l s' -> diagnostic_inv (tr ++ [l]) s'.
Proof.
  intros (items & Hc & Hf & Ho) Hs. destruct Hs.
  - by eapply submit_preserves.
  - by eapply next_preserves.
  - by eapply check_preserves.
  - by eapply write_preserves.
  - by eapply account_preserves.
  - exists items. split_and!; [by destruct Hc|by destruct Hf|by apply (order_tau _ s)].
  - unfold close_abort in *. destruct (d_closing s && _) eqn:E; [|done]. simplify_eq. destruct Hf as [F1 F2 F3 F4].
    apply andb_true_iff in E as [E _].
    destruct (abandon_spec (set_flags (d_available s) (d_accepting s) (d_closing s) true (d_done s)
      (d_deadline_exceeded s) s) items) as [Hc' (K1 & K2 & K3 & K4 & K5 & K6)]; [by destruct Hc|].
    exists []. split_and!; [done| |].
    + constructor; rewrite ?K1, ?K2, ?K3, ?K4, ?K5; auto.
    + eapply order_abandon; [done|done| |done]. rewrite K3. auto.
  - unfold close_deadline in *. destruct (d_abort s && _) eqn:E; [|done]. simplify_eq. destruct Hf as [F1 F2 F3 F4].
    apply andb_true_iff in E as [E _]. exists items.
    split_and!; [by destruct Hc|constructor; simpl; auto|by apply (order_tau _ s)].
  - unfold close_cancel in *. destruct (d_abort s); [|done]. simplify_eq.
    exists items. split_and!; [by destruct Hc|by destruct Hf|by apply (order_tau _ s)].
Qed.
Lemma abandon_limits n s : d_event_limit (abandon_loop n s) = d_event_limit s /\
  d_byte_limit (abandon_loop n s) = d_byte_limit s.
Proof.
  revert s. induction n as [|n IH]; intros s; [done|]. cbn [abandon_loop].
  destruct (d_queue s !! d_head s) as [[it|]|]; [|done..].
  match goal with |- d_event_limit (abandon_loop n ?x) = _ /\ _ => exact (IH x) end.
Qed.
Lemma step_limits s l s' : diagnostic_step s l s' ->
  d_event_limit s' = d_event_limit s /\ d_byte_limit s' = d_byte_limit s.
Proof.
  pose proof (abandon_limits (d_queued s)) as HA.
  destruct 1 as [line cap ok s' _ H|tick s' H|s' H|o s' _ H|s' H| |s' H|s' H|e s' H];
    unfold diagnostic_submit, run_next, run_check, run_write, run_account, close_abort, close_deadline,
      close_cancel, abandon_queued in *; repeat case_match; simplify_eq; try done.
  - exact (HA s).
  - match goal with |- d_event_limit (abandon_loop _ ?x) = _ /\ _ => exact (HA x) end.
Qed.
Lemma run_inv events bytes line_limit tr s : diagnostic_run events bytes line_limit tr s ->
  diagnostic_inv tr s /\ d_event_limit s = events /\ d_byte_limit s = bytes.
Proof.
  induction 1 as [up s Hb Hm|tr s l s' _ [IH1 [IH2 IH3]] Hs].
  - unfold make_diagnostic in Hm. inv_ok Hm. injection Hm as <-. split; [|done].
    rewrite !orb_false_iff in Ha. destruct Ha as [[[[[H1 H2] H3] H4] H5] H6].
    exists []. split_and!.
    + assert (Hi : in_flight (fresh_diagnostic events bytes line_limit up) = []) by by destruct up.
      constructor; rewrite ?Hi; simpl; try done; [apply ring_shape_empty|..].
      all: first [lia | constructor].
    + constructor; destruct up; simpl; done.
    + exists [], [], [], "". split_and!; try done; [|by left]. destruct up; cbn; try split; auto using text_prefix_nil.
  - split; [by eapply step_preserves|]. apply step_limits in Hs as [-> ->]. done.
Qed.

(** Standard output and error get an honest, bounded log.  In every
    interleaving of submitters, the worker and [close], whatever [WriteFile]
    answers: the bytes written are a prefix of the admitted lines, in admission
    order, so nothing is reordered, repeated or interleaved, also after a failed
    write or an abandoned queue; the lines owned and their charge stay within
    the limits; and every admitted line is completed, failed, abandoned or still
    owned. *)
Theorem diagnostic_log_exact (events : nat) (bytes line_limit : Z) (tr : list diagnostic_label) (s : DiagnosticState) :
  diagnostic_run events bytes line_limit tr s ->
  text_prefix (output_text tr) (joined (admitted_lines tr)) /\
  (d_owned s <= events)%nat /\ 0 <= d_bytes s <= bytes /\
  d_admitted s = u64 (d_completed s + d_failed s + d_abandoned s + Z.of_nat (d_owned s)).
Proof.
  intros H. destruct (run_inv _ _ _ _ _ H) as [(items & [C1 C2 C3 C4 C5 C6 C7] & _ & Ho) [<- <-]].
  pose proof (zsum_charges_nonneg _ C6).
  split_and!; [|done|lia|lia|done]. destruct Ho as (whole & rest & lost & partial & -> & -> & H3 & _).
  assert (Hp : text_prefix partial (joined rest)).
  { unfold position in H3. destruct (d_phase s); [apply H3| | | |done];
      destruct H3 as (_ & -> & H3); [subst rest|subst rest|destruct H3 as [-> _]]; apply take_prefix. }
  destruct Hp as [c Hc]. exists c. by rewrite joined_app, Hc, string_app_assoc.
Qed.
End Executions.

(** ** A short run: two lines admitted, the first written in two parts, the second refused by the handle *)
Inductive action :=
| ASubmit (line : string) (capacity : Z) | ANext (tick : Z) | ACheck | AWrite (o : write_outcome) | AAccount.
Definition act (a : action) (s : DiagnosticState) : option (diagnostic_label * DiagnosticState) :=
  let silent o := s' ← o; Some (DTau, s') in
  match a with
  | ASubmit line c =>
      let '(ok, s') := diagnostic_submit 40 line (Some c) s in
      Some (if ok then DAdmit (line +:+ String (ascii_of_N 10) "") else DTau, s')
  | ANext tick => silent (run_next tick s)
  | ACheck => silent (run_check s)
  | AWrite o => s' ← run_write o s; Some (DWrite (written_text o s), s')
  | AAccount => silent (run_account s)
  end.
Definition action_ok (a : action) : bool :=
  match a with
  | ASubmit line c => (slen line <? c) && (c <=? 2 ^ 63)
  | AWrite (Wrote w) | AWrite (WriteFailed _ w) => 0 <=? w
  | _ => true
  end.
Fixpoint act_all (l : list action) (tr : list diagnostic_label) (s : DiagnosticState)
  : option (list diagnostic_label * DiagnosticState) :=
  match l with
  | [] => Some (tr, s)
  | a :: l => if action_ok a then '(b, s') ← act a s; act_all l (tr ++ [b]) s' else None
  end.
Lemma act_step a s l s' : action_ok a = true -> act a s = Some (l, s') -> diagnostic_step 40 s l s'.
Proof.
  intros Ha H. destruct a as [line c|tick| |o|]; simpl in *.
  - destruct (diagnostic_submit 40 line (Some c) s) as [ok x] eqn:E. simplify_eq.
    eapply dstep_submit; [|exact E]. apply andb_true_iff in Ha as [? ?]. lia.
  - destruct (run_next tick s) eqn:E; simplify_eq/=. by eapply dstep_next.
  - destruct (run_check s) eqn:E; simplify_eq/=. by eapply dstep_check.
  - destruct (run_write o s) eqn:E; simplify_eq/=. eapply dstep_write; [|exact E]. destruct o; lia.
  - destruct (run_account s) eqn:E; simplify_eq/=. by eapply dstep_account.
Qed.
Lemma act_all_run l tr s tr' s' : diagnostic_run 40 4 4096 1024 tr s -> act_all l tr s = Some (tr', s') ->
  diagnostic_run 40 4 4096 1024 tr' s'.
Proof.
  revert tr s. induction l as [|a l IH]; intros tr s Hr H; cbn [act_all] in H; [by simplify_eq|].
  destruct (action_ok a) eqn:Ea; [|done]. destruct (act a s) as [[b x]|] eqn:E; [|done].
  eapply IH; [|exact H]. eapply drun_step; [exact Hr|by eapply act_step].
Qed.
Definition sample_actions : list action :=
  [ASubmit "ab" 15; ASubmit "c" 15; ANext 5; ACheck; AWrite (Wrote 2); ACheck; AWrite (Wrote 1); ACheck;
   AAccount; ANext 6; ACheck; AWrite (WriteFailed 109 0); AAccount].
Definition run_sample : option (list diagnostic_label * DiagnosticState) :=
  act_all sample_actions [] (fresh_diagnostic 4 4096 1024 Started).
Lemma sample_start : diagnostic_run 40 4 4096 1024 [] (fresh_diagnostic 4 4096 1024 Started).
Proof. apply (drun_start _ _ _ _ Started); [lia|reflexivity]. Defined.
Lemma sizeof_sample : 0 <= 40 <= 65536.
Proof. lia. Defined.
Lemma diagnostic_log_exact_witness : exists tr s, run_sample = Some (tr, s) /\
  text_prefix (output_text tr) (joined (admitted_lines tr)) /\
  output_text tr = "ab" +:+ String (ascii_of_N 10) "" /\ length (admitted_lines tr) = 2%nat /\
  d_completed s = 1 /\ d_failed s = 1 /\ d_available s = false.
Proof.
  eexists _, _. split; [vm_compute; reflexivity|]. split; [|vm_compute; repeat split].
  eapply (diagnostic_log_exact 40 sizeof_sample 4 4096 1024).
  eapply (act_all_run sample_actions [] _ _ _ sample_start). vm_compute. reflexivity.
Defined.
