(* ===== verification/Identity.v ===== *)
(** * Process and event identities

    [core/entity_id.cpp] derives event, process and process-context identities
    as SHA-256 digests of length-prefixed canonical text;
    [core/process_instance.cpp] keeps the bounded store of exact process
    instances.  The Windows CNG provider is a parameter: [cng_sha256] returns
    the digest bytes of an input, or the message of the provider call that failed. *)

From S2P Require Import Prelude Telemetry.

(** A function with an [error_message] out-parameter: the message or the value. *)
Abbreviation outcome A := (string + A)%type.

Definition hex_digit (v : Z) : ascii :=
  if v <? 10 then digit_char v else ascii_of_N (Z.to_N (97 + (v - 10))).
(** [std::hex] with [setw(2)] and fill ['0'], byte by byte *)
Fixpoint hex_bytes (bytes : list Z) : string :=
  match bytes with
  | [] => ""
  | b :: rest => String (hex_digit (b / 16)) (String (hex_digit (b mod 16)) (hex_bytes rest))
  end.

Definition append_field (destination value : string) : string :=
  destination +:+ to_string (slen value) +:+ ":" +:+ value +:+ "|".

(** [duration_cast] truncates towards zero. *)
Definition timestamp_nanoseconds (t : UtcTimestamp) : string := to_string t.
Definition timestamp_milliseconds (t : UtcTimestamp) : string := to_string (Z.quot t 1000000).

Section digest.
Context (cng_sha256 : string -> outcome (list Z)).

Definition sha256_hex (input : string) : outcome string :=
  if u32_max <? slen input
  then inl "Cannot hash an identity larger than the Windows CNG input limit."
  else match cng_sha256 input with
       | inl error => inl error
       | inr digest => inr (hex_bytes digest)
       end.

Definition prefixed (prefix canonical : string) : outcome string :=
  match sha256_hex canonical with
  | inr digest => inr (prefix +:+ digest)
  | inl e => inl e
  end.

Definition process_entity_canonical (host_id : string) (pid : Z) (start : UtcTimestamp) : string :=
  let c := append_field "" "process-entity-v2" in
  let c := append_field c host_id in
  let c := append_field c (to_string pid) in
  append_field c (timestamp_milliseconds start).
Definition derive_process_entity_id (host_id : string) (pid : Z) (start : UtcTimestamp)
  : outcome string :=
  if str_empty host_id
  then inl "A non-empty host ID is required to derive a process entity ID."
  else prefixed "proc_" (process_entity_canonical host_id pid start).

Definition record_id_text (record_id : option Z) : string :=
  match record_id with Some r => to_string r | None => "" end.

Definition process_event_canonical (host_id : string) (event : RawProcessEvent) : string :=
  let source := pe_source event in
  let c := append_field "" "process-start-event-v1" in
  let c := append_field c host_id in
  let c := append_field c (source_kind_name (sp_kind source)) in
  let c := append_field c (sp_provider source) in
  let c := append_field c (value_or (sp_channel source) "") in
  let c := append_field c (record_id_text (sp_record_id source)) in
  let c := append_field c (to_string (pe_pid event)) in
  append_field c (timestamp_nanoseconds (pe_process_start_time event)).
Definition derive_process_event_id (host_id : string) (event : RawProcessEvent)
  : outcome string :=
  if str_empty host_id
  then inl "A non-empty host ID is required to derive an event ID."
  else if str_empty (sp_provider (pe_source event))
  then inl "A source provider is required to derive an event ID."
  else prefixed "evt_" (process_event_canonical host_id event).

Definition process_context_canonical (host_id : string) (pid : Z) (process_guid : string)
  : string :=
  let c := append_field "" "process-context-v1" in
  let c := append_field c host_id in
  let c := append_field c (to_string pid) in
  append_field c process_guid.
Definition derive_process_context_entity_id (host_id : string) (pid : Z) (process_guid : string)
  : outcome string :=
  if str_empty host_id
  then inl "A non-empty host ID is required to derive a process-context entity ID."
  else prefixed "proc_" (process_context_canonical host_id pid process_guid).

Definition telemetry_event_canonical (host_id : string) (source : SourceProvenance)
  (category type : string) (pid : Z) (timestamp : UtcTimestamp) : string :=
  let c := append_field "" "telemetry-event-v1" in
  let c := append_field c host_id in
  let c := append_field c (source_kind_name (sp_kind source)) in
  let c := append_field c (sp_provider source) in
  let c := append_field c (value_or (sp_channel source) "") in
  let c := append_field c (record_id_text (sp_record_id source)) in
  let c := append_field c category in
  let c := append_field c type in
  let c := append_field c (to_string pid) in
  append_field c (timestamp_nanoseconds timestamp).
Definition derive_telemetry_event_id (host_id : string) (source : SourceProvenance)
  (category type : string) (pid : Z) (timestamp : UtcTimestamp) : outcome string :=
  if str_empty host_id
  then inl "A non-empty host ID is required to derive an event ID."
  else if str_empty (sp_provider source)
  then inl "A source provider is required to derive an event ID."
  else prefixed "evt_" (telemetry_event_canonical host_id source category type pid timestamp).

(** ** The process instance store *)
Definition field (value : string) : string := to_string (slen value) +:+ ":" +:+ value.
Definition identity (value : string) : result string :=
  match sha256_hex value with
  | inr hash => Ok ("proc_" +:+ hash)
  | inl error => Throw (runtime_error error)
  end.

Record ProcessReference := {
  observed_pid : Z;
  entity_id : option string;
  resolution : string;
  native_creation_ticks : option Z;
  source_guid : option string;
  boot_id : option string;
  source_namespace : string
}.
Record Instance_ := { reference : ProcessReference; terminated_at : option UtcTimestamp }.
Record ProcessInstanceStore := {
  host_id_ : string;
  boot_id_ : option string;
  resident_limit_ : nat;
  admission_failures_ : Z;
  instances_ : gmap string Instance_
}.

Definition make_store (host_id : string) (boot_id : option string) (resident_limit : nat)
  : result ProcessInstanceStore :=
  if str_empty host_id || (resident_limit =? 0)%nat
     || match boot_id with Some b => str_empty b | None => false end
  then Throw (invalid_argument "invalid process identity scope")
  else Ok {| host_id_ := host_id; boot_id_ := boot_id; resident_limit_ := resident_limit;
             admission_failures_ := 0; instances_ := ∅ |}.

Definition native_canonical (host boot : string) (pid ticks : Z) : string :=
  field "native-process-instance-v1" +:+ field host +:+ field boot
  +:+ field (to_string pid) +:+ field (to_string ticks).
Definition source_canonical (host boot ns : string) (pid : Z) (guid : string) : string :=
  field "source-process-instance-v1" +:+ field host +:+ field boot +:+ field ns
  +:+ field (to_string pid) +:+ field guid.

Definition has_native_ticks (ticks : option Z) : option Z :=
  match ticks with Some t => if t =? 0 then None else Some t | None => None end.

(** The reference [observe] returns, before the store is updated. *)
Definition make_reference (st : ProcessInstanceStore) (pid : Z) (ticks : option Z)
  (guid : option string) (ns : string) : result ProcessReference :=
  _ ← throw_if (str_empty ns || (1024 <? slen ns)
                || match guid with
                   | Some g => str_empty g || (256 <? slen g)
                   | None => false
                   end) (invalid_argument "invalid process source alias");
  let base id res := {| observed_pid := pid; entity_id := id; resolution := res;
                        native_creation_ticks := ticks; source_guid := guid;
                        boot_id := boot_id_ st; source_namespace := ns |} in
  match has_native_ticks ticks, boot_id_ st with
  | Some t, Some boot =>
      id ← identity (native_canonical (host_id_ st) boot pid t);
      Ok (base (Some id) "native_exact")
  | native, boot =>
      match guid with
      | Some g =>
          id ← identity (source_canonical (host_id_ st) (value_or boot "unknown") ns pid g);
          Ok (base (Some id) "source_scoped")
      | None =>
          match native with
          | Some _ => Ok (base None "native_unscoped")
          | None => Ok (base None "unresolved")
          end
      end
  end.

Definition set_instances (m : gmap string Instance_) (f : Z) (st : ProcessInstanceStore) :=
  {| host_id_ := host_id_ st; boot_id_ := boot_id_ st; resident_limit_ := resident_limit_ st;
     admission_failures_ := f; instances_ := m |}.

(** [try_emplace]: an instance already present keeps its first reference. *)
Definition remember_instance (r : ProcessReference) (st : ProcessInstanceStore)
  : ProcessInstanceStore :=
  match entity_id r with
  | None => st
  | Some id =>
      match instances_ st !! id with
      | Some _ => st
      | None =>
          if (resident_limit_ st <=? size (instances_ st))%nat
          then set_instances (instances_ st) (u64 (admission_failures_ st + 1)) st
          else set_instances (<[id := {| reference := r; terminated_at := None |}]> (instances_ st))
                 (admission_failures_ st) st
      end
  end.

Definition observe (pid : Z) (ticks : option Z) (guid : option string) (ns : string)
  (st : ProcessInstanceStore) : result (ProcessReference * ProcessInstanceStore) :=
  r ← make_reference st pid ticks guid ns;
  Ok (r, remember_instance r st).

Definition terminate (r : ProcessReference) (time : UtcTimestamp) (st : ProcessInstanceStore)
  : ProcessInstanceStore :=
  match entity_id r with
  | None => st
  | Some id =>
      match instances_ st !! id with
      | None => st
      | Some i =>
          let earlier := match terminated_at i with None => true | Some t => time <? t end in
          if earlier
          then set_instances (<[id := {| reference := reference i; terminated_at := Some time |}]>
                 (instances_ st)) (admission_failures_ st) st
          else st
      end
  end.

(** ** Binding *)

(** Two different inputs with the same SHA-256 text. *)
Definition sha256_collision : Prop :=
  exists a b d, a <> b /\ sha256_hex a = inr d /\ sha256_hex b = inr d.

Lemma prefixed_binding p a b id :
  prefixed p a = inr id -> prefixed p b = inr id -> a = b \/ sha256_collision.
Proof.
  unfold prefixed. destruct (sha256_hex a) as [|da] eqn:Ea; [done|].
  destruct (sha256_hex b) as [|db] eqn:Eb; [done|]. intros [= <-] [= E].
  assert (da = db) as -> by (symmetry in E; revert E; apply (inj (String.app p))).
  destruct (decide (a = b)); [by left | right; by exists a, b, db].
Qed.
Lemma identity_prefixed v id : identity v = Ok id <-> prefixed "proc_" v = inr id.
Proof. unfold identity, prefixed. by destruct (sha256_hex v); split; intros [= <-]. Qed.

(** The canonical text read from the left: one sized field after the other. *)
Lemma append_field_sized d v rest :
  append_field d v +:+ rest = d +:+ sized v (String "|" rest).
Proof.
  unfold append_field, sized. by rewrite !string_app_assoc.
Qed.
Lemma append_field_end d v : append_field d v = d +:+ sized v "|".
Proof. by rewrite <- (string_app_nil_r (append_field d v)), append_field_sized. Qed.
Lemma field_sized v rest : field v +:+ rest = sized v rest.
Proof. unfold field, sized. by rewrite !string_app_assoc. Qed.
Lemma field_end v : field v = sized v "".
Proof. by rewrite <- field_sized, string_app_nil_r. Qed.
End digest.

(** The text of a digest. *)
Lemma hex_digit_lower v : 0 <= v < 16 -> is_lower_hex (hex_digit v) = true.
Proof. apply (below_forallb (fun v => is_lower_hex (hex_digit v))). reflexivity. Qed.
Lemma hex_bytes_lower d : Forall (fun b => 0 <= b < 256) d -> str_forallb is_lower_hex (hex_bytes d) = true.
Proof.
  induction 1 as [|b d Hb _ IH]; [done|]. simpl.
  rewrite !hex_digit_lower, IH by (Z.to_euclidean_division_equations; lia). done.
Qed.
Lemma hex_bytes_length d : slen (hex_bytes d) = 2 * zlen d.
Proof. induction d as [|b d IH]; [done|]. simpl. rewrite !slen_cons, IH. unfold zlen. simpl. lia. Qed.

(** A canonical text as the list of its fields. *)
Definition fields_text (fields : list string) : string :=
  foldr (fun v r => sized v (String "|" r)) "" fields.
Definition bare_fields_text (fields : list string) : string := foldr sized "" fields.

Lemma fields_text_inj l k :
  length l = length k -> fields_text l = fields_text k -> l = k.
Proof.
  revert k; induction l as [|v l IH]; intros [|w k]; simpl; try done.
  intros Hlen E. apply sized_inj in E as [-> E]. injection E as E.
  f_equal. apply IH; [lia | done].
Qed.
Lemma bare_fields_text_inj l k :
  length l = length k -> bare_fields_text l = bare_fields_text k -> l = k.
Proof.
  revert k; induction l as [|v l IH]; intros [|w k]; simpl; try done.
  intros Hlen E. apply sized_inj in E as [-> E]. f_equal. apply IH; [lia | done].
Qed.
Lemma fields_text_head v l w k : fields_text (v :: l) = fields_text (w :: k) -> v = w.
Proof. simpl. by intros [-> _]%sized_inj. Qed.
Lemma bare_fields_text_head v l w k :
  bare_fields_text (v :: l) = bare_fields_text (w :: k) -> v = w.
Proof. simpl. by intros [-> _]%sized_inj. Qed.

Ltac canonical_fields :=
  first [ rewrite append_field_end, !append_field_sized | rewrite !field_sized ]; done.

Lemma process_entity_fields h p t :
  process_entity_canonical h p t =
  fields_text ["process-entity-v2"; h; to_string p; timestamp_milliseconds t].
Proof. unfold process_entity_canonical. canonical_fields. Qed.
Lemma process_context_fields h p g :
  process_context_canonical h p g = fields_text ["process-context-v1"; h; to_string p; g].
Proof. unfold process_context_canonical. canonical_fields. Qed.
Lemma telemetry_event_fields h s c ty p t :
  telemetry_event_canonical h s c ty p t =
  fields_text ["telemetry-event-v1"; h; source_kind_name (sp_kind s); sp_provider s;
    value_or (sp_channel s) ""; record_id_text (sp_record_id s); c; ty; to_string p;
    timestamp_nanoseconds t].
Proof. unfold telemetry_event_canonical. canonical_fields. Qed.
Lemma process_event_fields h e :
  process_event_canonical h e =
  fields_text ["process-start-event-v1"; h; source_kind_name (sp_kind (pe_source e));
    sp_provider (pe_source e); value_or (sp_channel (pe_source e)) "";
    record_id_text (sp_record_id (pe_source e)); to_string (pe_pid e);
    timestamp_nanoseconds (pe_process_start_time e)].
Proof. unfold process_event_canonical. canonical_fields. Qed.
Lemma native_fields_text h b p t :
  native_canonical h b p t =
  bare_fields_text ["native-process-instance-v1"; h; b; to_string p; to_string t].
Proof. unfold native_canonical. rewrite (field_end (to_string t)). canonical_fields. Qed.
Lemma source_fields_text h b n p g :
  source_canonical h b n p g =
  bare_fields_text ["source-process-instance-v1"; h; b; n; to_string p; g].
Proof. unfold source_canonical. rewrite (field_end g). canonical_fields. Qed.

Lemma record_id_text_inj a b : record_id_text a = record_id_text b -> a = b.
Proof.
  destruct a as [a|], b as [b|]; simpl; intros E; try done.
  - by apply to_string_inj in E as ->.
  - exfalso. revert E. unfold to_string. destruct (a <? 0); [done|]. apply udec_nonempty.
  - exfalso. symmetry in E. revert E. unfold to_string. destruct (b <? 0); [done|]. apply udec_nonempty.
Qed.

(** ** Properties of the derived identities *)
Section properties.
Context (cng_sha256 : string -> outcome (list Z)).

(** Two process observations get the same entity identity only when host,
    PID and start time in whole milliseconds agree, unless SHA-256 itself
    collides on two different canonical texts: a reused PID with another start
    time never aliases an earlier process. *)
Theorem process_entity_id_binding h p t h' p' t' id :
  derive_process_entity_id cng_sha256 h p t = inr id ->
  derive_process_entity_id cng_sha256 h' p' t' = inr id ->
  (h = h' /\ p = p' /\ Z.quot t 1000000 = Z.quot t' 1000000) \/ sha256_collision cng_sha256.
Proof.
  unfold derive_process_entity_id. intros H1 H2.
  destruct (str_empty h), (str_empty h'); try done.
  destruct (prefixed_binding _ _ _ _ _ H1 H2) as [E|]; [left | by right].
  rewrite !process_entity_fields in E. apply fields_text_inj in E; [|done].
  simplify_eq. eauto using to_string_inj.
Qed.

(** An event identity binds host, source kind, provider, channel (an absent
    channel and an empty one are the same), record id, category, type, PID and
    the full nanosecond timestamp, unless SHA-256 collides. *)
Theorem telemetry_event_id_binding h s c ty p t h' s' c' ty' p' t' id :
  derive_telemetry_event_id cng_sha256 h s c ty p t = inr id ->
  derive_telemetry_event_id cng_sha256 h' s' c' ty' p' t' = inr id ->
  (h = h' /\ sp_kind s = sp_kind s' /\ sp_provider s = sp_provider s' /\
   value_or (sp_channel s) "" = value_or (sp_channel s') "" /\
   sp_record_id s = sp_record_id s' /\ c = c' /\ ty = ty' /\ p = p' /\ t = t')
  \/ sha256_collision cng_sha256.
Proof.
  unfold derive_telemetry_event_id. intros H1 H2.
  destruct (str_empty h), (str_empty h'), (str_empty (sp_provider s)),
    (str_empty (sp_provider s')); try done.
  destruct (prefixed_binding _ _ _ _ _ H1 H2) as [E|]; [left | by right].
  rewrite !telemetry_event_fields in E. apply fields_text_inj in E; [|done].
  injection E as ? ? ? ? ? ? ? ? ?.
  repeat split; eauto using to_string_inj, record_id_text_inj, source_kind_name_inj.
Qed.

(** The identity domains are separate: a process-start entity never equals
    a process-context entity, and a process-start event never equals a family
    event, although each pair shares its textual prefix (unless SHA-256 collides). *)
Theorem identity_domains_disjoint h p t h' p' g id e s c ty ts eid :
  (derive_process_entity_id cng_sha256 h p t = inr id ->
   derive_process_context_entity_id cng_sha256 h' p' g = inr id -> sha256_collision cng_sha256) /\
  (derive_process_event_id cng_sha256 h e = inr eid ->
   derive_telemetry_event_id cng_sha256 h' s c ty p' ts = inr eid ->
   sha256_collision cng_sha256).
Proof.
  unfold derive_process_entity_id, derive_process_context_entity_id,
    derive_process_event_id, derive_telemetry_event_id.
  split; intros H1 H2; repeat case_match; try done;
    destruct (prefixed_binding _ _ _ _ _ H1 H2) as [E|]; [|done| |done]; exfalso;
    rewrite ?process_entity_fields, ?process_context_fields, ?process_event_fields,
      ?telemetry_event_fields in E; by apply fields_text_head in E.
Qed.

Lemma make_reference_ids st pid ticks guid ns r id :
  make_reference cng_sha256 st pid ticks guid ns = Ok r -> entity_id r = Some id ->
  observed_pid r = pid /\ native_creation_ticks r = ticks /\ source_guid r = guid /\
  source_namespace r = ns /\
  ((exists t b, ticks = Some t /\ boot_id_ st = Some b /\ resolution r = "native_exact" /\
      prefixed cng_sha256 "proc_" (native_canonical (host_id_ st) b pid t) = inr id) \/
   (exists g, guid = Some g /\ resolution r = "source_scoped" /\
      prefixed cng_sha256 "proc_"
        (source_canonical (host_id_ st) (value_or (boot_id_ st) "unknown") ns pid g) = inr id)).
Proof.
  unfold make_reference. intros H Hid. apply bind_Ok in H as (u & _ & H).
  assert (Hn : forall t, has_native_ticks ticks = Some t -> ticks = Some t).
  { unfold has_native_ticks. intros t. destruct ticks as [x|]; [|done].
    by destruct (x =? 0). }
  destruct (has_native_ticks ticks) as [t|] eqn:Et, (boot_id_ st) as [b|] eqn:Eb,
    guid as [g|]; first [ apply bind_Ok in H as (i & Hi & H); apply identity_prefixed in Hi | idtac ];
    injection H as <-; simpl in Hid; try discriminate Hid; injection Hid as ->; simpl;
    do 4 (split; [reflexivity|]); first [ left; by exists t, b; auto | right; by exists g ].
Qed.

(** The instance store identifies processes exactly: two observations, in
    any two stores, that get the same entity identity agree on host, PID and
    kind of resolution, and then on boot identity and native creation ticks
    (native) or on source namespace and GUID (source scoped), unless SHA-256
    collides.  PID equality alone never merges two processes. *)
Theorem process_instance_binding st st' pid pid' ticks ticks' guid guid' ns ns' r r' id :
  make_reference cng_sha256 st pid ticks guid ns = Ok r ->
  make_reference cng_sha256 st' pid' ticks' guid' ns' = Ok r' ->
  entity_id r = Some id -> entity_id r' = Some id ->
  (host_id_ st = host_id_ st' /\ pid = pid' /\ resolution r = resolution r' /\
   ((resolution r = "native_exact" /\ boot_id_ st = boot_id_ st' /\ ticks = ticks') \/
    (resolution r = "source_scoped" /\ ns = ns' /\ guid = guid' /\
     value_or (boot_id_ st) "unknown" = value_or (boot_id_ st') "unknown")))
  \/ sha256_collision cng_sha256.
Proof.
  intros H1 H2 Hi1 Hi2.
  destruct (make_reference_ids _ _ _ _ _ _ _ H1 Hi1) as (_ & _ & _ & _ & D1).
  destruct (make_reference_ids _ _ _ _ _ _ _ H2 Hi2) as (_ & _ & _ & _ & D2).
  destruct D1 as [(t & b & -> & Hb & Hr & P1)|(g & -> & Hr & P1)],
    D2 as [(t' & b' & -> & Hb' & Hr' & P2)|(g' & -> & Hr' & P2)];
    (destruct (prefixed_binding _ _ _ _ _ P1 P2) as [E|]; [|by right]);
    rewrite ?native_fields_text, ?source_fields_text in E;
    try (by apply bare_fields_text_head in E);
    apply bare_fields_text_inj in E; try done; left; rewrite Hr, Hr'.
  - injection E as ? ? Ep Et. apply to_string_inj in Ep, Et. subst.
    repeat split; [done|]. left. split; [done|]. split; [congruence | done].
  - injection E as ? ? ? Ep ?. apply to_string_inj in Ep. subst.
    repeat split; [done|]. by right.
Qed.

(** ** The store over a history of calls *)
Inductive store_op :=
| Observe (pid : Z) (ticks : option Z) (guid : option string) (ns : string)
| Terminate (r : ProcessReference) (time : UtcTimestamp).
(** A throwing [observe] leaves the store as it was. *)
Definition store_step (st : ProcessInstanceStore) (op : store_op) : ProcessInstanceStore :=
  match op with
  | Observe pid ticks guid ns =>
      match observe cng_sha256 pid ticks guid ns st with Ok (_, st') => st' | Throw _ => st end
  | Terminate r time => terminate r time st
  end.

Definition store_ok (st : ProcessInstanceStore) : Prop :=
  (size (instances_ st) <= resident_limit_ st)%nat /\
  forall id i, instances_ st !! id = Some i -> entity_id (reference i) = Some id.

Lemma store_step_ok st op :
  store_ok st -> store_ok (store_step st op) /\
  resident_limit_ (store_step st op) = resident_limit_ st /\
  (forall id i, instances_ st !! id = Some i ->
     exists i', instances_ (store_step st op) !! id = Some i' /\ reference i' = reference i).
Proof.
  intros Hst. pose proof Hst as [Hsz Hkey].
  assert (Hsame : store_ok st /\ resident_limit_ st = resident_limit_ st /\
    (forall id i, instances_ st !! id = Some i ->
      exists i', instances_ st !! id = Some i' /\ reference i' = reference i)) by eauto.
  unfold store_step.
  destruct op as [pid ticks guid ns|r time].
  - unfold observe. destruct (make_reference cng_sha256 st pid ticks guid ns) as [r|e];
      simpl; [|exact Hsame].
    unfold remember_instance. destruct (entity_id r) as [id|] eqn:Eid; [|exact Hsame].
    destruct (instances_ st !! id) as [i|] eqn:Ei; [by eauto|].
    destruct (Nat.leb_spec (resident_limit_ st) (size (instances_ st))); [by eauto|].
    split; [split|split; [done|]]; simpl.
    + rewrite map_size_insert_None by done. lia.
    + intros id' i'. rewrite lookup_insert. case_decide; [by intros [= <-]; subst|apply Hkey].
    + intros id' i' Hi'. exists i'. rewrite lookup_insert_ne; [done|congruence].
  - unfold terminate. destruct (entity_id r) as [id|] eqn:Eid; [|exact Hsame].
    destruct (instances_ st !! id) as [i|] eqn:Ei; [|exact Hsame].
    destruct (match terminated_at i with None => true | Some t => time <? t end); [|exact Hsame].
    split; [split|split; [done|]]; simpl.
    + rewrite map_size_insert, Ei. done.
    + intros id' i'. rewrite lookup_insert. case_decide; [intros [= <-]; subst; exact (Hkey _ _ Ei)|apply Hkey].
    + intros id' i' Hi'. destruct (decide (id = id')) as [<-|].
      * rewrite lookup_insert_eq. eexists. split; [done|]. simpl. congruence.
      * exists i'. by rewrite lookup_insert_ne.
Qed.

(** Over any history of observations and terminations the store never
    holds more than its resident limit, files every instance under its own
    entity identity, and never drops or replaces the reference of an instance
    once admitted (a full store counts an admission failure instead). *)
Theorem store_bounded_and_stable host boot limit st0 ops1 ops2 :
  make_store host boot limit = Ok st0 ->
  let st1 := foldl store_step st0 ops1 in
  let st2 := foldl store_step st1 ops2 in
  (size (instances_ st2) <= limit)%nat /\
  (forall id i, instances_ st2 !! id = Some i -> entity_id (reference i) = Some id) /\
  (forall id i, instances_ st1 !! id = Some i ->
     exists i', instances_ st2 !! id = Some i' /\ reference i' = reference i).
Proof.
  intros Hm st1 st2.
  assert (Hrun : forall ops st, store_ok st -> store_ok (foldl store_step st ops) /\
    resident_limit_ (foldl store_step st ops) = resident_limit_ st /\
    (forall id i, instances_ st !! id = Some i -> exists i',
      instances_ (foldl store_step st ops) !! id = Some i' /\ reference i' = reference i)).
  { induction ops as [|op ops IH]; intros st Hst; simpl.
    { split; [done|]. split; [done|]. eauto. }
    destruct (store_step_ok st op Hst) as (Hst' & Hl & Hk).
    destruct (IH _ Hst') as (Hst'' & Hl' & Hk'). split; [done|]. split; [congruence|].
    intros id i Hi. destruct (Hk _ _ Hi) as (i' & Hi' & E).
    destruct (Hk' _ _ Hi') as (i'' & Hi'' & E'). exists i''. split; [done|congruence]. }
  unfold make_store in Hm. revert Hm.
  destruct (str_empty host || (limit =? 0)%nat || _); [done|]. intros [= <-].
  assert (H0 : store_ok {| host_id_ := host; boot_id_ := boot; resident_limit_ := limit;
    admission_failures_ := 0; instances_ := ∅ |}) by (split; simpl; [rewrite map_size_empty; lia|done]).
  destruct (Hrun ops1 _ H0) as (H1 & L1 & _). destruct (Hrun ops2 _ H1) as ([Hsz Hkey] & L2 & Hk).
  simpl in L1. fold st1 in L1, Hk, L2, Hsz, Hkey. fold st2 in L2, Hsz, Hkey, Hk.
  split; [lia | done].
Qed.

(** Repeated terminations of one instance keep the earliest reported
    exit time, whatever the order in which the reports arrive. *)
Theorem terminate_earliest st r id i times :
  entity_id r = Some id -> instances_ st !! id = Some i ->
  terminated_at <$> (instances_ (foldl (fun st t => terminate r t st) st times) !! id) =
  Some (foldl (fun o t => Some (match o with None => t | Some u => Z.min t u end))
          (terminated_at i) times).
Proof.
  intros Hid. revert st i. induction times as [|t times IH]; intros st i Hi; simpl.
  { by rewrite Hi. }
  assert (Hstep : exists i', instances_ (terminate r t st) !! id = Some i' /\
    terminated_at i' = Some (match terminated_at i with None => t | Some u => Z.min t u end)).
  { unfold terminate. rewrite Hid, Hi. destruct (terminated_at i) as [u|] eqn:Eu.
    - destruct (Z.ltb_spec t u); simpl.
      + rewrite lookup_insert_eq. eexists. split; [done|]. simpl. f_equal. lia.
      + exists i. split; [done|]. rewrite Eu. f_equal. lia.
    - simpl. rewrite lookup_insert_eq. by eexists. }
  destruct Hstep as (i' & Hi' & E). by rewrite (IH _ _ Hi'), E.
Qed.
End properties.

(** ** Witnesses: a digest function that returns its input bytes *)
Definition echo_digest (s : string) : outcome (list Z) :=
  inr (code <$> String.list_ascii_of_string s).
Definition zero_digest (_ : string) : outcome (list Z) := inr [0].
Definition demo_source : SourceProvenance :=
  {| sp_kind := etw; sp_provider := "Kernel"; sp_channel := None; sp_record_id := None |}.
Definition outcome_text (o : outcome string) : string :=
  match o with inl e => e | inr v => v end.

Lemma process_entity_id_binding_witness :
  derive_process_entity_id echo_digest "h" 7 1999999
    = derive_process_entity_id echo_digest "h" 7 1000000 /\
  (("h" = "h" /\ 7 = 7 /\ Z.quot 1999999 1000000 = Z.quot 1000000 1000000)
   \/ sha256_collision echo_digest).
Proof.
  split; [vm_compute; reflexivity|].
  exact (process_entity_id_binding echo_digest "h" 7 1999999 "h" 7 1000000
    (outcome_text (derive_process_entity_id echo_digest "h" 7 1000000))
    ltac:(vm_compute; reflexivity) ltac:(vm_compute; reflexivity)).
Defined.
Lemma telemetry_event_id_binding_witness :
  ("h" = "h" /\ etw = etw /\ "Kernel" = "Kernel" /\ "" = "" /\ @None Z = None /\
   "network" = "network" /\ "connect" = "connect" /\ 7 = 7 /\ 42 = 42)
  \/ sha256_collision echo_digest.
Proof.
  exact (telemetry_event_id_binding echo_digest "h" demo_source "network" "connect" 7 42
    "h" demo_source "network" "connect" 7 42
    (outcome_text (derive_telemetry_event_id echo_digest "h" demo_source "network" "connect" 7 42))
    ltac:(vm_compute; reflexivity) ltac:(vm_compute; reflexivity)).
Defined.
Lemma identity_domains_disjoint_witness :
  exists id, derive_process_entity_id zero_digest "h" 7 1 = inr id /\
    derive_process_context_entity_id zero_digest "h" 7 "g" = inr id /\
    sha256_collision zero_digest.
Proof.
  exists "proc_00". split; [vm_compute; reflexivity|]. split; [vm_compute; reflexivity|].
  apply (proj1 (identity_domains_disjoint zero_digest "h" 7 1 "h" 7 "g" "proc_00"
    {| pe_source := demo_source; pe_process_start_time := 0; pe_pid := 7; pe_start_time_ticks := None;
       pe_process_guid := None; pe_parent_process_guid := None; pe_parent_pid := None;
       pe_parent_executable := None; pe_executable := None; pe_command_line := None;
       pe_user_sid := None; pe_user_name := None; pe_sha256 := None; pe_terminated := false;
       pe_termination_time := None; pe_termination_time_ticks := None; pe_exit_code := None;
       pe_native_fields := None; pe_sysmon_fields := None |}
    demo_source "c" "t" 0 "evt_00")); vm_compute; reflexivity.
Defined.

Definition demo_store : ProcessInstanceStore :=
  {| host_id_ := "h"; boot_id_ := Some "b"; resident_limit_ := 1; admission_failures_ := 0;
     instances_ := ∅ |}.
Definition demo_reference : ProcessReference :=
  {| observed_pid := 7; entity_id := Some "proc_00"; resolution := "native_exact";
     native_creation_ticks := Some 5; source_guid := None; boot_id := Some "b";
     source_namespace := "ns" |}.
Lemma process_instance_binding_witness :
  ("h" = "h" /\ 7 = 7 /\ "native_exact" = "native_exact" /\
   (("native_exact" = "native_exact" /\ Some "b" = Some "b" /\ Some 5 = Some 5) \/
    ("native_exact" = "source_scoped" /\ "ns" = "ns" /\ @None string = None /\ "b" = "b")))
  \/ sha256_collision zero_digest.
Proof.
  exact (process_instance_binding zero_digest demo_store demo_store 7 7 (Some 5) (Some 5)
    None None "ns" "ns" demo_reference demo_reference "proc_00"
    ltac:(vm_compute; reflexivity) ltac:(vm_compute; reflexivity)
    ltac:(reflexivity) ltac:(reflexivity)).
Defined.
Lemma store_bounded_and_stable_witness :
  (size (instances_ (foldl (store_step zero_digest) demo_store
     [Observe 7 (Some 5%Z) None "ns"; Observe 8 (Some 6%Z) None "ns"])) <= 1)%nat.
Proof.
  exact (proj1 (store_bounded_and_stable zero_digest "h" (Some "b") 1 demo_store
    [Observe 7 (Some 5) None "ns"] [Observe 8 (Some 6) None "ns"] ltac:(reflexivity))).
Defined.
Lemma terminate_earliest_witness :
  terminated_at <$> (instances_ (foldl (fun st t => terminate demo_reference t st)
    (remember_instance demo_reference demo_store) [9; 4; 6]) !! "proc_00") = Some (Some 4).
Proof.
  exact (terminate_earliest (remember_instance demo_reference demo_store) demo_reference "proc_00"
    {| reference := demo_reference; terminated_at := None |} [9; 4; 6]
    ltac:(reflexivity) ltac:(vm_compute; reflexivity)).
Defined.
