(* ===== verification/Crc32.v ===== *)
(** * CRC-32 and little-endian words

    The two checksum routines of the delivery code: the table-driven one of
    the spool ([SegmentSpool::crc32], [delivery/spool.cpp]) that frames records,
    and the bitwise one of the journal ([crc32], [delivery/journal.cpp]) that
    checks the same frames when it imports a legacy spool.  Files are sequences
    of bytes, and [std::string] shares their element type. *)

From S2P Require Import Prelude.

Abbreviation bytes := (list ascii).
Definition of_str (s : string) : bytes := String.list_ascii_of_string s.
Definition to_str (l : bytes) : string := String.string_of_list_ascii l.

(** ** The table-driven checksum *)
Definition poly : Z := 0xEDB88320.
Definition crc_shift (c : Z) : Z :=
  if Z.land c 1 =? 0 then Z.shiftr c 1 else Z.lxor poly (Z.shiftr c 1).
Definition crc_table : list Z :=
  (fun i => Nat.iter 8 crc_shift i) <$> seqZ 0 256.
Definition table_step (crc : Z) (b : ascii) : Z :=
  Z.lxor (nth (Z.to_nat (Z.land (Z.lxor crc (code b)) 0xFF)) crc_table 0) (Z.shiftr crc 8).
Definition spool_crc32 (data : bytes) : Z :=
  Z.lxor (foldl table_step 0xFFFFFFFF data) 0xFFFFFFFF.

(** ** The bitwise checksum *)
Definition crc_bit (crc : Z) : Z :=
  Z.lxor (Z.shiftr crc 1) (if Z.land crc 1 =? 0 then 0 else poly).
Definition bitwise_step (crc : Z) (b : ascii) : Z := Nat.iter 8 crc_bit (Z.lxor crc (code b)).
Definition journal_crc32 (data : bytes) : Z :=
  Z.lxor (foldl bitwise_step 0xFFFFFFFF data) 0xFFFFFFFF.

(** ** Little-endian words, as [memcpy] and [ostream::write] lay them out *)
Fixpoint le_bytes (n : nat) (v : Z) : bytes :=
  match n with
  | O => []
  | S n => ascii_of_N (Z.to_N (v mod 256)) :: le_bytes n (v / 256)
  end.
Fixpoint le_value (l : bytes) : Z :=
  match l with
  | [] => 0
  | b :: l => code b + 256 * le_value l
  end.

Lemma le_bytes_length n v : length (le_bytes n v) = n.
Proof. revert v; induction n as [|n IH]; intros v; [done|]. simpl. by rewrite IH. Qed.
Lemma le_value_bytes n v : 0 <= v < 256 ^ Z.of_nat n -> le_value (le_bytes n v) = v.
Proof.
  revert v; induction n as [|n IH]; intros v Hv.
  - simpl in *. change (256 ^ 0) with 1 in Hv. lia.
  - rewrite Nat2Z.inj_succ, Z.pow_succ_r in Hv by lia. simpl.
    rewrite IH by (split; [apply Z.div_pos; lia | apply Z.div_lt_upper_bound; lia]).
    unfold code. pose proof (Z.mod_pos_bound v 256 ltac:(lia)).
    rewrite N_ascii_embedding by lia. pose proof (Z.div_mod v 256 ltac:(lia)). lia.
Qed.
Lemma of_str_length s : length (of_str s) = String.length s.
Proof. unfold of_str. by induction s as [|c s IH]; simpl; [|rewrite IH]. Qed.
Lemma to_str_of_str s : to_str (of_str s) = s.
Proof. apply String.string_of_list_ascii_of_string. Qed.

(** ** The two routines agree *)
Lemma crc_shift_bit c : crc_shift c = crc_bit c.
Proof.
  unfold crc_shift, crc_bit. destruct (Z.land c 1 =? 0).
  - by rewrite Z.lxor_0_r.
  - apply Z.lxor_comm.
Qed.
Lemma land_1_odd c : (Z.land c 1 =? 0) = negb (Z.odd c).
Proof.
  change 1 with (Z.ones 1). rewrite Z.land_ones by lia. change (2 ^ 1) with 2.
  rewrite Zmod_odd. by destruct (Z.odd c).
Qed.
Lemma crc_bit_lxor a b : crc_bit (Z.lxor a b) = Z.lxor (crc_bit a) (crc_bit b).
Proof.
  unfold crc_bit. rewrite !land_1_odd, Z.shiftr_lxor.
  rewrite <- !Z.bit0_odd, Z.lxor_spec.
  apply Z.bits_inj'. intros k Hk.
  destruct (Z.testbit a 0), (Z.testbit b 0); simpl; rewrite !Z.lxor_spec, ?Z.bits_0;
    by destruct (Z.testbit (Z.shiftr a 1) k), (Z.testbit (Z.shiftr b 1) k), (Z.testbit poly k).
Qed.
Lemma iter_crc_bit_lxor n a b :
  Nat.iter n crc_bit (Z.lxor a b) = Z.lxor (Nat.iter n crc_bit a) (Nat.iter n crc_bit b).
Proof. induction n as [|n IH]; [done|]. simpl. by rewrite IH, crc_bit_lxor. Qed.
Lemma iter_crc_bit_shiftl n y :
  0 <= y -> Nat.iter n crc_bit (Z.shiftl y (Z.of_nat n)) = y.
Proof.
  revert y; induction n as [|n IH]; intros y Hy; [apply Z.shiftl_0_r|].
  rewrite Nat.iter_succ_r.
  assert (crc_bit (Z.shiftl y (Z.of_nat (S n))) = Z.shiftl y (Z.of_nat n)) as ->; [|by apply IH].
  rewrite Nat2Z.inj_succ. unfold crc_bit.
  assert (Z.odd (Z.shiftl y (Z.succ (Z.of_nat n))) = false) as Ho.
  { rewrite <- Z.bit0_odd. apply Z.shiftl_spec_low. lia. }
  rewrite land_1_odd, Ho. simpl. rewrite Z.lxor_0_r, Z.shiftr_shiftl_l by lia. f_equal. lia.
Qed.
Lemma crc_table_nth i :
  0 <= i < 256 -> nth (Z.to_nat i) crc_table 0 = Nat.iter 8 crc_bit i.
Proof.
  intros Hi. unfold crc_table.
  assert (forall n, seqZ 0 256 !! Z.to_nat i = Some n -> n = i) as Hn.
  { intros n [-> _]%lookup_seqZ. lia. }
  assert (Hs : seqZ 0 256 !! Z.to_nat i = Some i).
  { apply lookup_seqZ. lia. }
  assert (Hl : ((fun i => Nat.iter 8 crc_shift i) <$> seqZ 0 256) !! Z.to_nat i
    = Some (Nat.iter 8 crc_bit i)).
  { rewrite list_lookup_fmap, Hs. simpl. by rewrite !crc_shift_bit. }
  rewrite nth_lookup, Hl. done.
Qed.
Lemma table_step_bitwise crc b : 0 <= crc -> table_step crc b = bitwise_step crc b.
Proof.
  intros Hc. unfold table_step, bitwise_step. pose proof (code_range b).
  set (x := Z.lxor crc (code b)).
  assert (Hx : 0 <= x) by (apply Z.lxor_nonneg; lia).
  change 0xFF with (Z.ones 8). rewrite Z.land_ones by lia.
  pose proof (Z.mod_pos_bound x (2 ^ 8) ltac:(lia)). change (2 ^ 8) with 256 in *.
  rewrite crc_table_nth by lia.
  assert (Hhi : Z.shiftr crc 8 = Z.shiftr x 8).
  { unfold x. rewrite Z.shiftr_lxor.
    assert (Z.shiftr (code b) 8 = 0) as ->; [|by rewrite Z.lxor_0_r].
    rewrite Z.shiftr_div_pow2 by lia. change (2 ^ 8) with 256. apply Z.div_small. lia. }
  assert (Hsplit : x = Z.lxor (x mod 256) (Z.shiftl (Z.shiftr x 8) 8)).
  { change 256 with (2 ^ 8). rewrite <- Z.land_ones by lia.
    apply Z.bits_inj'. intros k Hk. rewrite Z.lxor_spec, Z.land_spec, Z.shiftl_spec by lia.
    rewrite Z.testbit_ones_nonneg by lia. destruct (Z.ltb_spec k 8).
    - rewrite (Z.testbit_neg_r _ (k - 8)) by lia. by rewrite andb_true_r, xorb_false_r.
    - rewrite Z.shiftr_spec, andb_false_r by lia. simpl. f_equal. lia. }
  rewrite Hhi. rewrite Hsplit at 3. rewrite iter_crc_bit_lxor. f_equal.
  change 8 with (Z.of_nat 8) at 2. symmetry. apply (iter_crc_bit_shiftl 8).
  by apply Z.shiftr_nonneg.
Qed.
Lemma bitwise_step_nonneg crc b : 0 <= crc -> 0 <= bitwise_step crc b.
Proof.
  intros Hc. pose proof (code_range b). unfold bitwise_step.
  assert (Hb : forall c, 0 <= c -> 0 <= crc_bit c).
  { intros c H0. unfold crc_bit. apply Z.lxor_nonneg.
    assert (0 <= Z.shiftr c 1) by by apply Z.shiftr_nonneg.
    destruct (Z.land c 1 =? 0); unfold poly; lia. }
  assert (Hx : 0 <= Z.lxor crc (code b)) by (apply Z.lxor_nonneg; lia).
  revert Hx. generalize (Z.lxor crc (code b)). generalize 8%nat. intros n.
  induction n as [|n IH]; intros z Hz; simpl; auto.
Qed.

Lemma foldl_crc_agree data crc :
  0 <= crc -> foldl table_step crc data = foldl bitwise_step crc data.
Proof.
  revert crc; induction data as [|b data IH]; intros crc Hcrc; simpl; [done|].
  rewrite table_step_bitwise by done. apply IH. by apply bitwise_step_nonneg.
Qed.

Lemma lxor_bound n a b :
  0 <= n -> 0 <= a < 2 ^ n -> 0 <= b < 2 ^ n -> 0 <= Z.lxor a b < 2 ^ n.
Proof.
  intros Hn Ha Hb. split; [apply Z.lxor_nonneg; lia|].
  assert (H : Z.shiftr (Z.lxor a b) n = 0).
  { rewrite Z.shiftr_lxor, !Z.shiftr_div_pow2, !Z.div_small by lia. done. }
  rewrite Z.shiftr_div_pow2 in H by lia.
  apply Z.div_small_iff in H; [|pose proof (Z.pow_pos_nonneg 2 n); lia].
  destruct H as [H|H]; [lia|]. assert (0 <= Z.lxor a b) by (apply Z.lxor_nonneg; lia). lia.
Qed.
Lemma bitwise_step_range crc b : 0 <= crc < 2 ^ 32 -> 0 <= bitwise_step crc b < 2 ^ 32.
Proof.
  intros Hc. pose proof (code_range b). unfold bitwise_step.
  assert (Hb : forall c, 0 <= c < 2 ^ 32 -> 0 <= crc_bit c < 2 ^ 32).
  { intros c H0. unfold crc_bit. apply lxor_bound; [lia| |].
    - rewrite Z.shiftr_div_pow2 by lia. change (2 ^ 1) with 2.
      split; [apply Z.div_pos; lia | apply Z.div_lt_upper_bound; lia].
    - destruct (Z.land c 1 =? 0); unfold poly; lia. }
  assert (Hx : 0 <= Z.lxor crc (code b) < 2 ^ 32) by (apply lxor_bound; lia).
  revert Hx. generalize (Z.lxor crc (code b)). generalize 8%nat. intros n.
  induction n as [|n IH]; intros z Hz; [done|]. simpl. by apply Hb, IH.
Qed.
Lemma spool_crc32_range data : 0 <= spool_crc32 data < 2 ^ 32.
Proof.
  unfold spool_crc32. rewrite foldl_crc_agree by lia. apply lxor_bound; [lia| |lia].
  assert (H : 0 <= 0xFFFFFFFF < 2 ^ 32) by lia. revert H. generalize 0xFFFFFFFF.
  induction data as [|b data IH]; intros crc Hcrc; simpl; [done|].
  by apply IH, bitwise_step_range.
Qed.

(** The table-driven CRC-32 of the spool and the bitwise CRC-32 of the
    journal are the same function, so the journal's legacy import accepts
    exactly the frames whose checksum the spool computed. *)
Theorem crc32_table_bitwise (data : bytes) : spool_crc32 data = journal_crc32 data.
Proof. unfold spool_crc32, journal_crc32. by rewrite foldl_crc_agree by lia. Qed.

(** The standard check value of CRC-32 (IEEE 802.3). *)
Example crc32_check_value : spool_crc32 (of_str "123456789") = 0xCBF43926.
Proof. vm_compute. reflexivity. Qed.
