(* ===== verification/Spool.v ===== *)
(** * The segment spool

    [delivery/spool.cpp]: append-only segment files with checksummed frames,
    a read cursor persisted in a sidecar file, bounded retries with exponential
    backoff and a drop-oldest-segment quota.

    The spool directory is a map from file names to contents ([dir]); the
    object's fields are the record [SegmentSpool].  File-system calls succeed
    (the code ignores their error codes); a crash keeps the directory and loses
    the object.  Directory iteration order is irrelevant to the code, which only
    takes minima, maxima, sums and removals.  Sums of file sizes and read
    offsets are bounded by the files on disk and are not wrapped. *)

From S2P Require Import Prelude Crc32.

Abbreviation dir := (gmap string (list ascii)).

(** ** File names *)
(** [snprintf(buf, 32, "segment-%06llu.dat", index)]: at most 31 characters *)
Definition segment_filename (index : Z) : string :=
  let digits := to_string index in
  str_take 31 ("segment-" +:+ zeros (6 - String.length digits) +:+ digits +:+ ".dat").

Definition parse_segment_index (filename : string) : option Z :=
  let prefix := "segment-" in
  let suffix := ".dat" in
  let n := String.length filename in
  if (n <=? String.length prefix + String.length suffix)%nat then None
  else if negb (bool_decide (str_take (String.length prefix) filename = prefix)) then None
  else if negb (bool_decide (str_drop (n - String.length suffix) filename = suffix)) then None
  else
    let digits := str_take (n - String.length prefix - String.length suffix)
                    (str_drop (String.length prefix) filename) in
    if str_empty digits then None
    else if negb (str_forallb is_digit digits) then None
    else from_chars_all u64_max digits.

Definition cursor_name : string := "spool.cursor".
Definition cursor_tmp_name : string := "spool.cursor.tmp".

(** ** Data *)
Record SpoolConfig := {
  max_segment_bytes : Z;
  max_total_bytes : Z;
  max_delivery_attempts : Z;
  base_backoff_ms : Z;
  max_backoff_ms : Z
}.
Record SpoolRecord := { batch_id : string; body : string }.
#[global] Instance SpoolRecord_eq_dec : EqDecision SpoolRecord.
Proof. solve_decision. Defined.
Record SpoolStats := {
  total_bytes : Z; segment_count : Z; dropped_for_quota : Z; dead_records : Z;
  corrupt_records_skipped : Z
}.
Record HeadState := {
  read_segment_index : Z;
  read_offset : Z;
  attempts : Z;
  next_attempt_at_ms : Z;
  have_pending_read : bool;
  pending : SpoolRecord;
  pre_peek_segment_index : Z;
  pre_peek_offset : Z
}.
Record SegmentSpool := {
  config : SpoolConfig;
  write_segment_index : Z;
  write_segment_bytes : Z;
  head : HeadState;
  stats : SpoolStats
}.

Definition no_record : SpoolRecord := {| batch_id := ""; body := "" |}.
Definition fresh_head : HeadState := {|
  read_segment_index := 0; read_offset := 0; attempts := 0; next_attempt_at_ms := 0;
  have_pending_read := false; pending := no_record;
  pre_peek_segment_index := 0; pre_peek_offset := 0 |}.
Definition fresh_stats : SpoolStats := {|
  total_bytes := 0; segment_count := 0; dropped_for_quota := 0; dead_records := 0;
  corrupt_records_skipped := 0 |}.

Definition make_spool (c : SpoolConfig) : result SegmentSpool :=
  _ ← throw_if ((max_segment_bytes c =? 0) || (max_total_bytes c =? 0))
        (invalid_argument "spool byte limits must be non-zero");
  _ ← throw_if (max_total_bytes c <? max_segment_bytes c)
        (invalid_argument "max_total_bytes must be >= max_segment_bytes");
  _ ← throw_if (max_delivery_attempts c =? 0)
        (invalid_argument "max_delivery_attempts must be >= 1");
  _ ← throw_if ((base_backoff_ms c =? 0) || (max_backoff_ms c <? base_backoff_ms c))
        (invalid_argument "invalid backoff configuration");
  Ok {| config := c; write_segment_index := 0; write_segment_bytes := 0;
        head := fresh_head; stats := fresh_stats |}.

(** ** The directory *)
Definition segment_entries (d : dir) : list (Z * bytes) :=
  omap (fun e => (fun i => (i, e.2)) <$> parse_segment_index e.1) (map_to_list d).
Definition recompute_total_bytes (d : dir) : Z := zsum (fun e => zlen e.2) (segment_entries d).

Definition keep_min (m : option Z) (i : Z) : option Z :=
  match m with Some x => if i <? x then Some i else m | None => Some i end.
Definition keep_max (m : option Z) (i : Z) : option Z :=
  match m with Some x => if x <? i then Some i else m | None => Some i end.
Definition min_index (d : dir) : option Z := foldl keep_min None (fst <$> segment_entries d).
Definition max_index (d : dir) : option Z := foldl keep_max None (fst <$> segment_entries d).

(** ** The cursor file *)
Definition cursor_text (h : HeadState) : string :=
  to_string (read_segment_index h) +:+ " " +:+ to_string (read_offset h).
(** write the temporary, then rename it over the cursor *)
Definition write_tmp (h : HeadState) (d : dir) : dir :=
  <[cursor_tmp_name := of_str (cursor_text h)]> d.
Definition rename_cursor (d : dir) : dir :=
  match d !! cursor_tmp_name with
  | Some t => <[cursor_name := t]> (delete cursor_tmp_name d)
  | None => d
  end.
Definition write_cursor (h : HeadState) (d : dir) : dir := rename_cursor (write_tmp h d).

Definition is_space (c : ascii) : bool :=
  (code c =? 32) || ((9 <=? code c) && (code c <=? 13)).
Fixpoint skip_spaces (s : string) : string :=
  match s with
  | String c r => if is_space c then skip_spaces r else s
  | "" => ""
  end.
Fixpoint span_digits (s : string) : string * string :=
  match s with
  | String c r => if is_digit c then let '(d, rest) := span_digits r in (String c d, rest)
                  else ("", s)
  | "" => ("", "")
  end.
Definition take_sign (s : string) : bool * string :=
  match s with
  | String c r => if Ascii.eqb c "-" then (true, r)
                  else if Ascii.eqb c "+" then (false, r) else (false, s)
  | "" => (false, "")
  end.
(** [stream >> std::uint64_t]: an optional sign and decimal digits *)
Definition extract_u64 (s : string) : option (Z * string) :=
  let s := skip_spaces s in
  let '(neg, s) := take_sign s in
  let '(digits, rest) := span_digits s in
  v ← from_chars_all u64_max digits;
  Some (if neg : bool then u64 (- v) else v, rest).

Definition set_position (seg off : Z) (h : HeadState) : HeadState :=
  {| read_segment_index := seg; read_offset := off; attempts := attempts h;
     next_attempt_at_ms := next_attempt_at_ms h; have_pending_read := have_pending_read h;
     pending := pending h; pre_peek_segment_index := pre_peek_segment_index h;
     pre_peek_offset := pre_peek_offset h |}.
Definition load_cursor (d : dir) (h : HeadState) : HeadState :=
  match d !! cursor_name with
  | None => h
  | Some text =>
      match extract_u64 (to_str text) with
      | None => h
      | Some (seg, rest) =>
          match extract_u64 rest with
          | None => h
          | Some (off, _) => set_position seg off h
          end
      end
  end.

(** ** Recovery *)
Definition reset_retry (h : HeadState) : HeadState :=
  {| read_segment_index := read_segment_index h; read_offset := read_offset h;
     attempts := 0; next_attempt_at_ms := 0; have_pending_read := false;
     pending := pending h; pre_peek_segment_index := pre_peek_segment_index h;
     pre_peek_offset := pre_peek_offset h |}.

Definition count_segments (d : dir) (lo hi : Z) : Z :=
  zlen (filter (fun i => is_Some (d !! segment_filename i)) (seqZ lo (hi - lo + 1))).

Definition recover (d : dir) (s : SegmentSpool) : SegmentSpool :=
  let '(windex, wbytes, h, count) :=
    match min_index d, max_index d with
    | Some lo, Some hi =>
        let wbytes := match d !! segment_filename hi with Some f => zlen f | None => 0 end in
        let h := load_cursor d (set_position lo 0 (head s)) in
        let h := if (read_segment_index h <? lo) || (hi <? read_segment_index h)
                 then set_position lo 0 h else h in
        (hi, wbytes, h, count_segments d lo hi)
    | _, _ => (1, 0, set_position 1 0 (head s), 0)
    end in
  {| config := config s; write_segment_index := windex; write_segment_bytes := wbytes;
     head := reset_retry h;
     stats := {| total_bytes := recompute_total_bytes d; segment_count := count;
                 dropped_for_quota := dropped_for_quota (stats s);
                 dead_records := dead_records (stats s);
                 corrupt_records_skipped := corrupt_records_skipped (stats s) |} |}.

(** ** Reading *)
(** the payload at an offset: [None] when the header or the payload is short or
    the length is implausible; otherwise the stored checksum and the payload *)
Definition frame_at (max_segment : Z) (data : bytes) (off : Z) : option (Z * bytes) :=
  let rest := drop (Z.to_nat off) data in
  let len_field := take 4 rest in
  let total_len := le_value len_field in
  if negb (length len_field =? 4)%nat then None
  else if negb ((2 <=? total_len) && (total_len <=? max_segment)) then None
  else
    let crc_field := take 4 (drop 4 rest) in
    if negb (length crc_field =? 4)%nat then None
    else
      let payload := take (Z.to_nat total_len) (drop 8 rest) in
      if negb (zlen payload =? total_len) then None
      else Some (le_value crc_field, payload).

(** the record of a payload whose checksum is [crc_value] *)
Definition decode_payload (crc_value : Z) (payload : bytes) : option SpoolRecord :=
  if negb (spool_crc32 payload =? crc_value) then None
  else if zlen payload <? 2 then None
  else
    let id_len := le_value (take 2 payload) in
    if zlen payload <? id_len + 2 then None
    else Some {| batch_id := to_str (take (Z.to_nat id_len) (drop 2 payload));
                 body := to_str (drop (2 + Z.to_nat id_len) payload) |}.

Inductive read_result :=
| ReadRecord (r : SpoolRecord) (seg off corrupt : Z)
| ReadNothing (seg off corrupt : Z)
| ReadOutOfFuel.

(** [corrupt] is the running [corrupt_records_skipped]. *)
Fixpoint read_next_record (fuel : nat) (max_segment : Z) (d : dir) (windex seg off corrupt : Z)
  : read_result :=
  match fuel with
  | O => ReadOutOfFuel
  | S fuel =>
      let next_segment :=
        if seg <? windex
        then read_next_record fuel max_segment d windex (seg + 1) 0 corrupt
        else ReadNothing seg off corrupt in
      match d !! segment_filename seg with
      | None => next_segment
      | Some data =>
          match frame_at max_segment data off with
          | None => next_segment
          | Some (crc_value, payload) =>
              let after := off + (4 + 4 + zlen payload) in
              match decode_payload crc_value payload with
              | None => read_next_record fuel max_segment d windex seg after (u64 (corrupt + 1))
              | Some r => ReadRecord r seg after corrupt
              end
          end
      end
  end.

(** Every round moves to the next segment or past at least ten bytes of one. *)
Definition file_data (d : dir) (seg : Z) : bytes := default [] (d !! segment_filename seg).
Definition read_fuel (d : dir) (windex seg : Z) : nat :=
  S (Z.to_nat (windex - seg) +
     sum_list_with (fun i => length (file_data d i)) (seg :: seqZ (seg + 1) (windex - seg)))%nat.

Definition read_next_record_locked (d : dir) (s : SegmentSpool) : read_result :=
  let h := head s in
  read_next_record (read_fuel d (write_segment_index s) (read_segment_index h))
    (max_segment_bytes (config s)) d (write_segment_index s)
    (read_segment_index h) (read_offset h) (corrupt_records_skipped (stats s)).

Definition set_head (h : HeadState) (s : SegmentSpool) : SegmentSpool :=
  {| config := config s; write_segment_index := write_segment_index s;
     write_segment_bytes := write_segment_bytes s; head := h; stats := stats s |}.
Definition set_stats (t : SpoolStats) (s : SegmentSpool) : SegmentSpool :=
  {| config := config s; write_segment_index := write_segment_index s;
     write_segment_bytes := write_segment_bytes s; head := head s; stats := t |}.
Definition set_corrupt (n : Z) (t : SpoolStats) : SpoolStats :=
  {| total_bytes := total_bytes t; segment_count := segment_count t;
     dropped_for_quota := dropped_for_quota t; dead_records := dead_records t;
     corrupt_records_skipped := n |}.
Definition set_total (n : Z) (t : SpoolStats) : SpoolStats :=
  {| total_bytes := n; segment_count := segment_count t;
     dropped_for_quota := dropped_for_quota t; dead_records := dead_records t;
     corrupt_records_skipped := corrupt_records_skipped t |}.
Definition set_count (n : Z) (t : SpoolStats) : SpoolStats :=
  {| total_bytes := total_bytes t; segment_count := n;
     dropped_for_quota := dropped_for_quota t; dead_records := dead_records t;
     corrupt_records_skipped := corrupt_records_skipped t |}.
Definition count_dead (t : SpoolStats) : SpoolStats :=
  {| total_bytes := total_bytes t; segment_count := segment_count t;
     dropped_for_quota := dropped_for_quota t; dead_records := u64 (dead_records t + 1);
     corrupt_records_skipped := corrupt_records_skipped t |}.
Definition count_dropped (t : SpoolStats) : SpoolStats :=
  {| total_bytes := total_bytes t; segment_count := segment_count t;
     dropped_for_quota := u64 (dropped_for_quota t + 1); dead_records := dead_records t;
     corrupt_records_skipped := corrupt_records_skipped t |}.

(** ** Delivery *)
Definition has_ready (now : Z) (s : SegmentSpool) : bool :=
  if have_pending_read (head s) then true else next_attempt_at_ms (head s) <=? now.

(** [None]: the read loop did not finish within its fuel (never, see below). *)
Definition peek_ready (now : Z) (d : dir) (s : SegmentSpool)
  : option (option SpoolRecord * SegmentSpool) :=
  let h := head s in
  if have_pending_read h then Some (Some (pending h), s)
  else if now <? next_attempt_at_ms h then Some (None, s)
  else
    let mark seg off have rec :=
      {| read_segment_index := seg; read_offset := off; attempts := attempts h;
         next_attempt_at_ms := next_attempt_at_ms h; have_pending_read := have;
         pending := rec; pre_peek_segment_index := read_segment_index h;
         pre_peek_offset := read_offset h |} in
    match read_next_record_locked d s with
    | ReadOutOfFuel => None
    | ReadNothing seg off corrupt =>
        Some (None, set_stats (set_corrupt corrupt (stats s))
                      (set_head (mark seg off false (pending h)) s))
    | ReadRecord r seg off corrupt =>
        Some (Some r, set_stats (set_corrupt corrupt (stats s))
                        (set_head (mark seg off true r) s))
    end.

(** [for (i = 0; i < exponent && delay < max; ++i) delay *= 2] *)
Fixpoint double_delay (exponent : nat) (max delay : Z) : Z :=
  match exponent with
  | O => delay
  | S e => if delay <? max then double_delay e max (u64 (delay * 2)) else delay
  end.
Definition backoff_delay (c : SpoolConfig) (attempts : Z) : Z :=
  let exponent := if 0 <? attempts then attempts - 1 else 0 in
  let delay := double_delay (Z.to_nat exponent) (max_backoff_ms c) (base_backoff_ms c) in
  if max_backoff_ms c <? delay then max_backoff_ms c else delay.

(** remove the segment files behind the cursor *)
Definition behind (seg : Z) (name : string) : bool :=
  match parse_segment_index name with Some i => i <? seg | None => false end.
Definition reclaim (seg : Z) (d : dir) : dir := filter (fun e => behind seg e.1 = false) d.

Definition report_outcome (now : Z) (delivered : bool) (d : dir) (s : SegmentSpool)
  : dir * SegmentSpool :=
  let h := head s in
  if negb (have_pending_read h) then (d, s)
  else
    let att := if delivered then attempts h else u32 (attempts h + 1) in
    let dead := negb delivered && (max_delivery_attempts (config s) <=? att) in
    let st := if dead then count_dead (stats s) else stats s in
    if delivered || dead then
      let h' := reset_retry h in
      let d := reclaim (read_segment_index h') (write_cursor h' d) in
      (d, set_stats (set_total (recompute_total_bytes d) st) (set_head h' s))
    else
      (d, set_stats st (set_head
        {| read_segment_index := pre_peek_segment_index h;
           read_offset := pre_peek_offset h; attempts := att;
           next_attempt_at_ms := u64 (now + backoff_delay (config s) att);
           have_pending_read := false; pending := pending h;
           pre_peek_segment_index := pre_peek_segment_index h;
           pre_peek_offset := pre_peek_offset h |} s)).

(** ** Appending *)
Definition oldest_evictable (windex : Z) (d : dir) : option Z :=
  foldl keep_min None (filter (fun i => i <> windex) (fst <$> segment_entries d)).

(** [None]: the loop did not finish within its fuel. *)
Fixpoint evict_for_quota (fuel : nat) (incoming : Z) (d : dir) (s : SegmentSpool)
  : option (dir * SegmentSpool) :=
  if recompute_total_bytes d + incoming <=? max_total_bytes (config s) then Some (d, s)
  else match oldest_evictable (write_segment_index s) d with
  | None => Some (d, s)
  | Some oldest =>
      match fuel with
      | O => None
      | S fuel =>
          let d := delete (segment_filename oldest) d in
          let s := set_stats (count_dropped (stats s)) s in
          if oldest =? read_segment_index (head s) then
            let h := reset_retry (set_position (oldest + 1) 0 (head s)) in
            evict_for_quota fuel incoming (write_cursor h d) (set_head h s)
          else evict_for_quota fuel incoming d s
      end
  end.
(** every round removes one segment file *)
Definition evict_fuel (d : dir) : nat := S (length (segment_entries d)).

(** the bytes of one frame *)
Definition encode_payload (r : SpoolRecord) : bytes :=
  le_bytes 2 (slen (batch_id r)) ++ of_str (batch_id r) ++ of_str (body r).
Definition encode_frame (r : SpoolRecord) : bytes :=
  let payload := encode_payload r in
  le_bytes 4 (zlen payload) ++ le_bytes 4 (spool_crc32 payload) ++ payload.

Inductive append_result :=
| Appended (d : dir) (s : SegmentSpool)
| Rejected (e : exn)
| HeapOverrun       (* memcpy past the truncated payload buffer: undefined behaviour *)
| EvictionDiverges.

Definition append (r : SpoolRecord) (d : dir) (s : SegmentSpool) : append_result :=
  if 65535 <? slen (batch_id r)
  then Rejected (invalid_argument "batch_id too long to frame")
  else
    let exact_len := 2 + slen (batch_id r) + slen (body r) in
    let total_len := u32 exact_len in
    let record_bytes := 4 + 4 + total_len in
    if max_segment_bytes (config s) <? record_bytes
    then Rejected (invalid_argument "record larger than max_segment_bytes")
    else match evict_for_quota (evict_fuel d) record_bytes d s with
    | None => EvictionDiverges
    | Some (d, s) =>
        let rotate := (0 <? write_segment_bytes s)
                      && (max_segment_bytes (config s) <? write_segment_bytes s + record_bytes) in
        let windex := if rotate then u64 (write_segment_index s + 1) else write_segment_index s in
        let wbytes := if rotate then 0 else write_segment_bytes s in
        if negb (exact_len =? total_len) then HeapOverrun
        else
          let d := <[segment_filename windex := file_data d windex ++ encode_frame r]> d in
          let span := windex - read_segment_index (head s) + 1 in
          Appended d {| config := config s; write_segment_index := windex;
            write_segment_bytes := wbytes + record_bytes; head := head s;
            stats := set_count (Z.max 1 span) (set_total (recompute_total_bytes d) (stats s)) |}
    end.
