(* ===== verification/SpoolFrames.v ===== *)
(** * Spool file names, frames and the read loop

    Round trips of the spool's file names and record frames, and the meaning of
    the read loop: it returns the first record of the sequence [unread]. *)

From S2P Require Import Prelude Crc32 Spool.

(** ** Substrings *)
Lemma str_take_ge n s : (String.length s <= n)%nat -> str_take n s = s.
Proof.
  revert n; induction s as [|c s IH]; intros [|n] H; simpl in *; try done; try lia.
  rewrite IH by lia. done.
Qed.
Lemma forallb_app p a b : str_forallb p (a +:+ b) = str_forallb p a && str_forallb p b.
Proof. induction a as [|c a IH]; simpl; [done|]. by rewrite IH, andb_assoc. Qed.
Lemma zeros_digits n : str_forallb is_digit (zeros n) = true.
Proof. induction n as [|n IH]; [done|exact IH]. Qed.

Lemma udec_aux_length f z acc n :
  0 <= z < 10 ^ Z.of_nat (S n) ->
  (String.length (udec_aux f z acc) <= S n + String.length acc)%nat.
Proof.
  revert z acc n; induction f as [|f IH]; intros z acc n Hz; simpl; [lia|].
  destruct (Z.ltb_spec z 10) as [|Hge]; [simpl; lia|].
  destruct n as [|n]; [change (10 ^ Z.of_nat 1) with 10 in Hz; lia|].
  rewrite Nat2Z.inj_succ, Z.pow_succ_r in Hz by lia.
  specialize (IH (z / 10) (String (digit_char (z mod 10)) acc) n). cbn [String.length] in IH.
  assert (Hd : 0 <= z / 10 < 10 ^ Z.of_nat (S n)).
  { split; [apply Z.div_pos; lia | apply Z.div_lt_upper_bound; lia]. }
  specialize (IH Hd). lia.
Qed.
Lemma udec_length z n :
  0 <= z < 10 ^ Z.of_nat (S n) -> (String.length (udec z) <= S n)%nat.
Proof.
  intros H. pose proof (udec_aux_length (S (Z.to_nat (Z.log2 z))) z "" n H) as Hl.
  cbn [String.length] in Hl. unfold udec. lia.
Qed.

(** ** File names *)
Definition index_ok (i : Z) : Prop := 0 <= i < 10 ^ 19.

Lemma segment_filename_full i :
  index_ok i ->
  segment_filename i =
    "segment-" +:+ (zeros (6 - String.length (udec i)) +:+ udec i) +:+ ".dat".
Proof.
  intros Hi. unfold segment_filename. rewrite to_string_nonneg by (unfold index_ok in Hi; lia).
  rewrite string_app_assoc. apply str_take_ge.
  pose proof (udec_length i 18 ltac:(unfold index_ok in Hi; done)).
  rewrite !str_length_app, zeros_length. simpl. lia.
Qed.

Lemma parse_segment_name p :
  p <> "" -> str_forallb is_digit p = true ->
  parse_segment_index ("segment-" +:+ p +:+ ".dat") = from_chars_all u64_max p.
Proof.
  intros Hne Hd. unfold parse_segment_index.
  rewrite !str_length_app. change (String.length "segment-") with 8%nat.
  change (String.length ".dat") with 4%nat.
  assert (Hlen : (0 < String.length p)%nat) by (destruct p; [done|simpl; lia]).
  destruct (Nat.leb_spec (8 + (String.length p + 4)) (8 + 4)); [lia|].
  change (str_take 8 ("segment-" +:+ p +:+ ".dat")) with
    (str_take (String.length "segment-") ("segment-" +:+ p +:+ ".dat")).
  rewrite str_take_app. rewrite bool_decide_true by done. cbn [negb].
  replace (8 + (String.length p + 4) - 4)%nat with (String.length ("segment-" +:+ p))
    by (rewrite str_length_app; simpl; lia).
  rewrite <- string_app_assoc, str_drop_app, bool_decide_true by done. cbn [negb].
  replace (8 + (String.length p + 4) - 8 - 4)%nat with (String.length p) by lia.
  rewrite string_app_assoc.
  change (str_drop 8 ("segment-" +:+ p +:+ ".dat")) with
    (str_drop (String.length "segment-") ("segment-" +:+ p +:+ ".dat")).
  rewrite str_drop_app, str_take_app, Hd. by destruct p.
Qed.

Lemma parse_segment_filename i :
  index_ok i -> parse_segment_index (segment_filename i) = Some i.
Proof.
  intros Hi. rewrite segment_filename_full by done. unfold index_ok in Hi.
  rewrite parse_segment_name.
  - unfold from_chars_all. destruct (zeros _ +:+ udec i) as [|c p] eqn:E.
    { exfalso. apply (f_equal String.length) in E. rewrite str_length_app in E.
      pose proof (udec_nonempty i). destruct (udec i); [done|simpl in E; lia]. }
    rewrite <- E, dec_value_zeros, dec_value_udec by lia.
    destruct (Z.leb_spec i u64_max); [done|]. unfold u64_max in *. lia.
  - intros E. apply (f_equal String.length) in E. rewrite str_length_app in E.
    pose proof (udec_nonempty i). destruct (udec i); [done|simpl in E; lia].
  - rewrite forallb_app, zeros_digits, udec_digits by lia. done.
Qed.
Lemma segment_filename_inj i j :
  index_ok i -> index_ok j -> segment_filename i = segment_filename j -> i = j.
Proof.
  intros Hi Hj E. pose proof (parse_segment_filename i Hi) as H.
  rewrite E, parse_segment_filename in H by done. congruence.
Qed.

(** A segment file name parses back to its index, for every index below
    10^19; from 10^19 on the 32-byte buffer of the code truncates the name and
    it no longer parses, so the segment would be invisible to recovery. *)
Theorem segment_name_roundtrip :
  (forall i, 0 <= i < 10 ^ 19 -> parse_segment_index (segment_filename i) = Some i) /\
  parse_segment_index (segment_filename (10 ^ 19)) = None.
Proof. split; [exact parse_segment_filename | vm_compute; reflexivity]. Qed.

(** ** Frames *)
(** what [append] accepts: the record fits a segment and its length its field *)
Definition record_ok (max_segment : Z) (r : SpoolRecord) : Prop :=
  slen (batch_id r) <= 65535 /\ 8 + (2 + slen (batch_id r) + slen (body r)) <= max_segment /\
  2 + slen (batch_id r) + slen (body r) <= u32_max.

Lemma of_str_zlen s : zlen (of_str s) = slen s.
Proof. unfold zlen, slen. by rewrite of_str_length. Qed.
Lemma encode_payload_zlen r :
  zlen (encode_payload r) = 2 + slen (batch_id r) + slen (body r).
Proof.
  unfold encode_payload. rewrite !zlen_app, !of_str_zlen. unfold zlen at 1.
  rewrite le_bytes_length. lia.
Qed.
Lemma encode_frame_zlen r :
  zlen (encode_frame r) = 8 + (2 + slen (batch_id r) + slen (body r)).
Proof.
  unfold encode_frame. rewrite !zlen_app, encode_payload_zlen. unfold zlen.
  rewrite !le_bytes_length. lia.
Qed.

Lemma frame_at_offset max data off :
  0 <= off -> frame_at max data off = frame_at max (drop (Z.to_nat off) data) 0.
Proof. intros. unfold frame_at. simpl. by rewrite drop_0. Qed.

Lemma take_app_exact {A} n (l k : list A) : n = length l -> take n (l ++ k) = l.
Proof. intros ->. by rewrite take_app_length. Qed.
Lemma drop_app_exact {A} n (l k : list A) : n = length l -> drop n (l ++ k) = k.
Proof. intros ->. by rewrite drop_app_length. Qed.

Lemma frame_at_encode max r post :
  record_ok max r ->
  frame_at max (encode_frame r ++ post) 0 =
    Some (spool_crc32 (encode_payload r), encode_payload r).
Proof.
  intros (Hb & Hm & Hu). pose proof (encode_payload_zlen r) as Hlen.
  pose proof (slen_nonneg (batch_id r)). pose proof (slen_nonneg (body r)).
  pose proof (spool_crc32_range (encode_payload r)) as Hcrc.
  unfold frame_at, encode_frame. change (Z.to_nat 0) with 0%nat. rewrite drop_0.
  set (p := encode_payload r) in *. rewrite <- !app_assoc.
  rewrite (take_app_exact 4) by by rewrite le_bytes_length.
  rewrite le_bytes_length, le_value_bytes
    by (unfold u32_max in Hu; change (256 ^ Z.of_nat 4) with 4294967296; lia).
  cbn [Nat.eqb negb].
  destruct (Z.leb_spec 2 (zlen p)); [|lia]. destruct (Z.leb_spec (zlen p) max); [|lia].
  cbn [andb negb].
  rewrite (drop_app_exact 4), (take_app_exact 4) by by rewrite le_bytes_length.
  rewrite le_bytes_length. cbn [Nat.eqb negb].
  rewrite (app_assoc (le_bytes 4 (zlen p))), (drop_app_exact 8)
    by by rewrite length_app, !le_bytes_length.
  rewrite take_app_exact by (unfold zlen; lia).
  destruct (Z.eqb_spec (zlen p) (zlen p)); [|done]. cbn [negb].
  rewrite le_value_bytes by (change (256 ^ Z.of_nat 4) with (2 ^ 32); lia). done.
Qed.

Lemma decode_encode max r :
  record_ok max r ->
  decode_payload (spool_crc32 (encode_payload r)) (encode_payload r) = Some r.
Proof.
  intros (Hb & Hm & Hu). pose proof (encode_payload_zlen r) as Hlen.
  pose proof (slen_nonneg (batch_id r)). pose proof (slen_nonneg (body r)).
  unfold decode_payload. rewrite Z.eqb_refl. cbn [negb].
  destruct (Z.ltb_spec (zlen (encode_payload r)) 2); [lia|].
  assert (Ht : take 2 (encode_payload r) = le_bytes 2 (slen (batch_id r))).
  { unfold encode_payload. by rewrite take_app_exact by by rewrite le_bytes_length. }
  rewrite Ht, le_value_bytes by (change (256 ^ Z.of_nat 2) with 65536; lia).
  destruct (Z.ltb_spec (zlen (encode_payload r)) (slen (batch_id r) + 2)); [lia|].
  assert (Hd : drop 2 (encode_payload r) = of_str (batch_id r) ++ of_str (body r)).
  { unfold encode_payload. by rewrite drop_app_exact by by rewrite le_bytes_length. }
  rewrite <- drop_drop, Hd.
  rewrite take_app_exact, drop_app_exact by (rewrite of_str_length; unfold slen; lia).
  rewrite !to_str_of_str. by destruct r.
Qed.

(** ** What a segment holds

    [scan] decodes a segment from a frame boundary: the valid records in order
    (damaged payloads skipped) and the bytes left when no further frame can be
    delimited. *)
Fixpoint scan_fuel (fuel : nat) (max : Z) (data : bytes) : list SpoolRecord * bytes :=
  match fuel with
  | O => ([], data)
  | S fuel =>
      match frame_at max data 0 with
      | None => ([], data)
      | Some (crc, payload) =>
          let '(rs, rest) := scan_fuel fuel max (drop (8 + length payload) data) in
          (match decode_payload crc payload with Some r => r :: rs | None => rs end, rest)
      end
  end.
Definition scan (max : Z) (data : bytes) : list SpoolRecord * bytes :=
  scan_fuel (length data) max data.

Lemma frame_at_Some max data crc p :
  frame_at max data 0 = Some (crc, p) ->
  (2 <= length p)%nat /\ (8 + length p <= length data)%nat /\
  crc = le_value (take 4 (drop 4 data)) /\ p = take (length p) (drop 8 data) /\
  le_value (take 4 data) = zlen p /\ zlen p <= max.
Proof.
  unfold frame_at. change (Z.to_nat 0) with 0%nat. rewrite drop_0.
  destruct (Nat.eqb_spec (length (take 4 data)) 4) as [H1|]; [|done]. cbn [negb].
  destruct (Z.leb_spec 2 (le_value (take 4 data))) as [H2|]; [|done].
  destruct (Z.leb_spec (le_value (take 4 data)) max) as [H3|]; [|done]. cbn [andb negb].
  destruct (Nat.eqb_spec (length (take 4 (drop 4 data))) 4) as [H4|]; [|done]. cbn [negb].
  set (t := le_value (take 4 data)) in *.
  destruct (Z.eqb_spec (zlen (take (Z.to_nat t) (drop 8 data))) t) as [H5|]; [|done].
  intros [= <- <-]. unfold zlen in *.
  rewrite length_take, length_drop in H4.
  assert (length (take (Z.to_nat t) (drop 8 data)) = Z.to_nat t) as E by lia.
  rewrite E. rewrite length_take, length_drop in E.
  split; [lia|]. split; [lia|]. split; [done|]. split; [done|]. lia.
Qed.

Lemma frame_at_app max data post crc p :
  frame_at max data 0 = Some (crc, p) -> frame_at max (data ++ post) 0 = Some (crc, p).
Proof.
  intros H. destruct (frame_at_Some _ _ _ _ H) as (H2 & Hl & -> & Hp & Ht & Hm).
  unfold frame_at. change (Z.to_nat 0) with 0%nat. rewrite drop_0.
  rewrite take_app_le by lia. rewrite Ht, length_take_le by lia. cbn [Nat.eqb negb].
  destruct (Z.leb_spec 2 (zlen p)); [|unfold zlen in *; lia].
  destruct (Z.leb_spec (zlen p) max); [|lia]. cbn [andb negb].
  rewrite !drop_app_le by lia. rewrite take_app_le by (rewrite length_drop; lia).
  rewrite length_take_le by (rewrite length_drop; lia). cbn [Nat.eqb negb].
  assert (Z.to_nat (zlen p) = length p) as -> by (unfold zlen; lia).
  rewrite take_app_le by (rewrite length_drop; lia). rewrite <- Hp.
  by rewrite Z.eqb_refl.
Qed.

Lemma scan_fuel_enough max f g data :
  (length data <= f)%nat -> (length data <= g)%nat ->
  scan_fuel f max data = scan_fuel g max data.
Proof.
  revert g data; induction f as [|f IH]; intros [|g] data Hf Hg.
  - done.
  - destruct data; [done|simpl in *; lia].
  - destruct data; [done|simpl in *; lia].
  - cbn [scan_fuel]. destruct (frame_at max data 0) as [[crc p]|] eqn:E; [|done].
    destruct (frame_at_Some _ _ _ _ E) as (? & ? & _).
    rewrite (IH g); [done|rewrite length_drop; lia..].
Qed.

Lemma scan_unfold max data :
  scan max data =
  match frame_at max data 0 with
  | None => ([], data)
  | Some (crc, payload) =>
      let '(rs, rest) := scan max (drop (8 + length payload) data) in
      (match decode_payload crc payload with Some r => r :: rs | None => rs end, rest)
  end.
Proof.
  unfold scan. destruct (length data) as [|n] eqn:El.
  { destruct data; [|done]. by vm_compute. }
  cbn [scan_fuel]. destruct (frame_at max data 0) as [[crc p]|] eqn:E; [|done].
  destruct (frame_at_Some _ _ _ _ E) as (? & ? & _).
  by rewrite (scan_fuel_enough max n (length (drop (8 + length p) data)))
    by (rewrite length_drop; lia).
Qed.

(** Induction over the frames of a segment. *)
Lemma scan_ind max (P : bytes -> Prop) :
  (forall data, frame_at max data 0 = None -> P data) ->
  (forall data crc p, frame_at max data 0 = Some (crc, p) ->
     P (drop (8 + length p) data) -> P data) ->
  forall data, P data.
Proof.
  intros H0 H1 data. remember (length data) as n eqn:En. revert data En.
  induction (lt_wf n) as [n _ IH]. intros data ->.
  destruct (frame_at max data 0) as [[crc p]|] eqn:E; [|by apply H0].
  apply (H1 _ _ _ E). destruct (frame_at_Some _ _ _ _ E) as (? & ? & _).
  eapply IH; [|reflexivity]. rewrite length_drop. lia.
Qed.

(** A cleanly ending segment extends frame by frame. *)
Lemma scan_app max data post rs :
  scan max data = (rs, []) ->
  scan max (data ++ post) = (rs ++ (scan max post).1, (scan max post).2).
Proof.
  revert rs. induction data as [data E|data crc p E IH] using (scan_ind max); intros rs;
    rewrite scan_unfold, E.
  - intros [= <- ->]. simpl. by destruct (scan max post).
  - destruct (scan max (drop (8 + length p) data)) as [rs' rest] eqn:Es.
    intros H. injection H as <- ->. specialize (IH rs' eq_refl).
    destruct (frame_at_Some _ _ _ _ E) as (? & ? & _).
    rewrite scan_unfold, (frame_at_app _ _ _ _ _ E), drop_app_le, IH by lia.
    by destruct (decode_payload crc p).
Qed.

Lemma scan_encode max r : record_ok max r -> scan max (encode_frame r) = ([r], []).
Proof.
  intros Hr. rewrite scan_unfold.
  pose proof (frame_at_encode max r [] Hr) as Hf. rewrite app_nil_r in Hf.
  rewrite Hf, (decode_encode max r Hr).
  assert (drop (8 + length (encode_payload r)) (encode_frame r) = []) as ->; [|done].
  apply drop_ge. unfold encode_frame. rewrite !length_app, !le_bytes_length. lia.
Qed.

(** ** What the spool still has to deliver *)
Section Unread.
Context (max : Z) (d : dir).

Definition segment_unread (seg off : Z) : list SpoolRecord :=
  (scan max (drop (Z.to_nat off) (file_data d seg))).1.
Definition segment_rest (seg off : Z) : bytes :=
  (scan max (drop (Z.to_nat off) (file_data d seg))).2.
(** the records of the segments from [lo] up to [hi] *)
Definition whole_segments (lo hi : Z) : list SpoolRecord :=
  concat ((fun i => segment_unread i 0) <$> seqZ lo (hi - lo + 1)).
(** the records from a position up to segment [windex] *)
Definition unread (windex seg off : Z) : list SpoolRecord :=
  segment_unread seg off ++ whole_segments (seg + 1) windex.

Lemma whole_segments_nil lo hi : hi < lo -> whole_segments lo hi = [].
Proof. intros. unfold whole_segments. by rewrite seqZ_nil by lia. Qed.
Lemma whole_segments_cons lo hi :
  lo <= hi -> whole_segments lo hi = segment_unread lo 0 ++ whole_segments (lo + 1) hi.
Proof.
  intros. unfold whole_segments. rewrite (seqZ_cons lo) by lia. simpl.
  replace (Z.pred (hi - lo + 1)) with (hi - (lo + 1) + 1) by lia. done.
Qed.
Lemma whole_segments_snoc lo hi :
  lo <= hi + 1 ->
  whole_segments lo (hi + 1) = whole_segments lo hi ++ segment_unread (hi + 1) 0.
Proof.
  intros. unfold whole_segments.
  replace (hi + 1 - lo + 1) with ((hi - lo + 1) + 1) by lia.
  rewrite seqZ_app, fmap_app, concat_app by lia. f_equal.
  rewrite (seqZ_cons (lo + (hi - lo + 1))) by lia. rewrite seqZ_nil by lia. simpl.
  rewrite app_nil_r. f_equal. lia.
Qed.
Lemma unread_next windex seg off :
  seg < windex -> segment_unread seg off = [] ->
  unread windex seg off = unread windex (seg + 1) 0.
Proof. intros H E. unfold unread. rewrite E. simpl. by rewrite whole_segments_cons by lia. Qed.

Lemma segment_unread_missing seg off :
  d !! segment_filename seg = None -> segment_unread seg off = [] /\ segment_rest seg off = [].
Proof.
  intros E. unfold segment_unread, segment_rest, file_data. rewrite E. simpl.
  by rewrite drop_nil.
Qed.
Lemma segment_step seg off data :
  0 <= off -> d !! segment_filename seg = Some data ->
  match frame_at max data off with
  | None => segment_unread seg off = [] /\ segment_rest seg off = drop (Z.to_nat off) data
  | Some (crc, p) =>
      segment_unread seg off =
        option_list (decode_payload crc p) ++ segment_unread seg (off + (4 + 4 + zlen p)) /\
      segment_rest seg off = segment_rest seg (off + (4 + 4 + zlen p)) /\
      (8 + length p + Z.to_nat off <= length data)%nat
  end.
Proof.
  intros Hoff E. unfold segment_unread, segment_rest, file_data. rewrite E. simpl.
  rewrite frame_at_offset by done. set (x := drop (Z.to_nat off) data).
  rewrite (scan_unfold max x).
  destruct (frame_at max x 0) as [[crc p]|] eqn:F; [|done].
  destruct (frame_at_Some _ _ _ _ F) as (? & Hl & _).
  replace (Z.to_nat (off + (4 + 4 + zlen p))) with (Z.to_nat off + (8 + length p))%nat
    by (unfold zlen; lia).
  rewrite <- (drop_drop data (8 + length p) (Z.to_nat off)). fold x.
  destruct (scan max (drop (8 + length p) x)) as [rs rest].
  unfold x in Hl. rewrite length_drop in Hl.
  split; [by destruct (decode_payload crc p)|]. split; [done|lia].
Qed.
End Unread.
