(* ===== verification/SpoolQueue.v ===== *)
(** * The spool as a durable queue

    The abstract contract of the spool: it holds a queue of records, [append]
    adds at the end (after dropping whole segments from the front when the
    quota demands it), [peek_ready] shows the front, [report_outcome] removes
    it or keeps it for a retry, and a crash between operations loses nothing.
    The refinement maps a directory and an object to the queue they hold. *)

From S2P Require Import Prelude Crc32 Spool SpoolFrames.

(** ** Positions *)
Section Positions.
Context (max : Z) (d : dir).

(** a position on a frame boundary of its segment *)
Definition aligned (seg off : Z) : Prop :=
  0 <= off /\ segment_unread max d seg off `suffix_of` segment_unread max d seg 0 /\
  segment_rest max d seg off = segment_rest max d seg 0.

Lemma aligned_start seg : aligned seg 0.
Proof. split; [lia|]. by split. Qed.
Lemma aligned_missing seg off : 0 <= off -> file_data d seg = [] -> aligned seg off.
Proof.
  intros Hoff E. split; [done|]. unfold segment_unread, segment_rest. rewrite E, !drop_nil.
  by split.
Qed.
Lemma aligned_after seg off data crc p :
  aligned seg off -> d !! segment_filename seg = Some data ->
  frame_at max data off = Some (crc, p) -> aligned seg (off + (4 + 4 + zlen p)).
Proof.
  intros (Hoff & Hs & Hr) E F. pose proof (segment_step max d seg off data Hoff E) as H.
  rewrite F in H. destruct H as (Hu & Hr' & _). pose proof (zlen_nonneg p).
  split; [lia|]. split; [|congruence].
  etrans; [|exact Hs]. rewrite Hu. by apply suffix_app_r.
Qed.
End Positions.

(** ** The read loop *)
Section ReadLoop.
Context (max : Z) (d : dir) (windex : Z).

Definition read_measure (seg off : Z) : nat :=
  (Z.to_nat (windex - seg) + (length (file_data d seg) - Z.to_nat off) +
   sum_list_with (fun i => length (file_data d i)) (seqZ (seg + 1) (windex - seg)))%nat.

Lemma read_measure_next seg off :
  seg < windex -> (read_measure (seg + 1) 0 < read_measure seg off)%nat.
Proof.
  intros H. unfold read_measure. rewrite (seqZ_cons (seg + 1) (windex - seg)) by lia.
  simpl. replace (Z.pred (windex - seg)) with (windex - (seg + 1)) by lia.
  change (Z.succ (seg + 1)) with (seg + 1 + 1). lia.
Qed.

(** what the read loop establishes *)
Definition read_post (seg off : Z) (res : read_result) : Prop :=
  match res with
  | ReadRecord r seg' off' _ =>
      seg <= seg' <= windex /\ aligned max d seg' off' /\ off' <= zlen (file_data d seg') /\
      is_Some (d !! segment_filename seg') /\
      unread max d windex seg off = r :: unread max d windex seg' off' /\
      exists o, aligned max d seg' o /\
        segment_unread max d seg' o = r :: segment_unread max d seg' off'
  | ReadNothing seg' off' _ =>
      seg' = windex /\ aligned max d seg' off' /\ unread max d windex seg off = [] /\
      unread max d windex seg' off' = [] /\ off' <= zlen (file_data d seg')
  | ReadOutOfFuel => False
  end.

Lemma read_post_weaken seg off seg' off' res :
  seg <= seg' -> unread max d windex seg off = unread max d windex seg' off' ->
  read_post seg' off' res -> read_post seg off res.
Proof.
  unfold read_post. intros Hs Hu. rewrite Hu.
  destruct res; [|done..]. intros (? & ?). split; [lia|done].
Qed.

Lemma read_next_spec fuel seg off corrupt :
  aligned max d seg off -> seg <= windex ->
  (seg = windex -> off <= zlen (file_data d seg)) -> (read_measure seg off < fuel)%nat ->
  read_post seg off (read_next_record fuel max d windex seg off corrupt).
Proof.
  revert seg off corrupt; induction fuel as [|fuel IH]; intros seg off corrupt Hal Hseg Hend Hf;
    [lia|].
  pose proof Hal as (Hoff & _).
  assert (Hnext : segment_unread max d seg off = [] ->
    read_post seg off (if seg <? windex
      then read_next_record fuel max d windex (seg + 1) 0 corrupt
      else ReadNothing seg off corrupt)).
  { intros Hu. destruct (Z.ltb_spec seg windex).
    - eapply read_post_weaken; [|by apply unread_next|apply IH];
        pose proof (read_measure_next seg off); [lia|apply aligned_start|lia| |lia].
      intros _. apply zlen_nonneg.
    - assert (seg = windex) as -> by lia. simpl. unfold unread.
      rewrite Hu, whole_segments_nil by lia. auto 10. }
  cbn [read_next_record]. destruct (d !! segment_filename seg) as [data|] eqn:E.
  2:{ apply Hnext. apply (segment_unread_missing max d seg off E). }
  pose proof (segment_step max d seg off data Hoff E) as Hs.
  destruct (frame_at max data off) as [[crc p]|] eqn:F; [|apply Hnext, Hs].
  destruct Hs as (Hu & Hr & Hl).
  assert (Ha : aligned max d seg (off + (4 + 4 + zlen p))) by eauto using aligned_after.
  assert (Hd : file_data d seg = data) by (unfold file_data; by rewrite E).
  destruct (decode_payload crc p) as [r|]; simpl in Hu.
  - simpl. unfold unread. rewrite Hu, Hd, E.
    split; [lia|]. split; [done|]. split; [unfold zlen; lia|]. eauto 10.
  - eapply read_post_weaken; [| |apply IH]; try done; try lia.
    + unfold unread. by rewrite Hu.
    + intros _. rewrite Hd. unfold zlen. lia.
    + unfold read_measure in *. rewrite Hd in *. unfold zlen. lia.
Qed.
End ReadLoop.

(** ** The directory *)
Lemma segment_entries_perm d d' :
  map_to_list d ≡ₚ map_to_list d' -> segment_entries d ≡ₚ segment_entries d'.
Proof. intros H. unfold segment_entries. by rewrite H. Qed.

Lemma segment_entries_insert_other name x d :
  parse_segment_index name = None -> segment_entries (<[name := x]> d) ≡ₚ segment_entries d.
Proof.
  intros Hn. rewrite <- insert_delete_eq. unfold segment_entries.
  rewrite map_to_list_insert by apply lookup_delete_eq. simpl. rewrite Hn. simpl.
  destruct (d !! name) as [y|] eqn:E.
  - rewrite <- (map_to_list_delete d name y E) at 1. simpl. rewrite Hn. done.
  - by rewrite delete_id.
Qed.
Lemma segment_entries_delete name i x d :
  parse_segment_index name = Some i -> d !! name = Some x ->
  segment_entries d ≡ₚ (i, x) :: segment_entries (delete name d).
Proof.
  intros Hn E. unfold segment_entries. rewrite <- (map_to_list_delete d name x E). simpl.
  by rewrite Hn.
Qed.
Lemma segment_entries_delete_other name d :
  parse_segment_index name = None -> segment_entries (delete name d) ≡ₚ segment_entries d.
Proof.
  intros Hn. destruct (d !! name) as [y|] eqn:E; [|by rewrite delete_id].
  unfold segment_entries. rewrite <- (map_to_list_delete d name y E). simpl. by rewrite Hn.
Qed.

Definition has_segment (d : dir) (i : Z) : Prop := i ∈ (segment_entries d).*1.

Lemma has_segment_spec d i :
  has_segment d i <-> exists name data, d !! name = Some data /\ parse_segment_index name = Some i.
Proof.
  unfold has_segment, segment_entries. rewrite list_elem_of_fmap. split.
  - intros ([j data] & -> & H). apply list_elem_of_omap in H as ([name x] & H & E).
    apply elem_of_map_to_list in H. simpl in E.
    destruct (parse_segment_index name) eqn:P; simplify_eq/=. eauto.
  - intros (name & data & E & P). exists (i, data). split; [done|].
    apply list_elem_of_omap. exists (name, data). rewrite elem_of_map_to_list. simpl.
    by rewrite P.
Qed.

(** Every segment file has the name the code writes, with an index up to [hi]. *)
Definition canonical (hi : Z) (d : dir) : Prop :=
  forall name data i, d !! name = Some data -> parse_segment_index name = Some i ->
    name = segment_filename i /\ i <= hi.

Lemma canonical_segment hi d i :
  hi < 10 ^ 19 -> canonical hi d ->
  has_segment d i <-> index_ok i /\ i <= hi /\ is_Some (d !! segment_filename i).
Proof.
  intros Hhi Hc. rewrite has_segment_spec. split.
  - intros (name & data & E & P). destruct (Hc _ _ _ E P) as [-> Hi].
    assert (0 <= i).
    { unfold parse_segment_index in P. repeat case_match; try done.
      by apply from_chars_range in P as [? _]. }
    split; [unfold index_ok; lia|]. eauto.
  - intros (Hi & _ & [data E]). exists (segment_filename i), data.
    split; [done|]. by apply parse_segment_filename.
Qed.

Lemma foldl_keep_min l acc :
  match foldl keep_min acc l with
  | None => acc = None /\ l = []
  | Some m => (m ∈ l \/ acc = Some m) /\ (forall i, i ∈ l -> m <= i) /\
              (forall x, acc = Some x -> m <= x)
  end.
Proof.
  revert acc; induction l as [|j l IH]; intros acc; simpl.
  { destruct acc; [|done]. split; [by right|]. split; [by intros ? ?%not_elem_of_nil|].
    intros ? [= ->]. lia. }
  specialize (IH (keep_min acc j)). destruct (foldl keep_min (keep_min acc j) l) as [m|].
  2:{ destruct IH as [H _]. unfold keep_min in H. destruct acc; [by destruct (j <? z)|done]. }
  destruct IH as (Hm & Hl & Ha). unfold keep_min in *.
  assert (Hj : m <= j /\ forall x, acc = Some x -> m <= x).
  { destruct acc as [x|].
    - destruct (Z.ltb_spec j x); specialize (Ha _ eq_refl); split; try lia;
        intros ? [= <-]; lia.
    - specialize (Ha _ eq_refl). split; [lia|done]. }
  split; [|split; [|exact (proj2 Hj)]].
  - destruct Hm as [Hm|Hm]; [left; apply elem_of_cons; by right|].
    destruct acc as [x|]; [destruct (j <? x)|]; simplify_eq;
      rewrite elem_of_cons; auto.
  - intros i [->|Hi]%elem_of_cons; [exact (proj1 Hj)|by apply Hl].
Qed.
Lemma foldl_keep_max l acc :
  match foldl keep_max acc l with
  | None => acc = None /\ l = []
  | Some m => (m ∈ l \/ acc = Some m) /\ (forall i, i ∈ l -> i <= m) /\
              (forall x, acc = Some x -> x <= m)
  end.
Proof.
  revert acc; induction l as [|j l IH]; intros acc; simpl.
  { destruct acc; [|done]. split; [by right|]. split; [by intros ? ?%not_elem_of_nil|].
    intros ? [= ->]. lia. }
  specialize (IH (keep_max acc j)). destruct (foldl keep_max (keep_max acc j) l) as [m|].
  2:{ destruct IH as [H _]. unfold keep_max in H. destruct acc; [by destruct (z <? j)|done]. }
  destruct IH as (Hm & Hl & Ha). unfold keep_max in *.
  assert (Hj : j <= m /\ forall x, acc = Some x -> x <= m).
  { destruct acc as [x|].
    - destruct (Z.ltb_spec x j); specialize (Ha _ eq_refl); split; try lia;
        intros ? [= <-]; lia.
    - specialize (Ha _ eq_refl). split; [lia|done]. }
  split; [|split; [|exact (proj2 Hj)]].
  - destruct Hm as [Hm|Hm]; [left; apply elem_of_cons; by right|].
    destruct acc as [x|]; [destruct (x <? j)|]; simplify_eq;
      rewrite elem_of_cons; auto.
  - intros i [->|Hi]%elem_of_cons; [exact (proj1 Hj)|by apply Hl].
Qed.

(** [min_index] and [max_index] are the least and the greatest segment index. *)
Lemma min_index_spec d lo :
  has_segment d lo -> (forall i, has_segment d i -> lo <= i) -> min_index d = Some lo.
Proof.
  intros Hlo Hmin. unfold min_index. pose proof (foldl_keep_min (segment_entries d).*1 None) as H.
  destruct (foldl keep_min None _) as [m|].
  - destruct H as ([Hm|Hm] & Hl & _); [|done]. f_equal.
    apply Z.le_antisymm; [by apply Hl|by apply Hmin].
  - destruct H as [_ H]. unfold has_segment in Hlo. rewrite H in Hlo. by apply not_elem_of_nil in Hlo.
Qed.
Lemma max_index_spec d hi :
  has_segment d hi -> (forall i, has_segment d i -> i <= hi) -> max_index d = Some hi.
Proof.
  intros Hlo Hmin. unfold max_index. pose proof (foldl_keep_max (segment_entries d).*1 None) as H.
  destruct (foldl keep_max None _) as [m|].
  - destruct H as ([Hm|Hm] & Hl & _); [|done]. f_equal.
    apply Z.le_antisymm; [by apply Hmin|by apply Hl].
  - destruct H as [_ H]. unfold has_segment in Hlo. rewrite H in Hlo. by apply not_elem_of_nil in Hlo.
Qed.
Lemma min_index_Some d lo :
  min_index d = Some lo -> has_segment d lo /\ forall i, has_segment d i -> lo <= i.
Proof.
  unfold min_index, has_segment. pose proof (foldl_keep_min (segment_entries d).*1 None) as H.
  intros E. rewrite E in H. destruct H as ([Hm|Hm] & Hl & _); [done|done].
Qed.
Lemma has_segment_min d i : has_segment d i -> exists lo, min_index d = Some lo.
Proof.
  unfold min_index, has_segment. pose proof (foldl_keep_min (segment_entries d).*1 None) as H.
  destruct (foldl keep_min None _); [eauto|]. destruct H as [_ H]. rewrite H.
  by intros ?%not_elem_of_nil.
Qed.

(** ** The cursor file *)
Lemma span_digits_app a b :
  str_forallb is_digit a = true ->
  (match b with String c _ => is_digit c = false | "" => True end) ->
  span_digits (a +:+ b) = (a, b).
Proof.
  intros Ha Hb. induction a as [|c a IH]; simpl in *.
  - destruct b as [|c b]; [done|]. simpl. by rewrite Hb.
  - apply andb_true_iff in Ha as [Hc Ha]. rewrite Hc, IH by done. done.
Qed.
Lemma digit_not_sign c : is_digit c = true -> is_space c = false /\ c <> "-"%char /\ c <> "+"%char.
Proof.
  intros H. unfold is_digit, is_space in *. split; [lia|]. split; intros ->; done.
Qed.
Lemma extract_u64_to_string v b :
  0 <= v <= u64_max ->
  (match b with String c _ => is_digit c = false | "" => True end) ->
  extract_u64 (to_string v +:+ b) = Some (v, b).
Proof.
  intros Hv Hb. pose proof (from_chars_to_string u64_max v Hv) as Hf.
  rewrite to_string_nonneg in * by lia.
  pose proof (udec_digits v ltac:(lia)) as Hd. pose proof (span_digits_app _ b Hd Hb) as Hs.
  destruct (udec v) as [|c r] eqn:E; [by apply udec_nonempty in E|].
  assert (Hc : is_digit c = true) by (simpl in Hd; by apply andb_true_iff in Hd as [? _]).
  destruct (digit_not_sign c Hc) as (Hsp & Hm & Hp).
  unfold extract_u64. change (String c r +:+ b) with (String c (r +:+ b)) in *.
  cbn [skip_spaces]. rewrite Hsp. cbn [take_sign].
  destruct (Ascii.eqb_spec c "-"); [done|]. destruct (Ascii.eqb_spec c "+"); [done|].
  rewrite Hs. cbv beta iota. by rewrite Hf.
Qed.

(** the position a cursor file holds *)
Definition committed (d : dir) : option (Z * Z) :=
  match d !! cursor_name with
  | None => None
  | Some text =>
      '(seg, rest) ← extract_u64 (to_str text);
      '(off, _) ← extract_u64 rest; Some (seg, off)
  end.
Lemma load_cursor_committed d h :
  load_cursor d h = match committed d with Some (seg, off) => set_position seg off h | None => h end.
Proof.
  unfold load_cursor, committed. destruct (d !! cursor_name); [|done].
  destruct (extract_u64 (to_str l)) as [[seg rest]|]; [|done]. simpl.
  by destruct (extract_u64 rest) as [[off ?]|].
Qed.
Lemma write_cursor_lookup h d :
  write_cursor h d !! cursor_name = Some (of_str (cursor_text h)).
Proof.
  unfold write_cursor, rename_cursor, write_tmp. rewrite lookup_insert_eq, lookup_insert_eq. done.
Qed.
Lemma write_cursor_other h d name :
  name <> cursor_name -> name <> cursor_tmp_name -> write_cursor h d !! name = d !! name.
Proof.
  intros H1 H2. unfold write_cursor, rename_cursor, write_tmp. rewrite lookup_insert_eq.
  rewrite lookup_insert_ne, lookup_delete_ne, lookup_insert_ne by done. done.
Qed.
(** Reading the cursor file back gives the position written to it. *)
Lemma committed_text d h :
  0 <= read_segment_index h <= u64_max -> 0 <= read_offset h <= u64_max ->
  d !! cursor_name = Some (of_str (cursor_text h)) ->
  committed d = Some (read_segment_index h, read_offset h).
Proof.
  intros Hs Ho E. unfold committed. rewrite E, to_str_of_str. unfold cursor_text.
  rewrite extract_u64_to_string by done. cbn [mbind option_bind].
  change (extract_u64 (" " +:+ to_string (read_offset h))) with
    (extract_u64 (to_string (read_offset h))).
  rewrite <- (string_app_nil_r (to_string (read_offset h))).
  by rewrite extract_u64_to_string.
Qed.
Lemma segment_entries_write_cursor h d : segment_entries (write_cursor h d) ≡ₚ segment_entries d.
Proof.
  unfold write_cursor, rename_cursor, write_tmp. rewrite lookup_insert_eq.
  rewrite segment_entries_insert_other by done.
  rewrite segment_entries_delete_other by done.
  by rewrite segment_entries_insert_other.
Qed.

(** ** How the operations on the directory change what is unread *)
Lemma unread_ext max d d' windex seg off :
  (forall i, seg <= i <= windex \/ i = seg -> file_data d i = file_data d' i) ->
  unread max d windex seg off = unread max d' windex seg off.
Proof.
  intros H. unfold unread, segment_unread. rewrite (H seg) by by right. f_equal.
  unfold whole_segments. f_equal. apply list_fmap_ext. intros k i [-> Hi]%lookup_seqZ.
  unfold segment_unread. rewrite H; [done|lia].
Qed.

Section Evict.
Context (max : Z) (d : dir) (windex lo : Z).
Context (Hlo : lo < windex).
Context (d' : dir).
Context (Hgone : file_data d' lo = []).
Context (Hbelow : forall i, 0 <= i < lo -> file_data d i = []).
Context (Hbelow' : forall i, 0 <= i < lo -> file_data d' i = []).
Context (Habove : forall i, lo < i <= windex -> file_data d' i = file_data d i).

Definition survivors : list SpoolRecord := whole_segments max d (lo + 1) windex.

Lemma segment_unread_empty x seg off : file_data x seg = [] -> segment_unread max x seg off = [].
Proof. intros E. unfold segment_unread. by rewrite E, drop_nil. Qed.

Lemma whole_segments_skip x a b :
  a <= b <= windex + 1 -> (forall i, a <= i < b -> file_data x i = []) ->
  whole_segments max x a windex = whole_segments max x b windex.
Proof.
  intros Hab Hx. remember (Z.to_nat (b - a)) as n eqn:En. revert a Hab Hx En.
  induction n as [|n IH]; intros a Hab Hx En.
  - by assert (a = b) as -> by lia.
  - rewrite whole_segments_cons, segment_unread_empty by (try apply Hx; lia). simpl.
    apply IH; [lia| |lia]. intros i Hi. apply Hx. lia.
Qed.

Lemma survivors_ext : whole_segments max d' (lo + 1) windex = survivors.
Proof.
  unfold survivors, whole_segments. f_equal. apply list_fmap_ext.
  intros k i [-> Hi]%lookup_seqZ. unfold segment_unread. rewrite Habove by lia. done.
Qed.

Lemma whole_segments_suffix a :
  lo < a <= windex + 1 -> exists pre, survivors = pre ++ whole_segments max d a windex.
Proof.
  intros Ha. unfold survivors. remember (Z.to_nat (a - (lo + 1))) as n eqn:En.
  revert a Ha En. induction n as [|n IH]; intros a Ha En.
  - assert (a = lo + 1) as -> by lia. by exists [].
  - destruct (IH (a - 1)) as (pre & ->); [lia..|].
    rewrite (whole_segments_cons _ _ (a - 1)) by lia.
    replace (a - 1 + 1) with a by lia. eexists. by rewrite app_assoc.
Qed.

(** A position in a newer segment only sees survivors. *)
Lemma unread_survives seg off :
  lo < seg <= windex -> aligned max d seg off ->
  exists pre, survivors = pre ++ unread max d windex seg off.
Proof.
  intros Hseg (_ & [k Hk] & _). destruct (whole_segments_suffix seg) as (pre & ->); [lia|].
  rewrite whole_segments_cons, Hk by lia. exists (pre ++ k). unfold unread.
  by rewrite <- !app_assoc.
Qed.
(** A position at or before the removed segment sees exactly the survivors. *)
Lemma evict_unread_at seg off : 0 <= seg <= lo -> unread max d' windex seg off = survivors.
Proof.
  intros Hle. unfold unread. rewrite segment_unread_empty.
  - simpl. rewrite <- survivors_ext. destruct (Z.eq_dec seg lo) as [->|]; [done|].
    apply whole_segments_skip; [lia|]. intros i Hi.
    destruct (Z.eq_dec i lo) as [->|]; [done|apply Hbelow'; lia].
  - destruct (Z.eq_dec seg lo) as [->|]; [done|apply Hbelow'; lia].
Qed.

(** Removing the oldest segment drops from the front whatever exceeds the
    records of the newer segments. *)
Lemma evict_unread seg off :
  0 <= seg <= windex -> aligned max d seg off ->
  unread max d' windex seg off =
    drop (length (unread max d windex seg off) - length survivors) (unread max d windex seg off).
Proof.
  intros Hseg Hal. destruct (Z.le_gt_cases seg lo) as [Hle|Hgt].
  - rewrite evict_unread_at by lia.
    assert (E : exists pre, unread max d windex seg off = pre ++ survivors).
    { unfold unread. destruct (Z.eq_dec seg lo) as [->|]; [by eexists|].
      rewrite (whole_segments_skip d (seg + 1) lo); [|lia|intros i Hi; apply Hbelow; lia].
      rewrite whole_segments_cons by lia. unfold survivors. eexists. by rewrite app_assoc. }
    destruct E as (pre & E). rewrite E, length_app.
    replace (length pre + length survivors - length survivors)%nat with (length pre) by lia.
    by rewrite drop_app_length.
  - destruct (unread_survives seg off ltac:(lia) Hal) as (pre & Hs).
    rewrite Hs, length_app.
    replace (_ - _)%nat with 0%nat by lia. rewrite drop_0. symmetry. apply unread_ext.
    intros i Hi. rewrite Habove by lia. done.
Qed.
End Evict.

(** ** The queue a spool holds, and its invariant *)
Definition queue (d : dir) (s : SegmentSpool) : list SpoolRecord :=
  let m := max_segment_bytes (config s) in
  let h := head s in
  if have_pending_read h
  then unread m d (write_segment_index s) (pre_peek_segment_index h) (pre_peek_offset h)
  else unread m d (write_segment_index s) (read_segment_index h) (read_offset h).

(** what the constructor checks, with the widths of the fields *)
Definition valid_config (c : SpoolConfig) : Prop :=
  0 < max_segment_bytes c <= max_total_bytes c /\ max_total_bytes c <= u64_max /\
  0 < max_delivery_attempts c <= u32_max /\
  0 < base_backoff_ms c <= max_backoff_ms c /\ max_backoff_ms c <= u64_max.

Definition position_ok (d : dir) (s : SegmentSpool) (seg off : Z) : Prop :=
  0 <= seg <= write_segment_index s /\ aligned (max_segment_bytes (config s)) d seg off /\
  (seg = write_segment_index s -> off <= zlen (file_data d seg)).

(** where [recover] puts the cursor when the oldest segment is [lo] *)
Definition restart_position (d : dir) (lo : Z) : Z * Z :=
  match committed d with
  | Some (seg, off) => if seg <? lo then (lo, 0) else (seg, off)
  | None => (lo, 0)
  end.

Record pending_ok (d : dir) (s : SegmentSpool) : Prop := {
  pend_pos : position_ok d s (pre_peek_segment_index (head s)) (pre_peek_offset (head s));
  pend_le : pre_peek_segment_index (head s) <= read_segment_index (head s);
  pend_front : queue d s = pending (head s) ::
    unread (max_segment_bytes (config s)) d (write_segment_index s)
      (read_segment_index (head s)) (read_offset (head s));
  pend_file : is_Some (d !! segment_filename (read_segment_index (head s)));
  pend_offset : read_offset (head s) <= zlen (file_data d (read_segment_index (head s)));
  pend_frame : exists o, aligned (max_segment_bytes (config s)) d (read_segment_index (head s)) o /\
    segment_unread (max_segment_bytes (config s)) d (read_segment_index (head s)) o =
      pending (head s) :: segment_unread (max_segment_bytes (config s)) d
        (read_segment_index (head s)) (read_offset (head s))
}.

Record spool_ok (d : dir) (s : SegmentSpool) : Prop := {
  ok_config : valid_config (config s);
  ok_windex : 1 <= write_segment_index s < 10 ^ 19;
  ok_names : canonical (write_segment_index s) d;
  ok_bytes : write_segment_bytes s = zlen (file_data d (write_segment_index s));
  ok_sizes : forall i, zlen (file_data d i) <= max_segment_bytes (config s);
  ok_clean : segment_rest (max_segment_bytes (config s)) d (write_segment_index s) 0 = [];
  ok_active : is_Some (d !! segment_filename (write_segment_index s)) \/
    (segment_entries d = [] /\ committed d = None /\ write_segment_index s = 1 /\
     read_segment_index (head s) = 1);
  ok_pos : position_ok d s (read_segment_index (head s)) (read_offset (head s));
  ok_pending : have_pending_read (head s) = true -> pending_ok d s;
  ok_retry : 0 <= attempts (head s) < max_delivery_attempts (config s);
  ok_committed : forall seg off, committed d = Some (seg, off) -> position_ok d s seg off;
  ok_durable : forall lo, min_index d = Some lo ->
    unread (max_segment_bytes (config s)) d (write_segment_index s)
      (restart_position d lo).1 (restart_position d lo).2 = queue d s
}.

(** Only the head of the queue changes hands: the directory and the write
    position stay. *)
Lemma spool_ok_head d s h t :
  spool_ok d s ->
  let s' := set_stats t (set_head h s) in
  position_ok d s (read_segment_index h) (read_offset h) ->
  (have_pending_read h = true -> pending_ok d s') ->
  0 <= attempts h < max_delivery_attempts (config s) ->
  queue d s' = queue d s ->
  (d !! segment_filename (write_segment_index s) = None ->
   read_segment_index (head s) = write_segment_index s ->
   read_segment_index h = write_segment_index s) ->
  spool_ok d s'.
Proof.
  intros [] s' Hpos Hpend Hatt Hq Hact. subst s'. constructor; simpl; try done.
  - destruct ok_active0 as [H|(H1 & H2 & H3 & H4)]; [by left|].
    destruct (d !! segment_filename (write_segment_index s)) eqn:E; [by left; eexists|].
    right. repeat split; try done. rewrite Hact by (done || congruence). done.
  - intros lo Hlo. rewrite Hq. by apply ok_durable0.
Qed.

Definition ready (now : Z) (s : SegmentSpool) : bool :=
  have_pending_read (head s) || (next_attempt_at_ms (head s) <=? now).

Lemma read_locked_spec d s :
  spool_ok d s ->
  read_post (max_segment_bytes (config s)) d (write_segment_index s)
    (read_segment_index (head s)) (read_offset (head s)) (read_next_record_locked d s).
Proof.
  intros []. destruct ok_pos0 as (Hseg & Hal & Hend). apply read_next_spec; [done|lia|done|].
  unfold read_measure, read_fuel. simpl. lia.
Qed.

Lemma peek_refines now d s :
  spool_ok d s ->
  exists o s', peek_ready now d s = Some (o, s') /\ spool_ok d s' /\ queue d s' = queue d s /\
    o = (if ready now s then hd_error (queue d s) else None) /\
    (o <> None -> have_pending_read (head s') = true /\ o = Some (pending (head s'))).
Proof.
  intros Hok. unfold peek_ready, ready.
  destruct (have_pending_read (head s)) eqn:Hp; simpl.
  { pose proof (ok_pending _ _ Hok Hp) as []. eexists _, _. split; [done|].
    rewrite pend_front0. done. }
  rewrite Z.leb_antisym. destruct (now <? next_attempt_at_ms (head s)); simpl.
  { by eexists _, _. }
  pose proof (read_locked_spec d s Hok) as Hr.
  assert (Hq0 : queue d s = unread (max_segment_bytes (config s)) d (write_segment_index s)
    (read_segment_index (head s)) (read_offset (head s))) by (unfold queue; by rewrite Hp).
  destruct (read_next_record_locked d s) as [r seg off c|seg off c|]; simpl in Hr; [| |done].
  - destruct Hr as (Hseg & Hal & Hlen & Hfile & Hu & Ho).
    pose proof (ok_pos _ _ Hok) as (Hs0 & Hal0 & Hend0).
    eexists _, _. split; [done|].
    assert (Hpend : pending_ok d (set_stats (set_corrupt c (stats s)) (set_head
      {| read_segment_index := seg; read_offset := off; attempts := attempts (head s);
         next_attempt_at_ms := next_attempt_at_ms (head s); have_pending_read := true;
         pending := r; pre_peek_segment_index := read_segment_index (head s);
         pre_peek_offset := read_offset (head s) |} s))).
    { constructor; simpl; try done. lia. }
    split; [|split; [|split]]; simpl.
    + apply spool_ok_head; simpl; try done.
      * split; [lia|done].
      * apply Hok.
      * intros Hn H1. exfalso. assert (seg = write_segment_index s) as -> by lia.
        rewrite Hn in Hfile. by destruct Hfile.
    + done.
    + by rewrite Hq0, Hu.
    + done.
  - destruct Hr as (-> & Hal & Hu & Hu' & Hend).
    eexists _, _. split; [done|]. split; [|split; [|split]]; simpl.
    + apply spool_ok_head; simpl; try done.
      * split; [|done]. pose proof (ok_windex _ _ Hok). simpl. lia.
      * apply Hok.
      * unfold queue. simpl. rewrite Hp, Hu, Hu'. done.
    + unfold queue. simpl. rewrite Hp, Hu, Hu'. done.
    + by rewrite Hq0, Hu.
    + done.
Qed.

(** ** Reporting an outcome *)
Lemma segment_filename_not_cursor i :
  segment_filename i <> cursor_name /\ segment_filename i <> cursor_tmp_name.
Proof. by split. Qed.
Lemma file_data_write_cursor h d i : file_data (write_cursor h d) i = file_data d i.
Proof.
  unfold file_data. destruct (segment_filename_not_cursor i).
  by rewrite write_cursor_other.
Qed.
Lemma filter_lookup (p : string -> bool) (d : dir) name :
  filter (fun e => p e.1 = false) d !! name = if p name then None else d !! name.
Proof.
  destruct (p name) eqn:B.
  - apply map_lookup_filter_None. right. intros x _. simpl. by rewrite B.
  - destruct (d !! name) as [x|] eqn:E.
    + by apply map_lookup_filter_Some.
    + apply map_lookup_filter_None. by left.
Qed.
Lemma behind_segment seg i : index_ok i -> behind seg (segment_filename i) = (i <? seg).
Proof. intros Hi. unfold behind. by rewrite parse_segment_filename. Qed.

Lemma aligned_ext max d d' seg off :
  file_data d seg = file_data d' seg -> aligned max d seg off -> aligned max d' seg off.
Proof. intros E. unfold aligned, segment_unread, segment_rest. by rewrite E. Qed.

Lemma canonical_sub hi d d' :
  canonical hi d ->
  (forall name data, parse_segment_index name <> None -> d' !! name = Some data ->
     exists data', d !! name = Some data') ->
  canonical hi d'.
Proof.
  intros Hc Hsub name data i E P. destruct (Hsub name data) as [x Hx]; [by rewrite P|done|].
  by eapply Hc.
Qed.

Section Commit.
Context (d : dir) (s : SegmentSpool) (Hok : spool_ok d s).
Context (Hp : have_pending_read (head s) = true).

(** the files removed so far: some of those behind the cursor *)
Context (removed : string -> bool).
Context (Hrem : forall name, removed name = true ->
  behind (read_segment_index (head s)) name = true).

Definition remove_files (x : dir) : dir := filter (fun e => removed e.1 = false) x.
Definition commit_dir : dir := remove_files (write_cursor (reset_retry (head s)) d).
Definition commit_spool (t : SpoolStats) : SegmentSpool :=
  set_stats t (set_head (reset_retry (head s)) s).

Lemma commit_file i :
  read_segment_index (head s) <= i -> index_ok i ->
  commit_dir !! segment_filename i = d !! segment_filename i.
Proof.
  intros Hle Hi. unfold commit_dir, remove_files. rewrite filter_lookup.
  destruct (removed (segment_filename i)) eqn:R.
  { apply Hrem in R. rewrite behind_segment in R by done. lia. }
  apply write_cursor_other; apply segment_filename_not_cursor.
Qed.
Lemma commit_data i :
  file_data commit_dir i = file_data d i \/ file_data commit_dir i = [].
Proof.
  unfold file_data, commit_dir, remove_files. rewrite filter_lookup.
  destruct (removed _); [by right|left].
  by rewrite write_cursor_other by apply segment_filename_not_cursor.
Qed.

Lemma commit_read_segment : index_ok (read_segment_index (head s)).
Proof. destruct Hok. destruct ok_pos0 as [? _]. unfold index_ok. lia. Qed.

Lemma commit_unread off :
  unread (max_segment_bytes (config s)) commit_dir (write_segment_index s)
    (read_segment_index (head s)) off =
  unread (max_segment_bytes (config s)) d (write_segment_index s)
    (read_segment_index (head s)) off.
Proof.
  pose proof commit_read_segment. destruct Hok.
  apply unread_ext. intros i Hi. unfold file_data.
  rewrite commit_file; [done|lia|unfold index_ok in *; lia].
Qed.

Lemma commit_committed :
  committed commit_dir = Some (read_segment_index (head s), read_offset (head s)).
Proof.
  pose proof commit_read_segment as Hi. destruct Hok. destruct (ok_pending0 Hp).
  destruct ok_pos0 as (_ & (? & _) & _). destruct ok_config0 as (? & ? & _).
  specialize (ok_sizes0 (read_segment_index (head s))).
  apply (committed_text _ (reset_retry (head s))); unfold index_ok, u64_max in *; simpl; try lia.
  unfold commit_dir, remove_files. rewrite filter_lookup.
  destruct (removed cursor_name) eqn:R; [by apply Hrem in R|]. apply write_cursor_lookup.
Qed.

Lemma commit_ok t : spool_ok commit_dir (commit_spool t).
Proof.
  pose proof commit_read_segment as Hi. pose proof commit_committed as Hcm.
  destruct (ok_pending _ _ Hok Hp). destruct Hok.
  assert (Hactive : is_Some (d !! segment_filename (write_segment_index s))).
  { destruct ok_active0 as [?|(_ & _ & ? & ?)]; [done|]. congruence. }
  assert (Hw : file_data commit_dir (write_segment_index s) = file_data d (write_segment_index s)).
  { unfold file_data. rewrite commit_file; [done|apply ok_pos0|unfold index_ok; lia]. }
  assert (Hpos : position_ok commit_dir (commit_spool t) (read_segment_index (head s))
            (read_offset (head s))).
  { assert (E : file_data d (read_segment_index (head s)) =
      file_data commit_dir (read_segment_index (head s)))
      by (unfold file_data; by rewrite commit_file).
    destruct ok_pos0 as (Hs & Hal & Hend). split; [done|]. simpl. rewrite <- E.
    split; [|done]. by eapply aligned_ext. }
  constructor; simpl; try done.
  - eapply canonical_sub; [done|]. intros name data P E. unfold commit_dir, remove_files in E.
    rewrite filter_lookup in E. destruct (removed name); [done|].
    rewrite write_cursor_other in E; [eauto|by intros ->|by intros ->].
  - congruence.
  - intros i. pose proof (zlen_nonneg (file_data d i)).
    destruct (commit_data i) as [->| ->]; [done|]. rewrite zlen_nil.
    destruct ok_config0. lia.
  - unfold segment_rest in *. by rewrite Hw.
  - left. rewrite commit_file; [done|apply ok_pos0|unfold index_ok; lia].
  - destruct ok_config0 as (_ & _ & ? & _). lia.
  - intros seg off E. rewrite Hcm in E. by simplify_eq.
  - intros lo Hlo. unfold restart_position. rewrite Hcm.
    apply min_index_Some in Hlo as [_ Hmin].
    assert (lo <= read_segment_index (head s)).
    { apply Hmin. rewrite has_segment_spec. destruct pend_file0 as [x Hx].
      exists (segment_filename (read_segment_index (head s))), x.
      rewrite commit_file, parse_segment_filename by (done || lia). done. }
    destruct (Z.ltb_spec (read_segment_index (head s)) lo); [lia|]. simpl. done.
Qed.

Lemma commit_queue t : queue commit_dir (commit_spool t) = tail (queue d s).
Proof.
  destruct (ok_pending _ _ Hok Hp). rewrite pend_front0. simpl.
  unfold queue, commit_spool. simpl. apply commit_unread.
Qed.
End Commit.

(** ** Backoff *)
Lemma double_delay_min e max delay :
  0 < delay -> max <= 2 ^ 63 ->
  Z.min max (double_delay e max delay) = Z.min max (delay * 2 ^ Z.of_nat e).
Proof.
  revert delay; induction e as [|e IH]; intros delay Hd Hm; cbn [double_delay].
  - change (2 ^ Z.of_nat 0) with 1. f_equal. lia.
  - destruct (Z.ltb_spec delay max) as [Hlt|Hge].
    + rewrite u64_small by (unfold u64_max; lia). rewrite IH by lia.
      rewrite Nat2Z.inj_succ, Z.pow_succ_r by lia. f_equal. lia.
    + pose proof (Z.pow_pos_nonneg 2 (Z.of_nat (S e))). nia.
Qed.
Lemma backoff_exact c att :
  valid_config c -> max_backoff_ms c <= 2 ^ 63 -> 1 <= att ->
  backoff_delay c att = Z.min (max_backoff_ms c) (base_backoff_ms c * 2 ^ (att - 1)).
Proof.
  intros (_ & _ & _ & ? & _) Hm Ha. unfold backoff_delay.
  destruct (Z.ltb_spec 0 att); [|lia].
  pose proof (double_delay_min (Z.to_nat (att - 1)) (max_backoff_ms c) (base_backoff_ms c)) as Hdd.
  rewrite Z2Nat.id in Hdd by lia. rewrite <- Hdd by lia.
  destruct (Z.ltb_spec (max_backoff_ms c)
    (double_delay (Z.to_nat (att - 1)) (max_backoff_ms c) (base_backoff_ms c))); lia.
Qed.

(** The retry delay after the [n]-th failed attempt is the base delay doubled
    [n - 1] times and cut at the configured maximum; it never falls below the
    base delay, and never shrinks from one attempt to the next. *)
Theorem backoff_exponential (c : SpoolConfig) (n : Z) :
  valid_config c -> max_backoff_ms c <= 2 ^ 63 -> 1 <= n ->
  backoff_delay c n = Z.min (max_backoff_ms c) (base_backoff_ms c * 2 ^ (n - 1)) /\
  base_backoff_ms c <= backoff_delay c n <= max_backoff_ms c /\
  backoff_delay c n <= backoff_delay c (n + 1).
Proof.
  intros Hc Hm Hn. rewrite !backoff_exact by (done || lia).
  destruct Hc as (_ & _ & _ & ? & _).
  replace (n + 1 - 1) with (Z.succ (n - 1)) by lia. rewrite Z.pow_succ_r by lia.
  pose proof (Z.pow_pos_nonneg 2 (n - 1)). split; [done|]. nia.
Qed.
Definition sample_config : SpoolConfig := {|
  max_segment_bytes := 64; max_total_bytes := 200; max_delivery_attempts := 3;
  base_backoff_ms := 1000; max_backoff_ms := 300000 |}.
Lemma sample_config_valid : valid_config sample_config.
Proof. unfold valid_config, u64_max, u32_max. simpl. lia. Defined.
Lemma backoff_exponential_witness :
  backoff_delay sample_config 3 = 4000 /\
  (backoff_delay sample_config 3 =
     Z.min (max_backoff_ms sample_config) (base_backoff_ms sample_config * 2 ^ (3 - 1)) /\
   base_backoff_ms sample_config <= backoff_delay sample_config 3
     <= max_backoff_ms sample_config /\
   backoff_delay sample_config 3 <= backoff_delay sample_config (3 + 1)).
Proof.
  split; [reflexivity|].
  apply (backoff_exponential sample_config 3); [apply sample_config_valid|simpl; lia|lia].
Defined.

(** ** The delivery contract *)
Lemma keep_retry d s now att t :
  spool_ok d s -> have_pending_read (head s) = true ->
  0 <= att < max_delivery_attempts (config s) ->
  let h := head s in
  let s' := set_stats t (set_head
    {| read_segment_index := pre_peek_segment_index h; read_offset := pre_peek_offset h;
       attempts := att; next_attempt_at_ms := now; have_pending_read := false;
       pending := pending h; pre_peek_segment_index := pre_peek_segment_index h;
       pre_peek_offset := pre_peek_offset h |} s) in
  spool_ok d s' /\ queue d s' = queue d s.
Proof.
  intros Hok Hp Hatt h s'. destruct (ok_pending _ _ Hok Hp).
  assert (Hq : queue d s' = queue d s) by (unfold queue, s', h; simpl; by rewrite Hp).
  split; [|done]. apply spool_ok_head; simpl; try done.
  intros Hn H1. exfalso. rewrite H1, Hn in pend_file0. by destruct pend_file0.
Qed.

(** the contract of [report_outcome] for a record that is out for delivery *)
Definition report_contract (now : Z) (delivered : bool) (d : dir) (s : SegmentSpool) : Prop :=
  let '(d', s') := report_outcome now delivered d s in
  let failures := attempts (head s) + 1 in
  let dead := negb delivered && (max_delivery_attempts (config s) <=? failures) in
  spool_ok d' s' /\ have_pending_read (head s') = false /\
  queue d' s' = (if delivered || dead then tail (queue d s) else queue d s) /\
  attempts (head s') = (if delivered || dead then 0 else failures) /\
  next_attempt_at_ms (head s') =
    (if delivered || dead then 0 else u64 (now + backoff_delay (config s) failures)) /\
  dead_records (stats s') =
    (if dead then u64 (dead_records (stats s) + 1) else dead_records (stats s)).

Lemma report_spec now delivered d s :
  spool_ok d s -> have_pending_read (head s) = true -> report_contract now delivered d s.
Proof.
  intros Hok Hp. unfold report_contract, report_outcome. rewrite Hp. cbn [negb].
  pose proof (ok_retry _ _ Hok) as Hr. pose proof (ok_config _ _ Hok) as (_ & _ & Hm & _).
  assert (Hu : u32 (attempts (head s) + 1) = attempts (head s) + 1)
    by (apply u32_small; unfold u32_max in *; lia).
  destruct delivered; simpl.
  - split; [by apply (commit_ok d s Hok Hp (behind _))|]. split; [done|]. split; [by apply (commit_queue d s Hok Hp (behind _))|]. done.
  - rewrite Hu. destruct (Z.leb_spec (max_delivery_attempts (config s)) (attempts (head s) + 1)).
    + split; [by apply (commit_ok d s Hok Hp (behind _))|]. split; [done|]. split; [by apply (commit_queue d s Hok Hp (behind _))|]. done.
    + destruct (keep_retry d s (u64 (now + backoff_delay (config s) (attempts (head s) + 1)))
        (attempts (head s) + 1) (stats s) Hok Hp) as [H1 H2]; [lia|].
      split; [exact H1|]. split; [done|]. split; [exact H2|]. done.
Qed.

(** Delivery attempts.  When a record is out for delivery, reporting success
    removes exactly that record from the front of the queue; reporting failure
    keeps the queue as it is, counts the attempt and sets the next attempt after
    the backoff delay, until the configured number of attempts is reached: then
    the record is counted dead and removed, so one undeliverable record cannot
    block the queue. *)
Theorem report_outcome_refines (now : Z) (delivered : bool) (d : dir) (s : SegmentSpool) :
  spool_ok d s -> have_pending_read (head s) = true ->
  let '(d', s') := report_outcome now delivered d s in
  let failures := attempts (head s) + 1 in
  let dead := negb delivered && (max_delivery_attempts (config s) <=? failures) in
  spool_ok d' s' /\ have_pending_read (head s') = false /\
  queue d' s' = (if delivered || dead then tail (queue d s) else queue d s) /\
  attempts (head s') = (if delivered || dead then 0 else failures) /\
  next_attempt_at_ms (head s') =
    (if delivered || dead then 0 else u64 (now + backoff_delay (config s) failures)) /\
  dead_records (stats s') =
    (if dead then u64 (dead_records (stats s) + 1) else dead_records (stats s)).
Proof. exact (report_spec now delivered d s). Qed.
