(* ===== verification/SpoolDurable.v ===== *)
(** * Appending, quota eviction and recovery of the spool

    The second half of the spool's contract: eviction always finishes and drops
    a prefix of the queue, an accepted append adds exactly one record at the
    end, and recovery after a crash between operations restores the queue. *)

From S2P Require Import Prelude Crc32 Spool SpoolFrames SpoolQueue.

Lemma unread_skip max d windex a b off :
  a < b <= windex -> (forall i, a <= i < b -> file_data d i = []) ->
  unread max d windex a off = unread max d windex b 0.
Proof.
  intros Hab Hf. unfold unread at 1. rewrite segment_unread_empty by (apply Hf; lia). simpl.
  rewrite (whole_segments_skip max windex d (a + 1) b); [|lia|intros; apply Hf; lia].
  by rewrite whole_segments_cons by lia.
Qed.

Lemma whole_segments_last max d lo hi :
  lo <= hi -> whole_segments max d lo hi = whole_segments max d lo (hi - 1) ++ segment_unread max d hi 0.
Proof.
  intros H. pose proof (whole_segments_snoc max d lo (hi - 1) ltac:(lia)) as E.
  by replace (hi - 1 + 1) with hi in E by lia.
Qed.

Lemma position_start d s seg :
  0 <= seg <= write_segment_index s -> position_ok d s seg 0.
Proof. intros H. split; [done|]. split; [apply aligned_start|intros; apply zlen_nonneg]. Qed.

(** ** One round of eviction *)
Section EvictOne.
Context (d : dir) (s : SegmentSpool) (Hok : spool_ok d s).
Context (lo : Z) (Hold : oldest_evictable (write_segment_index s) d = Some lo).

#[local] Abbreviation windex := (write_segment_index s).
#[local] Abbreviation max := (max_segment_bytes (config s)).
Definition evicted_dir : dir := delete (segment_filename lo) d.

Lemma oldest_spec :
  has_segment d lo /\ 0 <= lo < windex /\ forall i, has_segment d i -> lo <= i.
Proof.
  unfold oldest_evictable in Hold. destruct Hok.
  pose proof (foldl_keep_min (filter (fun i => i <> write_segment_index s)
    (segment_entries d).*1) None) as H.
  change (fst <$> segment_entries d) with ((segment_entries d).*1) in Hold. rewrite Hold in H.
  destruct H as ([[Hne Hin]%list_elem_of_filter|?] & Hmin & _); [|done].
  assert (Hs : forall i, has_segment d i -> index_ok i /\ i <= write_segment_index s).
  { intros i Hi. apply (canonical_segment (write_segment_index s)) in Hi as (?&?&_); [done|lia|done]. }
  destruct (Hs lo Hin) as [[? _] ?].
  split; [done|]. split; [lia|]. intros i Hi.
  destruct (decide (i = write_segment_index s)) as [->|Hi']; [lia|].
  apply Hmin, list_elem_of_filter. done.
Qed.

Lemma evict_indices : index_ok lo /\ index_ok windex.
Proof.
  destruct oldest_spec as (_ & ? & _). destruct Hok. unfold index_ok in *. lia.
Qed.

Lemma evicted_lookup i :
  index_ok i -> i <> lo -> evicted_dir !! segment_filename i = d !! segment_filename i.
Proof.
  intros Hi Hne. unfold evicted_dir. apply lookup_delete_ne. intros E.
  apply segment_filename_inj in E; [done|apply evict_indices|done].
Qed.
Lemma evicted_data i : file_data evicted_dir i = file_data d i \/ file_data evicted_dir i = [].
Proof.
  unfold file_data, evicted_dir.
  destruct (decide (segment_filename lo = segment_filename i)) as [->|].
  - rewrite lookup_delete_eq. by right.
  - rewrite lookup_delete_ne by done. by left.
Qed.
Lemma evicted_gone : file_data evicted_dir lo = [].
Proof. unfold file_data, evicted_dir. by rewrite lookup_delete_eq. Qed.

Lemma below_empty i : 0 <= i < lo -> file_data d i = [].
Proof.
  intros Hi. destruct oldest_spec as (_ & Hlo & Hmin). destruct Hok.
  unfold file_data. destruct (d !! segment_filename i) as [x|] eqn:E; [|done].
  exfalso. assert (has_segment d i) as H%Hmin; [|lia].
  apply has_segment_spec. exists (segment_filename i), x. split; [done|].
  apply parse_segment_filename. unfold index_ok in *. lia.
Qed.
Lemma below_empty' i : 0 <= i < lo -> file_data evicted_dir i = [].
Proof. intros Hi. destruct (evicted_data i) as [->| ->]; [by apply below_empty|done]. Qed.
Lemma above_same i : lo < i <= windex -> file_data evicted_dir i = file_data d i.
Proof.
  intros Hi. unfold file_data. destruct evict_indices. rewrite evicted_lookup; [done| |lia].
  unfold index_ok in *. lia.
Qed.

Definition cut (q : list SpoolRecord) : list SpoolRecord :=
  drop (length q - length (survivors max d windex lo)) q.

Lemma evicted_unread seg off :
  position_ok d s seg off ->
  unread max evicted_dir windex seg off = cut (unread max d windex seg off).
Proof.
  intros (Hseg & Hal & _). destruct oldest_spec as (_ & ? & _). apply evict_unread; auto; try lia.
  - apply evicted_gone.
  - apply below_empty.
  - apply below_empty'.
  - apply above_same.
Qed.
Lemma evicted_unread_at seg off :
  0 <= seg <= lo -> unread max evicted_dir windex seg off = survivors max d windex lo.
Proof.
  intros Hseg. destruct oldest_spec as (_ & ? & _). apply evict_unread_at; auto; try lia.
  - apply evicted_gone.
  - apply below_empty'.
  - apply above_same.
Qed.
Lemma evicted_unread_next :
  unread max evicted_dir windex (lo + 1) 0 = survivors max d windex lo.
Proof.
  destruct oldest_spec as (_ & ? & _).
  unfold unread. rewrite <- whole_segments_cons by lia. apply survivors_ext. apply above_same.
Qed.

Lemma evicted_aligned seg off :
  aligned max d seg off -> aligned max evicted_dir seg off.
Proof.
  intros Hal. destruct (evicted_data seg) as [E|E].
  - by eapply aligned_ext; [symmetry|].
  - apply aligned_missing; [apply Hal|done].
Qed.

Lemma evicted_active : is_Some (evicted_dir !! segment_filename windex).
Proof.
  destruct oldest_spec as (Hlo & Hr & _). destruct evict_indices.
  rewrite evicted_lookup; [|done|lia]. destruct (ok_active _ _ Hok) as [?|(E & _)]; [done|].
  unfold has_segment in Hlo. rewrite E in Hlo. by apply not_elem_of_nil in Hlo.
Qed.

Lemma evicted_canonical : canonical windex evicted_dir.
Proof.
  eapply canonical_sub; [apply (ok_names _ _ Hok)|]. intros name data _ E.
  unfold evicted_dir in E. apply lookup_delete_Some in E as [_ E]. eauto.
Qed.

(** the oldest segment left is newer, and nothing lies between *)
Lemma evicted_min lo' :
  min_index evicted_dir = Some lo' ->
  lo < lo' <= windex /\ forall i, lo <= i < lo' -> file_data evicted_dir i = [].
Proof.
  intros [Hin Hmin]%min_index_Some. destruct oldest_spec as (_ & Hr & Hmin0).
  destruct evict_indices as [? Hw].
  apply (canonical_segment windex) in Hin as (Hi & Hle & [x Hx]);
    [|unfold index_ok in Hw; lia|apply evicted_canonical].
  assert (lo <= lo').
  { apply Hmin0, has_segment_spec. exists (segment_filename lo'), x.
    rewrite parse_segment_filename by done. split; [|done].
    unfold evicted_dir in Hx. by apply lookup_delete_Some in Hx as [_ ?]. }
  assert (lo' <> lo).
  { intros ->. unfold evicted_dir in Hx. by rewrite lookup_delete_eq in Hx. }
  split; [lia|]. intros i Hir. unfold file_data.
  destruct (evicted_dir !! segment_filename i) as [y|] eqn:E; [|done]. exfalso.
  assert (has_segment evicted_dir i) as Hs%Hmin; [|lia].
  apply has_segment_spec. exists (segment_filename i), y. split; [done|].
  apply parse_segment_filename. unfold index_ok in *. lia.
Qed.

Lemma evicted_entries :
  (S (length (segment_entries evicted_dir)) = length (segment_entries d))%nat.
Proof.
  destruct oldest_spec as (Hin & _ & _). destruct evict_indices as [Hi Hw].
  apply (canonical_segment windex) in Hin as (_ & _ & [x Hx]);
    [|unfold index_ok in Hw; lia|apply Hok].
  unfold evicted_dir. by rewrite (segment_entries_delete _ lo x d) by
    (done || by apply parse_segment_filename).
Qed.

(** the object after the round, and the directory the round leaves *)
Definition evict_head : HeadState :=
  reset_retry (set_position (lo + 1) 0 (head s)).
Definition evict_state : dir * SegmentSpool :=
  let s1 := set_stats (count_dropped (stats s)) s in
  if lo =? read_segment_index (head s)
  then (write_cursor evict_head evicted_dir, set_head evict_head s1)
  else (evicted_dir, s1).

(** the parts of the invariant both branches share *)
Lemma evict_ok_common (d' : dir) (s' : SegmentSpool) :
  (forall i, d' !! segment_filename i = evicted_dir !! segment_filename i) ->
  canonical windex d' ->
  config s' = config s -> write_segment_index s' = windex ->
  write_segment_bytes s' = write_segment_bytes s ->
  position_ok d' s' (read_segment_index (head s')) (read_offset (head s')) ->
  (have_pending_read (head s') = true -> pending_ok d' s') ->
  0 <= attempts (head s') < max_delivery_attempts (config s) ->
  (forall seg off, committed d' = Some (seg, off) -> position_ok d' s' seg off) ->
  (forall lo', min_index evicted_dir = Some lo' ->
     unread max evicted_dir windex (restart_position d' lo').1 (restart_position d' lo').2
     = queue d' s') ->
  min_index d' = min_index evicted_dir ->
  spool_ok d' s'.
Proof.
  intros Hl Hc Hcfg Hw Hb Hpos Hpend Hatt Hcm Hdur Hmin.
  destruct oldest_spec as (_ & Hr & _).
  assert (Hf : forall i, file_data d' i = file_data evicted_dir i)
    by (intros i; unfold file_data; by rewrite Hl).
  constructor; rewrite ?Hcfg, ?Hw, ?Hb; try done; try apply Hok.
  - rewrite Hf, above_same; [apply Hok|lia].
  - intros i. rewrite Hf. destruct (evicted_data i) as [->| ->]; [apply Hok|].
    rewrite zlen_nil. destruct (ok_config _ _ Hok). lia.
  - pose proof (ok_clean _ _ Hok). unfold segment_rest in *. rewrite Hf, above_same; [done|lia].
  - left. rewrite Hl. apply evicted_active.
  - rewrite Hmin. intros lo' Hlo'. rewrite <- (Hdur lo') by done. apply unread_ext.
    intros. apply Hf.
Qed.

Lemma cut_queue_position seg off :
  0 <= seg <= lo -> position_ok d s seg off ->
  cut (unread max d windex seg off) = survivors max d windex lo.
Proof. intros H Hp. rewrite <- evicted_unread by done. by apply evicted_unread_at. Qed.

(** The round that removes the segment being read. *)
Lemma evict_current :
  lo = read_segment_index (head s) ->
  let s' := set_head evict_head (set_stats (count_dropped (stats s)) s) in
  let d' := write_cursor evict_head evicted_dir in
  spool_ok d' s' /\ queue d' s' = cut (queue d s).
Proof.
  intros Hlo s' d'. destruct oldest_spec as (_ & Hr & _).
  destruct evict_indices as [Hi Hw].
  assert (Hl : forall i, d' !! segment_filename i = evicted_dir !! segment_filename i).
  { intros i. apply write_cursor_other; apply segment_filename_not_cursor. }
  assert (Hf : forall i, file_data d' i = file_data evicted_dir i).
  { intros i. unfold file_data. by rewrite Hl. }
  assert (Hcm : committed d' = Some (lo + 1, 0)).
  { apply (committed_text _ evict_head); unfold index_ok, u64_max in *; simpl; try lia.
    apply write_cursor_lookup. }
  assert (Hq : queue d' s' = survivors max d windex lo).
  { unfold queue. simpl. rewrite <- evicted_unread_next. apply unread_ext. intros. apply Hf. }
  assert (Hpos : position_ok d' s' (lo + 1) 0) by (apply position_start; simpl; lia).
  split.
  - apply evict_ok_common; simpl; try done.
    + eapply canonical_sub; [apply evicted_canonical|]. intros name data P E.
      unfold d' in E. rewrite write_cursor_other in E; [eauto|by intros ->|by intros ->].
    + destruct (ok_config _ _ Hok) as (_ & _ & ? & _). lia.
    + intros seg off E. rewrite Hcm in E. by simplify_eq.
    + intros lo' Hlo'. destruct (evicted_min lo' Hlo') as [Hlt Hgap].
      unfold restart_position. rewrite Hcm, Hq, <- evicted_unread_next.
      destruct (Z.ltb_spec (lo + 1) lo'); [|done]. simpl. symmetry.
      apply unread_skip; [lia|]. intros i Hii. apply Hgap. lia.
    + unfold min_index. assert (H : segment_entries d' ≡ₚ segment_entries evicted_dir)
        by apply segment_entries_write_cursor.
      destruct (has_segment_min evicted_dir windex) as [m Hm].
      { apply has_segment_spec. destruct evicted_active as [x Hx].
        exists (segment_filename windex), x. by rewrite parse_segment_filename. }
      fold (min_index d'). fold (min_index evicted_dir). rewrite Hm.
      apply min_index_Some in Hm as [Hm1 Hm2]. unfold has_segment in *.
      apply min_index_spec; unfold has_segment; [by rewrite H|].
      intros i. rewrite H. apply Hm2.
  - rewrite Hq. symmetry. unfold queue. destruct (have_pending_read (head s)) eqn:Hp.
    + destruct (ok_pending _ _ Hok Hp). apply cut_queue_position; [|done].
      destruct pend_pos. lia.
    + apply cut_queue_position; [lia|apply Hok].
Qed.

(** The round that removes a segment the cursor is not in. *)
Lemma evict_other :
  lo <> read_segment_index (head s) ->
  let s' := set_stats (count_dropped (stats s)) s in
  spool_ok evicted_dir s' /\ queue evicted_dir s' = cut (queue d s).
Proof.
  intros Hlo s'. destruct oldest_spec as (_ & Hr & Hmin0). destruct evict_indices as [Hi Hw].
  assert (Hposs : forall seg off, position_ok d s seg off -> position_ok evicted_dir s' seg off).
  { intros seg off (? & ? & Hend). split; [done|]. split; [by apply evicted_aligned|].
    simpl. intros ->. rewrite above_same by lia. by apply Hend. }
  assert (Hq : queue evicted_dir s' = cut (queue d s)).
  { unfold queue. simpl. destruct (have_pending_read (head s)) eqn:Hp;
      apply evicted_unread; [by apply ok_pending|apply Hok]. }
  assert (Hcm : committed evicted_dir = committed d).
  { unfold committed, evicted_dir. rewrite lookup_delete_ne; [done|].
    apply segment_filename_not_cursor. }
  split; [|done].
  apply evict_ok_common; simpl; try done.
  - apply evicted_canonical.
  - apply Hposs, Hok.
  - intros Hp. destruct (ok_pending _ _ Hok Hp).
    assert (Hrl : lo < read_segment_index (head s)).
    { assert (lo <= read_segment_index (head s)); [|lia]. apply Hmin0, has_segment_spec.
      destruct pend_file as [x Hx]. exists (segment_filename (read_segment_index (head s))), x.
      rewrite parse_segment_filename; [done|]. destruct (ok_pos _ _ Hok).
      unfold index_ok in *. lia. }
    pose proof (ok_pos _ _ Hok) as (Hs & Hal & _).
    assert (Hri : index_ok (read_segment_index (head s))) by (unfold index_ok in *; lia).
    assert (Hsame : file_data evicted_dir (read_segment_index (head s)) =
                    file_data d (read_segment_index (head s))) by (apply above_same; lia).
    constructor; simpl; try done.
    + by apply Hposs.
    + rewrite Hq, pend_front. destruct pend_frame as (o & Ho & Hseg).
      destruct (unread_survives max d windex lo (read_segment_index (head s)) o) as (pre & Hpre);
        [lia|done|].
      rewrite evicted_unread by apply Hok. unfold cut. rewrite Hpre.
      unfold unread at 2 5. rewrite Hseg. simpl. rewrite !length_app. simpl.
      unfold unread. rewrite !length_app.
      replace (_ - _)%nat with 0%nat by lia. replace (_ - _)%nat with 0%nat by lia. done.
    + rewrite evicted_lookup; [done|done|lia].
    + by rewrite Hsame.
    + unfold segment_unread. rewrite Hsame. destruct pend_frame as (o & Ho & Hseg).
      exists o. split; [by apply evicted_aligned|done].
  - apply Hok.
  - intros seg off. rewrite Hcm. intros H. by apply Hposs, Hok.
  - intros lo' Hlo'. destruct (evicted_min lo' Hlo') as [Hlt Hgap].
    rewrite Hq. assert (Hmin : min_index d = Some lo) by (apply min_index_spec; apply oldest_spec).
    rewrite <- (ok_durable _ _ Hok lo Hmin).
    assert (Hpp : position_ok d s (restart_position d lo).1 (restart_position d lo).2).
    { unfold restart_position. destruct (committed d) as [[cs co]|] eqn:E.
      - destruct (cs <? lo); simpl; [apply position_start; lia|]. by apply Hok.
      - apply position_start. simpl. lia. }
    rewrite <- evicted_unread by done.
    unfold restart_position in *. rewrite Hcm.
    destruct (committed d) as [[cs co]|].
    + destruct (Z.ltb_spec cs lo), (Z.ltb_spec cs lo'); simpl; try done; try lia.
      * symmetry. apply unread_skip; [lia|done].
      * symmetry. apply unread_skip; [lia|]. intros i Hii. apply Hgap. lia.
    + simpl. symmetry. apply unread_skip; [lia|done].
Qed.

Lemma evict_one :
  spool_ok evict_state.1 evict_state.2 /\
  queue evict_state.1 evict_state.2 = cut (queue d s) /\
  config evict_state.2 = config s /\ write_segment_index evict_state.2 = windex /\
  (S (length (segment_entries evict_state.1)) = length (segment_entries d))%nat.
Proof.
  unfold evict_state. pose proof evicted_entries as He.
  destruct (Z.eqb_spec lo (read_segment_index (head s))) as [E|E]; simpl.
  - destruct (evict_current E). rewrite segment_entries_write_cursor. done.
  - destruct (evict_other E). done.
Qed.
End EvictOne.

(** ** The eviction loop *)
Lemma oldest_none windex d :
  oldest_evictable windex d = None -> forall i, has_segment d i -> i = windex.
Proof.
  unfold oldest_evictable, has_segment. intros E i Hi.
  pose proof (foldl_keep_min (filter (fun i => i <> windex) (segment_entries d).*1) None) as H.
  change (fst <$> segment_entries d) with ((segment_entries d).*1) in E. rewrite E in H.
  destruct H as [_ H]. destruct (decide (i = windex)) as [|Hne]; [done|].
  assert (Hin : i ∈ filter (fun i => i <> windex) (segment_entries d).*1)
    by by apply list_elem_of_filter.
  rewrite H in Hin. by apply not_elem_of_nil in Hin.
Qed.

Lemma evict_refines fuel incoming d s :
  spool_ok d s -> (length (segment_entries d) < fuel)%nat ->
  exists d' s' k, evict_for_quota fuel incoming d s = Some (d', s') /\ spool_ok d' s' /\
    queue d' s' = drop k (queue d s) /\
    config s' = config s /\ write_segment_index s' = write_segment_index s /\
    (recompute_total_bytes d + incoming <= max_total_bytes (config s) -> k = 0%nat) /\
    (recompute_total_bytes d' + incoming <= max_total_bytes (config s) \/
     forall i, has_segment d' i -> i = write_segment_index s).
Proof.
  revert d s; induction fuel as [|fuel IH]; intros d s Hok Hf; [lia|].
  cbn [evict_for_quota].
  destruct (Z.leb_spec (recompute_total_bytes d + incoming) (max_total_bytes (config s))) as [Hq|Hq].
  { exists d, s, 0%nat. rewrite drop_0. auto 10. }
  destruct (oldest_evictable (write_segment_index s) d) as [lo|] eqn:Hold.
  2:{ exists d, s, 0%nat. rewrite drop_0. pose proof (oldest_none _ _ Hold). auto 10. }
  destruct (evict_one d s Hok lo Hold) as (Hok' & Hqueue & Hc & Hw & Hlen).
  destruct (IH _ _ Hok' ltac:(lia)) as (d' & s' & k & He & Hok'' & Hq' & Hc' & Hw' & _ & Hend).
  exists d', s'. rewrite Hqueue in Hq'. unfold cut in Hq'. rewrite drop_drop in Hq'.
  eexists. split; [|split; [done|split; [exact Hq'|]]].
  - rewrite <- He. unfold evict_state. simpl. by destruct (lo =? read_segment_index (head s)).
  - rewrite Hc', Hw', Hc, Hw in *. split; [done|]. split; [done|]. split; [lia|done].
Qed.

(** ** Appending a frame *)
Section AppendOne.
Context (d : dir) (s : SegmentSpool) (Hok : spool_ok d s).
Context (Hroom : write_segment_index s + 1 < 10 ^ 19).
Context (r : SpoolRecord) (Hr : record_ok (max_segment_bytes (config s)) r).

#[local] Abbreviation windex := (write_segment_index s).
#[local] Abbreviation max := (max_segment_bytes (config s)).

Definition record_bytes : Z := zlen (encode_frame r).
Definition rotates : bool :=
  (0 <? write_segment_bytes s) && (max <? write_segment_bytes s + record_bytes).
Definition next_windex : Z := if rotates then windex + 1 else windex.
Definition next_dir : dir :=
  <[segment_filename next_windex := file_data d next_windex ++ encode_frame r]> d.
Definition next_spool (t : SpoolStats) : SegmentSpool :=
  {| config := config s; write_segment_index := next_windex;
     write_segment_bytes := (if rotates then 0 else write_segment_bytes s) + record_bytes;
     head := head s; stats := t |}.

Lemma next_windex_range : windex <= next_windex <= windex + 1 /\ index_ok next_windex.
Proof.
  destruct (ok_windex _ _ Hok). unfold next_windex, index_ok.
  destruct rotates; lia.
Qed.
Lemma next_data_same i :
  segment_filename i <> segment_filename next_windex -> file_data next_dir i = file_data d i.
Proof. intros H. unfold file_data, next_dir. by rewrite lookup_insert_ne. Qed.
Lemma next_data_active :
  file_data next_dir next_windex = file_data d next_windex ++ encode_frame r.
Proof. unfold file_data at 1, next_dir. by rewrite lookup_insert_eq. Qed.
Lemma next_data_ne i : index_ok i -> i <> next_windex -> file_data next_dir i = file_data d i.
Proof.
  intros Hi Hne. apply next_data_same. intros E.
  apply segment_filename_inj in E; [done|done|apply next_windex_range].
Qed.
(** a rotation starts an empty file *)
Lemma rotated_empty : rotates = true -> file_data d next_windex = [].
Proof.
  intros E. unfold next_windex. rewrite E. unfold file_data.
  destruct (d !! segment_filename (windex + 1)) as [x|] eqn:H; [exfalso|done].
  destruct (ok_windex _ _ Hok).
  destruct (ok_names _ _ Hok _ _ (windex + 1) H); [|lia].
  apply parse_segment_filename. unfold index_ok. lia.
Qed.
Lemma next_clean : segment_rest max d next_windex 0 = [].
Proof.
  destruct rotates eqn:R.
  - unfold segment_rest. by rewrite rotated_empty.
  - unfold next_windex. rewrite R. apply Hok.
Qed.

(** the active segment gains the record *)
Lemma scan_next off :
  aligned max d next_windex off -> off <= zlen (file_data d next_windex) ->
  segment_unread max next_dir next_windex off = segment_unread max d next_windex off ++ [r] /\
  segment_rest max next_dir next_windex off = [].
Proof.
  intros (H0 & _ & Hrest) Hlen. unfold segment_unread, segment_rest in *.
  rewrite next_data_active, drop_app_le by (unfold zlen in Hlen; lia).
  destruct (scan max (drop (Z.to_nat off) (file_data d next_windex))) as [rs rest] eqn:E.
  simpl in Hrest. pose proof next_clean as Hclean. unfold segment_rest in Hclean.
  rewrite Hclean in Hrest. subst rest.
  rewrite (scan_app _ _ _ _ E), scan_encode by done. done.
Qed.
Lemma scan_next_start :
  segment_unread max next_dir next_windex 0 = segment_unread max d next_windex 0 ++ [r] /\
  segment_rest max next_dir next_windex 0 = [].
Proof. apply scan_next; [apply aligned_start|apply zlen_nonneg]. Qed.

Lemma whole_segments_next a :
  0 <= a <= windex + 1 ->
  whole_segments max next_dir a next_windex =
    if a <=? next_windex then whole_segments max d a windex ++ [r] else [].
Proof.
  intros Ha. destruct next_windex_range as [Hn Hi].
  destruct (Z.leb_spec a next_windex); [|by apply whole_segments_nil].
  rewrite whole_segments_last, (proj1 scan_next_start) by lia.
  assert (Hlow : whole_segments max next_dir a (next_windex - 1) =
                 whole_segments max d a (next_windex - 1)).
  { unfold whole_segments. f_equal. apply list_fmap_ext. intros k i [-> Hk]%lookup_seqZ.
    unfold segment_unread. rewrite next_data_ne; [done| |lia]. unfold index_ok in *. lia. }
  rewrite Hlow, app_assoc. f_equal. destruct rotates eqn:R.
  - rewrite segment_unread_empty, app_nil_r by by apply rotated_empty.
    unfold next_windex. rewrite R. f_equal. lia.
  - assert (Ew : next_windex = windex) by (unfold next_windex; by rewrite R). rewrite Ew in *.
    by rewrite <- whole_segments_last by lia.
Qed.

Lemma next_unread seg off :
  position_ok d s seg off ->
  unread max next_dir next_windex seg off = unread max d windex seg off ++ [r].
Proof.
  intros (Hseg & Hal & Hend). destruct next_windex_range as [Hn Hi]. unfold unread.
  rewrite whole_segments_next by lia.
  destruct (Z.leb_spec (seg + 1) next_windex) as [Hle|Hgt].
  - rewrite app_assoc. f_equal. f_equal. unfold segment_unread. rewrite next_data_ne; [done| |lia].
    unfold index_ok in *. lia.
  - assert (E : seg = next_windex) by lia. assert (Ew : next_windex = windex) by lia.
    rewrite (whole_segments_nil _ _ (seg + 1) windex) by lia. rewrite !app_nil_r.
    rewrite E in *. apply scan_next; [done|]. apply Hend. lia.
Qed.

Lemma next_position t seg off : position_ok d s seg off -> position_ok next_dir (next_spool t) seg off.
Proof.
  intros (Hseg & Hal & Hend). destruct next_windex_range as [Hn Hi].
  split; [simpl; lia|]. simpl. destruct (decide (seg = next_windex)) as [E|Hne].
  - assert (Ew : seg = windex) by lia. specialize (Hend Ew). rewrite E in *.
    destruct (scan_next off Hal Hend) as [Hu Hr']. destruct scan_next_start as [Hu0 Hr0].
    split.
    + destruct Hal as (? & Hs & _). split; [done|]. rewrite Hu, Hu0, Hr', Hr0.
      split; [by apply suffix_app|done].
    + intros _. rewrite next_data_active, zlen_app. pose proof (zlen_nonneg (encode_frame r)). lia.
  - split; [|done]. eapply aligned_ext; [|exact Hal]. symmetry. apply next_data_ne; [|done].
    destruct (ok_windex _ _ Hok). unfold index_ok. lia.
Qed.

Lemma next_committed : committed next_dir = committed d.
Proof.
  unfold committed, next_dir. rewrite lookup_insert_ne; [done|].
  apply segment_filename_not_cursor.
Qed.
Lemma next_has_segment i : has_segment next_dir i <-> has_segment d i \/ i = next_windex.
Proof.
  destruct next_windex_range as [_ Hi]. rewrite !has_segment_spec. unfold next_dir. split.
  - intros (name & x & E & P). apply lookup_insert_Some in E as [[<- _]|[_ E]]; [|eauto].
    rewrite parse_segment_filename in P by done. right. congruence.
  - intros [(name & x & E & P)| ->].
    + destruct (decide (segment_filename next_windex = name)) as [<-|].
      * exists (segment_filename next_windex). rewrite lookup_insert_eq. eauto.
      * exists name, x. by rewrite lookup_insert_ne.
    + exists (segment_filename next_windex). rewrite lookup_insert_eq.
      rewrite parse_segment_filename by done. eauto.
Qed.
Lemma next_canonical : canonical next_windex next_dir.
Proof.
  destruct next_windex_range as [? Hi]. intros name x i E P. unfold next_dir in E.
  apply lookup_insert_Some in E as [[<- _]|[_ E]].
  - rewrite parse_segment_filename in P by done. by simplify_eq.
  - destruct (ok_names _ _ Hok _ _ _ E P). split; [done|lia].
Qed.
Lemma next_bytes :
  (if rotates then 0 else write_segment_bytes s) + record_bytes =
    zlen (file_data next_dir next_windex) /\
  zlen (file_data next_dir next_windex) <= max.
Proof.
  rewrite next_data_active, zlen_app. fold record_bytes.
  assert (Hrb : record_bytes <= max).
  { unfold record_bytes. rewrite encode_frame_zlen. apply Hr. }
  destruct rotates eqn:R.
  - rewrite (rotated_empty R). change (zlen (@nil ascii)) with 0. lia.
  - assert (Ew : next_windex = windex) by (unfold next_windex; by rewrite R).
    rewrite Ew, <- (ok_bytes _ _ Hok). split; [done|].
    pose proof (zlen_nonneg (file_data d windex)). pose proof (ok_bytes _ _ Hok).
    unfold rotates in R. lia.
Qed.
Lemma next_queue t : queue next_dir (next_spool t) = queue d s ++ [r].
Proof.
  unfold queue. simpl. destruct (have_pending_read (head s)) eqn:Hp; apply next_unread;
    [by apply ok_pending|apply Hok].
Qed.
Lemma next_pending t : have_pending_read (head s) = true -> pending_ok next_dir (next_spool t).
Proof.
  intros Hp. destruct (ok_pending _ _ Hok Hp). destruct next_windex_range as [Hn Hi].
  pose proof (ok_pos _ _ Hok) as Hpos. pose proof Hpos as (Hseg & Hal & Hend).
  assert (Hri : index_ok (read_segment_index (head s))).
  { destruct (ok_windex _ _ Hok). unfold index_ok. lia. }
  constructor; simpl; try done.
  - by apply (next_position t).
  - rewrite next_queue, next_unread, pend_front by done. done.
  - destruct pend_file as [x Hx]. unfold next_dir.
    destruct (decide (segment_filename next_windex = segment_filename (read_segment_index (head s))))
      as [->|]; [rewrite lookup_insert_eq|rewrite lookup_insert_ne by done]; eauto.
  - destruct (decide (read_segment_index (head s) = next_windex)) as [E|].
    + rewrite E, next_data_active, zlen_app. pose proof (zlen_nonneg (encode_frame r)).
      rewrite E in pend_offset. lia.
    + by rewrite next_data_ne.
  - destruct pend_frame as (o & Ho & Hs). exists o.
    destruct (decide (read_segment_index (head s) = next_windex)) as [E|].
    + assert (Ho' : o <= zlen (file_data d (read_segment_index (head s)))).
      { destruct (Z.le_gt_cases o (zlen (file_data d (read_segment_index (head s))))); [done|].
        unfold segment_unread in Hs. rewrite drop_ge in Hs; [done|]. unfold zlen in *. lia. }
      destruct (next_position t (read_segment_index (head s)) o) as (_ & Ha & _).
      { split; [done|]. split; [done|]. done. }
      split; [exact Ha|]. rewrite E in *.
      rewrite (proj1 (scan_next o Ho Ho')), (proj1 (scan_next _ Hal pend_offset)), Hs. done.
    + unfold segment_unread. rewrite next_data_ne by done. split; [|done].
      eapply aligned_ext; [|exact Ho]. symmetry. by apply next_data_ne.
Qed.

Lemma next_durable t lo :
  min_index next_dir = Some lo ->
  unread max next_dir next_windex (restart_position next_dir lo).1 (restart_position next_dir lo).2
  = queue next_dir (next_spool t).
Proof.
  intros [Hin Hmin]%min_index_Some. destruct next_windex_range as [Hn Hi].
  rewrite next_queue. unfold restart_position. rewrite next_committed.
  fold (restart_position d lo). destruct (ok_active _ _ Hok) as [[x Hx]|(Ent & Hc & H1 & H2)].
  - assert (Hsw : has_segment d windex).
    { apply has_segment_spec. exists (segment_filename windex), x. split; [done|].
      apply parse_segment_filename. destruct (ok_windex _ _ Hok). unfold index_ok. lia. }
    assert (Hlo : min_index d = Some lo).
    { apply min_index_spec; [|intros i H; apply Hmin, next_has_segment; by left].
      apply next_has_segment in Hin as [?| ->]; [done|].
      assert (next_windex <= windex) by (apply Hmin, next_has_segment; by left).
      by assert (next_windex = windex) as -> by lia. }
    rewrite <- (ok_durable _ _ Hok lo Hlo). apply next_unread.
    destruct (min_index_Some _ _ Hlo) as [Hs _].
    apply (canonical_segment windex) in Hs as ([? _] & ? & _);
      [|destruct (ok_windex _ _ Hok); lia|apply Hok].
    unfold restart_position. destruct (committed d) as [[cs co]|] eqn:Ec.
    + destruct (cs <? lo); simpl; [by apply position_start|]. by apply Hok.
    + by apply position_start.
  - assert (Hlo : lo = next_windex).
    { apply next_has_segment in Hin as [Hs|]; [|done]. unfold has_segment in Hs.
      rewrite Ent in Hs. by apply not_elem_of_nil in Hs. }
    assert (Hmiss : d !! segment_filename windex = None).
    { destruct (d !! segment_filename windex) as [x|] eqn:E; [exfalso|done].
      assert (Hs : has_segment d windex); [|unfold has_segment in Hs; rewrite Ent in Hs;
        by apply not_elem_of_nil in Hs].
      apply has_segment_spec. exists (segment_filename windex), x. by rewrite H1 in *. }
    assert (Hwb : write_segment_bytes s = 0).
    { rewrite (ok_bytes _ _ Hok). unfold file_data. by rewrite Hmiss. }
    assert (Hw : next_windex = windex) by (unfold next_windex, rotates; rewrite Hwb; done).
    unfold restart_position. rewrite Hc. simpl. rewrite Hlo, Hw, <- Hw at 1.
    rewrite next_unread by (apply position_start; lia). f_equal. rewrite Hw.
    unfold queue. destruct (have_pending_read (head s)) eqn:Hp.
    { destruct (ok_pending _ _ Hok Hp). rewrite H2, <- H1, Hmiss in pend_file.
      by destruct pend_file. }
    pose proof (ok_pos _ _ Hok) as (_ & (Ho & _) & Hend). rewrite H2, <- H1 in *.
    unfold file_data in Hend. rewrite Hmiss in Hend. specialize (Hend eq_refl).
    simpl in Hend. rewrite zlen_nil in Hend. f_equal. lia.
Qed.

Lemma next_ok t : spool_ok next_dir (next_spool t).
Proof.
  destruct next_windex_range as [Hn [Hi0 Hi]]. destruct (ok_windex _ _ Hok) as [Hw1 Hw2].
  destruct next_bytes as [Hb Hbm].
  constructor; simpl; try done; try apply Hok.
  - lia.
  - apply next_canonical.
  - intros i. destruct (decide (segment_filename i = segment_filename next_windex)) as [E|E].
    + unfold file_data in *. by rewrite E.
    + rewrite next_data_same by done. apply Hok.
  - apply scan_next_start.
  - left. unfold next_dir. rewrite lookup_insert_eq. eauto.
  - apply (next_position t), Hok.
  - apply next_pending.
  - intros seg off. rewrite next_committed. intros E. by apply (next_position t), Hok.
  - intros lo. apply (next_durable t).
Qed.
End AppendOne.

(** ** Byte accounting *)
Lemma recompute_insert d i x :
  index_ok i ->
  recompute_total_bytes (<[segment_filename i := x]> d) =
    recompute_total_bytes d - zlen (file_data d i) + zlen x.
Proof.
  intros Hi. pose proof (parse_segment_filename i Hi) as P. unfold recompute_total_bytes.
  rewrite (segment_entries_delete _ i x _ P) by apply lookup_insert_eq.
  rewrite delete_insert_eq. unfold file_data.
  destruct (d !! segment_filename i) as [y|] eqn:E.
  - rewrite (segment_entries_delete _ i y d P E). rewrite !zsum_cons. simpl. lia.
  - rewrite delete_id, !zsum_cons by done. simpl. rewrite zlen_nil. lia.
Qed.
Lemma recompute_single d w :
  w < 10 ^ 19 -> canonical w d -> (forall i, has_segment d i -> i = w) ->
  recompute_total_bytes d <= zlen (file_data d w).
Proof.
  intros Hw Hc Hall.
  assert (Hnone : forall x, d !! segment_filename w = x ->
    segment_entries (delete (segment_filename w) d) = []).
  { intros x E. destruct (segment_entries (delete (segment_filename w) d)) as [|[i y] l] eqn:Es; [done|].
    exfalso. assert (Hs : has_segment (delete (segment_filename w) d) i).
    { unfold has_segment. rewrite Es. apply elem_of_cons. by left. }
    apply has_segment_spec in Hs as (name & z & [Hne Ez]%lookup_delete_Some & P).
    destruct (Hc _ _ _ Ez P) as [-> _]. assert (i = w) as ->; [|done].
    apply Hall, has_segment_spec. eauto. }
  unfold recompute_total_bytes, file_data.
  destruct (d !! segment_filename w) as [x|] eqn:E.
  - assert (Hin : has_segment d w \/ segment_entries d = []).
    { destruct (segment_entries d) as [|[i y] l] eqn:Es; [by right|left].
      assert (Hs : has_segment d i) by (unfold has_segment; rewrite Es; apply elem_of_cons; by left).
      by rewrite (Hall i Hs) in Hs. }
    destruct Hin as [Hin| ->]; [|rewrite zsum_nil; apply zlen_nonneg].
    apply (canonical_segment w) in Hin as (Hi & _); [|done|done].
    rewrite (segment_entries_delete _ w x d (parse_segment_filename w Hi) E).
    rewrite (Hnone _ eq_refl), zsum_cons, zsum_nil. simpl. lia.
  - rewrite <- (delete_id d (segment_filename w) E), (Hnone _ eq_refl), zsum_nil.
    apply zlen_nonneg.
Qed.

(** the contract of [append] *)
Definition append_contract (r : SpoolRecord) (d : dir) (s : SegmentSpool) : Prop :=
  let m := max_segment_bytes (config s) in
  let frame := 10 + slen (batch_id r) + slen (body r) in
  match append r d s with
  | Appended d' s' =>
      slen (batch_id r) <= 65535 /\ frame <= m /\ spool_ok d' s' /\
      (exists k, queue d' s' = drop k (queue d s) ++ [r] /\
         (recompute_total_bytes d + frame <= max_total_bytes (config s) -> k = 0%nat)) /\
      total_bytes (stats s') = recompute_total_bytes d' /\
      recompute_total_bytes d' <= Z.max (max_total_bytes (config s)) (2 * m)
  | Rejected e => what e <> "" /\ (65535 < slen (batch_id r) \/ m < frame)
  | HeapOverrun | EvictionDiverges => False
  end.

Lemma append_spec r d s :
  spool_ok d s -> write_segment_index s + 1 < 10 ^ 19 ->
  2 + slen (batch_id r) + slen (body r) <= u32_max -> append_contract r d s.
Proof.
  intros Hok Hroom Hu. cbv delta [append_contract] beta. intros m frame. unfold append.
  pose proof (slen_nonneg (batch_id r)). pose proof (slen_nonneg (body r)).
  rewrite u32_small by lia.
  destruct (Z.ltb_spec 65535 (slen (batch_id r))); [split; [done|lia]|].
  destruct (Z.ltb_spec (max_segment_bytes (config s))
    (4 + 4 + (2 + slen (batch_id r) + slen (body r)))); [split; [done|lia]|].
  destruct (evict_refines (evict_fuel d) (4 + 4 + (2 + slen (batch_id r) + slen (body r))) d s Hok)
    as (d1 & s1 & k & -> & Hok1 & Hq1 & Hc1 & Hw1 & Hk & Hquota); [unfold evict_fuel; lia|].
  rewrite Z.eqb_refl. cbn [negb].
  assert (Hr : record_ok (max_segment_bytes (config s1)) r).
  { rewrite Hc1. unfold record_ok. lia. }
  assert (Hb : 4 + 4 + (2 + slen (batch_id r) + slen (body r)) = record_bytes r).
  { unfold record_bytes. rewrite encode_frame_zlen. lia. }
  assert (Hroom1 : write_segment_index s1 + 1 < 10 ^ 19) by (rewrite Hw1; done).
  rewrite u64_small by (destruct (ok_windex _ _ Hok1); unfold u64_max; lia).
  rewrite Hb in *.
  change (if (0 <? write_segment_bytes s1) &&
    (max_segment_bytes (config s1) <? write_segment_bytes s1 + record_bytes r)
    then write_segment_index s1 + 1 else write_segment_index s1) with (next_windex s1 r).
  fold (rotates s1 r). fold (next_dir d1 s1 r).
  pose proof (next_ok d1 s1 Hok1 Hroom1 r Hr (set_count
    (Z.max 1 (next_windex s1 r - read_segment_index (head s1) + 1))
    (set_total (recompute_total_bytes (next_dir d1 s1 r)) (stats s1)))) as Hfin.
  pose proof (next_queue d1 s1 Hok1 Hroom1 r Hr (set_count
    (Z.max 1 (next_windex s1 r - read_segment_index (head s1) + 1))
    (set_total (recompute_total_bytes (next_dir d1 s1 r)) (stats s1)))) as Hqf.
  split; [done|]. split; [unfold frame, m; lia|]. split; [exact Hfin|].
  split; [|split; [done|]].
  - exists k. split; [by rewrite <- Hq1|]. unfold frame. intros. apply Hk. lia.
  - destruct (next_windex_range d1 s1 Hok1 Hroom1 r) as [_ Hni].
    unfold next_dir. rewrite recompute_insert, zlen_app by done. fold (record_bytes r).
    destruct Hquota as [Hle|Hall]; [lia|].
    pose proof (recompute_single d1 (write_segment_index s1)) as Hs.
    destruct (ok_windex _ _ Hok1). specialize (Hs ltac:(lia) (ok_names _ _ Hok1)).
    rewrite Hw1 in Hs. specialize (Hs Hall).
    pose proof (ok_sizes _ _ Hok1 (write_segment_index s)). rewrite Hc1 in *. unfold m. lia.
Qed.

(** C6: Appending.  With room in the 32-bit length field, [append] either rejects a
    record that cannot be framed (identifier over 65535 bytes, or frame larger
    than a segment) and changes nothing, or returns: the eviction loop has
    finished, the queue lost a prefix (nothing, when the quota had room) and
    gained exactly the new record at its end, the byte counter equals the bytes
    on disk, and the disk usage is bounded by the larger of the quota and two
    segments. *)
Theorem append_refines (r : SpoolRecord) (d : dir) (s : SegmentSpool) :
  spool_ok d s -> write_segment_index s + 1 < 10 ^ 19 ->
  2 + slen (batch_id r) + slen (body r) <= u32_max ->
  let m := max_segment_bytes (config s) in
  let frame := 10 + slen (batch_id r) + slen (body r) in
  match append r d s with
  | Appended d' s' =>
      slen (batch_id r) <= 65535 /\ frame <= m /\ spool_ok d' s' /\
      (exists k, queue d' s' = drop k (queue d s) ++ [r] /\
         (recompute_total_bytes d + frame <= max_total_bytes (config s) -> k = 0%nat)) /\
      total_bytes (stats s') = recompute_total_bytes d' /\
      recompute_total_bytes d' <= Z.max (max_total_bytes (config s)) (2 * m)
  | Rejected e => what e <> "" /\ (65535 < slen (batch_id r) \/ m < frame)
  | HeapOverrun | EvictionDiverges => False
  end.
Proof. exact (append_spec r d s). Qed.

(** ** Recovery *)
Lemma recover_active d s s0 lo :
  spool_ok d s -> is_Some (d !! segment_filename (write_segment_index s)) ->
  min_index d = Some lo ->
  write_segment_index (recover d s0) = write_segment_index s /\
  write_segment_bytes (recover d s0) = write_segment_bytes s /\
  (read_segment_index (head (recover d s0)), read_offset (head (recover d s0))) =
    restart_position d lo.
Proof.
  intros Hok [x Hx] Hmin. destruct (ok_windex _ _ Hok).
  assert (Hmax : max_index d = Some (write_segment_index s)).
  { apply max_index_spec.
    - apply has_segment_spec. exists (segment_filename (write_segment_index s)), x.
      rewrite parse_segment_filename; [done|unfold index_ok; lia].
    - intros i Hi. apply (canonical_segment (write_segment_index s)) in Hi as (_ & ? & _);
        [done|lia|apply Hok]. }
  unfold recover. rewrite Hmin, Hmax, load_cursor_committed. simpl.
  split; [done|]. split; [rewrite Hx, (ok_bytes _ _ Hok); unfold file_data; by rewrite Hx|].
  unfold restart_position. destruct (committed d) as [[cs co]|] eqn:E; simpl.
  - destruct (ok_committed _ _ Hok _ _ E) as [[_ Hle] _].
    destruct (Z.ltb_spec cs lo); simpl; [done|].
    by destruct (Z.ltb_spec (write_segment_index s) cs); [lia|].
  - destruct (Z.ltb_spec lo lo); [lia|]. simpl.
    by destruct (write_segment_index s <? lo).
Qed.

Lemma restart_position_ok d s lo :
  spool_ok d s -> min_index d = Some lo ->
  position_ok d s (restart_position d lo).1 (restart_position d lo).2.
Proof.
  intros Hok Hmin. destruct (min_index_Some _ _ Hmin) as [Hs _].
  apply (canonical_segment (write_segment_index s)) in Hs as ([? _] & ? & _);
    [|destruct (ok_windex _ _ Hok); lia|apply Hok].
  unfold restart_position. destruct (committed d) as [[cs co]|] eqn:E.
  - destruct (cs <? lo); simpl; [by apply position_start|by apply Hok].
  - by apply position_start.
Qed.

Lemma recover_empty d s :
  segment_entries d = [] ->
  recover d s = {| config := config s; write_segment_index := 1; write_segment_bytes := 0;
    head := reset_retry (set_position 1 0 (head s));
    stats := {| total_bytes := recompute_total_bytes d; segment_count := 0;
      dropped_for_quota := dropped_for_quota (stats s); dead_records := dead_records (stats s);
      corrupt_records_skipped := corrupt_records_skipped (stats s) |} |}.
Proof. intros E. unfold recover, min_index. by rewrite E. Qed.

Lemma file_data_no_segments d i : segment_entries d = [] -> index_ok i -> file_data d i = [].
Proof.
  intros E Hi. unfold file_data. destruct (d !! segment_filename i) as [x|] eqn:Ex; [|done].
  assert (Hs : has_segment d i).
  { apply has_segment_spec. exists (segment_filename i), x. by rewrite parse_segment_filename. }
  unfold has_segment in Hs. rewrite E in Hs. by apply not_elem_of_nil in Hs.
Qed.

(** A directory with no segment and no cursor opens as an empty queue. *)
Lemma recover_fresh_ok d s :
  valid_config (config s) -> segment_entries d = [] -> committed d = None ->
  (forall i, zlen (file_data d i) <= max_segment_bytes (config s)) ->
  spool_ok d (recover d s) /\ queue d (recover d s) = [].
Proof.
  intros Hc E Hcm Hsz. rewrite recover_empty by done.
  assert (H1 : file_data d 1 = []) by by apply file_data_no_segments.
  split.
  2:{ unfold queue. simpl. unfold unread. rewrite segment_unread_empty by done.
      by rewrite whole_segments_nil by lia. }
  constructor; simpl; try done.
  - intros name x i Ex P. exfalso. assert (Hs : has_segment d i) by (apply has_segment_spec; eauto).
    unfold has_segment in Hs. rewrite E in Hs. by apply not_elem_of_nil in Hs.
  - by rewrite H1.
  - unfold segment_rest. by rewrite H1.
  - by right.
  - by apply position_start.
  - destruct Hc as (_ & _ & ? & _). lia.
  - rewrite Hcm. done.
  - unfold min_index. rewrite E. done.
Qed.

Lemma recover_spec (d : dir) (s s0 : SegmentSpool) :
  spool_ok d s -> config s0 = config s ->
  spool_ok d (recover d s0) /\ queue d (recover d s0) = queue d s /\
  attempts (head (recover d s0)) = 0 /\ have_pending_read (head (recover d s0)) = false.
Proof.
  intros Hok Hc0. assert (Hreset : attempts (head (recover d s0)) = 0 /\
    have_pending_read (head (recover d s0)) = false).
  { unfold recover. destruct (min_index d), (max_index d); done. }
  destruct (ok_active _ _ Hok) as [Hact|(E & Hcm & Hw & Hseg)].
  - destruct (has_segment_min d (write_segment_index s)) as [lo Hmin].
    { destruct Hact as [x Hx]. apply has_segment_spec.
      exists (segment_filename (write_segment_index s)), x.
      rewrite parse_segment_filename; [done|]. destruct (ok_windex _ _ Hok).
      unfold index_ok; lia. }
    destruct (recover_active d s s0 lo Hok Hact Hmin) as (Hw & Hb & Hp).
    pose proof (restart_position_ok d s lo Hok Hmin) as Hpos.
    rewrite <- Hp in Hpos. simpl in Hpos.
    assert (Hc : config (recover d s0) = config s).
    { unfold recover. by destruct (min_index d), (max_index d). }
    destruct Hreset as [Ha Hn].
    assert (Hq : queue d (recover d s0) = queue d s).
    { rewrite <- (ok_durable _ _ Hok lo Hmin). unfold queue. rewrite Hn, Hc, Hw.
      rewrite <- Hp. done. }
    split; [|done].
    constructor; rewrite ?Hc, ?Hw, ?Hb, ?Ha; try apply Hok; try done.
    + by left.
    + unfold position_ok in *. by rewrite Hc, Hw.
    + by rewrite Hn.
    + destruct (ok_config _ _ Hok) as (_ & _ & ? & _). lia.
    + intros seg off Ec. pose proof (ok_committed _ _ Hok _ _ Ec) as H.
      unfold position_ok in *. by rewrite Hc, Hw.
    + rewrite Hq. apply Hok.
  - destruct (recover_fresh_ok d s0) as [H1 H2]; rewrite ?Hc0; try apply Hok; try done.
    split; [done|]. split; [|done]. rewrite H2. unfold queue.
    destruct (have_pending_read (head s)) eqn:Hp.
    + destruct (ok_pending _ _ Hok Hp). destruct pend_file as [x Hx].
      rewrite Hseg in Hx. pose proof (file_data_no_segments d 1 E ltac:(done)) as Hd.
      exfalso. assert (Hs : has_segment d 1).
      { apply has_segment_spec. exists (segment_filename 1), x. by rewrite Hx. }
      unfold has_segment in Hs. rewrite E in Hs. by apply not_elem_of_nil in Hs.
    + unfold unread. rewrite Hseg, Hw, segment_unread_empty by by apply file_data_no_segments.
      by rewrite whole_segments_nil by lia.
Qed.

(** C7: Recovery.  After a crash between two operations, recovery rebuilds from the
    directory alone, in a new object [s0] with the same configuration, a well-formed spool that holds exactly the same queue, with
    the retry state of the front record reset. *)
Theorem recover_refines (d : dir) (s s0 : SegmentSpool) :
  spool_ok d s -> config s0 = config s ->
  spool_ok d (recover d s0) /\ queue d (recover d s0) = queue d s /\
  attempts (head (recover d s0)) = 0 /\ have_pending_read (head (recover d s0)) = false.
Proof. exact (recover_spec d s s0). Qed.
