(* ===== verification/SpoolRuns.v ===== *)
(** * Executions of the spool

    Runs of the spool as sequences of operations and crashes, the contract of
    such runs, the crash points inside a commit, and what happens to a segment
    whose last frame was torn. *)

From S2P Require Import Prelude Crc32 Spool SpoolFrames SpoolQueue SpoolDurable.

(** ** Runs

    [spool_run d s appended delivered]: the object [s] over the directory [d] is
    reached from an empty directory by operations and crashes; [appended] are
    the accepted records and [delivered] those reported delivered, in order. *)
Inductive spool_run (c : SpoolConfig) :
  dir -> SegmentSpool -> list SpoolRecord -> list SpoolRecord -> Prop :=
| run_start s0 :
    config s0 = c -> spool_run c ∅ (recover ∅ s0) [] []
| run_append d s app dlv r d' s' :
    spool_run c d s app dlv ->
    write_segment_index s + 1 < 10 ^ 19 -> 2 + slen (batch_id r) + slen (body r) <= u32_max ->
    append r d s = Appended d' s' ->
    spool_run c d' s' (app ++ [r]) dlv
| run_peek d s app dlv now o s' :
    spool_run c d s app dlv -> peek_ready now d s = Some (o, s') ->
    spool_run c d s' app dlv
| run_report d s app dlv now ok :
    spool_run c d s app dlv -> have_pending_read (head s) = true ->
    spool_run c (report_outcome now ok d s).1 (report_outcome now ok d s).2 app
      (if ok : bool then dlv ++ [pending (head s)] else dlv)
| run_crash d s app dlv s0 :
    spool_run c d s app dlv -> config s0 = c ->
    spool_run c d (recover d s0) app dlv.

(** the abstract specification: what left the queue, and what it still holds *)
Definition run_spec (c : SpoolConfig) (d : dir) (s : SegmentSpool)
    (app dlv : list SpoolRecord) : Prop :=
  spool_ok d s /\ config s = c /\
  exists gone, app = gone ++ queue d s /\ dlv `sublist_of` gone.

Lemma evict_config fuel n d s d' s' :
  evict_for_quota fuel n d s = Some (d', s') -> config s' = config s.
Proof.
  revert d s; induction fuel as [|fuel IH]; intros d s; cbn [evict_for_quota];
    destruct (_ <=? _); try (by intros [= <- <-]);
    destruct (oldest_evictable _ _) as [lo|]; try done; try (by intros [= <- <-]).
  destruct (lo =? _); intros E; by rewrite (IH _ _ E).
Qed.
Lemma append_config r d s d' s' : append r d s = Appended d' s' -> config s' = config s.
Proof.
  unfold append. destruct (65535 <? _); [done|]. destruct (_ <? _); [done|].
  destruct (evict_for_quota _ _ d s) as [[d1 s1]|] eqn:E; [|done].
  destruct (negb _); [done|]. intros [= <- <-]. simpl. by eapply evict_config.
Qed.

Lemma run_simulates c d s app dlv :
  valid_config c -> spool_run c d s app dlv -> run_spec c d s app dlv.
Proof.
  intros Hc Hrun. induction Hrun as [s0 E|d s app dlv r d' s' _ IH Hw Hu Ha
    |d s app dlv now o s' _ IH Hp|d s app dlv now ok _ IH Hp|d s app dlv s0 _ IH E].
  - assert (Hcs : valid_config (config s0)) by by rewrite E.
    destruct (recover_fresh_ok ∅ s0 Hcs) as [H1 H2]; try done.
    { intros i. unfold file_data. rewrite lookup_empty. simpl. change (zlen (@nil ascii)) with 0.
      destruct Hcs as [? _]. lia. }
    split; [done|]. split; [done|]. exists []. by rewrite H2.
  - destruct IH as (Hok & Hcfg & gone & -> & Hsub).
    pose proof (append_spec r d s Hok Hw Hu) as H. unfold append_contract in H. rewrite Ha in H.
    destruct H as (_ & _ & Hok' & (k & Hq & _) & _).
    assert (Hcfg' : config s' = config s).
    { by apply (append_config r d s d' s'). }
    split; [done|]. split; [congruence|]. exists (gone ++ take k (queue d s)).
    rewrite Hq, <- (take_drop k (queue d s)) at 1. rewrite <- !app_assoc.
    split; [done|]. by apply sublist_inserts_r.
  - destruct IH as (Hok & Hcfg & gone & -> & Hsub).
    destruct (peek_refines now d s Hok) as (o' & s'' & E & Hok' & Hq & _ & _).
    rewrite Hp in E. injection E as <- <-.
    split; [done|]. split.
    + unfold peek_ready in Hp. by repeat case_match; simplify_eq.
    + exists gone. by rewrite Hq.
  - destruct IH as (Hok & Hcfg & gone & -> & Hsub).
    pose proof (report_spec now ok d s Hok Hp) as H. unfold report_contract in H.
    assert (Hcfg' : config (report_outcome now ok d s).2 = config s).
    { unfold report_outcome. by repeat case_match. }
    destruct (report_outcome now ok d s) as [d' s']. simpl in *.
    destruct H as (Hok' & _ & Hq & _). split; [done|]. split; [congruence|].
    destruct (ok_pending _ _ Hok Hp) as [_ _ Hf _ _ _]. rewrite Hf in *. simpl in Hq.
    destruct ok; simpl in Hq.
    + exists (gone ++ [pending (head s)]). rewrite Hq, <- app_assoc. split; [done|].
      by apply sublist_app.
    + destruct (max_delivery_attempts (config s) <=? attempts (head s) + 1).
      * exists (gone ++ [pending (head s)]). rewrite Hq, <- app_assoc. split; [done|].
        by apply sublist_inserts_r.
      * exists gone. by rewrite Hq.
  - destruct IH as (Hok & Hcfg & gone & -> & Hsub).
    destruct (recover_spec d s s0 Hok) as (Hok' & Hq & _); [congruence|].
    split; [done|]. split.
    + unfold recover. by destruct (min_index d), (max_index d).
    + exists gone. by rewrite Hq.
Qed.


(** ** A concrete run *)
Definition sample_object : SegmentSpool := {|
  config := sample_config; write_segment_index := 0; write_segment_bytes := 0;
  head := fresh_head; stats := fresh_stats |}.
Definition rec_a : SpoolRecord := {| batch_id := "a"; body := "first" |}.
Definition rec_b : SpoolRecord := {| batch_id := "b"; body := "second" |}.
Definition opened : dir * SegmentSpool := (∅, recover ∅ sample_object).
Definition appending (r : SpoolRecord) (x : dir * SegmentSpool) : dir * SegmentSpool :=
  match append r x.1 x.2 with Appended d s => (d, s) | _ => x end.
Definition peeking (now : Z) (x : dir * SegmentSpool) : dir * SegmentSpool :=
  match peek_ready now x.1 x.2 with Some (_, s) => (x.1, s) | None => x end.
Definition reporting (now : Z) (ok : bool) (x : dir * SegmentSpool) : dir * SegmentSpool :=
  report_outcome now ok x.1 x.2.
Definition restarting (x : dir * SegmentSpool) : dir * SegmentSpool :=
  (x.1, recover x.1 sample_object).

Definition is_appended (res : append_result) : bool :=
  match res with Appended _ _ => true | _ => false end.
Lemma run_appending c r x app dlv :
  spool_run c x.1 x.2 app dlv -> (write_segment_index x.2 + 1 <? 10 ^ 19) = true ->
  (2 + slen (batch_id r) + slen (body r) <=? u32_max) = true ->
  is_appended (append r x.1 x.2) = true ->
  spool_run c (appending r x).1 (appending r x).2 (app ++ [r]) dlv.
Proof.
  intros Hrun Hw Hu Ha. unfold appending. destruct (append r x.1 x.2) eqn:E; try done.
  eapply run_append; [exact Hrun|lia|lia|exact E].
Defined.
Lemma run_peeking c now x app dlv :
  spool_run c x.1 x.2 app dlv -> spool_run c (peeking now x).1 (peeking now x).2 app dlv.
Proof.
  intros Hrun. unfold peeking. destruct (peek_ready now x.1 x.2) as [[o s']|] eqn:E; [|done].
  eapply run_peek; [exact Hrun|exact E].
Defined.

Definition two_records : dir * SegmentSpool := appending rec_b (appending rec_a opened).
Lemma sample_pending :
  spool_run sample_config (peeking 0 two_records).1 (peeking 0 two_records).2 [rec_a; rec_b] [].
Proof.
  apply run_peeking. apply (run_appending _ rec_b _ [rec_a]); [|vm_compute; reflexivity..].
  apply (run_appending _ rec_a _ []); [|vm_compute; reflexivity..].
  by apply run_start.
Defined.
Lemma sample_pending_ok : spool_ok (peeking 0 two_records).1 (peeking 0 two_records).2.
Proof. apply (run_simulates _ _ _ _ _ sample_config_valid sample_pending). Defined.
Definition sample_run : dir * SegmentSpool :=
  restarting (reporting 0 true (peeking 0 two_records)).
Lemma sample_run_run :
  spool_run sample_config sample_run.1 sample_run.2 [rec_a; rec_b] [rec_a].
Proof.
  pose proof (run_report sample_config _ _ _ _ 0 true sample_pending) as H.
  assert (Hp : have_pending_read (head (peeking 0 two_records).2) = true)
    by (vm_compute; reflexivity).
  specialize (H Hp).
  assert (Hr : pending (head (peeking 0 two_records).2) = rec_a) by (vm_compute; reflexivity).
  rewrite Hr in H. exact (run_crash _ _ _ _ _ sample_object H eq_refl).
Defined.

(** Peeking.  In a well-formed spool the read loop always finishes, and
    [peek_ready] shows the front record of the queue exactly when a record is
    already out or the retry time has come; it never changes the queue, and the
    record it shows is the one the next outcome report is about. *)
Theorem peek_ready_refines (now : Z) (d : dir) (s : SegmentSpool) :
  spool_ok d s ->
  exists o s', peek_ready now d s = Some (o, s') /\ spool_ok d s' /\ queue d s' = queue d s /\
    o = (if have_pending_read (head s) || (next_attempt_at_ms (head s) <=? now)
         then hd_error (queue d s) else None) /\
    (o <> None -> have_pending_read (head s') = true /\ o = Some (pending (head s'))).
Proof. exact (peek_refines now d s). Qed.
Lemma peek_ready_refines_witness :
  let x := peeking 0 two_records in
  hd_error (queue x.1 x.2) = Some rec_a /\
  exists o s', peek_ready 5 x.1 x.2 = Some (o, s') /\ spool_ok x.1 s' /\
    queue x.1 s' = queue x.1 x.2 /\
    o = (if have_pending_read (head x.2) || (next_attempt_at_ms (head x.2) <=? 5)
         then hd_error (queue x.1 x.2) else None) /\
    (o <> None -> have_pending_read (head s') = true /\ o = Some (pending (head s'))).
Proof.
  intros x. split; [vm_compute; reflexivity|].
  exact (peek_ready_refines 5 x.1 x.2 sample_pending_ok).
Defined.

Lemma report_outcome_refines_witness :
  let x := peeking 0 two_records in
  let y := report_outcome 7 false x.1 x.2 in
  attempts (head y.2) = 1 /\ next_attempt_at_ms (head y.2) = 1007 /\
  report_contract 7 false x.1 x.2.
Proof.
  intros x y. split; [vm_compute; reflexivity|]. split; [vm_compute; reflexivity|].
  refine (report_outcome_refines 7 false x.1 x.2 sample_pending_ok _).
  vm_compute. reflexivity.
Defined.
Lemma append_refines_witness :
  let x := peeking 0 two_records in
  is_appended (append rec_a x.1 x.2) = true /\ append_contract rec_a x.1 x.2.
Proof.
  intros x. split; [vm_compute; reflexivity|].
  refine (append_refines rec_a x.1 x.2 sample_pending_ok _ _);
    [vm_compute; reflexivity|vm_compute; discriminate].
Defined.
Lemma recover_refines_witness :
  let x := peeking 0 two_records in
  queue x.1 (recover x.1 sample_object) = [rec_a; rec_b] /\
  (spool_ok x.1 (recover x.1 sample_object) /\
   queue x.1 (recover x.1 sample_object) = queue x.1 x.2 /\
   attempts (head (recover x.1 sample_object)) = 0 /\
   have_pending_read (head (recover x.1 sample_object)) = false).
Proof.
  intros x. split; [vm_compute; reflexivity|].
  refine (recover_refines x.1 x.2 sample_object sample_pending_ok _). vm_compute. reflexivity.
Defined.

(** ** Crash points inside a commit *)
Lemma write_tmp_other h d name : name <> cursor_tmp_name -> write_tmp h d !! name = d !! name.
Proof. intros H. unfold write_tmp. by rewrite lookup_insert_ne. Qed.
Lemma write_tmp_ok h d s : spool_ok d s -> spool_ok (write_tmp h d) s /\ queue (write_tmp h d) s = queue d s.
Proof.
  intros Hok. set (d' := write_tmp h d).
  assert (Hl : forall i, d' !! segment_filename i = d !! segment_filename i).
  { intros i. apply write_tmp_other, segment_filename_not_cursor. }
  assert (Hf : forall i, file_data d' i = file_data d i)
    by (intros i; unfold file_data; by rewrite Hl).
  assert (Hcm : committed d' = committed d) by (unfold committed, d'; by rewrite write_tmp_other).
  assert (Hp : segment_entries d' ≡ₚ segment_entries d) by by apply segment_entries_insert_other.
  assert (Hmin : min_index d' = min_index d).
  { destruct (min_index d) as [m|] eqn:E.
    - apply min_index_Some in E as [H1 H2]. unfold has_segment in *.
      apply min_index_spec; unfold has_segment; [by rewrite Hp|].
      intros i. rewrite Hp. apply H2.
    - destruct (min_index d') as [m|] eqn:E'; [|done].
      apply min_index_Some in E' as [H1 _]. unfold has_segment in H1. rewrite Hp in H1.
      destruct (has_segment_min d m H1). congruence. }
  assert (Hun : forall seg off, unread (max_segment_bytes (config s)) d' (write_segment_index s) seg off
    = unread (max_segment_bytes (config s)) d (write_segment_index s) seg off)
    by (intros; apply unread_ext; intros; apply Hf).
  assert (Hq : queue d' s = queue d s) by (unfold queue; destruct (have_pending_read (head s)); apply Hun).
  assert (Hal : forall seg off, aligned (max_segment_bytes (config s)) d seg off ->
    aligned (max_segment_bytes (config s)) d' seg off) by (intros; eapply aligned_ext; [symmetry; apply Hf|done]).
  assert (Hpos : forall seg off, position_ok d s seg off -> position_ok d' s seg off).
  { intros seg off (? & ? & ?). split; [done|]. rewrite Hf. auto. }
  split; [|done]. destruct Hok. constructor; rewrite ?Hl, ?Hf, ?Hcm; auto.
  - eapply canonical_sub; [done|]. intros name x P E. unfold d' in E.
    rewrite write_tmp_other in E; [eauto|by intros ->].
  - intros i. by rewrite Hf.
  - unfold segment_rest in *. by rewrite Hf.
  - destruct ok_active as [?|(E & ?)]; [by left|right]. split; [|done].
    rewrite E in Hp. by apply Permutation_nil_r in Hp.
  - intros H. destruct (ok_pending H). constructor; rewrite ?Hl, ?Hf, ?Hq, ?Hun; auto.
    destruct pend_frame as (o & Ho & Hs). exists o. unfold segment_unread in *. rewrite Hf. auto.
  - rewrite Hmin. intros lo Hlo. unfold restart_position in *. rewrite Hcm, Hun, Hq. auto.
Qed.

(** C8: A crash while a delivered record is being committed is harmless at every
    point: before the rename of the cursor file the recovered queue still has
    the record at its front (it will be delivered again), and from the rename
    on, whichever of the segment files behind the cursor have been removed, the
    recovered queue is the rest. *)
Theorem commit_crash_atomic (d : dir) (s s0 : SegmentSpool) (removed : string -> bool) :
  spool_ok d s -> have_pending_read (head s) = true -> config s0 = config s ->
  (forall name, removed name = true -> behind (read_segment_index (head s)) name = true) ->
  let torn := write_tmp (reset_retry (head s)) d in
  let renamed := remove_files removed (write_cursor (reset_retry (head s)) d) in
  queue torn (recover torn s0) = queue d s /\
  hd_error (queue torn (recover torn s0)) = Some (pending (head s)) /\
  queue renamed (recover renamed s0) = tail (queue d s).
Proof.
  intros Hok Hp Hc Hrem torn renamed.
  destruct (write_tmp_ok (reset_retry (head s)) d s Hok) as [Hok1 Hq1].
  destruct (recover_spec torn s s0 Hok1 Hc) as (_ & Hq & _).
  pose proof (commit_ok d s Hok Hp removed Hrem (stats s)) as Hok2.
  destruct (recover_spec _ _ s0 Hok2 Hc) as (_ & Hq2 & _).
  rewrite (commit_queue d s Hok Hp removed Hrem) in Hq2.
  rewrite Hq. unfold torn. rewrite Hq1. split; [done|]. split; [|exact Hq2].
  destruct (ok_pending _ _ Hok Hp) as [_ _ Hf _ _ _]. by rewrite Hf.
Qed.
Lemma commit_crash_atomic_witness :
  let x := peeking 0 two_records in
  let torn := write_tmp (reset_retry (head x.2)) x.1 in
  let renamed := remove_files (fun _ => false) (write_cursor (reset_retry (head x.2)) x.1) in
  queue torn (recover torn sample_object) = queue x.1 x.2 /\
  hd_error (queue torn (recover torn sample_object)) = Some (pending (head x.2)) /\
  queue renamed (recover renamed sample_object) = tail (queue x.1 x.2).
Proof.
  intros x torn renamed.
  refine (commit_crash_atomic x.1 x.2 sample_object (fun _ => false) sample_pending_ok _ _ _);
    [vm_compute; reflexivity|vm_compute; reflexivity|discriminate].
Defined.

(** ** A torn append *)
Definition torn_config : SpoolConfig := {|
  max_segment_bytes := 1000; max_total_bytes := 2000; max_delivery_attempts := 3;
  base_backoff_ms := 1000; max_backoff_ms := 300000 |}.
Definition torn_object : SegmentSpool := {|
  config := torn_config; write_segment_index := 0; write_segment_bytes := 0;
  head := fresh_head; stats := fresh_stats |}.
Definition rec_long : SpoolRecord :=
  {| batch_id := "b"; body := "a body of some forty characters or more" |}.
(** the process dies after [n] bytes of a frame reached the active segment *)
Definition torn_append (n : nat) (r : SpoolRecord) (x : dir * SegmentSpool) : dir :=
  let w := write_segment_index x.2 in
  <[segment_filename w := file_data x.1 w ++ take n (encode_frame r)]> x.1.
Definition after_tear : dir * SegmentSpool :=
  let x := appending rec_a (∅, recover ∅ torn_object) in
  let d := torn_append 20 rec_long x in
  (d, recover d torn_object).

(** A crash in the middle of an append leaves a partial frame at the end of
    the active segment; recovery keeps appending behind it.  A record accepted
    afterwards is then swallowed by the partial frame: with [rec_a] stored, a
    torn frame, and [rec_b] accepted after the restart, the spool delivers
    [rec_a] and then reports that nothing is left. *)
Theorem torn_tail_swallows_append :
  let x := after_tear in
  let y := appending rec_b x in
  let z := reporting 0 true (peeking 0 y) in
  is_appended (append rec_b x.1 x.2) = true /\
  fst <$> peek_ready 0 y.1 y.2 = Some (Some rec_a) /\
  fst <$> peek_ready 0 z.1 z.2 = Some None.
Proof. vm_compute. auto. Qed.
