(* ===== verification/Json.v ===== *)
(** * JSON documents

    What the agent uses of [nlohmann::json]: the document type with its
    separate signed, unsigned and floating number kinds, member access that
    throws, conversions, and value equality.  Objects are [std::map]s: their
    members are kept sorted by key, each key once.  Parsing and printing text
    belong to the library and are parameters where they are used. *)

From Stdlib Require Export QArith.
From S2P Require Import Prelude.
#[global] Open Scope Z_scope.

#[warnings="-register-all"]
Inductive json :=
| JNull
| JBool (b : bool)
| JInt (z : Z)
| JUint (z : Z)
| JFloat (q : Q)
| JStr (s : string)
| JArr (l : list json)
| JObj (members : list (string * json)).

#[global] Instance Q_eq_dec : EqDecision Q.
Proof. solve_decision. Defined.
#[global] Instance json_eq_dec : EqDecision json.
Proof.
  refine (fix go (a b : json) : Decision (a = b) :=
    match a, b with
    | JNull, JNull => left eq_refl
    | JBool x, JBool y => cast_if (decide (x = y))
    | JInt x, JInt y => cast_if (decide (x = y))
    | JUint x, JUint y => cast_if (decide (x = y))
    | JFloat x, JFloat y => cast_if (decide (x = y))
    | JStr x, JStr y => cast_if (decide (x = y))
    | JArr l, JArr k => cast_if (@list_eq_dec _ go l k)
    | JObj l, JObj k => cast_if (@list_eq_dec _ (@prod_eq_dec _ _ _ go) l k)
    | _, _ => right _
    end); clear go; congruence.
Defined.

(** ** Members *)
Fixpoint find_member (k : string) (l : list (string * json)) : option json :=
  match l with
  | [] => None
  | (k', v) :: l => if String.eqb k k' then Some v else find_member k l
  end.
Definition find (k : string) (j : json) : option json :=
  match j with JObj l => find_member k l | _ => None end.
Definition contains (k : string) (j : json) : bool :=
  match find k j with Some _ => true | None => false end.
(** [j[n]] of a member that is known to exist *)
Definition member (n : string) (j : json) : json := default JNull (find n j).
(** [j.at(k)]: throws on a value that is not an object and on a missing key *)
Definition at_ (k : string) (j : json) : result json :=
  match j with
  | JObj l => of_option (find_member k l) (json_exception "key not found")
  | _ => Throw (json_exception "cannot use at() with a non-object")
  end.
(** [j.value(k, dflt)] for a [json] default: throws on a non-object *)
Definition value_json (k : string) (dflt : json) (j : json) : result json :=
  match j with
  | JObj l => Ok (default dflt (find_member k l))
  | _ => Throw (json_exception "cannot use value() with a non-object")
  end.
(** [j.get<std::string>()] *)
Definition get_string (j : json) : result string :=
  match j with JStr s => Ok s | _ => Throw (json_exception "type must be string") end.
(** [j.value(k, std::string{})]: also throws when the member is not a string *)
Definition value_string (k : string) (j : json) : result string :=
  match j with
  | JObj l => match find_member k l with Some v => get_string v | None => Ok "" end
  | _ => Throw (json_exception "cannot use value() with a non-object")
  end.

(** ** Kinds and numbers *)
Definition is_object (j : json) : bool := match j with JObj _ => true | _ => false end.
Definition is_array (j : json) : bool := match j with JArr _ => true | _ => false end.
Definition is_string (j : json) : bool := match j with JStr _ => true | _ => false end.
Definition is_null (j : json) : bool := match j with JNull => true | _ => false end.
Definition is_boolean (j : json) : bool := match j with JBool _ => true | _ => false end.
Definition is_number_unsigned (j : json) : bool := match j with JUint _ => true | _ => false end.
Definition is_number_integer (j : json) : bool :=
  match j with JInt _ | JUint _ => true | _ => false end.
(** [static_cast<std::int64_t>] of a 64-bit value *)
Definition i64 (z : Z) : Z := let w := u64 z in if w <=? i64_max then w else w - 18446744073709551616.
(** [j.get<std::int64_t>()], [j.get<std::uint64_t>()] on an integer value *)
Definition get_i64 (j : json) : Z :=
  match j with JInt z | JUint z => i64 z | _ => 0 end.
Definition get_u64 (j : json) : Z :=
  match j with JInt z | JUint z => u64 z | _ => 0 end.
(** [j.size()] *)
Definition size_ (j : json) : Z :=
  match j with JNull => 0 | JArr l => zlen l | JObj l => zlen l | _ => 1 end.

(** ** Equality

    Numbers of different kinds compare by value. *)
Definition num_value (j : json) : option Q :=
  match j with
  | JInt z | JUint z => Some (inject_Z z)
  | JFloat q => Some q
  | _ => None
  end.
Fixpoint jeq (a b : json) {struct a} : bool :=
  match a, b with
  | JNull, JNull => true
  | JBool x, JBool y => Bool.eqb x y
  | JStr x, JStr y => String.eqb x y
  | JArr l, JArr k =>
      (fix go (l k : list json) : bool :=
         match l, k with
         | [], [] => true
         | x :: l, y :: k => jeq x y && go l k
         | _, _ => false
         end) l k
  | JObj l, JObj k =>
      (fix go (l k : list (string * json)) : bool :=
         match l, k with
         | [], [] => true
         | (kx, x) :: l, (ky, y) :: k => String.eqb kx ky && jeq x y && go l k
         | _, _ => false
         end) l k
  | _, _ =>
      match num_value a, num_value b with
      | Some x, Some y => Qeq_bool x y
      | _, _ => false
      end
  end.
(** comparison with a string literal *)
Definition is_text (s : string) (j : json) : bool := jeq j (JStr s).

(** ** Building objects: later members overwrite, keys stay sorted *)
Fixpoint put_member (k : string) (v : json) (l : list (string * json)) : list (string * json) :=
  match l with
  | [] => [(k, v)]
  | (k', v') :: r =>
      match String.compare k k' with
      | Lt => (k, v) :: l
      | Eq => (k, v) :: r
      | Gt => (k', v') :: put_member k v r
      end
  end.
Definition object (l : list (string * json)) : json :=
  JObj (foldl (fun acc m => put_member m.1 m.2 acc) [] l).
(** [j[k] = v] on an object *)
Definition set_member (k : string) (v : json) (j : json) : json :=
  match j with JObj l => JObj (put_member k v l) | _ => j end.
(** [j.erase(k)] *)
Definition erase (k : string) (j : json) : json :=
  match j with JObj l => JObj (filter (fun m => m.1 <> k) l) | _ => j end.
Definition opt_json {A} (f : A -> json) (o : option A) : json :=
  match o with Some a => f a | None => JNull end.

(** ** Lemmas *)
Lemma is_text_spec s j : is_text s j = true <-> j = JStr s.
Proof.
  unfold is_text. destruct j; simpl; split; intros H; try done.
  - by apply String.eqb_eq in H as ->.
  - injection H as ->. apply String.eqb_refl.
Qed.
Lemma contains_spec k j : contains k j = true <-> exists v, find k j = Some v.
Proof. unfold contains. destruct (find k j); split; naive_solver. Qed.
Lemma at_Ok k j v : at_ k j = Ok v <-> find k j = Some v.
Proof.
  unfold at_, find. destruct j; simpl; try done.
  destruct (find_member k members); simpl; naive_solver.
Qed.
Lemma jeq_refl : forall j, jeq j j = true.
Proof.
  fix IH 1. intros [|b|z|z|q|s|l|l]; simpl.
  - done.
  - by destruct b.
  - by apply Qeq_bool_iff.
  - by apply Qeq_bool_iff.
  - by apply Qeq_bool_iff.
  - apply String.eqb_refl.
  - induction l as [|x l IHl]; [done|]. by rewrite IH, IHl.
  - induction l as [|[k x] l IHl]; [done|]. by rewrite String.eqb_refl, IH, IHl.
Qed.
Lemma is_text_refl s : is_text s (JStr s) = true.
Proof. by apply is_text_spec. Qed.
Lemma at_find k j v : find k j = Some v -> at_ k j = Ok v.
Proof. apply at_Ok. Qed.

(** ** The order of object keys *)
Definition key_lt (a b : string) : Prop := String.compare a b = Lt.
Lemma key_lt_trans : Transitive key_lt.
Proof.
  intros a. unfold key_lt. induction a as [|x a IH]; intros [|y b] [|z c]; simpl; try done.
  unfold Ascii.compare.
  destruct (N.compare_spec (N_of_ascii x) (N_of_ascii y)) as [E1|E1|E1]; try done;
  destruct (N.compare_spec (N_of_ascii y) (N_of_ascii z)) as [E2|E2|E2]; try done;
  destruct (N.compare_spec (N_of_ascii x) (N_of_ascii z)) as [E3|E3|E3]; try done; try lia.
  apply IH.
Qed.
Lemma key_lt_irrefl a : ~ key_lt a a.
Proof.
  unfold key_lt. induction a as [|x a IH]; simpl; [done|]. unfold Ascii.compare. by rewrite N.compare_refl.
Qed.

(** *** Members after an assignment *)
Lemma find_put k v k' l :
  find_member k (put_member k' v l) = if String.eqb k k' then Some v else find_member k l.
Proof.
  induction l as [|[k2 v2] l IH]; [done|]. cbn [put_member].
  destruct (String.compare k' k2) eqn:E; cbn [find_member].
  - apply String.compare_eq_iff in E as ->. by destruct (String.eqb k k2).
  - done.
  - rewrite IH. destruct (String.eqb_spec k k2) as [->|]; [|done].
    destruct (String.eqb_spec k2 k') as [->|]; [|done].
    pose proof (String.compare_antisym k' k') as E'. rewrite E in E'. done.
Qed.
Lemma find_set k v k' j :
  is_object j = true -> find k (set_member k' v j) = if String.eqb k k' then Some v else find k j.
Proof. destruct j; try done. intros _. apply find_put. Qed.
Lemma set_is_object k v j : is_object (set_member k v j) = is_object j.
Proof. by destruct j. Qed.
Lemma find_is_object k j v : find k j = Some v -> is_object j = true.
Proof. by destruct j. Qed.
