(* ===== verification/ProcessGraph.v ===== *)
(** * Process graph facts

    [core/process_graph.cpp]: from a retained lifecycle record, re-derive the
    process reference (and, for a birth, the reported parent) and accept the
    record only when every copy of the identity inside it agrees.  UTF-8
    validation is a Windows call and a parameter, as is the digest provider. *)

From S2P Require Import Prelude Telemetry Identity Json.

(** [ProcessReference::json] *)
Definition reference_json (r : ProcessReference) : json :=
  object [("observed_pid", JUint (observed_pid r));
          ("entity_id", opt_json JStr (entity_id r));
          ("resolution", JStr (resolution r));
          ("native_creation_ticks",
            opt_json (fun t => JStr (to_string t)) (native_creation_ticks r));
          ("source_guid", opt_json JStr (source_guid r));
          ("boot_id", opt_json JStr (boot_id r));
          ("source_namespace", JStr (source_namespace r))].

Definition identifier (value prefix : string) : bool :=
  (slen value =? slen prefix + 64) && starts_with prefix value
  && str_forallb is_lower_hex (str_drop (String.length prefix) value).

Record ProcessGraphFact := {
  interpretable : bool;
  stop : bool;
  record_id : string;
  reason : string;
  fact_entity_id : option string;
  parent_entity_id : option string;
  fact_identity : json;
  parent_identity : json
}.
Definition no_fact (why : string) : ProcessGraphFact :=
  {| interpretable := false; stop := false; record_id := ""; reason := why;
     fact_entity_id := None; parent_entity_id := None;
     fact_identity := JNull; parent_identity := JNull |}.

Section fact.
Context (cng_sha256 : string -> string + list Z).
Context (valid_utf8 : string -> bool).

Definition refuse {A} (why : string) : result A := Throw (invalid_argument why).

Definition text (limit : Z) (value : json) : result (option string) :=
  if is_null value then Ok None
  else
    s ← get_string value;
    _ ← throw_if (str_empty s || (limit <? slen s) || negb (valid_utf8 s))
          (invalid_argument "invalid graph identity text");
    Ok (Some s).
Definition ticks (value : json) : result (option Z) :=
  if is_null value then Ok None
  else
    s ← get_string value;
    match from_chars_all u64_max s with
    | Some v => if String.eqb (to_string v) s then Ok (Some v)
                else refuse "noncanonical graph creation token"
    | None => refuse "noncanonical graph creation token"
    end.
Definition pid (value : json) : result Z :=
  _ ← throw_if (negb (is_number_unsigned value) || (u32_max <? get_u64 value))
        (invalid_argument "invalid graph PID");
  Ok (get_u64 value).

(** The body of the [try] block. *)
Definition derive_fact (record : json) : result ProcessGraphFact :=
  schema ← at_ "schema_version" record;
  kind_ ← (if is_text "1.0" schema then at_ "kind" record
           else refuse "not a canonical observation");
  _ ← throw_if (negb (is_text "observation" kind_)) (invalid_argument "not a canonical observation");
  rid ← (at_ "record_id" record |> get_string);
  _ ← throw_if (negb (identifier rid "rec_")) (invalid_argument "invalid record identity");
  endpoint ← at_ "endpoint" record;
  host ← (at_ "host_id" endpoint |> text 128);
  host ← of_option host (invalid_argument "missing host scope");
  boot ← (at_ "boot_id" endpoint |> text 69);
  _ ← throw_if (match boot with Some b => negb (identifier b "boot_") | None => false end)
        (invalid_argument "invalid boot scope");
  provenance ← at_ "provenance" record;
  kind ← (at_ "kind" provenance |> get_string);
  _ ← throw_if (negb (String.eqb kind "etw" || String.eqb kind "sysmon"
                      || String.eqb kind "windows_event_log"))
        (invalid_argument "not an observed process source");
  provider ← (at_ "provider" provenance |> text 512);
  channel_json ← at_ "channel" provenance;
  channel ← (if is_null channel_json then Ok None
             else s ← get_string channel_json; Ok (Some s));
  _ ← throw_if (match channel with
                | Some c => (512 <? slen c) || negb (valid_utf8 c) | None => false end)
        (invalid_argument "invalid channel");
  provider ← of_option provider (invalid_argument "missing source provider");
  let scope := kind +:+ ":" +:+ provider +:+ ":" +:+ value_or channel "" in
  data ← at_ "data" record;
  facts ← at_ "source_facts" data;
  let scope_error := invalid_argument "inconsistent source scope" in
  representation ← at_ "representation" facts;
  _ ← throw_if (negb (is_text "decoded_source_facts_v1" representation)) scope_error;
  family ← at_ "family" facts;
  _ ← throw_if (negb (is_text "process" family)) scope_error;
  source_kind ← (at_ "source" facts |> at_ "kind");
  _ ← throw_if (negb (is_text kind source_kind)) scope_error;
  source_provider ← (at_ "source" facts |> at_ "provider");
  _ ← throw_if (negb (is_text provider source_provider)) scope_error;
  source_channel ← (at_ "source" facts |> at_ "channel");
  _ ← throw_if (negb (jeq source_channel channel_json)) scope_error;
  category ← at_ "category" record;
  let stopped := is_text "process_stop" category in
  let operation_error := invalid_argument "inconsistent lifecycle operation" in
  _ ← (if stopped then Ok tt
       else if negb (is_text "process" category) then Throw operation_error
       else
         type ← (at_ "event" data |> at_ "type");
         throw_if (negb (is_text "start" type)) operation_error);
  operation ← at_ "operation" facts;
  _ ← throw_if (negb (is_text (if stopped then "stop" else "start") operation)) operation_error;
  process ← at_ "process" facts;
  store ← make_store host boot 1;
  process_pid ← (at_ "pid" process |> pid);
  process_ticks ← (at_ "start_time_ticks" process |> ticks);
  process_guid ← (at_ "process_guid" process |> text 256);
  reference ← make_reference cng_sha256 store process_pid process_ticks process_guid scope;
  let reference_error := invalid_argument "inconsistent process reference" in
  subject ← at_ "subject" record;
  _ ← throw_if (negb (jeq (reference_json reference) subject)) reference_error;
  data_entity ← (at_ "process" data |> at_ "entity_id");
  _ ← throw_if (negb (jeq data_entity (opt_json JStr (entity_id reference)))) reference_error;
  data_pid ← (at_ "process" data |> at_ "pid");
  fact_pid ← at_ "pid" process;
  _ ← throw_if (negb (jeq data_pid fact_pid)) reference_error;
  data_ticks ← (at_ "process" data |> at_ "start_time_ticks");
  _ ← throw_if (negb (jeq data_ticks
          (opt_json (fun t => JStr (to_string t)) (native_creation_ticks reference))))
        reference_error;
  _ ← (if stopped then
         lifecycle ← (at_ "lifecycle" data |> at_ "identity");
         throw_if (negb (jeq lifecycle (reference_json reference)))
           (invalid_argument "inconsistent stop reference")
       else Ok tt);
  let fact parent parent_json :=
    {| interpretable := true; stop := stopped; record_id := rid;
       reason := match entity_id reference with
                 | Some _ => "exact_reference_rederived"
                 | None => "identity_unresolved" end;
       fact_entity_id := entity_id reference; parent_entity_id := parent;
       fact_identity := reference_json reference; parent_identity := parent_json |} in
  if stopped then Ok (fact None JNull)
  else
    parent_pid_json ← at_ "parent_pid" process;
    if is_null parent_pid_json then Ok (fact None JNull)
    else
      parent_pid ← pid parent_pid_json;
      parent_guid ← (at_ "parent_process_guid" process |> text 256);
      parent ← make_reference cng_sha256 store parent_pid None parent_guid scope;
      let parent_error := invalid_argument "inconsistent parent reference" in
      claimed ← (at_ "process" data |> at_ "parent" |> at_ "identity");
      _ ← throw_if (negb (jeq claimed (reference_json parent))) parent_error;
      claimed_id ← (at_ "process" data |> at_ "parent" |> at_ "entity_id");
      _ ← throw_if (negb (jeq claimed_id (opt_json JStr (entity_id parent)))) parent_error;
      Ok (fact (entity_id parent) (reference_json parent)).

(** JSON and argument errors make the record uninterpretable; a failing
    digest provider escapes. *)
Definition process_graph_fact (record : json) : result ProcessGraphFact :=
  match derive_fact record with
  | Ok f => Ok f
  | Throw (json_exception _) => Ok (no_fact "canonical_shape_refused")
  | Throw (invalid_argument _) => Ok (no_fact "canonical_identity_or_scope_refused")
  | Throw e => Throw e
  end.
End fact.

(** ** What an accepted fact is based on *)
Section sound.
Context (cng_sha256 : string -> string + list Z) (valid_utf8 : string -> bool).

(** [id] is the digest of a source alias of this host: a process GUID within
    its source namespace *)
Definition from_guid (host id : string) : Prop :=
  exists boot scope p guid, guid <> "" /\
    identity cng_sha256 (source_canonical host boot scope p guid) = Ok id.
(** [id] is the digest of a native creation time within a boot of this host *)
Definition from_native (host id : string) : Prop :=
  exists boot p t, t <> 0 /\ identity cng_sha256 (native_canonical host boot p t) = Ok id.

Lemma make_reference_basis st p t g scope r id :
  make_reference cng_sha256 st p t g scope = Ok r -> entity_id r = Some id ->
  (from_native (host_id_ st) id /\ t <> None) \/ from_guid (host_id_ st) id.
Proof.
  unfold make_reference. intros H Hid. apply bind_Ok in H as (u & Hg & H).
  apply throw_if_Ok in Hg. apply orb_false_iff in Hg as [_ Hg].
  unfold has_native_ticks in H. destruct t as [t|]; cbv beta iota in H.
  - destruct (Z.eqb_spec t 0); [|destruct (boot_id_ st) as [boot|] eqn:Hb].
    2:{ apply bind_Ok in H as (id' & Hi & H). injection H as <-.
        injection Hid as ->. left. split; [|done]. eexists _, _, _. eauto. }
    all: destruct g as [g|]; [|by injection H as <-].
    all: apply bind_Ok in H as (id' & Hi & H); injection H as <-;
      injection Hid as ->; right; eexists _, _, _, _; split; [|exact Hi];
      intros ->; done.
  - destruct g as [g|]; [|by injection H as <-].
    apply bind_Ok in H as (id' & Hi & H); injection H as <-.
    injection Hid as ->; right; eexists _, _, _, _; split; [|exact Hi]. intros ->; done.
Qed.
Lemma make_store_host host boot n st : make_store host boot n = Ok st -> host_id_ st = host.
Proof. unfold make_store. destruct (_ || _); [done|]. by intros [= <-]. Qed.
Lemma text_Ok n j s : text valid_utf8 n j = Ok (Some s) -> j = JStr s.
Proof.
  unfold text. destruct j; simpl; try done. intros H. inv_ok H. congruence.
Qed.

(** the conclusion of the soundness theorem, for one record *)
Definition fact_sound (record : json) (f : ProcessGraphFact) : Prop :=
  exists host endpoint, find "endpoint" record = Some endpoint /\
  find "host_id" endpoint = Some (JStr host) /\
  (forall id, fact_entity_id f = Some id -> from_native host id \/ from_guid host id) /\
  (forall id, parent_entity_id f = Some id -> from_guid host id /\ stop f = false) /\
  (exists subject, find "subject" record = Some subject /\ jeq (fact_identity f) subject = true) /\
  identifier (record_id f) "rec_" = true.

Lemma derive_fact_sound record f :
  derive_fact cng_sha256 valid_utf8 record = Ok f -> fact_sound record f.
Proof.
  unfold derive_fact. intros H. inv_ok H.
  match goal with E : at_ "endpoint" record = Ok ?e |- _ =>
    apply at_Ok in E; exists a4, e; split; [exact E|] end.
  assert (Hhost : at_ "host_id" a2 = Ok (JStr a4)).
  { apply bind_Ok in Ha5 as (j & Hj & Ht). destruct a3 as [h|]; [|done].
    injection Ha6 as ->. by apply text_Ok in Ht as ->. }
  split; [by apply at_Ok|].
  apply make_store_host in Ha34 as Hst.
  assert (Hid : forall id, entity_id a27 = Some id -> from_native a4 id \/ from_guid a4 id).
  { intros id Hi. rewrite <- Hst.
    destruct (make_reference_basis _ _ _ _ _ _ _ Ha38 Hi) as [[? _]|]; auto. }
  assert (Hsub : exists subject, find "subject" record = Some subject /\
            jeq (reference_json a27) subject = true).
  { exists a28. split; [by apply at_Ok|]. by apply negb_false_iff. }
  apply negb_false_iff in Ha3.
  destruct (is_text "process_stop" a19).
  { injection H as <-. done. }
  inv_ok H. destruct (is_null a34); [injection H as <-; done|].
  inv_ok H. injection H as <-. simpl.
  split; [done|]. split; [|done]. intros id Hi. split; [|done]. rewrite <- Hst.
  match goal with E : make_reference _ _ _ None _ _ = Ok _ |- _ =>
    destruct (make_reference_basis _ _ _ _ _ _ _ E Hi) as [[_ ?]|]; done end.
Qed.

(** Graph facts are exact.  An interpretable lifecycle record yields an
    entity identity only as the digest of a native creation time within a
    boot, or of a source GUID within its source, always scoped to the record's
    own host; a parent identity comes only from a birth record and only from
    a source GUID, never from a bare PID; the record's [subject] equals the
    re-derived reference; and every failure of shape or scope yields a fact
    that names no identity at all. *)
Theorem graph_fact_exact (record : json) (f : ProcessGraphFact) :
  process_graph_fact cng_sha256 valid_utf8 record = Ok f ->
  if interpretable f then fact_sound record f
  else fact_entity_id f = None /\ parent_entity_id f = None /\ fact_identity f = JNull.
Proof.
  unfold process_graph_fact. destruct (derive_fact _ _ record) as [g|e] eqn:E.
  - intros [= <-]. destruct (interpretable g) eqn:I; [by apply derive_fact_sound|].
    exfalso. clear -E I. unfold derive_fact in E. inv_ok E.
    destruct (is_text "process_stop" a19); [by injection E as <-|].
    inv_ok E. destruct (is_null a34); [by injection E as <-|].
    inv_ok E. by injection E as <-.
  - destruct e; try done; intros [= <-]; done.
Qed.
End sound.

(** A birth record with a GUID and no native ticks. *)
Definition zero_digest (_ : string) : string + list Z := inr (repeat 0 32).
Definition sample_guid_id : string := "proc_" +:+ hex_bytes (repeat 0 32).
Definition sample_reference (p : Z) (guid : option string) : json :=
  object [("observed_pid", JUint p);
          ("entity_id", opt_json (fun _ => JStr sample_guid_id) guid);
          ("resolution", JStr (match guid with Some _ => "source_scoped" | None => "unresolved" end));
          ("native_creation_ticks", JNull); ("source_guid", opt_json JStr guid);
          ("boot_id", JNull); ("source_namespace", JStr "sysmon:Sysmon:")].
Definition sample_record : json :=
  object [("schema_version", JStr "1.0"); ("kind", JStr "observation");
    ("record_id", JStr ("rec_" +:+ hex_bytes (repeat 0 32)));
    ("endpoint", object [("host_id", JStr "host"); ("boot_id", JNull)]);
    ("provenance", object [("kind", JStr "sysmon"); ("provider", JStr "Sysmon"); ("channel", JNull)]);
    ("category", JStr "process"); ("subject", sample_reference 7 (Some "guid"));
    ("data", object [
      ("event", object [("type", JStr "start")]);
      ("process", object [("entity_id", JStr sample_guid_id); ("pid", JUint 7);
        ("start_time_ticks", JNull);
        ("parent", object [("identity", sample_reference 3 None); ("entity_id", JNull)])]);
      ("source_facts", object [("representation", JStr "decoded_source_facts_v1");
        ("family", JStr "process"); ("operation", JStr "start");
        ("source", object [("kind", JStr "sysmon"); ("provider", JStr "Sysmon"); ("channel", JNull)]);
        ("process", object [("pid", JUint 7); ("start_time_ticks", JNull);
          ("process_guid", JStr "guid"); ("parent_pid", JUint 3); ("parent_process_guid", JNull)])])])].
Definition sample_fact : ProcessGraphFact :=
  {| interpretable := true; stop := false; record_id := "rec_" +:+ hex_bytes (repeat 0 32);
     reason := "exact_reference_rederived"; fact_entity_id := Some sample_guid_id;
     parent_entity_id := None; fact_identity := sample_reference 7 (Some "guid");
     parent_identity := sample_reference 3 None |}.
Lemma graph_fact_exact_witness :
  if interpretable sample_fact
  then fact_sound zero_digest sample_record sample_fact
  else fact_entity_id sample_fact = None /\ parent_entity_id sample_fact = None /\
       fact_identity sample_fact = JNull.
Proof.
  apply (graph_fact_exact zero_digest (fun _ => true) sample_record sample_fact).
  vm_compute. reflexivity.
Defined.
