(* ===== verification/Journal.v ===== *)
(** * The durable journal: state and write operations

    [delivery/journal.cpp].  The SQLite database is the record [JournalDb], one
    field per table, with the row effects of the triggers written out; a
    transaction that throws restores the database.  SQLite itself is taken to
    work: a statement does what it says.  Parameters stand for what is not in
    the sources: the JSON parser, the DPAPI calls ([protect], [unprotect]), the
    digest provider, UTF-8 validation, and what the operating system reports
    about the database files and free space ([disk]).

    Row numbers and byte sums stay far below 2^63 and are plain integers. *)

From S2P Require Import Prelude Crc32 Telemetry Identity Json ProcessGraph.

(** ** Tables *)
Inductive obs_state := Pending | Dead.
#[global] Instance obs_state_eq_dec : EqDecision obs_state.
Proof. solve_decision. Defined.

Record Observation := {
  o_seq : Z; o_key : string; o_payload : string; o_bytes : Z; o_state : obs_state;
  o_reason : option string; o_protocol : Z
}.
Record HistoryRow := { h_seq : Z; h_key : string; h_payload : string; h_bytes : Z }.
Record GraphRow := { g_seq : Z; g_entity : string; g_parent : string; g_quality : Z }.

(** the [state] column of [commands]; the code refuses values it does not know *)
Inductive cmd_state := Received | Executing | ResultReady | Outboxed | OtherState (s : string).
#[global] Instance cmd_state_eq_dec : EqDecision cmd_state.
Proof. solve_decision. Defined.
Record CommandRow := {
  c_key : string; c_scope : string; c_digest : string; c_payload : string;
  c_state : cmd_state; c_result : option string; c_bytes : Z
}.
Record CheckpointRow := {
  s_revision : string; s_value : string; s_digest : string; s_bytes : Z
}.
Record Counters := {
  n_acknowledged : Z; n_retained : Z; n_pending : Z; n_dead : Z;
  n_history_bytes : Z; n_history_count : Z; n_graph_count : Z; n_graph_unresolved : Z
}.
(** rows in the order of their primary key *)
Record JournalDb := {
  observations : list Observation;
  process_history : list HistoryRow;
  process_graph : list GraphRow;
  commands : list CommandRow;
  checkpoints : gmap string CheckpointRow;
  identifiers : gmap string string;
  imports : gset string;
  gaps : gmap string string;
  counters : Counters
}.
Record JournalConfig := {
  retained_payload_limit : Z; event_size_limit : Z;
  physical_admission_limit : Z; minimum_free_bytes : Z
}.

Definition empty_counters : Counters := {|
  n_acknowledged := 0; n_retained := 0; n_pending := 0; n_dead := 0;
  n_history_bytes := 0; n_history_count := 0; n_graph_count := 0; n_graph_unresolved := 0 |}.
Definition empty_db : JournalDb := {|
  observations := []; process_history := []; process_graph := []; commands := [];
  checkpoints := ∅; identifiers := ∅; imports := ∅; gaps := ∅; counters := empty_counters |}.

(** ** Row effects *)
Definition with_observations (l : list Observation) (c : Counters) (d : JournalDb) : JournalDb :=
  {| observations := l; process_history := process_history d; process_graph := process_graph d;
     commands := commands d; checkpoints := checkpoints d; identifiers := identifiers d;
     imports := imports d; gaps := gaps d; counters := c |}.
Definition with_history (h : list HistoryRow) (c : Counters) (d : JournalDb) : JournalDb :=
  {| observations := observations d; process_history := h; process_graph := process_graph d;
     commands := commands d; checkpoints := checkpoints d; identifiers := identifiers d;
     imports := imports d; gaps := gaps d; counters := c |}.
Definition with_graph (g : list GraphRow) (c : Counters) (d : JournalDb) : JournalDb :=
  {| observations := observations d; process_history := process_history d; process_graph := g;
     commands := commands d; checkpoints := checkpoints d; identifiers := identifiers d;
     imports := imports d; gaps := gaps d; counters := c |}.
Definition with_commands (l : list CommandRow) (d : JournalDb) : JournalDb :=
  {| observations := observations d; process_history := process_history d;
     process_graph := process_graph d; commands := l; checkpoints := checkpoints d;
     identifiers := identifiers d; imports := imports d; gaps := gaps d; counters := counters d |}.
Definition with_checkpoints (m : gmap string CheckpointRow) (d : JournalDb) : JournalDb :=
  {| observations := observations d; process_history := process_history d;
     process_graph := process_graph d; commands := commands d; checkpoints := m;
     identifiers := identifiers d; imports := imports d; gaps := gaps d; counters := counters d |}.
Definition with_identifiers (m : gmap string string) (d : JournalDb) : JournalDb :=
  {| observations := observations d; process_history := process_history d;
     process_graph := process_graph d; commands := commands d; checkpoints := checkpoints d;
     identifiers := m; imports := imports d; gaps := gaps d; counters := counters d |}.
Definition with_imports (i : gset string) (g : gmap string string) (d : JournalDb) : JournalDb :=
  {| observations := observations d; process_history := process_history d;
     process_graph := process_graph d; commands := commands d; checkpoints := checkpoints d;
     identifiers := identifiers d; imports := i; gaps := g; counters := counters d |}.

Definition add_state (s : obs_state) (n : Z) (c : Counters) : Counters :=
  {| n_acknowledged := n_acknowledged c; n_retained := n_retained c;
     n_pending := n_pending c + (if decide (s = Pending) then n else 0);
     n_dead := n_dead c + (if decide (s = Dead) then n else 0);
     n_history_bytes := n_history_bytes c; n_history_count := n_history_count c;
     n_graph_count := n_graph_count c; n_graph_unresolved := n_graph_unresolved c |}.
Definition add_retained (n : Z) (c : Counters) : Counters :=
  {| n_acknowledged := n_acknowledged c; n_retained := n_retained c + n;
     n_pending := n_pending c; n_dead := n_dead c;
     n_history_bytes := n_history_bytes c; n_history_count := n_history_count c;
     n_graph_count := n_graph_count c; n_graph_unresolved := n_graph_unresolved c |}.
Definition add_acknowledged (c : Counters) : Counters :=
  {| n_acknowledged := n_acknowledged c + 1; n_retained := n_retained c;
     n_pending := n_pending c; n_dead := n_dead c;
     n_history_bytes := n_history_bytes c; n_history_count := n_history_count c;
     n_graph_count := n_graph_count c; n_graph_unresolved := n_graph_unresolved c |}.
Definition add_history (bytes : Z) (c : Counters) : Counters :=
  {| n_acknowledged := n_acknowledged c; n_retained := n_retained c;
     n_pending := n_pending c; n_dead := n_dead c;
     n_history_bytes := n_history_bytes c + bytes; n_history_count := n_history_count c + 1;
     n_graph_count := n_graph_count c; n_graph_unresolved := n_graph_unresolved c |}.
Definition add_graph (quality : Z) (c : Counters) : Counters :=
  {| n_acknowledged := n_acknowledged c; n_retained := n_retained c;
     n_pending := n_pending c; n_dead := n_dead c;
     n_history_bytes := n_history_bytes c; n_history_count := n_history_count c;
     n_graph_count := n_graph_count c + 1;
     n_graph_unresolved := n_graph_unresolved c + (if quality =? 0 then 0 else 1) |}.

(** a new [INTEGER PRIMARY KEY]: one above the largest in use *)
Definition next_seq {A} (f : A -> Z) (l : list A) : Z := 1 + foldr (fun a m => Z.max (f a) m) 0 l.

(** INSERT INTO observations, with its two triggers *)
Definition insert_observation (key payload : string) (bytes protocol : Z) (d : JournalDb)
  : JournalDb :=
  let row := {| o_seq := next_seq o_seq (observations d); o_key := key; o_payload := payload;
                o_bytes := bytes; o_state := Pending; o_reason := None; o_protocol := protocol |} in
  with_observations (observations d ++ [row])
    (add_state Pending 1 (add_retained bytes (counters d))) d.
(** DELETE FROM observations WHERE key=? AND state='pending' *)
Definition is_pending_key (key : string) (o : Observation) : bool :=
  bool_decide (o_key o = key /\ o_state o = Pending).
Definition delete_pending (key : string) (d : JournalDb) : JournalDb :=
  let gone := filter (fun o => is_pending_key key o = true) (observations d) in
  with_observations (filter (fun o => is_pending_key key o = false) (observations d))
    (add_state Pending (- zlen gone) (add_retained (- zsum o_bytes gone) (counters d))) d.
(** UPDATE observations SET state='dead',reason=?,bytes=bytes+? WHERE key=? AND state='pending' *)
Definition bury (reason : string) (extra : Z) (o : Observation) : Observation :=
  {| o_seq := o_seq o; o_key := o_key o; o_payload := o_payload o; o_bytes := o_bytes o + extra;
     o_state := Dead; o_reason := Some reason; o_protocol := o_protocol o |}.
Definition bury_pending (key reason : string) (extra : Z) (d : JournalDb) : JournalDb :=
  let hit := filter (fun o => is_pending_key key o = true) (observations d) in
  let n := zlen hit in
  with_observations
    ((fun o => if is_pending_key key o then bury reason extra o else o) <$> observations d)
    (add_state Dead n (add_state Pending (- n) (add_retained (n * extra) (counters d)))) d.
Definition has_pending (key : string) (d : JournalDb) : bool :=
  existsb (is_pending_key key) (observations d).
Definition has_observation (key : string) (d : JournalDb) : bool :=
  existsb (fun o => String.eqb (o_key o) key) (observations d).
Definition has_history (key : string) (d : JournalDb) : bool :=
  existsb (fun h => String.eqb (h_key h) key) (process_history d).

Definition insert_history (key payload : string) (bytes : Z) (d : JournalDb) : Z * JournalDb :=
  let seq := next_seq h_seq (process_history d) in
  (seq, with_history
    (process_history d ++ [{| h_seq := seq; h_key := key; h_payload := payload; h_bytes := bytes |}])
    (add_history bytes (counters d)) d).
(** INSERT OR IGNORE INTO process_graph_index *)
Definition insert_graph (row : GraphRow) (d : JournalDb) : JournalDb :=
  if existsb (fun g => g_seq g =? g_seq row) (process_graph d) then d
  else with_graph (process_graph d ++ [row]) (add_graph (g_quality row) (counters d)) d.

(** the bytes charged against the retention quota *)
Definition retained (d : JournalDb) : Z :=
  n_retained (counters d) + zsum c_bytes (commands d)
  + map_sum s_bytes (checkpoints d) + n_history_bytes (counters d).

(** ** Computations over the journal: state and exceptions *)
Record JState := { db : JournalDb; storage_admission_refusals : Z }.
Definition M (A : Type) : Type := JState -> result A * JState.
#[global] Instance M_ret : MRet M := fun A a s => (Ok a, s).
#[global] Instance M_bind : MBind M := fun A B f m s =>
  match m s with
  | (Ok a, s') => f a s'
  | (Throw e, s') => (Throw e, s')
  end.
Definition raise {A} (e : exn) : M A := fun s => (Throw e, s).
Definition lift {A} (r : result A) : M A := fun s => (r, s).
Definition get_db : M JournalDb := fun s => (Ok (db s), s).
Definition put_db (d : JournalDb) : M unit := fun s =>
  (Ok tt, {| db := d; storage_admission_refusals := storage_admission_refusals s |}).
Definition raise_if (b : bool) (e : exn) : M unit := lift (throw_if b e).
(** BEGIN IMMEDIATE ... COMMIT; an exception rolls the database back *)
Definition transaction {A} (m : M A) : M A := fun s =>
  match m s with
  | (Ok a, s') => (Ok a, s')
  | (Throw e, s') =>
      (Throw e, {| db := db s; storage_admission_refusals := storage_admission_refusals s' |})
  end.

(** what the operating system reports: the sizes of the three database files
    ([None]: no such file) or an error, and the free space or an error *)
Record DiskReport := { file_sizes : list (result (option Z)); free_space : result Z }.

Record JournalEntry := { key : string; body : string }.
Record JournalBatch := { batch_id : string; batch_protocol : Z; entries : list JournalEntry }.
Record JournalInspectionEntry := {
  local_sequence : Z; inspected_protocol : Z; original : JournalEntry }.
Record JournalDeadLetter := { dead_original : JournalEntry; dead_reason : string }.
Record JournalCommand := {
  jc_key : string; jc_scope : string; jc_body : string; jc_state : cmd_state; jc_result : string }.
Record SourceCheckpoint := { revision : Z; value : string }.

Fixpoint ndjson_entries (l : list JournalEntry) : string :=
  match l with
  | [] => ""
  | e :: l => body e +:+ String (ascii_of_N 10) (ndjson_entries l)
  end.
Definition ndjson (b : JournalBatch) : string := ndjson_entries (entries b).

(** ** Operations *)
Definition newline : ascii := ascii_of_N 10.
Definition carriage_return : ascii := ascii_of_N 13.
Definition is_blank (c : ascii) : bool := (code c =? 32) || (code c =? 9).
(** [s.find_first_not_of(" \t") == npos] *)
Definition all_blank (s : string) : bool := str_forallb is_blank s.
Definition single_line (s : string) : bool :=
  negb (str_contains newline s) && negb (str_contains carriage_return s).

Section Operations.
Context (cng_sha256 : string -> string + list Z).
Context (valid_utf8 : string -> bool).
(** [Json::parse(text, nullptr, false)]: [None] is the discarded value *)
Context (json_parse : string -> option json).
(** [protect input key]: DPAPI encryption and decryption with an entropy key *)
Context (protect unprotect : string -> string -> result string).
Context (disk : JournalDb -> DiskReport).
Context (config : JournalConfig).

Definition digest (input : string) : result string :=
  match sha256_hex cng_sha256 input with
  | inr h => Ok h
  | inl error => Throw (runtime_error error)
  end.

(** the sum of the file sizes, refusing 64-bit overflow *)
Fixpoint add_sizes (l : list (result (option Z))) (bytes : Z) : result Z :=
  match l with
  | [] => Ok bytes
  | Throw e :: _ => Throw e
  | Ok None :: l => add_sizes l bytes
  | Ok (Some size) :: l =>
      if u64_max - bytes <? size then Throw (runtime_error "journal physical size overflow")
      else add_sizes l (bytes + size)
  end.
Definition storage_sample (d : JournalDb) : result (Z * Z) :=
  bytes ← add_sizes (file_sizes (disk d)) 0;
  available ← free_space (disk d);
  Ok (bytes, available).

Definition admission (d : JournalDb) (encrypted_bytes : Z) : result unit :=
  '(bytes, available) ← storage_sample d;
  let allowance := u64 (128 * 1024 + 4 * encrypted_bytes) in
  _ ← throw_if ((physical_admission_limit config <? allowance)
                || (physical_admission_limit config - allowance <? bytes))
        (runtime_error "journal physical admission budget exhausted; retained evidence preserved");
  throw_if ((available <? minimum_free_bytes config)
            || (available - minimum_free_bytes config <? allowance))
    (runtime_error "journal caller-available storage headroom exhausted; retained evidence preserved").
(** a refusal is counted outside the transaction, saturating *)
Definition admit_growth (encrypted_bytes : Z) : M unit := fun s =>
  match admission (db s) encrypted_bytes with
  | Ok _ => (Ok tt, s)
  | Throw e =>
      let n := storage_admission_refusals s in
      (Throw e, {| db := db s;
                   storage_admission_refusals := if n =? u64_max then n else n + 1 |})
  end.

Definition index_process (seq : Z) (document : json) : M unit :=
  fact ← lift (process_graph_fact cng_sha256 valid_utf8 document);
  entity ← lift (match fact_entity_id fact with Some e => digest e | None => Ok "" end);
  parent ← lift (match parent_entity_id fact with Some p => digest p | None => Ok "" end);
  d ← get_db;
  put_db (insert_graph {| g_seq := seq; g_entity := entity; g_parent := parent;
    g_quality := if interpretable fact
                 then match fact_entity_id fact with Some _ => 0 | None => 1 end
                 else 2 |} d).

Definition member_is_text (k s : string) (j : json) : bool :=
  match find k j with Some v => is_text s v | None => false end.
(** protocol 2: the canonical endpoint records *)
Definition line_protocol (document : option json) : Z :=
  match document with
  | Some j => if member_is_text "schema_version" "1.0" j && contains "kind" j then 2 else 1
  | None => 1
  end.
(** canonical birth or stop evidence *)
Definition line_lifecycle (document : option json) : bool :=
  match document with
  | Some j =>
      (line_protocol document =? 2) && member_is_text "kind" "observation" j
      && (member_is_text "category" "process_stop" j
          || (member_is_text "category" "process" j
              && match find "data" j with
                 | Some data =>
                     match find "event" data with
                     | Some event => member_is_text "type" "start" event
                     | None => false
                     end
                 | None => false
                 end))
  | None => false
  end.

Definition insert (line k : string) : M unit :=
  d ← get_db;
  let pending_exists := has_observation k d in
  let document := json_parse line in
  let protocol := line_protocol document in
  let lifecycle := line_lifecycle document in
  let archive_exists := lifecycle && has_history k d in
  if pending_exists && (negb lifecycle || archive_exists) then mret tt
  else
    let archive := lifecycle && negb archive_exists in
    let copies := (if pending_exists then 0 else 1) + (if archive then 1 else 0) in
    _ ← raise_if ((retained_payload_limit config / copies <? slen line)
                  || (retained_payload_limit config - copies * slen line <? retained d))
          (runtime_error "journal retention quota exhausted; existing evidence retained");
    encrypted ← lift (protect line k);
    _ ← admit_growth (slen encrypted * copies);
    _ ← (if archive then
           d ← get_db;
           let '(seq, d) := insert_history k encrypted (slen line) d in
           _ ← put_db d;
           index_process seq (default JNull document)
         else mret tt);
    if pending_exists then mret tt
    else
      d ← get_db;
      put_db (insert_observation k encrypted (slen line) protocol d).

Definition append (line : string) : M unit :=
  _ ← raise_if (all_blank line || negb (single_line line) || (event_size_limit config <? slen line))
        (invalid_argument "journal observation is empty, multiline or over the event size limit");
  k ← lift (digest line);
  transaction (insert line k).

(** ** Source checkpoints *)
Definition validate_source (source : string) : result unit :=
  throw_if (str_empty source || (512 <? slen source) || negb (single_line source)
            || str_contains zero source) (invalid_argument "invalid source checkpoint key").
Definition checkpoint_revision (text : string) : result Z :=
  let bad := runtime_error "invalid retained source checkpoint revision" in
  match from_chars_all u64_max text with
  | None => Throw bad
  | Some v => if ((1 <? slen text) && starts_with "0" text) || (v =? 0) then Throw bad else Ok v
  end.
Definition source_checkpoint (source : string) : M (option SourceCheckpoint) :=
  _ ← lift (validate_source source);
  d ← get_db;
  match checkpoints d !! source with
  | None => mret None
  | Some row =>
      r ← lift (checkpoint_revision (s_revision row));
      v ← lift (unprotect (s_value row) ("source:" +:+ source));
      mret (Some {| revision := r; value := v |})
  end.

(** the retry of the commit that produced the current revision *)
Definition is_retry (row : CheckpointRow) (source marker checkpoint : string) : result bool :=
  if negb (String.eqb (s_digest row) marker) then Ok false
  else v ← unprotect (s_value row) ("source:" +:+ source); Ok (String.eqb v checkpoint).

(** the shared tail of the two compare-and-swap operations *)
Definition save_checkpoint (source checkpoint marker : string) (old_bytes expected : Z)
    (refusal : string) : M unit :=
  d ← get_db;
  _ ← raise_if ((retained d <? old_bytes) || (retained_payload_limit config <? slen checkpoint)
                || (retained_payload_limit config - slen checkpoint <? retained d - old_bytes))
        (runtime_error refusal);
  encrypted ← lift (protect checkpoint ("source:" +:+ source));
  _ ← admit_growth (slen encrypted);
  d ← get_db;
  put_db (with_checkpoints (<[source := {| s_revision := to_string (expected + 1);
    s_value := encrypted; s_digest := marker; s_bytes := slen checkpoint |}]> (checkpoints d)) d).

(** [record] is the work done between the revision check and the save *)
Definition compare_and_swap (source checkpoint marker : string) (expected : Z) (refusal : string)
    (record : M unit) : M unit :=
  transaction (
    d ← get_db;
    let row := checkpoints d !! source in
    rev ← lift (match row with Some r => checkpoint_revision (s_revision r) | None => Ok 0 end);
    let old_bytes := match row with Some r => s_bytes r | None => 0 end in
    if negb (rev =? expected) then
      same ← lift (match row with
                   | Some r => if rev =? expected + 1 then is_retry r source marker checkpoint
                               else Ok false
                   | None => Ok false
                   end);
      if same : bool then mret tt
      else raise (runtime_error "source checkpoint revision conflict; retained cursor preserved")
    else
      _ ← raise_if ((rev =? 0) && (64 <=? Z.of_nat (size (checkpoints d))))
            (runtime_error "source checkpoint count limit");
      _ ← record;
      save_checkpoint source checkpoint marker old_bytes expected refusal).

Definition checkpoint_bounds (checkpoint : string) (expected : Z) : result unit :=
  throw_if (str_empty checkpoint || (16384 <? slen checkpoint) || (expected =? u64_max))
    (invalid_argument "invalid source checkpoint or exhausted revision").

Definition append_checkpointed (line source checkpoint : string) (expected : Z) : M unit :=
  _ ← lift (validate_source source);
  _ ← lift (checkpoint_bounds checkpoint expected);
  _ ← raise_if (all_blank line || negb (single_line line) || (event_size_limit config <? slen line))
        (invalid_argument "invalid checkpointed observation");
  k ← lift (digest line);
  compare_and_swap source checkpoint k expected
    "source checkpoint retention quota exhausted; record and cursor unchanged" (insert line k).

Definition advance_checkpoint (source checkpoint : string) (expected : Z) : M unit :=
  _ ← lift (validate_source source);
  _ ← lift (checkpoint_bounds checkpoint expected);
  h ← lift (digest checkpoint);
  compare_and_swap source checkpoint ("checkpoint-only:" +:+ h) expected
    "source checkpoint retention quota exhausted; cursor unchanged" (mret tt).

(** ** Reading *)
Definition mib8 : Z := 8 * 1024 * 1024.
Definition pending_rows (d : JournalDb) : list Observation :=
  filter (fun o => o_state o = Pending) (observations d).

(** the page loop the readers share: decrypt rows in order until the byte
    ceiling would be passed; [count] is the number of rows already taken *)
Fixpoint read_page {A B} (check : A -> result unit) (entry : A -> string -> B)
    (row_key row_payload : A -> string) (refusal : string) (max_bytes : Z) (rows : list A) (bytes : Z) (count : nat)
  : result (list B) :=
  match rows with
  | [] => Ok []
  | row :: rows =>
      _ ← check row;
      b ← unprotect (row_payload row) (row_key row);
      if max_bytes - bytes <? slen b + 1
      then match count with
           | O => Throw (runtime_error refusal)
           | S _ => Ok []
           end
      else
        rest ← read_page check entry row_key row_payload refusal max_bytes rows
                 (bytes + (slen b + 1)) (S count);
        Ok (entry row b :: rest)
  end.

Definition page_limits (max_events max_bytes : Z) (why : string) : result unit :=
  throw_if ((max_events =? 0) || (1000 <? max_events) || (max_bytes =? 0) || (mib8 <? max_bytes))
    (invalid_argument why).
Fixpoint joined_keys (l : list JournalEntry) : string :=
  match l with
  | [] => ""
  | e :: l => key e +:+ String newline (joined_keys l)
  end.

Definition peek (max_events max_bytes : Z) : M (option JournalBatch) :=
  _ ← lift (page_limits max_events max_bytes "invalid journal batch limits");
  d ← get_db;
  match pending_rows d with
  | [] => mret None
  | hd :: _ =>
      let protocol := o_protocol hd in
      let rows := take (Z.to_nat max_events)
                    (filter (fun o => o_protocol o = protocol) (pending_rows d)) in
      es ← lift (read_page (fun _ => Ok tt) (fun o b => {| key := o_key o; body := b |})
                   o_key o_payload
                   "journal head exceeds transport batch ceiling" max_bytes rows 0 0);
      match es with
      | [] => mret None
      | _ =>
          h ← lift (digest (joined_keys es));
          mret (Some {| batch_id := "journal_" +:+ h; batch_protocol := protocol; entries := es |})
      end
  end.

Definition inspect_pending (after max_events max_bytes : Z) : M (list JournalInspectionEntry) :=
  _ ← lift (page_limits max_events max_bytes "invalid journal inspection limits or cursor");
  _ ← raise_if (i64_max <? after) (invalid_argument "invalid journal inspection limits or cursor");
  d ← get_db;
  let rows := take (Z.to_nat max_events) (filter (fun o => after < o_seq o) (pending_rows d)) in
  lift (read_page (fun o => throw_if (o_seq o <=? 0)
            (runtime_error "invalid local inspection sequence"))
          (fun o b => {| local_sequence := o_seq o; inspected_protocol := o_protocol o;
                                 original := {| key := o_key o; body := b |} |})
          o_key o_payload "journal inspection record exceeds page byte ceiling" max_bytes rows 0 0).

Definition inspect_process_history (after max_events max_bytes : Z)
  : M (list JournalInspectionEntry) :=
  _ ← lift (page_limits max_events max_bytes "invalid process history limits or cursor");
  _ ← raise_if (i64_max <? after) (invalid_argument "invalid process history limits or cursor");
  d ← get_db;
  let rows := take (Z.to_nat max_events) (filter (fun h => after < h_seq h) (process_history d)) in
  lift (read_page (fun h => throw_if (h_seq h <=? 0)
            (runtime_error "invalid local process history sequence"))
          (fun h b => {| local_sequence := h_seq h; inspected_protocol := 2;
                                 original := {| key := h_key h; body := b |} |})
          h_key h_payload "process history record exceeds page byte ceiling" max_bytes rows 0 0).

Definition dead_letters (limit : Z) : M (list JournalDeadLetter) :=
  _ ← raise_if ((limit =? 0) || (1000 <? limit)) (invalid_argument "invalid dead-letter inspection limit");
  d ← get_db;
  lift (mapM (fun o =>
          b ← unprotect (o_payload o) (o_key o);
          r ← unprotect (default "" (o_reason o)) (o_key o);
          Ok {| dead_original := {| key := o_key o; body := b |}; dead_reason := r |})
        (take (Z.to_nat limit) (filter (fun o => o_state o = Dead) (observations d)))).

(** ** Backfilling the process graph *)
Definition unindexed (d : JournalDb) : list HistoryRow :=
  filter (fun h => existsb (fun g => g_seq g =? h_seq h) (process_graph d) = false)
    (process_history d).
Fixpoint rebuild_rows (max_bytes : Z) (rows : list HistoryRow) (bytes count : Z) : M Z :=
  match rows with
  | [] => mret count
  | h :: rows =>
      _ ← raise_if (h_seq h <=? 0) (runtime_error "invalid process graph archive sequence");
      b ← lift (unprotect (h_payload h) (h_key h));
      if max_bytes - bytes <? slen b + 1 then
        (if count =? 0
         then raise (runtime_error "process graph rebuild head exceeds byte bound; no evidence skipped")
         else mret count)
      else
        _ ← admit_growth 256;
        _ ← index_process (h_seq h) (default JNull (json_parse b));
        rebuild_rows max_bytes rows (bytes + (slen b + 1)) (count + 1)
  end.
Definition rebuild_process_graph (max_events max_bytes : Z) : M Z :=
  _ ← lift (page_limits max_events max_bytes "invalid process graph rebuild bounds");
  transaction (
    d ← get_db;
    rebuild_rows max_bytes (take (Z.to_nat max_events) (unindexed d)) 0 0).

(** ** Acknowledgement *)
Definition receipt_count (name : string) (v : json) : result Z :=
  field ← at_ name v;
  _ ← throw_if (negb (is_number_unsigned field))
        (runtime_error "journal receipt count is not an unsigned integer");
  Ok (get_u64 field).

(** does the rejected line name this observation? *)
Definition names_observation (payload : option json) (event_id : json) : result bool :=
  match payload with
  | Some p =>
      if negb (is_object p) then Ok false
      else
        id ← get_string event_id;
        own ← match find "event" p with
              | Some event => if is_object event then value_string "id" event |> (fun v => Ok (Some v))
                              else Ok None
              | None => Ok None
              end;
        if bool_decide (own = Some id) then Ok true
        else r ← value_string "record_id" p; Ok (String.eqb r id)
  | None => Ok false
  end.

Definition rejection_reason (batch : JournalBatch) (received : Z)
    (reasons : list (option string)) (rejection : json) : result (nat * string) :=
  line ← receipt_count "line" rejection;
  _ ← throw_if ((line =? 0) || (received <? line)
                || match reasons !! Z.to_nat (line - 1) with Some (Some _) => true | _ => false end)
        (runtime_error "journal receipt has invalid or repeated rejection line");
  reason ← (at_ "reason" rejection |> get_string);
  _ ← throw_if (negb (String.eqb reason "schema_invalid"
                      || String.eqb reason "unsupported_schema_version"
                      || String.eqb reason "json_invalid"))
        (runtime_error "journal receipt has unknown rejection semantics");
  detail ← (at_ "detail" rejection |> get_string);
  _ ← throw_if (16384 <? slen detail) (runtime_error "journal rejection detail exceeds limit");
  let payload := match entries batch !! Z.to_nat (line - 1) with
                 | Some e => json_parse (body e)
                 | None => None
                 end in
  named ← match find "event_id" rejection with
          | Some id => if is_null id then Ok true else names_observation payload id
          | None => Ok true
          end;
  _ ← throw_if (negb named) (runtime_error "journal rejection identifies another observation");
  Ok (Z.to_nat (line - 1), reason +:+ ": " +:+ detail).

Fixpoint collect_reasons (batch : JournalBatch) (received : Z) (rejected : list json)
    (reasons : list (option string)) : result (list (option string)) :=
  match rejected with
  | [] => Ok reasons
  | r :: rejected =>
      '(i, why) ← rejection_reason batch received reasons r;
      collect_reasons batch received rejected (<[i := Some why]> reasons)
  end.

(** the receipt accounts for every line of the batch: one optional rejection
    reason per entry *)
Definition check_receipt (batch : JournalBatch) (receipt : string)
  : result (list (option string)) :=
  _ ← throw_if (bool_decide (entries batch = []) || (256 * 1024 <? slen receipt))
        (runtime_error "invalid journal receipt size");
  ack ← of_option (json_parse receipt) (json_exception "parse error");
  received ← receipt_count "received" ack;
  accepted ← receipt_count "accepted" ack;
  duplicates ← receipt_count "duplicates" ack;
  let mismatch := runtime_error "journal receipt does not match submitted batch" in
  id ← at_ "batch_id" ack;
  _ ← throw_if (negb (is_text (batch_id batch) id) || negb (received =? zlen (entries batch))
                || (received <? accepted) || (received <? duplicates)) mismatch;
  rejected ← at_ "rejected" ack;
  rejected ← match rejected with JArr l => Ok l | _ => Throw mismatch end;
  _ ← throw_if (negb (accepted + duplicates + zlen rejected =? received))
        (runtime_error "journal receipt does not account for every observation");
  collect_reasons batch received rejected (replicate (length (entries batch)) None).

(** retire one observation: delete it, or keep it as a dead letter *)
Definition retire (e : JournalEntry) (why : option string) : M unit :=
  d ← get_db;
  match why with
  | None =>
      let hit := has_pending (key e) d in
      let d := delete_pending (key e) d in
      put_db (if hit then with_observations (observations d) (add_acknowledged (counters d)) d else d)
  | Some reason =>
      let hit := has_pending (key e) d in
      _ ← raise_if (hit && ((retained_payload_limit config <? slen reason)
                            || (retained_payload_limit config - slen reason <? retained d)))
            (runtime_error "journal rejection metadata quota exhausted; pending evidence retained");
      encrypted ← lift (protect reason (key e));
      _ ← (if hit then admit_growth (slen encrypted) else mret tt);
      d ← get_db;
      put_db (bury_pending (key e) encrypted (slen reason) d)
  end.
Fixpoint retire_all (es : list JournalEntry) (whys : list (option string)) : M unit :=
  match es, whys with
  | e :: es, w :: whys => _ ← retire e w; retire_all es whys
  | _, _ => mret tt
  end.
Definition acknowledge (batch : JournalBatch) (receipt : string) : M unit :=
  reasons ← lift (check_receipt batch receipt);
  transaction (retire_all (entries batch) reasons).

(** ** Identifiers *)
(** [random]: the 32 bytes of the system generator, or its failure *)
Definition persistent_identifier (random : result string) (name : string) : M string :=
  _ ← raise_if (str_empty name || (128 <? slen name) || starts_with "__" name)
        (invalid_argument "invalid persistent identifier name");
  transaction (
    d ← get_db;
    match identifiers d !! name with
    | Some v => mret v
    | None =>
        bytes ← lift random;
        v ← lift (digest bytes);
        _ ← admit_growth (slen name + slen v);
        d ← get_db;
        _ ← put_db (with_identifiers (<[name := v]> (identifiers d)) d);
        mret v
    end).
Definition generation_name : string := "__collector_generation".
Definition next_collector_generation : M Z :=
  transaction (
    d ← get_db;
    previous ← lift (match identifiers d !! generation_name with
                     | Some v => of_option (from_chars_all u64_max v)
                         (runtime_error "collector generation metadata corrupt; refusing identity rollback")
                     | None => Ok 0
                     end);
    _ ← raise_if (previous =? u64_max) (runtime_error "collector generation exhausted");
    _ ← admit_growth 64;
    d ← get_db;
    _ ← put_db (with_identifiers (<[generation_name := to_string (previous + 1)]> (identifiers d)) d);
    mret (previous + 1)).

(** ** The command inbox *)
Definition find_command (k : string) (d : JournalDb) : option CommandRow :=
  List.find (fun c => String.eqb (c_key c) k) (commands d).
Definition find_scoped (scope k : string) (d : JournalDb) : option CommandRow :=
  List.find (fun c => String.eqb (c_scope c) scope && String.eqb (c_key c) k) (commands d).
Definition update_command (scope k : string) (f : CommandRow -> CommandRow) (d : JournalDb)
  : JournalDb :=
  with_commands ((fun c => if String.eqb (c_scope c) scope && String.eqb (c_key c) k
                           then f c else c) <$> commands d) d.
Definition set_state (st : cmd_state) (c : CommandRow) : CommandRow :=
  {| c_key := c_key c; c_scope := c_scope c; c_digest := c_digest c; c_payload := c_payload c;
     c_state := st; c_result := c_result c; c_bytes := c_bytes c |}.
Definition set_result (st : cmd_state) (r : string) (extra : Z) (c : CommandRow) : CommandRow :=
  {| c_key := c_key c; c_scope := c_scope c; c_digest := c_digest c; c_payload := c_payload c;
     c_state := st; c_result := Some r; c_bytes := c_bytes c + extra |}.

Definition receive_command (scope k body : string) : M unit :=
  _ ← raise_if (str_empty scope || (128 <? slen scope) || str_empty k || (128 <? slen k)
                || str_empty body || (8192 <? slen body))
        (invalid_argument "command inbox admission bounds");
  transaction (
    d ← get_db;
    hash ← lift (digest body);
    match find_command k d with
    | Some row =>
        same ← lift (if String.eqb (c_scope row) scope && String.eqb (c_digest row) hash
                     then p ← unprotect (c_payload row) (scope +:+ k +:+ "/command");
                          Ok (String.eqb p body)
                     else Ok false);
        raise_if (negb same)
          (runtime_error "immutable command identity collision; existing command retained")
    | None =>
        _ ← raise_if (65536 <=? zlen (commands d))
              (runtime_error "command tombstone admission limit reached");
        _ ← raise_if ((retained_payload_limit config <? slen body)
                      || (retained_payload_limit config - slen body <? retained d))
              (runtime_error "command inbox quota exhausted; retained commands preserved");
        encrypted ← lift (protect body (scope +:+ k +:+ "/command"));
        _ ← admit_growth (slen encrypted);
        d ← get_db;
        put_db (with_commands (commands d ++ [{| c_key := k; c_scope := scope; c_digest := hash;
          c_payload := encrypted; c_state := Received; c_result := None;
          c_bytes := slen body |}]) d)
    end).

Definition pending_commands (scope : string) (limit : Z) : M (list JournalCommand) :=
  _ ← raise_if (str_empty scope || (128 <? slen scope) || (limit =? 0) || (1000 <? limit))
        (invalid_argument "command inbox read bounds");
  d ← get_db;
  lift (mapM (fun c =>
          _ ← throw_if (match c_state c with
                        | Received | Executing | ResultReady => false | _ => true end)
                (runtime_error "unknown command state; inbox retained");
          b ← unprotect (c_payload c) (scope +:+ c_key c +:+ "/command");
          r ← match c_result c with
              | Some r => unprotect r (scope +:+ c_key c +:+ "/result")
              | None => Ok ""
              end;
          Ok {| jc_key := c_key c; jc_scope := scope; jc_body := b; jc_state := c_state c;
                jc_result := r |})
        (take (Z.to_nat limit)
           (filter (fun c => c_scope c = scope /\ c_state c <> Outboxed) (commands d)))).

Definition begin_command (scope k : string) : M bool :=
  transaction (
    d ← get_db;
    match find_scoped scope k d with
    | Some row =>
        if decide (c_state row = Received) then
          _ ← admit_growth 0;
          d ← get_db;
          _ ← put_db (update_command scope k
                (fun c => if decide (c_state c = Received) then set_state Executing c else c) d);
          mret true
        else mret false
    | None => mret false
    end).

Definition finish_command (scope k result_ : string) : M unit :=
  _ ← raise_if (str_empty result_ || (event_size_limit config <? slen result_))
        (invalid_argument "command outcome bounds");
  transaction (
    d ← get_db;
    match find_scoped scope k d with
    | None => raise (runtime_error "command outcome has no scoped inbox entry")
    | Some row =>
        match c_state row with
        | ResultReady | Outboxed =>
            r ← lift (unprotect (default "" (c_result row)) (scope +:+ k +:+ "/result"));
            raise_if (negb (String.eqb r result_))
              (runtime_error "immutable command outcome collision")
        | Executing =>
            _ ← raise_if ((retained_payload_limit config <? slen result_)
                          || (retained_payload_limit config - slen result_ <? retained d))
                  (runtime_error "outcome quota exhausted; execution intent retained");
            encrypted ← lift (protect result_ (scope +:+ k +:+ "/result"));
            _ ← admit_growth (slen encrypted);
            d ← get_db;
            put_db (update_command scope k (set_result ResultReady encrypted (slen result_)) d)
        | _ => raise (runtime_error "outcome requires committed execution intent")
        end
    end).

Definition mark_command_outboxed (scope k : string) : M unit :=
  transaction (
    d ← get_db;
    match find_scoped scope k d with
    | Some row =>
        match c_state row with
        | Outboxed => mret tt
        | ResultReady =>
            _ ← admit_growth 0;
            d ← get_db;
            put_db (update_command scope k (set_state Outboxed) d)
        | _ => raise (runtime_error "outbox handoff requires retained outcome")
        end
    | None => raise (runtime_error "outbox handoff requires retained outcome")
    end).

(** ** Requests: the public operations, and sequences of them *)
Inductive request :=
| Append (line : string)
| AppendCheckpointed (line source checkpoint : string) (expected : Z)
| AdvanceCheckpoint (source checkpoint : string) (expected : Z)
| ReadCheckpoint (source : string)
| Peek (max_events max_bytes : Z)
| InspectPending (after max_events max_bytes : Z)
| InspectHistory (after max_events max_bytes : Z)
| DeadLetters (limit : Z)
| RebuildGraph (max_events max_bytes : Z)
| Acknowledge (batch : JournalBatch) (receipt : string)
| Identifier (random : result string) (name : string)
| NextGeneration
| ReceiveCommand (scope k body : string)
| PendingCommands (scope : string) (limit : Z)
| BeginCommand (scope k : string)
| FinishCommand (scope k result_ : string)
| MarkOutboxed (scope k : string).
Inductive response :=
| Done
| Checkpoint (c : option SourceCheckpoint)
| Batch (b : option JournalBatch)
| Page (l : list JournalInspectionEntry)
| Letters (l : list JournalDeadLetter)
| Number (n : Z)
| Name (s : string)
| Commands (l : list JournalCommand)
| Started (b : bool).

Definition answering {A} (f : A -> response) (m : M A) : M response := a ← m; mret (f a).
Definition perform (r : request) : M response :=
  match r with
  | Append line => answering (fun _ => Done) (append line)
  | AppendCheckpointed l s c e => answering (fun _ => Done) (append_checkpointed l s c e)
  | AdvanceCheckpoint s c e => answering (fun _ => Done) (advance_checkpoint s c e)
  | ReadCheckpoint s => answering Checkpoint (source_checkpoint s)
  | Peek n b => answering Batch (peek n b)
  | InspectPending a n b => answering Page (inspect_pending a n b)
  | InspectHistory a n b => answering Page (inspect_process_history a n b)
  | DeadLetters n => answering Letters (dead_letters n)
  | RebuildGraph n b => answering Number (rebuild_process_graph n b)
  | Acknowledge b r => answering (fun _ => Done) (acknowledge b r)
  | Identifier rnd n => answering Name (persistent_identifier rnd n)
  | NextGeneration => answering Number next_collector_generation
  | ReceiveCommand s k b => answering (fun _ => Done) (receive_command s k b)
  | PendingCommands s n => answering Commands (pending_commands s n)
  | BeginCommand s k => answering Started (begin_command s k)
  | FinishCommand s k r => answering (fun _ => Done) (finish_command s k r)
  | MarkOutboxed s k => answering (fun _ => Done) (mark_command_outboxed s k)
  end.
(** the state after a sequence of requests, each answered or refused *)
Fixpoint perform_all (rs : list request) (s : JState) : JState :=
  match rs with
  | [] => s
  | r :: rs => perform_all rs (perform r s).2
  end.
End Operations.
