(* ===== verification/JournalFacts.v ===== *)
(** * Invariants of the journal

    Every public operation of the journal either throws and leaves the database
    as it was, or keeps the invariant [journal_ok]: the trigger-maintained
    counters equal what the tables hold, keys are unique, sequence numbers
    increase, and the retained bytes respect the quota. *)

From stdpp Require Import sorting.
From S2P Require Import Prelude Crc32 Telemetry Identity Json ProcessGraph Journal.

(** ** Inverting runs *)
Lemma M_bind_Ok {A B} (m : M A) (f : A -> M B) s b s' :
  (m ≫= f) s = (Ok b, s') -> exists a s1, m s = (Ok a, s1) /\ f a s1 = (Ok b, s').
Proof. unfold mbind, M_bind. destruct (m s) as [[a|e] s1]; [eauto|done]. Qed.
Lemma lift_Ok {A} (r : result A) s a s' : lift r s = (Ok a, s') -> r = Ok a /\ s' = s.
Proof. unfold lift. naive_solver. Qed.
Lemma raise_if_Ok b e s u s' : raise_if b e s = (Ok u, s') -> b = false /\ s' = s.
Proof. unfold raise_if, lift. destruct b; simpl; naive_solver. Qed.
Lemma get_db_Ok s d s' : get_db s = (Ok d, s') -> d = db s /\ s' = s.
Proof. unfold get_db. naive_solver. Qed.
Lemma put_db_Ok d s u s' : put_db d s = (Ok u, s') -> db s' = d.
Proof. unfold put_db. intros [= _ <-]. done. Qed.
Lemma mret_Ok {A} (a : A) s b s' : (mret a : M A) s = (Ok b, s') -> b = a /\ s' = s.
Proof. unfold mret, M_ret. naive_solver. Qed.
Lemma transaction_Ok {A} (m : M A) s a s' : transaction m s = (Ok a, s') -> m s = (Ok a, s').
Proof. unfold transaction. destruct (m s) as [[]]; naive_solver. Qed.
Lemma transaction_Throw {A} (m : M A) s e s' : transaction m s = (Throw e, s') -> db s' = db s.
Proof. unfold transaction. destruct (m s) as [[]]; [done|]. by intros [= _ <-]. Qed.
Lemma admit_growth_Ok disk cfg n s u s' : admit_growth disk cfg n s = (Ok u, s') -> s' = s.
Proof. unfold admit_growth. destruct (admission _ _ _ _); naive_solver. Qed.

(** Invert a successful run in [H], step by step. *)
Ltac inv_step H :=
  lazymatch type of H with
  | (_ ≫= _) _ = (Ok _, _) =>
      let a := fresh "a" in let s := fresh "s" in let Ha := fresh "Ha" in
      apply M_bind_Ok in H as (a & s & Ha & H); cbv beta in H; inv_step Ha
  | transaction _ _ = (Ok _, _) => apply transaction_Ok in H; inv_step H
  | lift _ _ = (Ok _, _) => apply lift_Ok in H as [H ?]; subst
  | raise_if _ _ _ = (Ok _, _) => apply raise_if_Ok in H as [H ?]; subst
  | get_db _ = (Ok _, _) => apply get_db_Ok in H as [? ?]; subst
  | put_db _ _ = (Ok _, _) => apply put_db_Ok in H
  | admit_growth _ _ _ _ = (Ok _, _) => apply admit_growth_Ok in H as ?; subst
  | mret _ _ = (Ok _, _) => apply mret_Ok in H as [? ?]; subst
  | raise _ _ = (Ok _, _) => done
  | _ => idtac
  end.
Ltac inv_run H :=
  repeat (progress (inv_step H)).

(** ** Refused operations change nothing *)
Definition readonly {A} (m : M A) : Prop := forall s, db (m s).2 = db s.
Definition atomic {A} (m : M A) : Prop := forall s e s', m s = (Throw e, s') -> db s' = db s.

Lemma readonly_atomic {A} (m : M A) : readonly m -> atomic m.
Proof. intros H s e s' E. specialize (H s). by rewrite E in H. Qed.
Lemma readonly_lift {A} (r : result A) : readonly (lift r).
Proof. done. Qed.
Lemma readonly_get : readonly get_db.
Proof. done. Qed.
Lemma readonly_ret {A} (a : A) : readonly (mret a : M A).
Proof. done. Qed.
Lemma readonly_raise_if b e : readonly (raise_if b e).
Proof. done. Qed.
Lemma readonly_bind {A B} (m : M A) (f : A -> M B) :
  readonly m -> (forall a, readonly (f a)) -> readonly (m ≫= f).
Proof.
  intros Hm Hf s. specialize (Hm s). unfold mbind, M_bind.
  destruct (m s) as [[a|e] s1]; simpl in *; [|done]. by rewrite Hf.
Qed.
Lemma atomic_bind {A B} (m : M A) (f : A -> M B) :
  readonly m -> (forall a, atomic (f a)) -> atomic (m ≫= f).
Proof.
  intros Hm Hf s e s'. specialize (Hm s). unfold mbind, M_bind.
  destruct (m s) as [[a|e1] s1]; simpl in *.
  - intros E. rewrite (Hf a s1 e s' E). done.
  - by intros [= _ <-].
Qed.
Lemma atomic_transaction {A} (m : M A) : atomic (transaction m).
Proof. intros s e s'. apply transaction_Throw. Qed.
Lemma atomic_answering {A} (f : A -> response) m : atomic m -> atomic (answering f m).
Proof.
  intros Hm s e s'. unfold answering, mbind, M_bind.
  destruct (m s) as [[a|e1] s1] eqn:E; [done|]. intros [= _ <-]. by eapply Hm.
Qed.

Create HintDb journal.
#[export] Hint Resolve readonly_atomic readonly_lift readonly_get readonly_ret readonly_raise_if
  readonly_bind atomic_bind atomic_transaction atomic_answering : journal.

Section Facts.
Context (cng_sha256 : string -> string + list Z).
Context (valid_utf8 : string -> bool).
Context (json_parse : string -> option json).
Context (protect unprotect : string -> string -> result string).
Context (disk : JournalDb -> DiskReport).
Context (config : JournalConfig).

#[local] Abbreviation perform :=
  (Journal.perform cng_sha256 valid_utf8 json_parse protect unprotect disk config).
#[local] Abbreviation perform_all :=
  (Journal.perform_all cng_sha256 valid_utf8 json_parse protect unprotect disk config).
#[local] Abbreviation insert :=
  (Journal.insert cng_sha256 valid_utf8 json_parse protect disk config).

Ltac atomic_op :=
  repeat first
    [ apply atomic_transaction
    | apply atomic_bind; [auto with journal|intros ?]
    | apply readonly_atomic; auto with journal ].

(** the reading requests *)
Definition reads (r : request) : bool :=
  match r with
  | ReadCheckpoint _ | Peek _ _ | InspectPending _ _ _ | InspectHistory _ _ _
  | DeadLetters _ | PendingCommands _ _ => true
  | _ => false
  end.
Lemma readonly_answering {A} (f : A -> response) m : readonly m -> readonly (answering f m).
Proof. intros H. apply readonly_bind; auto with journal. Qed.
Lemma reads_readonly r : reads r = true -> readonly (perform r).
Proof.
  destruct r; try done; intros _; apply readonly_answering.
  - apply readonly_bind; [auto with journal|intros []]. apply readonly_bind; [auto with journal|].
    intros d. destruct (checkpoints d !! source); auto 6 with journal.
  - apply readonly_bind; [auto with journal|intros []]. apply readonly_bind; [auto with journal|].
    intros d. destruct (pending_rows d); [auto with journal|].
    apply readonly_bind; [auto with journal|]. intros [|? ?]; auto with journal.
  - unfold inspect_pending. auto 10 with journal.
  - unfold inspect_process_history. auto 10 with journal.
  - unfold dead_letters. auto 10 with journal.
  - unfold pending_commands. auto 10 with journal.
Qed.
Lemma perform_atomic r : atomic (perform r).
Proof.
  destruct (reads r) eqn:R; [by apply readonly_atomic, reads_readonly|].
  destruct r; try done; apply atomic_answering.
  - unfold append. atomic_op.
  - unfold append_checkpointed. atomic_op.
  - unfold advance_checkpoint. atomic_op.
  - unfold rebuild_process_graph. atomic_op.
  - unfold acknowledge. atomic_op.
  - unfold persistent_identifier. atomic_op.
  - unfold next_collector_generation. atomic_op.
  - unfold receive_command. atomic_op.
  - unfold begin_command. atomic_op.
  - unfold finish_command. atomic_op.
  - unfold mark_command_outboxed. atomic_op.
Qed.

(** Atomicity of the journal.  A public operation that throws - a refused
    argument, an exhausted quota, a full disk, an invalid receipt, a failed
    decryption - leaves the database exactly as it was. *)
Theorem refused_request_changes_nothing (r : request) (s : JState) (e : exn) :
  (perform r s).1 = Throw e -> db (perform r s).2 = db s.
Proof.
  intros H. apply (perform_atomic r s e). destruct (perform r s); simpl in *. by subst.
Qed.

(** ** The invariant *)
Definition increasing (l : list Z) : Prop :=
  StronglySorted Z.lt l /\ Forall (fun z => 0 < z) l.

Record tables_ok (d : JournalDb) : Prop := {
  ok_retained : n_retained (counters d) = zsum o_bytes (observations d);
  ok_sizes : Forall (fun o => 0 <= o_bytes o) (observations d);
  ok_npending : n_pending (counters d) =
    zlen (filter (fun o => o_state o = Pending) (observations d));
  ok_ndead : n_dead (counters d) = zlen (filter (fun o => o_state o = Dead) (observations d));
  ok_nhistory : n_history_bytes (counters d) = zsum h_bytes (process_history d) /\
    n_history_count (counters d) = zlen (process_history d);
  ok_ngraph : n_graph_count (counters d) = zlen (process_graph d) /\
    n_graph_unresolved (counters d) = zlen (filter (fun g => g_quality g <> 0) (process_graph d));
  ok_keys : NoDup (o_key <$> observations d);
  ok_history_keys : NoDup (h_key <$> process_history d);
  ok_command_keys : NoDup (c_key <$> commands d);
  ok_seqs : increasing (o_seq <$> observations d);
  ok_history_seqs : increasing (h_seq <$> process_history d);
  ok_graph_seqs : NoDup (g_seq <$> process_graph d) /\
    (g_seq <$> process_graph d) ⊆ (h_seq <$> process_history d)
}.
Definition journal_ok (d : JournalDb) : Prop :=
  tables_ok d /\ retained d <= retained_payload_limit config.

Lemma next_seq_above {A} (f : A -> Z) l : Forall (fun z => z < next_seq f l) (f <$> l).
Proof.
  unfold next_seq. induction l as [|a l IH]; simpl; constructor; [lia|].
  eapply Forall_impl; [exact IH|]. simpl. intros. lia.
Qed.
Lemma next_seq_pos {A} (f : A -> Z) l : 0 < next_seq f l.
Proof. unfold next_seq. induction l as [|a l IH]; simpl; lia. Qed.
Lemma increasing_snoc l z : increasing l -> Forall (fun x => x < z) l -> 0 < z -> increasing (l ++ [z]).
Proof.
  intros [Hs Hp] Hl Hz. split; [|apply Forall_app; auto].
  apply StronglySorted_app_2; [|done|repeat constructor].
  intros x y Hx ->%list_elem_of_singleton. by eapply (proj1 (Forall_forall _ _) Hl).
Qed.

(** ** Row effects keep the tables consistent *)
Lemma not_has_key {A} (f : A -> string) k l :
  existsb (fun a => String.eqb (f a) k) l = false -> k ∉ (f <$> l).
Proof.
  induction l as [|a l IH]; simpl; intros H; [by intros ?%not_elem_of_nil|].
  apply orb_false_iff in H as [Ha H]. apply String.eqb_neq in Ha.
  rewrite elem_of_cons. intros [->|Hk]; [done|by apply IH].
Qed.
Lemma NoDup_snoc {A} (l : list A) a : NoDup l -> a ∉ l -> NoDup (l ++ [a]).
Proof.
  intros Hl Ha. apply NoDup_app. split; [done|]. split; [|apply NoDup_singleton].
  intros x Hx ->%list_elem_of_singleton. done.
Qed.

Lemma insert_observation_ok k p n proto d :
  tables_ok d -> has_observation k d = false -> 0 <= n ->
  tables_ok (insert_observation k p n proto d).
Proof.
  intros [] Hk Hn. unfold insert_observation. constructor; simpl; try done.
  - rewrite zsum_app, zsum_cons. zlen_nil_simpl. simpl. lia.
  - apply Forall_app. split; [done|]. by repeat constructor.
  - rewrite filter_app, zlen_app, filter_cons_True, filter_nil, zlen_cons by done. zlen_nil_simpl. lia.
  - rewrite filter_app, zlen_app, filter_cons_False, filter_nil by done. zlen_nil_simpl. lia.
  - rewrite fmap_app. apply NoDup_snoc; [done|]. by apply not_has_key.
  - rewrite fmap_app. apply increasing_snoc; [done|apply next_seq_above|apply next_seq_pos].
Qed.
Lemma insert_observation_retained k p n proto d :
  retained (insert_observation k p n proto d) = retained d + n.
Proof. unfold retained. simpl. lia. Qed.

Lemma insert_history_ok k p n d :
  tables_ok d -> has_history k d = false -> tables_ok (insert_history k p n d).2.
Proof.
  intros [] Hk. unfold insert_history. constructor; simpl; try done.
  - rewrite zsum_app, zsum_cons, zlen_app, zlen_cons. zlen_nil_simpl. simpl. lia.
  - rewrite fmap_app. apply NoDup_snoc; [done|]. by apply not_has_key.
  - rewrite fmap_app. apply increasing_snoc; [done|apply next_seq_above|apply next_seq_pos].
  - destruct ok_graph_seqs0 as [? Hsub]. split; [done|]. rewrite fmap_app.
    intros x Hx. apply elem_of_app. left. by apply Hsub.
Qed.
Lemma insert_graph_ok row d :
  tables_ok d -> g_seq row ∈ (h_seq <$> process_history d) -> tables_ok (insert_graph row d).
Proof.
  intros Hd Hin. unfold insert_graph. destruct (existsb _ _) eqn:E; [done|].
  destruct Hd. constructor; simpl; try done.
  - destruct ok_ngraph0. rewrite filter_app, !zlen_app, zlen_cons. zlen_nil_simpl.
    split; [lia|]. destruct (Z.eqb_spec (g_quality row) 0).
    + rewrite filter_cons_False, filter_nil by auto. zlen_nil_simpl. lia.
    + rewrite filter_cons_True, filter_nil, zlen_cons by done. zlen_nil_simpl. lia.
  - destruct ok_graph_seqs0 as [Hn Hs]. rewrite fmap_app. split.
    + apply NoDup_snoc; [done|]. intros Hg. clear -E Hg.
      induction (process_graph d) as [|g l IH]; simpl in *; [by apply not_elem_of_nil in Hg|].
      apply orb_false_iff in E as [E1 E2]. apply elem_of_cons in Hg as [Hg|Hg]; [lia|auto].
    + intros x [Hx|Hx]%elem_of_app; [by apply Hs|].
      simpl in Hx. apply list_elem_of_singleton in Hx as ->. done.
Qed.
Lemma insert_graph_retained row d : retained (insert_graph row d) = retained d.
Proof. unfold insert_graph. destruct (existsb _ _); [done|]. unfold retained. simpl. lia. Qed.

(** a list split by a boolean test *)
Lemma zsum_split {A} (f : A -> Z) (p : A -> bool) l :
  zsum f (filter (fun a => p a = false) l) = zsum f l - zsum f (filter (fun a => p a = true) l).
Proof.
  induction l as [|a l IH]; [done|]. rewrite !filter_cons, zsum_cons.
  destruct (p a); simpl; rewrite ?zsum_cons, IH; lia.
Qed.
Lemma zlen_zsum {A} (l : list A) : zlen l = zsum (fun _ => 1) l.
Proof. induction l as [|a l IH]; [done|]. rewrite zlen_cons, zsum_cons. lia. Qed.
Lemma Forall_sublist {A} (P : A -> Prop) l k : l `sublist_of` k -> Forall P k -> Forall P l.
Proof.
  intros Hs Hk. apply Forall_forall. intros x Hx. eapply Forall_forall; [exact Hk|].
  by eapply elem_of_sublist.
Qed.
Lemma increasing_sublist l k : l `sublist_of` k -> increasing k -> increasing l.
Proof.
  intros Hs [Hk Hp]. split; [|by eapply Forall_sublist].
  clear Hp. revert l Hs. induction Hk as [|z k Hk IH Hf]; intros l Hs.
  - apply sublist_nil_r in Hs as ->. constructor.
  - apply sublist_cons_r in Hs as [Hs|(l' & -> & Hs)]; [by apply IH|].
    constructor; [by apply IH|]. by eapply Forall_sublist.
Qed.
Lemma filter_comm {A} (P Q : A -> Prop) `{!forall a, Decision (P a), !forall a, Decision (Q a)}
    (l : list A) : filter P (filter Q l) = filter Q (filter P l).
Proof.
  induction l as [|a l IH]; [done|]. rewrite !filter_cons.
  repeat (case_decide; rewrite ?filter_cons); congruence || done.
Qed.
Lemma filter_pending_split k (l : list Observation) :
  filter (fun o => o_state o = Pending) (filter (fun o => is_pending_key k o = true) l) =
  filter (fun o => is_pending_key k o = true) l.
Proof.
  induction l as [|o l IH]; [done|]. rewrite filter_cons. case_decide as H; [|done].
  rewrite filter_cons_True, IH; [done|]. unfold is_pending_key in H.
  apply bool_decide_eq_true in H. apply H.
Qed.

Lemma delete_pending_ok k d : tables_ok d -> tables_ok (delete_pending k d).
Proof.
  intros []. unfold delete_pending. constructor; simpl; try done.
  - rewrite zsum_split. lia.
  - eapply Forall_sublist; [apply sublist_filter|done].
  - rewrite (filter_comm (fun o => o_state o = Pending)), !zlen_zsum, zsum_split, <- !zlen_zsum.
    rewrite (filter_comm (fun a => is_pending_key k a = true)), filter_pending_split. lia.
  - rewrite (filter_comm (fun o => o_state o = Dead)), !zlen_zsum, zsum_split, <- !zlen_zsum.
    assert (filter (fun o => is_pending_key k o = true)
      (filter (fun o => o_state o = Dead) (observations d)) = []) as ->.
    { clear. induction (observations d) as [|o l IH]; [done|]. rewrite filter_cons.
      case_decide; [|done]. rewrite filter_cons_False; [done|].
      unfold is_pending_key. rewrite bool_decide_eq_true. intros [_ ?]. congruence. }
    zlen_nil_simpl. lia.
  - eapply sublist_NoDup; [exact ok_keys0|]. apply fmap_sublist, sublist_filter.
  - eapply increasing_sublist; [|exact ok_seqs0]. apply fmap_sublist, sublist_filter.
Qed.
Lemma zsum_nonneg_Forall {A} (f : A -> Z) l : Forall (fun a => 0 <= f a) l -> 0 <= zsum f l.
Proof. induction 1; [done|]. rewrite zsum_cons. lia. Qed.
Lemma delete_pending_retained k d : tables_ok d -> retained (delete_pending k d) <= retained d.
Proof.
  intros []. unfold retained. simpl.
  assert (0 <= zsum o_bytes (filter (fun o => is_pending_key k o = true) (observations d))); [|lia].
  apply zsum_nonneg_Forall. eapply Forall_sublist; [apply sublist_filter|done].
Qed.

Lemma bury_counts k w n (l : list Observation) :
  let f := fun o => if is_pending_key k o then bury w n o else o in
  let hit := filter (fun o => is_pending_key k o = true) l in
  zsum o_bytes (f <$> l) = zsum o_bytes l + zlen hit * n /\
  zlen (filter (fun o => o_state o = Pending) (f <$> l)) =
    zlen (filter (fun o => o_state o = Pending) l) - zlen hit /\
  zlen (filter (fun o => o_state o = Dead) (f <$> l)) =
    zlen (filter (fun o => o_state o = Dead) l) + zlen hit.
Proof.
  intros f hit. subst hit. induction l as [|o l IH]; [done|]. rewrite fmap_cons.
  generalize dependent (f <$> l). intros fl (H1 & H2 & H3). subst f. cbv beta.
  rewrite !zsum_cons, !filter_cons.
  destruct (is_pending_key k o) eqn:E.
  - assert (Hp : o_state o = Pending)
      by (unfold is_pending_key in E; apply bool_decide_eq_true in E; apply E).
    rewrite Hp. simpl. rewrite !zlen_cons. split; [|split]; lia.
  - simpl. destruct (o_state o); simpl; rewrite ?zlen_cons; split; [|split| |split]; lia.
Qed.
Lemma bury_pending_ok k w n d : tables_ok d -> 0 <= n -> tables_ok (bury_pending k w n d).
Proof.
  intros [] Hn. destruct (bury_counts k w n (observations d)) as (H1 & H2 & H3).
  unfold bury_pending. constructor; simpl; try done; try lia.
  - apply Forall_fmap. eapply Forall_impl; [done|]. simpl. intros o Ho.
    destruct (is_pending_key k o); simpl; lia.
  - assert (o_key <$> ((fun o => if is_pending_key k o then bury w n o else o) <$> observations d)
      = o_key <$> observations d) as ->; [|done].
    rewrite <- list_fmap_compose. apply list_fmap_ext. intros i o _. simpl.
    by destruct (is_pending_key k o).
  - assert (o_seq <$> ((fun o => if is_pending_key k o then bury w n o else o) <$> observations d)
      = o_seq <$> observations d) as ->; [|done].
    rewrite <- list_fmap_compose. apply list_fmap_ext. intros i o _. simpl.
    by destruct (is_pending_key k o).
Qed.

Lemma hits_at_most_one k (l : list Observation) :
  NoDup (o_key <$> l) ->
  zlen (filter (fun o => is_pending_key k o = true) l) = if existsb (is_pending_key k) l then 1 else 0.
Proof.
  induction l as [|o l IH]; simpl; intros H; [done|]. apply NoDup_cons in H as [Hn H].
  rewrite filter_cons. destruct (is_pending_key k o) eqn:E; simpl; [|by apply IH].
  rewrite zlen_cons. assert (filter (fun o => is_pending_key k o = true) l = []) as ->; [|done].
  assert (o_key o = k) as <- by (unfold is_pending_key in E; apply bool_decide_eq_true in E; apply E).
  clear -Hn. induction l as [|p l IH]; [done|].
  rewrite fmap_cons, elem_of_cons in Hn. rewrite filter_cons_False; [apply IH; tauto|].
  unfold is_pending_key. rewrite bool_decide_eq_true. intros [E _]. apply Hn. by left.
Qed.
Lemma bury_pending_retained k w n d :
  tables_ok d ->
  retained (bury_pending k w n d) = retained d + (if has_pending k d then n else 0).
Proof.
  intros []. unfold retained, has_pending. simpl. rewrite hits_at_most_one by done.
  destruct (existsb _ _); lia.
Qed.

(** effects on the tables without counters *)
Lemma with_commands_ok l d : tables_ok d -> NoDup (c_key <$> l) -> tables_ok (with_commands l d).
Proof. intros [] H. by constructor. Qed.
Lemma with_checkpoints_ok m d : tables_ok d -> tables_ok (with_checkpoints m d).
Proof. intros []. by constructor. Qed.
Lemma with_identifiers_ok m d : tables_ok d -> tables_ok (with_identifiers m d).
Proof. intros []. by constructor. Qed.
Lemma acknowledged_ok d : tables_ok d ->
  tables_ok (with_observations (observations d) (add_acknowledged (counters d)) d).
Proof. intros []. by constructor. Qed.

(** ** What a successful insertion does *)
Lemma index_process_run seq j s u s' :
  index_process cng_sha256 valid_utf8 seq j s = (Ok u, s') ->
  exists row, g_seq row = seq /\ db s' = insert_graph row (db s).
Proof. unfold index_process. intros H. inv_run H. eexists. split; [|exact H]. done. Qed.

(** the rows a line adds: possibly an archived lifecycle record with its graph
    entry, and possibly the pending observation *)
Definition archived (line k payload : string) (d d1 : JournalDb) : Prop :=
  ((d1 = d /\ (line_lifecycle (json_parse line) = true -> has_history k d = true)) \/
   exists row, has_history k d = false /\ line_lifecycle (json_parse line) = true /\
     g_seq row = (insert_history k payload (slen line) d).1 /\
     d1 = insert_graph row (insert_history k payload (slen line) d).2 /\
     retained d + slen line <= retained_payload_limit config -
       (if has_observation k d then 0 else slen line)).
Lemma insert_run line k s u s' :
  insert line k s = (Ok u, s') ->
  (db s' = db s /\ has_observation k (db s) = true /\
   (line_lifecycle (json_parse line) = true -> has_history k (db s) = true)) \/
  exists payload d1, protect line k = Ok payload /\ archived line k payload (db s) d1 /\
    (if has_observation k (db s) then db s' = d1
     else db s' = insert_observation k payload (slen line) (line_protocol (json_parse line)) d1 /\
          retained (db s) + slen line <= retained_payload_limit config).
Proof.
  unfold Journal.insert. intros H. pose proof (slen_nonneg line) as Hlen.
  apply M_bind_Ok in H as (d & s1 & Hd & H). inv_step Hd. cbv zeta in H.
  set (p := has_observation k (db s)) in *.
  set (lc := line_lifecycle (json_parse line)) in *.
  set (h := has_history k (db s)) in *.
  destruct (p && (negb lc || lc && h)) eqn:E.
  { inv_step H. left. split; [done|]. apply andb_true_iff in E as [Ep E]. split; [exact Ep|].
    fold lc. intros El. rewrite El in E. exact E. }
  right. inv_step H.
  apply M_bind_Ok in H as (payload & s1 & Hp & H). inv_step Hp. exists payload.
  apply M_bind_Ok in H as ([] & s1 & Hadm & H). inv_step Hadm.
  apply M_bind_Ok in H as ([] & s2 & Harch & H).
  set (ar := lc && negb (lc && h)) in *.
  assert (Hend : if p then s' = s2 else db s' =
    insert_observation k payload (slen line) (line_protocol (json_parse line)) (db s2)).
  { destruct p; inv_run H; [done|exact H]. }
  clear H. exists (db s2). split; [done|]. split.
  - destruct ar eqn:Ear; [right|].
    2:{ inv_step Harch. left. split; [done|]. fold lc h. intros El. unfold ar in Ear.
        rewrite El in Ear. by apply negb_false_iff in Ear. }
    apply M_bind_Ok in Harch as (d & s3 & Hd & Harch). inv_step Hd.
    destruct (insert_history k payload (slen line) (db s)) as [seq d1] eqn:Eh.
    apply M_bind_Ok in Harch as ([] & s3 & Hput & Harch). inv_step Hput.
    apply index_process_run in Harch as (row & Hrow & Hdb).
    exists row. rewrite Hput in Hdb. unfold ar in Ear.
    apply andb_true_iff in Ear as [El Enh]. rewrite El in Enh. apply negb_true_iff in Enh.
    split; [exact Enh|]. split; [done|]. split; [done|]. split; [done|]. fold p. destruct p; lia.
  - fold p. destruct p; [by subst|]. split; [done|]. destruct ar; lia.
Qed.

Lemma insert_history_retained k p n d : retained (insert_history k p n d).2 = retained d + n.
Proof. unfold retained. simpl. lia. Qed.
Lemma insert_graph_observations row d : observations (insert_graph row d) = observations d.
Proof. unfold insert_graph. by destruct (existsb _ _). Qed.
Lemma archived_observations line k p d d1 : archived line k p d d1 -> observations d1 = observations d.
Proof.
  intros [[-> _]|(row & _ & _ & _ & -> & _)]; [done|]. by rewrite insert_graph_observations.
Qed.
Lemma archived_ok line k p d d1 :
  archived line k p d d1 -> tables_ok d ->
  tables_ok d1 /\
  (d1 = d \/ (retained d1 = retained d + slen line /\
     retained d1 <= retained_payload_limit config - (if has_observation k d then 0 else slen line))).
Proof.
  intros [[-> _]|(row & Hk & _ & Hseq & -> & Hq)] Hd; [auto|]. split.
  - apply insert_graph_ok; [by apply insert_history_ok|]. rewrite Hseq. simpl.
    rewrite fmap_app. apply elem_of_app. right. by left.
  - right. rewrite insert_graph_retained, insert_history_retained. lia.
Qed.
Lemma insert_ok line k s u s' :
  insert line k s = (Ok u, s') -> journal_ok (db s) -> journal_ok (db s').
Proof.
  intros H [Hd Hq]. pose proof (slen_nonneg line).
  apply insert_run in H as [(-> & _)|(p & d1 & _ & Ha & H)]; [done|].
  destruct (archived_ok _ _ _ _ _ Ha Hd) as [Hd1 Hr].
  pose proof (archived_observations _ _ _ _ _ Ha) as Ho.
  destruct (has_observation k (db s)) eqn:Hk.
  - rewrite H. split; [done|]. destruct Hr as [->|[? ?]]; lia.
  - destruct H as [-> Hq']. split.
    + apply insert_observation_ok; [done| |done]. unfold has_observation in *. by rewrite Ho.
    + rewrite insert_observation_retained. destruct Hr as [->|[? ?]]; lia.
Qed.

(** ** Every successful operation keeps the invariant *)
Definition keeps {A} (m : M A) : Prop :=
  forall s a s', m s = (Ok a, s') -> journal_ok (db s) -> journal_ok (db s').
Lemma keeps_readonly {A} (m : M A) : readonly m -> keeps m.
Proof. intros H s a s' E Hok. specialize (H s). rewrite E in H. simpl in H. by rewrite H. Qed.
Lemma keeps_bind {A B} (m : M A) (f : A -> M B) : keeps m -> (forall a, keeps (f a)) -> keeps (m ≫= f).
Proof.
  intros Hm Hf s b s' E Hok. apply M_bind_Ok in E as (a & s1 & H1 & H2).
  eapply Hf; [exact H2|]. by eapply Hm.
Qed.
Lemma keeps_transaction {A} (m : M A) : keeps m -> keeps (transaction m).
Proof. intros H s a s' E. apply transaction_Ok in E. by eapply H. Qed.
Lemma keeps_insert line k : keeps (insert line k).
Proof. intros s a s' E. eapply insert_ok, E. Qed.
Lemma readonly_admit n : readonly (admit_growth disk config n).
Proof. intros s. unfold admit_growth. by destruct (admission _ _ _ _). Qed.
#[local] Hint Resolve keeps_readonly keeps_bind keeps_transaction keeps_insert readonly_admit : journal.

Lemma keeps_compare_and_swap source cp marker expected refusal (rec : M unit) :
  (forall s u s', rec s = (Ok u, s') -> checkpoints (db s') = checkpoints (db s)) ->
  keeps rec -> keeps (compare_and_swap protect unprotect disk config source cp marker expected refusal rec).
Proof.
  intros Hrec Hk s u s' H Hok. unfold compare_and_swap in H.
  apply transaction_Ok in H. inv_step H. cbv zeta in H.
  apply M_bind_Ok in H as (rev & s1 & Hr & H). inv_step Hr.
  destruct (negb (rev =? expected)).
  { apply M_bind_Ok in H as (same & s1 & Hs & H). inv_step Hs.
    destruct same; inv_step H; done. }
  inv_step H. apply M_bind_Ok in H as ([] & s1 & Hrun & H).
  apply (Hk _ _ _ Hrun) in Hok as Hok1. pose proof (Hrec _ _ _ Hrun) as Hcp.
  unfold save_checkpoint in H. inv_run H. destruct Hok1 as [Ht Hq].
  rewrite H. split; [by apply with_checkpoints_ok|].
  unfold retained in *. simpl. rewrite map_sum_insert, Hcp. simpl.
  rewrite Hcp in *. destruct (checkpoints (db s) !! source); lia.
Qed.

Lemma insert_graph_history row d : process_history (insert_graph row d) = process_history d.
Proof. unfold insert_graph. by destruct (existsb _ _). Qed.
Lemma rebuild_rows_ok mb rows bytes count s n s' :
  rebuild_rows cng_sha256 valid_utf8 json_parse unprotect disk config mb rows bytes count s = (Ok n, s') ->
  (h_seq <$> rows) ⊆ (h_seq <$> process_history (db s)) -> journal_ok (db s) -> journal_ok (db s').
Proof.
  revert bytes count s; induction rows as [|h rows IH]; intros bytes count s H Hin Hok;
    cbn [rebuild_rows] in H; [by inv_step H|].
  inv_step H. inv_step H. destruct (mb - bytes <? _).
  { destruct (count =? 0); inv_step H; done. }
  inv_step H. apply M_bind_Ok in H as ([] & s1 & Hi & H).
  apply index_process_run in Hi as (row & Hrow & Hdb).
  apply IH in H; [done| |]; rewrite Hdb, ?insert_graph_history.
  - intros x Hx. apply Hin. rewrite fmap_cons. apply elem_of_cons. by right.
  - destruct Hok as [Ht Hq]. split; [|by rewrite insert_graph_retained].
    apply insert_graph_ok; [done|]. rewrite Hrow. apply Hin. rewrite fmap_cons.
    apply elem_of_cons. by left.
Qed.

Lemma retire_ok e w : keeps (retire protect disk config e w).
Proof.
  intros s u s' H [Ht Hq]. unfold retire in H. inv_step H. destruct w as [why|].
  - pose proof (slen_nonneg why). inv_step H. inv_step H.
    apply M_bind_Ok in H as ([] & s1 & Hadm & H).
    assert (s1 = s) as -> by (destruct (has_pending _ _); by inv_step Hadm).
    inv_run H. rewrite H. split; [by apply bury_pending_ok|].
    rewrite bury_pending_retained by done. destruct (has_pending (key e) (db s)); simpl in *; lia.
  - cbv zeta in H. inv_step H. rewrite H.
    pose proof (delete_pending_ok (key e) _ Ht) as Hd.
    pose proof (delete_pending_retained (key e) _ Ht).
    destruct (has_pending (key e) (db s)); [|by split; [|lia]].
    split; [by apply acknowledged_ok|]. unfold retained in *. simpl in *. lia.
Qed.
Lemma retire_all_ok es ws : keeps (retire_all protect disk config es ws).
Proof.
  revert ws; induction es as [|e es IH]; intros [|w ws]; cbn [retire_all]; auto with journal.
  apply keeps_bind; [apply retire_ok|auto].
Qed.

Lemma with_identifiers_keeps m d : journal_ok d -> journal_ok (with_identifiers m d).
Proof. intros [? ?]. split; [by apply with_identifiers_ok|done]. Qed.

Lemma update_command_keys scope k f d :
  (forall c, c_key (f c) = c_key c) ->
  c_key <$> commands (update_command scope k f d) = c_key <$> commands d.
Proof.
  intros Hf. simpl. rewrite <- list_fmap_compose. apply list_fmap_ext. intros i c _. simpl.
  by destruct (_ && _).
Qed.
Lemma update_command_ok scope k f d :
  tables_ok d -> (forall c, c_key (f c) = c_key c) -> tables_ok (update_command scope k f d).
Proof.
  intros Ht Hf. apply with_commands_ok; [done|].
  pose proof (update_command_keys scope k f d Hf) as E. simpl in E. rewrite E. apply Ht.
Qed.
Lemma update_command_bytes scope k f l n :
  (forall c, c_bytes (f c) = c_bytes c + n) -> NoDup (c_key <$> l) ->
  zsum c_bytes ((fun c => if String.eqb (c_scope c) scope && String.eqb (c_key c) k then f c else c) <$> l)
  = zsum c_bytes l +
    match List.find (fun c => String.eqb (c_scope c) scope && String.eqb (c_key c) k) l with
    | Some _ => n | None => 0 end.
Proof.
  intros Hf. induction l as [|c l IH]; [done|]. rewrite !fmap_cons, !zsum_cons. simpl.
  intros [Hn Hnd]%NoDup_cons.
  destruct (String.eqb (c_scope c) scope && String.eqb (c_key c) k) eqn:E.
  - apply andb_true_iff in E as [_ Ek]. apply String.eqb_eq in Ek as <-.
    rewrite Hf. assert (((fun c0 => if String.eqb (c_scope c0) scope && String.eqb (c_key c0) (c_key c)
      then f c0 else c0) <$> l) = l) as ->; [|lia].
    clear -Hn. induction l as [|c' l IH]; [done|].
    rewrite fmap_cons, elem_of_cons in Hn. rewrite fmap_cons, IH by tauto. f_equal.
    destruct (String.eqb_spec (c_key c') (c_key c)) as [E|]; [exfalso; apply Hn; by left|].
    by rewrite andb_false_r.
  - rewrite IH by done. lia.
Qed.

Lemma update_state_retained scope k f d :
  tables_ok d -> (forall c, c_bytes (f c) = c_bytes c) ->
  retained (update_command scope k f d) = retained d.
Proof.
  intros [] Hf. unfold retained. simpl.
  rewrite (update_command_bytes scope k f (commands d) 0) by (done || intros; rewrite Hf; lia).
  destruct (List.find _ _); lia.
Qed.

Lemma receive_keeps scope k b :
  keeps (receive_command cng_sha256 protect unprotect disk config scope k b).
Proof.
  intros s u s' H [Ht Hq]. unfold receive_command in H. inv_step H. apply transaction_Ok in H.
  inv_step H. inv_step H. destruct (find_command k (db s)) as [row|] eqn:F.
  { inv_step H. inv_step H. done. }
  inv_run H. rewrite H. split.
  - apply with_commands_ok; [done|]. rewrite fmap_app. apply NoDup_snoc; [apply Ht|].
    intros Hin. unfold find_command in F. apply list_elem_of_fmap in Hin as (c & Hk & Hc).
    simpl in Hk. pose proof (find_none _ _ F c) as Hn. apply list_elem_of_In in Hc.
    specialize (Hn Hc). simpl in Hn. rewrite <- Hk, String.eqb_refl in Hn. done.
  - unfold retained in *. simpl. rewrite zsum_app, zsum_cons. zlen_nil_simpl. simpl. lia.
Qed.
Lemma begin_keeps scope k : keeps (begin_command disk config scope k).
Proof.
  intros s u s' H [Ht Hq]. unfold begin_command in H. apply transaction_Ok in H. inv_step H.
  destruct (find_scoped scope k (db s)) as [row|]; [|by inv_step H].
  case_decide; [|by inv_step H]. inv_run H.
  match goal with E : db ?x = _ |- journal_ok (db ?x) => rewrite E end. split.
  - apply update_command_ok; [done|]. intros c. by case_decide.
  - rewrite update_state_retained; [done|done|]. intros c. by case_decide.
Qed.
Lemma finish_keeps scope k r :
  keeps (finish_command protect unprotect disk config scope k r).
Proof.
  intros s u s' H [Ht Hq]. unfold finish_command in H. inv_step H. apply transaction_Ok in H.
  inv_step H. destruct (find_scoped scope k (db s)) as [row|] eqn:F; [|by inv_step H].
  destruct (c_state row); try (by inv_step H); try (inv_step H; by inv_step H).
  inv_run H. rewrite H. split; [by apply update_command_ok|].
  unfold retained in *. simpl.
  rewrite (update_command_bytes scope k _ (commands (db s)) (slen r)) by (done || apply Ht).
  unfold find_scoped in F. rewrite F. lia.
Qed.
Lemma outboxed_keeps scope k : keeps (mark_command_outboxed disk config scope k).
Proof.
  intros s u s' H [Ht Hq]. unfold mark_command_outboxed in H. apply transaction_Ok in H.
  inv_step H. destruct (find_scoped scope k (db s)) as [row|]; [|by inv_step H].
  destruct (c_state row); try (by inv_step H).
  inv_run H. rewrite H. split; [by apply update_command_ok|by rewrite update_state_retained].
Qed.

Lemma insert_checkpoints line k s u s' :
  insert line k s = (Ok u, s') -> checkpoints (db s') = checkpoints (db s).
Proof.
  intros H. apply insert_run in H as [(-> & _)|(p & d1 & _ & Ha & H)]; [done|].
  assert (E : checkpoints d1 = checkpoints (db s)).
  { destruct Ha as [[-> _]|(row & _ & _ & _ & -> & _)]; [done|]. unfold insert_graph.
    by destruct (existsb _ _). }
  destruct (has_observation k (db s)); [by rewrite H|]. destruct H as [-> _]. done.
Qed.

Lemma perform_keeps r : keeps (perform r).
Proof.
  destruct (reads r) eqn:R; [by apply keeps_readonly, reads_readonly|].
  destruct r; try done; (apply keeps_bind; [|auto with journal]).
  - unfold append. auto 6 with journal.
  - unfold append_checkpointed. repeat (apply keeps_bind; [auto with journal|intros ?]).
    apply keeps_compare_and_swap; [apply insert_checkpoints|auto with journal].
  - unfold advance_checkpoint. repeat (apply keeps_bind; [auto with journal|intros ?]).
    apply keeps_compare_and_swap; [|auto with journal]. intros s u s' H. by inv_step H.
  - intros s n s' H Hok. unfold rebuild_process_graph in H. inv_step H. apply transaction_Ok in H.
    inv_step H. eapply rebuild_rows_ok; [exact H| |done].
    intros x (h & -> & Hh)%list_elem_of_fmap. apply list_elem_of_fmap. exists h. split; [done|].
    apply elem_of_take in Hh as (i & Hi & _). apply list_elem_of_lookup_2 in Hi.
    unfold unindexed in Hi. by apply list_elem_of_filter in Hi as [_ ?].
  - unfold acknowledge. apply keeps_bind; [auto with journal|intros ?].
    apply keeps_transaction, retire_all_ok.
  - intros s v s' H Hok. unfold persistent_identifier in H. inv_step H. apply transaction_Ok in H.
    inv_step H. destruct (identifiers (db s) !! name); [by inv_step H|].
    inv_run H. match goal with E : db ?x = _ |- journal_ok (db ?x) => rewrite E end.
    by apply with_identifiers_keeps.
  - intros s v s' H Hok. unfold next_collector_generation in H. apply transaction_Ok in H.
    inv_run H. match goal with E : db ?x = _ |- journal_ok (db ?x) => rewrite E end.
    by apply with_identifiers_keeps.
  - apply receive_keeps.
  - apply begin_keeps.
  - apply finish_keeps.
  - apply outboxed_keeps.
Qed.

Lemma perform_step r s : journal_ok (db s) -> journal_ok (db (perform r s).2).
Proof.
  intros Hok. destruct (perform r s) as [[a|e] s'] eqn:E; simpl.
  - by apply (perform_keeps r s a s').
  - by rewrite (perform_atomic r s e s' E).
Qed.
Lemma perform_all_ok rs s : journal_ok (db s) -> journal_ok (db (perform_all rs s)).
Proof. revert s; induction rs as [|r rs IH]; intros s Hok; [done|]. by apply IH, perform_step. Qed.

(** C9: Accounting.  Whatever sequence of requests the journal serves, the counters
    its triggers maintain equal what the tables hold (pending and dead rows,
    retained and archived bytes, graph entries), observation, archive and command
    keys stay unique, sequence numbers stay positive and increasing, every graph
    entry belongs to an archived record, and the bytes charged never exceed the
    retention quota. *)
Theorem journal_accounting (rs : list request) (s : JState) :
  journal_ok (db s) -> journal_ok (db (perform_all rs s)).
Proof. apply perform_all_ok. Qed.
End Facts.
