(* ===== verification/JournalSpec.v ===== *)
(** * What the journal promises

    Retention of accepted evidence, idempotent acceptance, bounded batches,
    exact acknowledgement, fenced source checkpoints, the command inbox as a
    one-way state machine, and monotone identifiers. *)

From S2P Require Import Prelude Crc32 Telemetry Identity Json ProcessGraph Journal JournalFacts.

Section Spec.
Context (cng_sha256 : string -> string + list Z).
Context (valid_utf8 : string -> bool).
Context (json_parse : string -> option json).
Context (protect unprotect : string -> string -> result string).
Context (disk : JournalDb -> DiskReport).
Context (config : JournalConfig).

#[local] Abbreviation perform :=
  (Journal.perform cng_sha256 valid_utf8 json_parse protect unprotect disk config).
#[local] Abbreviation perform_all :=
  (Journal.perform_all cng_sha256 valid_utf8 json_parse protect unprotect disk config).
#[local] Abbreviation insert :=
  (Journal.insert cng_sha256 valid_utf8 json_parse protect disk config).
#[local] Abbreviation append :=
  (Journal.append cng_sha256 valid_utf8 json_parse protect disk config).
#[local] Abbreviation digest := (Journal.digest cng_sha256).
#[local] Abbreviation archived := (JournalFacts.archived json_parse config).

(** ** Properties of successful runs, kept along sequences of requests *)

(** a relation between databases that every request respects *)
Lemma perform_all_rel (R : JournalDb -> JournalDb -> Prop) (ok : request -> Prop) rs s :
  (forall d, R d d) -> (forall a b c, R a b -> R b c -> R a c) ->
  (forall r s x s', ok r -> perform r s = (Ok x, s') -> R (db s) (db s')) ->
  (forall r, r ∈ rs -> ok r) -> R (db s) (db (perform_all rs s)).
Proof.
  intros Hrefl Htrans Hstep. revert s; induction rs as [|r rs IH]; intros s Hok; [done|].
  cbn [Journal.perform_all]. eapply Htrans; [|apply IH; intros; apply Hok, elem_of_cons; auto].
  destruct (perform r s) as [[x|e] s'] eqn:E; simpl.
  - eapply Hstep; [|exact E]. apply Hok, elem_of_cons. by left.
  - rewrite (perform_atomic _ _ _ _ _ _ _ _ _ _ _ E). apply Hrefl.
Qed.

(** a request other than [r] that succeeds is one of the operations below *)
Lemma answering_Ok {A} (f : A -> response) m s x s' :
  answering f m s = (Ok x, s') -> exists a, m s = (Ok a, s') /\ x = f a.
Proof. unfold answering. intros H. apply M_bind_Ok in H as (a & s1 & Ha & H). inv_step H. eauto. Qed.

Lemma readonly_Ok {A} (m : M A) s a s' : readonly m -> m s = (Ok a, s') -> db s' = db s.
Proof. intros H E. specialize (H s). by rewrite E in H. Qed.

(** the tables one successful request may change *)
Definition writes_observations (r : request) : bool :=
  match r with
  | Append _ | AppendCheckpointed _ _ _ _ | Acknowledge _ _ => true
  | _ => false
  end.

Lemma compare_and_swap_run source cp marker expected refusal (rec : M unit) s u s' :
  compare_and_swap protect unprotect disk config source cp marker expected refusal rec s = (Ok u, s') ->
  (db s' = db s /\ exists row v, checkpoints (db s) !! source = Some row /\
     checkpoint_revision (s_revision row) = Ok (expected + 1) /\ s_digest row = marker /\
     unprotect (s_value row) ("source:" +:+ source) = Ok v /\ v = cp) \/
  (exists s1 enc, rec s = (Ok tt, s1) /\ protect cp ("source:" +:+ source) = Ok enc /\
     match checkpoints (db s) !! source with
     | Some row => checkpoint_revision (s_revision row) = Ok expected
     | None => expected = 0
     end /\
     db s' = with_checkpoints (<[source := {| s_revision := to_string (expected + 1);
       s_value := enc; s_digest := marker; s_bytes := slen cp |}]> (checkpoints (db s1))) (db s1)).
Proof.
  intros H. unfold compare_and_swap in H. apply transaction_Ok in H. inv_step H. cbv zeta in H.
  apply M_bind_Ok in H as (rev & s1 & Hr & H). inv_step Hr.
  destruct (Z.eqb_spec rev expected) as [<-|Hne]; cbn [negb] in H.
  - right. inv_step H. apply M_bind_Ok in H as ([] & s1 & Hrun & H).
    unfold save_checkpoint in H. inv_run H. exists s1, a1. split; [done|]. split; [done|].
    split; [|done]. destruct (checkpoints (db s) !! source); [done|congruence].
  - left. apply M_bind_Ok in H as (same & s1 & Hs & H). inv_step Hs.
    destruct same; inv_step H. split; [done|].
    destruct (checkpoints (db s) !! source) as [row|]; [|done].
    destruct (Z.eqb_spec rev (expected + 1)) as [->|]; [|done].
    unfold is_retry in Hs. destruct (String.eqb_spec (s_digest row) marker); [|done].
    cbn [negb] in Hs. inv_ok Hs. injection Hs as Hs. apply String.eqb_eq in Hs as ->.
    eexists row, _. eauto 10.
Qed.

(** ** Evidence is retained *)
Lemma insert_keeps_rows line k s u s' :
  insert line k s = (Ok u, s') ->
  observations (db s') = observations (db s) \/
  exists o, observations (db s') = observations (db s) ++ [o] /\ o_key o = k /\
    o_state o = Pending /\ protect line k = Ok (o_payload o) /\ o_bytes o = slen line.
Proof.
  intros H. apply insert_run in H as [(-> & _)|(p & d1 & Hp & Ha & H)]; [by left|].
  apply archived_observations in Ha as Ho. destruct (has_observation k (db s)).
  - left. by rewrite H.
  - right. destruct H as [-> _]. simpl. rewrite Ho. eexists. split; [done|]. done.
Qed.

(** a request that may retire the observation with key [k] *)
Definition covers (k : string) (r : request) : Prop :=
  match r with Acknowledge b _ => k ∈ (key <$> entries b) | _ => False end.

Lemma retire_rows e w s u s' o :
  retire protect disk config e w s = (Ok u, s') -> o ∈ observations (db s) ->
  o_key o <> key e \/ o_state o = Dead -> o ∈ observations (db s').
Proof.
  intros H Ho Hne. assert (Hnk : is_pending_key (key e) o = false).
  { unfold is_pending_key. apply bool_decide_eq_false. intros [? ?]. destruct Hne; congruence. }
  unfold retire in H. inv_step H. destruct w as [why|].
  - inv_step H. inv_step H. apply M_bind_Ok in H as ([] & s1 & Hadm & H).
    assert (s1 = s) as -> by (destruct (has_pending _ _); by inv_step Hadm).
    inv_run H. rewrite H. simpl. apply list_elem_of_fmap. exists o. by rewrite Hnk.
  - cbv zeta in H. inv_step H. rewrite H.
    assert (Hin : o ∈ observations (delete_pending (key e) (db s))).
    { simpl. apply list_elem_of_filter. done. }
    by destruct (has_pending (key e) (db s)).
Qed.
Lemma retire_all_rows es ws s u s' o :
  retire_all protect disk config es ws s = (Ok u, s') -> o ∈ observations (db s) ->
  o_key o ∉ (key <$> es) \/ o_state o = Dead -> o ∈ observations (db s').
Proof.
  revert ws s; induction es as [|e es IH]; intros [|w ws] s H Ho Hne; cbn [retire_all] in H;
    try (by inv_step H).
  apply M_bind_Ok in H as ([] & s1 & Hr & H). eapply IH; [exact H| |].
  - eapply retire_rows; [exact Hr|done|]. destruct Hne as [Hne|]; [left|by right].
    rewrite fmap_cons, elem_of_cons in Hne. tauto.
  - destruct Hne as [Hne|]; [left|by right]. rewrite fmap_cons, elem_of_cons in Hne. tauto.
Qed.

Lemma rebuild_rows_observations mb rows bytes count s n s' :
  rebuild_rows cng_sha256 valid_utf8 json_parse unprotect disk config mb rows bytes count s = (Ok n, s') ->
  observations (db s') = observations (db s) /\ commands (db s') = commands (db s) /\
  checkpoints (db s') = checkpoints (db s) /\ identifiers (db s') = identifiers (db s).
Proof.
  revert bytes count s; induction rows as [|h rows IH]; intros bytes count s H;
    cbn [rebuild_rows] in H; [by inv_step H|].
  inv_step H. inv_step H. destruct (mb - bytes <? _).
  { destruct (count =? 0); inv_step H; done. }
  inv_step H. apply M_bind_Ok in H as ([] & s1 & Hi & H).
  apply index_process_run in Hi as (row & _ & Hdb). apply IH in H as (-> & -> & -> & ->).
  rewrite Hdb. unfold insert_graph. by destruct (existsb _ _).
Qed.

(** which tables a request leaves alone *)
Lemma insert_other_tables line k s u s' :
  insert line k s = (Ok u, s') ->
  commands (db s') = commands (db s) /\ checkpoints (db s') = checkpoints (db s) /\
  identifiers (db s') = identifiers (db s).
Proof.
  intros H. apply insert_run in H as [(-> & _)|(p & d1 & _ & Ha & H)]; [done|].
  assert (E : commands d1 = commands (db s) /\ checkpoints d1 = checkpoints (db s) /\
    identifiers d1 = identifiers (db s)).
  { destruct Ha as [[-> _]|(row & _ & _ & _ & -> & _)]; [done|]. unfold insert_graph.
    by destruct (existsb _ _). }
  destruct (has_observation k (db s)); [by rewrite H|]. destruct H as [-> _]. done.
Qed.
Lemma retire_other_tables e w s u s' :
  retire protect disk config e w s = (Ok u, s') ->
  commands (db s') = commands (db s) /\ checkpoints (db s') = checkpoints (db s) /\
  identifiers (db s') = identifiers (db s).
Proof.
  intros H. unfold retire in H. inv_step H. destruct w as [why|].
  - inv_step H. inv_step H. apply M_bind_Ok in H as ([] & s1 & Hadm & H).
    assert (s1 = s) as -> by (destruct (has_pending _ _); by inv_step Hadm).
    inv_run H. by rewrite H.
  - cbv zeta in H. inv_step H. rewrite H. by destruct (has_pending (key e) (db s)).
Qed.
Lemma retire_all_other_tables es ws s u s' :
  retire_all protect disk config es ws s = (Ok u, s') ->
  commands (db s') = commands (db s) /\ checkpoints (db s') = checkpoints (db s) /\
  identifiers (db s') = identifiers (db s).
Proof.
  revert ws s; induction es as [|e es IH]; intros [|w ws] s H; cbn [retire_all] in H;
    try (by inv_step H).
  apply M_bind_Ok in H as ([] & s1 & Hr & H). apply retire_other_tables in Hr as (<- & <- & <-).
  by eapply IH.
Qed.

Lemma append_run line s u s' :
  append line s = (Ok u, s') -> exists k, digest line = Ok k /\ insert line k s = (Ok u, s') /\
    all_blank line = false.
Proof.
  unfold Journal.append. intros H. inv_step H. inv_step H. apply transaction_Ok in H.
  rename Ha into Hb. exists a0. split; [done|]. split; [done|].
  by destruct (all_blank line).
Qed.
Lemma append_checkpointed_run line source cp expected s u s' :
  append_checkpointed cng_sha256 valid_utf8 json_parse protect unprotect disk config line source cp expected s
    = (Ok u, s') ->
  exists k, digest line = Ok k /\ 0 <= slen cp <= 16384 /\
    compare_and_swap protect unprotect disk config source cp k expected
      "source checkpoint retention quota exhausted; record and cursor unchanged"
      (insert line k) s = (Ok u, s').
Proof.
  unfold append_checkpointed. intros H. inv_step H. inv_step H. inv_step H. inv_step H.
  eexists. split; [done|]. split; [|exact H]. unfold checkpoint_bounds in *.
  pose proof (slen_nonneg cp).
  match goal with E : throw_if _ _ = Ok _ |- _ => apply throw_if_Ok in E end.
  destruct (str_empty cp); [done|]. destruct (Z.ltb_spec 16384 (slen cp)); [done|lia].
Qed.
Lemma advance_checkpoint_run source cp expected s u s' :
  advance_checkpoint cng_sha256 protect unprotect disk config source cp expected s = (Ok u, s') ->
  exists h, compare_and_swap protect unprotect disk config source cp ("checkpoint-only:" +:+ h) expected
    "source checkpoint retention quota exhausted; cursor unchanged" (mret tt) s = (Ok u, s').
Proof. unfold advance_checkpoint. intros H. inv_step H. inv_step H. inv_step H. eauto. Qed.

(** one row survives one successful request *)
Lemma perform_keeps_row r s x s' o :
  perform r s = (Ok x, s') -> o ∈ observations (db s) ->
  ~ covers (o_key o) r \/ o_state o = Dead -> o ∈ observations (db s').
Proof.
  intros H Ho Hc. destruct (reads r) eqn:R.
  { rewrite (readonly_Ok _ _ _ _ (reads_readonly _ _ _ _ _ _ _ _ R) H). done. }
  assert (Hins : forall line k s u s', insert line k s = (Ok u, s') ->
    o ∈ observations (db s) -> o ∈ observations (db s')).
  { intros line k s0 u s1 Hi Hin. apply insert_keeps_rows in Hi as [->|(p & -> & _)]; [done|].
    apply elem_of_app. by left. }
  destruct r; try done; apply answering_Ok in H as (a & H & ->).
  - apply append_run in H as (k & _ & H & _). eauto.
  - apply append_checkpointed_run in H as (k & _ & _ & H).
    apply compare_and_swap_run in H as [[-> _]|(s1 & enc & Hr & _ & _ & ->)]; [done|]. simpl. eauto.
  - apply advance_checkpoint_run in H as (h & H).
    apply compare_and_swap_run in H as [[-> _]|(s1 & enc & Hr & _ & _ & ->)]; [done|].
    inv_step Hr. done.
  - unfold rebuild_process_graph in H. inv_step H. apply transaction_Ok in H. inv_step H.
    apply rebuild_rows_observations in H as (-> & _). done.
  - unfold acknowledge in H. inv_step H. apply transaction_Ok in H.
    eapply retire_all_rows; [exact H|done|]. destruct Hc; [left|right]; done.
  - unfold persistent_identifier in H. inv_step H. apply transaction_Ok in H. inv_step H.
    destruct (identifiers (db s) !! name); [by inv_step H|]. inv_run H.
    match goal with E : db ?x = _ |- _ ∈ observations (db ?x) => by rewrite E end.
  - unfold next_collector_generation in H. apply transaction_Ok in H. inv_run H.
    match goal with E : db ?x = _ |- _ ∈ observations (db ?x) => by rewrite E end.
  - unfold receive_command in H. inv_step H. apply transaction_Ok in H. inv_step H. inv_step H.
    destruct (find_command k (db s)); [inv_step H; by inv_step H|]. inv_run H. by rewrite H.
  - unfold begin_command in H. apply transaction_Ok in H. inv_step H.
    destruct (find_scoped scope k (db s)) as [row|]; [|by inv_step H].
    case_decide; [|by inv_step H]. inv_run H.
    match goal with E : db ?x = _ |- _ ∈ observations (db ?x) => by rewrite E end.
  - unfold finish_command in H. inv_step H. apply transaction_Ok in H. inv_step H.
    destruct (find_scoped scope k (db s)) as [row|]; [|by inv_step H].
    destruct (c_state row); try (by inv_step H); try (inv_step H; by inv_step H).
    inv_run H. by rewrite H.
  - unfold mark_command_outboxed in H. apply transaction_Ok in H. inv_step H.
    destruct (find_scoped scope k (db s)) as [row|]; [|by inv_step H].
    destruct (c_state row); try (by inv_step H). inv_run H. by rewrite H.
Qed.

(** C1: Evidence retention.  Along any sequence of requests - including refused
    ones, quota exhaustion and full disks - an observation the journal holds is
    still there, unchanged, unless an acknowledgement of a batch containing it
    was among them; and a dead letter is never removed at all. *)
Theorem evidence_retained (rs : list request) (s : JState) (o : Observation) :
  o ∈ observations (db s) ->
  (forall r, r ∈ rs -> ~ covers (o_key o) r) \/ o_state o = Dead ->
  o ∈ observations (db (perform_all rs s)).
Proof.
  intros Ho Hc.
  apply (perform_all_rel (fun d d' => o ∈ observations d -> o ∈ observations d')
    (fun r => ~ covers (o_key o) r \/ o_state o = Dead)); auto.
  - intros r s0 x s' Hr E Hin. by eapply perform_keeps_row.
  - intros r Hr. destruct Hc; auto.
Qed.

(** ** Acceptance *)
Lemma existsb_In_key {A} (f : A -> string) k l a :
  a ∈ l -> f a = k -> existsb (fun x => String.eqb (f x) k) l = true.
Proof.
  intros Hin <-. apply existsb_exists. exists a. split; [by apply list_elem_of_In|].
  apply String.eqb_refl.
Qed.
Lemma insert_marks line k s u s' :
  insert line k s = (Ok u, s') ->
  has_observation k (db s') = true /\
  (line_lifecycle (json_parse line) = true -> has_history k (db s') = true).
Proof.
  intros H. apply insert_run in H as [(-> & H1 & H2)|(p & d1 & _ & Ha & H)]; [done|].
  assert (Hh : line_lifecycle (json_parse line) = true -> has_history k d1 = true).
  { destruct Ha as [[-> Hl]|(row & _ & _ & _ & -> & _)]; [done|]. intros _.
    unfold has_history. rewrite insert_graph_history. simpl. rewrite existsb_app.
    simpl. rewrite String.eqb_refl. by rewrite orb_true_r. }
  pose proof (archived_observations _ _ _ _ _ _ _ Ha) as Ho.
  destruct (has_observation k (db s)) eqn:E.
  - rewrite H. split; [|done]. unfold has_observation in *. by rewrite Ho.
  - destruct H as [-> _]. split; [|exact Hh]. unfold has_observation. simpl.
    rewrite existsb_app. simpl. rewrite String.eqb_refl. by rewrite orb_true_r.
Qed.
Lemma insert_again line k s :
  has_observation k (db s) = true ->
  (line_lifecycle (json_parse line) = true -> has_history k (db s) = true) ->
  insert line k s = (Ok tt, s).
Proof.
  intros H1 H2. unfold Journal.insert, mbind, M_bind, get_db. rewrite H1.
  destruct (line_lifecycle (json_parse line)); simpl; [|done]. by rewrite H2.
Qed.

(** C4: Acceptance is exact and idempotent.  A successful [append] of a line adds
    at most one observation, at the end, keyed by the line's digest, pending and
    holding its encryption; all earlier observations keep their place; and
    appending the same line again succeeds and changes nothing, so a redelivered
    observation is stored once. *)
Theorem append_exact_idempotent (line : string) (s s' : JState) :
  append line s = (Ok tt, s') ->
  (exists k, digest line = Ok k /\ has_observation k (db s') = true /\
     (observations (db s') = observations (db s) \/
      exists o, observations (db s') = observations (db s) ++ [o] /\ o_key o = k /\
        o_state o = Pending /\ protect line k = Ok (o_payload o) /\ o_bytes o = slen line)) /\
  append line s' = (Ok tt, s').
Proof.
  intros H. pose proof H as H0. apply append_run in H as (k & Hk & Hi & _).
  destruct (insert_marks _ _ _ _ _ Hi) as [H1 H2]. split.
  - exists k. split; [done|]. split; [done|]. by apply insert_keeps_rows in Hi.
  - unfold Journal.append, mbind, M_bind, raise_if, lift in *.
    destruct (throw_if _ _); [|done]. rewrite Hk in *. unfold transaction.
    by rewrite insert_again.
Qed.

(** ** Batches *)
Section Pages.
Context {A B : Type} (check : A -> result unit) (entry : A -> string -> B).
Context (rk rp : A -> string) (refusal : string) (mb : Z) (size_of : B -> Z).
Context (Hsize : forall row b, size_of (entry row b) = slen b).

Definition decrypts (row : A) (e : B) : Prop :=
  exists b, unprotect (rp row) (rk row) = Ok b /\ e = entry row b.

Lemma read_page_spec rows bytes count out :
  read_page unprotect check entry rk rp refusal mb rows bytes count = Ok out -> bytes <= mb ->
  Forall2 decrypts (take (length out) rows) out /\
  bytes + zsum (fun e => size_of e + 1) out <= mb /\
  (count = 0%nat -> rows <> [] -> out <> []).
Proof.
  revert bytes count out; induction rows as [|row rows IH]; intros bytes count out H Hb;
    cbn [read_page] in H.
  { injection H as <-. zlen_nil_simpl. split; [constructor|]. split; [lia|done]. }
  inv_ok H. destruct (Z.ltb_spec (mb - bytes) (slen a0 + 1)).
  - destruct count; [done|]. injection H as <-. zlen_nil_simpl. split; [constructor|].
    split; [lia|done].
  - inv_ok H. injection H as <-. apply IH in Ha1 as (H1 & H2 & _); [|lia].
    rewrite zsum_cons, Hsize. split; [|split; [lia|done]]. simpl. constructor; [|done].
    by exists a0.
Qed.
Lemma read_page_length rows bytes count out :
  read_page unprotect check entry rk rp refusal mb rows bytes count = Ok out -> (length out <= length rows)%nat.
Proof.
  revert bytes count out; induction rows as [|row rows IH]; intros bytes count out H; cbn [read_page] in H.
  { by injection H as <-. }
  inv_ok H. destruct (_ <? _); [destruct count; [done|]; injection H as <-; simpl; lia|].
  inv_ok H. injection H as <-. apply IH in Ha1. simpl. lia.
Qed.
End Pages.

Lemma ndjson_size l : slen (ndjson_entries l) = zsum (fun e => slen (body e) + 1) l.
Proof.
  induction l as [|e l IH]; [done|]. cbn [ndjson_entries].
  rewrite slen_app, slen_cons, IH, zsum_cons. lia.
Qed.

(** Batches.  A batch offered for delivery is a non-empty prefix of the pending
    observations of the oldest pending observation's protocol, in journal order,
    each entry the decryption of its row under its key; it has at most the
    requested number of entries and its NDJSON body at most the requested
    number of bytes.  No batch is offered only when nothing is pending, and
    offering one changes nothing. *)
Theorem peek_prefix (max_events max_bytes : Z) (s s' : JState) (b : option JournalBatch) :
  0 <= max_events -> 0 <= max_bytes ->
  peek cng_sha256 unprotect max_events max_bytes s = (Ok b, s') ->
  s' = s /\
  match b with
  | None => pending_rows (db s) = []
  | Some batch =>
      let rows := filter (fun o => o_protocol o = batch_protocol batch) (pending_rows (db s)) in
      o_protocol <$> hd_error (pending_rows (db s)) = Some (batch_protocol batch) /\
      entries batch <> [] /\ zlen (entries batch) <= max_events /\
      slen (ndjson batch) <= max_bytes /\
      Forall2 (fun o e => key e = o_key o /\ unprotect (o_payload o) (o_key o) = Ok (body e))
        (take (length (entries batch)) rows) (entries batch)
  end.
Proof.
  intros Hn Hm H. unfold peek in H. inv_step H. inv_step H.
  match goal with E : page_limits _ _ _ = Ok _ |- _ => apply throw_if_Ok in E as Hlim end.
  unfold mib8 in Hlim.
  destruct (pending_rows (db s)) as [|hd rows] eqn:Ep; [inv_step H; done|].
  apply M_bind_Ok in H as (es & s1 & He & H). inv_step He.
  apply (read_page_spec _ _ _ _ _ _ (fun e => slen (body e))) in He as (H1 & H2 & H3); [|done|lia].
  set (sel := filter (fun o => o_protocol o = o_protocol hd) (hd :: rows)) in *.
  assert (Hsel : exists rest, sel = hd :: rest).
  { unfold sel. rewrite filter_cons_True by done. eauto. }
  destruct Hsel as [rest Hsel].
  assert (Hne : es <> []).
  { apply H3; [done|]. rewrite Hsel. destruct (Z.to_nat max_events) eqn:E; [lia|done]. }
  assert (Hlen : (length es <= Z.to_nat max_events)%nat).
  { apply Forall2_length in H1. rewrite !length_take in H1. lia. }
  destruct es as [|e0 es0] eqn:Ees; [done|]. rewrite <- Ees in *. clear Ees.
  inv_run H. split; [done|]. simpl. fold sel.
  split; [done|]. split; [done|]. split; [unfold zlen; lia|].
  split; [unfold ndjson; simpl; rewrite ndjson_size; lia|].
  rewrite take_take, Nat.min_l in H1 by done.
  eapply Forall2_impl; [exact H1|]. intros o e (b & Hb & ->). done.
Qed.

(** ** Acknowledgement *)
Definition rejections (l : list (option string)) : Z := zlen (omap id l).

Lemma rejections_insert l i why :
  l !! i = Some None -> rejections (<[i := Some why]> l) = rejections l + 1.
Proof.
  intros H. unfold rejections. rewrite (insert_take_drop _ _ _ (lookup_lt_Some _ _ _ H)).
  rewrite <- (take_drop_middle l i None H) at 3. rewrite !omap_app. simpl.
  rewrite !zlen_app, zlen_cons. lia.
Qed.
Lemma collect_reasons_spec batch received rejected reasons out :
  collect_reasons json_parse batch received rejected reasons = Ok out ->
  received = zlen reasons ->
  length out = length reasons /\ rejections out = rejections reasons + zlen rejected.
Proof.
  revert reasons; induction rejected as [|r rejected IH]; intros reasons H Hrec;
    cbn [collect_reasons] in H.
  { injection H as <-. zlen_nil_simpl. split; [done|lia]. }
  apply bind_Ok in H as ([i why] & Hr & H).
  assert (Hi : reasons !! i = Some None).
  { unfold rejection_reason in Hr. inv_ok Hr. injection Hr as <- <-.
    assert (0 <= a).
    { match goal with E : receipt_count "line" r = Ok a |- _ => unfold receipt_count in E; inv_ok E;
        injection E as <- end. match goal with |- 0 <= get_u64 ?v => destruct v; simpl; try lia;
        apply u64_range end. }
    destruct (reasons !! Z.to_nat (a - 1)) as [[w|]|] eqn:E; [|done|].
    - rewrite !orb_true_r in Ha0. done.
    - apply lookup_ge_None in E. unfold zlen in Hrec. lia. }
  apply IH in H as [Hl Hn]; [|subst; unfold zlen; by rewrite length_insert].
  rewrite length_insert in Hl. rewrite rejections_insert in Hn by done.
  rewrite zlen_cons. split; [done|lia].
Qed.
Lemma rejections_none n : rejections (replicate n None) = 0.
Proof. unfold rejections. by induction n. Qed.

Lemma check_receipt_spec batch receipt reasons :
  check_receipt json_parse batch receipt = Ok reasons ->
  length reasons = length (entries batch) /\
  exists accepted duplicates, 0 <= accepted /\ 0 <= duplicates /\
    accepted + duplicates + rejections reasons = zlen (entries batch).
Proof.
  unfold check_receipt. intros H. inv_ok H.
  match goal with E : collect_reasons _ _ ?n _ _ = _ |- _ =>
    assert (Hrec : n = zlen (entries batch)) by lia; apply collect_reasons_spec in E as [Hl Hr];
    [|unfold zlen; rewrite length_replicate; unfold zlen in Hrec; lia] end.
  rewrite rejections_none in Hr. rewrite length_replicate in Hl. split; [done|].
  assert (Hpos : forall name v n, receipt_count name v = Ok n -> 0 <= n).
  { intros name v n E. unfold receipt_count in E. inv_ok E. injection E as <-.
    destruct a6; simpl; try lia; apply u64_range. }
  exists a1, a2. split; [by eapply Hpos|]. split; [by eapply Hpos|]. lia.
Qed.

(** the fate of one observation of the batch *)
Definition retired (e : JournalEntry) (w : option string) (o : Observation) (d' : JournalDb) : Prop :=
  match w with
  | None => key e ∉ (o_key <$> observations d')
  | Some why => exists enc, protect why (key e) = Ok enc /\
      bury enc (slen why) o ∈ observations d'
  end.

Lemma retire_keys e w s u s' :
  retire protect disk config e w s = (Ok u, s') ->
  (o_key <$> observations (db s')) `sublist_of` (o_key <$> observations (db s)).
Proof.
  intros H. unfold retire in H. inv_step H. destruct w as [why|].
  - inv_step H. inv_step H. apply M_bind_Ok in H as ([] & s1 & Hadm & H).
    assert (s1 = s) as -> by (destruct (has_pending _ _); by inv_step Hadm).
    inv_run H. rewrite H. simpl. rewrite <- list_fmap_compose.
    erewrite (list_fmap_ext _ o_key); [done|]. intros i o _. simpl.
    by destruct (is_pending_key (key e) o).
  - cbv zeta in H. inv_step H. rewrite H.
    assert (Hs : (o_key <$> observations (delete_pending (key e) (db s)))
      `sublist_of` (o_key <$> observations (db s))) by (simpl; apply fmap_sublist, sublist_filter).
    by destruct (has_pending (key e) (db s)).
Qed.
Lemma retire_fate e w s u s' o :
  retire protect disk config e w s = (Ok u, s') ->
  NoDup (o_key <$> observations (db s)) ->
  o ∈ observations (db s) -> is_pending_key (key e) o = true -> retired e w o (db s').
Proof.
  intros H Hnd Ho Hk. unfold retire in H. inv_step H. destruct w as [why|].
  - inv_step H. inv_step H. apply M_bind_Ok in H as ([] & s1 & Hadm & H).
    assert (s1 = s) as -> by (destruct (has_pending _ _); by inv_step Hadm).
    inv_run H. rewrite H. simpl. eexists. split; [done|]. apply list_elem_of_fmap.
    exists o. by rewrite Hk.
  - cbv zeta in H. inv_step H. rewrite H.
    assert (Hs : key e ∉ (o_key <$> observations (delete_pending (key e) (db s)))).
    { simpl. intros (p & Hkp & Hp)%list_elem_of_fmap. apply list_elem_of_filter in Hp as [Hp Hin].
      assert (p = o) as ->; [|congruence]. unfold is_pending_key in Hk.
      apply bool_decide_eq_true in Hk as [Hk _]. rewrite <- Hk in Hkp.
      clear -Hnd Hkp Hin Ho. induction (observations (db s)) as [|q l IH].
      { by apply not_elem_of_nil in Ho. }
      rewrite fmap_cons, NoDup_cons in Hnd. destruct Hnd as [Hn Hnd].
      apply elem_of_cons in Hin, Ho. destruct Hin as [->|Hin], Ho as [->|Ho]; auto.
      - exfalso. apply Hn. rewrite <- Hkp. by apply list_elem_of_fmap_2.
      - exfalso. apply Hn. rewrite Hkp. by apply list_elem_of_fmap_2. }
    by destruct (has_pending (key e) (db s)).
Qed.

Lemma retire_all_keys es ws s u s' :
  retire_all protect disk config es ws s = (Ok u, s') ->
  (o_key <$> observations (db s')) `sublist_of` (o_key <$> observations (db s)).
Proof.
  revert ws s; induction es as [|e es IH]; intros [|w ws] s H; cbn [retire_all] in H;
    try (by inv_step H).
  apply M_bind_Ok in H as ([] & s1 & Hr & H). apply retire_keys in Hr. apply IH in H. by etrans.
Qed.
Lemma retire_all_fate es ws s u s' i e w o :
  retire_all protect disk config es ws s = (Ok u, s') ->
  NoDup (key <$> es) -> NoDup (o_key <$> observations (db s)) ->
  es !! i = Some e -> ws !! i = Some w ->
  o ∈ observations (db s) -> is_pending_key (key e) o = true -> retired e w o (db s').
Proof.
  revert ws s i; induction es as [|e0 es IH]; intros [|w0 ws] s i H Hnk Hnd He Hw Ho Hk;
    try done. cbn [retire_all] in H.
  apply M_bind_Ok in H as ([] & s1 & Hr & H). rewrite fmap_cons, NoDup_cons in Hnk.
  destruct Hnk as [Hn Hnk].
  pose proof (retire_keys _ _ _ _ _ Hr) as Hsub.
  pose proof (sublist_NoDup _ _ Hnd Hsub) as Hnd1.
  destruct i as [|i]; simpl in He, Hw.
  - injection He as ->. injection Hw as ->.
    pose proof (retire_fate _ _ _ _ _ _ Hr Hnd Ho Hk) as Hf. unfold retired in *.
    destruct w as [why|].
    + destruct Hf as (enc & Hp & Hin). exists enc. split; [done|].
      eapply retire_all_rows; [exact H|done|]. by right.
    + intros Hin. apply Hf. eapply elem_of_sublist; [exact Hin|]. by eapply retire_all_keys.
  - eapply IH; eauto. eapply retire_rows; [exact Hr|done|]. left.
    unfold is_pending_key in Hk. apply bool_decide_eq_true in Hk as [-> _].
    intros E. apply Hn. rewrite <- E. apply list_elem_of_fmap_2.
    by eapply list_elem_of_lookup_2.
Qed.


(** ** Source checkpoints *)
Lemma checkpoint_revision_to_string n :
  1 <= n <= u64_max -> checkpoint_revision (to_string n) = Ok n.
Proof.
  intros Hn. unfold checkpoint_revision. rewrite from_chars_to_string by lia.
  assert ((n =? 0) = false) as -> by lia. rewrite orb_false_r.
  destruct (starts_with "0" (to_string n)) eqn:E; [|by rewrite andb_false_r].
  exfalso. rewrite to_string_nonneg in E by lia.
  destruct (udec_leading n) as (c & r & Hc & Hnz); [lia|]. rewrite Hc in E.
  cbn [starts_with] in E. destruct (Ascii.eqb_spec "0" c) as [<-|]; done.
Qed.

#[local] Abbreviation append_checkpointed :=
  (Journal.append_checkpointed cng_sha256 valid_utf8 json_parse protect unprotect disk config).

(** what DPAPI documents: decryption with the same entropy inverts encryption *)
Definition dpapi_roundtrip : Prop :=
  forall x k y, protect x k = Ok y -> unprotect y k = Ok x.

(** the checkpoint a source has *)
Definition holds_checkpoint (d : JournalDb) (source : string) (rev : Z) (cp : string) : Prop :=
  exists row, checkpoints d !! source = Some row /\
    checkpoint_revision (s_revision row) = Ok rev /\
    unprotect (s_value row) ("source:" +:+ source) = Ok cp.

Lemma swap_holds source cp marker expected refusal rec s u s' :
  dpapi_roundtrip -> 0 <= expected < u64_max ->
  compare_and_swap protect unprotect disk config source cp marker expected refusal rec s = (Ok u, s') ->
  holds_checkpoint (db s') source (expected + 1) cp.
Proof.
  intros Hrt He H. apply compare_and_swap_run in H as
    [(-> & row & v & Hrow & Hrev & _ & Hv & ->)|(s1 & enc & _ & Hp & _ & ->)].
  - by exists row.
  - eexists. simpl. rewrite lookup_insert_eq. split; [done|]. simpl.
    rewrite checkpoint_revision_to_string by lia. split; [done|]. by apply Hrt.
Qed.
Lemma swap_refused source cp cp2 marker expected rev refusal rec s :
  holds_checkpoint (db s) source rev cp -> rev <> expected -> cp2 <> cp ->
  is_ok (compare_and_swap protect unprotect disk config source cp2 marker expected refusal rec s).1 = false.
Proof.
  intros (row & Hrow & Hrev & Hv) Hne Hcp.
  destruct (compare_and_swap _ _ _ _ _ _ _ _ _ _ s) as [[[]|e] s'] eqn:E; [exfalso|done].
  apply compare_and_swap_run in E as
    [(_ & row' & v & Hrow' & _ & _ & Hv' & ->)|(s1 & enc & _ & _ & Hr & _)].
  - congruence.
  - rewrite Hrow in Hr. congruence.
Qed.

(** Source checkpoints are fenced.  When a record is accepted together with a
    source cursor under an expected revision, the source afterwards holds that
    cursor at the next revision, every other source keeps its checkpoint, and a
    competing writer that expected the same revision with a different cursor is
    refused: two readers of one source cannot both advance it. *)
Theorem checkpoint_fenced (line source cp : string) (expected : Z) (s s' : JState) :
  dpapi_roundtrip -> 0 <= expected < u64_max ->
  append_checkpointed line source cp expected s = (Ok tt, s') ->
  holds_checkpoint (db s') source (expected + 1) cp /\
  (forall other, other <> source -> checkpoints (db s') !! other = checkpoints (db s) !! other) /\
  (forall line2 cp2, cp2 <> cp ->
     is_ok (append_checkpointed line2 source cp2 expected s').1 = false).
Proof.
  intros Hrt He H. apply append_checkpointed_run in H as (k & _ & _ & H).
  pose proof (swap_holds _ _ _ _ _ _ _ _ _ Hrt He H) as Hh. split; [done|]. split.
  - intros other Hne. apply compare_and_swap_run in H as [[-> _]|(s1 & enc & Hr & _ & _ & ->)]; [done|].
    simpl. rewrite lookup_insert_ne by done.
    by apply insert_other_tables in Hr as (_ & -> & _).
  - intros line2 cp2 Hne.
    destruct (append_checkpointed line2 source cp2 expected s') as [[[]|e] s2] eqn:E; [|done].
    apply append_checkpointed_run in E as (k2 & _ & _ & E).
    pose proof (swap_refused source cp cp2 k2 expected (expected + 1)
      "source checkpoint retention quota exhausted; record and cursor unchanged"
      (insert line2 k2) s' Hh ltac:(lia) Hne) as Hf. by rewrite E in Hf.
Qed.

(** ** Identifiers *)
Definition generation (d : JournalDb) : Z :=
  match identifiers d !! generation_name with
  | Some v => default 0 (from_chars_all u64_max v)
  | None => 0
  end.
(** identifiers are never removed; the ones handed out keep their value, and the
    generation counter does not go back *)
Definition identifiers_grow (d d' : JournalDb) : Prop :=
  (forall name v, name <> generation_name -> identifiers d !! name = Some v ->
     identifiers d' !! name = Some v) /\
  generation d <= generation d'.

Lemma persistent_identifier_run rnd name s v s' :
  persistent_identifier cng_sha256 disk config rnd name s = (Ok v, s') ->
  name <> generation_name /\ identifiers (db s') !! name = Some v /\
  (db s' = db s \/ (identifiers (db s) !! name = None /\
     db s' = with_identifiers (<[name := v]> (identifiers (db s))) (db s))).
Proof.
  unfold persistent_identifier. intros H. inv_step H. apply transaction_Ok in H. inv_step H.
  assert (Hn : name <> generation_name).
  { intros ->. vm_compute in Ha. done. }
  split; [done|]. destruct (identifiers (db s) !! name) as [w|] eqn:E.
  - inv_step H. split; [done|by left].
  - inv_run H. match goal with E : db ?x = _ |- context [db ?x] => rewrite E end. simpl.
    rewrite lookup_insert_eq. split; [done|]. by right.
Qed.
Lemma next_generation_run s n s' :
  next_collector_generation disk config s = (Ok n, s') ->
  n = generation (db s) + 1 /\ generation (db s) < u64_max /\
  db s' = with_identifiers (<[generation_name := to_string n]> (identifiers (db s))) (db s).
Proof.
  unfold next_collector_generation. intros H. apply transaction_Ok in H. inv_run H.
  assert (Hg : generation (db s) = a).
  { unfold generation. destruct (identifiers (db s) !! generation_name) as [v|]; [|congruence].
    destruct (from_chars_all u64_max v); simpl in *; congruence. }
  assert (Hb : a <= u64_max).
  { destruct (identifiers (db s) !! generation_name) as [v|]; [|injection Ha; unfold u64_max; lia].
    destruct (from_chars_all u64_max v) eqn:E; simpl in Ha; [|done].
    apply from_chars_range in E. injection Ha. lia. }
  rewrite Hg. split; [done|]. split; [lia|]. done.
Qed.

Definition command_request (r : request) : bool :=
  match r with
  | ReceiveCommand _ _ _ | BeginCommand _ _ | FinishCommand _ _ _ | MarkOutboxed _ _ => true
  | _ => false
  end.
Definition identifier_request (r : request) : bool :=
  match r with Identifier _ _ | NextGeneration => true | _ => false end.

Lemma perform_side r s x s' :
  perform r s = (Ok x, s') ->
  (command_request r = false -> commands (db s') = commands (db s)) /\
  (identifier_request r = false -> identifiers (db s') = identifiers (db s)).
Proof.
  intros H. destruct (reads r) eqn:R.
  { rewrite (readonly_Ok _ _ _ _ (reads_readonly _ _ _ _ _ _ _ _ R) H). done. }
  destruct r; try done; apply answering_Ok in H as (a & H & ->);
    split; intros HH; try discriminate HH; clear HH.
  1,2: apply append_run in H as (k & _ & H & _); by apply insert_other_tables in H as (? & _ & ?).
  1,2: apply append_checkpointed_run in H as (k & _ & _ & H);
    apply compare_and_swap_run in H as [[-> _]|(s1 & enc & Hr & _ & _ & ->)]; [done|]; simpl;
    by apply insert_other_tables in Hr as (? & _ & ?).
  1,2: apply advance_checkpoint_run in H as (h & H);
    apply compare_and_swap_run in H as [[-> _]|(s1 & enc & Hr & _ & _ & ->)]; [done|];
    by inv_step Hr.
  1,2: unfold rebuild_process_graph in H; inv_step H; apply transaction_Ok in H; inv_step H;
    by apply rebuild_rows_observations in H as (_ & ? & _ & ?).
  1,2: unfold acknowledge in H; inv_step H; apply transaction_Ok in H;
    by apply retire_all_other_tables in H as (? & _ & ?).
  - apply persistent_identifier_run in H as (_ & _ & [->|[_ ->]]); done.
  - apply next_generation_run in H as (_ & _ & ->). done.
  - unfold receive_command in H. inv_step H. apply transaction_Ok in H. inv_step H. inv_step H.
    destruct (find_command k (db s)); [inv_step H; by inv_step H|]. inv_run H. by rewrite H.
  - unfold begin_command in H. apply transaction_Ok in H. inv_step H.
    destruct (find_scoped scope k (db s)) as [row|]; [|by inv_step H].
    case_decide; [|by inv_step H]. inv_run H.
    match goal with E : db ?x = _ |- identifiers (db ?x) = _ => by rewrite E end.
  - unfold finish_command in H. inv_step H. apply transaction_Ok in H. inv_step H.
    destruct (find_scoped scope k (db s)) as [row|]; [|by inv_step H].
    destruct (c_state row); try (by inv_step H); try (inv_step H; by inv_step H).
    inv_run H. by rewrite H.
  - unfold mark_command_outboxed in H. apply transaction_Ok in H. inv_step H.
    destruct (find_scoped scope k (db s)) as [row|]; [|by inv_step H].
    destruct (c_state row); try (by inv_step H). inv_run H. by rewrite H.
Qed.

Lemma generation_nonneg d : 0 <= generation d.
Proof.
  unfold generation. destruct (identifiers d !! generation_name); [|lia].
  destruct (from_chars_all u64_max s) eqn:E; simpl; [|lia]. apply from_chars_range in E. lia.
Qed.
Lemma perform_identifiers r s x s' :
  perform r s = (Ok x, s') -> identifiers_grow (db s) (db s').
Proof.
  intros H. destruct (identifier_request r) eqn:R.
  - destruct r; try done; apply answering_Ok in H as (a & H & ->).
    + apply persistent_identifier_run in H as (Hn & _ & [->|[Hnew ->]]); [by split|].
      split; [|unfold generation; simpl; by rewrite lookup_insert_ne].
      intros nm v Hnm Hv. simpl. rewrite lookup_insert_ne; [done|]. intros <-. congruence.
    + apply next_generation_run in H as (Hn & Hb & ->). split.
      * intros nm v Hnm Hv. simpl. rewrite lookup_insert_ne by done. done.
      * unfold generation at 2. simpl. rewrite lookup_insert_eq.
        pose proof (generation_nonneg (db s)).
        rewrite from_chars_to_string by (subst; unfold u64_max in *; lia). simpl. lia.
  - apply perform_side in H as [_ H]. specialize (H R). unfold identifiers_grow, generation.
    rewrite H. split; [done|lia].
Qed.
Lemma perform_all_identifiers rs s : identifiers_grow (db s) (db (perform_all rs s)).
Proof.
  apply (perform_all_rel identifiers_grow (fun _ => True)); auto.
  - intros d. split; [done|lia].
  - intros a b c [H1 H2] [H3 H4]. split; [eauto|lia].
  - intros r s0 x s' _. apply perform_identifiers.
Qed.

(** Identifiers.  A persistent identifier, once handed out, is the answer to
    every later request for that name, whatever happens in between; and each
    collector generation handed out is strictly larger than every earlier one. *)
Theorem identifiers_stable (rs : list request) (s : JState) :
  (forall rnd name v s1 rnd2 w s2,
     persistent_identifier cng_sha256 disk config rnd name s = (Ok v, s1) ->
     persistent_identifier cng_sha256 disk config rnd2 name (perform_all rs s1) = (Ok w, s2) ->
     w = v) /\
  (forall n s1 m s2,
     next_collector_generation disk config s = (Ok n, s1) ->
     next_collector_generation disk config (perform_all rs s1) = (Ok m, s2) ->
     n < m).
Proof.
  split.
  - intros rnd name v s1 rnd2 w s2 H1 H2.
    apply persistent_identifier_run in H1 as (Hn & Hv & _).
    destruct (perform_all_identifiers rs s1) as [Hk _]. specialize (Hk name v Hn Hv).
    apply persistent_identifier_run in H2 as (_ & Hw & [E|[Hnone _]]); congruence.
  - intros n s1 m s2 H1 H2. apply next_generation_run in H1 as (Hn & Hb & E).
    apply next_generation_run in H2 as (Hm & _).
    destruct (perform_all_identifiers rs s1) as [_ Hg].
    assert (Hg1 : generation (db s1) = n).
    { unfold generation. rewrite E. simpl. rewrite lookup_insert_eq.
      pose proof (generation_nonneg (db s)).
      rewrite from_chars_to_string by (subst; unfold u64_max in *; lia). done. }
    lia.
Qed.

(** ** The command inbox *)
Definition rank (st : cmd_state) : Z :=
  match st with
  | Received => 0 | Executing => 1 | ResultReady => 2 | Outboxed => 3 | OtherState _ => 4
  end.
(** how one row may evolve: identity and body never change, the state only moves
    forward, and a recorded outcome is final *)
Definition evolves (c c' : CommandRow) : Prop :=
  c_key c' = c_key c /\ c_scope c' = c_scope c /\ c_digest c' = c_digest c /\
  c_payload c' = c_payload c /\ rank (c_state c) <= rank (c_state c') /\
  (2 <= rank (c_state c) -> c_result c' = c_result c).
Definition inbox_grows (d d' : JournalDb) : Prop :=
  forall c, c ∈ commands d -> exists c', c' ∈ commands d' /\ evolves c c'.

Lemma evolves_refl c : evolves c c.
Proof. repeat split; lia || done. Qed.
Lemma evolves_trans a b c : evolves a b -> evolves b c -> evolves a c.
Proof.
  intros (?&?&?&?&?&Hab) (?&?&?&?&?&Hbc). repeat split; try congruence; try lia.
  intros Hrank. rewrite Hbc, Hab by lia. done.
Qed.
Lemma inbox_refl d : inbox_grows d d.
Proof. intros c Hc. exists c. split; [done|apply evolves_refl]. Qed.
Lemma inbox_trans a b c : inbox_grows a b -> inbox_grows b c -> inbox_grows a c.
Proof.
  intros H1 H2 x Hx. destruct (H1 x Hx) as (y & Hy & E1). destruct (H2 y Hy) as (z & Hz & E2).
  exists z. split; [done|]. by eapply evolves_trans.
Qed.
Lemma find_scoped_Some scope k d row :
  find_scoped scope k d = Some row -> row ∈ commands d /\ c_scope row = scope /\ c_key row = k.
Proof.
  unfold find_scoped. intros H. apply List.find_some in H as [Hin H].
  apply andb_true_iff in H as [H1 H2]. apply String.eqb_eq in H1, H2.
  split; [by apply list_elem_of_In|done].
Qed.
Lemma unique_command d a b :
  NoDup (c_key <$> commands d) -> a ∈ commands d -> b ∈ commands d -> c_key a = c_key b -> a = b.
Proof.
  induction (commands d) as [|c l IH]; intros Hn Ha Hb E; [by apply not_elem_of_nil in Ha|].
  rewrite fmap_cons, NoDup_cons in Hn. destruct Hn as [Hn Hl].
  apply elem_of_cons in Ha, Hb. destruct Ha as [->|Ha], Hb as [->|Hb]; auto.
  - exfalso. apply Hn. rewrite E. by apply list_elem_of_fmap_2.
  - exfalso. apply Hn. rewrite <- E. by apply list_elem_of_fmap_2.
Qed.

(** the row that [receive_command] adds *)
Definition received_row (scope k body p : string) (row : CommandRow) : Prop :=
  c_key row = k /\ c_scope row = scope /\ c_payload row = p /\ c_state row = Received /\
  protect body (scope +:+ k +:+ "/command") = Ok p.
(** the rows after a request: each old row evolved, and the command it received *)
Definition inbox_rows (r : request) (d d' : JournalDb) : Prop :=
  exists old new, commands d' = old ++ new /\ Forall2 evolves (commands d) old /\
    (new = [] \/ exists scope k body p row, r = ReceiveCommand scope k body /\ new = [row] /\
                  received_row scope k body p row).
Lemma inbox_rows_same r d : inbox_rows r d d.
Proof.
  exists (commands d), []. rewrite app_nil_r. split; [done|]. split; [|by left].
  apply Forall_Forall2_diag, Forall_forall. intros c _. apply evolves_refl.
Qed.
Lemma inbox_rows_update r scope k f d :
  (forall c, c ∈ commands d -> c_scope c = scope -> c_key c = k -> evolves c (f c)) ->
  inbox_rows r d (update_command scope k f d).
Proof.
  intros Hf. exists (commands (update_command scope k f d)), []. rewrite app_nil_r. split; [done|].
  split; [|by left]. simpl. apply Forall2_fmap_r, Forall_Forall2_diag, Forall_forall. intros c Hc.
  change (evolves c (if String.eqb (c_scope c) scope && String.eqb (c_key c) k then f c else c)).
  destruct (String.eqb_spec (c_scope c) scope), (String.eqb_spec (c_key c) k);
    simpl; try apply evolves_refl. by apply Hf.
Qed.
Lemma perform_rows r s x s' :
  tables_ok (db s) -> perform r s = (Ok x, s') -> inbox_rows r (db s) (db s').
Proof.
  intros Ht H. pose proof (ok_command_keys _ Ht) as Hnd. destruct (command_request r) eqn:R.
  2:{ apply perform_side in H as [H _]. unfold inbox_rows. rewrite (H R). apply inbox_rows_same. }
  destruct r; try done; apply answering_Ok in H as (a & H & ->).
  - unfold receive_command in H. inv_step H. apply transaction_Ok in H. inv_step H. inv_step H.
    destruct (find_command k (db s)); [inv_step H; inv_step H; apply inbox_rows_same|].
    inv_run H. rewrite H. eexists (commands (db s)), [_]. split; [done|]. split.
    + apply Forall_Forall2_diag, Forall_forall. intros c _. apply evolves_refl.
    + right. by eexists scope, k, body, _, _.
  - unfold begin_command in H. apply transaction_Ok in H. inv_step H.
    destruct (find_scoped scope k (db s)) as [row|]; [|inv_step H; apply inbox_rows_same].
    case_decide as Hst; [|inv_step H; apply inbox_rows_same]. inv_run H.
    match goal with E : db ?y = _ |- inbox_rows _ _ (db ?y) => rewrite E end.
    apply inbox_rows_update. intros c _ _ _. case_decide as E; [|apply evolves_refl].
    unfold evolves. simpl. rewrite E. simpl. repeat split; lia.
  - unfold finish_command in H. inv_step H. apply transaction_Ok in H. inv_step H.
    destruct (find_scoped scope k (db s)) as [row|] eqn:F; [|by inv_step H].
    apply find_scoped_Some in F as (Hin & Hs & Hk).
    destruct (c_state row) eqn:E; try (by inv_step H);
      try (inv_step H; inv_step H; apply inbox_rows_same).
    inv_run H. rewrite H. apply inbox_rows_update. intros c Hc Hcs Hck.
    assert (c = row) as -> by (eapply unique_command; eauto; congruence).
    unfold evolves. simpl. rewrite E. simpl. repeat split; lia.
  - unfold mark_command_outboxed in H. apply transaction_Ok in H. inv_step H.
    destruct (find_scoped scope k (db s)) as [row|] eqn:F; [|by inv_step H].
    apply find_scoped_Some in F as (Hin & Hs & Hk).
    destruct (c_state row) eqn:E; try (by inv_step H); try (inv_step H; apply inbox_rows_same).
    inv_run H. rewrite H. apply inbox_rows_update. intros c Hc Hcs Hck.
    assert (c = row) as -> by (eapply unique_command; eauto; congruence).
    unfold evolves. simpl. rewrite E. simpl. repeat split; lia.
Qed.
Lemma inbox_rows_grow r d d' : inbox_rows r d d' -> inbox_grows d d'.
Proof.
  intros (old & new & E & H & _) c Hc. rewrite E. apply list_elem_of_lookup in Hc as [i Hi].
  destruct (Forall2_lookup_l _ _ _ _ _ H Hi) as (c' & Hi' & He). exists c'. split; [|done].
  apply elem_of_app. left. by eapply list_elem_of_lookup_2.
Qed.
Lemma perform_inbox r s x s' :
  tables_ok (db s) -> perform r s = (Ok x, s') -> inbox_grows (db s) (db s').
Proof. intros Ht H. eapply inbox_rows_grow, perform_rows; done. Qed.
Lemma perform_all_inbox rs s :
  journal_ok config (db s) -> inbox_grows (db s) (db (perform_all rs s)).
Proof.
  revert s; induction rs as [|r rs IH]; intros s Hok; [apply inbox_refl|].
  cbn [Journal.perform_all]. eapply inbox_trans; [|by apply IH, perform_step].
  destruct (perform r s) as [[x|e] s'] eqn:E; simpl.
  - eapply perform_inbox; [apply Hok|exact E].
  - rewrite (perform_atomic _ _ _ _ _ _ _ _ _ _ _ E). apply inbox_refl.
Qed.

(** The command inbox is a one-way state machine.  Along any sequence of
    requests every received command keeps its identity, body and digest, its
    state only moves forward (received, executing, result ready, outboxed), and
    a recorded outcome never changes. *)
Theorem command_inbox_forward (rs : list request) (s : JState) (c : CommandRow) :
  journal_ok config (db s) -> c ∈ commands (db s) ->
  exists c', c' ∈ commands (db (perform_all rs s)) /\
    c_key c' = c_key c /\ c_scope c' = c_scope c /\ c_digest c' = c_digest c /\
    c_payload c' = c_payload c /\ rank (c_state c) <= rank (c_state c') /\
    (2 <= rank (c_state c) -> c_result c' = c_result c).
Proof. intros Hok Hc. exact (perform_all_inbox rs s Hok c Hc). Qed.

(** A command is started at most once.  When [begin_command] has granted the
    execution of a command, no later call grants it again, after any sequence of
    requests: a crash or a redelivery cannot execute it twice through the inbox. *)
Theorem begin_command_once (rs : list request) (s s1 s2 : JState) (scope k : string) (b : bool) :
  journal_ok config (db s) ->
  begin_command disk config scope k s = (Ok true, s1) ->
  begin_command disk config scope k (perform_all rs s1) = (Ok b, s2) ->
  b = false.
Proof.
  intros Hok H1 H2.
  assert (Hok1 : journal_ok config (db s1)) by (eapply begin_keeps; [exact H1|done]).
  assert (Hrow : exists c, c ∈ commands (db s1) /\ c_scope c = scope /\ c_key c = k /\
    c_state c = Executing).
  { unfold begin_command in H1. apply transaction_Ok in H1. inv_step H1.
    destruct (find_scoped scope k (db s)) as [row|] eqn:F; [|by inv_step H1].
    case_decide as Hst; [|by inv_step H1]. apply find_scoped_Some in F as (Hin & Hs & Hk).
    inv_run H1. match goal with E : db ?y = _ |- context [commands (db ?y)] => rewrite E end.
    exists (set_state Executing row). simpl. split; [|done]. apply list_elem_of_fmap.
    exists row. rewrite !String.eqb_refl. simpl. by rewrite decide_True. }
  destruct Hrow as (c & Hc & Hs & Hk & Hst).
  destruct (perform_all_inbox rs s1 Hok1 c Hc) as (c' & Hc' & Hk' & Hs' & _ & _ & Hr & _).
  pose proof (perform_all_ok cng_sha256 valid_utf8 json_parse protect unprotect disk config rs s1 Hok1)
    as [Ht2 _].
  unfold begin_command in H2. apply transaction_Ok in H2. inv_step H2.
  destruct (find_scoped _ _ _) as [row|] eqn:F; [|by inv_step H2].
  apply find_scoped_Some in F as (Hin & Hs2 & Hk2).
  assert (row = c') as -> by (eapply unique_command; eauto using ok_command_keys; congruence).
  case_decide as E; [|by inv_step H2]. rewrite Hst, E in Hr. simpl in Hr. lia.
Qed.
End Spec.
