(* ===== verification/JournalRuns.v ===== *)
(** * Concrete runs of the journal

    The journal's theorems at work on a small journal: two observations, a
    receipt that accepts one and rejects the other, a source checkpoint and a
    command.  The parameters are instantiated by simple functions: the digest
    provider returns the bytes of its input, encryption is the identity, and the
    parser knows one receipt. *)

From S2P Require Import Prelude Crc32 Telemetry Identity Json ProcessGraph Journal JournalFacts JournalSpec.

Definition toy_sha (s : string) : string + list Z := inr (code <$> of_str s).
Definition toy_utf8 (_ : string) : bool := true.
Definition toy_cipher (x _ : string) : result string := Ok x.
Definition toy_disk (_ : JournalDb) : DiskReport :=
  {| file_sizes := [Ok (Some 4096); Ok None; Ok None]; free_space := Ok 1000000000 |}.
Definition toy_config : JournalConfig :=
  {| retained_payload_limit := 100000; event_size_limit := 1024;
     physical_admission_limit := 10000000; minimum_free_bytes := 1000 |}.
Definition start : JState := {| db := empty_db; storage_admission_refusals := 0 |}.

Definition no_parse (_ : string) : option json := None.
#[local] Abbreviation do_append := (append toy_sha toy_utf8 no_parse toy_cipher toy_disk toy_config).
Definition two_lines : JState := (do_append "b" (do_append "a" start).2).2.
Definition first_batch : option JournalBatch :=
  match (peek toy_sha toy_cipher 10 1000 two_lines).1 with Ok b => b | Throw _ => None end.
Definition the_batch : JournalBatch :=
  default {| batch_id := ""; batch_protocol := 1; entries := [] |} first_batch.
(** line 2 is rejected *)
Definition receipt : json :=
  object [("batch_id", JStr (batch_id the_batch)); ("received", JUint 2); ("accepted", JUint 1);
          ("duplicates", JUint 0);
          ("rejected", JArr [object [("line", JUint 2); ("reason", JStr "schema_invalid");
                                     ("detail", JStr "no")]])].
Definition toy_parse (t : string) : option json :=
  if String.eqb t "receipt" then Some receipt else None.

#[local] Abbreviation perform := (Journal.perform toy_sha toy_utf8 toy_parse toy_cipher toy_cipher toy_disk toy_config).
#[local] Abbreviation perform_all := (Journal.perform_all toy_sha toy_utf8 toy_parse toy_cipher toy_cipher toy_disk toy_config).

Lemma start_ok : journal_ok toy_config (db start).
Proof.
  split; [|vm_compute; discriminate].
  constructor; simpl; try done; try constructor; try done; try apply NoDup_nil_2; constructor.
Defined.

Lemma refused_request_changes_nothing_witness :
  (perform (Append "") start).1 = Throw (invalid_argument
    "journal observation is empty, multiline or over the event size limit") /\
  db (perform (Append "") start).2 = db start.
Proof.
  split; [vm_compute; reflexivity|].
  apply (refused_request_changes_nothing toy_sha toy_utf8 toy_parse toy_cipher toy_cipher toy_disk
    toy_config (Append "") start (invalid_argument
      "journal observation is empty, multiline or over the event size limit")).
  vm_compute. reflexivity.
Defined.

Lemma journal_accounting_witness :
  journal_ok toy_config (db (perform_all [Append "a"; Append "b"; Acknowledge the_batch "receipt"] start)).
Proof.
  exact (journal_accounting toy_sha toy_utf8 toy_parse toy_cipher toy_cipher toy_disk toy_config
    [Append "a"; Append "b"; Acknowledge the_batch "receipt"] start start_ok).
Defined.

Definition row_a : Observation := {|
  o_seq := 1; o_key := "61"; o_payload := "a"; o_bytes := 1; o_state := Pending;
  o_reason := None; o_protocol := 1 |}.
Definition row_b : Observation := {|
  o_seq := 2; o_key := "62"; o_payload := "b"; o_bytes := 1; o_state := Pending;
  o_reason := None; o_protocol := 1 |}.
Lemma two_rows : observations (db two_lines) = [row_a; row_b].
Proof. vm_compute. reflexivity. Defined.

Lemma evidence_retained_witness :
  row_a ∈ observations (db (perform_all [Append "z"; NextGeneration; Peek 5 500] two_lines)).
Proof.
  refine (evidence_retained toy_sha toy_utf8 toy_parse toy_cipher toy_cipher toy_disk toy_config
    [Append "z"; NextGeneration; Peek 5 500] two_lines row_a _ _).
  - rewrite two_rows. apply elem_of_cons. by left.
  - left. intros r Hr. rewrite !elem_of_cons in Hr.
    destruct Hr as [->|[->|[->|Hr]]]; try (simpl; tauto). by apply not_elem_of_nil in Hr.
Defined.

Lemma append_exact_idempotent_witness :
  do_append "a" start = (Ok tt, (do_append "a" start).2) /\
  ((exists k, digest toy_sha "a" = Ok k /\ has_observation k (db (do_append "a" start).2) = true /\
     (observations (db (do_append "a" start).2) = observations (db start) \/
      exists o, observations (db (do_append "a" start).2) = observations (db start) ++ [o] /\
        o_key o = k /\ o_state o = Pending /\ toy_cipher "a" k = Ok (o_payload o) /\
        o_bytes o = slen "a")) /\
   do_append "a" (do_append "a" start).2 = (Ok tt, (do_append "a" start).2)).
Proof.
  split; [vm_compute; reflexivity|].
  apply (append_exact_idempotent toy_sha toy_utf8 no_parse toy_cipher toy_disk toy_config "a" start).
  vm_compute. reflexivity.
Defined.

Lemma peek_prefix_witness :
  peek toy_sha toy_cipher 10 1000 two_lines = (Ok (Some the_batch), two_lines) /\
  (two_lines = two_lines /\
   let rows := filter (fun o => o_protocol o = batch_protocol the_batch) (pending_rows (db two_lines)) in
   o_protocol <$> hd_error (pending_rows (db two_lines)) = Some (batch_protocol the_batch) /\
   entries the_batch <> [] /\ zlen (entries the_batch) <= 10 /\ slen (ndjson the_batch) <= 1000 /\
   Forall2 (fun o e => key e = o_key o /\ toy_cipher (o_payload o) (o_key o) = Ok (body e))
     (take (length (entries the_batch)) rows) (entries the_batch)).
Proof.
  split; [vm_compute; reflexivity|].
  apply (peek_prefix toy_sha toy_cipher 10 1000 two_lines two_lines (Some the_batch));
    [lia|lia|vm_compute; reflexivity].
Defined.

#[local] Abbreviation acked := (acknowledge toy_parse toy_cipher toy_disk toy_config the_batch "receipt" two_lines).

#[local] Abbreviation swap line cp := (append_checkpointed toy_sha toy_utf8 toy_parse toy_cipher
  toy_cipher toy_disk toy_config line "log" cp 0).
Lemma checkpoint_fenced_witness :
  holds_checkpoint toy_cipher (db (swap "a" "c1" start).2) "log" (0 + 1) "c1" /\
  (forall other, other <> "log" ->
     checkpoints (db (swap "a" "c1" start).2) !! other = checkpoints (db start) !! other) /\
  (forall line2 cp2, cp2 <> "c1" -> is_ok (swap line2 cp2 (swap "a" "c1" start).2).1 = false).
Proof.
  refine (checkpoint_fenced toy_sha toy_utf8 toy_parse toy_cipher toy_cipher toy_disk toy_config
    "a" "log" "c1" 0 start (swap "a" "c1" start).2 _ _ _).
  - intros x k y [= <-]. reflexivity.
  - unfold u64_max. lia.
  - vm_compute. reflexivity.
Defined.

Definition with_command : JState := (perform (ReceiveCommand "s" "c" "body") start).2.
Lemma with_command_ok : journal_ok toy_config (db with_command).
Proof. exact (perform_step _ _ _ _ _ _ _ (ReceiveCommand "s" "c" "body") start start_ok). Defined.
Definition command_c : CommandRow := {|
  c_key := "c"; c_scope := "s"; c_digest := "626f6479"; c_payload := "body"; c_state := Received;
  c_result := None; c_bytes := 4 |}.
Lemma command_inbox_forward_witness :
  exists c', c' ∈ commands (db (perform_all [BeginCommand "s" "c"; FinishCommand "s" "c" "ok"] with_command)) /\
    c_key c' = c_key command_c /\ c_scope c' = c_scope command_c /\
    c_digest c' = c_digest command_c /\ c_payload c' = c_payload command_c /\
    rank (c_state command_c) <= rank (c_state c') /\
    (2 <= rank (c_state command_c) -> c_result c' = c_result command_c).
Proof.
  refine (command_inbox_forward toy_sha toy_utf8 toy_parse toy_cipher toy_cipher toy_disk toy_config
    [BeginCommand "s" "c"; FinishCommand "s" "c" "ok"] with_command command_c with_command_ok _).
  assert (E : commands (db with_command) = [command_c]) by (vm_compute; reflexivity).
  rewrite E. apply elem_of_cons. by left.
Defined.

#[local] Abbreviation beginning := (begin_command toy_disk toy_config "s" "c").
Lemma begin_command_once_witness :
  beginning with_command = (Ok true, (beginning with_command).2) /\ false = false.
Proof.
  split; [vm_compute; reflexivity|].
  refine (begin_command_once toy_sha toy_utf8 toy_parse toy_cipher toy_cipher toy_disk toy_config
    [Append "x"] with_command (beginning with_command).2
    (beginning (perform_all [Append "x"] (beginning with_command).2)).2 "s" "c" false
    with_command_ok _ _); vm_compute; reflexivity.
Defined.

#[local] Abbreviation identify rnd := (persistent_identifier toy_sha toy_disk toy_config rnd "agent").
#[local] Abbreviation generate := (next_collector_generation toy_disk toy_config).
(** the second identifier request draws other random bytes, and is answered with the first identifier *)
Lemma identifiers_stable_witness :
  (identify (Ok "r1") start).1 = Ok "7231" /\
  (forall w s2, identify (Ok "r2")
     (perform_all [Append "x"; NextGeneration] (identify (Ok "r1") start).2) = (Ok w, s2) ->
     w = "7231") /\
  (generate start).1 = Ok 1 /\
  (generate (perform_all [Append "x"; NextGeneration] (generate start).2)).1 = Ok 3 /\ 1 < 3.
Proof.
  pose proof (identifiers_stable toy_sha toy_utf8 toy_parse toy_cipher toy_cipher toy_disk toy_config
    [Append "x"; NextGeneration] start) as [Hid Hgen].
  split; [vm_compute; reflexivity|]. split.
  { intros w s2 H. refine (Hid (Ok "r1") "agent" "7231" _ (Ok "r2") w s2 _ H).
    vm_compute. reflexivity. }
  split; [vm_compute; reflexivity|]. split; [vm_compute; reflexivity|].
  refine (Hgen 1 (generate start).2 3
    (generate (perform_all [Append "x"; NextGeneration] (generate start).2)).2 _ _);
    vm_compute; reflexivity.
Defined.
