(* ===== verification/Ledger.v ===== *)
(** * Identifiers and the replay ledger

    [response/identity.cpp] (the identifier grammar) and
    [response/replay_ledger.cpp]: the append-only file of accepted command ids,
    loaded at start and appended to before a command is accepted.  The file is
    its text; the outcome of each file-system call is an argument. *)

From S2P Require Import Prelude.

Definition is_identifier_char (c : ascii) : bool :=
  is_alnum c || (code c =? 45) || (code c =? 95) || (code c =? 46).
Definition is_valid_identifier (value : string) : bool :=
  negb (str_empty value) && (slen value <=? 128) && str_forallb is_identifier_char value.

Definition newline : ascii := ascii_of_N 10.
(** repeated [std::getline]: the pieces between newlines, without a final empty one *)
Fixpoint split_lines (s : string) (line : string) : list string :=
  match s with
  | "" => if str_empty line then [] else [line]
  | String c s =>
      if Ascii.eqb c newline then line :: split_lines s ""
      else split_lines s (line +:+ String c "")
  end.
Definition lines (s : string) : list string := split_lines s "".

Record ReplayLedger := {
  entries : gset string;
  maximum_entries : Z;
  file : option string      (* the text of the ledger file, [None]: absent *)
}.

(** one line of [load]: [None] is the malformed or over-capacity ledger *)
Fixpoint load_lines (maximum : Z) (ids : list string) (acc : gset string) : option (gset string) :=
  match ids with
  | [] => Some acc
  | id :: ids =>
      if negb (is_valid_identifier id) || (Z.of_nat (size acc) =? maximum) then None
      else load_lines maximum ids ({[id]} ∪ acc)
  end.
(** [readable]: whether an existing file can be opened *)
Definition load (readable : bool) (l : ReplayLedger) : string + ReplayLedger :=
  match file l with
  | None => inr l
  | Some text =>
      if negb readable then inl "cannot read replay ledger"
      else match load_lines (maximum_entries l) (lines text) (entries l) with
           | None => inl "replay ledger is malformed or exceeds limit"
           | Some e => inr {| entries := e; maximum_entries := maximum_entries l; file := file l |}
           end
  end.
Definition contains (id : string) (l : ReplayLedger) : bool := bool_decide (id ∈ entries l).

(** how the directory creation, the open and the flush went; a failed flush may
    still have written a prefix of the line *)
Inductive io_outcome := DirectoryFails | OpenFails | FlushFails (written : nat) | Persisted.

Definition append_line (id : string) (l : ReplayLedger) : option string :=
  Some (default "" (file l) +:+ id +:+ String newline "").
Definition append_torn (written : nat) (id : string) (l : ReplayLedger) : option string :=
  Some (default "" (file l) +:+ str_take written (id +:+ String newline "")).
Definition mark_if_new (io : io_outcome) (id : string) (l : ReplayLedger)
  : (string + bool) * ReplayLedger :=
  if negb (is_valid_identifier id) || (maximum_entries l =? 0)
  then (inl "command id or replay ledger limit is invalid", l)
  else if bool_decide (id ∈ entries l) then (inr false, l)
  else if Z.of_nat (size (entries l)) =? maximum_entries l
  then (inl "replay ledger capacity exhausted", l)
  else match io with
       | DirectoryFails => (inl "cannot create replay ledger directory", l)
       | OpenFails => (inl "cannot persist replay entry", l)
       | FlushFails written =>
           (inl "cannot flush replay entry",
            {| entries := entries l; maximum_entries := maximum_entries l;
               file := append_torn written id l |})
       | Persisted =>
           (inr true, {| entries := {[id]} ∪ entries l; maximum_entries := maximum_entries l;
                         file := append_line id l |})
       end.

(** ** Reading the file back *)
Lemma identifier_no_newline s : is_valid_identifier s = true -> str_contains newline s = false.
Proof.
  unfold is_valid_identifier. intros H. apply andb_true_iff in H as [_ H].
  induction s as [|c s IH]; [done|]. cbn [str_forallb str_contains] in *.
  apply andb_true_iff in H as [Hc H]. rewrite IH by done. rewrite orb_false_r.
  apply Ascii.eqb_neq. intros <-. vm_compute in Hc. done.
Qed.
Lemma split_lines_line a rest acc :
  str_contains newline a = false ->
  split_lines (a +:+ String newline rest) acc = (acc +:+ a) :: split_lines rest "".
Proof.
  revert acc; induction a as [|c a IH]; intros acc H.
  - simpl. by rewrite string_app_nil_r.
  - cbn [str_contains] in H. apply orb_false_iff in H as [Hc H].
    change (String c a +:+ String newline rest) with (String c (a +:+ String newline rest)).
    cbn [split_lines]. rewrite Ascii.eqb_sym, Hc, IH by done. by rewrite string_app_assoc.
Qed.
Fixpoint unlines (ids : list string) : string :=
  match ids with [] => "" | id :: ids => id +:+ String newline (unlines ids) end.
Lemma lines_unlines ids :
  Forall (fun id => is_valid_identifier id = true) ids -> lines (unlines ids) = ids.
Proof.
  induction 1 as [|id ids Hid Hids IH]; [done|]. unfold lines in *. cbn [unlines].
  rewrite split_lines_line by by apply identifier_no_newline. by rewrite IH.
Qed.
Lemma unlines_snoc ids id : unlines (ids ++ [id]) = unlines ids +:+ id +:+ String newline "".
Proof. induction ids as [|x ids IH]; [done|]. simpl. rewrite IH. by rewrite !string_app_assoc. Qed.

(** the ledger and its file agree: the file lists valid ids, without repetition,
    and the loaded set is exactly theirs *)
Definition ledger_ok (l : ReplayLedger) : Prop :=
  exists ids, default "" (file l) = unlines ids /\ NoDup ids /\
    Forall (fun id => is_valid_identifier id = true) ids /\
    entries l = list_to_set ids /\ zlen ids <= maximum_entries l /\ 0 <= maximum_entries l.

Lemma load_lines_ok maximum ids acc :
  Forall (fun id => is_valid_identifier id = true) ids -> NoDup ids ->
  (forall id, id ∈ ids -> id ∉ acc) -> Z.of_nat (size acc) + zlen ids <= maximum ->
  load_lines maximum ids acc = Some (list_to_set ids ∪ acc).
Proof.
  revert acc; induction ids as [|id ids IH]; intros acc Hv Hn Hd Hm; cbn [load_lines].
  - f_equal. set_solver.
  - apply Forall_cons in Hv as [Hid Hv]. apply NoDup_cons in Hn as [Hni Hn].
    rewrite zlen_cons in Hm. pose proof (zlen_nonneg ids). rewrite Hid. cbn [negb orb].
    destruct (Z.eqb_spec (Z.of_nat (size acc)) maximum); [lia|].
    rewrite IH; [|done|done| |].
    + f_equal. set_solver.
    + intros x Hx. specialize (Hd x). rewrite elem_of_cons in Hd. set_solver.
    + rewrite size_union, size_singleton; [lia|].
      specialize (Hd id). rewrite elem_of_cons in Hd. set_solver.
Qed.

Lemma ledger_restart_spec l :
  ledger_ok l -> load true {| entries := ∅; maximum_entries := maximum_entries l; file := file l |}
    = inr l.
Proof.
  intros (ids & Hf & Hn & Hv & He & Hm & H0). unfold load. simpl.
  destruct (file l) as [text|] eqn:E.
  - simpl in Hf. subst text. rewrite lines_unlines by done. rewrite load_lines_ok; try done.
    + rewrite union_empty_r_L, <- He. destruct l; simpl in *; by subst.
  - simpl in Hf. assert (ids = []) as ->.
    { destruct ids as [|id ids]; [done|]. exfalso. cbn [unlines] in Hf. by destruct id. }
    f_equal. destruct l; simpl in *; by subst.
Qed.
Lemma mark_ok io id l b l' :
  ledger_ok l -> mark_if_new io id l = (inr b, l') ->
  ledger_ok l' /\ entries l ⊆ entries l' /\ id ∈ entries l' /\ b = bool_decide (id ∉ entries l).
Proof.
  intros (ids & Hf & Hn & Hv & He & Hm & H0) H. unfold mark_if_new in H.
  destruct (negb (is_valid_identifier id) || (maximum_entries l =? 0)) eqn:Ev; [done|].
  apply orb_false_iff in Ev as [Hid _]. apply negb_false_iff in Hid.
  case_bool_decide as Hin.
  { injection H as <- <-. split; [by exists ids|]. split; [done|]. split; [done|].
    symmetry. apply bool_decide_eq_false. tauto. }
  destruct (Z.eqb_spec (Z.of_nat (size (entries l))) (maximum_entries l)) as [|Hsz]; [done|].
  destruct io; try done. injection H as <- <-. simpl.
  assert (Hni : id ∉ ids) by (rewrite He in Hin; by rewrite elem_of_list_to_set in Hin).
  split; [|split; [set_solver|split; [set_solver|by rewrite bool_decide_true]]].
  exists (ids ++ [id]). simpl. rewrite unlines_snoc, <- Hf. split; [done|].
  split; [|split; [|split; [|split]]].
  - apply NoDup_app. split; [done|]. split; [|apply NoDup_singleton].
    intros x Hx ->%list_elem_of_singleton. done.
  - apply Forall_app. split; [done|]. by repeat constructor.
  - rewrite list_to_set_app_L, He. set_solver.
  - rewrite zlen_app, zlen_cons, zlen_nil. rewrite He, size_list_to_set in Hsz by done.
    unfold zlen in *. lia.
  - done.
Qed.

(** The replay ledger survives restarts.  When an id is marked as new, it had
    not been seen before, it is refused from then on, and reloading the ledger
    file in a new process restores exactly the same set of ids: a command
    accepted before a crash cannot be accepted after it. *)
Theorem ledger_marks_once (io io' : io_outcome) (id : string) (l l' : ReplayLedger) :
  ledger_ok l -> mark_if_new io id l = (inr true, l') ->
  (id ∉ entries l) /\
  load true {| entries := ∅; maximum_entries := maximum_entries l'; file := file l' |} = inr l' /\
  (mark_if_new io' id l').1 = inr false.
Proof.
  intros Hok H. destruct (mark_ok _ _ _ _ _ Hok H) as (Hok' & _ & Hin & Hb).
  symmetry in Hb. apply bool_decide_eq_true in Hb. split; [done|].
  split; [by apply ledger_restart_spec|]. unfold mark_if_new in *.
  destruct (negb (is_valid_identifier id) || (maximum_entries l =? 0)) eqn:Ev; [done|].
  assert (maximum_entries l' = maximum_entries l) as ->.
  { revert H. destruct (bool_decide (id ∈ entries l)); [done|].
    destruct (Z.of_nat (size (entries l)) =? maximum_entries l); [done|].
    destruct io; try done. by intros [= <-]. }
  rewrite Ev. by rewrite bool_decide_true.
Qed.
Definition sample_ledger : ReplayLedger :=
  {| entries := {["cmd-1"]}; maximum_entries := 10;
     file := Some ("cmd-1" +:+ String newline "") |}.
Lemma sample_ledger_ok : ledger_ok sample_ledger.
Proof.
  exists ["cmd-1"]. split; [reflexivity|]. split; [apply NoDup_singleton|].
  split; [repeat constructor|]. split; [vm_compute; reflexivity|].
  split; vm_compute; discriminate.
Defined.
Lemma ledger_marks_once_witness :
  ("cmd-2" ∉ entries sample_ledger) /\
  load true {| entries := ∅;
    maximum_entries := maximum_entries (mark_if_new Persisted "cmd-2" sample_ledger).2;
    file := file (mark_if_new Persisted "cmd-2" sample_ledger).2 |}
    = inr (mark_if_new Persisted "cmd-2" sample_ledger).2 /\
  (mark_if_new OpenFails "cmd-2" (mark_if_new Persisted "cmd-2" sample_ledger).2).1 = inr false.
Proof.
  refine (ledger_marks_once Persisted OpenFails "cmd-2" sample_ledger
    (mark_if_new Persisted "cmd-2" sample_ledger).2 sample_ledger_ok _).
  vm_compute. reflexivity.
Defined.
