(* ===== verification/Command.v ===== *)
(** * Response commands

    [response/command.cpp]: the strict decoder of the Manager's command
    envelopes, the UTC timestamp parser, the result serializer, the admission
    gate, and the protected-process test.  The JSON library is a parameter: a
    parser that keeps object members as written, duplicates included, and the
    serializer [dump]. *)

From S2P Require Import Prelude Telemetry Identity Ledger Json.

(** ** Timestamps *)
Definition str_sub (s : string) (off count : nat) : string := str_take count (str_drop off s).
Definition back (s : string) : option ascii := str_get s (String.length s - 1).
Definition char_at (s : string) (i : nat) (c : ascii) : bool :=
  match str_get s i with Some d => Ascii.eqb d c | None => false end.
(** the number written by [count] digits at [off] *)
Fixpoint digits_at (s : string) (off count : nat) (acc : Z) : option Z :=
  match count with
  | O => Some acc
  | S n => match str_get s off with
           | Some c => if is_digit c then digits_at s (S off) n (acc * 10 + digit_val c) else None
           | None => None
           end
  end.
Definition digits (s : string) (off count : nat) : option Z := digits_at s off count 0.

Definition days_in_month : list Z := [31; 28; 31; 30; 31; 30; 31; 31; 30; 31; 30; 31].
Definition leap_year (y : Z) : bool :=
  ((y mod 4 =? 0) && negb (y mod 100 =? 0)) || (y mod 400 =? 0).
Definition max_day (y m : Z) : Z :=
  if (m =? 2) && leap_year y then 29 else nth (Z.to_nat (m - 1)) days_in_month 0.
(** days since 1970-01-01; C++ division truncates *)
Definition days_since_epoch (year m d : Z) : Z :=
  let y := year - (if m <=? 2 then 1 else 0) in
  let era := Z.quot (if 0 <=? y then y else y - 399) 400 in
  let yoe := y - era * 400 in
  let doy := Z.quot (153 * (m + (if 2 <? m then -3 else 9)) + 2) 5 + d - 1 in
  let doe := yoe * 365 + Z.quot yoe 4 - Z.quot yoe 100 + doy in
  era * 146097 + doe - 719468.

Fixpoint scale (n : nat) (v : Z) : Z := match n with O => v | S n => scale n (u32 (v * 10)) end.
(** the optional [.1-9 digits] fraction as nanoseconds *)
Definition fraction_nanoseconds (fraction : string) : option Z :=
  match fraction with
  | "" => Some 0
  | String c ds =>
      if negb (Ascii.eqb c ".") || (slen fraction <? 2) || (10 <? slen fraction) then None
      else match dec_value ds 0 with
           | Some v => Some (scale (9 - String.length ds) v)
           | None => None
           end
  end.

(** the calendar fields and the fraction of a text that ends in a UTC suffix *)
Definition parse_utc_timestamp_at (value fraction : string) : option (Z * Z) :=
  if negb (char_at value 4 "-" && char_at value 7 "-" && char_at value 10 "T"
           && char_at value 13 ":" && char_at value 16 ":") then None
  else
    year ← digits value 0 4;
    month ← digits value 5 2;
    day ← digits value 8 2;
    hour ← digits value 11 2;
    minute ← digits value 14 2;
    second ← digits value 17 2;
    if (month <? 1) || (12 <? month) || (day <? 1) || (31 <? day) || (23 <? hour)
       || (59 <? minute) || (59 <? second) then None
    else
      nanoseconds ← fraction_nanoseconds fraction;
      if max_day year month <? day then None
      else Some (days_since_epoch year month day * 86400 + hour * 3600 + minute * 60 + second,
                 nanoseconds).
(** seconds and nanoseconds; the suffix is removed before the fraction is read,
    which the digit tests before it make safe: they fail on every text whose
    suffix starts before position 19 *)
Definition parse_utc_timestamp (value : string) : option (Z * Z) :=
  let n := String.length value in
  let z := match back value with Some c => Ascii.eqb c "Z" | None => false end in
  if (slen value <? 20) || negb (z || String.eqb (str_drop (n - 6) value) "+00:00") then None
  else parse_utc_timestamp_at value (str_sub value 19 (n - (if z then 1 else 6) - 19)).

(** [std::pair] comparison: [a >= b] *)
Definition time_ge (a b : Z * Z) : bool :=
  (b.1 <? a.1) || ((a.1 =? b.1) && (b.2 <=? a.2)).

(** ** Data *)
Inductive ActionType :=
| kill_process | collect_process_info | collect_network_connections | collect_file
| quarantine_file | acquire_file | isolate_host | release_host_isolation.
#[global] Instance ActionType_eq_dec : EqDecision ActionType.
Proof. solve_decision. Defined.
Record ProcessTarget := {
  pt_host_id : string; pt_pid : Z; pt_start_time_ticks : Z; pt_boot_id : option string
}.
Record Command := {
  command_id : string; agent_id : string; host_id : string; schema_version : string;
  correlation_id : string; action : ActionType; expires_at_epoch_seconds : Z;
  process_target : ProcessTarget; file_target_path : string; file_capture_id : string;
  file_maximum_bytes : Z; canonical_wire_json : string
}.
Inductive ReceiptCode :=
| succeeded | invalid_command | expired | replay_detected | target_mismatch
| target_protected | unsupported_action | execution_failed | indeterminate.
#[global] Instance ReceiptCode_eq_dec : EqDecision ReceiptCode.
Proof. solve_decision. Defined.
Definition receipt_number (c : ReceiptCode) : Z :=
  match c with
  | succeeded => 0 | invalid_command => 1 | expired => 2 | replay_detected => 3
  | target_mismatch => 4 | target_protected => 5 | unsupported_action => 6
  | execution_failed => 7 | indeterminate => 8
  end.
Record ProcessExecutionEvidence := {
  stage : string; action_initiated : bool; completion_observed : bool; native_error : option Z
}.
Record CommandReceipt := {
  r_command_id : string; r_correlation_id : string; code_ : ReceiptCode; summary : string;
  execution : option ProcessExecutionEvidence
}.

(** ** Small validators *)
Definition is_bounded_string (j : json) (max_length : Z) : bool :=
  match j with JStr s => negb (str_empty s) && (slen s <=? max_length) | _ => false end.
Definition is_positive_integer (j : json) : bool :=
  is_number_integer j && negb (is_boolean j) && (0 <? get_i64 j).
Definition bounded_positive_u64 (j : json) (maximum : Z) : option Z :=
  if is_boolean j || negb (is_number_integer j) then None
  else
    number ← (if is_number_unsigned j then Some (get_u64 j)
              else if get_i64 j <=? 0 then None else Some (u64 (get_i64 j)));
    if (number =? 0) || (maximum <? number) then None else Some number.
Definition is_capture_id (s : string) : bool :=
  negb (str_empty s) && (slen s <=? 96)
  && str_forallb (fun c => is_alnum c || (code c =? 95) || (code c =? 45)) s.

(** ** Duplicate-free JSON

    The parser's callback sees every event with its nesting depth: the start of
    an object at the depth of the object, its keys and values one below. *)
Fixpoint too_deep (depth : Z) (j : json) : bool :=
  (32 <? depth) ||
  match j with
  | JArr l => (fix go (l : list json) : bool :=
                 match l with [] => false | x :: l => too_deep (depth + 1) x || go l end) l
  | JObj l => (fix go (l : list (string * json)) : bool :=
                 match l with
                 | [] => false
                 | (_, x) :: l => (32 <? depth + 1) || too_deep (depth + 1) x || go l
                 end) l
  | _ => false
  end.
Fixpoint duplicate_keys (j : json) : bool :=
  match j with
  | JArr l => (fix go (l : list json) : bool :=
                 match l with [] => false | x :: l => duplicate_keys x || go l end) l
  | JObj l => (fix go (seen : list string) (l : list (string * json)) : bool :=
                 match l with
                 | [] => false
                 | (k, x) :: l => bool_decide (k ∈ seen) || duplicate_keys x || go (k :: seen) l
                 end) [] l
  | _ => false
  end.
(** the document built from the events: members sorted by key *)
Fixpoint dom (j : json) : json :=
  match j with
  | JArr l => JArr ((fix go (l : list json) : list json :=
                       match l with [] => [] | x :: l => dom x :: go l end) l)
  | JObj l => JObj ((fix go (l : list (string * json)) (acc : list (string * json)) :=
                       match l with
                       | [] => acc
                       | (k, x) :: l => go l (put_member k (dom x) acc)
                       end) l [])
  | _ => j
  end.

Section Decoder.
Context (cng_sha256 : string -> string + list Z).
(** the parser's event tree for a text; [inl]: the text is not well-formed, with
    whether an event below the depth limit was reported before the error *)
Context (json_events : string -> bool + json).
(** [dump()] of a document parsed from text, whose strings are valid UTF-8 *)
Context (dump : json -> string).
(** [dump()] of a document built from other strings: throws on invalid UTF-8 *)
Context (dump_strict : json -> result string).

Definition parse_unambiguous_json (payload : string) : string + json :=
  match json_events payload with
  | inl deep => inl (if deep then "command JSON nesting exceeds bounds"
                     else "command JSON is not well-formed")
  | inr tree =>
      if too_deep 0 tree then inl "command JSON nesting exceeds bounds"
      else if duplicate_keys tree then inl "command JSON contains duplicate object keys"
      else inr (dom tree)
  end.

Definition members (j : json) : list (string * json) := match j with JObj l => l | _ => [] end.
Definition field (k : string) (j : json) : json := default JNull (find k j).
Definition text_of (j : json) : string := match j with JStr s => s | _ => "" end.

Definition allowed_keys : list string :=
  ["command_id"; "agent_id"; "host_id"; "schema_version"; "action";
   "expires_at"; "created_at"; "correlation_id"; "target"].
Definition required_keys : list string :=
  ["command_id"; "agent_id"; "host_id"; "schema_version"; "action";
   "expires_at"; "created_at"; "correlation_id"].

Definition action_of (name : string) : option ActionType :=
  if String.eqb name "KILL_PROCESS" then Some kill_process
  else if String.eqb name "COLLECT_PROCESS_INFO" then Some collect_process_info
  else if String.eqb name "COLLECT_NETWORK_CONNECTIONS" then Some collect_network_connections
  else if String.eqb name "COLLECT_FILE" then Some collect_file
  else if String.eqb name "QUARANTINE_FILE" then Some quarantine_file
  else if String.eqb name "ACQUIRE_FILE" then Some acquire_file
  else if String.eqb name "ISOLATE_HOST" then Some isolate_host
  else if String.eqb name "RELEASE_HOST_ISOLATION" then Some release_host_isolation
  else None.
Definition is_process_action (a : ActionType) : bool :=
  match a with kill_process | collect_process_info => true | _ => false end.
Definition is_file_action (a : ActionType) : bool :=
  match a with collect_file | quarantine_file => true | _ => false end.

(** a canonical native boot digest *)
Definition is_boot_digest (boot : string) : bool :=
  (slen boot =? 69) && starts_with "boot_" boot && str_forallb is_lower_hex (str_drop 5 boot).
(** canonical positive decimal [uint64] *)
Definition canonical_ticks (token : string) : option Z :=
  if str_empty token || (20 <? slen token) || starts_with "0" token then None
  else match from_chars_all u64_max token with
       | Some t => if t =? 0 then None else Some t
       | None => None
       end.

Definition fail_if (b : bool) (e : string) : string + unit := if b then inl e else inr tt.
#[local] Instance sum_bind : MBind (sum string) := fun A B f r =>
  match r with inl e => inl e | inr a => f a end.

Definition decode_process_target (schema host : string) (target : json) : string + ProcessTarget :=
  _ ← fail_if (negb (size_ target =? (if String.eqb schema "2" then 3 else 2))
               || negb (contains "pid" target) || negb (contains "start_time_ticks" target)
               || negb (is_positive_integer (field "pid" target)))
        "process command target is invalid";
  let pid := get_i64 (field "pid" target) in
  _ ← fail_if (u32_max <? pid) "process command target pid is out of range";
  if String.eqb schema "2" then
    let boot := text_of (field "boot_id" target) in
    _ ← fail_if (negb (contains "boot_id" target) || negb (is_bounded_string (field "boot_id" target) 128)
                 || negb (is_valid_identifier boot)
                 || negb (is_string (field "start_time_ticks" target)))
          "schema-2 process target requires boot identity and decimal native ticks";
    _ ← fail_if (negb (is_boot_digest boot))
          "schema-2 Windows boot identity must be the canonical native boot digest";
    match canonical_ticks (text_of (field "start_time_ticks" target)) with
    | None => inl "schema-2 native ticks are not a canonical positive uint64 decimal"
    | Some ticks => inr {| pt_host_id := host; pt_pid := pid; pt_start_time_ticks := ticks;
                           pt_boot_id := Some boot |}
    end
  else
    _ ← fail_if (negb (is_positive_integer (field "start_time_ticks" target)))
          "legacy process native ticks must be a positive integer";
    inr {| pt_host_id := host; pt_pid := pid;
           pt_start_time_ticks := get_u64 (field "start_time_ticks" target); pt_boot_id := None |}.

Definition maximum_acquisition_bytes : Z := 4 * 1024 * 1024 * 1024.

(** path, capture id and byte cap of a file target *)
Definition decode_file_target (a : ActionType) (target : json) : string + (string * string * Z) :=
  let path := text_of (field "path" target) in
  let path_ok := contains "path" target && is_bounded_string (field "path" target) 4096 in
  if is_file_action a then
    _ ← fail_if (negb (size_ target =? 1) || negb path_ok) "file command target is invalid";
    inr (path, "", 0)
  else if decide (a = acquire_file) then
    let capture := text_of (field "capture_id" target) in
    _ ← fail_if (negb (size_ target =? 3) || negb path_ok || negb (contains "capture_id" target)
                 || negb (is_string (field "capture_id" target)) || negb (is_capture_id capture)
                 || negb (contains "maximum_bytes" target))
          "file acquisition target must contain only path, capture_id, and maximum_bytes";
    match bounded_positive_u64 (field "maximum_bytes" target) maximum_acquisition_bytes with
    | None => inl "file acquisition maximum_bytes must be a positive integer no greater than 4 GiB"
    | Some m => inr (path, capture, m)
    end
  else
    _ ← fail_if (negb (size_ target =? 0)) "this action does not accept a target";
    inr ("", "", 0).

Definition parse_command_json (payload : string) : string + Command :=
  _ ← fail_if (str_empty payload || (8192 <? slen payload)) "command JSON exceeds bounds";
  document ← parse_unambiguous_json payload;
  _ ← fail_if (negb (is_object document)) "command JSON must be an object";
  _ ← fail_if (negb (forallb (fun m => bool_decide (m.1 ∈ allowed_keys)) (members document)))
        "command JSON contains an unexpected field";
  _ ← fail_if (negb (forallb (fun k => contains k document) required_keys))
        "command JSON is missing a required field";
  let text k := text_of (field k document) in
  let bounded k := is_bounded_string (field k document) 128 in
  _ ← fail_if (negb (bounded "command_id" && bounded "agent_id" && bounded "host_id"
                     && bounded "correlation_id")) "command identity fields are invalid";
  _ ← fail_if (negb (is_valid_identifier (text "command_id") && is_valid_identifier (text "agent_id")
                     && is_valid_identifier (text "host_id")
                     && is_valid_identifier (text "correlation_id")))
        "command identity fields fail identifier validation";
  _ ← fail_if (negb (is_text "1" (field "schema_version" document)
                     || is_text "2" (field "schema_version" document)))
        "unsupported command schema version";
  _ ← fail_if (negb (is_string (field "expires_at" document) && is_string (field "created_at" document)))
        "command timestamps must be strings";
  let time_error := "command timestamps are invalid, non-UTC, or out of order" in
  expires ← match parse_utc_timestamp (text "created_at"), parse_utc_timestamp (text "expires_at") with
            | Some c, Some e => if time_ge c e then inl time_error else inr e
            | _, _ => inl time_error
            end;
  _ ← fail_if (negb (is_string (field "action" document))) "command action must be a string";
  a ← match action_of (text "action") with
      | Some a => inr a
      | None => inl "command action is not supported by this agent build"
      end;
  let target := if contains "target" document && negb (is_null (field "target" document))
                then field "target" document else JObj [] in
  _ ← fail_if (negb (is_object target)) "command target must be an object";
  _ ← fail_if (String.eqb (text "schema_version") "2" && negb (is_process_action a))
        "schema-2 currently defines boot-bound process actions only";
  process ← (if is_process_action a
             then decode_process_target (text "schema_version") (text "host_id") target
             else inr {| pt_host_id := text "host_id"; pt_pid := 0; pt_start_time_ticks := 0;
                         pt_boot_id := None |});
  '(path, capture, cap) ← (if is_process_action a then inr ("", "", 0)
                           else decode_file_target a target);
  inr {| command_id := text "command_id"; agent_id := text "agent_id"; host_id := text "host_id";
         schema_version := text "schema_version"; correlation_id := text "correlation_id";
         action := a; expires_at_epoch_seconds := expires.1; process_target := process;
         file_target_path := path; file_capture_id := capture; file_maximum_bytes := cap;
         canonical_wire_json := dump document |}.

Fixpoint parse_entries (l : list json) : string + list Command :=
  match l with
  | [] => inr []
  | entry :: l =>
      c ← parse_command_json (dump entry);
      cs ← parse_entries l;
      inr (c :: cs)
  end.
Definition parse_command_poll_response (payload : string) (maximum_commands : Z)
  : string + list Command :=
  _ ← fail_if ((maximum_commands =? 0) || str_empty payload || (1024 * 1024 <? slen payload))
        "command poll response is invalid";
  document ← parse_unambiguous_json payload;
  let shape := "command poll response must be {commands: [...]}" in
  _ ← fail_if (negb (is_object document) || negb (size_ document =? 1)
               || negb (contains "commands" document)) shape;
  match field "commands" document with
  | JArr l =>
      _ ← fail_if (maximum_commands <? zlen l) "command poll response exceeds bounds";
      parse_entries l
  | _ => inl shape
  end.

(** ** Results *)
Definition outcome_name (c : ReceiptCode) : string :=
  match c with
  | indeterminate => "indeterminate"
  | succeeded => "succeeded"
  | execution_failed => "failed"
  | _ => "rejected"
  end.
Definition stages : list string :=
  ["preflight"; "boot"; "open"; "identity"; "image"; "critical"; "protection"; "liveness";
   "initiate"; "completion"].
(** evidence that does not contradict the outcome *)
Definition evidence_consistent (c : ReceiptCode) (e : ProcessExecutionEvidence) : bool :=
  let valid_outcome :=
    if completion_observed e then action_initiated e && bool_decide (c = succeeded)
    else if action_initiated e then bool_decide (c = indeterminate)
    else negb (bool_decide (c = succeeded)) && negb (bool_decide (c = indeterminate)) in
  bool_decide (stage e ∈ stages) && valid_outcome
  && Bool.eqb (action_initiated e) (String.eqb (stage e) "completion")
  && negb (bool_decide (native_error e <> None)
           && negb (bool_decide (c = execution_failed)) && negb (bool_decide (c = indeterminate))).
Definition evidence_json (e : ProcessExecutionEvidence) : json :=
  object [("representation", JStr "windows_process_termination_v1"); ("stage", JStr (stage e));
          ("action_initiated", JBool (action_initiated e));
          ("completion_observed", JBool (completion_observed e));
          ("native_error", opt_json JUint (native_error e))].
Definition detail_text (r : CommandReceipt) : string :=
  let detail := outcome_name (code_ r) +:+ ":" +:+ to_string (receipt_number (code_ r))
                +:+ (if str_empty (summary r) then "" else " " +:+ summary r) in
  if 512 <? slen detail then str_take 512 detail else detail.
(** the document that is sent, or the error message *)
Definition result_document (r : CommandReceipt) (maximum_bytes : Z) : string + json :=
  _ ← fail_if (negb (is_valid_identifier (r_command_id r))
               || negb (is_valid_identifier (r_correlation_id r)) || (maximum_bytes =? 0))
        "receipt is invalid";
  digest ← sha256_hex cng_sha256 (r_command_id r);
  let base := [("schema_version", JStr "2"); ("result_id", JStr ("result_" +:+ digest));
               ("command_id", JStr (r_command_id r)); ("outcome", JStr (outcome_name (code_ r)));
               ("detail", JStr (detail_text r)); ("correlation_id", JStr (r_correlation_id r))] in
  match execution r with
  | None => inr (object base)
  | Some e =>
      if evidence_consistent (code_ r) e
      then inr (set_member "execution" (evidence_json e) (object base))
      else inl "execution evidence contradicts process outcome"
  end.
(** the exception of [dump()] passes through *)
Definition serialize_command_result (r : CommandReceipt) (maximum_bytes : Z)
  : result (string + string) :=
  match result_document r maximum_bytes with
  | inl error => Ok (inl error)
  | inr document =>
      serialized ← dump_strict document;
      Ok (if maximum_bytes <? slen serialized then inl "command result exceeds limit"
          else inr serialized)
  end.
End Decoder.

(** ** Protected processes *)
Definition to_lower (c : ascii) : ascii :=
  if (65 <=? code c) && (code c <=? 90) then ascii_of_N (Z.to_N (code c + 32)) else c.
Fixpoint str_map (f : ascii -> ascii) (s : string) : string :=
  match s with "" => "" | String c s => String (f c) (str_map f s) end.
Definition is_separator (c : ascii) : bool := (code c =? 92) || (code c =? 47).
(** what follows the last separator *)
Fixpoint base_name_from (s acc : string) : string :=
  match s with
  | "" => acc
  | String c s => if is_separator c then base_name_from s s else base_name_from s acc
  end.
Definition base_name (s : string) : string := base_name_from s s.
Definition protected_images : list string :=
  ["csrss.exe"; "wininit.exe"; "winlogon.exe"; "services.exe"; "lsass.exe"; "smss.exe"].
Definition is_protected_process (pid : Z) (image_name : string) : bool :=
  if (pid =? 0) || (pid =? 4) then true
  else bool_decide (base_name (str_map to_lower image_name) ∈ protected_images).

(** ** The admission gate *)
Record CommandGate := {
  agent_id_ : string; gate_host_id : string; seen_ : gset string;
  durable_ledger_ : option ReplayLedger
}.
Definition receipt (c : Command) (code : ReceiptCode) (why : string) : CommandReceipt :=
  {| r_command_id := command_id c; r_correlation_id := correlation_id c; code_ := code;
     summary := why; execution := None |}.
Definition set_gate (s : gset string) (l : option ReplayLedger) (g : CommandGate) : CommandGate :=
  {| agent_id_ := agent_id_ g; gate_host_id := gate_host_id g; seen_ := s; durable_ledger_ := l |}.

(** [now] is the clock reading, [io] the outcome of a ledger write *)
Definition validate_and_mark (now : Z) (io : io_outcome) (c : Command) (g : CommandGate)
  : CommandReceipt * CommandGate :=
  if negb (is_valid_identifier (command_id c)) || negb (is_valid_identifier (correlation_id c))
     || (negb (String.eqb (schema_version c) "1") && negb (String.eqb (schema_version c) "2"))
     || negb (String.eqb (agent_id c) (agent_id_ g)) || negb (String.eqb (host_id c) (gate_host_id g))
     || negb (String.eqb (pt_host_id (process_target c)) (gate_host_id g))
  then (receipt c invalid_command "command identity, target, or schema is invalid", g)
  else if expires_at_epoch_seconds c <=? now
  then (receipt c expired "command has expired", g)
  else if bool_decide (command_id c ∈ seen_ g)
  then (receipt c replay_detected "command was already accepted", g)
  else if bool_decide (action c = kill_process) && is_protected_process (pt_pid (process_target c)) ""
  then (receipt c target_protected "target is a protected process", g)
  else
    let accept l := (receipt c succeeded "command accepted for a closed action handler",
                     set_gate ({[command_id c]} ∪ seen_ g) l g) in
    match durable_ledger_ g with
    | None => accept None
    | Some l =>
        match mark_if_new io (command_id c) l with
        | (inl _, l) => (receipt c execution_failed "cannot persist command replay state",
                         set_gate (seen_ g) (Some l) g)
        | (inr false, l) => (receipt c replay_detected "command was accepted before restart",
                             set_gate (seen_ g) (Some l) g)
        | (inr true, l) => accept (Some l)
        end
    end.

(** a new process: an empty memory of accepted ids, the ledger read from its file;
    [None]: the ledger cannot be loaded *)
Definition restart (g : CommandGate) : option CommandGate :=
  match durable_ledger_ g with
  | None => Some (set_gate ∅ None g)
  | Some l =>
      match load true {| entries := ∅; maximum_entries := maximum_entries l; file := file l |} with
      | inl _ => None
      | inr l => Some (set_gate ∅ (Some l) g)
      end
  end.
Inductive gate_event := Received (now : Z) (io : io_outcome) (c : Command) | Restarted.
(** the commands a sequence of events has accepted, with the final gate *)
Fixpoint gate_run (events : list gate_event) (g : CommandGate)
  : option (list (Z * Command) * CommandGate) :=
  match events with
  | [] => Some ([], g)
  | Received now io c :: events =>
      let '(r, g) := validate_and_mark now io c g in
      '(accepted, g) ← gate_run events g;
      Some ((if bool_decide (code_ r = succeeded) then [(now, c)] else []) ++ accepted, g)
  | Restarted :: events => g ← restart g; gate_run events g
  end.
