(* ===== verification/CommandFacts.v ===== *)
(** * What the command decoder and the admission gate guarantee

    The calendar arithmetic of the timestamp parser, the strictness of the
    envelope decoder, the truthfulness of a serialized result, and the
    at-most-once acceptance of the gate within one process and across
    restarts. *)

From S2P Require Import Prelude Telemetry Identity Ledger Json Command.

(** ** The calendar *)
Fixpoint days_before_year (n : nat) : Z :=
  match n with
  | O => 0
  | S n => days_before_year n + 365 + (if leap_year (Z.of_nat n) then 1 else 0)
  end.
Fixpoint days_before_month (y : Z) (n : nat) : Z :=
  match n with O => 0 | S n => days_before_month y n + max_day y (Z.of_nat (S n)) end.
(** days from 1970-01-01, counted year by year and month by month *)
Definition civil_days (y m d : Z) : Z :=
  days_before_year (Z.to_nat y) - days_before_year 1970
  + days_before_month y (Z.to_nat (m - 1)) + d - 1.

Definition valid_date (y m d : Z) : Prop := 0 <= y <= 9999 /\ 1 <= m <= 12 /\ 1 <= d <= max_day y m.

Lemma days_before_year_closed n :
  days_before_year n = 365 * Z.of_nat n + (Z.of_nat n + 3) / 4 - (Z.of_nat n + 99) / 100
    + (Z.of_nat n + 399) / 400.
Proof.
  induction n as [|n IH]; [reflexivity|]. cbn [days_before_year]. rewrite IH. unfold leap_year.
  rewrite Nat2Z.inj_succ. generalize (Z.of_nat n). clear. intros y.
  destruct (Z.eqb_spec (y mod 4) 0), (Z.eqb_spec (y mod 100) 0), (Z.eqb_spec (y mod 400) 0); simpl;
    Z.to_euclidean_division_equations; lia.
Qed.
(** the shifted year count of the algorithm, with March as the first month *)
Lemma days_since_epoch_closed y m d :
  0 <= y -> 1 <= m <= 12 ->
  days_since_epoch y m d =
    (let s := y - (if m <=? 2 then 1 else 0) in 365 * s + s / 4 - s / 100 + s / 400)
    + (153 * (m + (if 2 <? m then -3 else 9)) + 2) / 5 + d - 1 - 719468.
Proof.
  intros Hy Hm. unfold days_since_epoch. cbv zeta.
  rewrite (Z.quot_div_nonneg (153 * _ + 2)) by (destruct (2 <? m) eqn:?; lia).
  set (s := y - _). assert (-1 <= s) by (subst s; destruct (m <=? 2); lia). clearbody s.
  assert (Z.quot (if 0 <=? s then s else s - 399) 400 = s / 400) as ->.
  { destruct (Z.leb_spec 0 s); Z.to_euclidean_division_equations; lia. }
  rewrite !(Z.quot_div_nonneg (s - _)) by (Z.to_euclidean_division_equations; lia).
  generalize ((153 * (m + (if 2 <? m then -3 else 9)) + 2) / 5). intros w. clear Hm Hy y m.
  Z.to_euclidean_division_equations; lia.
Qed.
(** the leap day falls between the two year counts *)
Lemma leap_count y :
  y / 4 - y / 100 + y / 400 =
  (y + 3) / 4 - (y + 99) / 100 + (y + 399) / 400 - 1 + (if leap_year y then 1 else 0).
Proof.
  unfold leap_year.
  destruct (Z.eqb_spec (y mod 4) 0), (Z.eqb_spec (y mod 100) 0), (Z.eqb_spec (y mod 400) 0); simpl;
    Z.to_euclidean_division_equations; lia.
Qed.
Lemma shift_count y :
  (y - 1) / 4 - (y - 1) / 100 + (y - 1) / 400 = (y + 3) / 4 - (y + 99) / 100 + (y + 399) / 400 - 1.
Proof. Z.to_euclidean_division_equations; lia. Qed.
Lemma months_1_12 m (P : Z -> Prop) :
  1 <= m <= 12 -> Forall P [1; 2; 3; 4; 5; 6; 7; 8; 9; 10; 11; 12] -> P m.
Proof.
  intros Hm HP. rewrite Forall_forall in HP. apply HP.
  rewrite !elem_of_cons. lia.
Qed.
Lemma march_months y m :
  1 <= m <= 12 ->
  days_before_month y (Z.to_nat (m - 1)) =
  (153 * (m + (if 2 <? m then -3 else 9)) + 2) / 5
  + (if m <=? 2 then -306 else 59 + (if leap_year y then 1 else 0)).
Proof.
  intros Hm. pattern m. apply months_1_12; [done|]. clear m Hm.
  repeat apply List.Forall_cons; try apply List.Forall_nil;
    cbv -[leap_year]; destruct (leap_year y); reflexivity.
Qed.
Lemma days_since_epoch_civil y m d :
  0 <= y -> 1 <= m <= 12 -> days_since_epoch y m d = civil_days y m d.
Proof.
  intros Hy Hm. rewrite days_since_epoch_closed by done. unfold civil_days.
  rewrite march_months by done.
  assert (days_before_year 1970 = 719528) as -> by (rewrite days_before_year_closed; reflexivity).
  rewrite days_before_year_closed, Z2Nat.id by done. cbv zeta.
  pose proof (leap_count y) as L. pose proof (shift_count y) as S.
  destruct (Z.leb_spec m 2); [lia|]. rewrite Z.sub_0_r. lia.
Qed.

(** ** The text of a timestamp *)
Definition two (n : Z) (rest : string) : string :=
  String (digit_char (n / 10)) (String (digit_char (n mod 10)) rest).
Definition utc_text (y m d h mi sec : Z) (tail : string) : string :=
  two (y / 100) (two (y mod 100) (String "-" (two m (String "-" (two d (String "T"
    (two h (String ":" (two mi (String ":" (two sec tail))))))))))).
(** an absent fraction, or a dot and one to nine digits *)
Definition fraction_denotes (fraction : string) (ns : Z) : Prop :=
  (fraction = "" /\ ns = 0) \/
  (exists ds v, fraction = String "." ds /\ 1 <= slen ds <= 9 /\ dec_value ds 0 = Some v /\
     ns = v * 10 ^ (9 - slen ds)).
Definition utc_suffix (s : string) : Prop := s = "Z" \/ s = "+00:00".

Lemma digit_char_val c : is_digit c = true -> c = digit_char (digit_val c).
Proof.
  unfold is_digit, digit_char, digit_val. intros H.
  replace (48 + (code c - 48)) with (code c) by lia. unfold code.
  rewrite N2Z.id. symmetry. apply ascii_N_embedding.
Qed.
Lemma digits_two v off a b n :
  str_get v off = Some a -> str_get v (S off) = Some b -> digits v off 2 = Some n ->
  0 <= n <= 99 /\ a = digit_char (n / 10) /\ b = digit_char (n mod 10).
Proof.
  unfold digits. cbn [digits_at]. intros -> ->.
  destruct (is_digit a) eqn:Ha; [|done]. destruct (is_digit b) eqn:Hb; [|done]. intros [= <-].
  pose proof (digit_char_val _ Ha) as Ea. pose proof (digit_char_val _ Hb) as Eb.
  unfold is_digit, digit_val in *. split; [lia|].
  split; [rewrite Ea at 1|rewrite Eb at 1]; f_equal; Z.to_euclidean_division_equations; lia.
Qed.
Lemma two_digits v off n :
  0 <= n <= 99 -> str_get v off = Some (digit_char (n / 10)) ->
  str_get v (S off) = Some (digit_char (n mod 10)) -> digits v off 2 = Some n.
Proof.
  intros Hn Ha Hb. unfold digits. cbn [digits_at].
  assert (0 <= n / 10 < 10 /\ 0 <= n mod 10 < 10) as [? ?] by (Z.to_euclidean_division_equations; lia).
  rewrite Ha, is_digit_char, Hb, is_digit_char, !digit_val_char by done.
  f_equal. Z.to_euclidean_division_equations; lia.
Qed.
Lemma digits_four v off y :
  digits v off 4 = Some y <->
  exists a b, digits v off 2 = Some a /\ digits v (S (S off)) 2 = Some b /\ y = a * 100 + b.
Proof.
  unfold digits. cbn [digits_at].
  destruct (str_get v off) as [c1|]; [|naive_solver].
  destruct (is_digit c1); [|naive_solver].
  destruct (str_get v (S off)) as [c2|]; [|naive_solver].
  destruct (is_digit c2); [|naive_solver].
  destruct (str_get v (S (S off))) as [c3|]; [|naive_solver].
  destruct (is_digit c3); [|naive_solver].
  destruct (str_get v (S (S (S off)))) as [c4|]; [|naive_solver].
  destruct (is_digit c4); [|naive_solver].
  split; [intros [= <-]; do 2 eexists; split; [done|split; [done|lia]]|].
  intros (a & b & [= <-] & [= <-] & ->). f_equal. lia.
Qed.
Lemma char_at_true v i c : char_at v i c = true <-> str_get v i = Some c.
Proof.
  unfold char_at. destruct (str_get v i) as [d|]; [|done].
  rewrite Ascii.eqb_eq. split; congruence.
Qed.
Lemma dec_value_bound ds acc v :
  0 <= acc -> dec_value ds acc = Some v -> acc * 10 ^ slen ds <= v < (acc + 1) * 10 ^ slen ds.
Proof.
  revert acc; induction ds as [|c ds IH]; intros acc Hacc; cbn [dec_value].
  - intros [= <-]. change (slen "") with 0. lia.
  - destruct (is_digit c) eqn:Hc; [|done]. unfold is_digit, digit_val in *. intros H.
    apply IH in H; [|lia]. rewrite slen_cons, Z.pow_add_r by (pose proof (slen_nonneg ds); lia).
    pose proof (Z.pow_pos_nonneg 10 (slen ds)). nia.
Qed.
Lemma scale_pow n v : 0 <= v -> v * 10 ^ Z.of_nat n < 1000000000 -> scale n v = v * 10 ^ Z.of_nat n.
Proof.
  revert v; induction n as [|n IH]; intros v Hv Hb; [simpl; lia|]. cbn [scale].
  rewrite Nat2Z.inj_succ, Z.pow_succ_r in * by lia.
  assert (1 <= 10 ^ Z.of_nat n) by (pose proof (Z.pow_pos_nonneg 10 (Z.of_nat n)); lia).
  rewrite u32_small by (unfold u32_max; nia). rewrite IH by nia. lia.
Qed.
Lemma fraction_spec fraction ns : fraction_nanoseconds fraction = Some ns <-> fraction_denotes fraction ns.
Proof.
  destruct fraction as [|c ds].
  { simpl. split; [intros [= <-]; by left|]. intros [[_ ->]|(ds & v & ? & _)]; done. }
  unfold fraction_nanoseconds, fraction_denotes. rewrite slen_cons.
  assert (Hval : forall v, dec_value ds 0 = Some v -> 1 <= slen ds <= 9 ->
    scale (9 - String.length ds) v = v * 10 ^ (9 - slen ds)).
  { intros v Hv Hl. pose proof (dec_value_bound ds 0 v ltac:(lia) Hv) as Hb.
    assert (Z.of_nat (9 - String.length ds) = 9 - slen ds) as E by (unfold slen in *; lia).
    rewrite scale_pow; rewrite ?E; [done|lia|].
    replace 1000000000 with (10 ^ slen ds * 10 ^ (9 - slen ds))
      by (rewrite <- Z.pow_add_r by lia; replace (slen ds + (9 - slen ds)) with 9 by lia; done).
    pose proof (Z.pow_pos_nonneg 10 (9 - slen ds)). nia. }
  split.
  - destruct (_ || _) eqn:E; [done|]. apply orb_false_iff in E as [E1 E2].
    apply orb_false_iff in E1 as [E0 E1]. apply negb_false_iff, Ascii.eqb_eq in E0 as ->.
    destruct (dec_value ds 0) as [v|] eqn:Ev; [|done]. intros [= <-]. right.
    exists ds, v. split; [done|]. split; [lia|]. split; [done|]. apply Hval; [done|lia].
  - intros [[? _]|(ds' & v & [= -> ->] & Hl & Hv & ->)]; [done|]. rewrite Ascii.eqb_refl, Hv. simpl.
    destruct (_ || _) eqn:E; [lia|]. by rewrite Hval.
Qed.

(** prefixes and suffixes of texts *)
Lemma str_take_drop n s : str_take n s +:+ str_drop n s = s.
Proof. revert s; induction n as [|n IH]; intros [|c s]; try done. simpl. f_equal. apply IH. Qed.
Lemma str_get_app s t i : str_get (s +:+ t) (String.length s + i) = str_get t i.
Proof. induction s as [|c s IH]; [done|]. apply IH. Qed.
Lemma back_app s t : t <> "" -> back (s +:+ t) = back t.
Proof.
  intros Ht. unfold back. rewrite str_length_app. destruct t as [|c t]; [done|]. simpl String.length.
  replace (String.length s + S (String.length t) - 1)%nat
    with (String.length s + (S (String.length t) - 1))%nat by lia.
  apply str_get_app.
Qed.
Lemma back_Some s c : back s = Some c -> exists r, s = r +:+ String c "".
Proof.
  unfold back. induction s as [|d s IH]; [done|]. destruct s as [|e s].
  - simpl. intros [= ->]. by exists "".
  - simpl in *. rewrite Nat.sub_0_r in IH. intros H. apply IH in H as (r & ->). by exists (String d r).
Qed.

(** the fraction a timestamp with tail [rest] is read with *)
Definition read_tail (p rest : string) : option string :=
  let v := p +:+ rest in
  let n := String.length v in
  let z := match back v with Some c => Ascii.eqb c "Z" | None => false end in
  if negb (z || String.eqb (str_drop (n - 6) v) "+00:00") then None
  else Some (str_sub v 19 (n - (if z then 1 else 6) - 19)).
Lemma read_tail_app p fraction suffix :
  String.length p = 19%nat -> utc_suffix suffix -> read_tail p (fraction +:+ suffix) = Some fraction.
Proof.
  intros Hp Hs. unfold read_tail. rewrite back_app by (destruct fraction, Hs as [-> | ->]; done).
  rewrite back_app by (destruct Hs as [-> | ->]; done). rewrite !str_length_app, Hp.
  assert (Hf : forall k, String.length suffix = k ->
    str_sub (p +:+ fraction +:+ suffix) 19 (19 + (String.length fraction + String.length suffix) - k - 19)
      = fraction).
  { intros k <-. unfold str_sub.
    pose proof (str_drop_app_add p (fraction +:+ suffix) 0) as E. rewrite Nat.add_0_r, Hp in E.
    rewrite E. change (str_drop 0 ?s) with s.
    replace (19 + _ - _ - 19)%nat with (String.length fraction) by lia. apply str_take_app. }
  destruct Hs as [-> | ->]; simpl String.length.
  - simpl back. cbn [Ascii.eqb orb negb]. f_equal. by apply Hf.
  - replace (19 + (String.length fraction + 6) - 6)%nat
      with (String.length p + (String.length fraction + 0))%nat by lia.
    rewrite str_drop_app_add, str_drop_app_add. cbn -[str_sub Nat.sub Nat.add]. f_equal.
    apply (Hf 6%nat eq_refl).
Qed.
Lemma read_tail_inv p rest fraction :
  String.length p = 19%nat -> rest <> "" -> read_tail p rest = Some fraction ->
  (exists suffix, rest = fraction +:+ suffix /\ utc_suffix suffix) \/
  ((String.length rest < 6)%nat /\ str_drop (String.length (p +:+ rest) - 6) (p +:+ rest) = "+00:00").
Proof.
  intros Hp Hr H. assert (Hcase : forall suffix r, utc_suffix suffix -> rest = r +:+ suffix ->
    exists suffix, rest = fraction +:+ suffix /\ utc_suffix suffix).
  { intros suffix r Hs E. exists suffix. split; [|done]. rewrite E in H.
    rewrite read_tail_app in H by done. by injection H as <-. }
  revert H. unfold read_tail. rewrite back_app by done.
  destruct (back rest) as [c|] eqn:Eb; [destruct (Ascii.eqb c "Z") eqn:Ec|].
  1: { intros _. left. apply Ascii.eqb_eq in Ec as ->. apply back_Some in Eb as (r & E).
       apply (Hcase "Z" r); [by left|done]. }
  all: cbn [orb]; destruct (String.eqb _ "+00:00") eqn:Es; [|done]; intros _;
    apply String.eqb_eq in Es;
    (destruct (Nat.lt_ge_cases (String.length rest) 6); [by right|left]);
    rewrite str_length_app in Es;
    replace (String.length p + String.length rest - 6)%nat
      with (String.length p + (String.length rest - 6))%nat in Es by lia;
    rewrite str_drop_app_add in Es;
    apply (Hcase "+00:00" (str_take (String.length rest - 6) rest)); [by right|];
    rewrite <- Es; symmetry; apply str_take_drop.
Qed.

(** the parser, given the nineteen characters of date and time and the tail *)
Lemma parse_split p rest :
  String.length p = 19%nat -> rest <> "" ->
  parse_utc_timestamp (p +:+ rest) =
    (fraction ← read_tail p rest; parse_utc_timestamp_at (p +:+ rest) fraction).
Proof.
  intros Hp Hr. unfold parse_utc_timestamp, read_tail, parse_utc_timestamp_at.
  assert ((slen (p +:+ rest) <? 20) = false) as ->.
  { apply Z.ltb_ge. rewrite slen_app. unfold slen. rewrite Hp. destruct rest; [done|]. simpl. lia. }
  cbn [orb]. by destruct (negb _).
Qed.
Definition valid_time (h mi sec : Z) : Prop := 0 <= h <= 23 /\ 0 <= mi <= 59 /\ 0 <= sec <= 59.
Definition epoch_seconds (y m d h mi sec : Z) : Z :=
  civil_days y m d * 86400 + h * 3600 + mi * 60 + sec.

Lemma max_day_31 y m : max_day y m <= 31.
Proof.
  unfold max_day. destruct (_ && _); [lia|]. generalize (Z.to_nat (m - 1)). intros i.
  do 12 (destruct i as [|i]; [simpl; lia|]). destruct i; simpl; lia.
Qed.
Lemma parse_at_text y m d h mi sec tail fraction ns :
  valid_date y m d -> valid_time h mi sec -> fraction_nanoseconds fraction = Some ns ->
  parse_utc_timestamp_at (utc_text y m d h mi sec tail) fraction
    = Some (epoch_seconds y m d h mi sec, ns).
Proof.
  intros (Hy & Hm & Hd) (Hh & Hmi & Hs) Hf. unfold parse_utc_timestamp_at.
  pose proof (max_day_31 y m). set (v := utc_text y m d h mi sec tail).
  assert (digits v 0 4 = Some y) as ->.
  { apply digits_four. exists (y / 100), (y mod 100).
    split; [|split]; [apply two_digits; [|done..]|apply two_digits; [|done..]|];
      Z.to_euclidean_division_equations; lia. }
  rewrite (two_digits v 5 m), (two_digits v 8 d), (two_digits v 11 h), (two_digits v 14 mi),
    (two_digits v 17 sec) by (lia || done).
  assert (char_at v 4 "-" && char_at v 7 "-" && char_at v 10 "T" && char_at v 13 ":"
    && char_at v 16 ":" = true) as -> by done.
  cbn [mbind option_bind negb].
  destruct (_ || (59 <? sec)) eqn:E; [lia|]. rewrite Hf. cbn [mbind option_bind].
  destruct (Z.ltb_spec (max_day y m) d); [lia|]. by rewrite days_since_epoch_civil by lia.
Qed.
Lemma parse_at_inv p rest fraction s ns :
  String.length p = 19%nat -> parse_utc_timestamp_at (p +:+ rest) fraction = Some (s, ns) ->
  exists y m d h mi sec, p +:+ rest = utc_text y m d h mi sec rest /\ valid_date y m d /\
    valid_time h mi sec /\ fraction_nanoseconds fraction = Some ns /\
    s = epoch_seconds y m d h mi sec.
Proof.
  intros Hp H. do 19 (destruct p as [|? p]; [done|]). destruct p; [|done]. clear Hp.
  unfold parse_utc_timestamp_at in H. set (v := _ +:+ rest) in *.
  destruct (negb _) eqn:Ec; [done|]. apply negb_false_iff in Ec.
  rewrite !andb_true_iff, !char_at_true in Ec. destruct Ec as [[[[E4 E7] E10] E13] E16].
  apply bind_Some in H as (y & Hy & H). apply bind_Some in H as (m & Hm & H).
  apply bind_Some in H as (d & Hd & H). apply bind_Some in H as (h & Hh & H).
  apply bind_Some in H as (mi & Hmi & H). apply bind_Some in H as (sec & Hs & H).
  destruct (_ || (59 <? sec)) eqn:E; [done|]. apply bind_Some in H as (n & Hn & H).
  destruct (Z.ltb_spec (max_day y m) d); [done|]. injection H as <- <-.
  apply digits_four in Hy as (y1 & y2 & Hy1 & Hy2 & ->).
  destruct (digits_two v 0 _ _ _ eq_refl eq_refl Hy1) as (Ry1 & -> & ->).
  destruct (digits_two v 2 _ _ _ eq_refl eq_refl Hy2) as (Ry2 & -> & ->).
  destruct (digits_two v 5 _ _ _ eq_refl eq_refl Hm) as (Rm & -> & ->).
  destruct (digits_two v 8 _ _ _ eq_refl eq_refl Hd) as (Rd & -> & ->).
  destruct (digits_two v 11 _ _ _ eq_refl eq_refl Hh) as (Rh & -> & ->).
  destruct (digits_two v 14 _ _ _ eq_refl eq_refl Hmi) as (Rmi & -> & ->).
  destruct (digits_two v 17 _ _ _ eq_refl eq_refl Hs) as (Rs & -> & ->).
  injection E4 as ->. injection E7 as ->. injection E10 as ->. injection E13 as ->. injection E16 as ->.
  exists (y1 * 100 + y2), m, d, h, mi, sec. split; [|split; [|split; [|split]]].
  - unfold utc_text. replace ((y1 * 100 + y2) / 100) with y1 by (Z.to_euclidean_division_equations; lia).
    by replace ((y1 * 100 + y2) mod 100) with y2 by (Z.to_euclidean_division_equations; lia).
  - unfold valid_date. lia.
  - unfold valid_time. lia.
  - done.
  - unfold epoch_seconds. by rewrite days_since_epoch_civil by lia.
Qed.
(** a [+00:00] that reaches into the seconds field leaves a sign among the digits *)
Lemma short_tail_refused p rest fraction :
  String.length p = 19%nat -> rest <> "" -> (String.length rest < 6)%nat ->
  str_drop (String.length (p +:+ rest) - 6) (p +:+ rest) = "+00:00" ->
  parse_utc_timestamp_at (p +:+ rest) fraction = None.
Proof.
  intros Hp Hr Hl Hd. destruct (parse_utc_timestamp_at _ _) as [[s ns]|] eqn:E; [|done]. exfalso.
  apply parse_at_inv in E as (y & m & d & h & mi & sec & Ev & _ & Ht & _); [|done].
  rewrite Ev in Hd. unfold valid_time in Ht.
  assert (Hdig : forall k, 0 <= k < 10 -> digit_char k <> "+"%char).
  { intros k Hk Ek. apply (f_equal code) in Ek. rewrite code_digit_char in Ek by done.
    change (code "+") with 43 in Ek. lia. }
  assert (0 <= mi / 10 < 10 /\ 0 <= mi mod 10 < 10 /\ 0 <= sec / 10 < 10 /\ 0 <= sec mod 10 < 10)
    as (? & ? & ? & ?) by (Z.to_euclidean_division_equations; lia).
  do 6 (destruct rest as [|? rest]; [first [done | cbn in Hd; discriminate Hd
    | cbn in Hd; injection Hd; intros; by eapply Hdig; [|eassumption]]|]).
  simpl in Hl. lia.
Qed.

Lemma parse_text y m d h mi sec fraction suffix ns :
  utc_suffix suffix -> valid_date y m d -> valid_time h mi sec -> fraction_denotes fraction ns ->
  parse_utc_timestamp (utc_text y m d h mi sec (fraction +:+ suffix)) = Some (epoch_seconds y m d h mi sec, ns).
Proof.
  intros Hs Hd Ht Hf.
  change (utc_text y m d h mi sec (fraction +:+ suffix))
    with (utc_text y m d h mi sec "" +:+ (fraction +:+ suffix)).
  rewrite parse_split, read_tail_app; [|done|done|done|by destruct fraction, Hs as [-> | ->]].
  simpl. by apply parse_at_text; [..|apply fraction_spec].
Qed.

(** The timestamp parser is exact.  It accepts precisely the texts
    [YYYY-MM-DDTHH:MM:SS], an optional fraction of one to nine digits, and [Z] or
    [+00:00], for a date that exists in the Gregorian calendar and a time of day;
    the value is the number of seconds since 1970-01-01 counted year by year and
    month by month, and the fraction in nanoseconds without loss. *)
Theorem timestamp_exact (value : string) (s ns : Z) :
  parse_utc_timestamp value = Some (s, ns) <->
  exists y m d h mi sec fraction suffix,
    value = utc_text y m d h mi sec (fraction +:+ suffix) /\ utc_suffix suffix /\
    valid_date y m d /\ valid_time h mi sec /\ fraction_denotes fraction ns /\
    s = epoch_seconds y m d h mi sec.
Proof.
  split.
  - intros H. assert (Hl : 20 <= slen value).
    { unfold parse_utc_timestamp in H. destruct (Z.ltb_spec (slen value) 20); [done|lia]. }
    assert (exists p rest, value = p +:+ rest /\ String.length p = 19%nat /\ rest <> "")
      as (p & rest & -> & Hp & Hr).
    { exists (str_take 19 value), (str_drop 19 value). rewrite str_take_drop. split; [done|].
      unfold slen in Hl. do 20 (destruct value as [|? value]; [simpl in Hl; lia|]). done. }
    rewrite parse_split in H by done. apply bind_Some in H as (fraction & Ht & H).
    apply read_tail_inv in Ht as [(suffix & -> & Hs)|[Hlt Hd]]; [|..|done|done].
    + apply parse_at_inv in H as (y & m & d & h & mi & sec & Ev & Hd & Htm & Hf & ->); [|done].
      exists y, m, d, h, mi, sec, fraction, suffix. apply fraction_spec in Hf. done.
    + by rewrite short_tail_refused in H.
  - intros (y & m & d & h & mi & sec & fraction & suffix & -> & Hs & Hd & Ht & Hf & ->).
    by apply parse_text.
Qed.

(** ** Facts about the decoder *)
Section DecoderFacts.
Context (cng_sha256 : string -> string + list Z) (json_events : string -> bool + json)
  (dump : json -> string).
#[local] Instance sum_bind' : MBind (sum string) := sum_bind.

Lemma sum_bind_inr {A B} (r : string + A) (f : A -> string + B) b :
  @mbind (sum string) sum_bind A B f r = inr b -> exists a, r = inr a /\ f a = inr b.
Proof. destruct r; simpl; [done|eauto]. Qed.
Lemma fail_if_inr b e u : fail_if b e = inr u -> b = false.
Proof. by destruct b. Qed.
Ltac inv_sum H :=
  repeat match type of H with
  | @mbind (sum string) _ _ _ _ _ = inr _ =>
      let a := fresh "a" in let Ha := fresh "Ha" in
      apply sum_bind_inr in H as (a & Ha & H); cbv beta in H;
      try match type of Ha with fail_if _ _ = _ => apply fail_if_inr in Ha; clear a end
  end.

(** what the target of an accepted command satisfies *)
Definition target_ok (c : Command) : Prop :=
  let t := process_target c in
  pt_host_id t = host_id c /\
  (if is_process_action (action c) then
     0 < pt_pid t <= u32_max /\ 0 < pt_start_time_ticks t <= u64_max /\
     file_target_path c = "" /\ file_maximum_bytes c = 0 /\
     (schema_version c = "2" -> exists b, pt_boot_id t = Some b /\ is_boot_digest b = true)
   else
     pt_pid t = 0 /\ pt_start_time_ticks t = 0 /\ schema_version c = "1" /\
     (is_file_action (action c) = true -> 1 <= slen (file_target_path c) <= 4096) /\
     (action c = acquire_file -> 1 <= slen (file_target_path c) <= 4096 /\
        is_capture_id (file_capture_id c) = true /\
        0 < file_maximum_bytes c <= maximum_acquisition_bytes)).

Lemma positive_integer_range j : is_positive_integer j = true -> 0 < get_i64 j <= i64_max /\ 0 < get_u64 j <= u64_max.
Proof.
  unfold is_positive_integer, get_i64, get_u64. destruct j; simpl; try done.
  all: intros H; unfold i64 in *; pose proof (u64_range z) as Hr;
    destruct (Z.leb_spec (u64 z) i64_max); unfold u64_max, i64_max in *; lia.
Qed.
Lemma canonical_ticks_range s t : canonical_ticks s = Some t -> 0 < t <= u64_max.
Proof.
  unfold canonical_ticks. destruct (_ || _); [done|].
  destruct (from_chars_all u64_max s) as [v|] eqn:E; [|done]. apply from_chars_range in E.
  destruct (Z.eqb_spec v 0); [done|]. intros [= <-]. lia.
Qed.
Lemma bounded_string_len j n : is_bounded_string j n = true -> 1 <= slen (text_of j) <= n.
Proof.
  destruct j; simpl; try done. intros H. apply andb_true_iff in H as [H1 H2].
  destruct s; [done|]. rewrite slen_cons in *. pose proof (slen_nonneg s). lia.
Qed.
Lemma bounded_positive_range j m v : bounded_positive_u64 j m = Some v -> 0 < v <= m.
Proof.
  unfold bounded_positive_u64. destruct (_ || _); [done|]. intros H.
  apply bind_Some in H as (n & Hn & H). destruct ((n =? 0) || (m <? n)) eqn:E; [done|].
  injection H as <-. assert (0 <= n); [|lia].
  destruct (is_number_unsigned j).
  - injection Hn as <-. destruct j; simpl; try lia; apply u64_range.
  - destruct (get_i64 j <=? 0); [done|]. injection Hn as <-. apply u64_range.
Qed.
Lemma orb_false b c : b || c = false -> b = false /\ c = false.
Proof. apply orb_false_iff. Qed.
Ltac split_bools :=
  repeat match goal with
  | H : _ || _ = false |- _ => apply orb_false in H as [? ?]
  | H : negb _ = false |- _ => apply negb_false_iff in H
  | H : _ && _ = true |- _ => apply andb_true_iff in H as [? ?]
  | H : Some _ = Some _ |- _ => injection H as H
  end.

Lemma process_target_ok schema host target t :
  decode_process_target schema host target = inr t ->
  pt_host_id t = host /\ 0 < pt_pid t <= u32_max /\ 0 < pt_start_time_ticks t <= u64_max /\
  (schema = "2" -> exists b, pt_boot_id t = Some b /\ is_boot_digest b = true).
Proof.
  unfold decode_process_target. intros H. inv_sum H. split_bools.
  assert (Hp : 0 < get_i64 (field "pid" target) <= u32_max).
  { match goal with Hi : is_positive_integer (field "pid" target) = true |- _ =>
      apply positive_integer_range in Hi end. lia. }
  destruct (String.eqb_spec schema "2") as [->|Hs]; inv_sum H.
  - destruct (canonical_ticks _) as [ticks|] eqn:Et; [|done]. injection H as <-. simpl.
    apply canonical_ticks_range in Et. split_bools. repeat split; try lia. intros _. by eexists.
  - injection H as <-. simpl. split_bools.
    match goal with Hi : is_positive_integer (field "start_time_ticks" target) = true |- _ =>
      apply positive_integer_range in Hi end. repeat split; try lia. done.
Qed.
Lemma file_target_ok a target path capture cap :
  decode_file_target a target = inr (path, capture, cap) ->
  (is_file_action a = true -> 1 <= slen path <= 4096) /\
  (a = acquire_file -> 1 <= slen path <= 4096 /\ is_capture_id capture = true /\
     0 < cap <= maximum_acquisition_bytes).
Proof.
  unfold decode_file_target. intros H. destruct (is_file_action a) eqn:Ea.
  { inv_sum H. injection H as <- <- <-. split_bools.
    match goal with Hi : is_bounded_string _ _ = true |- _ => apply bounded_string_len in Hi end.
    split; [done|by intros ->]. }
  split; [done|]. intros ->. rewrite decide_True in H by done. inv_sum H.
  destruct (bounded_positive_u64 _ _) as [m|] eqn:Em; [|done]. injection H as <- <- <-.
  split_bools. apply bounded_positive_range in Em.
  match goal with Hi : is_bounded_string _ _ = true |- _ => apply bounded_string_len in Hi end.
  done.
Qed.
Lemma field_text k j s : is_string (field k j) = true -> text_of (field k j) = s -> find k j = Some (JStr s).
Proof.
  unfold field. destruct (find k j) as [[]|]; simpl; try done. by intros _ ->.
Qed.
Lemma bounded_is_string j n : is_bounded_string j n = true -> is_string j = true.
Proof. by destruct j. Qed.
Lemma unambiguous_inv payload doc :
  parse_unambiguous_json json_events payload = inr doc ->
  exists tree, json_events payload = inr tree /\ too_deep 0 tree = false /\
    duplicate_keys tree = false /\ doc = dom tree.
Proof.
  unfold parse_unambiguous_json. destruct (json_events payload) as [|tree]; [done|].
  destruct (too_deep 0 tree) eqn:Ed; [done|]. destruct (duplicate_keys tree) eqn:Ek; [done|].
  intros [= <-]. by exists tree.
Qed.
(** where the fields of a decoded command come from *)
Record decoded_from (tree : json) (c : Command) : Prop := {
  from_nesting : too_deep 0 tree = false;
  from_unambiguous : duplicate_keys tree = false;
  from_keys : forall m, m ∈ members (dom tree) -> m.1 ∈ allowed_keys;
  from_command_id : find "command_id" (dom tree) = Some (JStr (command_id c));
  from_agent_id : find "agent_id" (dom tree) = Some (JStr (agent_id c));
  from_host_id : find "host_id" (dom tree) = Some (JStr (host_id c));
  from_correlation_id : find "correlation_id" (dom tree) = Some (JStr (correlation_id c));
  from_schema : find "schema_version" (dom tree) = Some (JStr (schema_version c));
  from_action : exists name, find "action" (dom tree) = Some (JStr name) /\
    action_of name = Some (action c);
  from_times : exists created expires tc te,
    find "created_at" (dom tree) = Some (JStr created) /\
    find "expires_at" (dom tree) = Some (JStr expires) /\
    parse_utc_timestamp created = Some tc /\ parse_utc_timestamp expires = Some te /\
    time_ge tc te = false /\ expires_at_epoch_seconds c = te.1;
  from_wire : canonical_wire_json c = dump (dom tree)
}.
(** the identifier of a decoded command, and its canonical text *)
Lemma decoded_id payload c :
  parse_command_json json_events dump payload = inr c ->
  exists tree, json_events payload = inr tree /\
    find "command_id" (dom tree) = Some (JStr (command_id c)) /\ canonical_wire_json c = dump (dom tree).
Proof.
  unfold parse_command_json. intros H. inv_sum H.
  match goal with Hd : parse_unambiguous_json _ _ = inr ?d |- _ =>
    apply unambiguous_inv in Hd as (tree & Htree & _ & _ & ->) end.
  destruct a3 as [[path capture] cap]. injection H as <-. split_bools. exists tree.
  split; [done|]. split; [|done]. apply field_text; [by eapply bounded_is_string|done].
Qed.
Definition identifiers_ok (c : Command) : Prop :=
  is_valid_identifier (command_id c) = true /\ is_valid_identifier (agent_id c) = true /\
  is_valid_identifier (host_id c) = true /\ is_valid_identifier (correlation_id c) = true.

Lemma targets_ok schema host a target process path capture cap c :
  (schema = "1" \/ schema = "2") ->
  String.eqb schema "2" && negb (is_process_action a) = false ->
  (if is_process_action a then decode_process_target schema host target
   else inr {| pt_host_id := host; pt_pid := 0; pt_start_time_ticks := 0; pt_boot_id := None |})
    = inr process ->
  (if is_process_action a then inr ("", "", 0) else decode_file_target a target)
    = inr (path, capture, cap) ->
  host_id c = host -> schema_version c = schema -> action c = a -> process_target c = process ->
  file_target_path c = path -> file_capture_id c = capture -> file_maximum_bytes c = cap ->
  target_ok c.
Proof.
  intros Hs Hp H1 H2 <- <- <- <- <- <- <-. unfold target_ok.
  destruct (is_process_action (action c)) eqn:Ea.
  - injection H2 as H21 H22 H23. apply process_target_ok in H1 as (? & ? & ? & ?). done.
  - injection H1 as <-. apply file_target_ok in H2 as [? ?]. rewrite andb_true_r in Hp.
    apply String.eqb_neq in Hp. simpl. destruct Hs; [|done]. done.
Qed.


Lemma parse_entries_decoded l cs c : parse_entries json_events dump l = inr cs -> c ∈ cs -> exists text, parse_command_json json_events dump text = inr c.
Proof.
  revert cs. induction l as [|e l IH]; intros cs H Hc; cbn [parse_entries] in H;
    [injection H as <-; by apply not_elem_of_nil in Hc|].
  inv_sum H. injection H as <-. apply elem_of_cons in Hc as [->|Hc]; [by eexists|]. by eapply IH.
Qed.
Lemma polled_decoded text cs c :
  parse_command_poll_response json_events dump text 32 = inr cs -> c ∈ cs -> exists t, parse_command_json json_events dump t = inr c.
Proof.
  unfold parse_command_poll_response. intros H Hc. inv_sum H. destruct (field "commands" _); try done. inv_sum H.
  by eapply parse_entries_decoded.
Qed.
End DecoderFacts.

(** ** The admission gate *)

(** a write outcome after which the ledger file still ends with a whole line *)
Definition clean_write (io : io_outcome) : Prop :=
  match io with FlushFails written => written = 0%nat | _ => True end.
Definition clean_event (e : gate_event) : Prop :=
  match e with Received _ io _ => clean_write io | Restarted => True end.
(** the gate and its ledger agree: every id accepted by this process is recorded *)
Definition gate_ok (g : CommandGate) : Prop :=
  exists l, durable_ledger_ g = Some l /\ ledger_ok l /\ seen_ g ⊆ entries l.
Definition recorded (g : CommandGate) : gset string :=
  match durable_ledger_ g with Some l => entries l | None => seen_ g end.
(** what an accepted command satisfies at the time of acceptance *)
Definition acceptable (g : CommandGate) (now : Z) (c : Command) : Prop :=
  is_valid_identifier (command_id c) = true /\ agent_id c = agent_id_ g /\
  host_id c = gate_host_id g /\ pt_host_id (process_target c) = gate_host_id g /\
  now < expires_at_epoch_seconds c /\
  (action c = kill_process -> pt_pid (process_target c) <> 0 /\ pt_pid (process_target c) <> 4).

Lemma mark_failed_ok io id l e l' :
  clean_write io -> ledger_ok l -> mark_if_new io id l = (inl e, l') ->
  ledger_ok l' /\ entries l' = entries l.
Proof.
  intros Hc Hok. unfold mark_if_new. destruct (_ || _); [by intros [= <- <-]|].
  destruct (bool_decide _); [done|]. destruct (_ =? _); [by intros [= <- <-]|].
  destruct io as [| |w|]; simpl in Hc; try (by intros [= <- <-]). subst w. intros [= <- <-].
  split; [|done]. destruct Hok as (ids & Hf & Hrest). exists ids. simpl.
  by rewrite string_app_nil_r.
Qed.
Lemma mark_entries io id l b l' :
  mark_if_new io id l = (inr b, l') ->
  entries l' = (if b then {[id]} ∪ entries l else entries l).
Proof.
  unfold mark_if_new. destruct (_ || _); [done|].
  destruct (bool_decide (_ ∈ _)); [by intros [= <- <-]|].
  destruct (_ =? _); [done|]. destruct io; try done. by intros [= <- <-].
Qed.
Lemma validate_identity now io c g :
  agent_id_ (validate_and_mark now io c g).2 = agent_id_ g /\
  gate_host_id (validate_and_mark now io c g).2 = gate_host_id g.
Proof.
  unfold validate_and_mark. destruct (_ || _); [done|]. destruct (_ <=? _); [done|].
  destruct (bool_decide _); [done|]. destruct (_ && _); [done|].
  destruct (durable_ledger_ g) as [l|]; [|done]. by destruct (mark_if_new io _ l) as [[|[]] l'].
Qed.
(** one command at the gate: accepted exactly once, on the gate's conditions *)
Lemma validate_step now io c g r g' :
  clean_write io -> gate_ok g -> validate_and_mark now io c g = (r, g') ->
  gate_ok g' /\
  (code_ r = succeeded -> acceptable g now c /\ (command_id c ∉ recorded g) /\
     recorded g' = {[command_id c]} ∪ recorded g) /\
  (code_ r <> succeeded -> recorded g' = recorded g).
Proof.
  intros Hc (l & Hl & Hok & Hsub). unfold validate_and_mark.
  destruct (negb _ || _ || _ || _ || _ || _) eqn:E1; [intros [= <- <-]; split; [by exists l|done]|].
  destruct (Z.leb_spec (expires_at_epoch_seconds c) now); [intros [= <- <-]; split; [by exists l|done]|].
  case_bool_decide as Hseen; [intros [= <- <-]; split; [by exists l|done]|].
  destruct (bool_decide (action c = kill_process) && _) eqn:E2;
    [intros [= <- <-]; split; [by exists l|done]|].
  rewrite Hl. unfold recorded. rewrite Hl.
  destruct (mark_if_new io (command_id c) l) as [[e|b] l'] eqn:Em.
  - apply mark_failed_ok in Em as [Hok' He]; [|done..]. intros [= <- <-]. simpl.
    split; [|done]. exists l'. rewrite He. done.
  - pose proof (mark_entries _ _ _ _ _ Em) as E'.
    apply mark_ok in Em as (Hok' & Hincl & Hin & ->); [|done]. revert E'.
    destruct (bool_decide_reflect (command_id c ∉ entries l)) as [Hnew|Hnew];
      intros E' [= <- <-]; simpl.
    + split; [|split; [|done]].
      * exists l'. split; [done|]. split; [done|]. set_solver.
      * intros _. split; [|done]. rewrite !orb_false_iff, !negb_false_iff, !String.eqb_eq in E1.
        destruct E1 as [[[[[Hid _] _] Ha] Hh] Ht]. do 4 (split; [done|]). split; [lia|].
        intros Hk. rewrite Hk in E2. rewrite bool_decide_true in E2 by done. cbn [andb] in E2.
        unfold is_protected_process in E2. destruct (_ || _) eqn:E3; [done|]. lia.
    + split; [|done]. exists l'. split; [done|]. split; [done|]. set_solver.
Qed.
Lemma restart_spec g :
  gate_ok g -> exists g', restart g = Some g' /\ gate_ok g' /\ recorded g' = recorded g /\
    agent_id_ g' = agent_id_ g /\ gate_host_id g' = gate_host_id g.
Proof.
  intros (l & Hl & Hok & Hsub). unfold restart. rewrite Hl, ledger_restart_spec by done.
  eexists. split; [done|]. split; [|by unfold recorded; rewrite Hl].
  exists l. split; [done|]. split; [done|]. set_solver.
Qed.
Lemma acceptable_same g g' now c :
  agent_id_ g' = agent_id_ g -> gate_host_id g' = gate_host_id g ->
  acceptable g' now c -> acceptable g now c.
Proof. unfold acceptable. by intros -> ->. Qed.

(** C10: A command id is accepted at most once in the life of a host.  Through any
    sequence of commands, restarts and failed ledger writes that left no torn
    line, the agent always comes back up, the accepted ids are pairwise distinct
    and none was recorded before, every accepted command was addressed to this
    agent and host and had not expired, and no accepted kill targets pid 0 or 4. *)
Theorem gate_accepts_once (events : list gate_event) (g : CommandGate) :
  gate_ok g -> Forall clean_event events ->
  exists accepted g', gate_run events g = Some (accepted, g') /\ gate_ok g' /\
    NoDup (map (fun a => command_id a.2) accepted) /\
    recorded g' = list_to_set (map (fun a => command_id a.2) accepted) ∪ recorded g /\
    Forall (fun a => (command_id a.2 ∉ recorded g) /\ acceptable g a.1 a.2) accepted.
Proof.
  intros Hok Hev. revert g Hok. induction Hev as [|[now io c|] events He Hev IH]; intros g Hok.
  - exists [], g. simpl. split; [done|]. split; [done|]. split; [constructor|]. split; [set_solver|done].
  - cbn [gate_run]. pose proof (validate_identity now io c g) as [Ha Hh].
    destruct (validate_and_mark now io c g) as [r g1] eqn:E. simpl in Ha, Hh.
    apply validate_step in E as (Hok1 & Hyes & Hno); [|done..].
    destruct (IH g1 Hok1) as (acc & g2 & Hrun & Hok2 & Hnd & Hrec & Hall). rewrite Hrun. simpl.
    eexists _, g2. split; [done|]. split; [done|].
    assert (Hall' : recorded g ⊆ recorded g1 ->
      Forall (fun a => (command_id a.2 ∉ recorded g) /\ acceptable g a.1 a.2) acc).
    { intros Hs. eapply Forall_impl; [exact Hall|]. intros a [Hn Hacc].
      split; [set_solver|by eapply acceptable_same]. }
    case_bool_decide as Hs; simpl.
    + destruct (Hyes Hs) as (Hacc & Hn & Hr). split; [|split].
      * constructor; [|done]. intros Hin. apply list_elem_of_fmap in Hin as (a & Ea & Hin).
        rewrite Forall_forall in Hall. destruct (Hall a Hin) as [Hx _]. rewrite <- Ea in Hx. set_solver.
      * rewrite Hrec, Hr. set_solver.
      * constructor; [done|]. apply Hall'. set_solver.
    + rewrite (Hno Hs) in Hrec, Hall'. split; [done|]. split; [done|]. by apply Hall'.
  - cbn [gate_run]. destruct (restart_spec g Hok) as (g1 & -> & Hok1 & Hr & Ha & Hh). simpl.
    destruct (IH g1 Hok1) as (acc & g2 & Hrun & Hok2 & Hnd & Hrec & Hall).
    exists acc, g2. rewrite Hr in Hrec, Hall. split; [done|]. do 3 (split; [done|]).
    eapply Forall_impl; [exact Hall|]. intros a [Hn Hacc]. split; [done|by eapply acceptable_same].
Qed.

(** ** Concrete gate runs *)
Definition sample_command (id : string) : Command :=
  {| command_id := id; agent_id := "agent-1"; host_id := "host-1"; schema_version := "1";
     correlation_id := "corr-1"; action := kill_process; expires_at_epoch_seconds := 1000;
     process_target := {| pt_host_id := "host-1"; pt_pid := 77; pt_start_time_ticks := 5;
                          pt_boot_id := None |};
     file_target_path := ""; file_capture_id := ""; file_maximum_bytes := 0;
     canonical_wire_json := "{}" |}.
Definition sample_gate : CommandGate :=
  {| agent_id_ := "agent-1"; gate_host_id := "host-1"; seen_ := ∅;
     durable_ledger_ := Some sample_ledger |}.
Definition sample_events : list gate_event :=
  [Received 10 Persisted (sample_command "cmd-1"); Received 10 OpenFails (sample_command "cmd-2");
   Received 10 Persisted (sample_command "cmd-2"); Restarted;
   Received 10 Persisted (sample_command "cmd-2"); Received 10 Persisted (sample_command "cmd-3");
   Received 2000 Persisted (sample_command "cmd-4")].
Lemma gate_accepts_once_witness :
  exists accepted g', gate_run sample_events sample_gate = Some (accepted, g') /\ gate_ok g' /\
    NoDup (map (fun a => command_id a.2) accepted) /\
    recorded g' = list_to_set (map (fun a => command_id a.2) accepted) ∪ recorded sample_gate /\
    Forall (fun a => (command_id a.2 ∉ recorded sample_gate) /\ acceptable sample_gate a.1 a.2) accepted.
Proof.
  apply (gate_accepts_once sample_events sample_gate).
  - exists sample_ledger. split; [reflexivity|]. split; [exact sample_ledger_ok|]. set_solver.
  - repeat constructor.
Defined.
(** of those events the gate accepts the second try of [cmd-2], and [cmd-3] *)
Example sample_run_accepts :
  option_map (fun r => map (fun a => command_id a.2) r.1) (gate_run sample_events sample_gate)
    = Some ["cmd-2"; "cmd-3"].
Proof. vm_compute. reflexivity. Qed.

(** A torn ledger line defeats the replay protection.  When a flush fails after
    part of a line was written and a later command is recorded successfully, the
    two share one line of the file; after a restart the agent accepts the second
    command again, although it had been executed. *)
Theorem torn_ledger_line_replays :
  let events :=
    [Received 10 (FlushFails 5) (sample_command "cmd-2"); Received 10 Persisted (sample_command "cmd-3");
     Restarted; Received 20 Persisted (sample_command "cmd-3")] in
  option_map (fun r => map (fun a => command_id a.2) r.1) (gate_run events sample_gate)
    = Some ["cmd-3"; "cmd-3"].
Proof. vm_compute. reflexivity. Qed.

(** ** Results *)
Section ResultFacts.
Context (cng_sha256 : string -> string + list Z) (dump_strict : json -> result string).
#[local] Instance sum_bind'' : MBind (sum string) := sum_bind.

Lemma str_take_len n s : slen (str_take n s) <= Z.of_nat n.
Proof.
  unfold slen. revert s; induction n as [|n IH]; intros [|c s]; simpl; try lia.
  specialize (IH s). lia.
Qed.
Lemma detail_text_len r : slen (detail_text r) <= 512.
Proof.
  unfold detail_text. destruct (Z.ltb_spec 512 (slen (outcome_name (code_ r) +:+ ":" +:+
    to_string (receipt_number (code_ r)) +:+ (if str_empty (summary r) then "" else " " +:+ summary r))));
    [|lia].
  pose proof (str_take_len 512 (outcome_name (code_ r) +:+ ":" +:+
    to_string (receipt_number (code_ r)) +:+ (if str_empty (summary r) then "" else " " +:+ summary r))).
  lia.
Qed.
(** evidence never claims more than the outcome, nor less *)
Definition evidence_truthful (r : CommandReceipt) (e : ProcessExecutionEvidence) : Prop :=
  (completion_observed e = true <-> code_ r = succeeded) /\
  (action_initiated e = true <-> code_ r = succeeded \/ code_ r = indeterminate) /\
  (action_initiated e = true <-> stage e = "completion") /\ (stage e ∈ stages) /\
  (native_error e <> None -> code_ r = execution_failed \/ code_ r = indeterminate).
Lemma evidence_consistent_truthful r e :
  evidence_consistent (code_ r) e = true -> evidence_truthful r e.
Proof.
  unfold evidence_consistent, evidence_truthful. rewrite !andb_true_iff, negb_true_iff.
  intros [[[Hst Hv] Hi] Hn]. apply bool_decide_eq_true in Hst. apply Bool.eqb_prop in Hi.
  split; [|split; [|split; [|split; [done|]]]].
  - destruct (completion_observed e), (action_initiated e), (code_ r); simpl in Hv; done.
  - destruct (completion_observed e), (action_initiated e), (code_ r); simpl in Hv; naive_solver.
  - rewrite Hi. apply String.eqb_eq.
  - intros He. rewrite bool_decide_true in Hn by done. destruct (code_ r); simpl in Hn; auto; done.
Qed.

(** A serialized command result tells the truth.  Its size is within the limit,
    it names the command and correlation ids with a result id derived from the
    command id alone, its detail is at most 512 bytes, and any execution evidence
    agrees with the outcome: success exactly when completion was observed, and
    an action that was started is reported as succeeded or indeterminate. *)
Theorem result_truthful (r : CommandReceipt) (maximum_bytes : Z) (text : string) :
  serialize_command_result cng_sha256 dump_strict r maximum_bytes = Ok (inr text) ->
  slen text <= maximum_bytes /\
  exists doc digest, dump_strict doc = Ok text /\ sha256_hex cng_sha256 (r_command_id r) = inr digest /\
    find "result_id" doc = Some (JStr ("result_" +:+ digest)) /\
    find "command_id" doc = Some (JStr (r_command_id r)) /\
    find "correlation_id" doc = Some (JStr (r_correlation_id r)) /\
    find "outcome" doc = Some (JStr (outcome_name (code_ r))) /\
    (exists detail, find "detail" doc = Some (JStr detail) /\ slen detail <= 512) /\
    find "execution" doc = option_map evidence_json (execution r) /\
    (forall e, execution r = Some e -> evidence_truthful r e).
Proof.
  unfold serialize_command_result, result_document. intros H.
  destruct (_ ≫= _) as [|doc] eqn:Hd in H; [done|]. apply bind_Ok in H as (t & Ht & H).
  destruct (Z.ltb_spec maximum_bytes (slen t)); [done|]. injection H as <-. split; [done|].
  apply sum_bind_inr in Hd as (u & Hu & Hd).
  apply sum_bind_inr in Hd as (digest & Hdg & Hdoc). cbv zeta in Hdoc.
  exists doc, digest. split; [done|]. split; [done|].
  pose proof (detail_text_len r) as Hdl.
  destruct (execution r) as [e|].
  - destruct (evidence_consistent (code_ r) e) eqn:Ee; [|done]. injection Hdoc as <-.
    apply evidence_consistent_truthful in Ee.
    do 4 (split; [reflexivity|]). split; [eexists; split; [reflexivity|done]|].
    split; [reflexivity|]. intros e' [= <-]. done.
  - injection Hdoc as <-. do 4 (split; [reflexivity|]).
    split; [eexists; split; [reflexivity|done]|]. split; [reflexivity|done].
Qed.
End ResultFacts.

(** ** Concrete documents *)
Definition sample_tree : json :=
  JObj [("host_id", JStr "host-1"); ("command_id", JStr "cmd-9"); ("agent_id", JStr "agent-1");
        ("schema_version", JStr "2"); ("action", JStr "KILL_PROCESS");
        ("created_at", JStr "2024-02-29T23:59:59.123456Z");
        ("expires_at", JStr "2024-03-01T00:00:00+00:00"); ("correlation_id", JStr "corr-1");
        ("target", JObj [("pid", JUint 4242); ("start_time_ticks", JStr "133500000000000000");
           ("boot_id", JStr "boot_0123456789abcdef0123456789abcdef0123456789abcdef0123456789abcdef")])].
Definition sample_decoded : Command :=
  {| command_id := "cmd-9"; agent_id := "agent-1"; host_id := "host-1"; schema_version := "2";
     correlation_id := "corr-1"; action := kill_process; expires_at_epoch_seconds := 1709251200;
     process_target :=
       {| pt_host_id := "host-1"; pt_pid := 4242; pt_start_time_ticks := 133500000000000000;
          pt_boot_id := Some "boot_0123456789abcdef0123456789abcdef0123456789abcdef0123456789abcdef" |};
     file_target_path := ""; file_capture_id := ""; file_maximum_bytes := 0;
     canonical_wire_json := "canonical" |}.
Definition sample_receipt : CommandReceipt :=
  {| r_command_id := "cmd-9"; r_correlation_id := "corr-1"; code_ := indeterminate;
     summary := "termination requested";
     execution := Some {| stage := "completion"; action_initiated := true;
                          completion_observed := false; native_error := Some 5 |} |}.
Lemma result_truthful_witness :
  slen "{}" <= 100 /\
  exists doc digest, (fun _ : json => Ok "{}") doc = Ok "{}" /\
    sha256_hex (fun _ => inr (repeat 171 32)) (r_command_id sample_receipt) = inr digest /\
    find "result_id" doc = Some (JStr ("result_" +:+ digest)) /\
    find "command_id" doc = Some (JStr (r_command_id sample_receipt)) /\
    find "correlation_id" doc = Some (JStr (r_correlation_id sample_receipt)) /\
    find "outcome" doc = Some (JStr (outcome_name (code_ sample_receipt))) /\
    (exists detail, find "detail" doc = Some (JStr detail) /\ slen detail <= 512) /\
    find "execution" doc = option_map evidence_json (execution sample_receipt) /\
    (forall e, execution sample_receipt = Some e -> evidence_truthful sample_receipt e).
Proof.
  apply (result_truthful (fun _ => inr (repeat 171 32)) (fun _ => Ok "{}") sample_receipt 100 "{}").
  vm_compute. reflexivity.
Defined.
