(* ===== verification/Uploader.v ===== *)
(** * The delivery worker

    [delivery/uploader.cpp]: producers commit observations to the journal, a
    worker thread offers them to the Manager in batches and retires what a
    receipt accounts for.  The journal is used through the interface
    [EvidenceJournal]; its laws are what the worker relies on, and the journal
    of [Journal] satisfies them (the instance at the end).  The network is its
    replies: [inl] is a transport failure, [inr] a status and a body.  What the
    producers do while the worker waits for the network is an argument. *)

From S2P Require Import Prelude Telemetry Identity Json ProcessGraph Journal JournalFacts JournalSpec.

(** ** What the worker asks of a journal *)
Class EvidenceJournal (S : Type) := {
  j_append : string -> S -> result unit * S;
  j_append_checkpointed : string -> string -> string -> Z -> S -> result unit * S;
  j_advance : string -> string -> Z -> S -> result unit * S;
  j_peek : Z -> Z -> S -> result (option JournalBatch) * S;
  j_acknowledge : JournalBatch -> string -> S -> result unit * S;
  (** an observation with this key is retained *)
  j_evidence : S -> string -> Prop;
  (** the key a line is stored under *)
  j_key : string -> option string
}.
Definition batch_keys (b : JournalBatch) : list string := key <$> entries b.

Class EvidenceJournalLaws (S : Type) `{EvidenceJournal S} := {
  append_keeps line s k : j_evidence s k -> j_evidence (j_append line s).2 k;
  append_stores line s s' :
    j_append line s = (Ok tt, s') -> exists k, j_key line = Some k /\ j_evidence s' k;
  append_checkpointed_keeps line src cp e s k :
    j_evidence s k -> j_evidence (j_append_checkpointed line src cp e s).2 k;
  advance_keeps src cp e s k : j_evidence s k -> j_evidence (j_advance src cp e s).2 k;
  peek_keeps n b s k : j_evidence s k -> j_evidence (j_peek n b s).2 k;
  peek_bounded n b s batch s' :
    j_peek n b s = (Ok (Some batch), s') -> zlen (entries batch) <= Z.max 0 n;
  acknowledge_keeps b r s k :
    j_evidence s k -> k ∉ batch_keys b -> j_evidence (j_acknowledge b r s).2 k;
  acknowledge_refused b r s e s' k :
    j_acknowledge b r s = (Throw e, s') -> j_evidence s k -> j_evidence s' k
}.

(** ** Data *)
Record DeliveryConfig := {
  manager_url : string; verify_tls : bool; batch_max_events : Z; flush_interval_ms : Z;
  spool_directory : string; spool_max_segment_bytes : Z; spool_max_total_bytes : Z;
  spool_max_delivery_attempts : Z; spool_base_backoff_ms : Z; spool_max_backoff_ms : Z;
  request_timeout_ms : Z; bearer_token : string
}.
Record DeliveryHealth := {
  commit_failures : Z; transport_failures : Z; invalid_receipts : Z;
  freshness_challenge_failures : Z; capture_age_state : string; durability_state : string;
  transport_state : string; last_error : string
}.
Definition initial_health : DeliveryHealth := {|
  commit_failures := 0; transport_failures := 0; invalid_receipts := 0;
  freshness_challenge_failures := 0; capture_age_state := "unavailable";
  durability_state := "healthy"; transport_state := "unavailable"; last_error := "" |}.
Record HttpResponse := { status_code : Z; response_body : string }.
Definition reply : Type := string + HttpResponse.
Record Post := { url : string; headers : list (string * string); post_body : string }.

Definition validate (c : DeliveryConfig) : result DeliveryConfig :=
  _ ← throw_if (str_empty (manager_url c) || (batch_max_events c =? 0) || (1000 <? batch_max_events c)
                || (flush_interval_ms c =? 0) || (spool_base_backoff_ms c =? 0)
                || (spool_max_backoff_ms c <? spool_base_backoff_ms c) || (request_timeout_ms c =? 0))
        (invalid_argument "invalid delivery configuration");
  Ok c.

Section Worker.
Context {S : Type} `{EvidenceJournal S}.
(** the JSON parser ([None]: discarded) and printer of the library *)
Context (json_parse : string -> option json) (dump : json -> result string).

Record Uploader := {
  config_ : DeliveryConfig; agent_id_ : string; journal_ : S; health_ : DeliveryHealth;
  capture_scope_ : json; wake_ : bool; stop_requested_ : bool
}.

Definition new_uploader (config : DeliveryConfig) (agent : string) (journal : S) : result Uploader :=
  config ← validate config;
  _ ← throw_if (str_empty agent) (invalid_argument "delivery requires an agent identity");
  Ok {| config_ := config; agent_id_ := agent; journal_ := journal; health_ := initial_health;
        capture_scope_ := JNull; wake_ := false; stop_requested_ := false |}.

Definition set_journal (j : S) (u : Uploader) : Uploader :=
  {| config_ := config_ u; agent_id_ := agent_id_ u; journal_ := j; health_ := health_ u;
     capture_scope_ := capture_scope_ u; wake_ := wake_ u; stop_requested_ := stop_requested_ u |}.
Definition set_health (h : DeliveryHealth) (u : Uploader) : Uploader :=
  {| config_ := config_ u; agent_id_ := agent_id_ u; journal_ := journal_ u; health_ := h;
     capture_scope_ := capture_scope_ u; wake_ := wake_ u; stop_requested_ := stop_requested_ u |}.
Definition set_wake (w : bool) (u : Uploader) : Uploader :=
  {| config_ := config_ u; agent_id_ := agent_id_ u; journal_ := journal_ u; health_ := health_ u;
     capture_scope_ := capture_scope_ u; wake_ := w; stop_requested_ := stop_requested_ u |}.

(** health transitions, each under the mutex *)
Definition durable (h : DeliveryHealth) : DeliveryHealth :=
  {| commit_failures := commit_failures h; transport_failures := transport_failures h;
     invalid_receipts := invalid_receipts h;
     freshness_challenge_failures := freshness_challenge_failures h;
     capture_age_state := capture_age_state h; durability_state := "healthy";
     transport_state := transport_state h; last_error := last_error h |}.
Definition not_committed (error : string) (h : DeliveryHealth) : DeliveryHealth :=
  {| commit_failures := u64 (commit_failures h + 1); transport_failures := transport_failures h;
     invalid_receipts := invalid_receipts h;
     freshness_challenge_failures := freshness_challenge_failures h;
     capture_age_state := capture_age_state h; durability_state := "degraded";
     transport_state := transport_state h; last_error := error |}.
Definition no_challenge (h : DeliveryHealth) : DeliveryHealth :=
  {| commit_failures := commit_failures h; transport_failures := transport_failures h;
     invalid_receipts := invalid_receipts h;
     freshness_challenge_failures := u64 (freshness_challenge_failures h + 1);
     capture_age_state := "unavailable"; durability_state := durability_state h;
     transport_state := transport_state h; last_error := last_error h |}.
Definition not_transported (error : string) (h : DeliveryHealth) : DeliveryHealth :=
  {| commit_failures := commit_failures h; transport_failures := u64 (transport_failures h + 1);
     invalid_receipts := invalid_receipts h;
     freshness_challenge_failures := freshness_challenge_failures h;
     capture_age_state := capture_age_state h; durability_state := durability_state h;
     transport_state := "degraded"; last_error := error |}.
Definition not_accounted (error : string) (h : DeliveryHealth) : DeliveryHealth :=
  {| commit_failures := commit_failures h; transport_failures := transport_failures h;
     invalid_receipts := u64 (invalid_receipts h + 1);
     freshness_challenge_failures := freshness_challenge_failures h;
     capture_age_state := capture_age_state h; durability_state := durability_state h;
     transport_state := "degraded"; last_error := error |}.
Definition transported (age : option string) (h : DeliveryHealth) : DeliveryHealth :=
  {| commit_failures := commit_failures h; transport_failures := transport_failures h;
     invalid_receipts := invalid_receipts h;
     freshness_challenge_failures := freshness_challenge_failures h;
     capture_age_state := default (capture_age_state h) age; durability_state := durability_state h;
     transport_state := "healthy"; last_error := last_error h |}.
Definition worker_failed (error : string) (h : DeliveryHealth) : DeliveryHealth :=
  {| commit_failures := commit_failures h; transport_failures := transport_failures h;
     invalid_receipts := invalid_receipts h;
     freshness_challenge_failures := freshness_challenge_failures h;
     capture_age_state := capture_age_state h; durability_state := "degraded";
     transport_state := transport_state h; last_error := error |}.

(** ** Producers *)
(** a journal commit: [wakes] whether success wakes the worker *)
Definition commit (wakes : bool) (op : S -> result unit * S) (u : Uploader) : bool * Uploader :=
  if stop_requested_ u then (false, u)
  else match op (journal_ u) with
       | (Ok _, j) =>
           let u := set_health (durable (health_ u)) (set_journal j u) in
           (true, if wakes then set_wake true u else u)
       | (Throw e, j) => (false, set_health (not_committed (what e) (health_ u)) (set_journal j u))
       end.
Definition enqueue (line : string) : Uploader -> bool * Uploader := commit true (j_append line).
Definition enqueue_checkpointed (line source checkpoint : string) (expected : Z)
  : Uploader -> bool * Uploader := commit true (j_append_checkpointed line source checkpoint expected).
Definition advance_checkpoint (source checkpoint : string) (expected : Z)
  : Uploader -> bool * Uploader := commit false (j_advance source checkpoint expected).

Definition set_bearer_token (agent token : string) (u : Uploader) : result unit * Uploader :=
  if negb (String.eqb agent (agent_id_ u)) || str_empty token || (512 <? slen token)
  then (Throw (invalid_argument "delivery credential identity mismatch"), u)
  else
    let c := config_ u in
    (Ok tt, {| config_ := {| manager_url := manager_url c; verify_tls := verify_tls c;
                 batch_max_events := batch_max_events c; flush_interval_ms := flush_interval_ms c;
                 spool_directory := spool_directory c;
                 spool_max_segment_bytes := spool_max_segment_bytes c;
                 spool_max_total_bytes := spool_max_total_bytes c;
                 spool_max_delivery_attempts := spool_max_delivery_attempts c;
                 spool_base_backoff_ms := spool_base_backoff_ms c;
                 spool_max_backoff_ms := spool_max_backoff_ms c;
                 request_timeout_ms := request_timeout_ms c; bearer_token := token |};
               agent_id_ := agent_id_ u; journal_ := journal_ u; health_ := health_ u;
               capture_scope_ := capture_scope_ u; wake_ := true;
               stop_requested_ := stop_requested_ u |}).
Definition set_capture_scope (scope : json) (u : Uploader) : result unit * Uploader :=
  if negb (is_object scope) || negb (size_ scope =? 4) || negb (contains "installation_id" scope)
     || negb (contains "boot_id" scope) || negb (contains "collector_generation" scope)
     || negb (contains "collector_epoch" scope)
  then (Throw (invalid_argument "invalid factory capture scope"), u)
  else if negb (is_null (capture_scope_ u))
  then (Throw (logic_error "capture scope is immutable during a collector generation"), u)
  else (Ok tt, {| config_ := config_ u; agent_id_ := agent_id_ u; journal_ := journal_ u;
                  health_ := health_ u; capture_scope_ := scope; wake_ := wake_ u;
                  stop_requested_ := stop_requested_ u |}).
Definition stop (u : Uploader) : Uploader :=
  {| config_ := config_ u; agent_id_ := agent_id_ u; journal_ := journal_ u; health_ := health_ u;
     capture_scope_ := capture_scope_ u; wake_ := wake_ u; stop_requested_ := true |}.

(** what other threads may do *)
Inductive producer_call :=
| Enqueue (line : string)
| EnqueueCheckpointed (line source checkpoint : string) (expected : Z)
| AdvanceCheckpoint (source checkpoint : string) (expected : Z)
| SetBearerToken (agent token : string)
| SetCaptureScope (scope : json)
| Stop.
Definition produce (c : producer_call) (u : Uploader) : Uploader :=
  match c with
  | Enqueue line => (enqueue line u).2
  | EnqueueCheckpointed l s c e => (enqueue_checkpointed l s c e u).2
  | AdvanceCheckpoint s c e => (advance_checkpoint s c e u).2
  | SetBearerToken a t => (set_bearer_token a t u).2
  | SetCaptureScope s => (set_capture_scope s u).2
  | Stop => stop u
  end.
Definition produce_all (cs : list producer_call) (u : Uploader) : Uploader :=
  foldl (fun u c => produce c u) u cs.

(** ** One delivery *)
(** what one attempt meets: the replies, the clock, and the calls other threads
    complete after the peek, after the headers are built, and during the post *)
Record attempt := {
  challenge_reply : reply; records_reply : reply; tick_count : Z; finished_at : Z;
  after_peek : list producer_call; during_challenge : list producer_call;
  during_post : list producer_call
}.
Definition is_nonce (nonce : string) : bool := (slen nonce =? 64) && str_forallb is_lower_hex nonce.
(** the nonce of a challenge reply *)
Definition challenge_nonce (r : reply) : option string :=
  match r with
  | inr resp =>
      if status_code resp =? 200 then
        match json_parse (response_body resp) with
        | Some proof =>
            if is_object proof then
              match find "nonce" proof with
              | Some (JStr nonce) => if is_nonce nonce then Some nonce else None
              | _ => None
              end
            else None
        | None => None
        end
      else None
  | inl _ => None
  end.
Definition capture_age (batch : JournalBatch) (body : string) : string :=
  match json_parse body with
  | Some receipt =>
      if is_object receipt
         && match find "capture_age_records" receipt with
            | Some (JUint n) => (0 <? u64 n) && (u64 n <=? zlen (entries batch))
            | _ => false
            end
      then "healthy" else "unavailable"
  | None => "unavailable"
  end.

(** the value returned or the exception thrown, the requests sent, and the batch
    retired, if any *)
Record delivery := {
  outcome : result Z; posts : list Post; acknowledged : option (JournalBatch * string)
}.

Definition deliver_one (a : attempt) (u : Uploader) : delivery * Uploader :=
  match j_peek (batch_max_events (config_ u)) (8 * 1024 * 1024) (journal_ u) with
  | (Throw e, j) => ({| outcome := Throw e; posts := []; acknowledged := None |}, set_journal j u)
  | (Ok None, j) => ({| outcome := Ok 0; posts := []; acknowledged := None |}, set_journal j u)
  | (Ok (Some batch), j) =>
      let u := produce_all (after_peek a) (set_journal j u) in
      let token := bearer_token (config_ u) in
      let url := manager_url (config_ u) in
      let scope := capture_scope_ u in
      let authorization := if str_empty token then [] else [("Authorization", "Bearer " +:+ token)] in
      let common := [("X-Panopticon-Batch-Id", batch_id batch); ("X-Panopticon-Agent-Id", agent_id_ u);
                     ("X-Panopticon-Protocol", to_string (batch_protocol batch))] ++ authorization in
      let headers := ("Content-Type", "application/x-ndjson") :: common in
      let asks := (batch_protocol batch =? 2) && is_object scope in
      let challenge := {| url := url +:+ "/api/v2/endpoint/freshness-challenge";
                          headers := ("Content-Type", "application/json") :: common;
                          post_body := "{}" |} in
      let u := if asks then produce_all (during_challenge a) u else u in
      let nonce := if asks then challenge_nonce (challenge_reply a) else None in
      match match nonce with
            | Some nonce =>
                context ← dump (set_member "send_uptime_ms" (JStr (to_string (tick_count a))) scope);
                Ok [("X-Panopticon-Freshness-Nonce", nonce); ("X-Panopticon-Capture-Context", context)]
            | None => Ok []
            end with
      | Throw e => ({| outcome := Throw e; posts := [challenge]; acknowledged := None |}, u)
      | Ok proof =>
          let u := if asks && negb (bool_decide (nonce <> None))
                   then set_health (no_challenge (health_ u)) u else u in
          let records := {| url := url +:+ (if batch_protocol batch =? 2
                                            then "/api/v2/endpoint/records" else "/api/v1/ingest");
                            headers := headers ++ proof; post_body := ndjson batch |} in
          let sent := (if asks then [challenge] else []) ++ [records] in
          let u := produce_all (during_post a) u in
          match records_reply a with
          | inl error =>
              ({| outcome := Ok (-1); posts := sent; acknowledged := None |},
               set_health (not_transported error (health_ u)) u)
          | inr response =>
              if negb (status_code response =? 200)
              then ({| outcome := Ok (-1); posts := sent; acknowledged := None |},
                    set_health (not_transported
                      ("manager status " +:+ to_string (status_code response)) (health_ u)) u)
              else
                match j_acknowledge batch (response_body response) (journal_ u) with
                | (Throw e, j) =>
                    ({| outcome := Ok (-1); posts := sent; acknowledged := None |},
                     set_health (not_accounted (what e) (health_ u)) (set_journal j u))
                | (Ok _, j) =>
                    ({| outcome := Ok 1; posts := sent;
                           acknowledged := Some (batch, response_body response) |},
                     set_health (transported
                       (if batch_protocol batch =? 2
                        then Some (capture_age batch (response_body response)) else None)
                       (health_ u)) (set_journal j u))
                end
          end
      end
  end.

(** ** The worker loop *)
(** [retry_at]: [None] is [time_point::min()] *)
Record Schedule := { backoff : Z; retry_at : option Z }.
Definition initial_schedule (c : DeliveryConfig) : Schedule :=
  {| backoff := spool_base_backoff_ms c; retry_at := None |}.
Definition next_backoff (c : DeliveryConfig) (b : Z) : Z :=
  u32 (Z.min (spool_max_backoff_ms c) (u64 (b * 2))).

(** up to [count] deliveries, as many as [attempts] describes; the schedule, everything sent, and the retired batches *)
Record pass_log := { sent : list Post; retired : list (JournalBatch * string) }.
Definition log_app (d : delivery) (l : pass_log) : pass_log :=
  {| sent := posts d ++ sent l; retired := option_list (acknowledged d) ++ retired l |}.
Fixpoint drain (count : nat) (attempts : list attempt) (w : Schedule) (u : Uploader)
  : pass_log * Schedule * Uploader :=
  let idle := ({| sent := []; retired := [] |}, w, u) in
  match count, attempts with
  | Datatypes.S n, a :: attempts =>
      if stop_requested_ u then idle
      else
        let '(d, u) := deliver_one a u in
        let nothing := {| sent := []; retired := [] |} in
        match outcome d with
        | Throw e =>
            (log_app d nothing,
             {| backoff := backoff w;
                retry_at := Some (finished_at a + spool_max_backoff_ms (config_ u)) |},
             set_health (worker_failed (what e) (health_ u)) u)
        | Ok r =>
            if r =? 0 then (log_app d nothing, w, u)
            else if r <? 0
            then (log_app d nothing,
                  {| backoff := next_backoff (config_ u) (backoff w);
                     retry_at := Some (finished_at a + backoff w) |}, u)
            else
              let '(l, w, u) :=
                drain n attempts
                  {| backoff := spool_base_backoff_ms (config_ u); retry_at := retry_at w |} u in
              (log_app d l, w, u)
        end
  | _, _ => idle
  end.
(** one turn of the loop, after the wait: [waited] is what other threads did
    meanwhile, [now] the clock *)
Definition pass (waited : list producer_call) (now : Z) (attempts : list attempt)
    (w : Schedule) (u : Uploader) : pass_log * Schedule * Uploader :=
  let u := set_wake false (produce_all waited u) in
  let idle := ({| sent := []; retired := [] |}, w, u) in
  if stop_requested_ u then idle
  else if match retry_at w with Some t => now <? t | None => false end then idle
  else drain 64 attempts w u.
Fixpoint run (turns : list (list producer_call * Z * list attempt)) (w : Schedule) (u : Uploader)
  : pass_log * Schedule * Uploader :=
  match turns with
  | [] => ({| sent := []; retired := [] |}, w, u)
  | (waited, now, attempts) :: turns =>
      let '(l, w, u) := pass waited now attempts w u in
      if stop_requested_ u then (l, w, u)
      else let '(l', w, u) := run turns w u in
           ({| sent := sent l ++ sent l'; retired := retired l ++ retired l' |}, w, u)
  end.
End Worker.
