(* ===== verification/UploaderFacts.v ===== *)
(** * Delivery guarantees

    The worker's theorems are proved against [EvidenceJournal]; the last section
    shows that the durable journal satisfies its laws. *)

From S2P Require Import Prelude Telemetry Identity Json ProcessGraph Journal JournalFacts JournalSpec Uploader.

Section Delivery.
Context {S : Type} `{EvidenceJournal S} `{!EvidenceJournalLaws S}.
Context (json_parse : string -> option json) (dump : json -> result string).

Definition evidence (u : Uploader) (k : string) : Prop := j_evidence (journal_ u) k.

(** ** Producers never lose evidence and never change the limits *)
Lemma commit_keeps wakes op u k :
  (forall s, j_evidence s k -> j_evidence (op s).2 k) -> evidence u k -> evidence (commit wakes op u).2 k.
Proof.
  intros Hop He. unfold commit. destruct (stop_requested_ u); [done|].
  specialize (Hop (journal_ u) He). destruct (op (journal_ u)) as [[a|e] j]; [|done]. by destruct wakes.
Qed.
Lemma produce_keeps c u k : evidence u k -> evidence (produce c u) k.
Proof.
  intros He. destruct c; cbn [produce].
  - apply commit_keeps; [|done]. intros s. apply append_keeps.
  - apply commit_keeps; [|done]. intros s. apply append_checkpointed_keeps.
  - apply commit_keeps; [|done]. intros s. apply advance_keeps.
  - unfold set_bearer_token. by destruct (_ || _).
  - unfold set_capture_scope. destruct (_ || _); [done|]. by destruct (negb _).
  - done.
Qed.
Lemma produce_all_keeps cs u k : evidence u k -> evidence (produce_all cs u) k.
Proof.
  unfold produce_all. revert u. induction cs as [|c cs IH]; intros u He; [done|]. simpl.
  apply IH. by apply produce_keeps.
Qed.

Definition limits (u : Uploader (S:=S)) : Z * Z :=
  (spool_base_backoff_ms (config_ u), spool_max_backoff_ms (config_ u)).
Lemma commit_limits wakes op u : limits (commit wakes op u).2 = limits u.
Proof.
  unfold commit. destruct (stop_requested_ u); [done|].
  destruct (op (journal_ u)) as [[a|e] j]; [|done]. by destruct wakes.
Qed.
Lemma produce_limits c u : limits (produce c u) = limits u.
Proof.
  destruct c; cbn [produce]; try apply commit_limits; try done.
  - unfold set_bearer_token. by destruct (_ || _).
  - unfold set_capture_scope. destruct (_ || _); [done|]. by destruct (negb _).
Qed.
Lemma produce_all_limits cs u : limits (produce_all cs u) = limits u.
Proof.
  unfold produce_all. revert u. induction cs as [|c cs IH]; intros u; [done|]. simpl.
  by rewrite IH, produce_limits.
Qed.

(** ** One delivery *)
(** an acknowledged batch was posted as it is and answered with status 200 *)
Definition proven (replies : list reply) (sent : list Post) (x : JournalBatch * string) : Prop :=
  (exists p, p ∈ sent /\ post_body p = ndjson x.1) /\
  (exists resp, inr resp ∈ replies /\ status_code resp = 200 /\ response_body resp = x.2).

Lemma deliver_one_spec a u d u' :
  deliver_one json_parse dump a u = (d, u') ->
  limits u' = limits u /\
  (forall x, acknowledged d = Some x -> proven [records_reply a] (posts d) x) /\
  (forall k, evidence u k -> evidence u' k \/
     exists x, acknowledged d = Some x /\ k ∈ batch_keys x.1).
Proof.
  unfold deliver_one.
  destruct (j_peek _ _ (journal_ u)) as [[[batch|]|e] j] eqn:Ep.
  2, 3: intros [= <- <-]; split; [done|]; split; [done|]; intros k Hk; left;
    apply (peek_keeps (batch_max_events (config_ u)) (8 * 1024 * 1024)) in Hk; by rewrite Ep in Hk.
  assert (Hpk : forall k, evidence u k -> evidence (set_journal j u) k).
  { intros k Hk. apply (peek_keeps (batch_max_events (config_ u)) (8 * 1024 * 1024)) in Hk.
    by rewrite Ep in Hk. }
  cbv zeta. set (u1 := produce_all (after_peek a) (set_journal j u)).
  assert (H1 : limits u1 = limits u /\ forall k, evidence u k -> evidence u1 k).
  { split; [exact (produce_all_limits _ (set_journal j u))|].
    intros k Hk. by apply produce_all_keeps, Hpk. }
  set (asks := _ && _). set (u2 := if asks then _ else u1).
  assert (H2 : limits u2 = limits u /\ forall k, evidence u k -> evidence u2 k).
  { subst u2. destruct asks; [|done]. split; [by rewrite (produce_all_limits (during_challenge a) u1); apply H1|].
    intros k Hk. by apply produce_all_keeps, H1. }
  clearbody u1 u2 asks. clear H1 Hpk Ep.
  destruct (match (if asks then _ else _) with Some _ => _ | None => _ end) as [proof|e].
  2: { intros [= <- <-]. split; [apply H2|]. split; [done|]. intros k Hk. left. by apply H2. }
  set (u3 := if asks && _ then _ else u2).
  assert (H3 : limits u3 = limits u /\ forall k, evidence u k -> evidence u3 k)
    by (subst u3; by destruct (asks && _)).
  clearbody u3. set (u4 := produce_all (during_post a) u3).
  assert (H4 : limits u4 = limits u /\ forall k, evidence u k -> evidence u4 k).
  { split; [unfold u4; by rewrite (produce_all_limits (during_post a) u3); apply H3|].
    intros k Hk. by apply produce_all_keeps, H3. }
  clearbody u4. clear H2 H3.
  destruct (records_reply a) as [error|resp] eqn:Er.
  { intros [= <- <-]. split; [apply H4|]. split; [done|]. intros k Hk. left. by apply H4. }
  destruct (Z.eqb_spec (status_code resp) 200) as [Hst|]; cbn [negb].
  2: { intros [= <- <-]. split; [apply H4|]. split; [done|]. intros k Hk. left. by apply H4. }
  destruct (j_acknowledge batch (response_body resp) (journal_ u4)) as [[ok|e] j'] eqn:Ea;
    intros [= <- <-]; (split; [apply H4|]); cbn [acknowledged posts].
  - split.
    + intros x [= <-]. split; [|by exists resp; rewrite list_elem_of_singleton].
      eexists. split; [apply elem_of_app; right; apply list_elem_of_singleton; reflexivity|done].
    + intros k Hk. apply H4 in Hk. destruct (decide (k ∈ batch_keys batch)) as [Hin|Hin].
      * right. by eexists.
      * left. unfold evidence in *. apply (acknowledge_keeps batch (response_body resp)) in Hk; [|done].
        by rewrite Ea in Hk.
  - split; [done|]. intros k Hk. left. apply H4 in Hk. by eapply acknowledge_refused.
Qed.

Lemma proven_mono rs rs' sent sent' x :
  rs ⊆ rs' -> sent ⊆ sent' -> proven rs sent x -> proven rs' sent' x.
Proof.
  intros Hr Hs [(p & Hp & Hb) (resp & Hin & Hst)]. split; [exists p|exists resp].
  - split; [by apply Hs|done].
  - split; [by apply Hr|done].
Qed.

(** ** Passes and runs keep evidence *)
Definition retains (rs : list reply) (u u' : Uploader) (l : pass_log) : Prop :=
  limits u' = limits u /\ Forall (proven rs (sent l)) (retired l) /\
  (forall k, evidence u k -> evidence u' k \/ exists x, x ∈ retired l /\ k ∈ batch_keys x.1).

Lemma retains_none rs u u' :
  limits u' = limits u -> (forall k, evidence u k -> evidence u' k) ->
  retains rs u u' {| sent := []; retired := [] |}.
Proof. intros Hl He. split; [done|]. split; [constructor|]. auto. Qed.
Lemma retains_delivery a u d u' v rs :
  deliver_one json_parse dump a u = (d, u') -> records_reply a ∈ rs ->
  limits v = limits u' -> (forall k, evidence u' k -> evidence v k) ->
  retains rs u v (log_app d {| sent := []; retired := [] |}).
Proof.
  intros Hd Hin Hl He. apply deliver_one_spec in Hd as (Hlim & Hack & Hk).
  split; [congruence|]. cbn [log_app sent retired]. rewrite !app_nil_r. split.
  - destruct (acknowledged d) as [x|]; [|constructor]. constructor; [|constructor].
    eapply proven_mono; [| |by apply Hack]; [|done]. intros r ->%list_elem_of_singleton. done.
  - intros k Hku. destruct (Hk k Hku) as [|(x & Hx & Hkx)]; [left; by apply He|right].
    exists x. rewrite Hx. simpl. by rewrite list_elem_of_singleton.
Qed.
Lemma retains_trans rs u u1 u2 l l' :
  retains rs u u1 l -> retains rs u1 u2 l' ->
  retains rs u u2 {| sent := sent l ++ sent l'; retired := retired l ++ retired l' |}.
Proof.
  intros (L1 & F1 & K1) (L2 & F2 & K2). split; [congruence|]. cbn [sent retired]. split.
  - apply Forall_app. split; [eapply Forall_impl; [exact F1|]|eapply Forall_impl; [exact F2|]];
      intros x; apply proven_mono; set_solver.
  - intros k Hk. setoid_rewrite elem_of_app. destruct (K1 k Hk) as [Hk1|(x & ? & ?)]; [|eauto].
    destruct (K2 k Hk1) as [|(x & ? & ?)]; eauto.
Qed.
Lemma retains_mono rs rs' u u' l : rs ⊆ rs' -> retains rs u u' l -> retains rs' u u' l.
Proof.
  intros Hs (L & F & K). split; [done|]. split; [|done]. eapply Forall_impl; [exact F|].
  intros x. by apply proven_mono.
Qed.

Lemma drain_retains n attempts w u l w' u' :
  drain json_parse dump n attempts w u = (l, w', u') ->
  retains (records_reply <$> attempts) u u' l.
Proof.
  revert attempts w u l w' u'; induction n as [|n IH]; intros [|a attempts] w u l w' u'; cbn [drain];
    try (intros [= <- <- <-]; by apply retains_none).
  destruct (stop_requested_ u); [intros [= <- <- <-]; by apply retains_none|].
  destruct (deliver_one json_parse dump a u) as [d u1] eqn:Ed.
  assert (Hhd : records_reply a ∈ (records_reply <$> a :: attempts)) by (simpl; set_solver).
  destruct (outcome d) as [r|e]; [|intros [= <- <- <-]; by eapply retains_delivery].
  destruct (r =? 0); [intros [= <- <- <-]; by eapply retains_delivery|].
  destruct (r <? 0); [intros [= <- <- <-]; by eapply retains_delivery|].
  destruct (drain json_parse dump n attempts _ u1) as [[l1 w1] u2] eqn:Ed2. intros [= <- <- <-].
  apply IH in Ed2. eapply retains_delivery in Ed as Hd1; [|exact Hhd|reflexivity|done].
  apply (retains_mono _ (records_reply <$> a :: attempts)) in Ed2; [|simpl; set_solver].
  pose proof (retains_trans _ _ _ _ _ _ Hd1 Ed2) as Ht.
  unfold log_app in *. cbn [sent retired] in Ht. by rewrite !app_nil_r in Ht.
Qed.
Lemma pass_retains waited now attempts w u l w' u' :
  pass json_parse dump waited now attempts w u = (l, w', u') ->
  retains (records_reply <$> attempts) u u' l.
Proof.
  unfold pass. set (u1 := set_wake false (produce_all waited u)).
  assert (H1 : limits u1 = limits u /\ forall k, evidence u k -> evidence u1 k).
  { split; [exact (produce_all_limits waited u)|]. intros k Hk. exact (produce_all_keeps waited u k Hk). }
  clearbody u1. destruct H1 as [Hl He].
  destruct (stop_requested_ u1); [intros [= <- <- <-]; by apply retains_none|].
  destruct (match retry_at w with Some t => now <? t | None => false end);
    [intros [= <- <- <-]; by apply retains_none|].
  intros Hd. apply drain_retains in Hd as (L & F & K). split; [congruence|]. split; [done|]. auto.
Qed.
Definition run_replies (turns : list (list producer_call * Z * list attempt)) : list reply :=
  records_reply <$> (turns ≫= snd).
Lemma run_retains turns w u l w' u' :
  run json_parse dump turns w u = (l, w', u') -> retains (run_replies turns) u u' l.
Proof.
  revert w u l w' u'; induction turns as [|[[waited now] attempts] turns IH]; intros w u l w' u';
    cbn [run]; [intros [= <- <- <-]; by apply retains_none|].
  destruct (pass json_parse dump waited now attempts w u) as [[l1 w1] u1] eqn:Ep.
  apply pass_retains in Ep. unfold run_replies. rewrite bind_cons, fmap_app. cbn [snd].
  apply (retains_mono _ ((records_reply <$> attempts) ++ (records_reply <$> (turns ≫= snd)))) in Ep;
    [|set_solver].
  destruct (stop_requested_ u1); [by intros [= <- <- <-]|].
  destruct (run json_parse dump turns w1 u1) as [[l2 w2] u2] eqn:Er. intros [= <- <- <-].
  apply IH in Er. eapply retains_trans; [exact Ep|]. eapply retains_mono; [|exact Er].
  unfold run_replies. set_solver.
Qed.
Lemma enqueue_true line u u1 :
  enqueue line u = (true, u1) -> exists k, j_key line = Some k /\ evidence u1 k.
Proof.
  unfold enqueue, commit. destruct (stop_requested_ u); [done|].
  destruct (j_append line (journal_ u)) as [[[]|e] j] eqn:E; [|done]. intros [= <-].
  apply append_stores in E as (k & Hk & He). by exists k.
Qed.

(** C2: Delivery is at least once.  When [enqueue] returns true the observation is
    retained, and however the worker then runs - lost connections, error
    statuses, invalid receipts, exceptions, other threads appending, restarts of
    the back-off - it stays retained until a batch that contains it was posted
    and answered with status 200 and a receipt the journal accepted. *)
Theorem accepted_until_acknowledged (line : string) (u u1 u2 : Uploader) (w w' : Schedule)
    (turns : list (list producer_call * Z * list attempt)) (l : pass_log) :
  enqueue line u = (true, u1) -> run json_parse dump turns w u1 = (l, w', u2) ->
  exists k, j_key line = Some k /\
    (evidence u2 k \/
     exists b r p resp, (b, r) ∈ retired l /\ k ∈ batch_keys b /\
       p ∈ sent l /\ post_body p = ndjson b /\
       inr resp ∈ run_replies turns /\ status_code resp = 200 /\ response_body resp = r).
Proof.
  intros Hq Hr. apply enqueue_true in Hq as (k & Hk & He). exists k. split; [done|].
  apply run_retains in Hr as (_ & F & K). destruct (K k He) as [|([b r] & Hx & Hkx)]; [by left|right].
  rewrite Forall_forall in F. destruct (F _ Hx) as [(p & Hp & Hb) (resp & Hresp & Hst & Hbody)].
  by exists b, r, p, resp.
Qed.

(** ** The retry schedule *)
Definition base (u : Uploader (S:=S)) : Z := spool_base_backoff_ms (config_ u).
Definition ceiling (u : Uploader (S:=S)) : Z := spool_max_backoff_ms (config_ u).
Definition limits_ok (u : Uploader (S:=S)) : Prop := 1 <= base u <= ceiling u /\ ceiling u <= u32_max.
Definition schedule_ok (u : Uploader (S:=S)) (w : Schedule) : Prop := base u <= backoff w <= ceiling u.

(** how a pass may change the schedule *)
Inductive schedule_step (u : Uploader (S:=S)) (attempts : list attempt) (w w' : Schedule) : Prop :=
| step_idle : w' = w -> schedule_step u attempts w w'
| step_delivered : backoff w' = base u -> retry_at w' = retry_at w -> schedule_step u attempts w w'
| step_failed a b :
    a ∈ attempts -> (b = backoff w \/ b = base u) -> retry_at w' = Some (finished_at a + b) ->
    backoff w' = Z.min (ceiling u) (2 * b) -> schedule_step u attempts w w'
| step_exception a :
    a ∈ attempts -> (backoff w' = backoff w \/ backoff w' = base u) ->
    retry_at w' = Some (finished_at a + ceiling u) -> schedule_step u attempts w w'.

Lemma limits_eq u u' : limits u' = limits u -> base u' = base u /\ ceiling u' = ceiling u.
Proof. unfold limits, base, ceiling. by intros [= -> ->]. Qed.
Lemma next_backoff_min u b :
  limits_ok u -> base u <= b <= ceiling u -> next_backoff (config_ u) b = Z.min (ceiling u) (2 * b).
Proof.
  intros [[H1 H2] H3] Hb. unfold next_backoff, ceiling in *. unfold base in *. unfold u32_max in *.
  rewrite u64_small by (unfold u64_max; lia). rewrite u32_small by (unfold u32_max; lia). lia.
Qed.
Lemma step_ok u attempts w w' :
  limits_ok u -> schedule_ok u w -> schedule_step u attempts w w' -> schedule_ok u w'.
Proof.
  unfold limits_ok, schedule_ok. intros Hl Hw Hs.
  destruct Hs as [->|Hb ?|a b ? [-> | ->] ? Hb|a ? [Hb|Hb] ?]; try (rewrite Hb); lia.
Qed.
Lemma drain_schedule n attempts w u l w' u' :
  limits_ok u -> schedule_ok u w ->
  drain json_parse dump n attempts w u = (l, w', u') -> schedule_step u attempts w w'.
Proof.
  revert attempts w u l w' u'; induction n as [|n IH]; intros [|a attempts] w u l w' u' Hl Hw; cbn [drain];
    try (intros [= <- <- <-]; by apply step_idle).
  destruct (stop_requested_ u); [intros [= <- <- <-]; by apply step_idle|].
  destruct (deliver_one json_parse dump a u) as [d u1] eqn:Ed.
  apply deliver_one_spec in Ed as (Hlim & _ & _). apply limits_eq in Hlim as [Hb Hc].
  assert (Hin : a ∈ a :: attempts) by set_solver.
  assert (Hl1 : limits_ok u1) by (unfold limits_ok; by rewrite Hb, Hc).
  destruct (outcome d) as [r|e].
  2: { intros [= <- <- <-]. eapply step_exception; [exact Hin|by left|].
       unfold ceiling in Hc. simpl. by rewrite Hc. }
  destruct (r =? 0); [intros [= <- <- <-]; by apply step_idle|].
  destruct (r <? 0).
  { intros [= <- <- <-]. eapply step_failed; [exact Hin|by left|done|]. cbn [backoff].
    rewrite next_backoff_min, Hc; [done|done|]. rewrite Hb, Hc. exact Hw. }
  destruct (drain json_parse dump n attempts _ u1) as [[l1 w1] u2] eqn:Ed2. intros [= <- <- <-].
  apply IH in Ed2; [|done|unfold schedule_ok; cbn [backoff]; fold (base u1); destruct Hl1; lia].
  fold (base u1) in Ed2. rewrite Hb in Ed2.
  destruct Ed2 as [->|E1 E2|a' b Ha [E|E] E1 E2|a' Ha E1 E2]; cbn [backoff retry_at] in *;
    rewrite ?Hb, ?Hc in *.
  - by apply step_delivered.
  - by apply step_delivered.
  - eapply (step_failed _ _ _ _ a' b); [set_solver|by right|done|done].
  - eapply (step_failed _ _ _ _ a' b); [set_solver|by right|done|done].
  - eapply (step_exception _ _ _ _ a'); [set_solver| |done]. right. tauto.
Qed.

(** The retry schedule.  The back-off stays between its configured bounds; a
    failed delivery postpones the next attempt by the current back-off and
    doubles it up to the maximum; an exception postpones it by the maximum; a
    success resets the back-off and an empty journal leaves it; and before the
    postponed time nothing is sent at all. *)
Theorem pass_schedule (waited : list producer_call) (now : Z) (attempts : list attempt)
    (w w' : Schedule) (u u' : Uploader) (l : pass_log) :
  limits_ok u -> schedule_ok u w ->
  pass json_parse dump waited now attempts w u = (l, w', u') ->
  schedule_ok u' w' /\ schedule_step u attempts w w' /\
  (forall t, retry_at w = Some t -> now < t -> sent l = [] /\ w' = w).
Proof.
  intros Hl Hw Hp. apply pass_retains in Hp as Hr. destruct Hr as (Hlim & _ & _).
  apply limits_eq in Hlim as [Hb Hc].
  assert (Hstep : schedule_step u attempts w w' /\
    (forall t, retry_at w = Some t -> now < t -> sent l = [] /\ w' = w)).
  { revert Hp. unfold pass. set (u1 := set_wake false (produce_all waited u)).
    assert (Hlim1 : limits u1 = limits u) by exact (produce_all_limits waited u).
    apply limits_eq in Hlim1 as [Hb1 Hc1]. clearbody u1.
    destruct (stop_requested_ u1); [intros [= <- <- <-]; split; [by apply step_idle|done]|].
    destruct (match retry_at w with Some t => now <? t | None => false end) eqn:Et;
      [intros [= <- <- <-]; split; [by apply step_idle|done]|].
    intros Hd. apply drain_schedule in Hd;
      [|unfold limits_ok; by rewrite Hb1, Hc1|unfold schedule_ok; by rewrite Hb1, Hc1].
    split; [|intros t Ht Hlt; rewrite Ht in Et; lia].
    destruct Hd as [|E1 E2|a b Ha E E1 E2|a Ha E1 E2]; rewrite ?Hb1, ?Hc1 in *;
      [by apply step_idle|by apply step_delivered|by eapply step_failed|by eapply step_exception]. }
  destruct Hstep as [Hstep Hidle]. split; [|done].
  unfold schedule_ok. rewrite Hb, Hc. by eapply step_ok.
Qed.
End Delivery.

(** ** The durable journal satisfies the interface *)
Section Instance_.
Context (cng_sha256 : string -> string + list Z) (valid_utf8 : string -> bool).
Context (json_parse : string -> option json) (protect unprotect : string -> string -> result string).
Context (disk : JournalDb -> DiskReport) (config : JournalConfig).

Definition durable_journal : EvidenceJournal JState := {|
  j_append := append cng_sha256 valid_utf8 json_parse protect disk config;
  j_append_checkpointed :=
    append_checkpointed cng_sha256 valid_utf8 json_parse protect unprotect disk config;
  j_advance := Journal.advance_checkpoint cng_sha256 protect unprotect disk config;
  j_peek := peek cng_sha256 unprotect;
  j_acknowledge := acknowledge json_parse protect disk config;
  j_evidence s k := exists o, o ∈ observations (db s) /\ o_key o = k;
  j_key line := match digest cng_sha256 line with Ok k => Some k | Throw _ => None end
|}.
#[local] Existing Instance durable_journal.

Lemma answering_state {A} (f : A -> response) (m : M A) s : (answering f m s).2 = (m s).2.
Proof. unfold answering, mbind, M_bind. by destruct (m s) as [[|] ?]. Qed.
Lemma perform_evidence r s k :
  j_evidence s k -> ~ covers k r ->
  j_evidence (perform cng_sha256 valid_utf8 json_parse protect unprotect disk config r s).2 k.
Proof.
  intros (o & Ho & <-) Hc. exists o. split; [|done].
  destruct (perform cng_sha256 valid_utf8 json_parse protect unprotect disk config r s) as [[x|e] s'] eqn:E.
  - eapply perform_keeps_row; [exact E|done|by left].
  - simpl. erewrite perform_atomic; [exact Ho|exact E].
Qed.
Lemma peek_few n b s batch s' :
  peek cng_sha256 unprotect n b s = (Ok (Some batch), s') -> zlen (entries batch) <= Z.max 0 n.
Proof.
  unfold peek. intros H. inv_step H. inv_step H. destruct (pending_rows (db s)) as [|hd rows]; [by inv_step H|].
  apply M_bind_Ok in H as (es & s1 & He & H). inv_step He.
  apply read_page_length in He. rewrite length_take in He.
  destruct es as [|e es]; [by inv_step H|]. inv_run H. injection H as ->. cbn [entries length] in *. unfold zlen. cbn [length]. lia.
Qed.
#[global] Instance durable_journal_laws : EvidenceJournalLaws JState.
Proof.
  constructor.
  - intros line s k He. pose proof (perform_evidence (Append line) s k He) as Hp.
    cbn [perform] in Hp. rewrite answering_state in Hp. by apply Hp; first [exact Hn | intros []].
  - intros line s s' E. apply append_run in E as (k & Hk & Hi & _). exists k.
    cbn [j_key durable_journal]. rewrite Hk. split; [done|].
    apply insert_marks in Hi as [Hh _]. unfold has_observation in Hh.
    apply existsb_exists in Hh as (o & Ho & Ek). exists o.
    split; [by apply list_elem_of_In|by apply String.eqb_eq].
  - intros line src cp e s k He.
    pose proof (perform_evidence (AppendCheckpointed line src cp e) s k He) as Hp.
    cbn [perform] in Hp. rewrite answering_state in Hp. by apply Hp; first [exact Hn | intros []].
  - intros src cp e s k He.
    pose proof (perform_evidence (Journal.AdvanceCheckpoint src cp e) s k He) as Hp.
    cbn [perform] in Hp. rewrite answering_state in Hp. by apply Hp; first [exact Hn | intros []].
  - intros n b s k He. pose proof (perform_evidence (Peek n b) s k He) as Hp.
    cbn [perform] in Hp. rewrite answering_state in Hp. by apply Hp; first [exact Hn | intros []].
  - intros n b s batch s' E. cbn [j_peek durable_journal] in E. eapply peek_few; exact E.
  - intros b r s k He Hn. pose proof (perform_evidence (Acknowledge b r) s k He) as Hp.
    cbn [perform] in Hp. rewrite answering_state in Hp. by apply Hp; first [exact Hn | intros []].
  - intros b r s e s' k E (o & Ho & <-). exists o. split; [|done].
    assert (perform cng_sha256 valid_utf8 json_parse protect unprotect disk config (Acknowledge b r) s
      = (Throw e, s')) as E'.
    { cbn [perform]. unfold answering, mbind, M_bind. cbn [j_acknowledge durable_journal] in E.
      by rewrite E. }
    by rewrite (perform_atomic _ _ _ _ _ _ _ _ _ _ _ E').
Qed.
End Instance_.
