(* ===== verification/UploaderRuns.v ===== *)
(** * A concrete delivery

    One observation: a lost connection, a turn before the retry time, and a
    delivery that the Manager acknowledges. *)

From S2P Require Import Prelude Telemetry Identity Json ProcessGraph Journal JournalFacts JournalSpec JournalRuns Uploader UploaderFacts.

Definition one_line : JState := (append toy_sha toy_utf8 no_parse toy_cipher toy_disk toy_config "a" start).2.
Definition single_batch : JournalBatch :=
  match (peek toy_sha toy_cipher 10 1000 one_line).1 with
  | Ok (Some b) => b
  | _ => {| batch_id := ""; batch_protocol := 1; entries := [] |}
  end.
Definition manager_receipt : json :=
  object [("batch_id", JStr (batch_id single_batch)); ("received", JUint 1); ("accepted", JUint 1);
          ("duplicates", JUint 0); ("rejected", JArr [])].
Definition manager_parse (t : string) : option json :=
  if String.eqb t "receipt" then Some manager_receipt else None.
Definition plain_dump (_ : json) : result string := Ok "{}".
Definition delivery_config : DeliveryConfig := {|
  manager_url := "https://manager"; verify_tls := true; batch_max_events := 10;
  flush_interval_ms := 5000; spool_directory := "spool"; spool_max_segment_bytes := 8388608;
  spool_max_total_bytes := 17179869184; spool_max_delivery_attempts := 0;
  spool_base_backoff_ms := 1000; spool_max_backoff_ms := 60000; request_timeout_ms := 5000;
  bearer_token := "token" |}.
#[local] Instance toy_journal : EvidenceJournal JState :=
  durable_journal toy_sha toy_utf8 manager_parse toy_cipher toy_cipher toy_disk toy_config.
#[local] Instance toy_journal_laws : EvidenceJournalLaws JState :=
  durable_journal_laws toy_sha toy_utf8 manager_parse toy_cipher toy_cipher toy_disk toy_config.

Definition idle_uploader : Uploader := {|
  config_ := delivery_config; agent_id_ := "agent-1"; journal_ := start; health_ := initial_health;
  capture_scope_ := JNull; wake_ := false; stop_requested_ := false |}.
Definition meets (records : reply) (at_ : Z) : attempt := {|
  challenge_reply := inl "unused"; records_reply := records; tick_count := 0; finished_at := at_;
  after_peek := []; during_challenge := []; during_post := [] |}.
Definition turns : list (list producer_call * Z * list attempt) :=
  [([], 0, [meets (inl "connection refused") 10]);
   ([], 500, [meets (inl "not reached") 510]);
   ([], 2000, [meets (inr {| status_code := 200; response_body := "receipt" |}) 2010])].

Lemma accepted_until_acknowledged_witness :
  (** the observation was acknowledged in the third turn, and is gone *)
  observations (db (journal_ (run manager_parse plain_dump turns
    (initial_schedule delivery_config) (enqueue "a" idle_uploader).2).2)) = [] /\
  exists k, j_key "a" = Some k /\
    (evidence (run manager_parse plain_dump turns (initial_schedule delivery_config)
        (enqueue "a" idle_uploader).2).2 k \/
     exists b r p resp,
       (b, r) ∈ retired (run manager_parse plain_dump turns (initial_schedule delivery_config)
                   (enqueue "a" idle_uploader).2).1.1 /\ k ∈ batch_keys b /\
       p ∈ sent (run manager_parse plain_dump turns (initial_schedule delivery_config)
                   (enqueue "a" idle_uploader).2).1.1 /\ post_body p = ndjson b /\
       inr resp ∈ run_replies turns /\ status_code resp = 200 /\ response_body resp = r).
Proof.
  split; [vm_compute; reflexivity|].
  eapply (accepted_until_acknowledged manager_parse plain_dump "a" idle_uploader
    (enqueue "a" idle_uploader).2 _ (initial_schedule delivery_config)); vm_compute; reflexivity.
Defined.
Definition first_failure : pass_log * Schedule * Uploader :=
  pass manager_parse plain_dump [] 0 [meets (inl "connection refused") 10]
    (initial_schedule delivery_config) (enqueue "a" idle_uploader).2.
Lemma pass_schedule_witness :
  (** the first failure waits one second and doubles the back-off *)
  first_failure.1.2 = {| backoff := 2000; retry_at := Some 1010 |} /\
  schedule_ok first_failure.2 first_failure.1.2 /\
  schedule_step (enqueue "a" idle_uploader).2 [meets (inl "connection refused") 10]
    (initial_schedule delivery_config) first_failure.1.2 /\
  (forall t, retry_at (initial_schedule delivery_config) = Some t -> 0 < t ->
     sent first_failure.1.1 = [] /\ first_failure.1.2 = initial_schedule delivery_config).
Proof.
  split; [vm_compute; reflexivity|].
  apply (pass_schedule manager_parse plain_dump [] 0 [meets (inl "connection refused") 10]
    (initial_schedule delivery_config) first_failure.1.2 (enqueue "a" idle_uploader).2
    first_failure.2 first_failure.1.1).
  - unfold limits_ok. vm_compute. repeat split; discriminate.
  - unfold schedule_ok. vm_compute. split; discriminate.
  - vm_compute. reflexivity.
Defined.
