(* ===== verification/Calendar.v ===== *)
(** * UTC calendar text

    [gmtime_s] of the C library as it is documented - the broken-down UTC time
    of a second count between 1970-01-01 and 3000-12-31, an error outside - and
    [format_utc_timestamp] ([pipeline/normalizer.cpp]), the text of every
    timestamp the agent writes, with its inverse, the parser of [Command]. *)

From S2P Require Import Prelude Telemetry Ledger Json Command CommandFacts.

(** ** gmtime_s *)
Record tm := {
  tm_year : Z;  (* years since 1900 *)
  tm_mon : Z;   (* months since January *)
  tm_mday : Z; tm_hour : Z; tm_min : Z; tm_sec : Z }.
Definition year_days (y : Z) : Z := 365 + (if leap_year y then 1 else 0).
Fixpoint year_of (fuel : nat) (y days : Z) : Z * Z :=
  match fuel with
  | O => (y, days)
  | S f => if days <? year_days y then (y, days) else year_of f (y + 1) (days - year_days y)
  end.
Fixpoint month_of (fuel : nat) (y m days : Z) : Z * Z :=
  match fuel with
  | O => (m, days)
  | S f => if days <? max_day y m then (m, days) else month_of f y (m + 1) (days - max_day y m)
  end.
(** 3000-12-31T23:59:59 *)
Definition max_time : Z := 32535215999.
Definition gmtime_s (t : Z) : option tm :=
  if (t <? 0) || (max_time <? t) then None
  else
    let '(y, day) := year_of 1031 1970 (t / 86400) in
    let '(m, day) := month_of 12 y 1 day in
    let s := t mod 86400 in
    Some {| tm_year := y - 1900; tm_mon := m - 1; tm_mday := day + 1;
            tm_hour := s / 3600; tm_min := s mod 3600 / 60; tm_sec := s mod 60 |}.

(** ** The text of a timestamp *)
(** [%0wd] *)
Definition printf_0d (width : nat) (v : Z) : string :=
  let pad w s := zeros (w - String.length s) +:+ s in
  if v <? 0 then String "-" (pad (width - 1)%nat (udec (- v))) else pad width (udec v).
Definition format_utc_timestamp (timestamp : UtcTimestamp) : string :=
  let whole_seconds := timestamp / 1000000000 in
  let milliseconds := (timestamp - whole_seconds * 1000000000) / 1000000 in
  match gmtime_s whole_seconds with
  | None => ""
  | Some utc =>
      let buffer := printf_0d 4 (tm_year utc + 1900) +:+ "-" +:+ printf_0d 2 (tm_mon utc + 1) +:+ "-"
        +:+ printf_0d 2 (tm_mday utc) +:+ "T" +:+ printf_0d 2 (tm_hour utc) +:+ ":"
        +:+ printf_0d 2 (tm_min utc) +:+ ":" +:+ printf_0d 2 (tm_sec utc) +:+ "."
        +:+ printf_0d 3 milliseconds +:+ "Z" in
      if (0 <? slen buffer) && (slen buffer <? 32) then buffer else ""
  end.

(** ** Correctness of the calendar *)
Lemma days_before_year_next y : 0 <= y ->
  days_before_year (Z.to_nat (y + 1)) = days_before_year (Z.to_nat y) + year_days y.
Proof.
  intros Hy. rewrite Z2Nat.inj_add by lia. change (Z.to_nat 1) with 1%nat. rewrite Nat.add_1_r.
  cbn [days_before_year]. rewrite Z2Nat.id by lia. unfold year_days. lia.
Qed.
Lemma year_days_pos y : 365 <= year_days y.
Proof. unfold year_days. destruct (leap_year y); lia. Qed.
Lemma year_of_spec f y days y' days' :
  0 <= y -> 0 <= days ->
  days < days_before_year (Z.to_nat (y + Z.of_nat f)) - days_before_year (Z.to_nat y) ->
  year_of f y days = (y', days') ->
  y <= y' <= y + Z.of_nat f /\ 0 <= days' < year_days y' /\
  days_before_year (Z.to_nat y) + days = days_before_year (Z.to_nat y') + days'.
Proof.
  revert y days; induction f as [|f IH]; intros y days Hy Hd Hlt E.
  { rewrite Z.add_0_r in Hlt. lia. }
  simpl in E. destruct (Z.ltb_spec days (year_days y)).
  - injection E as <- <-. lia.
  - pose proof (days_before_year_next y Hy). apply IH in E; [|lia|lia|].
    + destruct E as (? & ? & ?). split; [lia|]. split; [done|]. lia.
    + replace (y + 1 + Z.of_nat f) with (y + Z.of_nat (S f)) by lia. lia.
Qed.
Lemma days_before_month_next y m : 0 <= m ->
  days_before_month y (Z.to_nat (m + 1)) = days_before_month y (Z.to_nat m) + max_day y (m + 1).
Proof.
  intros Hm. rewrite Z2Nat.inj_add by lia. change (Z.to_nat 1) with 1%nat. rewrite Nat.add_1_r.
  cbn [days_before_month]. do 2 f_equal. lia.
Qed.
Lemma month_of_spec f y m days m' days' :
  1 <= m -> 0 <= days ->
  days < days_before_month y (Z.to_nat (m - 1 + Z.of_nat f)) - days_before_month y (Z.to_nat (m - 1)) ->
  month_of f y m days = (m', days') ->
  m <= m' < m + Z.of_nat f /\ 0 <= days' < max_day y m' /\
  days_before_month y (Z.to_nat (m - 1)) + days = days_before_month y (Z.to_nat (m' - 1)) + days'.
Proof.
  revert m days; induction f as [|f IH]; intros m days Hm Hd Hlt E.
  { rewrite Z.add_0_r in Hlt. lia. }
  simpl in E. destruct (Z.ltb_spec days (max_day y m)).
  - injection E as <- <-. lia.
  - pose proof (days_before_month_next y (m - 1) ltac:(lia)) as N.
    replace (m - 1 + 1) with m in N by lia. apply IH in E; [|lia|lia|].
    + replace (m + 1 - 1) with m in E by lia. destruct E as (? & ? & ?). split; [lia|]. split; [done|]. lia.
    + replace (m + 1 - 1 + Z.of_nat f) with (m - 1 + Z.of_nat (S f)) by lia.
      replace (m + 1 - 1) with m by lia. lia.
Qed.
Lemma days_of_year y : days_before_month y 12 = year_days y.
Proof. unfold year_days, max_day. simpl. unfold max_day. simpl. destruct (leap_year y); reflexivity. Qed.

Lemma gmtime_spec t u : gmtime_s t = Some u ->
  0 <= t <= max_time /\ 1970 <= tm_year u + 1900 <= 3001 /\
  valid_date (tm_year u + 1900) (tm_mon u + 1) (tm_mday u) /\
  valid_time (tm_hour u) (tm_min u) (tm_sec u) /\
  epoch_seconds (tm_year u + 1900) (tm_mon u + 1) (tm_mday u) (tm_hour u) (tm_min u) (tm_sec u) = t.
Proof.
  unfold gmtime_s. destruct (_ || _) eqn:B; [done|].
  destruct (year_of 1031 1970 (t / 86400)) as [y yd] eqn:Ey.
  destruct (month_of 12 y 1 yd) as [m md] eqn:Em. intros [= <-].
  cbn [tm_year tm_mon tm_mday tm_hour tm_min tm_sec].
  assert (Ht : 0 <= t <= max_time) by lia. clear B. unfold max_time in Ht.
  apply year_of_spec in Ey as (Hy & Hyd & HY); [|lia|Z.to_euclidean_division_equations; lia|].
  2:{ rewrite !days_before_year_closed. change (Z.of_nat (Z.to_nat (1970 + Z.of_nat 1031))) with 3001.
      change (Z.of_nat (Z.to_nat 1970)) with 1970. Z.to_euclidean_division_equations; lia. }
  apply month_of_spec in Em as (Hm & Hmd & HM); [|lia|lia|].
  2:{ change (Z.to_nat (1 - 1 + Z.of_nat 12)) with 12%nat. rewrite days_of_year. simpl. lia. }
  change (Z.to_nat (1 - 1)) with 0%nat in HM. cbn [days_before_month] in HM.
  replace (y - 1900 + 1900) with y by lia. replace (m - 1 + 1) with m by lia.
  split; [done|]. split; [lia|]. split; [split; lia|]. split.
  { unfold valid_time. Z.to_euclidean_division_equations; lia. }
  unfold epoch_seconds, civil_days. change (Z.to_nat 1970) with 1970%nat in HY.
  replace (days_before_year (Z.to_nat y) - days_before_year 1970 + days_before_month y (Z.to_nat (m - 1))
    + (md + 1) - 1) with (t / 86400) by lia.
  Z.to_euclidean_division_equations; lia.
Qed.
Lemma gmtime_defined t : 0 <= t <= max_time -> exists u, gmtime_s t = Some u.
Proof.
  intros Ht. unfold gmtime_s. destruct (_ || _) eqn:B; [lia|].
  destruct (year_of _ _ _), (month_of _ _ _ _). eauto.
Qed.

(** ** The text, and reading it back *)
Lemma printf_two v : 0 <= v < 100 -> printf_0d 2 v = two v "".
Proof.
  intros Hv. apply String.eqb_eq. revert v Hv.
  intros v. apply (below_forallb (fun v => String.eqb (printf_0d 2 v) (two v "")) 100).
  vm_compute. reflexivity.
Qed.
Lemma printf_four v : 0 <= v < 3100 -> printf_0d 4 v = two (v / 100) (two (v mod 100) "").
Proof.
  intros Hv. apply String.eqb_eq. revert v Hv. intros v.
  apply (below_forallb (fun v => String.eqb (printf_0d 4 v) (two (v / 100) (two (v mod 100) ""))) 3100).
  vm_compute. reflexivity.
Qed.
Lemma printf_three v : 0 <= v < 1000 -> slen (printf_0d 3 v) = 3 /\ dec_value (printf_0d 3 v) 0 = Some v.
Proof.
  intros Hv.
  pose proof (below_forallb (fun v => (slen (printf_0d 3 v) =? 3)
    && bool_decide (dec_value (printf_0d 3 v) 0 = Some v)) 1000 v) as H.
  apply andb_true_iff in H as [H1 H2]; [|vm_compute; reflexivity|done].
  split; [by apply Z.eqb_eq|by apply bool_decide_eq_true in H2].
Qed.
Lemma two_app n r s : two n r +:+ s = two n (r +:+ s).
Proof. done. Qed.

Definition milliseconds (timestamp : Z) : Z := timestamp mod 1000000000 / 1000000.
Lemma format_text ts u : gmtime_s (ts / 1000000000) = Some u ->
  format_utc_timestamp ts =
    utc_text (tm_year u + 1900) (tm_mon u + 1) (tm_mday u) (tm_hour u) (tm_min u) (tm_sec u)
      (String "." (printf_0d 3 (milliseconds ts)) +:+ "Z").
Proof.
  intros Hg. pose proof (gmtime_spec _ _ Hg) as (Ht & Hyear & (Hy & Hm & Hd) & (Hh & Hi & Hs) & He).
  pose proof (max_day_31 (tm_year u + 1900) (tm_mon u + 1)).
  unfold format_utc_timestamp. rewrite Hg.
  replace ((ts - ts / 1000000000 * 1000000000) / 1000000) with (milliseconds ts)
    by (unfold milliseconds; f_equal; Z.to_euclidean_division_equations; lia).
  assert (Hms : 0 <= milliseconds ts < 1000) by (unfold milliseconds; Z.to_euclidean_division_equations; lia).
  rewrite printf_four, !printf_two by lia. rewrite !two_app. cbn [String.append].
  change (two ((tm_year u + 1900) / 100) _) with
    (utc_text (tm_year u + 1900) (tm_mon u + 1) (tm_mday u) (tm_hour u) (tm_min u) (tm_sec u)
      (String "." (printf_0d 3 (milliseconds ts)) +:+ "Z")).
  set (b := utc_text _ _ _ _ _ _ _).
  assert (Hl : slen b = 24).
  { subst b. unfold utc_text, two. rewrite !slen_cons, slen_app. cbn [String.append].
    rewrite slen_cons, (proj1 (printf_three _ Hms)). reflexivity. }
  rewrite Hl. reflexivity.
Qed.

(** Timestamps survive.  Every time from 1970 to 3000 is formatted, as a text that
    the agent's own parser reads back as the same second and the same
    millisecond; any other time is refused with the empty text. *)
Theorem timestamp_roundtrip (timestamp : UtcTimestamp) :
  if bool_decide (0 <= timestamp / 1000000000 <= max_time)
  then parse_utc_timestamp (format_utc_timestamp timestamp)
         = Some (timestamp / 1000000000, milliseconds timestamp * 1000000)
  else format_utc_timestamp timestamp = "".
Proof.
  destruct (bool_decide_reflect (0 <= timestamp / 1000000000 <= max_time)) as [Ht|Ht].
  - destruct (gmtime_defined _ Ht) as [u Hu]. rewrite (format_text _ _ Hu).
    destruct (gmtime_spec _ _ Hu) as (_ & _ & Hd & Hm & <-).
    apply parse_text; [by left|done|done|]. right. eexists _, (milliseconds timestamp).
    assert (Hms : 0 <= milliseconds timestamp < 1000)
      by (unfold milliseconds; Z.to_euclidean_division_equations; lia).
    destruct (printf_three _ Hms) as [Hl Hv]. rewrite Hl. split; [done|]. split; [lia|]. done.
  - unfold format_utc_timestamp, gmtime_s. destruct (_ || _) eqn:B; [done|]. lia.
Qed.
Example format_sample : format_utc_timestamp 1704164645678901234 = "2024-01-02T03:04:05.678Z".
Proof. vm_compute. reflexivity. Qed.
