(* ===== verification/Enrollment.v ===== *)
(** * Enrolled identity, native boot identity and the process snapshot

    The identity file of [response/identity.cpp], the boot identifier and the
    snapshot of [core/process_instance.cpp].  A file is its text, as the text
    mode of the runtime shows it: a byte 26 ends what can be read.  The outcome
    of each file-system call is an argument. *)

From S2P Require Import Prelude Telemetry Identity Json ProcessGraph Ledger Calendar.

(** ** The identity file *)
Record EnrolledIdentity := { agent_id : string; enrolled_host_id : string; bearer_token : string }.
Definition end_of_text : ascii := ascii_of_N 26.
(** the text that reading sees *)
Fixpoint readable_text (s : string) : string :=
  match s with
  | "" => ""
  | String c r => if Ascii.eqb c end_of_text then "" else String c (readable_text r)
  end.
Definition token_ok (t : string) : bool := negb (str_empty t) && (slen t <=? 512).
Definition identity_ok (i : EnrolledIdentity) : bool :=
  is_valid_identifier (agent_id i) && is_valid_identifier (enrolled_host_id i) && token_ok (bearer_token i).
(** [file]: the text of the identity file, [None] when it cannot be opened *)
Definition load_enrolled_identity (file : option string) : string + EnrolledIdentity :=
  let refusal := inl "enrolled identity is absent or invalid" in
  match file with
  | None => refusal
  | Some text =>
      match lines (readable_text text) with
      | a :: h :: t :: _ =>
          let i := {| agent_id := a; enrolled_host_id := h; bearer_token := t |} in
          if identity_ok i then inr i else refusal
      | _ => refusal
      end
  end.
Definition break : string := String newline "".
Definition identity_text (i : EnrolledIdentity) : string :=
  agent_id i +:+ break +:+ enrolled_host_id i +:+ break +:+ bearer_token i +:+ break.
(** the calls of [store_enrolled_identity], up to the first that fails *)
Inductive store_outcome := DirectoryRefused | OpenRefused | FlushRefused | RenameRefused | Published.
(** the identity file afterwards, and the answer: whether it was stored, and the message *)
Definition store_enrolled_identity (i : EnrolledIdentity) (io : store_outcome) (acl_error : option string)
    (file : option string) : (bool * string) * option string :=
  if negb (identity_ok i) then ((false, "enrolled identity is invalid"), file)
  else match io with
  | DirectoryRefused => ((false, "cannot create identity directory"), file)
  | OpenRefused => ((false, "cannot write enrolled identity"), file)
  | FlushRefused => ((false, "cannot persist enrolled identity"), file)
  | RenameRefused => ((false, "cannot publish enrolled identity"), file)
  | Published => ((true, default "" acl_error), Some (identity_text i))
  end.

Lemma readable_app a b : str_contains end_of_text a = false -> readable_text (a +:+ b) = a +:+ readable_text b.
Proof.
  induction a as [|c a IH]; [done|]. cbn [str_contains String.append readable_text]. intros [Hc H]%orb_false_iff.
  rewrite IH by done. destruct (Ascii.eqb_spec c end_of_text) as [->|]; [by rewrite Ascii.eqb_refl in Hc|done].
Qed.
Lemma identifier_chars s c : is_valid_identifier s = true -> is_identifier_char c = false -> str_contains c s = false.
Proof.
  unfold is_valid_identifier. intros [_ H]%andb_true_iff Hc. induction s as [|d s IH]; [done|].
  cbn [str_forallb str_contains] in *. apply andb_true_iff in H as [Hd H]. rewrite IH, orb_false_r by done.
  destruct (Ascii.eqb_spec c d) as [->|]; [congruence|done].
Qed.
(** An identity whose token has no line break is read back exactly as stored,
    and a store that does not report success leaves the old file. *)
Theorem enrolled_identity_roundtrip (i : EnrolledIdentity) (io : store_outcome) (acl_error file : option string) :
  str_contains newline (bearer_token i) = false -> str_contains end_of_text (bearer_token i) = false ->
  let '((stored, _), file') := store_enrolled_identity i io acl_error file in
  if stored then load_enrolled_identity file' = inr i else file' = file.
Proof.
  intros Hn He. unfold store_enrolled_identity. destruct (identity_ok i) eqn:Hok; [|done]. cbn [negb].
  destruct io; try done. unfold load_enrolled_identity, identity_text, break.
  pose proof Hok as Hok'. unfold identity_ok in Hok'. apply andb_true_iff in Hok' as [[Ha Hh]%andb_true_iff _].
  assert (Hr : readable_text (agent_id i +:+ String newline "" +:+ enrolled_host_id i +:+ String newline ""
    +:+ bearer_token i +:+ String newline "") = agent_id i +:+ String newline (enrolled_host_id i
    +:+ String newline (bearer_token i +:+ String newline ""))).
  { rewrite readable_app by by apply identifier_chars. cbn [String.append readable_text].
    change (Ascii.eqb newline end_of_text) with false. cbv iota.
    rewrite readable_app by by apply identifier_chars. cbn [String.append readable_text].
    change (Ascii.eqb newline end_of_text) with false. cbv iota. by rewrite readable_app. }
  rewrite Hr. unfold lines. rewrite !split_lines_line by (done || by apply identifier_chars). cbn [String.append split_lines].
  replace {| agent_id := _ |} with i by by destruct i. by rewrite Hok.
Qed.
(** a token with a line break is stored and comes back shorter *)
Example token_cut_at_line_break :
  let i := {| agent_id := "a"; enrolled_host_id := "h"; bearer_token := "secret" +:+ break +:+ "tail" |} in
  let '((stored, _), file) := store_enrolled_identity i Published None None in
  stored = true /\ load_enrolled_identity file = inr {| agent_id := "a"; enrolled_host_id := "h"; bearer_token := "secret" |}.
Proof. by vm_compute. Qed.

(** ** The native boot identifier *)
(** what the internal query answered: its status, the length it reports and the
    16 bytes of the GUID *)
Record BootQuery := { query_status : Z; query_length : Z; boot_guid : string }.
Definition zero_guid : string := String.string_of_list_ascii (replicate 16 zero).
Definition query_native_boot_id (cng_sha256 : string -> string + list Z) (query : option BootQuery) : string + string :=
  match query with
  | None => inl "native boot identity query unavailable"
  | Some q =>
      if (query_status q <? 0) || (query_length q <? 24) || (32 <? query_length q) || String.eqb (boot_guid q) zero_guid
      then inl "native boot identity query failed or returned an unsupported layout"
      else match sha256_hex cng_sha256 (boot_guid q) with
           | inl error => inl error
           | inr hash => inr ("boot_" +:+ hash)
           end
  end.

(** ** The snapshot of the process store *)
Definition instance_json (i : Instance_) : json :=
  set_member "terminated_at" (opt_json (fun t => JStr (format_utc_timestamp t)) (terminated_at i))
    (reference_json (reference i)).
(** [snapshot]; the order of an [unordered_map] is not specified *)
Definition store_snapshot (st : ProcessInstanceStore) : json :=
  JArr (instance_json <$> (map_to_list (instances_ st)).*2).
Definition admission_failures (st : ProcessInstanceStore) : Z := admission_failures_ st.
