(* ===== verification/SourceGaps.v ===== *)
(** * Source supervision

    [health/source_supervisor.cpp]: what changed between two status samples of a
    collector, and the bounded history of such gap reports that waits for the
    journal.  The queue's lemmas are shared with the transition buffer of
    [Freshness]. *)

From S2P Require Import Prelude Json.

(** ** Status samples *)
Record CollectorStatus := {
  running : bool; continuity_fault : bool; statistics_available : bool;
  decode_failures : Z; sink_failures : Z; subscription_errors : Z;
  events_lost : option Z; realtime_buffers_lost : option Z; log_buffers_lost : option Z;
  statistics_error : string
}.

Definition num (z : Z) : json := JStr (to_string z).
Definition decimal (v : option Z) : json := opt_json num v.
Definition plain_change (reason : string) : json :=
  object [("reason", JStr reason); ("count", JNull)].
(** the change of one counter between two samples, if any *)
Definition counter (name : string) (before after : option Z) (unit_ : string) (prior_sample : bool)
  : list json :=
  match before, after with
  | Some b, None =>
      [object [("counter", JStr name); ("unit", JStr unit_); ("previous", num b);
               ("total", JNull); ("delta", JNull); ("reason", JStr "counter_sample_unavailable")]]
  | None, None => []
  | _, Some a =>
      if match before with Some b => b =? a | None => (a =? 0) && negb prior_sample end then []
      else
        let reset := match before with Some b => a <? b | None => false end in
        [object [("counter", JStr name); ("unit", JStr unit_); ("total", num a);
           ("previous", decimal before);
           ("delta", match before with Some b => if reset then JNull else num (a - b) | None => JNull end);
           ("reason", JStr (if reset then "counter_decreased_reset_or_wrap_unknown"
              else match before with
                   | Some _ => "counter_advanced"
                   | None => if prior_sample then "counter_sample_restored_history_unverified"
                             else "initial_total_interval_unknown"
                   end))]]
  end.
Definition source_status_json (s : CollectorStatus) : json :=
  object [("running", JBool (running s)); ("continuity_fault", JBool (continuity_fault s));
    ("continuity", JStr "unverified"); ("statistics_available", JBool (statistics_available s));
    ("decode_failures", num (decode_failures s)); ("sink_failures", num (sink_failures s));
    ("subscription_errors", num (subscription_errors s)); ("events_lost", decimal (events_lost s));
    ("realtime_buffers_lost", decimal (realtime_buffers_lost s));
    ("log_buffers_lost", decimal (log_buffers_lost s)); ("statistics_error", JStr (statistics_error s))].

Definition flag_change (before after : bool) (on off : string) : list json :=
  if Bool.eqb before after then [] else [plain_change (if after then on else off)].
Definition status_changes (before : option CollectorStatus) (a : CollectorStatus) : list json :=
  let prior := bool_decide (before <> None) in
  let old {A} (f : CollectorStatus -> A) := f <$> before in
  match before with
  | None => [plain_change "startup_continuity_unknown"]
  | Some b =>
      flag_change (running b) (running a) "consumer_resumed_continuity_unverified" "consumer_stopped"
      ++ flag_change (statistics_available b) (statistics_available a)
           "source_statistics_restored_history_unverified" "source_statistics_unavailable"
      ++ flag_change (continuity_fault b) (continuity_fault a) "continuity_fault_observed"
           "continuity_fault_cleared_history_unverified"
  end
  ++ counter "decode_failures" (old decode_failures) (Some (decode_failures a)) "events" false
  ++ counter "sink_failures" (old sink_failures) (Some (sink_failures a)) "events" false
  ++ counter "subscription_errors" (old subscription_errors) (Some (subscription_errors a))
       "notifications" false
  ++ counter "events_lost" (before ≫= events_lost) (events_lost a) "events" prior
  ++ counter "realtime_buffers_lost" (before ≫= realtime_buffers_lost) (realtime_buffers_lost a)
       "buffers" prior
  ++ counter "log_buffers_lost" (before ≫= log_buffers_lost) (log_buffers_lost a) "buffers" prior.
Definition source_gap_since (before : option CollectorStatus) (after : CollectorStatus) : option json :=
  match status_changes before after with
  | [] => None
  | changes =>
      Some (object [("changes", JArr changes); ("source_status", source_status_json after);
        ("interval", JStr "between_supervisor_samples_or_unknown"); ("source_event_range", JNull);
        ("reconciliation", JStr "pending")])
  end.

(** ** The bounded queue of reports *)
Record Report := { data : json; bytes : Z }.
Record Queue := {
  reports_ : list Report; report_limit_ : Z; byte_limit_ : Z; bytes_ : Z;
  acknowledged_ : Z; omitted_total_ : Z; omitted_pending_ : Z; first_omitted_ : Z; last_omitted_ : Z
}.
Definition new_queue (reports bytes : Z) (refusal : string) : result Queue :=
  _ ← throw_if ((reports =? 0) || (1024 <? reports) || (bytes <? 2048) || (1024 * 1024 <? bytes))
        (invalid_argument refusal);
  Ok {| reports_ := []; report_limit_ := reports; byte_limit_ := bytes; bytes_ := 0;
        acknowledged_ := 0; omitted_total_ := 0; omitted_pending_ := 0; first_omitted_ := 0;
        last_omitted_ := 0 |}.

Section Queue.
(** [dump()]: throws on strings that are not UTF-8 *)
Context (dump : json -> result string).
(** the summary of omitted reports: their number, first and last sample time *)
Context (summary : Z -> Z -> Z -> json).

(** whether the report was queued; an exception of [dump] leaves the queue *)
Definition append (report : json) (q : Queue) : result bool * Queue :=
  match dump report with
  | Throw e => (Throw e, q)
  | Ok text =>
      if (report_limit_ q <=? zlen (reports_ q)) || (byte_limit_ q - bytes_ q <? slen text)
      then (Ok false, q)
      else (Ok true,
            {| reports_ := reports_ q ++ [{| data := report; bytes := slen text |}];
               report_limit_ := report_limit_ q; byte_limit_ := byte_limit_ q;
               bytes_ := bytes_ q + slen text; acknowledged_ := acknowledged_ q;
               omitted_total_ := omitted_total_ q; omitted_pending_ := omitted_pending_ q;
               first_omitted_ := first_omitted_ q; last_omitted_ := last_omitted_ q |})
  end.
Definition flush_omissions (q : Queue) : result unit * Queue :=
  if omitted_pending_ q =? 0 then (Ok tt, q)
  else match append (summary (omitted_pending_ q) (first_omitted_ q) (last_omitted_ q)) q with
       | (Throw e, q) => (Throw e, q)
       | (Ok false, q) => (Ok tt, q)
       | (Ok true, q) =>
           (Ok tt, {| reports_ := reports_ q; report_limit_ := report_limit_ q;
                      byte_limit_ := byte_limit_ q; bytes_ := bytes_ q;
                      acknowledged_ := acknowledged_ q; omitted_total_ := omitted_total_ q;
                      omitted_pending_ := 0; first_omitted_ := first_omitted_ q;
                      last_omitted_ := last_omitted_ q |})
       end.
Definition omit (uptime : Z) (q : Queue) : Queue :=
  {| reports_ := reports_ q; report_limit_ := report_limit_ q; byte_limit_ := byte_limit_ q;
     bytes_ := bytes_ q; acknowledged_ := acknowledged_ q;
     omitted_total_ := u64 (omitted_total_ q + 1); omitted_pending_ := u64 (omitted_pending_ q + 1);
     first_omitted_ := if omitted_pending_ q =? 0 then uptime else first_omitted_ q;
     last_omitted_ := uptime |}.
(** queue a report, or count it as omitted; nothing is queued behind omissions *)
Definition report (j : json) (uptime : Z) (q : Queue) : result unit * Queue :=
  if negb (omitted_pending_ q =? 0) then (Ok tt, omit uptime q)
  else match append j q with
       | (Throw e, q) => (Throw e, q)
       | (Ok true, q) => (Ok tt, q)
       | (Ok false, q) => (Ok tt, omit uptime q)
       end.
Definition acknowledge_front (refusal : string) (q : Queue) : result unit * Queue :=
  match reports_ q with
  | [] => (Throw (logic_error refusal), q)
  | r :: rs =>
      flush_omissions
        {| reports_ := rs; report_limit_ := report_limit_ q; byte_limit_ := byte_limit_ q;
           bytes_ := bytes_ q - bytes r; acknowledged_ := u64 (acknowledged_ q + 1);
           omitted_total_ := omitted_total_ q; omitted_pending_ := omitted_pending_ q;
           first_omitted_ := first_omitted_ q; last_omitted_ := last_omitted_ q |}
  end.
End Queue.

(** the counters both snapshots report *)
Definition queue_snapshot (q : Queue) : list (string * json) :=
  [("state", JStr "degraded"); ("queued_reports", num (zlen (reports_ q)));
   ("encoded_gap_bytes", num (bytes_ q)); ("report_limit", num (report_limit_ q));
   ("byte_limit", num (byte_limit_ q)); ("acknowledged_reports", num (acknowledged_ q));
   ("omitted_reports_total", num (omitted_total_ q));
   ("omitted_reports_pending_summary", num (omitted_pending_ q))].

(** ** The collector's buffer *)
Record SourceGapBuffer := {
  queue_ : Queue; observed_ : option CollectorStatus; observed_uptime_ : option Z
}.
Definition new_source_buffer (reports bytes : Z) : result SourceGapBuffer :=
  q ← new_queue reports bytes "source history limits invalid";
  Ok {| queue_ := q; observed_ := None; observed_uptime_ := None |}.
Definition source_summary (pending first last : Z) : json :=
  object [("changes", JArr [object [
             ("reason", JStr "supervisor_history_bound"); ("count", JNull);
             ("omitted_gap_reports", num pending); ("first_omitted_sample_uptime_ms", num first);
             ("last_omitted_sample_uptime_ms", num last);
             ("scope", JStr "observed reports omitted from volatile supervision history; not native events or buffers")]]);
          ("source_status", JNull); ("source_event_range", JNull);
          ("interval", JStr "bounded_supervisor_history_omitted"); ("reconciliation", JStr "pending")].
(** the gap of a sample as it is reported *)
Definition sampled_gap (b : SourceGapBuffer) (current : CollectorStatus) (uptime : Z) : option json :=
  gap ← source_gap_since (observed_ b) current;
  Some (set_member "sample_uptime_ms" (num uptime)
          (set_member "previous_sample_uptime_ms" (decimal (observed_uptime_ b)) gap)).

Section SourceBuffer.
Context (dump : json -> result string).
Definition observe (current : CollectorStatus) (uptime : Z) (b : SourceGapBuffer)
  : result bool * SourceGapBuffer :=
  let keep q := {| queue_ := q; observed_ := observed_ b; observed_uptime_ := observed_uptime_ b |} in
  let advance q := {| queue_ := q; observed_ := Some current; observed_uptime_ := Some uptime |} in
  match flush_omissions dump source_summary (queue_ b) with
  | (Throw e, q) => (Throw e, keep q)
  | (Ok _, q) =>
      match sampled_gap b current uptime with
      | None => (Ok false, advance q)
      | Some gap =>
          match report dump gap uptime q with
          | (Throw e, q) => (Throw e, keep q)
          | (Ok _, q) => (Ok true, advance q)
          end
      end
  end.
Definition source_acknowledge_front (b : SourceGapBuffer) : result unit * SourceGapBuffer :=
  let '(r, q) := acknowledge_front dump source_summary "no source gap to acknowledge" (queue_ b) in
  (r, {| queue_ := q; observed_ := observed_ b; observed_uptime_ := observed_uptime_ b |}).
End SourceBuffer.
Definition source_snapshot (b : SourceGapBuffer) : json :=
  object (queue_snapshot (queue_ b)
    ++ [("last_observed_sample_uptime_ms", decimal (observed_uptime_ b));
        ("scope", JStr "volatile sampled source-gap history; encoded data bound excludes JSON/allocator/temporary/canonical record memory; counters reset on restart; abrupt-exit loss unknown")]).
Definition source_pending (b : SourceGapBuffer) : bool :=
  negb (bool_decide (reports_ (queue_ b) = [])) || negb (omitted_pending_ (queue_ b) =? 0).

(** ** What a gap is *)
(** the measurements two samples are compared by *)
Definition measured (s : CollectorStatus) :=
  (running s, continuity_fault s, statistics_available s,
   (decode_failures s, sink_failures s, subscription_errors s),
   (events_lost s, realtime_buffers_lost s, log_buffers_lost s)).

Lemma counter_nil name b a u p :
  counter name b a u p = [] <->
  match b, a with
  | Some x, Some y => x = y
  | None, Some y => y = 0 /\ p = false
  | Some _, None => False
  | None, None => True
  end.
Proof.
  unfold counter. destruct b as [x|], a as [y|]; try done.
  - destruct (Z.eqb_spec x y); split; done.
  - destruct (Z.eqb_spec y 0), p; simpl; split; try done; intros [? ?]; done.
Qed.
Lemma flag_change_nil b a on off : flag_change b a on off = [] <-> b = a.
Proof. unfold flag_change. destruct b, a; simpl; split; done. Qed.

#[local] Arguments counter : simpl never.

(** A sample is reported as a gap exactly when something measured changed: the
    first sample always is, and a later one is not exactly when the consumer
    state, the fault flag, the availability of statistics and all six counters
    are the same; an unavailable counter is never taken for an unchanged one. *)
Theorem gap_since_exact (before : option CollectorStatus) (after : CollectorStatus) :
  source_gap_since before after = None <->
  exists b, before = Some b /\ measured b = measured after.
Proof.
  assert (Hn : source_gap_since before after = None <-> status_changes before after = []).
  { unfold source_gap_since. destruct (status_changes before after); done. }
  rewrite Hn. unfold status_changes. destruct before as [b|]; simpl.
  - rewrite !app_nil, !flag_change_nil, !counter_nil. unfold measured. simpl.
    split.
    + intros ((F1 & F2 & F3) & C1 & C2 & C3 & E1 & E2 & E3). exists b. split; [done|].
      assert (Hopt : forall x y : option Z, match x, y with
        | Some x, Some y => x = y | None, Some y => y = 0 /\ true = false
        | Some _, None => False | None, None => True end -> x = y).
      { intros [x|] [y|]; try done; [by intros ->|by intros []]. }
      by rewrite F1, F2, F3, C1, C2, C3, (Hopt _ _ E1), (Hopt _ _ E2), (Hopt _ _ E3).
    + intros (b' & [= <-] & [= -> -> -> -> -> -> -> -> ->]). repeat split.
      * by destruct (events_lost after).
      * by destruct (realtime_buffers_lost after).
      * by destruct (log_buffers_lost after).
  - split; [done|]. by intros (b & ? & _).
Qed.

(** ** The history is complete *)
Inductive segment := Told (g : json * Z) | Untold (gs : list (json * Z)).
Definition segment_gaps (s : segment) : list (json * Z) :=
  match s with Told g => [g] | Untold gs => gs end.
Definition untold (s : segment) : Z := match s with Told _ => 0 | Untold gs => zlen gs end.

Section History.
Context (dump : json -> result string) (summary : Z -> Z -> Z -> json).

(** the report of a segment: the gap itself, or the summary of omitted ones *)
Definition says (s : segment) (j : json) : Prop :=
  match s with
  | Told g => j = g.1
  | Untold gs => exists g rest, gs = g :: rest /\
      j = summary (zlen gs) g.2 (List.last gs g).2
  end.
Definition pending_ok (pend : list (json * Z)) (q : Queue) : Prop :=
  omitted_pending_ q = zlen pend /\
  match pend with
  | [] => True
  | g :: _ => first_omitted_ q = g.2 /\ last_omitted_ q = (List.last pend g).2
  end.
(** the reports so far and the pending omissions account for every gap, in order *)
Record history_ok (gaps : list (json * Z)) (acked : list json) (q : Queue) : Prop := {
  history_segments : exists segs pend,
    Forall2 says segs (acked ++ map data (reports_ q)) /\
    gaps = concat (map segment_gaps segs) ++ pend /\ pending_ok pend q /\
    omitted_total_ q = zsum untold segs + zlen pend;
  history_bytes : bytes_ q = zsum bytes (reports_ q);
  history_encoded : Forall (fun r => 0 <= bytes r) (reports_ q);
  history_limits : zlen (reports_ q) <= report_limit_ q /\ bytes_ q <= byte_limit_ q
}.

Lemma untold_bound segs pend : zsum untold segs + zlen pend <= zlen (concat (map segment_gaps segs) ++ pend).
Proof.
  rewrite zlen_app. assert (zsum untold segs <= zlen (concat (map segment_gaps segs))); [|lia].
  induction segs as [|s segs IH]; [done|]. simpl. rewrite zsum_cons, zlen_app.
  destruct s; simpl; rewrite ?zlen_cons; pose proof (zlen_nonneg (A:=json*Z)); [|lia].
  change (zlen (@nil (json * Z))) with 0. lia.
Qed.

Lemma queue_append_spec j q r q' :
  append dump j q = (r, q') ->
  (q' = q /\ r <> Ok true) \/
  (r = Ok true /\ exists t, dump j = Ok t /\
     reports_ q' = reports_ q ++ [{| data := j; bytes := slen t |}] /\
     zlen (reports_ q) < report_limit_ q /\ bytes_ q + slen t <= byte_limit_ q /\
     bytes_ q' = bytes_ q + slen t /\ report_limit_ q' = report_limit_ q /\
     byte_limit_ q' = byte_limit_ q /\ omitted_total_ q' = omitted_total_ q /\
     omitted_pending_ q' = omitted_pending_ q /\ first_omitted_ q' = first_omitted_ q /\
     last_omitted_ q' = last_omitted_ q).
Proof.
  unfold append. destruct (dump j) as [t|e]; [|intros [= <- <-]; by left].
  destruct (_ || _) eqn:E; intros [= <- <-]; [by left|right]. split; [done|]. exists t. simpl.
  repeat split; lia.
Qed.
(** a queued report takes the next gap, or all pending ones *)
Lemma history_append gaps acked q q' j t seg pend' segs :
  history_ok gaps acked q ->
  Forall2 says segs (acked ++ map data (reports_ q)) -> says seg j ->
  reports_ q' = reports_ q ++ [{| data := j; bytes := slen t |}] ->
  bytes_ q' = bytes_ q + slen t -> zlen (reports_ q) < report_limit_ q ->
  bytes_ q + slen t <= byte_limit_ q ->
  report_limit_ q' = report_limit_ q -> byte_limit_ q' = byte_limit_ q ->
  pending_ok pend' q' -> omitted_total_ q' = zsum untold (segs ++ [seg]) + zlen pend' ->
  history_ok (concat (map segment_gaps segs) ++ segment_gaps seg ++ pend') acked q'.
Proof.
  intros Hok Hs Hj Hr Hb Hl1 Hl2 Hrl Hbl Hp Ht. constructor.
  - exists (segs ++ [seg]), pend'. split; [|split; [|done]].
    + rewrite Hr, map_app, app_assoc. apply Forall2_app; [done|]. by repeat constructor.
    + rewrite map_app, concat_app, <- app_assoc. simpl. by rewrite app_nil_r.
  - rewrite Hb, Hr, zsum_app, (history_bytes _ _ _ Hok). unfold zsum at 3. simpl. lia.
  - rewrite Hr. apply Forall_app. split; [apply Hok|]. repeat constructor. apply slen_nonneg.
  - rewrite Hr, Hb, Hrl, Hbl, zlen_app. change (zlen [_]) with 1. lia.
Qed.
Lemma flush_history gaps acked q r q' :
  history_ok gaps acked q -> flush_omissions dump summary q = (r, q') -> history_ok gaps acked q'.
Proof.
  intros Hok. unfold flush_omissions. destruct (Z.eqb_spec (omitted_pending_ q) 0) as [|Hne];
    [by intros [= <- <-]|].
  destruct (append dump _ q) as [rr q1] eqn:Ea. apply queue_append_spec in Ea as [[-> Hr]|(-> & t & Ht)].
  { destruct rr as [[]|]; [done|by intros [= <- <-]|by intros [= <- <-]]. }
  intros [= <- <-]. destruct Ht as (_ & Hrep & Hl1 & Hl2 & Hb & Hrl & Hbl & Htot & _ & _ & _).
  destruct (history_segments _ _ _ Hok) as (segs & pend & Hs & -> & [Hp1 Hp2] & Hto).
  destruct pend as [|g rest]; [rewrite Hp1 in Hne; done|]. destruct Hp2 as [Hf Hla].
  pose proof (history_append _ acked q
    {| reports_ := reports_ q1; report_limit_ := report_limit_ q1; byte_limit_ := byte_limit_ q1;
       bytes_ := bytes_ q1; acknowledged_ := acknowledged_ q1; omitted_total_ := omitted_total_ q1;
       omitted_pending_ := 0; first_omitted_ := first_omitted_ q1; last_omitted_ := last_omitted_ q1 |}
    (summary (omitted_pending_ q) (first_omitted_ q) (last_omitted_ q)) t (Untold (g :: rest)) [] segs Hok Hs) as Hh.
  cbn [segment_gaps] in Hh. rewrite app_nil_r in Hh. apply Hh; try done; try (simpl; lia).
  - exists g, rest. split; [done|]. by rewrite Hp1, Hf, Hla.
  - simpl. rewrite Htot, Hto, zsum_app. unfold zsum at 3. simpl. change (zlen (@nil (json*Z))) with 0. lia.
Qed.
Lemma last_snoc_head {A} (g : A) rest x d : List.last ((g :: rest) ++ [x]) d = x.
Proof. apply List.last_last. Qed.
Lemma omit_history gaps acked q g :
  history_ok gaps acked q -> zlen gaps < u64_max -> history_ok (gaps ++ [g]) acked (omit g.2 q).
Proof.
  intros Hok Hn. destruct (history_segments _ _ _ Hok) as (segs & pend & Hs & -> & [Hp1 Hp2] & Hto).
  pose proof (untold_bound segs pend) as Hu. pose proof (zlen_nonneg pend).
  assert (0 <= zsum untold segs).
  { clear. induction segs as [|s segs IH]; [done|]. rewrite zsum_cons.
    destruct s as [g|gs]; simpl; [lia|]. pose proof (zlen_nonneg gs). lia. }
  rewrite zlen_app in Hn, Hu. pose proof (zlen_nonneg (concat (map segment_gaps segs))).
  constructor; [|apply Hok..]. exists segs, (pend ++ [g]). split; [done|].
  split; [by rewrite app_assoc|]. unfold pending_ok. simpl. rewrite zlen_app. change (zlen [g]) with 1.
  split; [|rewrite Hto, u64_small by lia; lia].
  rewrite Hp1, u64_small by lia. split; [done|]. destruct pend as [|g0 rest]; [done|].
  cbn [app]. change (zlen (g0 :: rest) =? 0) with (zlen (g0 :: rest) =? 0).
  destruct (Z.eqb_spec (zlen (g0 :: rest)) 0) as [E|_].
  { rewrite zlen_cons in E. pose proof (zlen_nonneg rest). lia. }
  destruct Hp2 as [-> _]. split; [done|].
  change (g0 :: rest ++ [g]) with ((g0 :: rest) ++ [g]). by rewrite last_snoc_head.
Qed.
Lemma report_history gaps acked q j uptime q' :
  history_ok gaps acked q -> zlen gaps < u64_max ->
  report dump j uptime q = (Ok tt, q') -> history_ok (gaps ++ [(j, uptime)]) acked q'.
Proof.
  intros Hok Hn. unfold report. destruct (Z.eqb_spec (omitted_pending_ q) 0) as [Hz|]; cbn [negb].
  2: { intros [= <-]. by apply (omit_history _ _ _ (j, uptime)). }
  destruct (append dump j q) as [rr q1] eqn:Ea. apply queue_append_spec in Ea as [[-> Hr]|(-> & t & Ht)].
  { destruct rr as [[]|]; [done| |done]. intros [= <-]. by apply (omit_history _ _ _ (j, uptime)). }
  intros [= <-]. destruct Ht as (_ & Hrep & Hl1 & Hl2 & Hb & Hrl & Hbl & Htot & Hpe & _ & _).
  destruct (history_segments _ _ _ Hok) as (segs & pend & Hs & -> & [Hp1 Hp2] & Hto).
  assert (pend = []) as ->.
  { destruct pend; [done|]. rewrite zlen_cons in Hp1. pose proof (zlen_nonneg pend). lia. }
  rewrite app_nil_r. apply (history_append _ acked q q1 j t (Told (j, uptime)) [] segs Hok Hs); try done.
  - split; [|done]. by rewrite Hpe.
  - rewrite Htot, Hto, zsum_app. unfold zsum at 3. simpl. lia.
Qed.
Lemma report_throw_history gaps acked q j uptime e q' :
  history_ok gaps acked q -> report dump j uptime q = (Throw e, q') -> history_ok gaps acked q'.
Proof.
  intros Hok. unfold report. destruct (negb _); [done|].
  destruct (append dump j q) as [rr q1] eqn:Ea. apply queue_append_spec in Ea as [[-> Hr]|(-> & _)]; [|done].
  destruct rr as [[]|]; try done. by intros [= _ <-].
Qed.
Lemma acknowledge_history gaps acked q refusal r q' :
  history_ok gaps acked q -> acknowledge_front dump summary refusal q = (r, q') ->
  history_ok gaps (acked ++ option_list (data <$> hd_error (reports_ q))) q'.
Proof.
  intros Hok. unfold acknowledge_front. destruct (reports_ q) as [|x rs] eqn:Er.
  { intros [= <- <-]. simpl. by rewrite app_nil_r. }
  cbn [hd_error fmap option_fmap option_map option_list]. intros Hf.
  eapply flush_history; [|exact Hf].
  destruct (history_segments _ _ _ Hok) as (segs & pend & Hs & Hg & Hp & Hto).
  pose proof (history_bytes _ _ _ Hok) as Hb. pose proof (history_encoded _ _ _ Hok) as He.
  pose proof (history_limits _ _ _ Hok) as [Hl1 Hl2]. rewrite Er in Hb, He, Hl1, Hs.
  apply Forall_cons in He as [He1 He2]. rewrite zsum_cons in Hb. rewrite zlen_cons in Hl1.
  constructor; simpl; [|lia|done|lia].
  exists segs, pend. split; [|done]. by rewrite <- app_assoc.
Qed.
End History.

(** ** Runs of the collector's buffer *)
Inductive gap_event := Sample (s : CollectorStatus) (uptime : Z) | FrontAccepted.
Record gap_log := { found : list (json * Z); accepted : list json }.
Section Runs.
Context (dump : json -> result string).
(** the gaps that samples found, the reports the journal accepted, and the buffer *)
Fixpoint gap_run (events : list gap_event) (b : SourceGapBuffer) : gap_log * SourceGapBuffer :=
  match events with
  | [] => ({| found := []; accepted := [] |}, b)
  | Sample s uptime :: events =>
      let '(r, b1) := observe dump s uptime b in
      let gap := match r with Ok true => sampled_gap b s uptime | _ => None end in
      let '(l, b2) := gap_run events b1 in
      ({| found := option_list ((fun j => (j, uptime)) <$> gap) ++ found l; accepted := accepted l |}, b2)
  | FrontAccepted :: events =>
      let front := data <$> hd_error (reports_ (queue_ b)) in
      let '(_, b1) := source_acknowledge_front dump b in
      let '(l, b2) := gap_run events b1 in
      ({| found := found l; accepted := option_list front ++ accepted l |}, b2)
  end.

Lemma observe_history gaps acked s uptime b r b' :
  history_ok source_summary gaps acked (queue_ b) -> zlen gaps < u64_max ->
  observe dump s uptime b = (r, b') ->
  history_ok source_summary
    (gaps ++ option_list ((fun j => (j, uptime)) <$>
       match r with Ok true => sampled_gap b s uptime | _ => None end)) acked (queue_ b').
Proof.
  intros Hok Hn. unfold observe. destruct (flush_omissions _ _ (queue_ b)) as [fr q] eqn:Ef.
  apply (flush_history _ _ _ _ _ _ _ Hok) in Ef.
  destruct fr as [u|e]; [|intros [= <- <-]; simpl; by rewrite app_nil_r].
  destruct (sampled_gap b s uptime) as [gap|] eqn:Eg;
    [|intros [= <- <-]; simpl; by rewrite app_nil_r].
  destruct (report dump gap uptime q) as [[[]|e] q1] eqn:Er; intros [= <- <-]; simpl.
  - by eapply report_history.
  - rewrite app_nil_r. by eapply report_throw_history.
Qed.
Lemma gap_run_history events b gaps acked l b' :
  history_ok source_summary gaps acked (queue_ b) -> zlen gaps + zlen events <= u64_max ->
  gap_run events b = (l, b') ->
  history_ok source_summary (gaps ++ found l) (acked ++ accepted l) (queue_ b').
Proof.
  revert b gaps acked l b'; induction events as [|[s uptime|] events IH]; intros b gaps acked l b' Hok Hn;
    cbn [gap_run].
  - intros [= <- <-]. simpl. by rewrite !app_nil_r.
  - rewrite zlen_cons in Hn. pose proof (zlen_nonneg events).
    destruct (observe dump s uptime b) as [r b1] eqn:Eo.
    apply (observe_history _ _ _ _ _ _ _ Hok) in Eo as Ho; [|lia].
    set (new := option_list _) in *.
    assert (zlen new <= 1) by (subst new; destruct r as [[]|]; [destruct (sampled_gap b s uptime)|..];
      vm_compute; discriminate).
    destruct (gap_run events b1) as [l1 b2] eqn:Er. intros [= <- <-]. simpl. rewrite app_assoc.
    eapply IH; [exact Ho| |exact Er]. rewrite zlen_app. lia.
  - rewrite zlen_cons in Hn. destruct (source_acknowledge_front dump b) as [r b1] eqn:Ea.
    unfold source_acknowledge_front in Ea.
    destruct (acknowledge_front _ _ _ (queue_ b)) as [r1 q1] eqn:Eq. injection Ea as <- <-.
    apply (acknowledge_history _ _ _ _ _ _ _ _ Hok) in Eq.
    destruct (gap_run events _) as [l1 b2] eqn:Er. intros [= <- <-]. simpl. rewrite app_assoc.
    eapply (IH {| queue_ := q1; observed_ := _; observed_uptime_ := _ |}); [exact Eq|lia|exact Er].
Qed.

(** No gap is lost silently.  Through any sequence of samples and journal
    acceptances, the reports accepted so far, those still queued and the pending
    omissions account for every gap that was found, in order: each report is
    either one gap or the summary of a run of consecutive omitted gaps with
    their number and first and last sample time; and the queue stays within its
    limits of reports and encoded bytes. *)
Theorem gap_history_complete (reports limit : Z) (b0 b : SourceGapBuffer) (events : list gap_event)
    (l : gap_log) :
  0 <= reports -> new_source_buffer reports limit = Ok b0 -> zlen events <= u64_max ->
  gap_run events b0 = (l, b) ->
  let q := queue_ b in
  (exists segs pend,
     Forall2 (says source_summary) segs (accepted l ++ map data (reports_ q)) /\
     found l = concat (map segment_gaps segs) ++ pend /\ pending_ok pend q /\
     omitted_total_ q = zsum untold segs + zlen pend) /\
  zlen (reports_ q) <= report_limit_ q /\ zsum bytes (reports_ q) <= byte_limit_ q.
Proof.
  intros Hnn H0 Hn Hr. apply (gap_run_history _ _ [] []) in Hr.
  - simpl in Hr. destruct Hr as [Hs Hb _ [Hl1 Hl2]]. rewrite Hb in Hl2. done.
  - unfold new_source_buffer, new_queue in H0. destruct (throw_if _ _) eqn:E; [|done].
    apply throw_if_Ok in E. cbn in H0. injection H0 as <-. constructor; simpl; [|done|constructor|].
    + exists [], []. split; [constructor|]. split; [done|]. split; [done|]. done.
    + change (zlen (@nil Report)) with 0. lia.
  - change (zlen (@nil (json * Z))) with 0. lia.
Qed.
End Runs.

(** a queue of one report: the second and third gaps are summarised *)
Definition sample_status (lost : Z) : CollectorStatus := {|
  running := true; continuity_fault := false; statistics_available := true; decode_failures := 0;
  sink_failures := 0; subscription_errors := 0; events_lost := Some lost;
  realtime_buffers_lost := Some 0; log_buffers_lost := Some 0; statistics_error := "" |}.
Definition empty_buffer : SourceGapBuffer := {|
  queue_ := {| reports_ := []; report_limit_ := 1; byte_limit_ := 4096; bytes_ := 0;
    acknowledged_ := 0; omitted_total_ := 0; omitted_pending_ := 0; first_omitted_ := 0;
    last_omitted_ := 0 |};
  observed_ := None; observed_uptime_ := None |}.
Definition sample_gap_events : list gap_event :=
  [Sample (sample_status 0) 10; Sample (sample_status 3) 20; Sample (sample_status 5) 30;
   FrontAccepted; Sample (sample_status 5) 40].
Definition short_dump (_ : json) : result string := Ok "{}".
Definition sample_gap_log : gap_log := (gap_run short_dump sample_gap_events empty_buffer).1.
Definition sample_gap_buffer : SourceGapBuffer := (gap_run short_dump sample_gap_events empty_buffer).2.
Lemma gap_history_complete_witness :
  (** three gaps: one accepted, two summarised in the queued report *)
  (length (found sample_gap_log), length (accepted sample_gap_log),
   map data (reports_ (queue_ sample_gap_buffer))) = (3%nat, 1%nat, [source_summary 2 20 30]) /\
  (exists segs pend,
     Forall2 (says source_summary) segs
       (accepted sample_gap_log ++ map data (reports_ (queue_ sample_gap_buffer))) /\
     found sample_gap_log = concat (map segment_gaps segs) ++ pend /\
     pending_ok pend (queue_ sample_gap_buffer) /\
     omitted_total_ (queue_ sample_gap_buffer) = zsum untold segs + zlen pend) /\
  zlen (reports_ (queue_ sample_gap_buffer)) <= report_limit_ (queue_ sample_gap_buffer) /\
  zsum bytes (reports_ (queue_ sample_gap_buffer)) <= byte_limit_ (queue_ sample_gap_buffer).
Proof.
  split; [vm_compute; reflexivity|].
  apply (gap_history_complete short_dump 1 4096 empty_buffer sample_gap_buffer sample_gap_events
    sample_gap_log); vm_compute; [discriminate|reflexivity|discriminate|reflexivity].
Defined.
