(* ===== verification/Freshness.v ===== *)
(** * Freshness of state captures

    [health/state_freshness.cpp]: the annotation of a health snapshot with the age
    of each committed capture, which withdraws a positive state from every
    inventory and capability whose capture is missing or overdue, and the buffer
    of freshness transitions.  Exceptions of the JSON library on members of an
    unexpected type end the annotation. *)

From S2P Require Import Prelude Json SourceGaps.

(** an inventory and the capability id prefixes it supports *)
Definition sources : list (string * list string) :=
  [("host_inventory", ["A.host"; "state.tpm_device"; "state.entra_default_join"; "state.storage_volumes"; "state.system_audit_policy"; "W.enterprise_identity"; "Y.posture"]);
   ("security_audit_policy_inventory", ["state.security_audit_policy_detail"]);
   ("process_inventory", ["state.process_inventory"]);
   ("thread_inventory", ["state.thread_inventory"; "C.thread_handle"]);
   ("module_inventory", ["state.module_inventory"]);
   ("memory_region_inventory", ["state.memory_region_inventory"; "memory.region_metadata"]);
   ("service_inventory", ["state.service_"; "K.service_driver"]);
   ("loaded_driver_inventory", ["state.loaded_driver_inventory"]);
   ("socket_inventory", ["state.socket_"]);
   ("route_inventory", ["state.route_"]);
   ("ip_interface_inventory", ["state.ip_interface_"]);
   ("firewall_profile_state", ["state.firewall_profiles"; "state.firewall_exclusions."; "P.firewall"]);
   ("firewall_rule_inventory", ["state.firewall_rule_inventory"; "P.firewall"]);
   ("security_center_state", ["state.security_center"; "Q.security_product"]);
   ("security_product_inventory", ["state.security_product_inventory"; "Q.security_product"]);
   ("defender_status", ["state.defender_status"; "Q.security_product"]);
   ("dns_state_inventory", ["state.dns_state_inventory"; "O.dns"]);
   ("remote_access_inventory", ["state.remote_access_inventory"; "U.remote_access"]);
   ("device_guard_state", ["state.device_guard_state"]);
   ("scheduled_task_inventory", ["state.scheduled_task_inventory"]);
   ("wmi_subscription_inventory", ["state.wmi_subscription_inventory"]);
   ("startup_inventory", ["state.startup_inventory"]);
   ("active_setup_inventory", ["state.active_setup_inventory"]);
   ("image_execution_inventory", ["state.image_execution_inventory"]);
   ("com_activation_inventory", ["state.com_activation_inventory"]);
   ("startup_approval_inventory", ["state.startup_approval_inventory"]);
   ("browser_registration_inventory", ["state.browser_registration_inventory"]);
   ("office_addin_inventory", ["state.office_addin_inventory"]);
   ("browser_extension_inventory", ["state.browser_extension_inventory"]);
   ("defender_preferences_inventory", ["state.defender_preferences_inventory"]);
   ("account_inventory", ["state.account_inventory"]);
   ("local_group_inventory", ["state.local_group_inventory"]);
   ("logon_session_inventory", ["state.logon_session_inventory"]);
   ("terminal_session_inventory", ["state.terminal_session_inventory"]);
   ("msi_product_inventory", ["state.msi_product_inventory"]);
   ("uninstall_registry_inventory", ["state.uninstall_registry_inventory"])].

(** a canonical decimal member *)
Definition read (object_ : json) (k : string) : option Z :=
  match find k object_ with
  | Some (JStr text) =>
      if str_empty text || ((1 <? slen text) && starts_with "0" text) then None
      else from_chars_all u64_max text
  | _ => None
  end.
Definition positive (state : json) : bool := is_text "healthy" state || is_text "degraded" state.

(** ** The freshness of one inventory *)
Inductive verdict := no_committed_capture | bad_clock | bad_order | within (start committed : Z) | overdue (start committed : Z).
Definition judge (inventory : json) (now : Z) : verdict :=
  let record_ok := match find "last_committed_record_id" inventory with
                   | Some (JStr s) => negb (str_empty s)
                   | _ => false
                   end in
  if negb record_ok then no_committed_capture
  else match read inventory "last_committed_capture_started_uptime_ms",
             read inventory "last_committed_uptime_ms" with
       | Some start, Some committed =>
           if (committed <? start) || (now <? committed) then bad_order
           else if 360000 <? now - start then overdue start committed else within start committed
       | _, _ => bad_clock
       end.
Definition verdict_state (v : verdict) : string :=
  match v with within _ _ => "healthy" | overdue _ _ => "blind" | _ => "unavailable" end.
Definition verdict_reason (v : verdict) : string :=
  match v with
  | no_committed_capture => "no_committed_capture"
  | bad_clock => "missing_or_invalid_capture_clock_evidence"
  | bad_order => "capture_clock_order_invalid"
  | within _ _ => "capture_within_age_limit"
  | overdue _ _ => "committed_capture_overdue"
  end.
Definition verdict_ages (v : verdict) (now : Z) : json * json :=
  match v with
  | within s c | overdue s c => (num (now - s), num (now - c))
  | _ => (JNull, JNull)
  end.
Definition freshness_json (inventory : json) (now : Z) : json :=
  let v := judge inventory now in
  object [("state", JStr (verdict_state v)); ("evaluated_uptime_ms", num now);
    ("capture_age_ms", (verdict_ages v now).1); ("commit_age_ms", (verdict_ages v now).2);
    ("nominal_capture_interval_ms", JStr "300000"); ("scheduling_tolerance_ms", JStr "60000");
    ("maximum_capture_age_ms", JStr "360000");
    ("scope", JStr "age of last durably accepted capture start in this runtime uptime domain; not continuous visibility or backend receipt freshness");
    ("reason", JStr (verdict_reason v));
    ("record_id", default JNull (find "last_committed_record_id" inventory))].
Definition is_stale (v : verdict) : bool := match v with within _ _ => false | _ => true end.
Definition derived_state (v : verdict) : string :=
  match v with overdue _ _ => "blind" | _ => "unavailable" end.

(** the inventory with its freshness, and its state withdrawn when stale *)
Definition withdraw (v : verdict) (j : json) : json :=
  match find "state" j with
  | Some st =>
      if is_stale v && positive st
      then set_member "state" (JStr (derived_state v)) (set_member "reported_state" st j)
      else j
  | None => j
  end.
Definition mark_inventory (inventory : json) (now : Z) : json :=
  withdraw (judge inventory now)
    (set_member "capture_freshness" (freshness_json inventory now) inventory).

(** [capability["state_capture_freshness"][k] = freshness] *)
Definition add_capture (k : string) (freshness capability : json) : result json :=
  inner ← match find "state_capture_freshness" capability with
          | None | Some JNull => Ok (JObj [])
          | Some (JObj l) => Ok (JObj l)
          | Some _ => Throw (json_exception "cannot use operator[] with a string argument")
          end;
  Ok (set_member "state_capture_freshness" (set_member k freshness inner) capability).
Definition matches (prefixes : list string) (id : string) : bool :=
  existsb (fun p => starts_with p id) prefixes.
Definition mark_capability (k : string) (prefixes : list string) (v : verdict) (freshness : json)
    (capability : json) : result json :=
  match find "id" capability with
  | Some (JStr id) =>
      if matches prefixes id then
        match find "state" capability with
        | None => Ok capability
        | Some st =>
            capability ← add_capture k freshness capability;
            if is_stale v && positive st then
              reason ← value_string "reason" capability;
              Ok (set_member "reason" (JStr (k +:+ ": " +:+ verdict_reason v))
                   (set_member "reported_reason" (JStr reason) (withdraw v capability)))
            else Ok capability
        end
      else Ok capability
  | _ => Ok capability
  end.

(** an element of the array, as it is updated in place *)
Definition on_capabilities (f : json -> result json) (health : json) : result json :=
  match find "capabilities" health with
  | Some (JArr l) => l ← mapM f l; Ok (set_member "capabilities" (JArr l) health)
  | _ => Ok health
  end.
Definition mark_source (now : Z) (src : string * list string) (health : json) : result json :=
  match find src.1 health with
  | Some (JObj l) =>
      let inventory := JObj l in
      on_capabilities (mark_capability src.1 src.2 (judge inventory now) (freshness_json inventory now))
        (set_member src.1 (mark_inventory inventory now) health)
  | _ => Ok health
  end.
Fixpoint mark_sources (now : Z) (l : list (string * list string)) (health : json) : result json :=
  match l with
  | [] => Ok health
  | src :: l => health ← mark_source now src health; mark_sources now l health
  end.

(** ** Domains that several sources support *)
Definition value_text (k dflt : string) (j : json) : result string :=
  match j with
  | JObj l => match find_member k l with Some v => get_string v | None => Ok dflt end
  | _ => Throw (json_exception "cannot use value() with a non-object")
  end.
Record tally := { partial : bool; blind : bool; present : bool; all_disabled : bool; evidence_ : json }.
Definition no_tally : tally :=
  {| partial := false; blind := false; present := false; all_disabled := true; evidence_ := JObj [] |}.
Definition count_state (k state : string) (entry : json) (t : tally) : tally :=
  {| partial := partial t || String.eqb state "healthy" || String.eqb state "degraded";
     blind := blind t || String.eqb state "blind"; present := true;
     all_disabled := all_disabled t && String.eqb state "disabled";
     evidence_ := set_member k entry (evidence_ t) |}.

Definition security_keys : list string :=
  ["security_center_state"; "security_product_inventory"; "defender_status"; "defender_preferences_inventory"].
(** whether a security source is positive, and whether one is blind *)
Fixpoint security_states (health : json) (ks : list string) (available blind_ : bool)
  : result (bool * bool) :=
  match ks with
  | [] => Ok (available, blind_)
  | k :: ks =>
      match find k health with
      | Some (JObj l) =>
          state ← value_text "state" "unavailable" (JObj l);
          security_states health ks
            (available || match find_member "state" l with Some st => positive st | None => false end)
            (blind_ || String.eqb state "blind")
      | _ => security_states health ks available blind_
      end
  end.
Definition set_domain (id : string) (members : list (string * json)) (capability : json) : result json :=
  match capability with
  | JObj l =>
      name ← value_text "id" "" (JObj l);
      Ok (if String.eqb name id
          then foldl (fun c m => set_member m.1 m.2 c) capability members else capability)
  | _ => Ok capability
  end.
Definition security_members (available blind_ : bool) : list (string * json) :=
  [("state", JStr (if available then "degraded" else if blind_ then "blind" else "unavailable"));
   ("reason", JStr (if available then "partial reports from at least one fresh independent security source; protection unverified"
      else if blind_ then "no eligible security source report; committed partial posture overdue"
      else "no eligible security source report"))].
Definition security_domain (health : json) : result json :=
  match find "defender_status" health, find "capabilities" health with
  | Some _, Some (JArr _) =>
      seen ← security_states health security_keys false false;
      on_capabilities (set_domain "Q.security_product" (security_members seen.1 seen.2)) health
  | _, _ => Ok health
  end.

Definition groups : list (string * list string * option string) :=
  [("J.persistence", ["service_inventory"; "scheduled_task_inventory"; "wmi_subscription_inventory"; "startup_inventory"; "active_setup_inventory"; "image_execution_inventory"; "com_activation_inventory"; "startup_approval_inventory"], None);
   ("S.browser", ["browser_registration_inventory"; "browser_extension_inventory"], None);
   ("T.office", ["office_addin_inventory"], None);
   ("L.scheduled_task", ["scheduled_task_inventory"], Some "Microsoft-Windows-TaskScheduler/Operational");
   ("M.wmi", ["wmi_subscription_inventory"], Some "Microsoft-Windows-WMI-Activity/Operational");
   ("D.user_session", ["account_inventory"; "local_group_inventory"; "logon_session_inventory"; "terminal_session_inventory"], None);
   ("U.remote_access", ["terminal_session_inventory"; "logon_session_inventory"; "remote_access_inventory"], None);
   ("Z.software", ["msi_product_inventory"; "uninstall_registry_inventory"], None)].
Fixpoint tally_states (health : json) (ks : list string) (t : tally) : result tally :=
  match ks with
  | [] => Ok t
  | k :: ks =>
      match find k health with
      | Some (JObj l) =>
          state ← value_text "state" "unavailable" (JObj l);
          tally_states health ks
            (count_state k state
               (object [("state", JStr state);
                        ("record_id", default JNull (find_member "last_committed_record_id" l));
                        ("capture_freshness", default JNull (find_member "capture_freshness" l))]) t)
      | _ => tally_states health ks t
      end
  end.
Fixpoint tally_channels (name : string) (channels : list json) (t : tally) : result tally :=
  match channels with
  | [] => Ok t
  | c :: channels =>
      channel ← value_text "channel" "" c;
      if negb (String.eqb channel name) then tally_channels name channels t
      else
        state ← value_text "state" "unavailable" c;
        tally_channels name channels
          (count_state name state
             (object [("state", JStr state);
                      ("scope", JStr "native channel collector status; continuity/attribution unqualified")]) t)
  end.
Definition domain_state (t : tally) : string :=
  if partial t then "degraded" else if blind t then "blind"
  else if all_disabled t then "disabled" else "unavailable".
Definition mark_group (g : string * list string * option string) (health : json) : result json :=
  let '(id, keys, channel) := g in
  t ← tally_states health keys no_tally;
  t ← match channel, find "windows_event_log" health ≫= find "channels" with
      | Some name, Some (JArr l) => tally_channels name l t
      | _, _ => Ok t
      end;
  if negb (present t) then Ok health
  else on_capabilities (set_domain id
         [("state", JStr (domain_state t));
          ("reason", JStr (if partial t then "partial evidence from independent eligible native sources; full domain coverage unqualified"
             else if blind t then "no eligible partial source; committed capture or event continuity blind"
             else if all_disabled t then "partial source workers disabled"
             else "no eligible partial native source"));
          ("partial_source_status", evidence_ t);
          ("scope", JStr "selected native state/log sources; full domain, execution/lifetime/change/effective authorization coverage incomplete")]) health.
Fixpoint mark_groups (l : list (string * list string * option string)) (health : json) : result json :=
  match l with
  | [] => Ok health
  | g :: l => health ← mark_group g health; mark_groups l health
  end.

Definition apply_state_capture_freshness (health : json) (now : Z) : result json :=
  health ← mark_sources now sources health;
  health ← security_domain health;
  match find "capabilities" health with
  | Some (JArr _) => mark_groups groups health
  | _ => Ok health
  end.

(** ** Reading back *)

Definition shows_positive (j : json) : bool :=
  match find "state" j with Some st => positive st | None => false end.
Definition caps (health : json) : list json :=
  match find "capabilities" health with Some (JArr l) => l | _ => [] end.

Lemma derived_not_positive v : positive (JStr (derived_state v)) = false.
Proof. by destruct v. Qed.
Lemma withdraw_spec v j :
  is_object j = true ->
  (forall k, k <> "state" -> k <> "reported_state" -> find k (withdraw v j) = find k j) /\
  shows_positive (withdraw v j) = (if is_stale v then false else shows_positive j).
Proof.
  intros Ho. unfold withdraw, shows_positive. destruct (find "state" j) as [st|] eqn:E.
  2: { split; [done|]. rewrite E. by destruct (is_stale v). }
  destruct (is_stale v) eqn:Es, (positive st) eqn:Ep; cbn [andb].
  2-4: split; [done|]; rewrite E, ?Ep; done.
  split.
  - intros k H1 H2. rewrite !find_set by by rewrite ?set_is_object.
    apply String.eqb_neq in H1 as ->. by apply String.eqb_neq in H2 as ->.
  - rewrite find_set by by rewrite set_is_object. apply derived_not_positive.
Qed.
Lemma judge_ext i j now :
  (forall k, k <> "capture_freshness" -> find k i = find k j) -> judge i now = judge j now.
Proof. intros Hk. unfold judge, read. by rewrite !Hk. Qed.

(** the inventory at [k] after marking *)
Lemma mark_inventory_spec inv now :
  is_object inv = true ->
  find "capture_freshness" (mark_inventory inv now) = Some (freshness_json inv now) /\
  shows_positive (mark_inventory inv now) =
    (if is_stale (judge inv now) then false else shows_positive inv).
Proof.
  intros Ho. unfold mark_inventory.
  destruct (withdraw_spec (judge inv now)
    (set_member "capture_freshness" (freshness_json inv now) inv)) as [H1 H2];
    [by rewrite set_is_object|].
  rewrite H1 by done. rewrite find_set by done. split; [done|]. rewrite H2.
  destruct (is_stale _); [done|]. unfold shows_positive. by rewrite find_set.
Qed.

(** ** Capabilities *)
(** the id stays, and a state is never made positive *)
Definition weaker (c c' : json) : Prop :=
  find "id" c' = find "id" c /\ (shows_positive c = false -> shows_positive c' = false).
Lemma weaker_refl c : weaker c c.
Proof. done. Qed.
Lemma weaker_trans a b c : weaker a b -> weaker b c -> weaker a c.
Proof. intros [? ?] [? ?]. split; [congruence|auto]. Qed.
Lemma mark_capability_spec k ps v f c c' :
  mark_capability k ps v f c = Ok c' ->
  weaker c c' /\
  (forall id, find "id" c = Some (JStr id) -> matches ps id = true -> is_stale v = true ->
     shows_positive c' = false).
Proof.
  unfold mark_capability. destruct (find "id" c) as [j|] eqn:Eid.
  2: { intros [= <-]. split; [apply weaker_refl|done]. }
  assert (Hstop : forall (P : Prop), Ok c = Ok c' -> (P -> shows_positive c = false) ->
    weaker c c' /\ (P -> shows_positive c' = false)).
  { intros P [= <-] HP. split; [apply weaker_refl|done]. }
  destruct j; try (intros [= <-]; split; [apply weaker_refl|done]).
  destruct (matches ps s) eqn:Em.
  2: { intros [= <-]. split; [apply weaker_refl|]. intros id [= <-]. congruence. }
  destruct (find "state" c) as [st|] eqn:Est.
  2: { intros [= <-]. split; [apply weaker_refl|]. intros. unfold shows_positive. by rewrite Est. }
  intros Hc. apply bind_Ok in Hc as (c1 & Ha & Hc).
  apply find_is_object in Eid as Ho.
  assert (H1 : is_object c1 = true /\ find "id" c1 = find "id" c /\ find "state" c1 = find "state" c).
  { unfold add_capture in Ha. apply bind_Ok in Ha as (inner & _ & [= <-]).
    rewrite set_is_object, !find_set by done. done. }
  destruct H1 as (Ho1 & Hid1 & Hst1).
  assert (Hsp : shows_positive c1 = shows_positive c) by (unfold shows_positive; by rewrite Hst1).
  destruct (is_stale v && positive st) eqn:Esp.
  - apply bind_Ok in Hc as (reason & _ & [= <-]). apply andb_true_iff in Esp as [Es _].
    destruct (withdraw_spec v c1 Ho1) as [Hw1 Hw2]. rewrite Es in Hw2.
    assert (Hwo : is_object (withdraw v c1) = true).
    { unfold withdraw. rewrite Hst1, Est. by destruct (_ && _); rewrite ?set_is_object. }
    assert (Hsp2 : forall r1 r2, shows_positive (set_member "reason" r1
      (set_member "reported_reason" r2 (withdraw v c1))) = false).
    { intros r1 r2. unfold shows_positive.
      rewrite !find_set by by rewrite ?set_is_object. exact Hw2. }
    split; [|done]. split; [|done].
    rewrite !find_set by by rewrite ?set_is_object. cbn [String.eqb]. by rewrite Hw1.
  - injection Hc as <-. split; [split; [done|by rewrite Hsp]|].
    intros id _ _ Hs. rewrite Hs in Esp. unfold shows_positive. by rewrite Hst1, Est.
Qed.
Lemma Forall2_compose {A B C} (P : A -> B -> Prop) (Q : B -> C -> Prop) (R : A -> C -> Prop) l k m :
  (forall x y z, P x y -> Q y z -> R x z) -> Forall2 P l k -> Forall2 Q k m -> Forall2 R l m.
Proof.
  intros HR H. revert m. induction H; intros m Hm; inversion Hm; subst; constructor; eauto.
Qed.
Lemma mapM_Forall2 (f : json -> result json) l l' :
  mapM f l = Ok l' -> Forall2 (fun c c' => f c = Ok c') l l'.
Proof.
  revert l'; induction l as [|c l IH]; intros l'; cbn [mapM]; [intros [= <-]; constructor|].
  intros H. apply bind_Ok in H as (c1 & Hc & H). apply bind_Ok in H as (l1 & Hl & [= <-]).
  constructor; [done|by apply IH].
Qed.
Lemma on_capabilities_spec f h h' :
  on_capabilities f h = Ok h' ->
  Forall2 (fun c c' => f c = Ok c') (caps h) (caps h') /\
  (forall k, k <> "capabilities" -> find k h' = find k h).
Proof.
  unfold on_capabilities, caps. destruct (find "capabilities" h) as [j|] eqn:E.
  2: { intros [= <-]. rewrite E. split; [constructor|done]. }
  destruct j; try (intros [= <-]; rewrite E; split; [constructor|done]).
  intros H. apply bind_Ok in H as (l1 & Hl & [= <-]). apply find_is_object in E as Ho.
  rewrite find_set by done. split; [by apply mapM_Forall2|].
  intros k Hk. rewrite find_set by done. by apply String.eqb_neq in Hk as ->.
Qed.

Definition source_keys : list string := fst <$> sources.
Lemma source_keys_ok : NoDup source_keys /\ "capabilities" ∉ source_keys.
Proof. split; apply (bool_decide_unpack _); vm_compute; exact I. Qed.

Lemma mark_source_other now src h h' k :
  mark_source now src h = Ok h' -> k <> "capabilities" -> k <> src.1 -> find k h' = find k h.
Proof.
  unfold mark_source. intros H Hc Hk. destruct (find src.1 h) as [j|] eqn:E; [|by injection H as <-].
  destruct j; try by injection H as <-. apply on_capabilities_spec in H as [_ H].
  rewrite H, find_set by first [done|by eapply find_is_object]. by apply String.eqb_neq in Hk as ->.
Qed.
Lemma mark_source_spec now src h h' l :
  mark_source now src h = Ok h' -> src.1 <> "capabilities" -> find src.1 h = Some (JObj l) ->
  find src.1 h' = Some (mark_inventory (JObj l) now).
Proof.
  unfold mark_source. intros H Hc E. rewrite E in H. apply on_capabilities_spec in H as [_ H].
  rewrite H by done. rewrite find_set by by eapply find_is_object. by rewrite String.eqb_refl.
Qed.
(** a capability of a stale source does not show a positive state *)
Definition demoted (now : Z) (l : list (string * list string)) (h c c' : json) : Prop :=
  forall src inv id, src ∈ l -> find src.1 h = Some (JObj inv) ->
    is_stale (judge (JObj inv) now) = true ->
    find "id" c = Some (JStr id) -> matches src.2 id = true -> shows_positive c' = false.
Lemma mark_source_caps now src h h' :
  mark_source now src h = Ok h' -> src.1 <> "capabilities" ->
  Forall2 (fun c c' => weaker c c' /\ demoted now [src] h c c') (caps h) (caps h').
Proof.
  unfold mark_source. intros H Hc.
  assert (Hsame : forall l, (forall inv, find src.1 h <> Some (JObj inv)) ->
    Forall2 (fun c c' => weaker c c' /\ demoted now [src] h c c') l l).
  { intros l Hn. induction l as [|c l IH]; [constructor|]. constructor; [|done].
    split; [apply weaker_refl|]. intros src' inv id ->%list_elem_of_singleton Hf. by apply Hn in Hf. }
  destruct (find src.1 h) as [j|] eqn:E; [|injection H as <-; by apply Hsame].
  destruct j; try (injection H as <-; by apply Hsame). apply on_capabilities_spec in H as [H _].
  unfold caps in H at 1. rewrite find_set in H by by eapply find_is_object.
  assert (("capabilities" =? src.1)%string = false) as Ec by (apply String.eqb_neq; congruence).
  rewrite Ec in H. fold (caps h) in H. eapply Forall2_impl; [exact H|]. intros c c' Hm.
  apply mark_capability_spec in Hm as [Hw Hd]. split; [done|].
  intros src' inv id ->%list_elem_of_singleton Hf Hs Hid Hma. rewrite E in Hf. injection Hf as <-.
  by eapply Hd.
Qed.
Lemma demoted_cons now src l h h1 c c1 c2 :
  mark_source now src h = Ok h1 -> "capabilities" ∉ (fst <$> src :: l) -> NoDup (fst <$> src :: l) ->
  weaker c c1 -> demoted now [src] h c c1 -> weaker c1 c2 -> demoted now l h1 c1 c2 ->
  demoted now (src :: l) h c c2.
Proof.
  intros Hm Hc Hn Hw1 Hd1 Hw2 Hd2 src' inv id Hin Hf Hs Hid Hma.
  rewrite fmap_cons, elem_of_cons in Hc. rewrite fmap_cons, NoDup_cons in Hn. destruct Hn as [Hn _].
  apply elem_of_cons in Hin as [->|Hin].
  - apply Hw2. eapply Hd1; [|done..]. by apply list_elem_of_singleton.
  - assert (Hk : src'.1 ∈ (fst <$> l)) by (apply list_elem_of_fmap; by exists src').
    eapply (Hd2 src' inv id); [done| |done| |done].
    + rewrite (mark_source_other _ _ _ _ _ Hm); [done|intros E; apply Hc; rewrite <- E; by right|].
      intros E. by rewrite E in Hk.
    + destruct Hw1 as [-> _]. done.
Qed.
Lemma mark_sources_spec now l h h' :
  mark_sources now l h = Ok h' -> NoDup (fst <$> l) -> "capabilities" ∉ (fst <$> l) ->
  Forall2 (fun c c' => weaker c c' /\ demoted now l h c c') (caps h) (caps h') /\
  (forall k, k <> "capabilities" -> k ∉ (fst <$> l) -> find k h' = find k h) /\
  (forall k inv, k ∈ (fst <$> l) -> find k h = Some (JObj inv) ->
     find k h' = Some (mark_inventory (JObj inv) now)).
Proof.
  revert h; induction l as [|src l IH]; intros h H Hn Hc; cbn [mark_sources] in H.
  { injection H as <-. split; [|split; [done|intros k inv Hk; simpl in Hk; set_solver]].
    induction (caps h) as [|c cs IHc]; [constructor|]. constructor; [|done].
    split; [apply weaker_refl|]. intros src inv id Hin. by apply not_elem_of_nil in Hin. }
  apply bind_Ok in H as (h1 & Hm & H). pose proof Hn as Hn0. pose proof Hc as Hc0.
  rewrite fmap_cons in Hn0, Hc0. apply NoDup_cons in Hn0 as [Hni Hn'].
  assert (Hsc : src.1 <> "capabilities") by (intros E; apply Hc0; rewrite <- E; by left).
  destruct (IH h1 H Hn') as (F & O & K); [intros E; apply Hc0; by right|].
  split; [|split].
  - apply mark_source_caps in Hm as F1; [|done]. eapply Forall2_compose; [|exact F1|exact F].
    intros c c1 c2 [W1 D1] [W2 D2]. split; [by eapply weaker_trans|by eapply demoted_cons].
  - intros k Hk Hkl. rewrite fmap_cons, elem_of_cons in Hkl.
    rewrite O by tauto. eapply mark_source_other; [exact Hm|done|tauto].
  - intros k inv Hk Hf. rewrite fmap_cons, elem_of_cons in Hk. destruct Hk as [->|Hk].
    + rewrite O by done. by eapply mark_source_spec.
    + apply K; [done|]. rewrite (mark_source_other _ _ _ _ _ Hm); [done| |].
      * intros ->. apply Hc0. by right.
      * intros ->. done.
Qed.

(** ids whose state a later phase derives from several sources *)
Definition domain_ids : list string := "Q.security_product" :: ((fun g => g.1.1) <$> groups).
Lemma set_domain_other id ms c c' nm :
  set_domain id ms c = Ok c' -> find "id" c = Some (JStr nm) -> nm <> id -> c' = c.
Proof.
  unfold set_domain. destruct c; try done. intros H Hid Hne. apply bind_Ok in H as (n & Hv & [= <-]).
  unfold value_text in Hv. simpl in Hid. rewrite Hid in Hv. injection Hv as <-.
  by apply String.eqb_neq in Hne as ->.
Qed.
(** each phase leaves the inventories, and the capabilities of other ids *)
Definition frame (h h' : json) : Prop :=
  (forall k, k <> "capabilities" -> find k h' = find k h) /\
  Forall2 (fun c c' => forall nm, find "id" c = Some (JStr nm) -> nm ∉ domain_ids -> c' = c)
    (caps h) (caps h').
Lemma frame_refl h : frame h h.
Proof. split; [done|]. by induction (caps h); constructor. Qed.
Lemma frame_trans a b c : frame a b -> frame b c -> frame a c.
Proof.
  intros [K1 F1] [K2 F2]. split; [intros k Hk; by rewrite K2, K1|].
  eapply Forall2_compose; [|exact F1|exact F2]. intros x y z Hxy Hyz nm Hid Hn.
  assert (y = x) as -> by by eapply Hxy. by eapply Hyz.
Qed.
Lemma set_domain_frame id ms h h' :
  id ∈ domain_ids -> on_capabilities (set_domain id ms) h = Ok h' -> frame h h'.
Proof.
  intros Hid H. apply on_capabilities_spec in H as [F K]. split; [done|].
  eapply Forall2_impl; [exact F|]. intros c c' Hc nm Hnm Hn.
  eapply set_domain_other; [exact Hc|done|]. by intros ->.
Qed.
Lemma security_domain_frame h h' : security_domain h = Ok h' -> frame h h'.
Proof.
  unfold security_domain. destruct (find "defender_status" h); [|intros [= <-]; apply frame_refl].
  destruct (find "capabilities" h) as [[]|]; try (intros [= <-]; apply frame_refl).
  intros H. apply bind_Ok in H as (seen & _ & H). eapply set_domain_frame; [|exact H]. by left.
Qed.
Lemma mark_groups_frame l h h' : l ⊆ groups -> mark_groups l h = Ok h' -> frame h h'.
Proof.
  revert h; induction l as [|g l IH]; intros h Hl H; cbn [mark_groups] in H;
    [injection H as <-; apply frame_refl|].
  apply bind_Ok in H as (h1 & Hg & H). eapply frame_trans; [|eapply IH; [set_solver|exact H]].
  assert (Hin : g ∈ groups) by set_solver. destruct g as [[id ks] ch]. unfold mark_group in Hg.
  apply bind_Ok in Hg as (t & _ & Hg). apply bind_Ok in Hg as (t1 & _ & Hg).
  destruct (negb (present t1)); [injection Hg as <-; apply frame_refl|].
  eapply set_domain_frame; [|exact Hg]. right. apply list_elem_of_fmap. by exists (id, ks, ch).
Qed.
Lemma apply_phases h now h' :
  apply_state_capture_freshness h now = Ok h' ->
  exists h1, mark_sources now sources h = Ok h1 /\ frame h1 h'.
Proof.
  unfold apply_state_capture_freshness. intros H. apply bind_Ok in H as (h1 & H1 & H).
  apply bind_Ok in H as (h2 & H2 & H). exists h1. split; [done|].
  eapply frame_trans; [by apply security_domain_frame|].
  destruct (find "capabilities" h2) as [[]|]; try (injection H as <-; apply frame_refl).
  by eapply mark_groups_frame; [|exact H].
Qed.
Lemma judge_fresh inv now :
  is_stale (judge inv now) = false ->
  exists start committed, read inv "last_committed_capture_started_uptime_ms" = Some start /\
    read inv "last_committed_uptime_ms" = Some committed /\ start <= committed <= now /\
    now - start <= 360000.
Proof.
  unfold judge. destruct (negb _); [done|].
  destruct (read inv "last_committed_capture_started_uptime_ms") as [s|]; [|done].
  destruct (read inv "last_committed_uptime_ms") as [c|]; [|done].
  destruct ((c <? s) || (now <? c)) eqn:E; [done|]. destruct (Z.ltb_spec 360000 (now - s)); [done|].
  intros _. exists s, c. repeat split; lia.
Qed.

(** A stale capture never looks current.  After the annotation every inventory
    carries its freshness; one whose capture is missing, has invalid clock
    evidence, or started more than six minutes ago shows no positive state, and
    neither does any capability it supports, apart from the domains that are
    derived from several sources; and a capture counted as fresh was committed
    in this uptime domain and started at most 360000 ms ago. *)
Theorem stale_never_positive (health health' : json) (now : Z) (k : string) (prefixes : list string)
    (inv : list (string * json)) :
  apply_state_capture_freshness health now = Ok health' ->
  (k, prefixes) ∈ sources -> find k health = Some (JObj inv) ->
  let v := judge (JObj inv) now in
  (exists inv', find k health' = Some inv' /\
     find "capture_freshness" inv' = Some (freshness_json (JObj inv) now) /\
     (is_stale v = true -> shows_positive inv' = false)) /\
  (is_stale v = true ->
   forall i c id, caps health !! i = Some c -> find "id" c = Some (JStr id) ->
     matches prefixes id = true -> id ∉ domain_ids ->
     exists c', caps health' !! i = Some c' /\ shows_positive c' = false) /\
  (is_stale v = false ->
   exists start committed, read (JObj inv) "last_committed_capture_started_uptime_ms" = Some start /\
     read (JObj inv) "last_committed_uptime_ms" = Some committed /\ start <= committed <= now /\
     now - start <= 360000).
Proof.
  intros H Hsrc Hf v. apply apply_phases in H as (h1 & H1 & [HK HF]).
  destruct source_keys_ok as [Hnd Hnc].
  apply mark_sources_spec in H1 as (F & _ & K); [|done|done].
  assert (Hk : k ∈ source_keys) by (apply list_elem_of_fmap; by exists (k, prefixes)).
  assert (Hkc : k <> "capabilities") by (intros ->; done).
  split; [|split].
  - exists (mark_inventory (JObj inv) now). rewrite HK by done. split; [by apply K|].
    destruct (mark_inventory_spec (JObj inv) now eq_refl) as [E1 E2]. split; [done|].
    intros Hs. rewrite E2. fold v. by rewrite Hs.
  - intros Hs i c id Hi Hid Hm Hn.
    destruct (Forall2_lookup_l _ _ _ _ _ F Hi) as (c1 & Hi1 & [Hw _] & Hd).
    destruct (Forall2_lookup_l _ _ _ _ _ HF Hi1) as (c2 & Hi2 & Hsame). exists c2. split; [done|].
    rewrite (Hsame id) by (first [by rewrite Hw|done]). by eapply (Hd (k, prefixes)).
  - apply judge_fresh.
Qed.

Definition stale_inventory : list (string * json) :=
  [("last_committed_capture_started_uptime_ms", JStr "1000");
   ("last_committed_record_id", JStr "rec-1"); ("last_committed_uptime_ms", JStr "2000");
   ("state", JStr "healthy")].
Definition sample_health : json :=
  JObj [("capabilities", JArr [JObj [("id", JStr "state.route_table"); ("reason", JStr "ok");
                                     ("state", JStr "healthy")]]);
        ("route_inventory", JObj stale_inventory)].
Definition sample_health' : json :=
  match apply_state_capture_freshness sample_health 400000 with Ok h => h | Throw _ => JNull end.
Lemma stale_never_positive_witness :
  let v := judge (JObj stale_inventory) 400000 in
  (exists inv', find "route_inventory" sample_health' = Some inv' /\
     find "capture_freshness" inv' = Some (freshness_json (JObj stale_inventory) 400000) /\
     (is_stale v = true -> shows_positive inv' = false)) /\
  (is_stale v = true ->
   forall i c id, caps sample_health !! i = Some c -> find "id" c = Some (JStr id) ->
     matches ["state.route_"] id = true -> id ∉ domain_ids ->
     exists c', caps sample_health' !! i = Some c' /\ shows_positive c' = false) /\
  (is_stale v = false ->
   exists start committed,
     read (JObj stale_inventory) "last_committed_capture_started_uptime_ms" = Some start /\
     read (JObj stale_inventory) "last_committed_uptime_ms" = Some committed /\
     start <= committed <= 400000 /\ 400000 - start <= 360000).
Proof.
  apply (stale_never_positive sample_health sample_health' 400000 "route_inventory" ["state.route_"]
    stale_inventory).
  - vm_compute. reflexivity.
  - apply (bool_decide_unpack _). vm_compute. exact I.
  - reflexivity.
Defined.

(** ** The buffer of freshness transitions *)
Record StateCaptureGapBuffer := {
  state_queue_ : Queue; state_observed_ : json; state_samples_ : json; last_sample_ : option Z
}.
Definition new_state_buffer (reports bytes : Z) : result StateCaptureGapBuffer :=
  q ← new_queue reports bytes "state capture history limits invalid";
  Ok {| state_queue_ := q; state_observed_ := JObj []; state_samples_ := JObj []; last_sample_ := None |}.
Definition state_summary (pending first last : Z) : json :=
  object [("gap_kind", JStr "state_capture_freshness_history_bound");
    ("omitted_transition_reports", num pending); ("first_omitted_sample_uptime_ms", num first);
    ("last_omitted_sample_uptime_ms", num last); ("lost_native_events", JNull);
    ("source_event_range", JNull); ("reconciliation", JStr "pending");
    ("scope", JStr "observed freshness transitions omitted from bounded volatile history; not a native event loss count")].
(** whether the freshness differs from the one observed before; [at] throws *)
Definition changed (prior : option json) (current : json) : result bool :=
  match prior with
  | None => Ok true
  | Some p =>
      ps ← at_ "state" p;
      cs ← at_ "state" current;
      if negb (jeq ps cs) then Ok true
      else pr ← at_ "reason" p; cr ← at_ "reason" current; Ok (negb (jeq pr cr))
  end.
Definition transition_json (k : string) (prior : option json) (current samples : json) (uptime : Z) : json :=
  object [("gap_kind", JStr "state_capture_freshness_transition"); ("state_source", JStr k);
    ("transition_kind", JStr match prior with
       | None => "initial_sample_history_unknown" | Some _ => "eligibility_changed" end);
    ("previous_freshness", default JNull prior); ("current_freshness", current);
    ("previous_sample_uptime_ms", default JNull (find k samples)); ("sample_uptime_ms", num uptime);
    ("lost_native_events", JNull); ("source_event_range", JNull); ("reconciliation", JStr "pending");
    ("interval", JStr "between_health_samples_or_unknown");
    ("scope", JStr "sampled state capture eligibility transition; not exact outage onset, continuous telemetry loss or proof of full coverage")].

Section StateBuffer.
Context (dump : json -> result string).
(** the sample of one source; an exception leaves what was done before *)
Definition observe_source (health : json) (uptime : Z) (k : string) (b : StateCaptureGapBuffer)
  : result unit * StateCaptureGapBuffer :=
  match find k health ≫= find "capture_freshness" with
  | Some current =>
      if contains "state" current && contains "reason" current then
        let prior := find k (state_observed_ b) in
        match changed prior current with
        | Throw e => (Throw e, b)
        | Ok is_new =>
            let '(r, q) := if is_new
                           then report dump (transition_json k prior current (state_samples_ b) uptime)
                                  uptime (state_queue_ b)
                           else (Ok tt, state_queue_ b) in
            match r with
            | Throw e => (Throw e, {| state_queue_ := q; state_observed_ := state_observed_ b;
                                      state_samples_ := state_samples_ b; last_sample_ := last_sample_ b |})
            | Ok _ => (Ok tt, {| state_queue_ := q;
                                 state_observed_ := set_member k current (state_observed_ b);
                                 state_samples_ := set_member k (num uptime) (state_samples_ b);
                                 last_sample_ := last_sample_ b |})
            end
        end
      else (Ok tt, b)
  | None => (Ok tt, b)
  end.
Fixpoint observe_sources (health : json) (uptime : Z) (ks : list string) (b : StateCaptureGapBuffer)
  : result unit * StateCaptureGapBuffer :=
  match ks with
  | [] => (Ok tt, b)
  | k :: ks =>
      match observe_source health uptime k b with
      | (Throw e, b) => (Throw e, b)
      | (Ok _, b) => observe_sources health uptime ks b
      end
  end.
Definition observe_health (health : json) (uptime : Z) (b : StateCaptureGapBuffer)
  : result unit * StateCaptureGapBuffer :=
  let with_queue q := {| state_queue_ := q; state_observed_ := state_observed_ b;
                         state_samples_ := state_samples_ b; last_sample_ := last_sample_ b |} in
  match flush_omissions dump state_summary (state_queue_ b) with
  | (Throw e, q) => (Throw e, with_queue q)
  | (Ok _, q) =>
      match observe_sources health uptime (fst <$> sources) (with_queue q) with
      | (Throw e, b) => (Throw e, b)
      | (Ok _, b) => (Ok tt, {| state_queue_ := state_queue_ b; state_observed_ := state_observed_ b;
                                state_samples_ := state_samples_ b; last_sample_ := Some uptime |})
      end
  end.
Definition state_acknowledge_front (b : StateCaptureGapBuffer) : result unit * StateCaptureGapBuffer :=
  let '(r, q) := acknowledge_front dump state_summary "no state capture gap to acknowledge" (state_queue_ b) in
  (r, {| state_queue_ := q; state_observed_ := state_observed_ b; state_samples_ := state_samples_ b;
         last_sample_ := last_sample_ b |}).
Definition state_snapshot (b : StateCaptureGapBuffer) : json :=
  object (queue_snapshot (state_queue_ b)
    ++ [("last_sample_uptime_ms", decimal (last_sample_ b));
        ("scope", JStr "volatile bounded sampled transition history; encoded data excludes baseline/JSON/allocator/canonical record memory; restart counters reset and abrupt-exit loss unknown")]).

(** the queue discipline of [SourceGaps] holds for this buffer too: every step keeps
    an exact history, extended by the transitions it found *)
Lemma observe_source_history gaps acked health uptime k b r b' :
  history_ok state_summary gaps acked (state_queue_ b) -> zlen gaps < u64_max ->
  observe_source health uptime k b = (r, b') ->
  exists new, zlen new <= 1 /\ history_ok state_summary (gaps ++ new) acked (state_queue_ b').
Proof.
  intros Hok Hn. assert (Hnone : exists new : list (json * Z), zlen new <= 1 /\
    history_ok state_summary (gaps ++ new) acked (state_queue_ b)).
  { exists []. rewrite app_nil_r. split; [vm_compute; discriminate|done]. }
  unfold observe_source. destruct (find k health ≫= _) as [current|]; [|by intros [= <- <-]].
  destruct (_ && _); [|by intros [= <- <-]]. destruct (changed _ _) as [[]|e];
    [|by intros [= <- <-]|by intros [= <- <-]].
  set (j := transition_json k _ current _ uptime).
  destruct (report dump j uptime (state_queue_ b)) as [[[]|e] q] eqn:Er; intros [= <- <-]; simpl.
  - exists [(j, uptime)]. split; [vm_compute; discriminate|]. by eapply report_history.
  - exists []. rewrite app_nil_r. split; [vm_compute; discriminate|]. by eapply report_throw_history.
Qed.
End StateBuffer.
