(* ===== verification/Usn.v ===== *)
(** * The USN change-journal decoder

    [collectors/usn_decoder.cpp]: the cursor text and the decoding of a native
    [FSCTL_READ_USN_JOURNAL] buffer.  Bytes are integers below 256; the system's
    UTF-16 conversion is a parameter. *)

From S2P Require Import Prelude Json SourceGaps.

Record UsnCursor := { journal_id : Z; next_usn : Z }.

(** ** Fields of a span *)
Fixpoint little_endian (l : list Z) : Z :=
  match l with [] => 0 | b :: l => b + 256 * little_endian l end.
(** [at<T>]: [width] bytes at [offset]; throws when they are not all there *)
Definition at_bytes (width : nat) (buffer : list Z) (offset : Z) : result Z :=
  _ ← throw_if ((zlen buffer <? offset) || (zlen buffer - offset <? Z.of_nat width))
        (invalid_argument "short USN field");
  Ok (little_endian (take width (drop (Z.to_nat offset) buffer))).
Definition at_u16 := at_bytes 2.
Definition at_u32 := at_bytes 4.
Definition at_i64 (buffer : list Z) (offset : Z) : result Z := i64 <$> at_bytes 8 buffer offset.

Definition nibble (v : Z) : ascii :=
  if v <? 10 then ascii_of_N (Z.to_N (48 + v)) else ascii_of_N (Z.to_N (87 + v)).
Fixpoint hex (l : list Z) : string :=
  match l with
  | [] => ""
  | b :: l => String (nibble (Z.shiftr b 4)) (String (nibble (Z.land b 15)) (hex l))
  end.
(** [buffer.subspan(offset, count)], within the buffer *)
Definition subspan (buffer : list Z) (offset count : Z) : list Z :=
  take (Z.to_nat count) (drop (Z.to_nat offset) buffer).

(** ** The cursor *)
Section Cursor.
Context (dump : json -> string) (json_parse : string -> result json).

Definition number (v : json) (maximum : Z) : result Z :=
  match v with
  | JStr s =>
      match from_chars_all u64_max s with
      | Some n =>
          if str_empty s || ((1 <? slen s) && starts_with "0" s) || (maximum <? n)
          then Throw (invalid_argument "invalid canonical USN cursor scalar") else Ok n
      | None => Throw (invalid_argument "invalid canonical USN cursor scalar")
      end
  | _ => Throw (invalid_argument "USN cursor scalar is not a string")
  end.
Definition cursor_json (c : UsnCursor) : json :=
  object [("format", JStr "windows_usn_cursor_v1"); ("journal_id", num (journal_id c));
          ("next_usn", num (next_usn c))].
Definition encode_usn_cursor (c : UsnCursor) : result string :=
  if next_usn c <? 0 then Throw (invalid_argument "negative USN cursor")
  else Ok (dump (cursor_json c)).
Definition decode_usn_cursor (value : string) : result UsnCursor :=
  _ ← throw_if (512 <? slen value) (invalid_argument "USN cursor copy bound");
  data ← json_parse value;
  _ ← throw_if (negb (is_object data) || negb (size_ data =? 3))
        (invalid_argument "unsupported USN cursor shape/version");
  format ← value_string "format" data;
  _ ← throw_if (negb (String.eqb format "windows_usn_cursor_v1"))
        (invalid_argument "unsupported USN cursor shape/version");
  id ← (at_ "journal_id" data |> fun v => number v u64_max);
  usn ← (at_ "next_usn" data |> fun v => number v i64_max);
  Ok {| journal_id := id; next_usn := usn |}.
End Cursor.

(** ** The buffer *)
Section Buffer.
(** the UTF-8 text of UTF-16LE bytes; [None]: not valid UTF-16 *)
Context (utf8_of_utf16 : list Z -> option string).

(** one record: its version fields, then by version *)
Definition unsupported_row (record : list Z) (major minor length : Z) : json :=
  object [("major_version", JUint major); ("minor_version", JUint minor);
    ("record_length", JUint length); ("state", JStr "unsupported");
    ("reason", JStr "uninterpreted_native_record_version"); ("raw_record_hex", JStr (hex record))].
(** a version 2 or 3 record: its row and its USN *)
Definition versioned_row (record : list Z) (major minor length last next : Z) : result (json * Z) :=
  let extra := if major =? 3 then 16 else 0 in
  _ ← throw_if (length <? 60 + extra) (invalid_argument "short USN versioned record");
  usn ← at_i64 record (24 + extra);
  _ ← throw_if ((usn <? last) || (next <=? usn))
        (invalid_argument "USN record outside requested/returned cursor interval");
  name_length ← at_u16 record (56 + extra);
  name_offset ← at_u16 record (58 + extra);
  _ ← throw_if ((name_offset <? 60 + extra) || negb (name_offset mod 2 =? 0)
                || negb (name_length mod 2 =? 0) || (length <? name_offset)
                || (length - name_offset <? name_length))
        (invalid_argument "invalid USN UTF-16 filename span");
  let name_bytes := subspan record name_offset name_length in
  let name := if name_length =? 0 then JStr "" else opt_json JStr (utf8_of_utf16 name_bytes) in
  timestamp ← at_i64 record (32 + extra);
  reason ← at_u32 record (40 + extra);
  source_info ← at_u32 record (44 + extra);
  security ← at_u32 record (48 + extra);
  attributes ← at_u32 record (52 + extra);
  let width := if major =? 3 then 16 else 8 in
  Ok (object [("major_version", JUint major); ("minor_version", JUint minor);
        ("record_length", JUint length);
        ("state", JStr (if is_null name then "degraded" else "healthy")); ("usn", num usn);
        ("file_id_native_bytes_hex", JStr (hex (subspan record 8 width)));
        ("parent_file_id_native_bytes_hex",
           JStr (hex (subspan record (if major =? 3 then 24 else 16) width)));
        ("file_id_width_bits", JInt (if major =? 3 then 128 else 64));
        ("native_timestamp_filetime_signed", num timestamp); ("reason_mask", num reason);
        ("source_info_mask", num source_info); ("security_id", num security);
        ("file_attributes", num attributes); ("filename", name);
        ("filename_utf16le_hex", JStr (hex name_bytes)); ("path", JNull);
        ("process_reference", JNull); ("rename_pair_verified", JBool false)], usn).

Record UsnRow := { row_json : json; row_bytes : list Z; row_usn : option Z }.
(** the record at the front of [remaining], its length and the last USN after it *)
Definition decode_record (remaining : list Z) (last next : Z) : result (UsnRow * Z * Z) :=
  length ← at_u32 remaining 0;
  _ ← throw_if ((length <? 8) || negb (length mod 8 =? 0) || (zlen remaining <? length))
        (invalid_argument "invalid USN record length/alignment");
  let record := take (Z.to_nat length) remaining in
  major ← at_u16 record 4;
  minor ← at_u16 record 6;
  if negb (major =? 2) && negb (major =? 3)
  then Ok ({| row_json := unsupported_row record major minor length; row_bytes := record;
              row_usn := None |}, length, last)
  else
    row ← versioned_row record major minor length last next;
    Ok ({| row_json := row.1; row_bytes := record; row_usn := Some row.2 |}, length, row.2).
(** the records of the rest of the buffer; every record has at least eight bytes,
    so the number of bytes left is enough fuel *)
Fixpoint decode_records (fuel : nat) (remaining : list Z) (last next : Z) : result (list UsnRow) :=
  match remaining, fuel with
  | [], _ => Ok []
  | _, O => Throw (runtime_error "out of fuel")
  | _, S fuel =>
      '(row, length, last) ← decode_record remaining last next;
      rows ← decode_records fuel (drop (Z.to_nat length) remaining) last next;
      Ok (row :: rows)
  end.
Definition batch_json (buffer : list Z) (start next : Z) (rows : list UsnRow) : json :=
  object [("format", JStr "windows_usn_batch_v1"); ("state", JStr "degraded");
    ("requested_start_usn", num start); ("next_usn", num next);
    ("entries", JArr (row_json <$> rows));
    ("uninterpreted_version_records",
       num (zlen (filter (fun r => row_usn r = None) rows)));
    ("native_buffer_bytes", JUint (zlen buffer)); ("raw_native_buffer_hex", JStr (hex buffer));
    ("full_native_buffer_retained", JBool true); ("process_attribution_verified", JBool false);
    ("full_file_coverage_verified", JBool false); ("event_boot_id", JNull);
    ("timestamp_semantics", JStr "per-record raw signed native FILETIME; envelope clock is capture time")].
Definition decode_rows (buffer : list Z) (start : Z) : result (Z * list UsnRow) :=
  _ ← throw_if ((start <? 0) || (zlen buffer <? 8) || (16384 <? zlen buffer))
        (invalid_argument "USN native buffer bound");
  next ← at_i64 buffer 0;
  _ ← throw_if (next <? start) (invalid_argument "USN native cursor regressed");
  rows ← decode_records (length buffer) (drop 8 buffer) start next;
  Ok (next, rows).
Definition decode_usn_buffer (buffer : list Z) (start : Z) : result json :=
  decoded ← decode_rows buffer start;
  Ok (batch_json buffer start decoded.1 decoded.2).
End Buffer.

(** ** The cursor round trip *)
Lemma to_string_no_zero n : 0 <= n -> (1 <? slen (to_string n)) && starts_with "0" (to_string n) = false.
Proof.
  intros Hn. rewrite to_string_nonneg by done. destruct (decide (n = 0)) as [->|Hne]; [reflexivity|].
  destruct (udec_leading n) as (c & r & E & Hc); [lia|]. rewrite E. apply andb_false_iff. right.
  cbn [starts_with]. rewrite andb_true_r. apply Ascii.eqb_neq. congruence.
Qed.
Lemma number_num n maximum : 0 <= n <= maximum -> maximum <= u64_max -> number (num n) maximum = Ok n.
Proof.
  intros Hn Hm. unfold number, num. rewrite from_chars_to_string by lia.
  rewrite to_string_no_zero by lia.
  assert (str_empty (to_string n) = false) as ->.
  { rewrite to_string_nonneg by lia. pose proof (udec_nonempty n). by destruct (udec n). }
  by destruct (Z.ltb_spec maximum n); [lia|].
Qed.

(** The cursor text is read back exactly.  For a library whose parser reads back
    what its printer wrote, every cursor that can be encoded decodes to itself;
    only a negative USN is refused. *)
Theorem usn_cursor_roundtrip (dump : json -> string) (json_parse : string -> result json)
    (c : UsnCursor) (text : string) :
  0 <= journal_id c <= u64_max -> next_usn c <= i64_max ->
  json_parse (dump (cursor_json c)) = Ok (cursor_json c) -> slen (dump (cursor_json c)) <= 512 ->
  encode_usn_cursor dump c = Ok text -> decode_usn_cursor json_parse text = Ok c.
Proof.
  intros Hj Hu Hp Hl. unfold encode_usn_cursor. destruct (Z.ltb_spec (next_usn c) 0); [done|].
  intros [= <-]. unfold decode_usn_cursor. destruct (Z.ltb_spec 512 (slen (dump (cursor_json c)))); [lia|].
  simpl throw_if. cbn [mbind result_bind]. rewrite Hp. cbn [mbind result_bind].
  assert (E : cursor_json c = JObj [("format", JStr "windows_usn_cursor_v1");
    ("journal_id", num (journal_id c)); ("next_usn", num (next_usn c))]) by reflexivity.
  rewrite E. cbn -[number u64_max i64_max]. rewrite (number_num (journal_id c)) by lia. cbn -[number u64_max i64_max].
  rewrite (number_num (next_usn c)) by (unfold i64_max, u64_max in *; lia). by destruct c.
Qed.
Definition cursor_7 : UsnCursor := {| journal_id := 7; next_usn := 4096 |}.
Lemma usn_cursor_roundtrip_witness :
  decode_usn_cursor (fun _ => Ok (cursor_json cursor_7)) "cursor" = Ok cursor_7.
Proof.
  apply (usn_cursor_roundtrip (fun _ => "cursor") (fun _ => Ok (cursor_json cursor_7)) cursor_7 "cursor");
    vm_compute; try reflexivity; try discriminate; split; discriminate.
Defined.

(** ** The records partition the buffer *)
Section Partition.
Context (utf8_of_utf16 : list Z -> option string).

Lemma decode_record_spec remaining last next row len last' :
  decode_record utf8_of_utf16 remaining last next = Ok (row, len, last') ->
  8 <= len <= zlen remaining /\ len mod 8 = 0 /\ row_bytes row = take (Z.to_nat len) remaining /\
  match row_usn row with
  | Some usn => last <= usn < next /\ last' = usn
  | None => last' = last
  end.
Proof.
  unfold decode_record. intros H. apply bind_Ok in H as (n & Hn & H).
  apply bind_Ok in H as ([] & Hc & H). apply throw_if_Ok in Hc.
  apply bind_Ok in H as (major & _ & H). apply bind_Ok in H as (minor & _ & H).
  destruct (_ && _).
  - injection H as <- <- <-. simpl. repeat split; lia.
  - apply bind_Ok in H as ([j usn] & Hv & H). injection H as <- <- <-. simpl.
    unfold versioned_row in Hv. apply bind_Ok in Hv as ([] & _ & Hv).
    apply bind_Ok in Hv as (u & _ & Hv). apply bind_Ok in Hv as ([] & Hu & Hv). apply throw_if_Ok in Hu.
    do 3 (apply bind_Ok in Hv as (? & _ & Hv)). cbv zeta in Hv.
    do 5 (apply bind_Ok in Hv as (? & _ & Hv)). injection Hv as _ <-. repeat split; lia.
Qed.
(** the USNs of the interpreted rows rise from [last] and stay below [next] *)
Fixpoint rising (last next : Z) (usns : list Z) : Prop :=
  match usns with [] => True | u :: us => last <= u < next /\ rising u next us end.
Lemma decode_records_spec fuel remaining last next rows :
  decode_records utf8_of_utf16 fuel remaining last next = Ok rows ->
  concat (row_bytes <$> rows) = remaining /\ rising last next (omap row_usn rows) /\
  Forall (fun r => 8 <= zlen (row_bytes r) /\ zlen (row_bytes r) mod 8 = 0) rows.
Proof.
  revert remaining last rows; induction fuel as [|fuel IH]; intros [|b rest] last rows H;
    cbn [decode_records] in H; try done; try (injection H as <-; split; [done|]; split; [done|constructor]).
  apply bind_Ok in H as ([[row len] last'] & Hr & H). apply bind_Ok in H as (rows' & Hrs & [= <-]).
  apply decode_record_spec in Hr as (Hl & Hm & Hb & Hu).
  apply IH in Hrs as (Hc & Hris & Hf).
  assert (Hlen : zlen (row_bytes row) = len).
  { rewrite Hb. unfold zlen in *. rewrite length_take. lia. }
  split; [|split].
  - cbn [fmap list_fmap concat]. change (list_fmap _ _ row_bytes rows') with (row_bytes <$> rows').
    rewrite Hc, Hb. apply take_drop.
  - cbn [omap list_omap]. destruct (row_usn row) as [usn|]; [|by subst].
    destruct Hu as [Hu ->]. by split.
  - constructor; [|done]. rewrite Hlen. split; [lia|done].
Qed.
Lemma at_bytes_no_fuel w l o : at_bytes w l o <> Throw (runtime_error "out of fuel").
Proof. unfold at_bytes, throw_if. by destruct (_ || _). Qed.
Definition not_fuel {A} (r : result A) : Prop := r <> Throw (runtime_error "out of fuel").
Lemma not_fuel_bind {A B} (r : result A) (f : A -> result B) :
  not_fuel r -> (forall a, r = Ok a -> not_fuel (f a)) -> not_fuel (r ≫= f).
Proof. intros Hr Hf. destruct r; [by apply Hf|]. intros E. apply Hr. by injection E as ->. Qed.
Lemma not_fuel_throw_if b w : not_fuel (throw_if b (invalid_argument w)).
Proof. by destruct b. Qed.
Lemma not_fuel_fmap {A B} (g : A -> B) r : not_fuel r -> not_fuel (g <$> r).
Proof. intros Hr. destruct r as [a|e]; [done|]. intros E. apply Hr. by injection E as ->. Qed.
Ltac no_fuel := repeat first
  [ apply not_fuel_throw_if | apply at_bytes_no_fuel | apply not_fuel_fmap
  | apply not_fuel_bind; [|intros ? _] | done ].
Lemma decode_record_fuel remaining last next : not_fuel (decode_record utf8_of_utf16 remaining last next).
Proof.
  unfold decode_record, at_u16, at_u32. apply not_fuel_bind; [no_fuel|]. intros len _.
  apply not_fuel_bind; [no_fuel|]. intros _ _. apply not_fuel_bind; [no_fuel|]. intros major _.
  apply not_fuel_bind; [no_fuel|]. intros minor _. destruct (_ && _); [done|].
  apply not_fuel_bind; [|done]. unfold versioned_row, at_i64, at_u16, at_u32. no_fuel.
Qed.
Lemma decode_records_fuel fuel remaining last next :
  (length remaining <= fuel)%nat -> not_fuel (decode_records utf8_of_utf16 fuel remaining last next).
Proof.
  revert remaining last; induction fuel as [|fuel IH]; intros [|b rest] last Hl; try done;
    [simpl in Hl; lia|].
  cbn [decode_records]. apply not_fuel_bind; [apply decode_record_fuel|].
  intros [[row len] last'] Hr. apply decode_record_spec in Hr as (Hlen & _).
  apply not_fuel_bind; [|done]. apply IH. rewrite length_drop. unfold zlen in Hlen. lia.
Qed.

(** The decoder consumes the whole native buffer, record by record.  Decoding
    always ends with rows or one of the code's refusals; on success the records
    are consecutive slices, of at least eight bytes and aligned, that together
    are exactly the buffer after the next-USN field, and the USNs of the
    interpreted ones never decrease, start at the requested cursor or later and
    stay below the returned one. *)
Theorem usn_rows_partition (buffer : list Z) (start : Z) :
  match decode_rows utf8_of_utf16 buffer start with
  | Ok (next, rows) =>
      concat (row_bytes <$> rows) = drop 8 buffer /\ 0 <= start <= next /\
      rising start next (omap row_usn rows) /\
      Forall (fun r => 8 <= zlen (row_bytes r) /\ zlen (row_bytes r) mod 8 = 0) rows
  | Throw e => e <> runtime_error "out of fuel"
  end.
Proof.
  destruct (decode_rows utf8_of_utf16 buffer start) as [[next rows]|e] eqn:E.
  - unfold decode_rows in E. apply bind_Ok in E as ([] & H0 & E). apply throw_if_Ok in H0.
    apply bind_Ok in E as (n & _ & E). apply bind_Ok in E as ([] & H1 & E). apply throw_if_Ok in H1.
    apply bind_Ok in E as (rs & Hr & [= <- <-]).
    apply decode_records_spec in Hr as (Hc & Hris & Hf). repeat split; try done; lia.
  - intros ->. revert E. change (not_fuel (decode_rows utf8_of_utf16 buffer start)).
    unfold decode_rows, at_i64. no_fuel. apply decode_records_fuel. rewrite length_drop. lia.
Qed.
End Partition.
(** a buffer with one record of an unknown version *)
Example usn_sample :
  decode_rows (fun _ => None) [100; 0; 0; 0; 0; 0; 0; 0; 8; 0; 0; 0; 9; 0; 1; 0] 50
    = Ok (100, [{| row_json := unsupported_row [8; 0; 0; 0; 9; 0; 1; 0] 9 1 8;
                   row_bytes := [8; 0; 0; 0; 9; 0; 1; 0]; row_usn := None |}]).
Proof. vm_compute. reflexivity. Qed.
