(* ===== verification/ImageCache.v ===== *)
(** * The process image cache and the coverage registry

    [collectors/process_image_cache.cpp]: the two-generation cache of process
    creations that backfills unresolved image names, and
    [health/coverage.cpp]: the registry of declared capabilities. *)

From S2P Require Import Prelude Telemetry Json SourceGaps.

(** ** The cache *)
Record ProcessImageCache := {
  generation_capacity_ : Z; hot_ : gmap string CachedProcessContext; cold_ : gmap string CachedProcessContext
}.
Definition kUnknownProcessSentinel : string := "<unknown process>".
Definition new_cache (generation_capacity : Z) : ProcessImageCache :=
  {| generation_capacity_ := Z.max generation_capacity 1; hot_ := ∅; cold_ := ∅ |}.
Definition identity_of (e : RawProcessEvent) (guid : string) : CachedProcessContext :=
  {| cc_source := pe_source e; cc_process_start_time := pe_process_start_time e; cc_pid := pe_pid e;
     cc_process_guid := guid; cc_executable := pe_executable e; cc_user_name := pe_user_name e;
     cc_user_sid := pe_user_sid e |}.
(** the GUID a creation is remembered by; a stop is not a creation *)
Definition creation_guid (e : RawProcessEvent) : option string :=
  if pe_terminated e then None
  else match pe_process_guid e with
       | Some g => if str_empty g then None else Some g
       | None => None
       end.
Definition remember (e : RawProcessEvent) (c : ProcessImageCache) : ProcessImageCache :=
  match creation_guid e with
  | None => c
  | Some guid =>
      let rotates := (generation_capacity_ c <=? Z.of_nat (size (hot_ c)))
                     && negb (bool_decide (is_Some (hot_ c !! guid))) in
      {| generation_capacity_ := generation_capacity_ c;
         hot_ := <[guid := identity_of e guid]> (if rotates then ∅ else hot_ c);
         cold_ := if rotates then hot_ c else cold_ c |}
  end.
Definition find_locked (guid : string) (c : ProcessImageCache) : option CachedProcessContext :=
  match hot_ c !! guid with Some i => Some i | None => cold_ c !! guid end.
Definition resolved (executable : option string) : bool :=
  match executable with
  | Some x => negb (str_empty x) && negb (String.eqb x kUnknownProcessSentinel)
  | None => false
  end.
Definition enrich (context : RawProcessContext) (c : ProcessImageCache) : bool * RawProcessContext :=
  match pc_process_guid context with
  | Some guid =>
      if resolved (pc_executable context) || str_empty guid then (false, context)
      else match find_locked guid c with
           | Some i =>
               if (cc_pid i =? pc_pid context) && resolved (cc_executable i)
               then (true, {| pc_pid := pc_pid context; pc_start_time_ticks := pc_start_time_ticks context;
                              pc_executable := pc_executable context;
                              pc_process_name := pc_process_name context;
                              pc_user_name := pc_user_name context; pc_user_sid := pc_user_sid context;
                              pc_process_guid := pc_process_guid context;
                              pc_cached_context := Some i |})
               else (false, context)
           | None => (false, context)
           end
  | None => (false, context)
  end.
Definition remember_all (es : list RawProcessEvent) (c : ProcessImageCache) : ProcessImageCache :=
  foldl (fun c e => remember e c) c es.

(** the latest creation with a GUID, oldest event first *)
Definition latest (guid : string) (es : list RawProcessEvent) : option CachedProcessContext :=
  foldl (fun acc e => if bool_decide (creation_guid e = Some guid)
                      then Some (identity_of e guid) else acc) None es.

(** what is found is the latest creation, and each generation is bounded *)
Record cache_ok (es : list RawProcessEvent) (c : ProcessImageCache) : Prop := {
  cache_latest : forall g i, find_locked g c = Some i -> latest g es = Some i;
  cache_capacity : 1 <= generation_capacity_ c;
  cache_bound : Z.of_nat (size (hot_ c)) <= generation_capacity_ c /\
                Z.of_nat (size (cold_ c)) <= generation_capacity_ c
}.
Lemma latest_snoc g es e :
  latest g (es ++ [e]) = if bool_decide (creation_guid e = Some g) then Some (identity_of e g)
                         else latest g es.
Proof. unfold latest. by rewrite foldl_app. Qed.
Lemma remember_ok es e c : cache_ok es c -> cache_ok (es ++ [e]) (remember e c).
Proof.
  intros [Hl Hc [Hb1 Hb2]]. unfold remember. destruct (creation_guid e) as [guid|] eqn:Eg.
  2: { constructor; [|done..]. intros g i Hf. rewrite latest_snoc, Eg. rewrite bool_decide_false by done. auto. }
  set (rotates := _ && _).
  assert (Hkeep : forall g, g <> guid -> forall i,
    find_locked g {| generation_capacity_ := generation_capacity_ c;
      hot_ := <[guid := identity_of e guid]> (if rotates then ∅ else hot_ c);
      cold_ := if rotates then hot_ c else cold_ c |} = Some i -> find_locked g c = Some i).
  { intros g Hg i. unfold find_locked. simpl. rewrite lookup_insert_ne by done.
    destruct rotates; [rewrite lookup_empty; by intros ->|done]. }
  constructor; [|done|].
  - intros g i Hf. rewrite latest_snoc, Eg. destruct (decide (g = guid)) as [->|Hne].
    + rewrite bool_decide_true by done. unfold find_locked in Hf. simpl in Hf.
      by rewrite lookup_insert_eq in Hf.
    + rewrite bool_decide_false by congruence. eauto.
  - simpl. subst rotates. destruct (Z.leb_spec (generation_capacity_ c) (Z.of_nat (size (hot_ c))));
      cbn [andb].
    + case_bool_decide as Hin; cbn [negb].
      * destruct Hin as [x Hx]. rewrite map_size_insert, Hx. done.
      * rewrite map_size_insert, lookup_empty, map_size_empty. cbn [id]. split; [lia|done].
    + rewrite map_size_insert. destruct (hot_ c !! guid); cbn [id]; lia.
Qed.
Lemma remember_all_ok es0 es c : cache_ok es0 c -> cache_ok (es0 ++ es) (remember_all es c).
Proof.
  revert es0 c; induction es as [|e es IH]; intros es0 c H; [by rewrite app_nil_r|].
  change (e :: es) with ([e] ++ es). rewrite app_assoc. simpl. by apply IH, remember_ok.
Qed.
Lemma new_cache_ok n : cache_ok [] (new_cache n).
Proof.
  constructor; simpl; [|lia|rewrite map_size_empty; lia]. intros g i. unfold find_locked. simpl.
  by rewrite !lookup_empty.
Qed.

Lemma remember_all_capacity es c : generation_capacity_ (remember_all es c) = generation_capacity_ c.
Proof.
  revert c; induction es as [|e es IH]; intros c; [done|].
  change (remember_all (e :: es) c) with (remember_all es (remember e c)).
  rewrite IH. unfold remember. by destruct (creation_guid e).
Qed.
(** an entry survives until at least [capacity] more creations were remembered *)
Lemma remember_all_survives es c g k :
  1 <= generation_capacity_ c ->
  (is_Some (hot_ c !! g) \/ (is_Some (cold_ c !! g) /\ Z.of_nat (size (hot_ c)) <= k)) -> 0 <= k ->
  k + zlen es <= generation_capacity_ c ->
  is_Some (find_locked g (remember_all es c)).
Proof.
  revert c k; induction es as [|e es IH]; intros c k Hcap Hg Hk Hl.
  { unfold find_locked. simpl. destruct (hot_ c !! g); [done|]. destruct Hg as [[? ?]|[? _]]; done. }
  rewrite zlen_cons in Hl. pose proof (zlen_nonneg es).
  change (remember_all (e :: es) c) with (remember_all es (remember e c)). apply (IH (remember e c) (k + 1)).
  - change (remember e c) with (remember_all [e] c). by rewrite remember_all_capacity.
  - unfold remember. destruct (creation_guid e) as [guid|]; [|destruct Hg as [?|[? ?]]; [by left|right; split; [done|lia]]].
    simpl. destruct (decide (g = guid)) as [->|Hne]; [left; by rewrite lookup_insert_eq|].
    rewrite lookup_insert_ne by done.
    destruct (Z.leb_spec (generation_capacity_ c) (Z.of_nat (size (hot_ c)))); cbn [andb].
    + case_bool_decide as Hin; cbn [negb].
      * destruct Hg as [?|[? ?]]; [by left|right]. split; [done|]. rewrite map_size_insert.
        destruct Hin as [x ->]. cbn [id]. lia.
      * right. rewrite map_size_insert, lookup_empty, map_size_empty. split; [|lia].
        destruct Hg as [?|[? ?]]; [done|lia].
    + destruct Hg as [?|[? ?]]; [by left|right]. split; [done|]. rewrite map_size_insert.
      destruct (hot_ c !! guid); cbn [id]; lia.
  - lia.
  - change (remember e c) with (remember_all [e] c). rewrite remember_all_capacity. lia.
Qed.

(** Backfill never invents or transfers a fact.  Whatever was remembered, when
    [enrich] attaches a context, that context is exactly the latest creation
    with the same process GUID, its pid is the event's own, its image is
    resolved, and no decoded field of the event changes; and neither generation
    exceeds its capacity. *)
Theorem enrich_sound (capacity : Z) (es : list RawProcessEvent) (context context' : RawProcessContext) :
  let c := remember_all es (new_cache capacity) in
  enrich context c = (true, context') ->
  (exists guid i, pc_process_guid context = Some guid /\ latest guid es = Some i /\
     cc_pid i = pc_pid context /\ resolved (cc_executable i) = true /\
     resolved (pc_executable context) = false /\
     context' = {| pc_pid := pc_pid context; pc_start_time_ticks := pc_start_time_ticks context;
       pc_executable := pc_executable context; pc_process_name := pc_process_name context;
       pc_user_name := pc_user_name context; pc_user_sid := pc_user_sid context;
       pc_process_guid := Some guid; pc_cached_context := Some i |}) /\
  Z.of_nat (size (hot_ c)) <= Z.max capacity 1 /\ Z.of_nat (size (cold_ c)) <= Z.max capacity 1.
Proof.
  intros c H. pose proof (remember_all_ok [] es _ (new_cache_ok capacity)) as [Hl _ Hb]. fold c in Hl, Hb.
  assert (generation_capacity_ c = Z.max capacity 1) as Hcap.
  { subst c. by rewrite remember_all_capacity. }
  split; [|by rewrite <- Hcap]. unfold enrich in H.
  destruct (pc_process_guid context) as [guid|] eqn:Eg; [|done].
  destruct (resolved (pc_executable context) || str_empty guid) eqn:Er; [done|].
  apply orb_false_iff in Er as [Er _].
  destruct (find_locked guid c) as [i|] eqn:Ef; [|done].
  destruct ((cc_pid i =? pc_pid context) && _) eqn:Ec; [|done]. injection H as <-.
  apply andb_true_iff in Ec as [Ep Ex]. exists guid, i. apply Hl in Ef. simpl in Ef.
  repeat split; try done; lia.
Qed.

Definition created (pid : Z) (guid image : string) : RawProcessEvent := {|
  pe_source := {| sp_kind := sysmon; sp_provider := "p"; sp_channel := None; sp_record_id := None |};
  pe_process_start_time := 1; pe_pid := pid; pe_start_time_ticks := None;
  pe_process_guid := Some guid; pe_parent_process_guid := None; pe_parent_pid := None;
  pe_parent_executable := None; pe_executable := Some image; pe_command_line := None;
  pe_user_sid := None; pe_user_name := None; pe_sha256 := None; pe_terminated := false;
  pe_termination_time := None; pe_termination_time_ticks := None; pe_exit_code := None;
  pe_native_fields := None; pe_sysmon_fields := None |}.
Definition unresolved (pid : Z) (guid : string) : RawProcessContext := {|
  pc_pid := pid; pc_start_time_ticks := None; pc_executable := Some kUnknownProcessSentinel;
  pc_process_name := None; pc_user_name := None; pc_user_sid := None; pc_process_guid := Some guid;
  pc_cached_context := None |}.
Definition creations : list RawProcessEvent := [created 7 "{a}" "a.exe"; created 8 "{b}" "b.exe"].
Definition enriched : RawProcessContext :=
  (enrich (unresolved 7 "{a}") (remember_all creations (new_cache 1))).2.
Lemma enrich_sound_witness :
  (exists guid i, pc_process_guid (unresolved 7 "{a}") = Some guid /\ latest guid creations = Some i /\
     cc_pid i = pc_pid (unresolved 7 "{a}") /\ resolved (cc_executable i) = true /\
     resolved (pc_executable (unresolved 7 "{a}")) = false /\
     enriched = {| pc_pid := pc_pid (unresolved 7 "{a}");
       pc_start_time_ticks := pc_start_time_ticks (unresolved 7 "{a}");
       pc_executable := pc_executable (unresolved 7 "{a}");
       pc_process_name := pc_process_name (unresolved 7 "{a}");
       pc_user_name := pc_user_name (unresolved 7 "{a}"); pc_user_sid := pc_user_sid (unresolved 7 "{a}");
       pc_process_guid := Some guid; pc_cached_context := Some i |}) /\
  Z.of_nat (size (hot_ (remember_all creations (new_cache 1)))) <= Z.max 1 1 /\
  Z.of_nat (size (cold_ (remember_all creations (new_cache 1)))) <= Z.max 1 1.
Proof.
  apply (enrich_sound 1 creations (unresolved 7 "{a}") enriched). vm_compute. reflexivity.
Defined.

(** ** The coverage registry *)
Inductive CapabilityState := healthy | degraded | unavailable | disabled | unsupported | blind_.
Definition state_name (s : CapabilityState) : string :=
  match s with
  | healthy => "healthy" | degraded => "degraded" | unavailable => "unavailable"
  | disabled => "disabled" | unsupported => "unsupported" | blind_ => "blind"
  end.
Record Capability := {
  cap_id : string; cap_state : CapabilityState; cap_reason : string; cap_scope : string;
  updated_at : string; failure_count : Z
}.
Definition CoverageRegistry := list Capability.
(** [now] is the clock reading at the call *)
Fixpoint update_capability (now id : string) (st : CapabilityState) (reason scope : string)
    (failure : bool) (l : CoverageRegistry) : CoverageRegistry :=
  match l with
  | [] => [{| cap_id := id; cap_state := st; cap_reason := reason; cap_scope := scope;
              updated_at := now; failure_count := if failure then 1 else 0 |}]
  | c :: l =>
      if String.eqb (cap_id c) id
      then {| cap_id := cap_id c; cap_state := st; cap_reason := reason; cap_scope := scope;
              updated_at := now;
              failure_count := if failure then u64 (failure_count c + 1) else failure_count c |} :: l
      else c :: update_capability now id st reason scope failure l
  end.
Definition set_capability (now id : string) (st : CapabilityState) (reason scope : string)
    (failure : bool) (l : CoverageRegistry) : result CoverageRegistry :=
  _ ← throw_if (str_empty id || (128 <? slen id) || (2048 <? slen reason) || (2048 <? slen scope))
        (invalid_argument "capability metadata exceeds bounds");
  Ok (update_capability now id st reason scope failure l).
Definition declared_domains : list string :=
  ["A.host"; "B.process"; "C.thread_handle"; "D.user_session"; "E.authentication"; "F.powershell";
   "G.scripting_lolbin"; "H.filesystem"; "I.registry"; "J.persistence"; "K.service_driver";
   "L.scheduled_task"; "M.wmi"; "N.network"; "O.dns"; "P.firewall"; "Q.security_product";
   "R.memory_injection"; "S.browser"; "T.office"; "U.remote_access"; "V.ipc";
   "W.enterprise_identity"; "X.virtualization"; "Y.posture"; "Z.software"; "AA.windows_logs";
   "AB.forensics"; "AC.response"; "AD.isolation"; "AE.self_protection"; "AF.loss"; "AG.durability";
   "AH.transport"; "AI.configuration"; "AJ.update"; "AK.performance"; "AL.compatibility";
   "AM.validation"; "AN.detection_context"].
Definition initial_states : list (string * CapabilityState * string * string) :=
  [("A.host", degraded, "boot/device/install identity and host-state inventory pending", "hostname and OS name/build");
   ("AC.response", disabled, "response requires explicit configuration and enrolled identity", "typed actions; full response qualification pending");
   ("AD.isolation", disabled, "response configuration required; IPv6 and recovery qualification pending", "existing IPv4 WFP actions");
   ("AE.self_protection", degraded, "service split, tamper monitoring, driver/PPL qualification pending", "journal DACL and user-scoped DPAPI only");
   ("AF.loss", degraded, "provider-loss counters, durable gap records and emergency reserve pending", "runtime failure counters and legacy migration gaps");
   ("AI.configuration", degraded, "signed policy and controlled configuration lifecycle pending", "validated CLI options");
   ("AK.performance", degraded, "approved workload budgets have not been qualified", "component test runtime only");
   ("AL.compatibility", degraded, "OS/security configuration and ARM64 matrix not qualified", "current Windows x64 development host");
   ("AM.validation", degraded, "VM, attack simulation, stress, chaos and soak qualification pending", "component/contract tests")].
Fixpoint set_all (clock : nat -> string) (l : list (string * CapabilityState * string * string))
    (r : CoverageRegistry) : result CoverageRegistry :=
  match l with
  | [] => Ok r
  | (id, st, reason, scope) :: l =>
      r ← set_capability (clock 0%nat) id st reason scope false r;
      set_all (fun i => clock (S i)) l r
  end.
(** [clock i] is the i-th reading of the clock *)
Definition new_registry (clock : nat -> string) : result CoverageRegistry :=
  set_all (fun i => clock (S i)) initial_states
    ((fun id => {| cap_id := id; cap_state := unavailable;
                   cap_reason := "full-domain implementation or qualification pending";
                   cap_scope := "approved full-surface domain"; updated_at := clock 0%nat;
                   failure_count := 0 |}) <$> declared_domains).
Definition registry_snapshot (now agent_id host_id : string) (l : CoverageRegistry) : json :=
  object [("schema_version", JStr "1.0"); ("kind", JStr "endpoint_health");
    ("agent_id", JStr agent_id); ("host_id", JStr host_id); ("observed_at", JStr now);
    ("capabilities", JArr ((fun c => object [("id", JStr (cap_id c));
       ("state", JStr (state_name (cap_state c))); ("reason", JStr (cap_reason c));
       ("scope", JStr (cap_scope c)); ("updated_at", JStr (updated_at c));
       ("failure_count", JUint (failure_count c))]) <$> l))].

(** a call of [set]; a refused one leaves the registry *)
Record set_call := {
  call_now : string; call_id : string; call_state : CapabilityState; call_reason : string;
  call_scope : string; call_failure : bool
}.
Definition apply_call (r : CoverageRegistry) (c : set_call) : CoverageRegistry :=
  match set_capability (call_now c) (call_id c) (call_state c) (call_reason c) (call_scope c)
          (call_failure c) r with
  | Ok r => r
  | Throw _ => r
  end.
Lemma update_ids now id st reason scope failure l :
  cap_id <$> update_capability now id st reason scope failure l =
    (cap_id <$> l) ++ (if bool_decide (id ∈ (cap_id <$> l)) then [] else [id]).
Proof.
  induction l as [|c l IH]; [done|]. cbn [update_capability]. rewrite fmap_cons.
  destruct (String.eqb_spec (cap_id c) id) as [<-|Hne].
  - rewrite bool_decide_true by by left. by rewrite app_nil_r.
  - rewrite fmap_cons, IH. simpl. f_equal. f_equal.
    assert (id ∈ cap_id c :: (cap_id <$> l) <-> id ∈ (cap_id <$> l)) as Hiff.
    { rewrite elem_of_cons. split; [|by right]. intros [->|]; done. }
    destruct (bool_decide_reflect (id ∈ (cap_id <$> l))) as [H|H]; symmetry.
    + rewrite bool_decide_true; [done|]. by apply Hiff.
    + rewrite bool_decide_false; [done|]. by rewrite Hiff.
Qed.
Lemma new_registry_ids clock : exists r, new_registry clock = Ok r /\ (cap_id <$> r) = declared_domains.
Proof. eexists. split; [reflexivity|reflexivity]. Qed.

(** The declared security surface is always reported.  A new registry has every
    one of the forty declared domains, in order, each once; and after any
    sequence of updates, refused ones included, they are still the first forty
    entries of the registry and no capability is listed twice. *)
Theorem declared_domains_reported (clock : nat -> string) (calls : list set_call) :
  exists r rest, new_registry clock = Ok r /\
    (cap_id <$> foldl apply_call r calls) = declared_domains ++ rest /\
    NoDup (cap_id <$> foldl apply_call r calls) /\ length declared_domains = 40%nat.
Proof.
  destruct (new_registry_ids clock) as (r & Hr & Hids). exists r.
  assert (Hinv : forall calls r, (exists rest, (cap_id <$> r) = declared_domains ++ rest) ->
    NoDup (cap_id <$> r) -> exists rest, (cap_id <$> foldl apply_call r calls) = declared_domains ++ rest /\
      NoDup (cap_id <$> foldl apply_call r calls)).
  { clear. intros calls; induction calls as [|c calls IH]; intros r [rest Hrest] Hn; [by exists rest|].
    simpl. apply IH; unfold apply_call, set_capability; destruct (throw_if _ _); simpl;
      try done; try (by exists rest); rewrite update_ids.
    - exists (rest ++ (if bool_decide (call_id c ∈ (cap_id <$> r)) then [] else [call_id c])).
      rewrite Hrest at 1. by rewrite <- app_assoc.
    - case_bool_decide as Hin; [by rewrite app_nil_r|]. apply NoDup_app. split; [done|].
      split; [|apply NoDup_singleton]. intros x Hx ->%list_elem_of_singleton. done. }
  destruct (Hinv calls r) as (rest & H1 & H2).
  - exists []. by rewrite app_nil_r.
  - rewrite Hids. apply (bool_decide_unpack _). vm_compute. exact I.
  - by exists rest.
Qed.
