(* ===== verification/AuditSemantics.v ===== *)
(** * Security audit semantics

    [collectors/security_audit_semantics.cpp]: the labels and claim roles that
    are added to a decoded event of the Security channel, and the report of the
    system audit policy.  The audit functions of Windows and the UTF-16
    conversion are parameters. *)

From S2P Require Import Prelude Identity Json.

Definition kMaxFields : nat := 1024.
Definition kMaxFieldNameBytes : Z := 4096.
Definition kMaxFieldValueBytes : Z := 65536.
Definition kMaxDerivedBytes : Z := 196608.
Definition kMaxAuditSubcategories : Z := 256.

Definition tolower (c : ascii) : ascii :=
  if (65 <=? code c) && (code c <=? 90) then ascii_of_N (Z.to_N (code c + 32)) else c.
Fixpoint lower_ascii (s : string) : string :=
  match s with "" => "" | String c s => String (tolower c) (lower_ascii s) end.
(** [object.value(k, Json(nullptr))] *)
Definition value_null (k : string) (j : json) : json := default JNull (find k j).

(** ** Classification *)
(** the digit loop of [event_id] *)
Fixpoint parse_id (s : string) (parsed : Z) : option Z :=
  match s with
  | "" => Some parsed
  | String c s =>
      let digit := code c - 48 in
      if (code c <? 48) || (57 <? code c) || ((65535 - digit) / 10 <? parsed) then None
      else parse_id s (parsed * 10 + digit)
  end.
Definition event_id (event : json) : option Z :=
  match find "system_fields" event with
  | Some system =>
      if negb (is_object system) then None
      else match value_null "EventID" system with
           | JStr raw => if str_empty raw then None else parse_id raw 0
           | _ => None
           end
  | None => None
  end.
Definition between (a b id : Z) : bool := (a <=? id) && (id <=? b).
Definition event_family (id : Z) : string :=
  if between 4624 4648 id || (id =? 4672) || (id =? 4778) || (id =? 4779) || (id =? 4964) then "authentication_and_logon"
  else if between 4720 4740 id || between 4741 4767 id || between 4781 4782 id then "account_and_group_management"
  else if (id =? 4719) || between 4902 4907 id || between 4912 4913 id then "audit_policy"
  else if (id =? 4688) || (id =? 4689) then "process_audit"
  else if id =? 4697 then "service_audit"
  else if between 4698 4702 id then "scheduled_task_audit"
  else if (id =? 5152) || (id =? 5156) || (id =? 5157) then "wfp_connection_and_packet_audit"
  else if between 4768 4773 id || between 4771 4776 id then "kerberos_and_credential_validation"
  else "security_audit_unclassified".
(** the cases of the switch *)
Definition semantic_events : list (Z * string) :=
  [(4624, "logon_succeeded_source_event"); (4625, "logon_failed_source_event");
   (4634, "logon_session_ended_source_event"); (4647, "user_initiated_logoff_source_event");
   (4648, "explicit_credentials_used_source_event"); (4672, "special_privileges_assigned_source_event");
   (4688, "process_created_source_event"); (4689, "process_exited_source_event");
   (4697, "service_installed_source_event"); (4698, "scheduled_task_created_source_event");
   (4699, "scheduled_task_deleted_source_event"); (4700, "scheduled_task_enabled_source_event");
   (4701, "scheduled_task_disabled_source_event"); (4702, "scheduled_task_updated_source_event");
   (4719, "system_audit_policy_changed_source_event"); (4720, "user_account_created_source_event");
   (4722, "user_account_enabled_source_event"); (4723, "password_change_attempt_source_event");
   (4724, "password_reset_attempt_source_event"); (4725, "user_account_disabled_source_event");
   (4726, "user_account_deleted_source_event"); (4727, "security_group_created_source_event");
   (4728, "security_group_member_added_source_event"); (4732, "security_group_member_added_source_event");
   (4756, "security_group_member_added_source_event"); (4729, "security_group_member_removed_source_event");
   (4733, "security_group_member_removed_source_event"); (4757, "security_group_member_removed_source_event");
   (4731, "security_group_created_source_event"); (4754, "security_group_created_source_event");
   (4759, "security_group_created_source_event"); (4734, "security_group_deleted_source_event");
   (4758, "security_group_deleted_source_event"); (4761, "security_group_deleted_source_event");
   (4735, "security_group_changed_source_event"); (4737, "security_group_changed_source_event");
   (4755, "security_group_changed_source_event"); (4760, "security_group_changed_source_event");
   (4738, "user_account_changed_source_event"); (4740, "account_locked_source_event");
   (4741, "computer_account_created_source_event"); (4742, "computer_account_changed_source_event");
   (4743, "computer_account_deleted_source_event"); (4762, "security_group_member_removed_source_event");
   (4768, "kerberos_tgt_requested_source_event"); (4769, "kerberos_service_ticket_requested_source_event");
   (4770, "kerberos_service_ticket_renewed_source_event");
   (4771, "kerberos_preauthentication_failed_source_event"); (4776, "credential_validation_source_event");
   (4781, "account_name_changed_source_event"); (4782, "password_hash_changed_source_event");
   (4902, "per_user_audit_policy_table_created_source_event");
   (4904, "security_audit_event_source_registered_source_event");
   (4905, "security_audit_event_source_unregistered_source_event");
   (4906, "crash_on_audit_fail_setting_changed_source_event");
   (4907, "auditable_object_sacl_changed_source_event"); (4912, "per_user_audit_policy_changed_source_event");
   (4778, "session_reconnected_source_event"); (4779, "session_disconnected_source_event");
   (4964, "special_groups_logon_source_event"); (5152, "wfp_packet_blocked_source_event");
   (5156, "wfp_connection_permitted_source_event"); (5157, "wfp_connection_blocked_source_event")].
Definition semantic_event (id : Z) : option string :=
  snd <$> List.find (fun e => e.1 =? id) semantic_events.
Definition subject_names : list string :=
  ["subjectusersid"; "subjectusername"; "subjectdomainname"; "subjectlogonid"; "subjectaccountname";
   "subjectaccountdomain"; "subjectsid"].
Definition target_names : list string :=
  ["targetusersid"; "targetusername"; "targetdomainname"; "targetlogonid"; "targetaccountname";
   "targetaccountdomain"; "targetsid"; "membername"; "membersid"; "groupname"; "groupsid"; "servicename";
   "taskname"; "newaccountname"; "newaccountdomain"; "objectname"; "objecttype"].
Definition source_names : list string :=
  ["ipaddress"; "ipport"; "sourceaddress"; "sourceport"; "clientaddress"; "clientport"; "workstationname";
   "workstation"; "networkaddress"; "callercomputername"].
Definition contextual_names : list string :=
  ["processid"; "newprocessid"; "processname"; "newprocessname"; "commandline"; "parentprocessname";
   "creatorprocessid"; "callerprocessid"; "logonprocessname"; "authenticationpackagename"; "logontype"; "status";
   "substatus"; "failurecode"; "taskcontent"; "servicefilename"; "servicefilepath"; "subjectusersid";
   "targetusersid"].
Definition claim_role (raw_name : string) : string :=
  let name := lower_ascii raw_name in
  let among := existsb (String.eqb name) in
  if among subject_names then "subject_claim"
  else if among target_names then "target_claim"
  else if among source_names then "source_claim"
  else if among contextual_names then "contextual_claim"
  else "unknown_claim".

(** ** Enrichment *)
Definition text_bytes (j : json) : Z := match j with JStr s => slen s | _ => 0 end.
Definition text_or_empty (j : json) : string := match j with JStr s => s | _ => "" end.
Definition field_json (i : nat) (field : json) : json :=
  object [("index", JUint (Z.of_nat i)); ("raw_element_name", value_null "element" field);
          ("raw_name", value_null "name" field); ("raw_value", value_null "text" field);
          ("claim_role", JStr (claim_role (text_or_empty (value_null "name" field))));
          ("claim_verification", JStr "unverified_source_claim")].
Definition field_bytes (field : json) : Z :=
  text_bytes (value_null "element" field) + text_bytes (value_null "name" field)
  + text_bytes (value_null "text" field).
(** the sizes are tested one after the other, so the subtractions do not wrap *)
Definition field_bounded (bytes : Z) (field : json) : bool :=
  let element := text_bytes (value_null "element" field) in
  let name := text_bytes (value_null "name" field) in
  let text := text_bytes (value_null "text" field) in
  (element <=? kMaxFieldNameBytes) && (name <=? kMaxFieldNameBytes) && (text <=? kMaxFieldValueBytes)
  && (element <=? kMaxDerivedBytes - bytes) && (name <=? kMaxDerivedBytes - bytes - element)
  && (text <=? kMaxDerivedBytes - bytes - element - name).
(** the records, and whether the byte budget ended the loop *)
Fixpoint raw_fields (i : nat) (bytes : Z) (fields : list json) : list json * bool :=
  match fields with
  | [] => ([], false)
  | f :: fields =>
      if negb (field_bounded bytes f) then ([], true)
      else let '(rest, cut) := raw_fields (S i) (bytes + field_bytes f) fields in (field_json i f :: rest, cut)
  end.
Definition put (k : string) (v : json) (j : json) : json := set_member k v j.
Definition initial : json :=
  object [("format", JStr "windows_security_audit_semantics_v1"); ("state", JStr "unavailable");
          ("event_family", JStr "unclassified"); ("semantic_event", JNull); ("raw_event_id", JNull);
          ("raw_event_version", JNull); ("raw_fields", JArr []); ("fields_truncated", JBool false);
          ("actor_verification", JStr "not_performed"); ("process_attribution", JStr "not_performed");
          ("claims_are_source_reported_only", JBool true); ("source_identity_guard", JBool false)].
Definition system_field (k : string) (event : json) : json :=
  match find "system_fields" event with
  | Some system => if is_object system then value_null k system else JNull
  | None => JNull
  end.
Definition ambiguous_system (event : json) : bool := is_text "ambiguous_system_fields" (value_null "validation_error" event).
Definition guarded (event : json) : bool :=
  is_text "Security" (value_null "requested_channel" event) && is_text "Security" (value_null "native_channel" event)
  && is_text "Microsoft-Windows-Security-Auditing" (value_null "provider_name" event) && negb (ambiguous_system event).
Definition wfp_json (id : Z) : json :=
  object [("event_role", opt_json JStr (semantic_event id)); ("raw_event_data_preserved", JBool true);
          ("event_fields_interpreted", JBool false); ("actor_process_endpoint_attribution", JStr "not_performed");
          ("reported_process_and_network_fields", JStr "unverified_source_claims");
          ("source_scope", JStr "Security channel and Microsoft-Windows-Security-Auditing provider; event ID only")].
(** the labels the event id gives *)
Definition labelled (id : option Z) (r : json) : json :=
  match id with
  | Some id =>
      let r := put "event_family" (JStr (event_family id)) r in
      let r := match semantic_event id with Some label => put "semantic_event" (JStr label) r | None => r end in
      let r := put "event_id_classification_basis" (JStr "provider_channel_and_event_id_only") r in
      if (id =? 5152) || (id =? 5156) || (id =? 5157) then put "wfp_event_semantics" (wfp_json id) r else r
  | None =>
      put "reason" (JStr "event_id_missing_or_malformed")
        (put "event_family" (JStr "security_audit_unclassified") r)
  end.
Definition truncation (reason : string) (r : json) : json :=
  put "truncation_reason" (JStr reason) (put "fields_truncated" (JBool true) r).
(** [event.value("event_data_bound_exceeded", false)] *)
Definition bound_exceeded (event : json) : result bool :=
  match find "event_data_bound_exceeded" event with
  | Some (JBool b) => Ok b
  | Some _ => Throw (json_exception "type must be boolean")
  | None => Ok false
  end.
(** the field loop and the states it leads to *)
Definition with_fields (event : json) (fields : list json) (r : json) : result json :=
  let '(records, cut) := raw_fields 0 0 (take kMaxFields fields) in
  let r := put "raw_fields" (JArr records) r in
  let r := if cut then truncation "derived_field_budget_exceeded_source_xml_remains_authoritative" r else r in
  let many := (kMaxFields <? length fields)%nat in
  let r := if many then truncation "field_count_limit_source_xml_remains_authoritative" r else r in
  let r := put "state" (JStr (if cut || many then "partial" else "healthy")) r in
  exceeded ← bound_exceeded event;
  Ok (if exceeded : bool then
        truncation "source_event_data_bound_exceeded_source_xml_remains_authoritative" (put "state" (JStr "partial") r)
      else r).
Definition enrich (event : json) : result json :=
  if negb (is_object event) then Ok (put "reason" (JStr "decoded_event_not_object") initial)
  else
    let r := put "source_identity_guard" (JBool (guarded event)) initial in
    let r := put "raw_event_id" (system_field "EventID" event) r in
    let r := put "raw_event_version" (system_field "Version" event) r in
    if negb (guarded event) then
      Ok (put "reason" (JStr (if ambiguous_system event then "ambiguous_system_metadata"
                              else "requires_exact_security_channel_and_security_auditing_provider")) r)
    else
      let r := labelled (event_id event) r in
      let r := put "version_interpreted" (JBool false) r in
      let r := put "unknown_event_or_version_preserved" (JBool true) r in
      match default (JArr []) (find "event_data" event) with
      | JArr fields => with_fields event fields r
      | _ => Ok (put "reason" (JStr "event_data_not_array") (put "state" (JStr "partial") r))
      end.

(** ** The system audit policy *)
Record Guid := { data1 : Z; data2 : Z; data3 : Z; data4 : list Z }.
Record AuditItem := { item_guid : Guid; item_mask : Z; item_name : option (list Z) }.
(** what the two audit queries answered *)
Inductive AuditAnswer :=
| EnumerateFailed (error : Z)
| Enumerated (count : Z) (policy : option (list AuditItem))   (* [None]: no policy buffer *)
| QueryFailed (count error : Z).
Definition unavailable_policy (reason : string) (error : Z) : json :=
  object [("format", JStr "windows_system_audit_policy_v1"); ("state", JStr "unavailable");
          ("query", JStr "AuditEnumerateSubCategories+AuditQuerySystemPolicy"); ("read_only", JBool true);
          ("policy_scope", JStr "system_policy_only"); ("error", JUint error); ("reason", JStr reason);
          ("subcategories", JArr []); ("per_user_or_effective_token_policy_queried", JBool false);
          ("audit_policy_changed_by_collector", JBool false)].
Definition hex_upper (v : Z) : ascii := ascii_of_N (Z.to_N (if v <? 10 then 48 + v else 55 + v)).
(** [%0nX] of a value of that width *)
Fixpoint hex_fixed (n : nat) (v : Z) : string :=
  match n with O => "" | S n => hex_fixed n (v / 16) +:+ String (hex_upper (v `mod` 16)) "" end.
Definition guid_text (g : Guid) : string :=
  let byte i := hex_fixed 2 (default 0 (data4 g !! i)) in
  "{" +:+ hex_fixed 8 (data1 g) +:+ "-" +:+ hex_fixed 4 (data2 g) +:+ "-" +:+ hex_fixed 4 (data3 g) +:+ "-"
  +:+ byte 0%nat +:+ byte 1%nat +:+ "-" +:+ byte 2%nat +:+ byte 3%nat +:+ byte 4%nat +:+ byte 5%nat +:+ byte 6%nat
  +:+ byte 7%nat +:+ "}".
Section Policy.
(** [WideCharToMultiByte] on valid UTF-16 *)
Context (to_utf8 : list Z -> option string).
(** [item_name] is the name up to its terminator *)
Definition utf8_bounded (units : list Z) : string :=
  if (1024 <? zlen units) || (zlen units =? 0) then ""
  else match to_utf8 units with
       | Some s => if (slen s =? 0) || (kMaxFieldValueBytes <? slen s) then "" else s
       | None => ""
       end.
Definition display_name (item : AuditItem) : string :=
  match item_name item with Some units => utf8_bounded units | None => "" end.
Definition policy_record (item : AuditItem) : json :=
  let mask := u32 (item_mask item) in
  let display := display_name item in
  object [("subcategory_guid", JStr (guid_text (item_guid item)));
          ("display_name", if str_empty display then JNull else JStr display); ("display_name_localized", JBool true);
          ("auditing_information_raw", JUint mask); ("success_audit_enabled", JBool (Z.testbit mask 0));
          ("failure_audit_enabled", JBool (Z.testbit mask 1));
          ("unknown_auditing_information_bits", JUint (Z.land mask (u32_max - 3))); ("policy_scope", JStr "system")].
Definition query_system_policy (answer : AuditAnswer) : json :=
  let bounded count k :=
    if count =? 0 then unavailable_policy "no_system_audit_subcategories_returned" 0
    else if kMaxAuditSubcategories <? count then unavailable_policy "system_audit_subcategory_count_exceeds_bound" 0
    else k in
  match answer with
  | EnumerateFailed error => unavailable_policy "AuditEnumerateSubCategories_failed" error
  | QueryFailed count error => bounded count (unavailable_policy "AuditQuerySystemPolicy_failed" error)
  | Enumerated count None => bounded count (unavailable_policy "AuditQuerySystemPolicy_returned_no_buffer" 0)
  | Enumerated count (Some items) => bounded count (
      let partial := existsb (fun i => str_empty (display_name i)) items in
      object [("format", JStr "windows_system_audit_policy_v1"); ("state", JStr (if partial then "partial" else "healthy"));
              ("query", JStr "AuditEnumerateSubCategories+AuditQuerySystemPolicy"); ("read_only", JBool true);
              ("policy_scope", JStr "system_policy_only"); ("subcategory_count", JUint (zlen items));
              ("enumeration_bound", JUint kMaxAuditSubcategories); ("subcategories", JArr (policy_record <$> items));
              ("coverage", JStr "enumerated_system_subcategory_inventory_including_authentication_account_group_policy_process_service_and_task_related_categories");
              ("per_user_or_effective_token_policy_queried", JBool false); ("effective_policy_computed", JBool false);
              ("policy_event_generation_or_delivery_verified", JBool false);
              ("audit_policy_changed_by_collector", JBool false)])
  end.
End Policy.

(** ** What the enrichment keeps *)
Lemma raw_fields_prefix i bytes l : exists k, (k <= length l)%nat /\
  (raw_fields i bytes l).1 = imap (fun j f => field_json (i + j) f) (take k l) /\
  ((raw_fields i bytes l).2 = false <-> k = length l) /\
  (bytes <= kMaxDerivedBytes -> bytes + zsum field_bytes (take k l) <= kMaxDerivedBytes).
Proof.
  revert i bytes. induction l as [|f l IH]; intros i bytes; cbn [raw_fields].
  { exists 0%nat. split_and!; [done|done|done|]. unfold zsum. simpl. lia. }
  destruct (field_bounded bytes f) eqn:Eb; cbn [negb].
  - destruct (IH (S i) (bytes + field_bytes f)) as (k & Hk & E & C & B). destruct (raw_fields _ _ _) as [rest cut].
    cbn [fst snd] in *. exists (S k). split_and!; [simpl; lia| | |].
    + cbn [take imap]. rewrite E, Nat.add_0_r. f_equal. apply imap_ext. intros j x _. simpl. f_equal. lia.
    + rewrite C. simpl. lia.
    + intros Hb. cbn [take]. rewrite zsum_cons. unfold field_bounded in Eb. rewrite !andb_true_iff, !Z.leb_le in Eb.
      unfold field_bytes in *. lia.
  - exists 0%nat. split_and!; [simpl; lia|done|by split|]. unfold zsum. simpl. lia.
Qed.
(** members after assignments, by computation on the names *)
Lemma find_put_same k v j : is_object j = true -> find k (put k v j) = Some v.
Proof. intros H. unfold put. by rewrite find_set, String.eqb_refl. Qed.
Lemma find_put_other k k' v j : String.eqb k k' = false -> is_object j = true -> find k (put k' v j) = find k j.
Proof. intros Hk H. unfold put. by rewrite find_set, Hk. Qed.
Lemma put_is_object k v j : is_object (put k v j) = is_object j.
Proof. apply set_is_object. Qed.
Lemma truncation_is_object why j : is_object (truncation why j) = is_object j.
Proof. unfold truncation. by rewrite !put_is_object. Qed.
Lemma labelled_is_object id j : is_object (labelled id j) = is_object j.
Proof.
  unfold labelled. destruct id as [id|]; [|by rewrite !put_is_object].
  destruct (semantic_event id), (_ || _); by rewrite !put_is_object.
Qed.
Definition label_keys : list string :=
  ["event_family"; "semantic_event"; "event_id_classification_basis"; "wfp_event_semantics"; "reason"].
Lemma labelled_other k id j : existsb (String.eqb k) label_keys = false -> is_object j = true ->
  find k (labelled id j) = find k j.
Proof.
  cbn [existsb label_keys]. rewrite !orb_false_iff. intros (H1 & H2 & H3 & H4 & H5 & _) Hj. unfold labelled.
  destruct id as [id|]; [|by rewrite !find_put_other by (done || by rewrite ?put_is_object)].
  destruct (semantic_event id), (_ || _); by rewrite !find_put_other by (done || by rewrite ?put_is_object).
Qed.
Lemma truncation_member k why j : is_object j = true -> find k (truncation why j) =
  if String.eqb k "truncation_reason" then Some (JStr why)
  else if String.eqb k "fields_truncated" then Some (JBool true) else find k j.
Proof. intros Hj. unfold truncation, put. rewrite !find_set by (done || by rewrite set_is_object). done. Qed.
(** what the field loop adds to a document that had no truncation *)
Lemma with_fields_spec event fields r0 r : is_object r0 = true -> find "fields_truncated" r0 = Some (JBool false) ->
  with_fields event fields r0 = Ok r ->
  exists k (t : bool), (k <= length fields)%nat /\ (k <= kMaxFields)%nat /\
    zsum field_bytes (take k fields) <= kMaxDerivedBytes /\
    find "raw_fields" r = Some (JArr (imap field_json (take k fields))) /\
    find "fields_truncated" r = Some (JBool t) /\ find "state" r = Some (JStr (if t then "partial" else "healthy")) /\
    (t = false <-> k = length fields /\ bound_exceeded event = Ok false) /\
    (forall key, existsb (String.eqb key) ["raw_fields"; "fields_truncated"; "state"; "truncation_reason"] = false ->
       find key r = find key r0).
Proof.
  intros Hr Ht. unfold with_fields. destruct (raw_fields_prefix 0 0 (take kMaxFields fields)) as (k & Hk & E & C & B).
  destruct (raw_fields 0 0 (take kMaxFields fields)) as [records cut]. cbn [fst snd] in *.
  rewrite take_take, length_take in *. subst records. intros H. apply bind_Ok in H as (ex & Hex & H). apply Ok_inj in H.
  rewrite (Nat.min_l k) in * by lia. rewrite Hex.
  exists k, (ex || cut || (kMaxFields <? length fields)%nat).
  assert (Hm : forall key, find key r =
    if String.eqb key "truncation_reason" && (ex || cut || (kMaxFields <? length fields)%nat) then find key r
    else if String.eqb key "fields_truncated" then Some (JBool (ex || cut || (kMaxFields <? length fields)%nat))
    else if String.eqb key "state" then Some (JStr (if ex || cut || (kMaxFields <? length fields)%nat then "partial" else "healthy"))
    else if String.eqb key "raw_fields" then Some (JArr (imap field_json (take k fields))) else find key r0).
  { intros key. destruct (String.eqb_spec key "truncation_reason") as [->|Hkey].
    - subst r. destruct ex, cut, (_ <? _)%nat; cbn [orb andb]; try done. unfold put.
      rewrite !find_set by (done || by rewrite !set_is_object). done.
    - apply String.eqb_neq in Hkey. subst r. destruct ex, cut, (_ <? _)%nat; cbn [orb andb]; unfold put, truncation, put;
      rewrite !find_set by (done || by rewrite !set_is_object); rewrite ?Hkey;
      destruct (String.eqb_spec key "fields_truncated") as [->|]; try done;
      destruct (String.eqb_spec key "state") as [->|]; done. }
  split_and!; [lia|lia|apply B; unfold kMaxDerivedBytes; lia| | | | |].
  - rewrite Hm. done.
  - rewrite Hm. done.
  - rewrite Hm. done.
  - rewrite !orb_false_iff, Nat.ltb_ge, C. unfold kMaxFields in *. split; [intros [[-> ?] ?]|intros [? [= ->]]]; split_and!; try done; try lia.
  - intros key. cbn [existsb]. rewrite !orb_false_iff. intros (H1 & H2 & H3 & H4 & _). by rewrite Hm, H1, H2, H3, H4.
Qed.
Lemma unlabelled_members event : let r0 := put "raw_event_version" (system_field "Version" event)
    (put "raw_event_id" (system_field "EventID" event) (put "source_identity_guard" (JBool (guarded event)) initial)) in
  is_object r0 = true /\ find "source_identity_guard" r0 = Some (JBool (guarded event)) /\
  find "raw_event_id" r0 = Some (system_field "EventID" event) /\
  find "raw_event_version" r0 = Some (system_field "Version" event) /\
  find "fields_truncated" r0 = Some (JBool false) /\ find "raw_fields" r0 = Some (JArr []) /\
  find "semantic_event" r0 = Some JNull /\ find "state" r0 = Some (JStr "unavailable").
Proof.
  intros r0. unfold r0, put. rewrite !set_is_object, !find_set by (done || by rewrite !set_is_object). by split_and!.
Qed.
(** every event with a label belongs to a named family *)
Lemma labelled_events_classified :
  Forall (fun e => event_family e.1 <> "security_audit_unclassified") semantic_events.
Proof. apply (bool_decide_unpack _). vm_compute. exact I. Qed.
Lemma semantic_event_family id label : semantic_event id = Some label ->
  event_family id <> "security_audit_unclassified" /\ (id, label) ∈ semantic_events.
Proof.
  unfold semantic_event. destruct (List.find _ _) as [[i l]|] eqn:E; [|done]. intros [= <-].
  apply List.find_some in E as [Hin%list_elem_of_In Heq]. cbn [fst] in Heq. apply Z.eqb_eq in Heq as <-.
  split; [exact (proj1 (Forall_forall _ _) labelled_events_classified _ Hin)|done].
Qed.
Lemma labelled_semantic id j : is_object j = true -> find "semantic_event" j = Some JNull ->
  find "semantic_event" (labelled id j) = Some (opt_json JStr (id ≫= semantic_event)).
Proof.
  intros Hj Hn. unfold labelled. destruct id as [id|]; cbn [mbind option_bind].
  - destruct (semantic_event id), (_ || _); cbn [opt_json]; unfold put;
      by rewrite !find_set by (done || by rewrite !set_is_object).
  - unfold put. by rewrite !find_set by (done || by rewrite !set_is_object).
Qed.

(** what the enrichment says of a decoded event.  Without the identity
    guard (both channels are Security, the provider is the auditing provider,
    the system fields are not ambiguous) no label and no field is derived.
    With it, the fields are the first fields of the event in their order and
    unchanged, within the count and the byte bounds; the report is healthy
    exactly when every field is there and the source did not truncate, and
    partial otherwise; the label is the one of the event id. *)
Theorem audit_semantics_exact event r : is_object event = true -> enrich event = Ok r ->
  find "source_identity_guard" r = Some (JBool (guarded event)) /\
  find "raw_event_id" r = Some (system_field "EventID" event) /\
  (guarded event = false -> find "semantic_event" r = Some JNull /\ find "raw_fields" r = Some (JArr []) /\
     find "state" r = Some (JStr "unavailable")) /\
  (guarded event = true -> find "semantic_event" r = Some (opt_json JStr (event_id event ≫= semantic_event)) /\
     forall fields, default (JArr []) (find "event_data" event) = JArr fields ->
     exists k (t : bool), (k <= length fields)%nat /\ (k <= kMaxFields)%nat /\
       zsum field_bytes (take k fields) <= kMaxDerivedBytes /\
       find "raw_fields" r = Some (JArr (imap field_json (take k fields))) /\
       find "fields_truncated" r = Some (JBool t) /\
       find "state" r = Some (JStr (if t then "partial" else "healthy")) /\
       (t = false <-> k = length fields /\ bound_exceeded event = Ok false)).
Proof.
  intros Ho. unfold enrich. rewrite Ho. cbn [negb].
  destruct (unlabelled_members event) as (B & G & I & V & T & F & L & S). revert B G I V T F L S.
  generalize (put "raw_event_version" (system_field "Version" event)
    (put "raw_event_id" (system_field "EventID" event) (put "source_identity_guard" (JBool (guarded event)) initial))).
  intros r0 B G I V T F L S. destruct (guarded event); cbn [negb].
  - set (r1 := put "unknown_event_or_version_preserved" _ _).
    assert (H1 : is_object r1 = true) by (unfold r1; by rewrite !put_is_object, labelled_is_object).
    assert (Hk : forall k, String.eqb k "unknown_event_or_version_preserved" = false ->
      String.eqb k "version_interpreted" = false -> find k r1 = find k (labelled (event_id event) r0)).
    { intros k K1 K2. unfold r1. by rewrite !find_put_other by (done || by rewrite ?put_is_object, ?labelled_is_object). }
    assert (Hs : find "semantic_event" r1 = Some (opt_json JStr (event_id event ≫= semantic_event))).
    { rewrite Hk by done. by apply labelled_semantic. }
    assert (Ho' : forall k, existsb (String.eqb k) label_keys = false ->
      String.eqb k "unknown_event_or_version_preserved" = false -> String.eqb k "version_interpreted" = false ->
      find k r1 = find k r0) by (intros k K1 K2 K3; by rewrite Hk, labelled_other).
    destruct (default (JArr []) (find "event_data" event)) eqn:E; intros H;
      try (apply Ok_inj in H; subst r; unfold put; rewrite !find_set by (done || by rewrite !set_is_object);
           cbn; rewrite ?Ho', ?Hs, ?G, ?I by done; split_and!; naive_solver).
    destruct (with_fields_spec event l r1 r H1 ltac:(by rewrite Ho') H) as (k & t & H2 & H3 & H4 & H5 & H6 & H7 & H8 & H9).
    rewrite !H9, !Ho', Hs by done. split_and!; try done. intros _. split; [done|]. intros fields [= <-]. by exists k, t.
  - intros H. apply Ok_inj in H. subst r. unfold put. rewrite !find_set by (done || by rewrite !set_is_object). cbn.
    by split_and!.
Qed.

(** ** An event *)
Module AuditExample.
Definition logon : json :=
  object [("requested_channel", JStr "Security"); ("native_channel", JStr "Security");
          ("provider_name", JStr "Microsoft-Windows-Security-Auditing");
          ("system_fields", object [("EventID", JStr "4624"); ("Version", JStr "2")]);
          ("event_data", JArr [object [("name", JStr "SubjectUserSid"); ("text", JStr "S-1-5-18"); ("element", JStr "Data")];
                               object [("name", JStr "IpAddress"); ("text", JStr "-"); ("element", JStr "Data")];
                               JNull])].
Definition enriched : json := match enrich logon with Ok r => r | Throw _ => JNull end.
Example roles : find "raw_fields" enriched = Some (JArr [
    object [("index", JUint 0); ("raw_element_name", JStr "Data"); ("raw_name", JStr "SubjectUserSid");
            ("raw_value", JStr "S-1-5-18"); ("claim_role", JStr "subject_claim");
            ("claim_verification", JStr "unverified_source_claim")];
    object [("index", JUint 1); ("raw_element_name", JStr "Data"); ("raw_name", JStr "IpAddress"); ("raw_value", JStr "-");
            ("claim_role", JStr "source_claim"); ("claim_verification", JStr "unverified_source_claim")];
    object [("index", JUint 2); ("raw_element_name", JNull); ("raw_name", JNull); ("raw_value", JNull);
            ("claim_role", JStr "unknown_claim"); ("claim_verification", JStr "unverified_source_claim")]]).
Proof. vm_compute. reflexivity. Qed.
Example guid : guid_text {| data1 := 0xcce9215; data2 := 0x69ae; data3 := 0x11d9; data4 := [0xbe; 0xd3; 0x50; 0x50; 0x54; 0x50; 0x30; 0x30] |}
  = "{0CCE9215-69AE-11D9-BED3-505054503030}".
Proof. vm_compute. reflexivity. Qed.
End AuditExample.

Lemma audit_semantics_exact_witness : enrich AuditExample.logon = Ok AuditExample.enriched /\
  find "semantic_event" AuditExample.enriched = Some (JStr "logon_succeeded_source_event").
Proof.
  split; [vm_compute; reflexivity|].
  exact (proj1 (proj2 (proj2 (proj2 (audit_semantics_exact AuditExample.logon AuditExample.enriched eq_refl
    ltac:(vm_compute; reflexivity)))) ltac:(vm_compute; reflexivity))).
Defined.
