(* ===== verification/SysmonDecoder.v ===== *)
(** * Decoding Sysmon events

    [collectors/sysmon_process_decoder.cpp] and
    [collectors/sysmon_telemetry_decoder.cpp]: a rendered event of the Sysmon
    channel becomes a raw event, or the message why not.  The XML parser
    (tinyxml2) is a parameter: it gives the top elements of the document, or its
    error text.  The named data of an event is an unordered map in the source; here
    it is the association list in document order, in which every name occurs once.
    The two files repeat some functions; where they differ, both are here. *)

From S2P Require Import Prelude Telemetry Ledger Json Command CommandFacts.

(** ** Documents *)
(** [text]: what [GetText()] answers *)
Inductive Element := Elem (name : string) (attributes : list (string * string)) (text : option string) (children : list Element).
Definition e_name (e : Element) : string := let 'Elem n _ _ _ := e in n.
Definition e_text (e : Element) : option string := let 'Elem _ _ t _ := e in t.
Definition e_children (e : Element) : list Element := let 'Elem _ _ _ l := e in l.
Fixpoint find_text (k : string) (l : list (string * string)) : option string :=
  match l with [] => None | (k', v) :: l => if String.eqb k k' then Some v else find_text k l end.
Definition Attribute (k : string) (e : Element) : option string := let 'Elem _ a _ _ := e in find_text k a.
(** [FirstChildElement(name)] of a list of siblings, with the siblings that follow *)
Fixpoint first_named (name : string) (l : list Element) : option (Element * list Element) :=
  match l with [] => None | e :: l => if String.eqb (e_name e) name then Some (e, l) else first_named name l end.
Definition FirstChildElement (name : string) (e : Element) : option Element := fst <$> first_named name (e_children e).
(** the element has a later sibling of that name *)
Definition repeated (name : string) (e : Element) : bool :=
  match first_named name (e_children e) with
  | Some (_, rest) => bool_decide (is_Some (first_named name rest))
  | None => false
  end.
Definition named (name : string) (e : Element) : list Element := filter (fun c => String.eqb (e_name c) name = true) (e_children e).

#[local] Instance decode_bind : MBind (sum string) := fun A B f r =>
  match r with inr a => f a | inl e => inl e end.
#[local] Instance decode_ret : MRet (sum string) := fun A a => inr a.
Definition refuse_when (b : bool) (error : string) : string + unit := if b then inl error else inr tt.
(** a value that must be there *)
Definition required {A} (error : string) (o : option A) : string + A := match o with Some a => inr a | None => inl error end.

(** ** Fields *)
Definition child_text (parent : Element) (name : string) : option string := FirstChildElement name parent ≫= e_text.
Definition field (fields : list (string * string)) (name : string) : option string :=
  match find_text name fields with
  | Some v => if str_empty v || String.eqb v "-" then None else Some v
  | None => None
  end.
(** [None]: there is no text *)
Definition parse_integer (max : Z) (value : option string) (name : string) : string + option Z :=
  match value with
  | None => inr None
  | Some v => match from_chars_all max v with
              | Some z => inr (Some z)
              | None => inl ("Sysmon field '" +:+ name +:+ "' contains an invalid integer: '" +:+ v +:+ "'.")
              end
  end.

(** ** Times *)
Definition decimal_component (text : string) (offset length : nat) : option Z :=
  if Nat.ltb (String.length text) (offset + length) then None else from_chars_all u32_max (str_take length (str_drop offset text)).
Fixpoint leading_digits (s : string) : nat :=
  match s with String c s => if is_digit c then S (leading_digits s) else O | "" => O end.
(** the part after the seconds, in nanoseconds *)
Definition parse_fraction (text : string) : string + Z :=
  let quoted := " value: '" +:+ text +:+ "'." in
  match str_drop 19 text with
  | "" => inr 0
  | String c rest =>
      if negb (Ascii.eqb c ".") then
        if negb (Ascii.eqb c "Z" && str_empty rest) then inl ("Sysmon UtcTime has an invalid suffix: '" +:+ text +:+ "'.") else inr 0
      else
        let digits := leading_digits rest in
        let after := str_drop digits rest in
        if Nat.eqb digits 0 || Nat.ltb 9 digits || negb (str_empty after || String.eqb after "Z")
        then inl ("Sysmon UtcTime has an invalid fractional" +:+ quoted)
        else match decimal_component text 20 digits with
             | None => inl "Sysmon UtcTime has an invalid fractional value."
             | Some v => inr (v * 10 ^ Z.of_nat (9 - digits))
             end
  end.
(** [bounded]: the telemetry decoder limits the year *)
Definition parse_utc (bounded : bool) (text : string) : string + UtcTimestamp :=
  let quoted := ": '" +:+ text +:+ "'." in
  let char_is i c := char_at text i c in
  _ ← refuse_when ((slen text <? 19) || negb (char_is 4%nat "-"%char) || negb (char_is 7%nat "-"%char)
                   || (negb (char_is 10%nat " "%char) && negb (char_is 10%nat "T"%char))
                   || negb (char_is 13%nat ":"%char) || negb (char_is 16%nat ":"%char))
        ("Sysmon UtcTime has an unsupported format" +:+ quoted);
  let wrong := "Sysmon UtcTime contains an invalid date or time" +:+ quoted in
  year ← required wrong (decimal_component text 0 4);
  month ← required wrong (decimal_component text 5 2);
  day ← required wrong (decimal_component text 8 2);
  hour ← required wrong (decimal_component text 11 2);
  minute ← required wrong (decimal_component text 14 2);
  second ← required wrong (decimal_component text 17 2);
  _ ← refuse_when ((23 <? hour) || (59 <? minute) || (60 <? second)) wrong;
  _ ← refuse_when (negb ((1 <=? month) && (month <=? 12) && (1 <=? day) && (day <=? max_day year month))
                   || (bounded && ((year <? 1678) || (2261 <? year))))
        ("Sysmon UtcTime contains an invalid calendar date" +:+ quoted);
  fraction ← parse_fraction text;
  let base := civil_days year month day * 86400 + hour * 3600 + minute * 60 + second in
  inr (i64 (i64 (base * 1000000000) + fraction)).
Definition process_utc : string -> string + UtcTimestamp := parse_utc false.
Definition telemetry_utc : string -> string + UtcTimestamp := parse_utc true.

(** ** Hashes, ports and names *)
Definition upper_or_lower (c expected : ascii) : bool := (code c =? code expected) || (code c =? code expected + 32).
Fixpoint matches_prefix (prefix entry : string) : option string :=
  match prefix, entry with
  | "", rest => Some rest
  | String p prefix, String c entry => if upper_or_lower c p then matches_prefix prefix entry else None
  | String _ _, "" => None
  end.
Fixpoint skip_spaces (s : string) : string :=
  match s with String c rest => if Ascii.eqb c " " then skip_spaces rest else s | "" => "" end.
Fixpoint entries (fuel : nat) (s : string) : list string :=
  match fuel with
  | O => []
  | S fuel =>
      match s with
      | "" => []
      | _ => match str_split "," s with
             | Some (entry, rest) => entry :: entries fuel (skip_spaces rest)
             | None => [s]
             end
      end
  end.
(** [strict]: an entry that is only the prefix does not count *)
Fixpoint first_sha256 (strict : bool) (l : list string) : option string :=
  match l with
  | [] => None
  | entry :: l => match matches_prefix "SHA256=" entry with
                  | Some hash => if strict && str_empty hash then first_sha256 strict l else Some hash
                  | None => first_sha256 strict l
                  end
  end.
Definition extract_sha256 (strict : bool) (hashes : option string) : option string :=
  h ← hashes; first_sha256 strict (entries (String.length h) h).
Definition process_sha256 : option string -> option string := extract_sha256 false.
Definition telemetry_sha256 : option string -> option string := extract_sha256 true.
Definition parse_port (value : option string) (name : string) : string + option Z :=
  parsed ← parse_integer u32_max value name;
  match parsed with
  | Some p => if 65535 <? p then inl ("Sysmon field '" +:+ name +:+ "' is not a valid port.") else inr (Some p)
  | None => inr None
  end.
(** the text after the last backslash *)
Fixpoint last_segment (s segment : string) : string :=
  match s with "" => segment | String c s => if code c =? 92 then last_segment s s else last_segment s segment end.
Definition leaf_segment (path : option string) : option string :=
  match path with
  | None | Some "" => None
  | Some p => Some (last_segment p p)
  end.
Definition registry_value_type (details : option string) : option string :=
  d ← details;
  Some (if starts_with "DWORD" d then "REG_DWORD" else if starts_with "QWORD" d then "REG_QWORD"
        else if starts_with "Binary Data" d then "REG_BINARY" else "REG_SZ").
Definition truthy (value : option string) : bool :=
  match value with
  | Some v => String.eqb v "true" || String.eqb v "True" || String.eqb v "TRUE" || String.eqb v "1"
  | None => false
  end.

(** ** Process events *)
Definition sysmon_provider : string := "Microsoft-Windows-Sysmon".
Definition sysmon_names : list string :=
  ["ParentCommandLine"; "IntegrityLevel"; "OriginalFileName"; "CurrentDirectory"; "LogonId"; "LogonGuid"; "TerminalSessionId";
   "Hashes"; "UtcTime"].
(** [Data] elements without a name are skipped *)
Fixpoint process_fields (l : list Element) (fields : list (string * string)) : string + list (string * string) :=
  match l with
  | [] => inr fields
  | d :: l =>
      match Attribute "Name" d with
      | Some name =>
          if bool_decide (is_Some (find_text name fields)) then inl "Duplicate Sysmon named data field is ambiguous"
          else process_fields l (fields ++ [(name, default "" (e_text d))])
      | None => process_fields l fields
      end
  end.
Definition provider_name (system : Element) : string :=
  default sysmon_provider (FirstChildElement "Provider" system ≫= Attribute "Name").

Section Decode.
(** the top elements of the document, or the error text *)
Context (Parse : string -> string + list Element).
Definition parse_xml (xml : string) : string + list Element :=
  match Parse xml with inr l => inr l | inl e => inl ("Could not parse Sysmon event XML: " +:+ e) end.
Definition missing_parts : string := "Sysmon XML is missing Event, System, or EventData.".
(** [System] and [EventData] of the event *)
Definition event_parts (event : Element) : string + (Element * Element) :=
  system ← required missing_parts (FirstChildElement "System" event);
  event_data ← required missing_parts (FirstChildElement "EventData" event);
  inr (system, event_data).
Definition event_id_of (system : Element) : string + Z :=
  id ← parse_integer u32_max (child_text system "EventID") "System/EventID";
  required "Sysmon XML is missing System/EventID." id.
Definition record_id_of (system : Element) : string + option Z :=
  parse_integer u64_max (child_text system "EventRecordID") "System/EventRecordID".

Definition process_event (event_id : Z) (system : Element) (record_id : option Z) (fields : list (string * string))
    (pid : Z) (parent_pid : option Z) (timestamp : UtcTimestamp) : RawProcessEvent :=
  let started := event_id =? 1 in
  let ended := event_id =? 5 in
  let unless_ended {A} (o : option A) := if ended then None else o in
  {| pe_source := {| sp_kind := sysmon; sp_provider := provider_name system; sp_channel := child_text system "Channel";
                     sp_record_id := record_id |};
     pe_process_start_time := if ended then 0 else timestamp;
     pe_pid := pid; pe_start_time_ticks := None; pe_process_guid := field fields "ProcessGuid";
     pe_parent_process_guid := unless_ended (field fields "ParentProcessGuid");
     pe_parent_pid := unless_ended parent_pid;
     pe_parent_executable := unless_ended (field fields "ParentImage");
     pe_executable := field fields "Image";
     pe_command_line := unless_ended (field fields "CommandLine");
     pe_user_sid := None; pe_user_name := field fields "User";
     pe_sha256 := unless_ended (process_sha256 (field fields "Hashes"));
     pe_terminated := ended; pe_termination_time := if ended then Some timestamp else None;
     pe_termination_time_ticks := None; pe_exit_code := None; pe_native_fields := None;
     pe_sysmon_fields := if started then Some {| sf_fields := (fun n => find_text n fields) <$> sysmon_names |} else None |}.
Definition decode_process_xml (xml : string) : string + RawProcessEvent :=
  document ← parse_xml xml;
  '(event, _) ← required missing_parts (first_named "Event" document);
  '(system, event_data) ← event_parts event;
  event_id ← event_id_of system;
  _ ← refuse_when (negb (event_id =? 1) && negb (event_id =? 5))
        "The live Sysmon process decoder accepts only Event IDs 1 and 5.";
  fields ← process_fields (named "Data" event_data) [];
  pid_ ← parse_integer u32_max (field fields "ProcessId") "ProcessId";
  pid ← required "Sysmon Event ID 1 is missing ProcessId." pid_;
  utc_text ← required "Sysmon Event ID 1 is missing UtcTime." (field fields "UtcTime");
  timestamp ← process_utc utc_text;
  parent_pid ← parse_integer u32_max (field fields "ParentProcessId") "ParentProcessId";
  record_id ← record_id_of system;
  inr (process_event event_id system record_id fields pid parent_pid timestamp).

(** ** The other families *)
Fixpoint telemetry_fields (l : list Element) (fields : list (string * string)) : string + list (string * string) :=
  match l with
  | [] => inr fields
  | d :: l =>
      match Attribute "Name" d with
      | Some name =>
          if str_empty name || (128 <? slen name) || (64 <=? zlen fields) || bool_decide (is_Some (find_text name fields))
          then inl "Sysmon named field is duplicate, invalid or beyond the field-count bound"
          else telemetry_fields l (fields ++ [(name, default "" (e_text d))])
      | None => inl "Sysmon Data field has no name"
      end
  end.
Definition context_of (pid : Z) (executable guid user : option string) : RawProcessContext := {|
  pc_pid := pid; pc_start_time_ticks := None; pc_executable := executable; pc_process_name := None; pc_user_name := user;
  pc_user_sid := None; pc_process_guid := guid; pc_cached_context := None |}.
(** an invalid process id counts as none *)
Definition make_process_context (fields : list (string * string)) : RawProcessContext :=
  let pid := match parse_integer u32_max (field fields "ProcessId") "ProcessId" with inr (Some p) => p | _ => 0 end in
  context_of pid (field fields "Image") (field fields "ProcessGuid") (field fields "User").
Definition exact_source_context (fields : list (string * string)) (prefix : string) : string + RawProcessContext :=
  let pid_name := prefix +:+ "ProcessId" in
  parsed ← parse_integer u32_max (field fields pid_name) pid_name;
  pid ← required ("Sysmon event is missing " +:+ pid_name) parsed;
  let lower := field fields (prefix +:+ "ProcessGuid") in
  let upper := field fields (prefix +:+ "ProcessGUID") in
  _ ← refuse_when (match lower, upper with Some a, Some b => negb (String.eqb a b) | _, _ => false end)
        "Conflicting Sysmon process GUID aliases";
  inr (context_of pid (field fields (prefix +:+ "Image")) (match lower with Some _ => lower | None => upper end)
         (field fields (prefix +:+ "User"))).
Definition hex_digit (c : ascii) : option Z :=
  if is_digit c then Some (digit_val c)
  else if (97 <=? code c) && (code c <=? 102) then Some (code c - 87)
  else if (65 <=? code c) && (code c <=? 70) then Some (code c - 55) else None.
Fixpoint hex_text (s : string) (acc : Z) : option Z :=
  match s with "" => Some acc | String c s => d ← hex_digit c; hex_text s (acc * 16 + d) end.
Definition hex_value (fields : list (string * string)) (name : string) : string + option Z :=
  match field fields name with
  | None => inr None
  | Some v =>
      let digits := if starts_with "0x" v || starts_with "0X" v then str_drop 2 v else v in
      match (if str_empty digits then None else hex_text digits 0) with
      | Some n => if n <=? u64_max then inr (Some n) else inl ("Invalid or overflowing Sysmon hexadecimal field: " +:+ name)
      | None => inl ("Invalid or overflowing Sysmon hexadecimal field: " +:+ name)
      end
  end.
(** [std::sort] of the pairs *)
Definition pair_le (a b : string * string) : bool :=
  match String.compare a.1 b.1 with
  | Lt => true
  | Gt => false
  | Eq => match String.compare a.2 b.2 with Gt => false | _ => true end
  end.
Fixpoint insert_pair (p : string * string) (l : list (string * string)) : list (string * string) :=
  match l with [] => [p] | q :: l => if pair_le p q then p :: q :: l else q :: insert_pair p l end.
Fixpoint sort_pairs (l : list (string * string)) : list (string * string) :=
  match l with [] => [] | p :: l => insert_pair p (sort_pairs l) end.

Definition extended_event (event_id : Z) (source : SourceProvenance) (system : Element) (timestamp : UtcTimestamp)
    (fields : list (string * string)) : string + RawEvent :=
  let text name := field fields name in
  _ ← refuse_when (negb (bool_decide (is_Some (FirstChildElement "Provider" system ≫= Attribute "Name")))
                   || negb (String.eqb (sp_provider source) sysmon_provider)
                   || negb (bool_decide (sp_channel source = Some "Microsoft-Windows-Sysmon/Operational")))
        "Extended Sysmon event has the wrong provider/channel";
  '(time, time_field) ← match text "UtcTime" with
                        | Some utc => t ← telemetry_utc utc; inr (t, "EventData/UtcTime")
                        | None => if bool_decide (is_Some (FirstChildElement "TimeCreated" system)) then inr (timestamp, "System/TimeCreated")
                                  else inl "Extended Sysmon event has no event clock"
                        end;
  actor ← exact_source_context fields (if event_id =? 22 then "" else "Source");
  target ← (if event_id =? 22 then inr None else t ← exact_source_context fields "Target"; inr (Some t));
  granted_access ← (if event_id =? 10 then hex_value fields "GrantedAccess" else inr None);
  _ ← refuse_when (match granted_access with Some a => u32_max <? a | None => false end) "Sysmon access mask exceeds 32 bits";
  start_address ← (if event_id =? 8 then hex_value fields "StartAddress" else inr None);
  new_thread_id ← (if event_id =? 8 then parse_integer u32_max (text "NewThreadId") "NewThreadId" else inr None);
  query_status ← (if event_id =? 22 then parse_integer u32_max (text "QueryStatus") "QueryStatus" else inr None);
  inr (SysmonExtendedEvent {|
    xe_source := source; xe_timestamp := time; xe_process := actor; xe_event_id := event_id; xe_event_time_field := time_field;
    xe_target := target; xe_granted_access := granted_access; xe_start_address := start_address;
    xe_new_thread_id := new_thread_id; xe_query_status := query_status;
    xe_call_trace := if event_id =? 10 then text "CallTrace" else None;
    xe_start_module := if event_id =? 8 then text "StartModule" else None;
    xe_start_function := if event_id =? 8 then text "StartFunction" else None;
    xe_query_name := if event_id =? 22 then text "QueryName" else None;
    xe_query_results := if event_id =? 22 then text "QueryResults" else None;
    xe_source_fields := sort_pairs fields |}).
Definition network_event (source : SourceProvenance) (timestamp : UtcTimestamp) (process : RawProcessContext)
    (fields : list (string * string)) : string + RawEvent :=
  let text name := field fields name in
  source_port ← parse_port (text "SourcePort") "SourcePort";
  destination_port ← parse_port (text "DestinationPort") "DestinationPort";
  inr (NetworkEvent {|
    ne_source := source; ne_timestamp := timestamp; ne_process := process;
    ne_direction := if truthy (text "Initiated") then outbound else inbound;
    ne_protocol := match text "Protocol" with
                   | Some p => if String.eqb p "tcp" || String.eqb p "TCP" then tcp
                               else if String.eqb p "udp" || String.eqb p "UDP" then udp else other_protocol
                   | None => other_protocol
                   end;
    ne_source_ip := text "SourceIp"; ne_source_port := source_port; ne_destination_ip := text "DestinationIp";
    ne_destination_port := destination_port; ne_destination_hostname := text "DestinationHostname" |}).
Definition file_event (operation : FileOperation) (source : SourceProvenance) (timestamp : UtcTimestamp)
    (process : RawProcessContext) (fields : list (string * string)) : RawEvent := FileEvent {|
  fe_source := source; fe_timestamp := timestamp; fe_process := process; fe_operation := operation;
  fe_path := field fields "TargetFilename"; fe_target_path := None; fe_previous_path := None;
  fe_sha256 := telemetry_sha256 (field fields "Hashes"); fe_phase := reported; fe_status := None |}.
Definition registry_event (operation : RegistryOperation) (source : SourceProvenance) (timestamp : UtcTimestamp)
    (process : RawProcessContext) (fields : list (string * string)) : RawEvent :=
  let key_path := field fields "TargetObject" in
  let value {A} (o : option A) := match operation with set_value => o | _ => None end in
  RegistryEvent {|
    re_source := source; re_timestamp := timestamp; re_process := process; re_operation := operation; re_key_path := key_path;
    re_value_name := value (leaf_segment key_path); re_value_type := value (registry_value_type (field fields "Details"));
    re_value_data := None |}.
Definition image_load_event (source : SourceProvenance) (timestamp : UtcTimestamp) (process : RawProcessContext)
    (fields : list (string * string)) : RawEvent := ImageLoadEvent {|
  ie_source := source; ie_timestamp := timestamp; ie_process := process; ie_path := field fields "ImageLoaded";
  ie_is_signed := (fun s => truthy (Some s)) <$> field fields "Signed"; ie_signature_status := field fields "SignatureStatus";
  ie_sha256 := telemetry_sha256 (field fields "Hashes") |}.
(** the Event Log's time, when it is valid *)
Definition system_time (system : Element) : option UtcTimestamp :=
  match FirstChildElement "TimeCreated" system ≫= Attribute "SystemTime" with
  | Some text => match telemetry_utc text with inr t => Some t | inl _ => None end
  | None => None
  end.
(** or the time of the event data *)
Definition event_time (event_id : Z) (system : Element) (fields : list (string * string)) : string + UtcTimestamp :=
  match system_time system with
  | Some t => inr t
  | None =>
      utc_text ← required ("Sysmon telemetry event " +:+ to_string event_id +:+ " has neither System/TimeCreated nor EventData/UtcTime.")
        (field fields "UtcTime");
      telemetry_utc utc_text
  end.
Definition family_event (event_id : Z) (source : SourceProvenance) (system : Element) (timestamp : UtcTimestamp)
    (fields : list (string * string)) : string + RawEvent :=
  let process := make_process_context fields in
  if (event_id =? 8) || (event_id =? 10) || (event_id =? 22) then extended_event event_id source system timestamp fields
  else if event_id =? 3 then network_event source timestamp process fields
  else if event_id =? 7 then inr (image_load_event source timestamp process fields)
  else if event_id =? 11 then inr (file_event file_create source timestamp process fields)
  else if (event_id =? 23) || (event_id =? 26) then inr (file_event file_remove source timestamp process fields)
  else if event_id =? 12 then
    inr (registry_event (match field fields "EventType" with
                         | Some op => if String.eqb op "DeleteKey" then delete_key else add_key
                         | None => add_key
                         end) source timestamp process fields)
  else if event_id =? 13 then inr (registry_event set_value source timestamp process fields)
  else if event_id =? 14 then inr (registry_event rename_key source timestamp process fields)
  else inl ("Sysmon Event ID " +:+ to_string event_id
            +:+ " is not a supported telemetry family (expected 3, 7, 8, 10, 11, 12, 13, 14, 22, 23, or 26).").
Definition has_nul (s : string) : bool := negb (str_forallb (fun c => negb (code c =? 0)) s).
Definition decode_telemetry_xml (xml : string) : string + RawEvent :=
  _ ← refuse_when (str_empty xml || (256 * 1024 <? slen xml) || has_nul xml)
        "Sysmon XML exceeds the 256 KiB decoded-event admission bound";
  document ← parse_xml xml;
  '(event, after) ← required missing_parts (first_named "Event" document);
  '(system, event_data) ← event_parts event;
  _ ← refuse_when ((match after with [] => false | _ => true end) || repeated "System" event || repeated "EventData" event) missing_parts;
  _ ← refuse_when (existsb (fun name => repeated name system) ["Provider"; "Channel"; "EventID"; "EventRecordID"; "TimeCreated"])
        "Ambiguous duplicate Sysmon System field";
  event_id ← event_id_of system;
  fields ← telemetry_fields (named "Data" event_data) [];
  timestamp ← event_time event_id system fields;
  record_id ← record_id_of system;
  let source := {| sp_kind := sysmon; sp_provider := provider_name system; sp_channel := child_text system "Channel";
                   sp_record_id := record_id |} in
  family_event event_id source system timestamp fields.
End Decode.
