(* ===== verification/SysmonFacts.v ===== *)
(** * What the Sysmon decoders promise

    The named data of an event is a map without ambiguity: every name occurs once,
    and the order in which the channel renders the fields does not matter.  At the
    end, which texts the telemetry decoder takes for a time, and that it reads them
    exactly: the years it admits keep the nanosecond count within 64 bits. *)

From S2P Require Import Prelude Telemetry Ledger Json Command CommandFacts SysmonDecoder.

#[local] Instance facts_bind : MBind (sum string) := decode_bind.
Lemma decode_bind_inr {A B} (r : string + A) (f : A -> string + B) b :
  @mbind (sum string) decode_bind A B f r = inr b <-> exists a, r = inr a /\ f a = inr b.
Proof. destruct r as [e|a]; cbn; split; [done|by intros (a & [=] & _)|eauto|by intros (a' & [= <-] & H)]. Qed.
Lemma refuse_when_inr b e u : refuse_when b e = inr u -> b = false.
Proof. by destruct b. Qed.
Lemma required_inr {A} e (o : option A) a : required e o = inr a <-> o = Some a.
Proof. destruct o; cbn; naive_solver. Qed.
(** step through a decoder that succeeded *)
Ltac step H := let a := fresh "a" in let Ha := fresh "Ha" in
  apply decode_bind_inr in H as (a & Ha & H); cbv beta in H;
  try (apply refuse_when_inr in Ha; clear a);
  try (apply required_inr in Ha).

(** the same step in the goal *)
Ltac follow H := step H;
  match goal with
  | E : ?x = inr _ |- context [?x] => rewrite E
  | E : ?x = Some _ |- context [?x] => rewrite E
  | E : ?x = false |- context [?x] => rewrite E
  end; cbn [mbind decode_bind required refuse_when].

(** ** Named data *)
Lemma find_text_app k l l' : find_text k (l ++ l') = match find_text k l with Some v => Some v | None => find_text k l' end.
Proof. induction l as [|[k' v] l IH]; [done|]. cbn. by destruct (k =? k')%string. Qed.
Lemma find_text_None k l : find_text k l = None <-> k ∉ l.*1.
Proof.
  induction l as [|[k' v] l IH]; cbn; [split; [intros _ H; inversion H|done]|]. destruct (String.eqb_spec k k') as [->|Hne].
  - split; [done|]. intros H. destruct H. by constructor.
  - rewrite IH, elem_of_cons. naive_solver.
Qed.
Lemma find_text_Some k v l : NoDup l.*1 -> find_text k l = Some v <-> (k, v) ∈ l.
Proof.
  intros Hd. induction l as [|[k' w] l IH]; cbn in *; [split; [done|intros H; inversion H]|].
  apply NoDup_cons in Hd as [Hn Hd]. rewrite elem_of_cons. destruct (String.eqb_spec k k') as [->|Hne].
  - split; [intros [= ->]; by left|]. intros [[= ->]|H]; [done|]. destruct Hn. apply list_elem_of_fmap. by exists (k', v).
  - rewrite IH by done. naive_solver.
Qed.
Lemma find_text_perm l l' : NoDup l.*1 -> Permutation l l' -> forall k, find_text k l = find_text k l'.
Proof.
  intros Hd Hp k. assert (Hd' : NoDup l'.*1) by (by rewrite <- Hp).
  destruct (find_text k l) as [v|] eqn:E.
  - symmetry. apply find_text_Some; [done|]. rewrite <- Hp. by apply find_text_Some.
  - symmetry. apply find_text_None. apply find_text_None in E. by rewrite <- Hp.
Qed.
(** the name and text of a [Data] element *)
Definition pair_of (d : Element) : string * string := (default "" (Attribute "Name" d), default "" (e_text d)).
Definition named_data (l : list Element) : list Element := filter (fun d => is_Some (Attribute "Name" d)) l.
Lemma process_fields_spec l : forall acc fields, NoDup acc.*1 ->
  process_fields l acc = inr fields <-> fields = acc ++ (pair_of <$> named_data l) /\ NoDup fields.*1.
Proof.
  induction l as [|d l IH]; intros acc fields Hd; cbn [process_fields].
  { cbn. rewrite app_nil_r. naive_solver. }
  unfold named_data. rewrite filter_cons. fold (named_data l).
  destruct (Attribute "Name" d) as [name|] eqn:E.
  - rewrite decide_True by done. set (p := pair_of d). assert (Ep : p = (name, default "" (e_text d))) by (unfold p, pair_of; by rewrite E).
    rewrite fmap_cons, <- Ep. fold p. clearbody p. destruct (bool_decide (is_Some (find_text name acc))) eqn:Ef.
    + apply bool_decide_eq_true in Ef as [v Hv]. split; [done|]. intros [-> Hn]. exfalso.
      rewrite fmap_app, NoDup_app in Hn. destruct Hn as (_ & Hn & _). apply (Hn name).
      * destruct (decide (name ∈ acc.*1)) as [|Hi]; [done|]. apply find_text_None in Hi. congruence.
      * cbn. rewrite Ep. constructor.
    + apply bool_decide_eq_false in Ef. assert (Hni : name ∉ acc.*1).
      { apply find_text_None. destruct (find_text name acc); [destruct Ef; by eexists|done]. }
      rewrite IH.
      * rewrite <- app_assoc. done.
      * rewrite Ep, fmap_app. cbn. apply NoDup_app. split_and!; [done| |apply NoDup_singleton].
        intros x Hx ->%list_elem_of_singleton. done.
  - rewrite decide_False by (by intros []). apply IH. done.
Qed.
Lemma telemetry_fields_spec l : forall acc fields, NoDup acc.*1 -> zlen acc <= 64 ->
  telemetry_fields l acc = inr fields <->
  fields = acc ++ (pair_of <$> l) /\ NoDup fields.*1 /\ zlen fields <= 64 /\
  Forall (fun d => exists name, Attribute "Name" d = Some name /\ 0 < slen name <= 128) l.
Proof.
  induction l as [|d l IH]; intros acc fields Hd Hl; cbn [telemetry_fields].
  { cbn. rewrite app_nil_r. split; [intros [= <-]|naive_solver]. split_and!; [done..|by constructor]. }
  destruct (Attribute "Name" d) as [name|] eqn:E; [|split; [done|intros (_ & _ & _ & H); apply Forall_cons in H as [(? & ? & _) _]; congruence]].
  set (p := pair_of d). assert (Ep : p = (name, default "" (e_text d))) by (unfold p, pair_of; by rewrite E).
  rewrite fmap_cons, <- Ep. fold p. clearbody p. rewrite Forall_cons.
  assert (Hname : (exists n, Attribute "Name" d = Some n /\ 0 < slen n <= 128) <-> 0 < slen name <= 128).
  { split; [intros (n & Hn & H); congruence|]. intros H. by exists name. }
  rewrite Hname. clear Hname.
  destruct (str_empty name || (128 <? slen name) || (64 <=? zlen acc) || bool_decide (is_Some (find_text name acc))) eqn:Eb.
  - split; [done|]. intros (-> & Hn & Hz & Hs & _). exfalso. rewrite !orb_true_iff, bool_decide_eq_true in Eb.
    rewrite zlen_app, zlen_cons in Hz. unfold zlen in *.
    destruct Eb as [[[Eb|Eb]|Eb]|[v Hv]]; [destruct name; [by destruct Hs|done]|apply Z.ltb_lt in Eb; lia|apply Z.leb_le in Eb; lia|].
    rewrite fmap_app, NoDup_app in Hn. destruct Hn as (_ & Hn & _). apply (Hn name).
    + destruct (decide (name ∈ acc.*1)) as [|Hi]; [done|]. apply find_text_None in Hi. congruence.
    + rewrite fmap_cons, Ep. constructor.
  - rewrite !orb_false_iff, bool_decide_eq_false in Eb. destruct Eb as [[[E1 E2%Z.ltb_ge] E3%Z.leb_gt] E4].
    assert (Hni : name ∉ acc.*1).
    { apply find_text_None. destruct (find_text name acc); [destruct E4; by eexists|done]. }
    assert (0 < slen name) by (destruct name as [|c n]; [done|]; rewrite slen_cons; pose proof (slen_nonneg n); lia).
    rewrite IH.
    + rewrite <- app_assoc. cbn [app]. naive_solver.
    + rewrite Ep, fmap_app. cbn. apply NoDup_app. split_and!; [done| |apply NoDup_singleton].
      intros x Hx ->%list_elem_of_singleton. done.
    + rewrite zlen_app. unfold zlen at 2. cbn. unfold zlen in *. lia.
Qed.

(** ** Sorting *)
Lemma compare_self s : String.compare s s = Eq.
Proof. induction s as [|c s IH]; [done|]. cbn. unfold Ascii.compare. by rewrite N.compare_refl. Qed.
Lemma pair_le_iff a b : pair_le a b = true <-> String.le a.1 b.1 /\ (a.1 = b.1 -> String.le a.2 b.2).
Proof.
  unfold pair_le, String.le, String.leb. destruct (String.compare a.1 b.1) eqn:E.
  - apply String.compare_eq_iff in E. rewrite E. destruct (String.compare a.2 b.2); naive_solver.
  - split; [|done]. intros _. split; [done|]. intros H. rewrite H in E.
    by rewrite compare_self in E.
  - naive_solver.
Qed.
Lemma pair_le_total a b : pair_le a b = true \/ pair_le b a = true.
Proof.
  rewrite !pair_le_iff. unfold String.le. destruct (decide (a.1 = b.1)) as [E|E].
  - rewrite E. pose proof (String.leb_total b.1 b.1). destruct (String.leb_total a.2 b.2) as [H1|H1]; [left|right]; naive_solver.
  - destruct (String.leb_total a.1 b.1) as [H1|H1]; [left|right]; naive_solver.
Qed.
Lemma pair_le_antisym a b : pair_le a b = true -> pair_le b a = true -> a = b.
Proof.
  rewrite !pair_le_iff. intros [H1 H2] [H3 H4]. assert (E : a.1 = b.1) by (by apply (anti_symm String.le)).
  assert (a.2 = b.2) by (apply (anti_symm String.le); auto). destruct a, b; simpl in *; congruence.
Qed.
Lemma pair_le_trans a b c : pair_le a b = true -> pair_le b c = true -> pair_le a c = true.
Proof.
  rewrite !pair_le_iff. intros [H1 H2] [H3 H4]. split; [by etrans|]. intros E.
  assert (E1 : a.1 = b.1) by (apply (anti_symm String.le); [done|by rewrite E]). etrans; [by apply H2|]. apply H4. congruence.
Qed.
Lemma insert_pair_comm p q l : insert_pair p (insert_pair q l) = insert_pair q (insert_pair p l).
Proof.
  induction l as [|x l IH]; cbn [insert_pair].
  - destruct (pair_le p q) eqn:E1, (pair_le q p) eqn:E2; try done; [by rewrite (pair_le_antisym p q)|].
    destruct (pair_le_total p q); congruence.
  - destruct (pair_le q x) eqn:Eq, (pair_le p x) eqn:Ep; cbn [insert_pair]; rewrite ?Eq, ?Ep; try (by rewrite IH).
    + destruct (pair_le p q) eqn:E1, (pair_le q p) eqn:E2; rewrite ?Ep, ?Eq; try done; [by rewrite (pair_le_antisym p q)|].
      destruct (pair_le_total p q); congruence.
    + destruct (pair_le p q) eqn:E1; [|done]. by rewrite (pair_le_trans p q x) in Ep.
    + destruct (pair_le q p) eqn:E1; [|done]. by rewrite (pair_le_trans q p x) in Eq.
Qed.
Lemma sort_pairs_perm l l' : Permutation l l' -> sort_pairs l = sort_pairs l'.
Proof. induction 1; cbn; [done|congruence|by rewrite insert_pair_comm|congruence]. Qed.

(** ** The order of the data does not matter *)
Record same_fields (f f' : list (string * string)) : Prop := {
  sf_find k : find_text k f = find_text k f'; sf_sorted : sort_pairs f = sort_pairs f'
}.
Lemma same_field f f' k : same_fields f f' -> field f k = field f' k.
Proof. intros [H _]. unfold field. by rewrite H. Qed.
Lemma process_event_same id system r f f' pid ppid t : same_fields f f' ->
  process_event id system r f pid ppid t = process_event id system r f' pid ppid t.
Proof.
  intros H. pose proof (fun k => same_field f f' k H) as Hf. unfold process_event. rewrite !Hf. do 2 f_equal.
  all: destruct (id =? 1); [|done]. all: do 2 f_equal; cbn; by rewrite !(sf_find _ _ H).
Qed.
Lemma family_event_same id source system t f f' : same_fields f f' ->
  family_event id source system t f = family_event id source system t f'.
Proof.
  intros H. pose proof (fun k => same_field f f' k H) as Hf.
  unfold family_event, extended_event, network_event, image_load_event, file_event, registry_event, make_process_context,
    exact_source_context, hex_value. by rewrite (sf_sorted _ _ H), !Hf.
Qed.

Lemma first_named_app n l l' : first_named n (l ++ l') =
  match first_named n l with Some (e, rest) => Some (e, rest ++ l') | None => first_named n l' end.
Proof. induction l as [|e l IH]; [done|]. cbn. by destruct (e_name e =? n)%string. Qed.
(** two documents that differ in the order of the elements of [EventData] *)
Inductive rearranged : list Element -> list Element -> Prop :=
| rearranged_data before after attributes text pre post data_attributes data_text l l' :
    first_named "Event" before = None -> first_named "EventData" pre = None -> Permutation l l' ->
    rearranged (before ++ Elem "Event" attributes text (pre ++ Elem "EventData" data_attributes data_text l :: post) :: after)
               (before ++ Elem "Event" attributes text (pre ++ Elem "EventData" data_attributes data_text l' :: post) :: after).
Lemma rearranged_event doc doc' : rearranged doc doc' -> exists event event' after d d',
  first_named "Event" doc = Some (event, after) /\ first_named "Event" doc' = Some (event', after) /\
  FirstChildElement "System" event = FirstChildElement "System" event' /\
  repeated "System" event = repeated "System" event' /\ repeated "EventData" event = repeated "EventData" event' /\
  FirstChildElement "EventData" event = Some d /\ FirstChildElement "EventData" event' = Some d' /\
  Permutation (e_children d) (e_children d').
Proof.
  intros [before after attributes text pre post da dt l l' Hb Hp Hl].
  exists (Elem "Event" attributes text (pre ++ Elem "EventData" da dt l :: post)),
    (Elem "Event" attributes text (pre ++ Elem "EventData" da dt l' :: post)), after, (Elem "EventData" da dt l), (Elem "EventData" da dt l').
  rewrite !first_named_app, Hb. cbn [first_named e_name String.eqb Ascii.eqb Bool.eqb].
  unfold FirstChildElement, repeated. cbn [e_children]. rewrite !first_named_app, Hp.
  cbn [first_named e_name String.eqb Ascii.eqb Bool.eqb fmap option_fmap option_map fst].
  split_and!; try done.
  - by destruct (first_named "System" pre) as [[x rest]|].
  - destruct (first_named "System" pre) as [[x rest]|]; [|done]. rewrite !first_named_app.
    cbn [first_named e_name String.eqb Ascii.eqb Bool.eqb]. by destruct (first_named "System" rest) as [[]|].
Qed.
Lemma process_fields_perm l l' f : Permutation l l' -> process_fields l [] = inr f ->
  exists f', process_fields l' [] = inr f' /\ same_fields f f'.
Proof.
  intros Hp H. apply process_fields_spec in H as [-> Hn]; [|constructor]. cbn [app] in *.
  assert (Hpm : Permutation (pair_of <$> named_data l) (pair_of <$> named_data l')) by (unfold named_data; by rewrite Hp).
  exists (pair_of <$> named_data l'). split.
  - apply process_fields_spec; [constructor|]. split; [done|]. by rewrite <- Hpm.
  - split; [by apply find_text_perm|by apply sort_pairs_perm].
Qed.
Lemma telemetry_fields_perm l l' f : Permutation l l' -> telemetry_fields l [] = inr f ->
  exists f', telemetry_fields l' [] = inr f' /\ same_fields f f'.
Proof.
  intros Hp H. apply telemetry_fields_spec in H as (-> & Hn & Hz & Ha); [|constructor|done]. cbn [app] in *.
  assert (Hpm : Permutation (pair_of <$> l) (pair_of <$> l')) by (by rewrite Hp).
  exists (pair_of <$> l'). split.
  - apply telemetry_fields_spec; [constructor|done|]. split_and!; [done|by rewrite <- Hpm| |by rewrite <- Hp].
    unfold zlen in *. by rewrite <- Hpm.
  - split; [by apply find_text_perm|by apply sort_pairs_perm].
Qed.
Lemma named_perm n d d' : Permutation (e_children d) (e_children d') -> Permutation (named n d) (named n d').
Proof. intros H. unfold named. by rewrite H. Qed.

Section Order.
Context (Parse : string -> string + list Element).
Lemma parse_xml_inr xml doc : Parse xml = inr doc -> parse_xml Parse xml = inr doc.
Proof. intros H. unfold parse_xml. by rewrite H. Qed.
Lemma process_rearranged xml xml' doc doc' e : Parse xml = inr doc -> Parse xml' = inr doc' -> rearranged doc doc' ->
  decode_process_xml Parse xml = inr e -> decode_process_xml Parse xml' = inr e.
Proof.
  intros Hx Hx' Hr. destruct (rearranged_event doc doc' Hr) as (ev & ev' & after & d & d' & E1 & E2 & E3 & _ & _ & E4 & E5 & Hp).
  unfold decode_process_xml. rewrite (parse_xml_inr _ _ Hx), (parse_xml_inr _ _ Hx'). cbn [mbind decode_bind].
  rewrite E1, E2. cbn [required mbind decode_bind]. unfold event_parts. rewrite E3, E4, E5.
  destruct (FirstChildElement "System" ev') as [system|]; [|done]. cbn [required mbind decode_bind]. intros H.
  follow H. follow H. step H.
  destruct (process_fields_perm _ _ _ (named_perm "Data" _ _ Hp) Ha1) as (f' & Hf' & Hs). rewrite Hf'. cbn [mbind decode_bind].
  rewrite <- !(same_field _ _ _ Hs). do 6 follow H. rewrite <- H. f_equal. symmetry. by apply process_event_same.
Qed.
Lemma telemetry_rearranged xml xml' doc doc' e : Parse xml = inr doc -> Parse xml' = inr doc' -> rearranged doc doc' ->
  slen xml' = slen xml -> has_nul xml' = has_nul xml ->
  decode_telemetry_xml Parse xml = inr e -> decode_telemetry_xml Parse xml' = inr e.
Proof.
  intros Hx Hx' Hr Hlen Hnul. destruct (rearranged_event doc doc' Hr) as (ev & ev' & after & d & d' & E1 & E2 & E3 & E4 & E5 & E6 & E7 & Hp).
  assert (Hem : str_empty xml' = str_empty xml).
  { destruct xml, xml'; try done; rewrite slen_cons in Hlen; unfold slen in Hlen; simpl in Hlen; lia. }
  unfold decode_telemetry_xml. rewrite Hem, Hlen, Hnul. intros H. follow H. rewrite (parse_xml_inr _ _ Hx) in H. rewrite (parse_xml_inr _ _ Hx').
  cbn [mbind decode_bind] in *. rewrite E1 in H. rewrite E2. cbn [required mbind decode_bind] in *. unfold event_parts in *.
  rewrite E3, E6 in H. rewrite E7. destruct (FirstChildElement "System" ev') as [system|]; [|done].
  cbn [required mbind decode_bind] in *. rewrite E4, E5 in H. follow H. follow H. follow H. step H.
  destruct (telemetry_fields_perm _ _ _ (named_perm "Data" _ _ Hp) Ha3) as (f' & Hf' & Hs). rewrite Hf'. cbn [mbind decode_bind].
  unfold event_time in *. rewrite <- !(same_field _ _ _ Hs). do 2 follow H. rewrite <- H. symmetry. by apply family_event_same.
Qed.
Lemma rearranged_sym doc doc' : rearranged doc doc' -> rearranged doc' doc.
Proof. intros [before after a t pre post da dt l l' Hb Hp Hl]. by constructor. Qed.
(** C26: The decoded event does not depend on the order of the named data.  Two documents that differ only in the
    order of the elements of [EventData] are both refused or decode to the same event, by the process decoder and by
    the telemetry decoder alike; in particular the source fields an extended event retains are the same list. *)
Theorem sysmon_order_irrelevant (xml xml' : string) (doc doc' : list Element) :
  Parse xml = inr doc -> Parse xml' = inr doc' -> rearranged doc doc' ->
  slen xml' = slen xml -> has_nul xml' = has_nul xml ->
  (forall e, decode_process_xml Parse xml = inr e <-> decode_process_xml Parse xml' = inr e) /\
  (forall e, decode_telemetry_xml Parse xml = inr e <-> decode_telemetry_xml Parse xml' = inr e).
Proof.
  intros Hx Hx' Hr Hl Hn. pose proof (rearranged_sym _ _ Hr) as Hr'. split; intros e; split.
  - by apply (process_rearranged _ _ _ _ _ Hx Hx').
  - by apply (process_rearranged _ _ _ _ _ Hx' Hx).
  - by apply (telemetry_rearranged _ _ _ _ _ Hx Hx').
  - by apply (telemetry_rearranged _ _ _ _ _ Hx' Hx).
Qed.
End Order.

(** ** Times *)
(** ** Components *)
Lemma str_get_drop s i : str_get s i = match str_drop i s with String c _ => Some c | "" => None end.
Proof. revert i. induction s as [|c s IH]; intros [|i]; [done..|]. apply IH. Qed.
Lemma digits_take n : forall v off acc, (off + n <= String.length v)%nat ->
  dec_value (str_take n (str_drop off v)) acc = digits_at v off n acc.
Proof.
  induction n as [|n IH]; intros v off acc Hl; [by rewrite str_take_0|]. cbn [digits_at]. rewrite str_get_drop.
  destruct (str_drop off v) as [|c r] eqn:E.
  - pose proof (f_equal slen E) as L. rewrite slen_drop in L. unfold slen in L. simpl in L. lia.
  - cbn [str_take dec_value]. destruct (is_digit c); [|done]. rewrite <- IH by lia. do 2 f_equal.
    change r with (str_drop 1 (String c r)). by rewrite <- E, str_drop_drop, Nat.add_1_r.
Qed.
Lemma str_drop_long s i : (String.length s <= i)%nat -> str_drop i s = "".
Proof. revert i. induction s as [|c s IH]; intros [|i] H; simpl in *; try done; [lia|apply IH; lia]. Qed.
Lemma digits_short n : forall v off acc, (String.length v < off + S n)%nat -> digits_at v off (S n) acc = None.
Proof.
  induction n as [|n IH]; intros v off acc Hl; cbn [digits_at]; rewrite str_get_drop.
  - by rewrite str_drop_long by lia.
  - destruct (str_drop off v) as [|c r]; [done|]. destruct (is_digit c); [|done]. apply IH. lia.
Qed.
Lemma digits_bound v off n z : digits v off n = Some z -> 0 <= z < 10 ^ Z.of_nat n.
Proof.
  unfold digits. enough (H : forall off acc, 0 <= acc -> digits_at v off n acc = Some z ->
    acc * 10 ^ Z.of_nat n <= z < (acc + 1) * 10 ^ Z.of_nat n) by (intros H'; apply H in H'; lia).
  induction n as [|n IH]; intros o acc Ha; cbn [digits_at]; [intros [= <-]; lia|].
  destruct (str_get v o) as [c|]; [|done]. destruct (is_digit c) eqn:Ed; [|done]. intros H. unfold is_digit, digit_val in *.
  apply IH in H; [|lia]. rewrite Nat2Z.inj_succ, Z.pow_succ_r by lia. pose proof (Z.pow_pos_nonneg 10 (Z.of_nat n)). nia.
Qed.
Lemma decimal_component_digits v off n : (0 < n <= 9)%nat -> decimal_component v off n = digits v off n.
Proof.
  intros Hn. unfold decimal_component, digits. destruct (Nat.ltb_spec (String.length v) (off + n)) as [Hl|Hl].
  - destruct n as [|n]; [lia|]. by rewrite digits_short.
  - pose proof (digits_take n v off 0 Hl) as E. unfold from_chars_all.
    destruct (str_take n (str_drop off v)) as [|c r] eqn:Et.
    + pose proof (f_equal slen Et) as L. rewrite slen_take, slen_drop in L. unfold slen in L. simpl in L. lia.
    + rewrite E. destruct (digits_at v off n 0) as [z|] eqn:Ez; [|done].
      pose proof (digits_bound v off n z Ez) as Hb. destruct (Z.leb_spec z u32_max); [done|].
      assert (10 ^ Z.of_nat n <= 10 ^ 9) by (apply Z.pow_le_mono_r; lia). unfold u32_max in *. lia.
Qed.

(** ** The fraction *)
Definition sysmon_suffix (s : string) : Prop := s = "" \/ s = "Z".
Lemma leading_digits_app ds r : str_forallb is_digit ds = true -> match r with String c _ => is_digit c = false | "" => True end ->
  leading_digits (ds +:+ r) = String.length ds.
Proof.
  induction ds as [|c ds IH]; cbn; [destruct r; [done|]; cbn; by intros _ ->|]. intros [Hc Hd]%andb_true_iff Hr. by rewrite Hc, IH.
Qed.
Lemma leading_split s : s = str_take (leading_digits s) s +:+ str_drop (leading_digits s) s /\
  str_forallb is_digit (str_take (leading_digits s) s) = true.
Proof.
  induction s as [|c s [IH1 IH2]]; [done|]. cbn [leading_digits]. destruct (is_digit c) eqn:E; [|done]. cbn. rewrite E. split; [by rewrite <- IH1|done].
Qed.
Lemma dec_value_digits ds acc : str_forallb is_digit ds = true <-> exists v, dec_value ds acc = Some v.
Proof.
  revert acc. induction ds as [|c ds IH]; intros acc; cbn; [naive_solver|]. destruct (is_digit c); cbn; [apply IH|naive_solver].
Qed.
Lemma parse_fraction_iff p rest ns : String.length p = 19%nat ->
  parse_fraction (p +:+ rest) = inr ns <->
  exists fraction suffix, rest = fraction +:+ suffix /\ fraction_denotes fraction ns /\ sysmon_suffix suffix.
Proof.
  intros Hp. unfold parse_fraction.
  assert (Hd : str_drop 19 (p +:+ rest) = rest) by (rewrite <- Hp; apply str_drop_app). rewrite Hd.
  destruct rest as [|c rest].
  { split; [intros [= <-]; exists "", ""; split_and!; [done|by left|by left]|].
    intros (f & s & E & [[-> ->]|(ds & v & -> & _)] & _); done. }
  destruct (Ascii.eqb_spec c ".") as [->|Hc]; cbn [negb].
  2:{ destruct (Ascii.eqb_spec c "Z") as [->|Hz]; destruct rest as [|c' rest]; cbn.
      1: { split; [intros [= <-]; exists "", "Z"; split_and!; [done|by left|by right]|].
           intros (f & s & E & [[-> ->]|(ds & v & -> & _)] & Hs); [done|]. by injection E. }
      all: split; [done|]; intros (f & s & E & [[-> ->]|(ds & v & -> & _)] & Hs); [destruct Hs as [-> | ->]|];
        cbn in E; congruence. }
  set (n := leading_digits rest). pose proof (leading_split rest) as [Hs Hdig]. fold n in Hs, Hdig.
  assert (Hcomp : (0 < n <= 9)%nat -> decimal_component (p +:+ String "." rest) 20 n = dec_value (str_take n rest) 0).
  { intros Hn. rewrite decimal_component_digits by done. unfold digits. rewrite <- digits_take.
    - do 2 f_equal. change 20%nat with (19 + 1)%nat. rewrite <- Hp, str_drop_app_add. done.
    - rewrite str_length_app, Hp. simpl. assert (String.length (str_take n rest) = n).
      { clear. unfold n. induction rest as [|c r IH]; [done|]. cbn. destruct (is_digit c); [cbn; by rewrite IH|done]. }
      pose proof (f_equal String.length Hs) as L. rewrite str_length_app in L. lia. }
  assert (Hlen : String.length (str_take n rest) = n).
  { unfold n. clear. induction rest as [|c r IH]; [done|]. cbn. destruct (is_digit c); [cbn; by rewrite IH|done]. }
  split.
  - destruct (_ || _ || negb _) eqn:E; [done|]. rewrite !orb_false_iff, negb_false_iff, orb_true_iff in E.
    destruct E as [[E1%Nat.eqb_neq E2%Nat.ltb_ge] E3]. rewrite Hcomp by lia.
    apply dec_value_digits with (acc := 0) in Hdig as [v Hv]. rewrite Hv. intros [= <-].
    exists (String "." (str_take n rest)), (str_drop n rest). split_and!; [by rewrite Hs at 1| |].
    + right. exists (str_take n rest), v. unfold slen. rewrite Hlen. split_and!; [done|lia|lia|done|].
      do 2 f_equal. lia.
    + destruct E3 as [E3|E3%String.eqb_eq]; [left; by destruct (str_drop n rest)|by right].
  - intros (f & s & E & [[-> ->]|(ds & v & -> & Hl & Hv & ->)] & Hsuf); [destruct Hsuf as [-> | ->]; done|].
    cbn in E. injection E as E.
    assert (Hn : n = String.length ds).
    { unfold n. rewrite E. apply leading_digits_app; [apply (dec_value_digits ds 0); eauto|]. by destruct Hsuf as [-> | ->]. }
    assert (Et : str_take n rest = ds) by (rewrite E, Hn; apply str_take_app).
    assert (Ed : str_drop n rest = s) by (rewrite E, Hn; apply str_drop_app).
    unfold slen in *. clearbody n. subst n. rewrite Ed, Hcomp, Et, Hv by lia.
    destruct (Nat.eqb_spec (String.length ds) 0); [lia|]. destruct (Nat.ltb_spec 9 (String.length ds)); [lia|].
    assert (str_empty s || String.eqb s "Z" = true) as -> by (by destruct Hsuf as [-> | ->]). cbn [orb negb].
    do 3 f_equal. lia.
Qed.

(** ** The whole text *)
Definition sysmon_text (separator : ascii) (y m d h mi sec : Z) (tail : string) : string :=
  two (y / 100) (two (y mod 100) (String "-" (two m (String "-" (two d (String separator
    (two h (String ":" (two mi (String ":" (two sec tail))))))))))).
Definition separates (c : ascii) : Prop := c = " "%char \/ c = "T"%char.
(** sixty seconds are admitted *)
Definition sysmon_time (h mi sec : Z) : Prop := 0 <= h <= 23 /\ 0 <= mi <= 59 /\ 0 <= sec <= 60.
Lemma days_before_month_bound y n : 0 <= days_before_month y n <= 31 * Z.of_nat n.
Proof.
  induction n as [|n IH]; cbn [days_before_month]; [lia|]. pose proof (max_day_31 y (Z.of_nat (S n))).
  assert (0 <= max_day y (Z.of_nat (S n))).
  { unfold max_day. destruct (_ && _); [lia|]. generalize (Z.to_nat (Z.of_nat (S n) - 1)). intros i.
    do 12 (destruct i as [|i]; [simpl; lia|]). destruct i; simpl; lia. }
  lia.
Qed.
Lemma civil_days_bound y m d : 1678 <= y <= 2261 -> 1 <= m <= 12 -> 1 <= d <= 31 -> -106651 <= civil_days y m d <= 106700.
Proof.
  intros Hy Hm Hd. unfold civil_days. rewrite !days_before_year_closed. pose proof (days_before_month_bound y (Z.to_nat (m - 1))).
  change (Z.of_nat 1970) with 1970. rewrite !Z2Nat.id in * by lia. Z.to_euclidean_division_equations; lia.
Qed.
Lemma i64_small z : - i64_max - 1 <= z <= i64_max -> i64 z = z.
Proof.
  intros H. unfold i64, u64. unfold i64_max in *. cbv zeta.
  assert (E : z mod 18446744073709551616 = if z <? 0 then z + 18446744073709551616 else z).
  { destruct (Z.ltb_spec z 0); [|apply Z.mod_small; lia]. symmetry. apply (Z.mod_unique _ _ (-1)); lia. }
  rewrite E. destruct (Z.ltb_spec z 0); match goal with |- context [?a <=? ?b] => destruct (Z.leb_spec a b) end; lia.
Qed.
Lemma fraction_bound f ns : fraction_denotes f ns -> 0 <= ns < 1000000000.
Proof.
  intros [[_ ->]|(ds & v & _ & Hl & Hv & ->)]; [lia|]. pose proof (dec_value_bound ds 0 v ltac:(lia) Hv) as Hb.
  replace 1000000000 with (10 ^ slen ds * 10 ^ (9 - slen ds))
    by (rewrite <- Z.pow_add_r by lia; replace (slen ds + (9 - slen ds)) with 9 by lia; done).
  pose proof (Z.pow_pos_nonneg 10 (9 - slen ds)). nia.
Qed.
Lemma two_chars v off n a b : digits v off 2 = Some n -> str_get v off = Some a -> str_get v (S off) = Some b ->
  0 <= n <= 99 /\ a = digit_char (n / 10) /\ b = digit_char (n mod 10).
Proof. intros H Ha Hb. by apply (digits_two v off a b n). Qed.
(** C25: The telemetry decoder reads Sysmon times exactly.  It accepts precisely the texts yyyy-mm-dd, a
    blank or T, hh:mm:ss with up to sixty seconds, an optional fraction of one to nine digits and an optional Z,
    for a date of the Gregorian calendar in the years 1678 to 2261; its answer is the exact number of
    nanoseconds since 1970 of that date, time and fraction, which is within the 64 bits of the clock. *)
Theorem sysmon_time_exact (text : string) (t : UtcTimestamp) :
  telemetry_utc text = inr t <->
  exists separator y m d h mi sec fraction ns suffix,
    text = sysmon_text separator y m d h mi sec (fraction +:+ suffix) /\
    separates separator /\ valid_date y m d /\ 1678 <= y <= 2261 /\ sysmon_time h mi sec /\
    fraction_denotes fraction ns /\ sysmon_suffix suffix /\
    t = epoch_seconds y m d h mi sec * 1000000000 + ns /\ - i64_max - 1 <= t <= i64_max.
Proof.
  assert (Hrange : forall y m d h mi sec f ns, valid_date y m d -> 1678 <= y <= 2261 -> sysmon_time h mi sec -> fraction_denotes f ns ->
    let base := epoch_seconds y m d h mi sec * 1000000000 in
    - i64_max - 1 <= base <= i64_max /\ - i64_max - 1 <= base + ns <= i64_max).
  { intros y m d h mi sec f ns (_ & Hm & Hd) Hy (Hh & Hmi & Hs) Hf%fraction_bound. pose proof (max_day_31 y m).
    pose proof (civil_days_bound y m d Hy Hm ltac:(lia)). unfold epoch_seconds, i64_max. lia. }
  split.
  - intros H. unfold telemetry_utc, parse_utc in H. cbv zeta in H. step H.
    rewrite !orb_false_iff, !negb_false_iff, andb_false_iff, !negb_false_iff in Ha. destruct Ha as [[[[[Hl%Z.ltb_ge E4] E7] E10] E13] E16].
    rewrite !decimal_component_digits in H by lia. do 6 step H. step H. step H. step H. injection H as H.
    rename a into y, a0 into m, a1 into d, a2 into h, a3 into mi, a4 into sec, a5 into ns.
    assert (exists p rest, text = p +:+ rest /\ String.length p = 19%nat) as (p & rest & -> & Hp).
    { exists (str_take 19 text), (str_drop 19 text). rewrite str_take_drop. split; [done|].
      apply Nat2Z.inj. change (slen (str_take 19 text) = 19). rewrite slen_take. lia. }
    apply (parse_fraction_iff p rest ns Hp) in Ha7 as (f & suf & -> & Hf & Hsuf).
    do 19 (destruct p as [|? p]; [done|]). destruct p; [|done]. clear Hp Hl. set (v := _ +:+ (f +:+ suf)) in *.
    rewrite !char_at_true in *. apply digits_four in Ha as (y1 & y2 & Hy1 & Hy2 & ->).
    destruct (digits_two v 0 _ _ _ eq_refl eq_refl Hy1) as (Ry1 & -> & ->).
    destruct (digits_two v 2 _ _ _ eq_refl eq_refl Hy2) as (Ry2 & -> & ->).
    destruct (digits_two v 5 _ _ _ eq_refl eq_refl Ha0) as (Rm & -> & ->).
    destruct (digits_two v 8 _ _ _ eq_refl eq_refl Ha1) as (Rd & -> & ->).
    destruct (digits_two v 11 _ _ _ eq_refl eq_refl Ha2) as (Rh & -> & ->).
    destruct (digits_two v 14 _ _ _ eq_refl eq_refl Ha3) as (Rmi & -> & ->).
    destruct (digits_two v 17 _ _ _ eq_refl eq_refl Ha4) as (Rs & -> & ->).
    injection E4 as ->. injection E7 as ->. injection E13 as ->. injection E16 as ->.
    assert (Hd : valid_date (y1 * 100 + y2) m d) by (unfold valid_date; lia).
    assert (Ht : sysmon_time h mi sec) by (unfold sysmon_time; lia).
    assert (Hy : 1678 <= y1 * 100 + y2 <= 2261) by lia.
    destruct (Hrange _ _ _ _ _ _ _ _ Hd Hy Ht Hf) as [R1 R2]. unfold epoch_seconds in R1, R2.
    rewrite (i64_small (_ * _)) in H by done. rewrite i64_small in H by done. subst t.
    eexists _, (y1 * 100 + y2), m, d, h, mi, sec, f, ns, suf.
    split; [unfold sysmon_text|split; [|exact (conj Hd (conj Hy (conj Ht (conj Hf (conj Hsuf (conj eq_refl R2))))))]].
    + replace ((y1 * 100 + y2) / 100) with y1 by (Z.to_euclidean_division_equations; lia).
      replace ((y1 * 100 + y2) mod 100) with y2 by (Z.to_euclidean_division_equations; lia). reflexivity.
    + unfold separates. destruct E10 as [E|E]; injection E as ->; auto.
  - intros (sep & y & m & d & h & mi & sec & f & ns & suf & -> & Hsep & Hd & Hy & Ht & Hf & Hsuf & -> & _).
    destruct (Hrange y m d h mi sec f ns Hd Hy Ht Hf) as [R1 R2]. pose proof Hd as (Hy' & Hm & Hdd). pose proof Ht as (Hh & Hmi & Hs).
    pose proof (max_day_31 y m). set (v := sysmon_text sep y m d h mi sec (f +:+ suf)).
    unfold telemetry_utc, parse_utc. fold v. rewrite !decimal_component_digits by lia.
    assert (digits v 0 4 = Some y) as ->.
    { apply digits_four. exists (y / 100), (y mod 100).
      split; [|split]; [apply two_digits; [|done..]|apply two_digits; [|done..]|]; Z.to_euclidean_division_equations; lia. }
    rewrite (two_digits v 5 m), (two_digits v 8 d), (two_digits v 11 h), (two_digits v 14 mi), (two_digits v 17 sec) by (lia || done).
    assert (Hlen : (slen v <? 19) = false).
    { apply Z.ltb_ge. unfold v, sysmon_text, two. rewrite !slen_cons. pose proof (slen_nonneg (f +:+ suf)). lia. }
    rewrite Hlen. change (char_at v 4 "-") with true. change (char_at v 7 "-") with true.
    change (char_at v 13 ":") with true. change (char_at v 16 ":") with true.
    assert (Hc : negb (char_at v 10 " ") && negb (char_at v 10 "T") = false) by (destruct Hsep as [-> | ->]; done).
    rewrite Hc. cbn [negb orb refuse_when required mbind decode_bind facts_bind].
    assert (Hf' : parse_fraction v = inr ns).
    { change v with (sysmon_text sep y m d h mi sec "" +:+ (f +:+ suf)). apply parse_fraction_iff; [done|]. by exists f, suf. }
    destruct (_ || (60 <? sec)) eqn:E1; [lia|]. cbn [refuse_when mbind decode_bind].
    destruct (negb _ || _) eqn:E2; [lia|]. cbn [refuse_when mbind decode_bind]. rewrite Hf'. cbn [mbind decode_bind].
    cbv zeta in R1, R2 |- *. unfold epoch_seconds in *. rewrite !i64_small; [done|done|by rewrite i64_small].
Qed.
(** The process decoder has no bound on the year: beyond the range of the clock its answer has wrapped. *)
Example process_years_wrap : process_utc "2300-01-01 00:00:00" = inr (-8032952073709551616) /\
  is_Some (match telemetry_utc "2300-01-01 00:00:00" with inl e => Some e | inr _ => None end).
Proof. vm_compute. eauto. Qed.
