(* ===== verification/SysmonCollector.v ===== *)
(** * The Sysmon collector

    [collectors/sysmon_event_collector.cpp]: the subscription to the Sysmon channel.
    The Event Log calls back on threads of its own, while the owner starts and stops
    the collector; the steps below are the sections under the mutex and the calls
    between them, so every interleaving of callbacks with [start] and [stop] is a
    run.  [start] and [stop] themselves are called by one owner at a time.
    The Windows calls are parameters; a sink is the number of the function that
    was handed to [start]. *)

From S2P Require Import Prelude Telemetry Json SourceGaps ImageCache SysmonDecoder.

(** ** Rendering and routing *)
Definition int32 (z : Z) : Z := (z + 2 ^ 31) mod 2 ^ 32 - 2 ^ 31.
(** the text after the first occurrence *)
Fixpoint after_first (marker s : string) : option string :=
  if starts_with marker s then Some (str_drop (String.length marker) s)
  else match s with "" => None | String _ s => after_first marker s end.
Fixpoint sniff_digits (s : string) (value : Z) (any : bool) : Z :=
  match s with
  | String c s' => if is_digit c then sniff_digits s' (int32 (value * 10 + digit_val c)) true else if any then value else -1
  | "" => if any then value else -1
  end.
Definition sniff_event_id (xml : string) : Z :=
  match after_first "<EventID>" xml with Some rest => sniff_digits rest 0 false | None => -1 end.
Fixpoint strip_line_ends (s : string) : string :=
  match s with
  | "" => ""
  | String c s => let rest := strip_line_ends s in
                  if str_empty rest && ((code c =? 13) || (code c =? 10)) then "" else String c rest
  end.
Fixpoint strip_zeros (l : list Z) : list Z :=
  match l with
  | [] => []
  | c :: l => match strip_zeros l with [] => if c =? 0 then [] else [c] | r => c :: r end
  end.

(** the event with another process context; a process event has none *)
Definition with_process (f : RawProcessContext -> RawProcessContext) (raw : RawEvent) : RawEvent :=
  match raw with
  | ProcessEvent e => ProcessEvent e
  | NetworkEvent e => NetworkEvent {| ne_source := ne_source e; ne_timestamp := ne_timestamp e; ne_process := f (ne_process e);
      ne_direction := ne_direction e; ne_protocol := ne_protocol e; ne_source_ip := ne_source_ip e; ne_source_port := ne_source_port e;
      ne_destination_ip := ne_destination_ip e; ne_destination_port := ne_destination_port e;
      ne_destination_hostname := ne_destination_hostname e |}
  | FileEvent e => FileEvent {| fe_source := fe_source e; fe_timestamp := fe_timestamp e; fe_process := f (fe_process e);
      fe_operation := fe_operation e; fe_path := fe_path e; fe_target_path := fe_target_path e;
      fe_previous_path := fe_previous_path e; fe_sha256 := fe_sha256 e; fe_phase := fe_phase e; fe_status := fe_status e |}
  | RegistryEvent e => RegistryEvent {| re_source := re_source e; re_timestamp := re_timestamp e; re_process := f (re_process e);
      re_operation := re_operation e; re_key_path := re_key_path e; re_value_name := re_value_name e;
      re_value_type := re_value_type e; re_value_data := re_value_data e |}
  | ImageLoadEvent e => ImageLoadEvent {| ie_source := ie_source e; ie_timestamp := ie_timestamp e; ie_process := f (ie_process e);
      ie_path := ie_path e; ie_is_signed := ie_is_signed e; ie_signature_status := ie_signature_status e;
      ie_sha256 := ie_sha256 e |}
  | SysmonExtendedEvent e => SysmonExtendedEvent {| xe_source := xe_source e; xe_timestamp := xe_timestamp e;
      xe_process := f (xe_process e); xe_event_id := xe_event_id e; xe_event_time_field := xe_event_time_field e;
      xe_target := xe_target e; xe_granted_access := xe_granted_access e; xe_start_address := xe_start_address e;
      xe_new_thread_id := xe_new_thread_id e; xe_query_status := xe_query_status e; xe_call_trace := xe_call_trace e;
      xe_start_module := xe_start_module e; xe_start_function := xe_start_function e; xe_query_name := xe_query_name e;
      xe_query_results := xe_query_results e; xe_source_fields := xe_source_fields e |}
  end.

(** ** State *)
Record Impl := {
  subscription : option Z; event_sink : option nat; error_sink : option nat;
  active_callbacks : Z; accepting_callbacks : bool;
  decode_failures : Z; sink_failures : Z; subscription_errors : Z;
  process_cache : ProcessImageCache
}.
Definition new_collector : Impl := {|
  subscription := None; event_sink := None; error_sink := None; active_callbacks := 0; accepting_callbacks := false;
  decode_failures := 0; sink_failures := 0; subscription_errors := 0; process_cache := new_cache 4096 |}.
Definition begin_callback (s : Impl) : option Impl :=
  if accepting_callbacks s
  then Some {| subscription := subscription s; event_sink := event_sink s; error_sink := error_sink s;
               active_callbacks := u64 (active_callbacks s + 1); accepting_callbacks := accepting_callbacks s;
               decode_failures := decode_failures s; sink_failures := sink_failures s;
               subscription_errors := subscription_errors s; process_cache := process_cache s |}
  else None.
Definition finish_callback (s : Impl) : Impl := {|
  subscription := subscription s; event_sink := event_sink s; error_sink := error_sink s;
  active_callbacks := u64 (active_callbacks s - 1); accepting_callbacks := accepting_callbacks s;
  decode_failures := decode_failures s; sink_failures := sink_failures s; subscription_errors := subscription_errors s;
  process_cache := process_cache s |}.
Definition with_cache (c : ProcessImageCache) (s : Impl) : Impl := {|
  subscription := subscription s; event_sink := event_sink s; error_sink := error_sink s;
  active_callbacks := active_callbacks s; accepting_callbacks := accepting_callbacks s;
  decode_failures := decode_failures s; sink_failures := sink_failures s; subscription_errors := subscription_errors s;
  process_cache := c |}.
(** the atomic counters, each increased by one where the flag says so *)
Definition count_failures (decode sink notice : bool) (s : Impl) : Impl :=
  let plus (b : bool) z := if b then u64 (z + 1) else z in {|
  subscription := subscription s; event_sink := event_sink s; error_sink := error_sink s;
  active_callbacks := active_callbacks s; accepting_callbacks := accepting_callbacks s;
  decode_failures := plus decode (decode_failures s); sink_failures := plus sink (sink_failures s);
  subscription_errors := plus notice (subscription_errors s); process_cache := process_cache s |}.
(** the two sections of [start] that set the sinks, and those of [stop] *)
Definition set_sinks (events errors : option nat) (accepting : bool) (s : Impl) : Impl := {|
  subscription := subscription s; event_sink := events; error_sink := errors; active_callbacks := active_callbacks s;
  accepting_callbacks := accepting; decode_failures := decode_failures s; sink_failures := sink_failures s;
  subscription_errors := subscription_errors s; process_cache := process_cache s |}.
Definition set_subscription (h : option Z) (accepting : bool) (s : Impl) : Impl := {|
  subscription := h; event_sink := event_sink s; error_sink := error_sink s; active_callbacks := active_callbacks s;
  accepting_callbacks := accepting; decode_failures := decode_failures s; sink_failures := sink_failures s;
  subscription_errors := subscription_errors s; process_cache := process_cache s |}.
(** [start] up to the call of [EvtSubscribe] *)
Definition start_begin (events errors : option nat) (s : Impl) : string + Impl :=
  match events with
  | None => inl "The Sysmon collector requires an event sink."
  | Some _ => if bool_decide (subscription s <> None) || accepting_callbacks s
              then inl "The Sysmon collector is already running."
              else inr (set_sinks events errors true s)
  end.
(** after a failure, and after a success *)
Definition start_failed (s : Impl) : Impl := set_sinks None None false s.
Definition start_done (h : Z) (s : Impl) : Impl := set_subscription (Some h) (accepting_callbacks s) s.
(** [stop] up to the call of [EvtClose], with the handle to close *)
Definition stop_begin (s : Impl) : option Z * Impl := (subscription s, set_subscription None false s).
(** the condition of the wait *)
Definition callbacks_finished (s : Impl) : bool := active_callbacks s =? 0.
Definition stop_done (s : Impl) : Impl := set_sinks None None (accepting_callbacks s) s.
Definition running (s : Impl) : bool := bool_decide (subscription s <> None) && accepting_callbacks s.
Definition status (s : Impl) : CollectorStatus := {|
  SourceGaps.running := running s; SourceGaps.continuity_fault := negb (subscription_errors s =? 0);
  SourceGaps.statistics_available := false; SourceGaps.decode_failures := decode_failures s;
  SourceGaps.sink_failures := sink_failures s; SourceGaps.subscription_errors := subscription_errors s;
  SourceGaps.events_lost := None; SourceGaps.realtime_buffers_lost := None; SourceGaps.log_buffers_lost := None;
  SourceGaps.statistics_error := "Event Log does not expose an exact subscription loss count; bookmarks and reconciliation pending" |}.

(** ** Callbacks *)
Section Collector.
Context (Event : Type) (Parse : string -> string + list Element).
(** the system's text of an error *)
Context (FormatMessageA : Z -> option string).
(** the last error of the sizing call, if it failed, and the bytes it reports;
    the buffer, or the last error *)
Context (EvtRender_size : Event -> option Z * Z) (EvtRender_fill : Event -> Z -> Z + list Z).
(** [WideCharToMultiByte] without and with a buffer; a count that is not the
    expected one leaves the last error *)
Context (utf8_size : list Z -> Z + Z) (utf8_fill : list Z -> Z -> Z + string).
Definition win32_error_message (error : Z) : string :=
  strip_line_ends (match FormatMessageA error with Some m => m | None => "Win32 error " +:+ to_string error end).
Definition utf16_to_utf8 (text : list Z) : string + string :=
  let failed e := "Could not convert Sysmon event XML from UTF-16 to UTF-8: " +:+ win32_error_message e in
  match text with
  | [] => inr ""
  | _ => if 2147483647 <? zlen text then inl "Windows Event Log returned an XML document that is too large."
         else match utf8_size text with
              | inl e => inl (failed e)
              | inr n => match utf8_fill text n with inl e => inl (failed e) | inr s => inr s end
              end
  end.
Definition kErrorInsufficientBuffer : Z := 122.
Definition render_event_xml (event : Event) : string + string :=
  let '(error, bytes_required) := EvtRender_size event in
  let refused := match error with Some e => if e =? kErrorInsufficientBuffer then None else Some e | None => None end in
  match refused with
  | Some e => inl ("EvtRender could not size Sysmon XML: " +:+ win32_error_message e)
  | None =>
      if bytes_required <? 2 then inl "EvtRender reported an empty Sysmon event."
      else match EvtRender_fill event bytes_required with
           | inl e => inl ("EvtRender could not render Sysmon XML: " +:+ win32_error_message e)
           | inr buffer => utf16_to_utf8 (strip_zeros buffer)
           end
  end.
(** the decoder the event goes to, and the cache after it *)
Definition decode_event (xml : string) (cache : ProcessImageCache) : (string + RawEvent) * ProcessImageCache :=
  let id := sniff_event_id xml in
  if (id =? 1) || (id =? 5) then
    match decode_process_xml Parse xml with
    | inr e => (inr (ProcessEvent e), if pe_terminated e then cache else remember e cache)
    | inl error => (inl error, cache)
    end
  else
    match decode_telemetry_xml Parse xml with
    | inr raw => (inr (with_process (fun p => (enrich p cache).2) raw), cache)
    | inl error => (inl error, cache)
    end.
(** [deliver] up to the decoded event, or the error it reports *)
Definition observe (event : Event) (s : Impl) : (string + RawEvent) * Impl :=
  match render_event_xml event with
  | inl error => (inl error, s)
  | inr xml => let '(r, cache) := decode_event xml (process_cache s) in (r, with_cache cache s)
  end.
(** what the sink did: an exception may carry a message *)
Inductive SinkReturn := returned | threw (what : option string).
(** the rest of [deliver]: the state, the event handed to a sink, the error reported *)
Definition publish (r : string + RawEvent) (sink : SinkReturn) (s : Impl) : Impl * option (nat * RawEvent) * option string :=
  match r with
  | inl error => (count_failures true false false s, None, Some error)
  | inr raw =>
      match event_sink s with
      | None => (s, None, None)
      | Some n =>
          match sink with
          | returned => (s, Some (n, raw), None)
          | threw (Some what) => (count_failures false true false s, Some (n, raw), Some ("Event sink failed: " +:+ what))
          | threw None => (count_failures false true false s, Some (n, raw), Some "Event sink failed with an unknown exception.")
          end
      end
  end.
(** the action of a callback *)
Inductive Notification := deliver_action (event : Event) | error_action (error : Z) | other_action.
Definition subscription_error (error : Z) (s : Impl) : Impl * string :=
  (count_failures false false true s, "Subscription reported missing or unavailable events: " +:+ win32_error_message error).
Definition report_error (s : Impl) (message : string) : list (nat * string) :=
  match error_sink s with Some n => [(n, message)] | None => [] end.

(** ** Runs *)
(** where a callback that was accepted has got to *)
Inductive Phase := accepted (n : Notification) | decoded (event : Event) (r : string + RawEvent) | finishing.
(** where the owner has got to *)
Inductive Control := idle | subscribing | opened (h : Z) | closing | waiting.
(** how a delivered event ended *)
Inductive Outcome := handed (sink : nat) (raw : RawEvent) (sink_return : SinkReturn) | not_decoded (error : string) | no_sink (raw : RawEvent).
Record World := {
  impl : Impl; callbacks : list Phase; control : Control;
  taken : list Event;                       (* delivered by a callback that was accepted *)
  outcomes : list (Event * Outcome);        (* in the order they ended *)
  notices : list Z;                         (* subscription errors that were handled *)
  reported_errors : list (nat * string)
}.
Definition new_world : World := {|
  impl := new_collector; callbacks := []; control := idle; taken := []; outcomes := []; notices := []; reported_errors := [] |}.
Definition outcome_of (r : string + RawEvent) (sink : SinkReturn) (handed_to : option (nat * RawEvent)) : Outcome :=
  match r, handed_to with
  | inl error, _ => not_decoded error
  | inr _, Some (n, raw) => handed n raw sink
  | inr raw, None => no_sink raw
  end.
Definition delivered (n : Notification) : list Event := match n with deliver_action e => [e] | _ => [] end.
Definition control_step (s : Impl) (l : list Phase) (c : Control) (w : World) : World := {|
  impl := s; callbacks := l; control := c; taken := taken w; outcomes := outcomes w; notices := notices w;
  reported_errors := reported_errors w |}.
(** Each callback runs on a thread of its own, and thread numbers have 32 bits.
    A subscription that failed makes no callbacks. *)
Inductive Step : World -> World -> Prop :=
| step_refused w : begin_callback (impl w) = None -> Step w w
| step_accepted w n s : begin_callback (impl w) = Some s -> zlen (callbacks w) < u32_max ->
    Step w {| impl := s; callbacks := callbacks w ++ [accepted n]; control := control w; taken := taken w ++ delivered n;
              outcomes := outcomes w; notices := notices w; reported_errors := reported_errors w |}
| step_observe w l l' event r s : callbacks w = l ++ accepted (deliver_action event) :: l' -> observe event (impl w) = (r, s) ->
    Step w (control_step s (l ++ decoded event r :: l') (control w) w)
| step_publish w l l' event r sink s h e : callbacks w = l ++ decoded event r :: l' -> publish r sink (impl w) = (s, h, e) ->
    Step w {| impl := s; callbacks := l ++ finishing :: l'; control := control w; taken := taken w;
              outcomes := outcomes w ++ [(event, outcome_of r sink h)]; notices := notices w;
              reported_errors := reported_errors w ++ (match e with Some m => report_error s m | None => [] end) |}
| step_notice w l l' error s m : callbacks w = l ++ accepted (error_action error) :: l' -> subscription_error error (impl w) = (s, m) ->
    Step w {| impl := s; callbacks := l ++ finishing :: l'; control := control w; taken := taken w; outcomes := outcomes w;
              notices := notices w ++ [error]; reported_errors := reported_errors w ++ report_error s m |}
| step_other w l l' : callbacks w = l ++ accepted other_action :: l' ->
    Step w (control_step (impl w) (l ++ finishing :: l') (control w) w)
| step_finish w l l' : callbacks w = l ++ finishing :: l' ->
    Step w (control_step (finish_callback (impl w)) (l ++ l') (control w) w)
| step_start_refused w events errors e : control w = idle -> start_begin events errors (impl w) = inl e -> Step w w
| step_start w events errors s : control w = idle -> start_begin events errors (impl w) = inr s ->
    Step w (control_step s (callbacks w) subscribing w)
| step_subscribe_failed w : control w = subscribing -> callbacks w = [] ->
    Step w (control_step (start_failed (impl w)) (callbacks w) idle w)
| step_subscribed w h : control w = subscribing -> Step w (control_step (impl w) (callbacks w) (opened h) w)
| step_start_done w h : control w = opened h -> Step w (control_step (start_done h (impl w)) (callbacks w) idle w)
| step_stop w : control w = idle -> Step w (control_step (stop_begin (impl w)).2 (callbacks w) closing w)
| step_closed w : control w = closing -> Step w (control_step (impl w) (callbacks w) waiting w)
| step_stop_done w : control w = waiting -> callbacks_finished (impl w) = true ->
    Step w (control_step (stop_done (impl w)) (callbacks w) idle w).
Definition Run : World -> World -> Prop := rtc Step.

(** the same steps as a function of a schedule *)
Inductive Action :=
| arrives (n : Notification) | continues (callback : nat) (sink : SinkReturn)
| calls_start (events errors : option nat) | subscribes (h : option Z) | starts (h : Z)
| calls_stop | closes | stops.
Definition continue_ (i : nat) (sink : SinkReturn) (p : Phase) (w : World) : World :=
  match p with
  | accepted (deliver_action event) =>
      let '(r, s) := observe event (impl w) in control_step s (<[i := decoded event r]> (callbacks w)) (control w) w
  | accepted (error_action error) =>
      let '(s, m) := subscription_error error (impl w) in
      {| impl := s; callbacks := <[i := finishing]> (callbacks w); control := control w; taken := taken w; outcomes := outcomes w;
         notices := notices w ++ [error]; reported_errors := reported_errors w ++ report_error s m |}
  | accepted other_action => control_step (impl w) (<[i := finishing]> (callbacks w)) (control w) w
  | decoded event r =>
      let '(s, h, e) := publish r sink (impl w) in
      {| impl := s; callbacks := <[i := finishing]> (callbacks w); control := control w; taken := taken w;
         outcomes := outcomes w ++ [(event, outcome_of r sink h)]; notices := notices w;
         reported_errors := reported_errors w ++ (match e with Some m => report_error s m | None => [] end) |}
  | finishing => control_step (finish_callback (impl w)) (delete i (callbacks w)) (control w) w
  end.
Definition act (a : Action) (w : World) : option World :=
  match a, control w with
  | arrives n, _ =>
      match begin_callback (impl w) with
      | None => Some w
      | Some s =>
          if zlen (callbacks w) <? u32_max
          then Some {| impl := s; callbacks := callbacks w ++ [accepted n]; control := control w; taken := taken w ++ delivered n;
                       outcomes := outcomes w; notices := notices w; reported_errors := reported_errors w |}
          else None
      end
  | continues i sink, _ => (fun p => continue_ i sink p w) <$> callbacks w !! i
  | calls_start events errors, idle =>
      match start_begin events errors (impl w) with inl _ => Some w | inr s => Some (control_step s (callbacks w) subscribing w) end
  | subscribes (Some h), subscribing => Some (control_step (impl w) (callbacks w) (opened h) w)
  | subscribes None, subscribing =>
      match callbacks w with [] => Some (control_step (start_failed (impl w)) (callbacks w) idle w) | _ => None end
  | starts h, opened h' => if h =? h' then Some (control_step (start_done h (impl w)) (callbacks w) idle w) else None
  | calls_stop, idle => Some (control_step (stop_begin (impl w)).2 (callbacks w) closing w)
  | closes, closing => Some (control_step (impl w) (callbacks w) waiting w)
  | stops, waiting => if callbacks_finished (impl w) then Some (control_step (stop_done (impl w)) (callbacks w) idle w) else None
  | _, _ => None
  end.
Fixpoint acts (l : list Action) (w : World) : option World :=
  match l with [] => Some w | a :: l => w' ← act a w; acts l w' end.
End Collector.
Arguments decoded {_}.
Arguments accepted {_}.
Arguments finishing {_}.
