(* ===== verification/SysmonCollectorFacts.v ===== *)
(** * What the Sysmon collector promises

    For every interleaving of the callbacks with [start] and [stop]: the delivered
    events are accounted for, a callback never finds its sink taken away, nothing is
    in flight once [stop] has returned, and what reaches a sink is what the decoder
    read, with at most the evidence of an earlier process creation attached. *)

From S2P Require Import Prelude Telemetry Json SourceGaps ImageCache SysmonDecoder SysmonCollector.

Section CollectorFacts.
Context (Event : Type) (Parse : string -> string + list Element) (FormatMessageA : Z -> option string).
Context (EvtRender_size : Event -> option Z * Z) (EvtRender_fill : Event -> Z -> Z + list Z).
Context (utf8_size : list Z -> Z + Z) (utf8_fill : list Z -> Z -> Z + string).
Abbreviation render := (render_event_xml Event FormatMessageA EvtRender_size EvtRender_fill utf8_size utf8_fill).
Abbreviation observe := (observe Event Parse FormatMessageA EvtRender_size EvtRender_fill utf8_size utf8_fill).
Abbreviation Step := (Step Event Parse FormatMessageA EvtRender_size EvtRender_fill utf8_size utf8_fill).
Abbreviation Run := (Run Event Parse FormatMessageA EvtRender_size EvtRender_fill utf8_size utf8_fill).
Abbreviation World := (World Event).
Abbreviation Phase := (Phase Event).

(** ** The state of the owner *)
Definition owner_ok (c : Control) (s : Impl) (l : list Phase) : Prop :=
  match c with
  | idle => accepting_callbacks s = false /\ subscription s = None /\ l = [] \/
            accepting_callbacks s = true /\ is_Some (event_sink s)
  | subscribing | opened _ => accepting_callbacks s = true /\ is_Some (event_sink s) /\ subscription s = None
  | closing | waiting => accepting_callbacks s = false /\ subscription s = None /\ (l = [] \/ is_Some (event_sink s))
  end.
Definition in_flight (p : Phase) : list Event :=
  match p with accepted (deliver_action _ e) => [e] | decoded e _ => [e] | _ => [] end.
Definition is_not_decoded (o : Outcome) : bool := match o with not_decoded _ => true | _ => false end.
Definition is_thrown (o : Outcome) : bool := match o with handed _ _ (threw _) => true | _ => false end.
Definition count_of (f : Outcome -> bool) (l : list (Event * Outcome)) : Z := zlen (filter (fun p => f p.2 = true) l).
Record accounted (w : World) : Prop := {
  acc_active : active_callbacks (impl _ w) = zlen (callbacks _ w) /\ zlen (callbacks _ w) <= u32_max;
  acc_owner : owner_ok (control _ w) (impl _ w) (callbacks _ w);
  acc_taken : Permutation (taken _ w) ((outcomes _ w).*1 ++ concat (in_flight <$> callbacks _ w));
  acc_decode : decode_failures (impl _ w) = u64 (count_of is_not_decoded (outcomes _ w));
  acc_sink : sink_failures (impl _ w) = u64 (count_of is_thrown (outcomes _ w));
  acc_notices : subscription_errors (impl _ w) = u64 (zlen (notices _ w));
  acc_handed : forall event raw, (event, no_sink raw) ∉ outcomes _ w
}.
Lemma u64_succ z : u64 (u64 z + 1) = u64 (z + 1).
Proof. unfold u64. by rewrite Zplus_mod_idemp_l. Qed.
Lemma count_of_snoc f l p : count_of f (l ++ [p]) = count_of f l + (if f p.2 then 1 else 0).
Proof.
  unfold count_of. rewrite filter_app, zlen_app. f_equal. rewrite filter_cons. destruct (f p.2) eqn:E.
  - by rewrite decide_True.
  - by rewrite decide_False.
Qed.
Lemma flight_change l p q l' : in_flight p = in_flight q ->
  concat (in_flight <$> l ++ p :: l') = concat (in_flight <$> l ++ q :: l').
Proof. intros H. by rewrite !fmap_app, !fmap_cons, H. Qed.
Lemma flight_remove l p l' : Permutation (concat (in_flight <$> l ++ p :: l')) (in_flight p ++ concat (in_flight <$> l ++ l')).
Proof. rewrite !fmap_app, fmap_cons, !concat_app. cbn. rewrite !app_assoc. by rewrite (Permutation_app_comm _ (in_flight p)). Qed.
Lemma zlen_swap {A} (l : list A) p q l' : zlen (l ++ p :: l') = zlen (l ++ q :: l').
Proof. by rewrite !zlen_app, !zlen_cons. Qed.
(** a callback that goes on keeps the owner's state *)
Lemma owner_same c s s' l l' : owner_ok c s l -> accepting_callbacks s' = accepting_callbacks s -> subscription s' = subscription s ->
  event_sink s' = event_sink s -> (l = [] -> l' = []) -> owner_ok c s' l'.
Proof. intros H Ha Hs He Hl. destruct c; cbn in *; rewrite ?Ha, ?Hs, ?He; naive_solver. Qed.
Lemma owner_sink c s l : owner_ok c s l -> l <> [] -> is_Some (event_sink s).
Proof. destruct c; cbn; naive_solver. Qed.
Lemma observe_keeps event s r s' : observe event s = (r, s') -> exists c, s' = with_cache c s.
Proof.
  unfold SysmonCollector.observe. destruct (render event) as [e|xml]; [intros [= _ <-]; exists (process_cache s); by destruct s|].
  destruct (decode_event Parse xml _) as [r' c]. intros [= _ <-]. by exists c.
Qed.
Lemma app_cons_not_nil' {A} (l l' : list A) x : l ++ x :: l' <> [].
Proof. by destruct l. Qed.

(** the steps of one callback *)
Lemma accounted_swap w l l' p q s ns re : accounted w -> callbacks _ w = l ++ p :: l' -> in_flight p = in_flight q ->
  active_callbacks s = active_callbacks (impl _ w) -> accepting_callbacks s = accepting_callbacks (impl _ w) ->
  subscription s = subscription (impl _ w) -> event_sink s = event_sink (impl _ w) ->
  decode_failures s = decode_failures (impl _ w) -> sink_failures s = sink_failures (impl _ w) ->
  subscription_errors s = u64 (zlen ns) ->
  accounted {| impl := s; callbacks := l ++ q :: l'; control := control _ w; taken := taken _ w; outcomes := outcomes _ w;
               notices := ns; reported_errors := re |}.
Proof.
  intros [[Ha Hn] Ho Ht Hd Hs Hm Hh] Hl Hf K1 K2 K3 K4 K5 K6 K7. rewrite Hl in *.
  constructor; cbn; rewrite ?K1, ?K5, ?K6, ?K7, ?(zlen_swap _ q p); try done.
  - eapply owner_same; [exact Ho|done..|]. by intros ?%app_cons_not_nil'.
  - by rewrite Ht, (flight_change _ _ _ _ Hf).
Qed.
Lemma accounted_accepted w n s : accounted w -> begin_callback (impl _ w) = Some s -> zlen (callbacks _ w) < u32_max ->
  accounted {| impl := s; callbacks := callbacks _ w ++ [accepted n]; control := control _ w; taken := taken _ w ++ delivered _ n;
               outcomes := outcomes _ w; notices := notices _ w; reported_errors := reported_errors _ w |}.
Proof.
  intros [[Ha Hn] Ho Ht Hd Hs Hm Hh] Hb Hlt. unfold begin_callback in Hb.
  destruct (accepting_callbacks (impl _ w)) eqn:Ea; [|done]. injection Hb as <-. constructor; cbn; try done.
  - rewrite Ha, zlen_app. pose proof (zlen_nonneg (callbacks _ w)). change (zlen [accepted n]) with 1.
    rewrite u64_small by (unfold u32_max, u64_max in *; lia). lia.
  - destruct (control _ w); cbn in *; rewrite ?Ea in *; naive_solver.
  - rewrite fmap_app, concat_app, Ht. cbn. rewrite app_nil_r, <- app_assoc. by destruct n.
Qed.
Lemma accounted_published w l l' event r sink s h e re : accounted w -> callbacks _ w = l ++ decoded event r :: l' ->
  publish r sink (impl _ w) = (s, h, e) ->
  accounted {| impl := s; callbacks := l ++ finishing :: l'; control := control _ w; taken := taken _ w;
               outcomes := outcomes _ w ++ [(event, outcome_of r sink h)]; notices := notices _ w; reported_errors := re |}.
Proof.
  intros [[Ha Hn] Ho Ht Hd Hs Hm Hh] Hl Hp.
  rewrite Hl in *. pose proof (owner_sink _ _ _ Ho (app_cons_not_nil' _ _ _)) as [n En].
  assert (Hk : active_callbacks s = active_callbacks (impl _ w) /\ accepting_callbacks s = accepting_callbacks (impl _ w) /\
    subscription s = subscription (impl _ w) /\ event_sink s = event_sink (impl _ w) /\
    subscription_errors s = subscription_errors (impl _ w) /\
    decode_failures s = u64 (count_of is_not_decoded (outcomes _ w ++ [(event, outcome_of r sink h)])) /\
    sink_failures s = u64 (count_of is_thrown (outcomes _ w ++ [(event, outcome_of r sink h)])) /\
    forall raw, outcome_of r sink h <> no_sink raw).
  { rewrite !count_of_snoc. unfold publish in Hp. rewrite En in Hp.
    destruct r as [er|raw]; [|destruct sink as [|[what|]]]; injection Hp as <- <- <-; cbn;
      rewrite ?Hd, ?Hs, ?u64_succ, ?Z.add_0_r; split_and!; done. }
  destruct Hk as (K1 & K2 & K3 & K4 & K5 & K6 & K7 & K8). constructor; cbn; rewrite ?K5; try done.
  - rewrite K1. by rewrite (zlen_swap _ _ (decoded event r)).
  - eapply owner_same; [exact Ho|done..|]. by intros ?%app_cons_not_nil'.
  - rewrite Ht, !flight_remove, (fmap_app fst). cbn. by rewrite <- app_assoc.
  - intros ev raw. rewrite elem_of_app, list_elem_of_singleton. intros [H|H]; [by eapply Hh|]. injection H as _ H. by eapply K8.
Qed.
Lemma accounted_finished w l l' : accounted w -> callbacks _ w = l ++ finishing :: l' ->
  accounted (control_step _ (finish_callback (impl _ w)) (l ++ l') (control _ w) w).
Proof.
  intros [[Ha Hn] Ho Ht Hd Hs Hm Hh] Hl. rewrite Hl in *. constructor; cbn; try done.
  - rewrite Ha. rewrite !zlen_app, zlen_cons in *. pose proof (zlen_nonneg l). pose proof (zlen_nonneg l').
    rewrite u64_small by (unfold u32_max, u64_max in *; lia). lia.
  - eapply owner_same; [exact Ho|done..|]. by intros ?%app_cons_not_nil'.
  - by rewrite Ht, flight_remove.
Qed.
(** the steps of the owner *)
Lemma accounted_control w s c : accounted w -> owner_ok c s (callbacks _ w) ->
  active_callbacks s = active_callbacks (impl _ w) -> decode_failures s = decode_failures (impl _ w) ->
  sink_failures s = sink_failures (impl _ w) -> subscription_errors s = subscription_errors (impl _ w) ->
  accounted (control_step _ s (callbacks _ w) c w).
Proof. intros [[Ha Hn] Ho Ht Hd Hs Hm Hh] Ho' K1 K2 K3 K4. constructor; cbn; rewrite ?K1, ?K2, ?K3, ?K4; done. Qed.

Lemma accounted_step w w' : accounted w -> Step w w' -> accounted w'.
Proof.
  intros Hw St. pose proof (acc_owner _ Hw) as Ho. destruct St as [w|w n s Hb Hlt|w l l' event r s Hl Hob|w l l' event r sink s h e Hl Hp
    |w l l' error s m Hl Hp|w l l' Hl|w l l' Hl|w ev er e Hc Hb|w ev er s Hc Hb|w Hc Hl|w h Hc|w h Hc|w Hc|w Hc|w Hc Hf];
    try rewrite Hc in Ho.
  - done.
  - by apply accounted_accepted.
  - apply observe_keeps in Hob as [c ->]. eapply accounted_swap; [done|exact Hl|done..|]. by rewrite <- (acc_notices _ Hw).
  - by eapply accounted_published.
  - injection Hp as <- <-. eapply accounted_swap; [done|exact Hl|done..|]. cbn. rewrite (acc_notices _ Hw), zlen_app. apply u64_succ.
  - eapply accounted_swap; [done|exact Hl|done..|]. apply (acc_notices _ Hw).
  - by apply accounted_finished.
  - done.
  - unfold start_begin in Hb. destruct ev as [n|]; [|done]. destruct (_ || _) eqn:E; [done|]. injection Hb as <-.
    apply orb_false_iff in E as [E%bool_decide_eq_false _]. apply accounted_control; try done. cbn. split_and!; [done|eauto|].
    by destruct (subscription (impl _ w)); [destruct E|].
  - apply accounted_control; try done. left. split_and!; [done| |done]. apply Ho.
  - by apply accounted_control.
  - apply accounted_control; try done. right. split; [apply Ho|]. apply Ho.
  - apply accounted_control; try done. cbn in *. naive_solver.
  - by apply accounted_control.
  - unfold callbacks_finished in Hf. pose proof (acc_active _ Hw) as [Ha _].
    assert (E : callbacks _ w = []) by (apply nil_length_inv; unfold zlen in *; lia).
    apply accounted_control; try done. cbn in Ho |- *. left. naive_solver.
Qed.
Lemma accounted_new : accounted (new_world _).
Proof.
  constructor; try done; [by left|]. cbn. intros event raw. apply not_elem_of_nil.
Qed.
Lemma accounted_run w : Run (new_world _) w -> accounted w.
Proof.
  intros H. pose proof accounted_new as Ha. revert Ha. induction H as [w|w1 w2 w3 St _ IH]; [done|]. intros Ha. apply IH. by eapply accounted_step.
Qed.

(** C23: Every event the Sysmon channel delivers is accounted for, under every interleaving of callbacks with
    [start] and [stop].  The events of the accepted callbacks are exactly those that ended and those in flight;
    each that ended was handed to an installed sink or counted as undecodable, never dropped because the sinks
    had been cleared; the failure counters are the exact numbers of undecodable events, of sinks that threw and of
    gap notices, so a gap raises the continuity fault; and once [stop] has returned nothing is in flight. *)
Theorem sysmon_collector_accounts (w : World) : Run (new_world _) w ->
  let s := impl _ w in
  Permutation (taken _ w) ((outcomes _ w).*1 ++ concat (in_flight <$> callbacks _ w)) /\
  (forall event o, (event, o) ∈ outcomes _ w -> (exists sink raw ret, o = handed sink raw ret) \/ exists error, o = not_decoded error) /\
  (callbacks _ w <> [] -> is_Some (event_sink s)) /\
  SourceGaps.decode_failures (status s) = u64 (count_of is_not_decoded (outcomes _ w)) /\
  SourceGaps.sink_failures (status s) = u64 (count_of is_thrown (outcomes _ w)) /\
  SourceGaps.subscription_errors (status s) = u64 (zlen (notices _ w)) /\
  (0 < zlen (notices _ w) <= u64_max -> SourceGaps.continuity_fault (status s) = true) /\
  (control _ w = idle -> accepting_callbacks s = false -> running s = false /\ callbacks _ w = [] /\
     Permutation (taken _ w) (outcomes _ w).*1).
Proof.
  intros Hr s. destruct (accounted_run w Hr) as [[Ha Hn] Ho Ht Hd Hs Hm Hh]. subst s. split_and!; try done.
  - intros event o Ho'. destruct o as [sink raw ret|error|raw]; [left; eauto|right; eauto|]. by destruct (Hh event raw).
  - by intros; eapply owner_sink.
  - intros Hpos. cbn. rewrite Hm, u64_small by (unfold u64_max in *; lia). apply negb_true_iff, Z.eqb_neq. lia.
  - intros Hc Hacc. rewrite Hc in Ho. cbn in Ho. rewrite Hacc in Ho. destruct Ho as [(_ & Hsub & Hl)|[? _]]; [|done].
    split_and!; [|done|by rewrite Hl, app_nil_r in Ht]. unfold running. by rewrite Hacc, andb_false_r.
Qed.

(** ** What reaches a sink *)
Definition process_of (raw : RawEvent) : option RawProcessContext :=
  match raw with
  | ProcessEvent _ => None
  | NetworkEvent e => Some (ne_process e) | FileEvent e => Some (fe_process e) | RegistryEvent e => Some (re_process e)
  | ImageLoadEvent e => Some (ie_process e) | SysmonExtendedEvent e => Some (xe_process e)
  end.
Definition with_cached (i : CachedProcessContext) (p : RawProcessContext) : RawProcessContext := {|
  pc_pid := pc_pid p; pc_start_time_ticks := pc_start_time_ticks p; pc_executable := pc_executable p;
  pc_process_name := pc_process_name p; pc_user_name := pc_user_name p; pc_user_sid := pc_user_sid p;
  pc_process_guid := pc_process_guid p; pc_cached_context := Some i |}.
(** a process creation the decoder read from one of these events *)
Definition creation_in (l : list Event) (e : RawProcessEvent) : Prop :=
  exists event xml, event ∈ l /\ render event = inr xml /\ decode_process_xml Parse xml = inr e /\ pe_terminated e = false.
(** the evidence attached to an event whose own image is unresolved *)
Definition evidence_for (l : list Event) (raw : RawEvent) (i : CachedProcessContext) : Prop :=
  exists e guid p, creation_in l e /\ pe_process_guid e = Some guid /\ i = identity_of e guid /\ resolved (cc_executable i) = true /\
    process_of raw = Some p /\ pc_process_guid p = Some guid /\ cc_pid i = pc_pid p /\ resolved (pc_executable p) = false.
Definition truthful (l : list Event) (event : Event) (raw : RawEvent) : Prop :=
  exists xml, render event = inr xml /\
    ((exists e, decode_process_xml Parse xml = inr e /\ raw = ProcessEvent e) \/
     exists raw0, decode_telemetry_xml Parse xml = inr raw0 /\
       (raw = raw0 \/ exists i, evidence_for l raw0 i /\ raw = with_process (with_cached i) raw0)).
Record honest (w : World) : Prop := {
  hon_cache : exists es, process_cache (impl _ w) = remember_all es (new_cache 4096) /\ Forall (creation_in (taken _ w)) es;
  hon_flight : forall event, event ∈ concat (in_flight <$> callbacks _ w) -> event ∈ taken _ w;
  hon_decoded : forall event raw, decoded event (inr raw) ∈ callbacks _ w -> truthful (taken _ w) event raw;
  hon_handed : forall event sink raw ret, (event, handed sink raw ret) ∈ outcomes _ w -> truthful (taken _ w) event raw
}.
Lemma with_process_same f raw : (forall p, process_of raw = Some p -> f p = p) -> with_process f raw = raw.
Proof. destruct raw as [[]|[]|[]|[]|[]|[]]; cbn; [done|..]; intros H; by rewrite (H _ eq_refl). Qed.
Lemma with_process_ext f g raw : (forall p, process_of raw = Some p -> f p = g p) -> with_process f raw = with_process g raw.
Proof. destruct raw as [[]|[]|[]|[]|[]|[]]; cbn; [done|..]; intros H; by rewrite (H _ eq_refl). Qed.
Lemma latest_in g es i : latest g es = Some i -> exists e, e ∈ es /\ creation_guid e = Some g /\ i = identity_of e g.
Proof.
  induction es as [|e es IH] using rev_ind; [done|]. rewrite latest_snoc. case_bool_decide as E.
  - intros [= <-]. exists e. split_and!; [|done..]. apply elem_of_app. right. by apply list_elem_of_singleton.
  - intros H%IH. destruct H as (e' & He & H). exists e'. split; [|done]. apply elem_of_app. by left.
Qed.
Lemma creation_guid_own e g : creation_guid e = Some g -> pe_process_guid e = Some g.
Proof. unfold creation_guid. destruct (pe_terminated e), (pe_process_guid e) as [g'|]; try done. by destruct (str_empty g'). Qed.
Lemma enrich_evidence l es raw : Forall (creation_in l) es ->
  let r := with_process (fun p => (enrich p (remember_all es (new_cache 4096))).2) raw in
  r = raw \/ exists i, evidence_for l raw i /\ r = with_process (with_cached i) raw.
Proof.
  intros Hes. cbv zeta. set (c := remember_all es (new_cache 4096)).
  pose proof (remember_all_ok [] es _ (new_cache_ok 4096)) as [Hl _ _]. fold c in Hl.
  destruct (process_of raw) as [p|] eqn:Ep; [|left; apply with_process_same; congruence].
  destruct (enrich p c) as [[] p'] eqn:Ee; unfold enrich in Ee.
  2:{ left. apply with_process_same. intros q Hq. replace q with p by congruence. fold c.
      unfold enrich. destruct (pc_process_guid p) as [g|]; [|done]. destruct (resolved (pc_executable p) || _); [done|].
      destruct (find_locked g c) as [i|]; [|done]. by destruct (_ && _). }
  right. destruct (pc_process_guid p) as [g|] eqn:Eg; [|done]. destruct (resolved (pc_executable p) || str_empty g) eqn:Er; [done|].
  destruct (find_locked g c) as [i|] eqn:Ef; [|done]. destruct ((cc_pid i =? pc_pid p) && resolved (cc_executable i)) eqn:Ec; [|done].
  pose proof Ec as [Ei Ex]%andb_true_iff. exists i. split.
  - destruct (latest_in g es i (Hl g i Ef)) as (e & He & Hg & ->). exists e, g, p.
    split; [rewrite Forall_forall in Hes; by apply Hes|]. split; [by apply creation_guid_own|]. apply orb_false_iff in Er as [Er _].
    split_and!; try done. lia.
  - apply with_process_ext. intros q Hq. replace q with p by congruence. unfold enrich, with_cached. by rewrite Eg, Er, Ef, Ec.
Qed.
Lemma creation_in_mono l l' e : creation_in l e -> creation_in (l ++ l') e.
Proof. intros (ev & xml & H & ?). exists ev, xml. split; [apply elem_of_app; by left|done]. Qed.
Lemma truthful_mono l l' event raw : truthful l event raw -> truthful (l ++ l') event raw.
Proof.
  intros (xml & Hx & [H|(raw0 & Hr & [H|(i & (e & g & p & Hc & He) & H)])]); exists xml; (split; [done|]); [by left|right; exists raw0; by eauto|right; exists raw0].
  split; [done|]. right. exists i. split; [|done]. exists e, g, p. split; [by apply creation_in_mono|done].
Qed.
Lemma observe_honest l es event s r s' : Forall (creation_in l) es -> event ∈ l -> process_cache s = remember_all es (new_cache 4096) ->
  observe event s = (r, s') -> (forall raw, r = inr raw -> truthful l event raw) /\
  exists es', process_cache s' = remember_all es' (new_cache 4096) /\ Forall (creation_in l) es'.
Proof.
  intros Hes Hin Hc. unfold SysmonCollector.observe. destruct (render event) as [e|xml] eqn:Er; [intros [= <- <-]; split; [done|eauto]|].
  unfold decode_event. rewrite Hc. destruct (_ || _).
  - destruct (decode_process_xml Parse xml) as [e|e] eqn:Ed; intros [= <- <-]; (split; [|]); [done|eauto| |].
    + intros raw [= <-]. exists xml. split; [done|]. left. eauto.
    + destruct (pe_terminated e) eqn:Et; [eauto|]. exists (es ++ [e]). cbn. unfold remember_all. rewrite foldl_app. split; [done|].
      apply Forall_app. split; [done|]. apply Forall_singleton. by exists event, xml.
  - destruct (decode_telemetry_xml Parse xml) as [e|raw0] eqn:Ed; intros [= <- <-]; (split; [|eauto]); [done|].
    intros raw [= <-]. exists xml. split; [done|]. right. exists raw0. split; [done|]. by apply enrich_evidence.
Qed.
Lemma honest_control w s l c : honest w -> process_cache s = process_cache (impl _ w) ->
  (forall event, event ∈ concat (in_flight <$> l) -> event ∈ concat (in_flight <$> callbacks _ w)) ->
  (forall event raw, decoded event (inr raw) ∈ l -> decoded event (inr raw) ∈ callbacks _ w) ->
  honest (control_step _ s l c w).
Proof. intros [Hc Hf Hd Hh] Hs Hl Hr. constructor; cbn; [by rewrite Hs|auto..|done]. Qed.
(** a phase that ends leaves the others *)
Lemma phase_ends w l l' p q : callbacks _ w = l ++ p :: l' -> in_flight q = [] ->
  (forall event, event ∈ concat (in_flight <$> l ++ q :: l') -> event ∈ concat (in_flight <$> callbacks _ w)) /\
  forall event raw, decoded event (inr raw) ∈ l ++ q :: l' -> decoded event (inr raw) ∈ callbacks _ w.
Proof.
  intros -> Hq. split.
  - intros event. rewrite !flight_remove, Hq. cbn. intros H. apply elem_of_app. by right.
  - intros event raw. rewrite !elem_of_app, !elem_of_cons. intros [H|[<-|H]]; [by left|done|by right; right].
Qed.
Lemma honest_step w w' : honest w -> Step w w' -> honest w'.
Proof.
  intros Hw St. pose proof Hw as [(es & Hc & Hes) Hf Hd Hh]. destruct St as [w|w n s Hb Hlt|w l l' event r s Hl Hob|w l l' event r sink s h e Hl Hp
    |w l l' error s m Hl Hp|w l l' Hl|w l l' Hl|w ev er e Ho Hb|w ev er s Ho Hb|w Ho Hl|w h Ho|w h Ho|w Ho|w Ho|w Ho Hfin];
    try (by apply honest_control); try done.
  - unfold begin_callback in Hb. destruct (accepting_callbacks _); [|done]. injection Hb as <-. constructor; cbn.
    + exists es. split; [done|]. eapply Forall_impl; [exact Hes|]. intros e. apply creation_in_mono.
    + intros event. rewrite fmap_app, concat_app, !elem_of_app. cbn. rewrite app_nil_r. intros [H|H]; [left; auto|right].
      by destruct n.
    + intros event raw. rewrite elem_of_app, list_elem_of_singleton. intros [H|[=]]. by apply truthful_mono, Hd.
    + intros event sink raw ret H. by eapply truthful_mono, Hh.
  - rewrite Hl in *. assert (Hin : event ∈ taken _ w).
    { apply Hf. rewrite flight_remove. apply elem_of_app. left. by apply list_elem_of_singleton. }
    destruct (observe_honest _ _ _ _ _ _ Hes Hin Hc Hob) as [Hr Hc']. constructor; cbn; [done|..|done].
    + intros ev. rewrite <- (flight_change _ (accepted (deliver_action _ event))) by done. apply Hf.
    + intros ev raw. rewrite elem_of_app, elem_of_cons. intros [H|[[= -> <-]|H]]; [apply Hd|by apply Hr|apply Hd];
        rewrite elem_of_app, elem_of_cons; auto.
  - destruct (phase_ends w l l' _ finishing Hl eq_refl) as [H1 H2]. constructor; cbn; [|auto..|].
    + exists es. split; [|done]. rewrite <- Hc. unfold publish in Hp. destruct r; [by injection Hp as <- _ _|].
      destruct (event_sink _); [|by injection Hp as <- _ _]. destruct sink as [|[]]; by injection Hp as <- _ _.
    + intros ev sk raw ret. rewrite elem_of_app, list_elem_of_singleton. intros [H|H]; [by eapply Hh|].
      injection H as -> H. apply Hd. rewrite Hl, elem_of_app, elem_of_cons. right. left. f_equal.
      unfold publish in Hp. destruct r as [er|raw']; [done|]. destruct (event_sink _); [|by injection Hp as <- <- <-].
      destruct sink as [|[]]; injection Hp as <- <- <-; cbn in H; congruence.
  - injection Hp as <- <-. destruct (phase_ends w l l' _ finishing Hl eq_refl) as [H1 H2]. constructor; cbn; eauto.
  - destruct (phase_ends w l l' _ finishing Hl eq_refl) as [H1 H2]. by apply honest_control.
  - apply honest_control; [done..| |]; rewrite Hl.
    + intros ev H. rewrite flight_remove. by apply elem_of_app; right.
    + intros ev raw. rewrite !elem_of_app, elem_of_cons. naive_solver.
  - unfold start_begin in Hb. destruct ev; [|done]. destruct (_ || _); [done|]. injection Hb as <-. by apply honest_control.
Qed.
Lemma honest_run w : Run (new_world _) w -> honest w.
Proof.
  assert (H0 : honest (new_world _)).
  { constructor; cbn; [exists []; done|..]; intros *; rewrite ?elem_of_nil; done. }
  intros H. revert H0. induction H as [w|w1 w2 w3 St _ IH]; [done|]. intros Ha. apply IH. by eapply honest_step.
Qed.
(** C24: What the collector hands to its sink is what the event says.  Under every interleaving, an event that
    reaches the sink is exactly the decoder's reading of the XML the Event Log rendered for it; the only addition, on
    an event whose own image is unresolved, is separate evidence of one process creation that was itself decoded from
    a delivered event, with the same process GUID and pid and a resolved image. *)
Theorem sysmon_facts_truthful (w : World) (event : Event) (sink : nat) (raw : RawEvent) (ret : SinkReturn) :
  Run (new_world _) w -> (event, handed sink raw ret) ∈ outcomes _ w -> truthful (taken _ w) event raw.
Proof. intros Hr Ho. by eapply (hon_handed w (honest_run w Hr)). Qed.

(** ** Schedules *)
Abbreviation act := (act Event Parse FormatMessageA EvtRender_size EvtRender_fill utf8_size utf8_fill).
Abbreviation acts := (acts Event Parse FormatMessageA EvtRender_size EvtRender_fill utf8_size utf8_fill).
Lemma continue_step i sink p w w' : callbacks _ w !! i = Some p ->
  continue_ Event Parse FormatMessageA EvtRender_size EvtRender_fill utf8_size utf8_fill i sink p w = w' -> Step w w'.
Proof.
  intros Hi <-. pose proof (lookup_lt_Some _ _ _ Hi) as Hlt. pose proof (take_drop_middle _ _ _ Hi) as Hl. symmetry in Hl.
  destruct p as [[event|error|]|event r|]; cbn [continue_].
  - destruct (observe event (impl _ w)) as [r s] eqn:E. rewrite insert_take_drop by done. by eapply step_observe.
  - rewrite insert_take_drop by done. by eapply step_notice.
  - rewrite insert_take_drop by done. by eapply step_other.
  - destruct (publish r sink (impl _ w)) as [[s h] e] eqn:E. rewrite insert_take_drop by done. by eapply step_publish.
  - rewrite delete_take_drop. by eapply step_finish.
Qed.
Lemma action_step a w w' : act a w = Some w' -> Step w w'.
Proof.
  destruct a as [n|i sink|events errors|h|h| | |]; cbn [SysmonCollector.act].
  - destruct (begin_callback (impl _ w)) as [s|] eqn:E; [|intros [= <-]; by apply step_refused].
    destruct (Z.ltb_spec (zlen (callbacks _ w)) u32_max); [|done]. intros [= <-]. by apply step_accepted.
  - destruct (callbacks _ w !! i) as [p|] eqn:E; [|done]. intros [= H]. by eapply continue_step.
  - destruct (control _ w) eqn:Ec; try done. destruct (start_begin events errors (impl _ w)) as [e|s] eqn:E; intros [= <-].
    + by eapply step_start_refused.
    + by eapply step_start.
  - destruct h as [h|], (control _ w) eqn:Ec; try done; [intros [= <-]; by apply step_subscribed|].
    destruct (callbacks _ w) eqn:El; [|done]. intros [= <-]. rewrite <- El. by apply step_subscribe_failed.
  - destruct (control _ w) as [| |h'| |] eqn:Ec; try done. destruct (Z.eqb_spec h h') as [->|]; [|done]. intros [= <-]. by apply step_start_done.
  - destruct (control _ w) eqn:Ec; try done. intros [= <-]. by apply step_stop.
  - destruct (control _ w) eqn:Ec; try done. intros [= <-]. by apply step_closed.
  - destruct (control _ w) eqn:Ec; try done. destruct (callbacks_finished _) eqn:Ef; [|done]. intros [= <-]. by apply step_stop_done.
Qed.
Lemma acts_run l w w' : acts l w = Some w' -> Run w w'.
Proof.
  revert w. induction l as [|a l IH]; cbn; [intros w [= ->]; apply rtc_refl|]. intros w (w1 & H1 & H2)%bind_Some.
  eapply rtc_l; [by eapply action_step|]. by apply IH.
Qed.
End CollectorFacts.
