(* ===== verification/SysmonExample.v ===== *)
(** * A run of the Sysmon collector

    A process creation, a connection of that process whose image Sysmon did not
    resolve, and a text that is no XML, delivered on three threads while the owner
    stops the collector. *)

From S2P Require Import Prelude Telemetry Json Command SysmonDecoder SysmonFacts SourceGaps ImageCache SysmonCollector SysmonCollectorFacts.

Module SysmonExample.
Definition data (name text : string) : Element := Elem "Data" [("Name", name)] (Some text) [].
Definition leaf (name text : string) : Element := Elem name [] (Some text) [].
Definition system (id record : string) : Element := Elem "System" [] None
  [Elem "Provider" [("Name", sysmon_provider)] None []; leaf "EventID" id; leaf "EventRecordID" record;
   leaf "Channel" "Microsoft-Windows-Sysmon/Operational"].
Definition document (id record : string) (l : list Element) : list Element :=
  [Elem "Event" [] None [system id record; Elem "EventData" [] None l]].
Definition creation_data : list Element :=
  [data "UtcTime" "2024-01-02 03:04:05.678"; data "ProcessGuid" "{g}"; data "ProcessId" "7"; data "Image" "C:\a.exe"].
Definition connection_data : list Element :=
  [data "UtcTime" "2024-01-02 03:04:06.001"; data "ProcessGuid" "{g}"; data "ProcessId" "7"; data "Image" "<unknown process>";
   data "Initiated" "true"; data "Protocol" "tcp"; data "DestinationPort" "443"].
Definition Parse (xml : string) : string + list Element :=
  if String.eqb xml "<EventID>1</EventID>A" then inr (document "1" "10" creation_data)
  else if String.eqb xml "<EventID>3</EventID>A" then inr (document "3" "11" connection_data)
  else if String.eqb xml "<EventID>3</EventID>B" then inr (document "3" "11" (rev connection_data))
  else inl "XML_ERROR_PARSING".
Definition FormatMessageA (_ : Z) : option string := None.
Definition wide (s : string) : list Z := code <$> list_ascii_of_string s.
Definition narrow (l : list Z) : string := string_of_list_ascii ((fun z => ascii_of_nat (Z.to_nat z)) <$> l).
(** an event is its text; the Event Log ends it with a zero *)
Definition EvtRender_size (e : string) : option Z * Z := (Some kErrorInsufficientBuffer, 2 * (slen e + 1)).
Definition EvtRender_fill (e : string) (bytes : Z) : Z + list Z := inr (wide e ++ [0]).
Definition utf8_size (l : list Z) : Z + Z := inr (zlen l).
Definition utf8_fill (l : list Z) (n : Z) : Z + string := inr (narrow l).
Definition creation : string := "<EventID>1</EventID>A".
Definition connection : string := "<EventID>3</EventID>A".
Definition story : list (Action string) :=
  [calls_start _ (Some 4%nat) (Some 5%nat); subscribes _ (Some 9);
   arrives _ (deliver_action _ creation); starts _ 9;
   arrives _ (deliver_action _ connection); continues _ 0 returned;
   arrives _ (error_action _ 15007); arrives _ (deliver_action _ "junk");
   calls_stop _; arrives _ (deliver_action _ "late");
   continues _ 1 returned; continues _ 1 returned; closes _; continues _ 0 (threw (Some "full"));
   continues _ 2 returned; continues _ 3 returned; continues _ 3 returned;
   continues _ 3 returned; continues _ 2 returned; continues _ 1 returned; continues _ 0 returned; stops _].
Abbreviation run l := (acts string Parse FormatMessageA EvtRender_size EvtRender_fill utf8_size utf8_fill l (new_world string)).
Definition final : World string := match run story with Some w => w | None => new_world string end.
Lemma story_runs : run story = Some final.
Proof. vm_compute. reflexivity. Defined.
Example story_ends : SourceGaps.decode_failures (status (impl _ final)) = 1 /\ SourceGaps.sink_failures (status (impl _ final)) = 1 /\
  notices _ final = [15007] /\ (outcomes _ final).*1 = [connection; creation; "junk"].
Proof. vm_compute. done. Qed.
(** the connection, with the creation as separate evidence *)
Definition published : RawEvent :=
  match outcomes _ final with (_, handed _ raw _) :: _ => raw | _ => ProcessEvent (created 0 "" "") end.
Example published_evidence : (fun p => (pc_executable p, cc_executable <$> pc_cached_context p)) <$> process_of published =
  Some (Some "<unknown process>", Some (Some "C:\a.exe")).
Proof. vm_compute. reflexivity. Qed.
Lemma published_first : (connection, handed 4 published returned) ∈ outcomes _ final.
Proof. vm_compute. left. Defined.
Lemma data_reordered : rearranged (document "3" "11" connection_data) (document "3" "11" (rev connection_data)).
Proof. apply (rearranged_data [] [] [] None [system "3" "11"] [] [] None); [reflexivity..|apply Permutation_rev]. Defined.
End SysmonExample.
Import SysmonExample.

Lemma sysmon_collector_accounts_witness : control _ final = idle /\ accepting_callbacks (impl _ final) = false /\
  Permutation (taken _ final) (outcomes _ final).*1 /\ SourceGaps.continuity_fault (status (impl _ final)) = true.
Proof.
  destruct (sysmon_collector_accounts string Parse FormatMessageA EvtRender_size EvtRender_fill utf8_size utf8_fill final
    (acts_run _ _ _ _ _ _ _ _ _ _ story_runs)) as (_ & _ & _ & _ & _ & _ & Hgap & Hstop).
  assert (Hc : control _ final = idle) by (vm_compute; reflexivity).
  assert (Ha : accepting_callbacks (impl _ final) = false) by (vm_compute; reflexivity).
  split; [exact Hc|]. split; [exact Ha|]. split; [exact (proj2 (proj2 (Hstop Hc Ha)))|].
  apply Hgap. vm_compute. split; [reflexivity|discriminate].
Defined.
Lemma sysmon_facts_truthful_witness :
  truthful string Parse FormatMessageA EvtRender_size EvtRender_fill utf8_size utf8_fill (taken _ final) connection published.
Proof.
  exact (sysmon_facts_truthful string Parse FormatMessageA EvtRender_size EvtRender_fill utf8_size utf8_fill final connection 4
    published returned (acts_run _ _ _ _ _ _ _ _ _ _ story_runs) published_first).
Defined.
Lemma sysmon_order_irrelevant_witness : exists e,
  decode_telemetry_xml Parse "<EventID>3</EventID>A" = inr e /\ decode_telemetry_xml Parse "<EventID>3</EventID>B" = inr e.
Proof.
  eexists. split; [vm_compute; reflexivity|].
  apply (proj2 (sysmon_order_irrelevant Parse "<EventID>3</EventID>A" "<EventID>3</EventID>B" (document "3" "11" connection_data)
    (document "3" "11" (rev connection_data)) eq_refl eq_refl data_reordered eq_refl eq_refl)). vm_compute. reflexivity.
Defined.
