(* ===== verification/EventLog.v ===== *)
(** * The Windows event log source

    [collectors/windows_event_log.cpp]: one worker per channel pulls records from a
    strict subscription, hands each with the cursor behind it to the journal in one
    commit, and resumes after the last committed cursor; what it cannot resume from
    becomes a durable gap.  [run] is a loop with many exits; here it is a step
    relation whose states are the places where it calls the Event Log or the
    journal, so that a crash may come between any two of them.  The Event Log is a
    history of records of which the oldest may disappear; the decoder of event
    texts, the record factory and the text conversions are parameters. *)

From S2P Require Import Prelude Telemetry Ledger Json Command.

(** ** Native calls *)
Record NativeError := { ne_stage : string; ne_code : Z }.
(** what the Event Log answers when one object is rendered: the sizing call, its
    last error and the bytes it asks for; then the bytes and the characters written *)
Record Rendering := { r_sized : bool; r_error : Z; r_required : Z; r_fill : Z + Z * list Z }.
Definition bad_size (required bound : Z) : bool := (required =? 0) || (bound <? required) || negb (required mod 2 =? 0).
Fixpoint until_zero (l : list Z) : option (list Z) :=
  match l with [] => None | c :: l => if c =? 0 then Some [] else (fun r => c :: r) <$> until_zero l end.
Definition kErrorInsufficient : Z := 122.
Definition kErrorFileTooLarge : Z := 223.
Definition kErrorInvalidData : Z := 13.
Definition kErrorNoUnicode : Z := 1113.
Definition native {A} (stage : string) (code : Z) : NativeError + A := inl {| ne_stage := stage; ne_code := code |}.
(** the UTF-16 conversion fails or gives the text *)
Definition render (narrow : list Z -> option string) (o : Rendering) (bound : Z) : NativeError + string :=
  if r_sized o || negb (r_error o =? kErrorInsufficient) then native "EvtRender sizing" (r_error o)
  else if bad_size (r_required o) bound then native "EvtRender size bound" kErrorFileTooLarge
  else match r_fill o with
       | inl e => native "EvtRender" e
       | inr (required, buffer) =>
           if bad_size required (r_required o) then native "EvtRender invalid length" kErrorInvalidData
           else match until_zero (take (Z.to_nat (required / 2)) buffer) with
                | None => native "EvtRender unterminated" kErrorInvalidData
                | Some text => match narrow text with
                               | Some s => inr s
                               | None => native "EvtRender invalid UTF-16" kErrorNoUnicode
                               end
                end
       end.
Record ChannelLogInfo := { li_generation : string; li_oldest : Z; li_count : Z; li_newest : Z }.
(** the answers of the queries of one log *)
Definition channel_log_info (creation count oldest : Z) (newest : option Z) : ChannelLogInfo := {|
  li_generation := if creation =? 0 then "unknown" else to_string creation;
  li_oldest := oldest; li_count := count; li_newest := default 0 newest |}.

(** ** Cursors *)
Record BookmarkCursor := {
  bc_versioned : bool; bc_invalid : bool; bc_xml : string; bc_generation : string; bc_last : Z; bc_known : bool
}.
Definition no_cursor : BookmarkCursor := {|
  bc_versioned := false; bc_invalid := false; bc_xml := ""; bc_generation := ""; bc_last := 0; bc_known := false |}.
Definition invalid_cursor : BookmarkCursor := {|
  bc_versioned := false; bc_invalid := true; bc_xml := ""; bc_generation := ""; bc_last := 0; bc_known := false |}.
Definition cursor_format : string := "panopticon_winevt_cursor_v2".
Definition get_bool (j : json) : result bool :=
  match j with JBool b => Ok b | _ => Throw (json_exception "type must be boolean") end.
Definition read_cursor (j : json) : result BookmarkCursor :=
  _ ← throw_if (negb (is_object j)) (runtime_error "not a cursor");
  format ← value_string "format" j;
  _ ← throw_if (negb (String.eqb format cursor_format)) (runtime_error "not a cursor");
  xml ← at_ "bookmark_xml" j |> get_string;
  generation ← at_ "log_generation" j |> get_string;
  known ← at_ "last_record_id_known" j |> get_bool;
  last ← (if known : bool then
            text ← at_ "last_record_id" j |> get_string;
            of_option (from_chars_all u64_max text) (runtime_error "invalid record ID in Event Log cursor")
          else Ok 0);
  Ok {| bc_versioned := true; bc_invalid := false; bc_xml := xml; bc_generation := generation; bc_last := last; bc_known := known |}.
Definition decode_cursor (json_parse : string -> option json) (value : string) : BookmarkCursor :=
  if negb (starts_with "{" value) then {|
    bc_versioned := false; bc_invalid := false; bc_xml := value; bc_generation := ""; bc_last := 0; bc_known := false |}
  else match json_parse value with
       | None => invalid_cursor
       | Some j => match read_cursor j with Ok c => c | Throw _ => invalid_cursor end
       end.
Definition text_of (z : Z) : json := JStr (to_string z).
Definition cursor_json (bookmark : string) (log : ChannelLogInfo) (last_record_id : Z) (known : bool) : json := object [
  ("format", JStr cursor_format); ("bookmark_xml", JStr bookmark); ("log_generation", JStr (li_generation log));
  ("oldest_record_id", text_of (li_oldest log)); ("last_record_id", text_of last_record_id);
  ("last_record_id_known", JBool known)].

(** ** Workers *)
Inductive Counter :=
| records | gaps | refusals | delivered | unretained | degraded | source_failures
| generation_gaps | retention_gaps | stale_recoveries | cursor_migrations.
#[global] Instance Counter_eq_dec : EqDecision Counter.
Proof. solve_decision. Defined.
(** what [run] keeps over its iterations, with the health it shows; [w_notified]: the
    calls of [changed] *)
Record Worker := {
  w_channel : string; w_health : json; w_notified : Z; w_count : Counter -> Z;
  startup_gap_accepted : bool; force_reset_to_oldest : bool
}.
Definition new_worker (channel : string) : Worker := {|
  w_channel := channel;
  w_health := object [("channel", JStr channel); ("state", JStr "unavailable"); ("reason", JStr "not subscribed");
    ("durable_records", JStr "0"); ("durable_gaps", JStr "0"); ("commit_refusals", JStr "0"); ("checkpoint_revision", JStr "0");
    ("pending_durable_acceptance", JBool false); ("continuity", JStr "unverified"); ("audit_or_provider_policy_verified", JBool false);
    ("native_loss_count", JNull); ("log_generation_gaps", JStr "0"); ("log_retention_gaps", JStr "0");
    ("stale_bookmark_recoveries", JStr "0"); ("legacy_cursor_migrations", JStr "0"); ("last_lifecycle_gap_reason", JNull)];
  w_notified := 0; w_count := fun _ => 0; startup_gap_accepted := false; force_reset_to_oldest := false |}.
Definition note (l : list (string * json)) (w : Worker) : Worker := {|
  w_channel := w_channel w; w_health := foldl (fun h m => set_member m.1 m.2 h) (w_health w) l; w_notified := w_notified w;
  w_count := w_count w; startup_gap_accepted := startup_gap_accepted w; force_reset_to_oldest := force_reset_to_oldest w |}.
Definition notify (w : Worker) : Worker := {|
  w_channel := w_channel w; w_health := w_health w; w_notified := w_notified w + 1; w_count := w_count w;
  startup_gap_accepted := startup_gap_accepted w; force_reset_to_oldest := force_reset_to_oldest w |}.
Definition bump (k : Counter) (w : Worker) : Worker := {|
  w_channel := w_channel w; w_health := w_health w; w_notified := w_notified w;
  w_count := fun k' => if decide (k' = k) then u64 (w_count w k + 1) else w_count w k';
  startup_gap_accepted := startup_gap_accepted w; force_reset_to_oldest := force_reset_to_oldest w |}.
Definition set_flags (startup force : bool) (w : Worker) : Worker := {|
  w_channel := w_channel w; w_health := w_health w; w_notified := w_notified w; w_count := w_count w;
  startup_gap_accepted := startup; force_reset_to_oldest := force |}.
Definition shown (k : Counter) (w : Worker) : json := text_of (w_count w k).
(** [now]: [GetTickCount64()] *)
Definition set_status (now : Z) (state reason : string) (error : Z) (w : Worker) : Worker :=
  let changed := negb (is_text state (member "state" (w_health w))) || negb (is_text reason (member "reason" (w_health w)))
                 || negb (jeq (default (JUint 0) (find "native_error" (w_health w))) (JUint error)) in
  let w := note [("state", JStr state); ("reason", JStr reason); ("native_error", JUint error);
                 ("last_status_uptime_ms", text_of now)] w in
  if changed then notify w else w.
Definition active : string := "native pull subscription active; audit/provider policy and continuity unverified".
Definition known_id (z : Z) : json := if z =? 0 then JNull else text_of z.
Definition set_log_health (info : ChannelLogInfo) : Worker -> Worker := note [
  ("log_generation_id", JStr (li_generation info)); ("oldest_retained_record_id", known_id (li_oldest info));
  ("retained_record_count", text_of (li_count info)); ("newest_retained_record_id", known_id (li_newest info))].

Definition lifecycle_reason (force : bool) (saved : BookmarkCursor) (current : ChannelLogInfo) : string :=
  let differs := negb (String.eqb (bc_generation saved) (li_generation current)) in
  let unknown g := String.eqb g "unknown" in
  if force then "native_bookmark_stale_or_invalid"
  else if bc_invalid saved then "durable_cursor_invalid_reset_to_oldest"
  else if negb (bc_versioned saved) then "legacy_bookmark_generation_unknown"
  else if differs && negb (unknown (bc_generation saved)) && negb (unknown (li_generation current))
  then "log_generation_changed_clear_or_recreate"
  else if differs && (unknown (bc_generation saved) || unknown (li_generation current))
  then "log_generation_identity_unavailable_or_changed"
  else if bc_known saved && negb (li_newest current =? 0) && (li_newest current <? bc_last saved)
  then "record_id_regressed_after_log_clear_or_recreate"
  else if bc_known saved && negb (li_oldest current =? 0) && (bc_last saved <? u64_max) && (bc_last saved + 1 <? li_oldest current)
  then "retention_overwrote_records_after_checkpoint"
  else "".
Definition legacy_reason : string := "legacy_bookmark_generation_unknown".
(** the cursor a lifecycle gap leaves *)
Definition lifecycle_cursor (current : ChannelLogInfo) (saved : BookmarkCursor) (preserve : bool) : BookmarkCursor := {|
  bc_versioned := true; bc_invalid := false; bc_xml := if preserve then bc_xml saved else "";
  bc_generation := li_generation current; bc_last := if preserve then bc_last saved else 0;
  bc_known := preserve && bc_known saved |}.
Definition lifecycle_evidence (channel reason : string) (current : ChannelLogInfo) (saved : BookmarkCursor) (preserve : bool)
    (revision : Z) : json := object [
  ("reason", JStr reason); ("channel", JStr channel); ("previous_log_generation_id", JStr (bc_generation saved));
  ("current_log_generation_id", JStr (li_generation current));
  ("previous_last_record_id", if bc_known saved then text_of (bc_last saved) else JNull);
  ("oldest_retained_record_id", known_id (li_oldest current)); ("newest_retained_record_id", known_id (li_newest current));
  ("retained_record_count", text_of (li_count current));
  ("estimated_lost_record_ids", if bc_known saved && (bc_last saved <? u64_max) && (bc_last saved + 1 <? li_oldest current)
                                then text_of (li_oldest current - bc_last saved - 1) else JNull);
  ("lost_native_events", JNull);
  ("resume_policy", JStr (if preserve then "strict_after_existing_native_bookmark" else "oldest_retained_record"));
  ("checkpoint_revision", text_of revision)].
Definition mentions (part s : string) : bool := bool_decide (is_Some (String.index 0 part s)).
Definition lifecycle_counter (reason : string) : Counter :=
  if mentions "retention" reason then retention_gaps
  else if String.eqb reason legacy_reason then cursor_migrations
  else if mentions "generation" reason || mentions "record_id_regressed" reason then generation_gaps
  else stale_recoveries.
(** what follows a lifecycle gap that was accepted *)
Definition lifecycle_accepted (reason : string) (current : ChannelLogInfo) (w : Worker) : Worker :=
  let w := bump (lifecycle_counter reason) (set_flags true false w) in
  set_log_health current (note [("log_generation_gaps", shown generation_gaps w); ("log_retention_gaps", shown retention_gaps w);
    ("stale_bookmark_recoveries", shown stale_recoveries w); ("legacy_cursor_migrations", shown cursor_migrations w);
    ("last_lifecycle_gap_reason", JStr reason);
    ("continuity", JStr (if String.eqb reason legacy_reason then "generation_bound" else "gap_recorded_and_resumed"))] w).

Record DecodedWindowsEvent := { dw_data : json; dw_time : option UtcTimestamp }.
Definition startup_gap (channel : string) (resumed : bool) (log : ChannelLogInfo) (revision : Z) : DecodedWindowsEvent := {|
  dw_data := object [("reason", JStr (if resumed then "bookmark_resumed_retention_continuity_unverified"
                                      else "history_before_oldest_retained_record_unknown"));
    ("channel", JStr channel); ("log_generation_id", JStr (li_generation log));
    ("oldest_retained_record_id", known_id (li_oldest log)); ("lost_native_events", JNull);
    ("checkpoint_revision", text_of revision)]; dw_time := None |}.
Definition refused_gap (e : NativeError) : DecodedWindowsEvent := {|
  dw_data := object [("reason", JStr "native_log_source_refused"); ("stage", JStr (ne_stage e)); ("native_error", JUint (ne_code e));
    ("saved_checkpoint_preserved", JBool true); ("lost_native_events", JNull)]; dw_time := None |}.
Definition kStale : Z := 15011.
Definition kInvalidPosition : Z := 15012.

(** ** The channels *)
(** the name of the worker's checkpoint *)
Definition source_name (w : Worker) : string := "winevt:v1:" +:+ w_channel w.
Definition valid_channels (channels : list string) : bool :=
  negb (bool_decide (channels = [])) && (zlen channels <=? 16) && bool_decide (NoDup channels)
  && forallb (fun c => negb (str_empty c) && (slen c <=? 502) && str_forallb (fun a => negb (code a =? 13) && negb (code a =? 10) && negb (code a =? 0)) c)
       channels.
Definition default_channels : list string :=
  ["Security"; "Microsoft-Windows-PowerShell/Operational"; "Windows PowerShell"; "Microsoft-Windows-TaskScheduler/Operational";
   "Microsoft-Windows-WMI-Activity/Operational"; "Microsoft-Windows-Windows Defender/Operational"; "System";
   "Microsoft-Windows-DNS-Client/Operational"].
Definition snapshot (workers : list Worker) : json := object [
  ("state", JStr "degraded"); ("channels", JArr (w_health <$> workers)); ("query", JStr "*");
  ("checkpoint_namespace", JStr "winevt:v1"); ("resume_mode", JStr "strict_after_committed_bookmark_or_oldest_retained");
  ("channel_count", JUint (zlen workers));
  ("limitations", JStr "generation/retention discontinuities now emit durable gaps at source level; native loss ranges are estimates, and audit/provider enablement, event semantics, attribution, deadlines and VM qualification remain pending")].

(** ** What the worker asks of the journal *)
Record SavedCheckpoint := { sc_revision : Z; sc_value : string }.
#[global] Instance SavedCheckpoint_eq_dec : EqDecision SavedCheckpoint.
Proof. solve_decision. Defined.
(** for the worker's source: what [load] answers, [commit] with a cursor, [commit] without one *)
Class CheckpointJournal (S : Type) := {
  c_load : S -> result (option SavedCheckpoint);
  c_commit : string -> string -> Z -> S -> bool * S;
  c_persist : string -> S -> bool * S
}.
Definition revision_of (o : option SavedCheckpoint) : Z := match o with Some c => sc_revision c | None => 0 end.
(** A commit leaves the checkpoint alone, or replaces the one that has the expected
    revision; when it is accepted the new one is there.  A record without a cursor
    leaves it alone. *)
Class CheckpointJournalLaws (S : Type) `{CheckpointJournal S} := {
  commit_law line cursor revision s x : c_load s = Ok x ->
    0 <= revision ->
    c_load (c_commit line cursor revision s).2 = Ok x \/
    (revision_of x = revision /\
     c_load (c_commit line cursor revision s).2 = Ok (Some {| sc_revision := revision + 1; sc_value := cursor |}));
  commit_accepted line cursor revision s s' : c_commit line cursor revision s = (true, s') -> 0 <= revision ->
    c_load s' = Ok (Some {| sc_revision := revision + 1; sc_value := cursor |});
  persist_law line s : c_load (c_persist line s).2 = c_load s;
  load_range s c : c_load s = Ok (Some c) -> 0 <= sc_revision c <= u64_max
}.

(** ** The event log *)
(** one record of a channel; a bookmark is the text that names it *)
Record LogRecord := { lr_id : Z; lr_xml : Rendering; lr_bookmark : string }.
(** every record the channel ever had, and how many of the oldest are gone *)
Record Log := { history : list LogRecord; removed : nat }.

Section Worker_.
Context (narrow : list Z -> option string) (json_parse : string -> option json) (dump : json -> string).
Context (decode_windows_event_xml : string -> string -> result DecodedWindowsEvent).
Context (make_record : string -> DecodedWindowsEvent -> bool -> result string).
Context {S : Type} `{CheckpointJournal S}.
Definition encode_cursor (bookmark : string) (log : ChannelLogInfo) (last_record_id : Z) (known : bool) : string :=
  dump (cursor_json bookmark log last_record_id known).

(** ** One record *)
(** the evidence of a delivered record: a gap if its text cannot be retained or its id does not grow;
    with the counter it adds to *)
Definition delivered_event (channel : string) (cursor : BookmarkCursor) (log : ChannelLogInfo) (revision : Z) (r : LogRecord)
  : result (DecodedWindowsEvent * bool * list Counter) :=
  '(d, gap, counted) ←
    match render narrow (lr_xml r) 131072 with
    | inr xml => d ← decode_windows_event_xml xml channel; Ok (d, false, [])
    | inl e => Ok ({| dw_data := object [("reason", JStr "delivered_event_xml_not_retained"); ("stage", JStr (ne_stage e));
                        ("native_error", JUint (ne_code e)); ("render_utf16_bound_bytes", JInt 131072);
                        ("unretained_delivered_bodies", JStr "1"); ("lost_native_events", JNull)]; dw_time := None |}, true, [unretained])
    end;
  let regressed := bc_known cursor && (lr_id r <=? bc_last cursor) in
  let data := if regressed
              then object [("reason", JStr "event_record_id_regressed_or_repeated_within_log_generation"); ("channel", JStr channel);
                     ("log_generation_id", JStr (li_generation log)); ("event_record_id", text_of (lr_id r));
                     ("previous_record_id", text_of (bc_last cursor)); ("unretained_delivered_bodies", JStr "1"); ("lost_native_events", JNull)]
              else dw_data d in
  let gap := gap || regressed in
  let data := set_member "event_record_id_native" (text_of (lr_id r)) (set_member "log_generation_id" (JStr (li_generation log)) data) in
  state ← (if gap : bool then Ok "" else value_json "decode_state" (JStr "degraded") data |> get_string);
  Ok ({| dw_data := set_member "source_checkpoint_revision" (text_of (revision + 1)) data; dw_time := dw_time d |}, gap,
      counted ++ (if negb gap && negb (String.eqb state "healthy") then [degraded] else [])).
(** the cursor after it *)
Definition cursor_after (log : ChannelLogInfo) (r : LogRecord) : BookmarkCursor := {|
  bc_versioned := true; bc_invalid := false; bc_xml := lr_bookmark r; bc_generation := li_generation log;
  bc_last := lr_id r; bc_known := true |}.

(** ** The states of [run] *)
(** the variables of one iteration; [it_had]: [has_checkpoint] *)
Record Iteration := { it_revision : Z; it_had : bool; it_checkpoint : bool; it_cursor : BookmarkCursor; it_log : ChannelLogInfo }.
(** what [accept] was called for, and what follows when it returns true *)
Inductive Purpose :=
| lifecycle_gap (reason : string) (current : ChannelLogInfo) (next : BookmarkCursor) (while_pulling : bool) (it : Iteration)
| first_gap (it : Iteration) (position : nat)
| one_record (index : nat) (r : LogRecord) (it : Iteration)
| source_gap (e : NativeError) (has_checkpoint : bool).
Record Pending := { p_line : string; p_gap : bool; p_cursor : string; p_revision : Z; p_purpose : Purpose }.
Inductive Control :=
| looping                                        (* the head of the loop *)
| resuming (it : Iteration)                      (* about to subscribe *)
| pulling (it : Iteration) (position : nat)      (* the subscription delivers this record next *)
| accepting (p : Pending)                        (* in the loop of [accept] *)
| finished.
(** a call that may throw leaves what was noted before *)
Definition Outcome : Type := Worker * result Control.
(** [accept] up to its loop *)
Definition start_accept (w : Worker) (d : DecodedWindowsEvent) (gap : bool) (cursor : string) (revision : Z) (p : Purpose) : Outcome :=
  match make_record (w_channel w) d gap with
  | Throw e => (w, Throw e)
  | Ok line => (note [("pending_durable_acceptance", JBool true)] w,
                Ok (accepting {| p_line := line; p_gap := gap; p_cursor := cursor; p_revision := revision; p_purpose := p |}))
  end.
Definition start_lifecycle (w : Worker) (reason : string) (current : ChannelLogInfo) (preserve while_pulling : bool) (it : Iteration) : Outcome :=
  let next := lifecycle_cursor current (it_cursor it) preserve in
  start_accept w {| dw_data := lifecycle_evidence (w_channel w) reason current (it_cursor it) preserve (it_revision it); dw_time := None |}
    true (encode_cursor (bc_xml next) current (bc_last next) (bc_known next)) (it_revision it)
    (lifecycle_gap reason current next while_pulling it).
(** what is noted once the checkpoint was read and, if it was, the configuration of the channel *)
Definition loaded (saved : option SavedCheckpoint) (enabled : option (option bool)) : Worker -> Worker :=
  note (("checkpoint_revision", text_of (revision_of saved))
        :: match enabled with
           | Some e => [("channel_enabled", match e with Some b => JBool b | None => JNull end)]
           | None => []
           end).
(** the iteration up to the subscription, with the log's answers *)
Definition begin_iteration (w : Worker) (saved : option SavedCheckpoint) (enabled : option bool) (info : ChannelLogInfo) (now : Z) : Outcome :=
  let revision := revision_of saved in
  let has := bool_decide (is_Some saved) in
  let w := loaded saved (Some enabled) w in
  if bool_decide (enabled = Some false)
  then (set_status now "disabled" "native channel configuration disabled; not enabled by agent" 0 w, Ok looping)
  else
    let it := {| it_revision := revision; it_had := has; it_checkpoint := has;
                 it_cursor := match saved with Some c => decode_cursor json_parse (sc_value c) | None => no_cursor end; it_log := info |} in
    let w := set_log_health info w in
    let reason := lifecycle_reason (force_reset_to_oldest w) (it_cursor it) info in
    if has && negb (str_empty reason) then start_lifecycle w reason info (String.eqb reason legacy_reason) false it
    else (w, Ok (resuming it)).
(** the subscription was opened *)
Definition subscribed (w : Worker) (it : Iteration) (position : nat) (now : Z) : Outcome :=
  let resume := negb (str_empty (bc_xml (it_cursor it))) in
  let w := note [("resume_from_saved_checkpoint", JBool (it_checkpoint it));
                 ("resume_mode", JStr (if resume then "strict_after_native_bookmark" else "oldest_retained_record"));
                 ("replay_draining", JBool true); ("subscription_started_uptime_ms", text_of now)] w in
  if startup_gap_accepted w then (set_status now "degraded" active 0 w, Ok (pulling it position))
  else start_accept w (startup_gap (w_channel w) (it_checkpoint it) (it_log it) (it_revision it)) true "" (it_revision it)
         (first_gap it position).
(** the periodic look at the log *)
Definition log_check (w : Worker) (it : Iteration) (position : nat) (refreshed : ChannelLogInfo) : Outcome :=
  let w := set_log_health refreshed w in
  let reason := lifecycle_reason (force_reset_to_oldest w) (it_cursor it) refreshed in
  if str_empty reason
  then (w, Ok (pulling {| it_revision := it_revision it; it_had := it_had it; it_checkpoint := it_checkpoint it;
                          it_cursor := it_cursor it; it_log := refreshed |} position))
  else start_lifecycle w reason refreshed false true it.
Definition polled (now : Z) : Worker -> Worker := note [("last_poll_uptime_ms", text_of now)].
Definition took (now : Z) (w : Worker) : Worker :=
  let w := bump delivered (polled now w) in
  note [("delivered_native_records", shown delivered w); ("last_native_delivery_uptime_ms", text_of now)] w.
(** [EvtNext] gave a record *)
Definition pulled (w : Worker) (it : Iteration) (index : nat) (r : LogRecord) (now : Z) : Outcome :=
  let w := took now w in
  match delivered_event (w_channel w) (it_cursor it) (it_log it) (it_revision it) r with
  | Throw e => (w, Throw e)
  | Ok (d, gap, counted) =>
      let w := foldr bump w counted in
      let w := note [("xml_not_retained_records", shown unretained w); ("decode_degraded_records", shown degraded w);
                     ("last_native_record_id", member "event_record_id" (dw_data d))] w in
      start_accept w d gap (encode_cursor (lr_bookmark r) (it_log it) (lr_id r) true) (it_revision it) (one_record index r it)
  end.
(** [EvtNext] had no record *)
Definition drained (now : Z) (w : Worker) : Worker := note [("replay_draining", JBool false)] (polled now w).
(** the journal took it: the rest of [accept], and what its caller does *)
Definition accepted_ (p : Pending) (now : Z) (w : Worker) : Worker :=
  let w := bump (if p_gap p then gaps else records) w in
  note ([("pending_durable_acceptance", JBool false); ("durable_records", shown records w); ("durable_gaps", shown gaps w)]
        ++ (if str_empty (p_cursor p) then [] else [("checkpoint_revision", text_of (p_revision p + 1))])
        ++ [("last_durable_acceptance_uptime_ms", text_of now)]) w.
Definition continue_after (p : Purpose) (now : Z) (w : Worker) : Worker * Control :=
  match p with
  | lifecycle_gap reason current next while_pulling it =>
      let w := lifecycle_accepted reason current w in
      (w, if while_pulling then looping
          else resuming {| it_revision := u64 (it_revision it + 1); it_had := it_had it; it_checkpoint := true; it_cursor := next; it_log := current |})
  | first_gap it position => (set_status now "degraded" active 0 (set_flags true (force_reset_to_oldest w) w), pulling it position)
  | one_record index r it =>
      (set_status now "degraded" active 0 w,
       pulling {| it_revision := u64 (it_revision it + 1); it_had := it_had it; it_checkpoint := true; it_cursor := cursor_after (it_log it) r;
                  it_log := it_log it |} (Datatypes.S index))
  | source_gap e has => (set_status now (if has then "blind" else "unavailable") (ne_stage e) (ne_code e) w, looping)
  end.
(** the journal refused it *)
Definition refused_ (now : Z) (w : Worker) : Worker :=
  let w := bump refusals w in
  set_status now "degraded" "durable acceptance refused; cursor unchanged, one immutable record pending" 0
    (note [("commit_refusals", shown refusals w)] w).
(** the handler of a native error *)
Definition native_error (e : NativeError) (has_checkpoint : bool) (now : Z) (w : Worker) : Worker * Control :=
  let w := bump source_failures w in
  let w := note [("native_source_failures", shown source_failures w)] w in
  let w := set_status now (if has_checkpoint then "blind" else "unavailable") (ne_stage e) (ne_code e) w in
  if (ne_code e =? kStale) || (ne_code e =? kInvalidPosition)
  then (note [("native_bookmark_stale", JBool true)] (set_flags (startup_gap_accepted w) true w), looping)
  else match start_accept w (refused_gap e) true "" 0 (source_gap e has_checkpoint) with
       | (w, Ok c) => (w, c)
       | (w, Throw _) => (w, looping)
       end.
(** the handlers of the other exceptions *)
Definition exception_ (what : string) (has_checkpoint : bool) (now : Z) (w : Worker) : Worker :=
  set_status now (if has_checkpoint then "blind" else "unavailable") what 0 w.
Definition settle (has_checkpoint : bool) (now : Z) (o : Outcome) : Worker * Control :=
  match o with
  | (w, Ok c) => (w, c)
  | (w, Throw e) => (exception_ (what e) has_checkpoint now w, looping)
  end.
Definition unknown_exception (now : Z) (w : Worker) : Worker := set_status now "blind" "unclassified log worker failure" 0 w.
(** the end of [run]; in the loop of [accept] the caller's status comes first *)
Definition finish (w : Worker) : Worker :=
  let h := w_health w in
  notify (note [("worker_stopped", JBool true); ("last_source_state", member "state" h); ("last_source_reason", member "reason" h);
                ("state", JStr "disabled"); ("reason", JStr "collection stopped by endpoint shutdown")] w).
Definition abandoned (c : Control) (now : Z) (w : Worker) : Worker :=
  match c with
  | accepting {| p_purpose := source_gap e has |} => set_status now (if has then "blind" else "unavailable") (ne_stage e) (ne_code e) w
  | _ => w
  end.

(** ** Runs *)
(** what a commit that moved the checkpoint stood for *)
Inductive Commit := of_record (index : nat) (line : string) (gap : bool) | reset_ (reason : string) | kept (reason : string).
Definition commit_of (p : Pending) : list Commit :=
  match p_purpose p with
  | one_record index _ _ => [of_record index (p_line p) (p_gap p)]
  | lifecycle_gap reason _ _ while_pulling _ => [if negb while_pulling && String.eqb reason legacy_reason then kept reason else reset_ reason]
  | first_gap _ _ | source_gap _ _ => []
  end.
Record System := { sys_worker : Worker; sys_control : Control; sys_journal : S; sys_log : Log; sys_commits : list Commit }.
Definition moves (s : System) (o : Worker * Control) : System := {|
  sys_worker := o.1; sys_control := o.2; sys_journal := sys_journal s; sys_log := sys_log s; sys_commits := sys_commits s |}.
Definition commits (p : Pending) (j j' : S) (l : list Commit) : list Commit :=
  if decide (c_load j' = c_load j) then l else l ++ commit_of p.
Definition answered (p : Pending) (b : bool) (now : Z) (w : Worker) : Worker * Control :=
  if b then continue_after (p_purpose p) now (accepted_ p now w) else (refused_ now w, accepting p).
(** the iteration a state belongs to, for the handlers *)
Definition had_checkpoint (c : Control) : option bool :=
  match c with resuming it | pulling it _ => Some (it_had it) | _ => None end.
(** a bookmark names one record, record ids have 64 bits *)
Definition log_ok (l : Log) : Prop :=
  NoDup (lr_bookmark <$> history l) /\ Forall (fun r => lr_bookmark r <> "" /\ 0 <= lr_id r <= u64_max) (history l).
Definition log_grows (l l' : Log) : Prop :=
  (exists new, history l' = history l ++ new) /\ (removed l <= removed l' <= length (history l'))%nat /\
  log_ok l'.

(** The Event Log keeps what it documents: a strict subscription resumes behind the
    record of its bookmark if that is still there, otherwise it fails; it starts at
    the oldest record without one; and it delivers the next record, or fails once
    that is gone.  The log may grow and lose its oldest records at any time, other
    parts of the agent may use the journal but not this source, and the process may
    end anywhere. *)
Inductive Step : System -> System -> Prop :=
| step_begin s saved enabled info now : sys_control s = looping -> c_load (sys_journal s) = Ok saved ->
    Step s (moves s (settle (bool_decide (is_Some saved)) now (begin_iteration (sys_worker s) saved enabled info now)))
| step_load_fails s e now : sys_control s = looping -> c_load (sys_journal s) = Throw e ->
    Step s (moves s (exception_ (what e) false now (sys_worker s), looping))
| step_begin_native s saved enabled e now : sys_control s = looping -> c_load (sys_journal s) = Ok saved ->
    Step s (moves s (native_error e (bool_decide (is_Some saved)) now (loaded saved enabled (sys_worker s))))
| step_begin_exception s saved enabled what now : sys_control s = looping -> c_load (sys_journal s) = Ok saved ->
    Step s (moves s (exception_ what (bool_decide (is_Some saved)) now (loaded saved enabled (sys_worker s)), looping))
| step_resume s it i r now : sys_control s = resuming it -> bc_xml (it_cursor it) <> "" ->
    history (sys_log s) !! i = Some r -> (removed (sys_log s) <= i)%nat -> lr_bookmark r = bc_xml (it_cursor it) ->
    Step s (moves s (settle (it_had it) now (subscribed (sys_worker s) it (Datatypes.S i) now)))
| step_oldest s it now : sys_control s = resuming it -> bc_xml (it_cursor it) = "" ->
    Step s (moves s (settle (it_had it) now (subscribed (sys_worker s) it (removed (sys_log s)) now)))
| step_pull s it i r now : sys_control s = pulling it i -> history (sys_log s) !! i = Some r -> (removed (sys_log s) <= i)%nat ->
    Step s (moves s (settle (it_had it) now (pulled (sys_worker s) it i r now)))
| step_drained s it i now : sys_control s = pulling it i -> Step s (moves s (drained now (sys_worker s), pulling it i))
| step_check s it i info now : sys_control s = pulling it i ->
    Step s (moves s (settle (it_had it) now (log_check (sys_worker s) it i info)))
| step_native s has e now before : had_checkpoint (sys_control s) = Some has -> before ∈ [id; polled now; took now] ->
    Step s (moves s (native_error e has now (before (sys_worker s))))
| step_exception s has what now : had_checkpoint (sys_control s) = Some has ->
    Step s (moves s (exception_ what has now (sys_worker s), looping))
| step_unknown s has now : had_checkpoint (sys_control s) = Some has ->
    Step s (moves s (unknown_exception now (sys_worker s), looping))
| step_commit s p b j now : sys_control s = accepting p -> p_cursor p <> "" ->
    c_commit (p_line p) (p_cursor p) (p_revision p) (sys_journal s) = (b, j) ->
    Step s (let o := answered p b now (sys_worker s) in
            {| sys_worker := o.1; sys_control := o.2; sys_journal := j; sys_log := sys_log s;
               sys_commits := commits p (sys_journal s) j (sys_commits s) |})
| step_persist s p b j now : sys_control s = accepting p -> p_cursor p = "" -> c_persist (p_line p) (sys_journal s) = (b, j) ->
    Step s (let o := answered p b now (sys_worker s) in
            {| sys_worker := o.1; sys_control := o.2; sys_journal := j; sys_log := sys_log s; sys_commits := sys_commits s |})
| step_stop s now : sys_control s <> finished -> Step s (moves s (finish (abandoned (sys_control s) now (sys_worker s)), finished))
| step_crash s : Step s (moves s (new_worker (w_channel (sys_worker s)), looping))
| step_others s j : c_load j = c_load (sys_journal s) ->
    Step s {| sys_worker := sys_worker s; sys_control := sys_control s; sys_journal := j; sys_log := sys_log s; sys_commits := sys_commits s |}
| step_log s l : log_grows (sys_log s) l ->
    Step s {| sys_worker := sys_worker s; sys_control := sys_control s; sys_journal := sys_journal s; sys_log := l; sys_commits := sys_commits s |}.
Definition Run : System -> System -> Prop := rtc Step.
End Worker_.
