(* ===== verification/EventLogFacts.v ===== *)
(** * No silent gap in the event log

    Over any life of a channel's worker, with crashes, refused commits and native
    failures anywhere: the commits that move the checkpoint walk through the log
    record by record, and leave the walk only with a durable gap.  The theorem needs
    only the laws of [CheckpointJournalLaws]; the last part discharges them for the
    durable journal, with [load] and [commit] as [main.cpp] wires them and the source
    name of every channel the constructor accepts. *)

From S2P Require Import Prelude Crc32 Telemetry Identity Ledger Json Command CommandFacts ProcessGraph Journal JournalFacts JournalSpec EventLog.

(** ** The walk *)
(** [at_]: the record behind which the worker resumes; none at first and after a
    reset, where it starts at the oldest record of the log *)
Definition advance (position : option nat) (c : Commit) : option nat :=
  match c with of_record i _ _ => Some i | reset_ _ => None | kept _ => position end.
Definition follows (gone : nat) (position : option nat) (c : Commit) : Prop :=
  match c with
  | of_record j _ _ => match position with Some i => j = S i | None => (j <= gone)%nat end
  | _ => True
  end.
Fixpoint walk (gone : nat) (position : option nat) (l : list Commit) : Prop :=
  match l with [] => True | c :: l => follows gone position c /\ walk gone (advance position c) l end.
Definition reached (position : option nat) (l : list Commit) : option nat := foldl advance position l.
Lemma walk_snoc gone position l c : walk gone position (l ++ [c]) <-> walk gone position l /\ follows gone (reached position l) c.
Proof.
  revert position. induction l as [|c' l IH]; intros position; cbn; [tauto|]. rewrite IH. unfold reached. cbn. tauto.
Qed.
Lemma walk_mono gone gone' position l : (gone <= gone')%nat -> walk gone position l -> walk gone' position l.
Proof.
  revert position. induction l as [|c l IH]; intros position Hg; [done|]. cbn. intros [Hc Hw]. split; [|by apply IH].
  destruct c as [j ? ?| |]; cbn in *; try done. destruct position; [done|lia].
Qed.
Lemma reached_snoc position l c : reached position (l ++ [c]) = advance (reached position l) c.
Proof. unfold reached. by rewrite foldl_app. Qed.

(** A channel that has no checkpoint yet is taken for one with a legacy bookmark at the first look at the log. *)
Example fresh_channel_legacy log : lifecycle_reason false no_cursor log = legacy_reason.
Proof. reflexivity. Qed.

Section EventLogFacts.
Context (narrow : list Z -> option string) (json_parse : string -> option json) (dump : json -> string).
Context (decode_windows_event_xml : string -> string -> result DecodedWindowsEvent).
Context (make_record : string -> DecodedWindowsEvent -> bool -> result string).
Context {S : Type} {J : CheckpointJournal S} {L : CheckpointJournalLaws S}.
(** cursors are written as objects and read back *)
Context (cursor_text : forall b log id known, exists rest, dump (cursor_json b log id known) = String "{" rest).
Context (cursor_parse : forall b log id known,
  json_parse (dump (cursor_json b log id known)) = Some (cursor_json b log id known)).
Abbreviation encode_cursor := (encode_cursor dump).
Abbreviation decode_cursor := (decode_cursor json_parse).
Abbreviation Step := (Step narrow json_parse dump decode_windows_event_xml make_record).
Abbreviation Run := (Run narrow json_parse dump decode_windows_event_xml make_record).
Abbreviation System := (@System S).

(** ** Cursors are read back *)
Lemma cursor_sorted b log id known : cursor_json b log id known = JObj [
  ("bookmark_xml", JStr b); ("format", JStr cursor_format); ("last_record_id", text_of id); ("last_record_id_known", JBool known);
  ("log_generation", JStr (li_generation log)); ("oldest_record_id", text_of (li_oldest log))].
Proof. unfold cursor_json. generalize (text_of id), (text_of (li_oldest log)). intros. vm_compute. reflexivity. Qed.
Lemma read_cursor_json b log id known : (known = true -> 0 <= id <= u64_max) ->
  read_cursor (cursor_json b log id known) = Ok {| bc_versioned := true; bc_invalid := false; bc_xml := b;
    bc_generation := li_generation log; bc_last := if known then id else 0; bc_known := known |}.
Proof.
  intros Hid. rewrite cursor_sorted. unfold read_cursor. cbn -[from_chars_all to_string]. destruct known; [|done].
  cbn -[from_chars_all to_string]. by rewrite from_chars_to_string by (by apply Hid).
Qed.
Lemma cursor_decode_encode b log id known : (known = true -> 0 <= id <= u64_max) ->
  decode_cursor (encode_cursor b log id known) = {| bc_versioned := true; bc_invalid := false; bc_xml := b;
    bc_generation := li_generation log; bc_last := if known then id else 0; bc_known := known |}.
Proof.
  intros Hid. unfold EventLog.decode_cursor, EventLog.encode_cursor. destruct (cursor_text b log id known) as [rest Hr].
  rewrite cursor_parse, Hr. cbn [starts_with negb]. by rewrite read_cursor_json.
Qed.
Lemma encode_nonempty b log id known : encode_cursor b log id known <> "".
Proof. unfold EventLog.encode_cursor. destruct (cursor_text b log id known) as [rest ->]. done. Qed.
Lemma decode_cursor_range v : let c := decode_cursor v in bc_known c = true -> 0 <= bc_last c <= u64_max.
Proof.
  cbv zeta. unfold EventLog.decode_cursor. destruct (negb _); [done|]. destruct (json_parse v) as [j|]; [|done].
  destruct (read_cursor j) as [c|] eqn:E; [|done]. unfold read_cursor in E. inv_ok E. injection E as <-. cbn.
  intros ->. inv_ok Ha5. destruct (from_chars_all u64_max _) eqn:Ef in Ha5; [|done]. injection Ha5 as <-. by eapply from_chars_range.
Qed.

(** ** The invariant *)
Context (channel : string) (start : option nat) (revision0 : Z).
Definition cursor_at (l : Log) (c : BookmarkCursor) (position : option nat) : Prop :=
  (bc_known c = true -> 0 <= bc_last c <= u64_max) /\
  match position with Some i => exists r, history l !! i = Some r /\ bc_xml c = lr_bookmark r | None => bc_xml c = "" end.
Definition saved_cursor (x : option SavedCheckpoint) : BookmarkCursor :=
  match x with Some c => decode_cursor (sc_value c) | None => no_cursor end.
Definition iteration_ok (l : Log) (x : option SavedCheckpoint) (position : option nat) (it : Iteration) : Prop :=
  it_revision it = revision_of x /\ cursor_at l (it_cursor it) position.
Definition next_ok (l : Log) (position : option nat) (n : nat) : Prop :=
  match position with Some i => n = Datatypes.S i | None => (n <= removed l)%nat end.
(** the line of a commit is the evidence of its record *)
Definition evidence_line (r : LogRecord) (line : string) (gap : bool) : Prop :=
  exists cursor log revision d counted,
    delivered_event narrow decode_windows_event_xml channel cursor log revision r = Ok (d, gap, counted) /\
    make_record channel d gap = Ok line.
Definition evidenced (l : Log) (c : Commit) : Prop :=
  match c with of_record i line gap => exists r, history l !! i = Some r /\ evidence_line r line gap | _ => True end.
Definition preserving (reason : string) (while_pulling : bool) : bool := negb while_pulling && String.eqb reason legacy_reason.
(** the pending commit was not stored, or it was and its answer got lost *)
Definition pending_ok (l : Log) (x : option SavedCheckpoint) (position : option nat) (p : Pending) : Prop :=
  let stored it := 0 <= it_revision it /\ x = Some {| sc_revision := it_revision it + 1; sc_value := p_cursor p |} in
  match p_purpose p with
  | source_gap _ _ => p_cursor p = ""
  | first_gap it n => p_cursor p = "" /\ iteration_ok l x position it /\ next_ok l position n
  | one_record i r it =>
      p_revision p = it_revision it /\ p_cursor p = encode_cursor (lr_bookmark r) (it_log it) (lr_id r) true /\
      history l !! i = Some r /\ evidence_line r (p_line p) (p_gap p) /\
      (iteration_ok l x position it /\ next_ok l position i \/ stored it /\ position = Some i)
  | lifecycle_gap reason current next pulling_ it =>
      p_revision p = it_revision it /\ p_cursor p = encode_cursor (bc_xml next) current (bc_last next) (bc_known next) /\
      next = lifecycle_cursor current (it_cursor it) (preserving reason pulling_) /\
      (iteration_ok l x position it \/ stored it /\ cursor_at l next position)
  end.
Definition control_ok (l : Log) (x : option SavedCheckpoint) (position : option nat) (c : Control) : Prop :=
  match c with
  | looping | finished => True
  | resuming it => iteration_ok l x position it
  | pulling it n => iteration_ok l x position it /\ next_ok l position n
  | accepting p => pending_ok l x position p
  end.
Record state_ok (s : System) : Prop := {
  st_channel : w_channel (sys_worker s) = channel;
  st_log : log_ok (sys_log s);
  st_walk : walk (removed (sys_log s)) start (sys_commits s);
  st_evidence : Forall (evidenced (sys_log s)) (sys_commits s);
  st_saved : exists x, c_load (sys_journal s) = Ok x /\ revision_of x = revision0 + zlen (sys_commits s) /\
    cursor_at (sys_log s) (saved_cursor x) (reached start (sys_commits s)) /\
    control_ok (sys_log s) x (reached start (sys_commits s)) (sys_control s)
}.

(** ** Workers keep their channel *)
Lemma channel_status now state reason e w : w_channel (set_status now state reason e w) = w_channel w.
Proof. unfold set_status. by destruct (_ || _). Qed.
Lemma channel_bumps l w : w_channel (foldr bump w l) = w_channel w.
Proof. by induction l. Qed.
Definition outcome_ok (l : Log) (x : option SavedCheckpoint) (position : option nat) (o : Outcome) : Prop :=
  w_channel o.1 = channel /\ match o.2 with Ok c => control_ok l x position c | Throw _ => True end.
Lemma settle_ok l x position has now o : outcome_ok l x position o ->
  w_channel (settle has now o).1 = channel /\ control_ok l x position (settle has now o).2.
Proof.
  destruct o as [w [c|e]]; cbn; [done|]. intros [Hw _]. split; [|done]. unfold exception_. by rewrite channel_status.
Qed.
Lemma start_accept_ok l x position w d gap cursor revision p :
  w_channel w = channel ->
  (forall line, make_record channel d gap = Ok line ->
     pending_ok l x position {| p_line := line; p_gap := gap; p_cursor := cursor; p_revision := revision; p_purpose := p |}) ->
  outcome_ok l x position (start_accept make_record w d gap cursor revision p).
Proof.
  intros Hw Hp. unfold start_accept. rewrite Hw. destruct (make_record channel d gap) as [line|e] eqn:E; [|done].
  split; [done|]. cbn. by apply Hp.
Qed.
Lemma start_lifecycle_ok l x position w reason current pulling_ it :
  w_channel w = channel -> iteration_ok l x position it ->
  outcome_ok l x position (start_lifecycle dump make_record w reason current (preserving reason pulling_) pulling_ it).
Proof. intros Hw Hi. apply start_accept_ok; [done|]. intros line Hl. cbn. auto 6. Qed.
Lemma begin_ok l x position w enabled info now :
  w_channel w = channel -> cursor_at l (saved_cursor x) position ->
  outcome_ok l x position (begin_iteration json_parse dump make_record w x enabled info now).
Proof.
  intros Hw Hc. unfold begin_iteration. destruct (bool_decide (enabled = _)); [split; [etrans; [apply channel_status|done]|done]|].
  cbv zeta. destruct (_ && _).
  - apply (start_lifecycle_ok _ _ _ _ _ _ false); [done|]. by split.
  - split; [done|]. split; [done|exact Hc].
Qed.
Lemma subscribed_ok l x position w it n now : w_channel w = channel -> iteration_ok l x position it -> next_ok l position n ->
  outcome_ok l x position (subscribed make_record w it n now).
Proof.
  intros Hw Hi Hn. unfold subscribed. cbv zeta. destruct (startup_gap_accepted _); [split; [etrans; [apply channel_status|done]|done]|].
  by apply start_accept_ok.
Qed.
Lemma log_check_ok l x position w it n info : w_channel w = channel -> iteration_ok l x position it -> next_ok l position n ->
  outcome_ok l x position (log_check dump make_record w it n info).
Proof.
  intros Hw [Hr Hc] Hn. unfold log_check. cbv zeta. destruct (str_empty _); [split; [done|split; [by split|done]]|].
  by apply (start_lifecycle_ok _ _ _ _ _ _ true).
Qed.
Lemma pulled_ok l x position w it i r now : w_channel w = channel -> iteration_ok l x position it -> next_ok l position i ->
  history l !! i = Some r ->
  outcome_ok l x position (pulled narrow dump decode_windows_event_xml make_record w it i r now).
Proof.
  intros Hw Hi Hn Hr. unfold pulled. cbv zeta. change (w_channel (took now w)) with (w_channel w). rewrite Hw.
  destruct (delivered_event _ _ _ _ _ _ r) as [[[d gap] counted]|e] eqn:Ed; [|done].
  apply start_accept_ok; [cbn; by rewrite channel_bumps|]. intros line Hl. cbn. split_and!; try done; [|by left].
  unfold evidence_line. eauto 10.
Qed.
Lemma native_error_ok l x position e has now w : w_channel w = channel ->
  let o := native_error make_record e has now w in w_channel o.1 = channel /\ control_ok l x position o.2.
Proof.
  intros Hw. cbv zeta. unfold native_error. cbv zeta. set (w' := set_status _ _ _ _ _).
  assert (Hw' : w_channel w' = channel) by (unfold w'; by rewrite channel_status). destruct (_ || _); [done|].
  pose proof (start_accept_ok l x position w' (refused_gap e) true "" 0 (source_gap e has) Hw' ltac:(done)) as [H1 H2].
  by destruct (start_accept _ _ _ _ _ _ _) as [w2 [c|e2]].
Qed.

(** ** Commits *)
(** what holds once the commit is stored *)
Definition stored_ok (l : Log) (x : option SavedCheckpoint) (position : option nat) (p : Pending) : Prop :=
  0 <= p_revision p /\ x = Some {| sc_revision := p_revision p + 1; sc_value := p_cursor p |} /\
  match p_purpose p with
  | one_record i r it => position = Some i /\ history l !! i = Some r /\ p_revision p = it_revision it
  | lifecycle_gap _ _ next _ it => cursor_at l next position /\ p_revision p = it_revision it
  | _ => False
  end.
Lemma pending_cases l x position p : pending_ok l x position p -> p_cursor p <> "" ->
  p_revision p = revision_of x \/ stored_ok l x position p.
Proof.
  unfold pending_ok, stored_ok. destruct (p_purpose p) as [reason current next wp it|it n|i r it|e has]; intros H Hc.
  - destruct H as (-> & _ & _ & [[-> _]|[[H0 ->] H]]); [by left|right; done].
  - by destruct H as [? _].
  - destruct H as (-> & _ & Hl & _ & [[[-> _] _]|[[H0 ->] ->]]); [by left|right; done].
  - done.
Qed.
Lemma cursor_at_decoded l c log position : cursor_at l c position ->
  cursor_at l (decode_cursor (encode_cursor (bc_xml c) log (bc_last c) (bc_known c))) position.
Proof. intros [Hr Hx]. rewrite cursor_decode_encode by done. split; cbn; [by intros Hk; rewrite Hk; apply Hr|done]. Qed.
Lemma stored_after l x position p : log_ok l -> pending_ok l x position p -> p_cursor p <> "" ->
  revision_of x = p_revision p -> 0 <= revision_of x ->
  let x' := Some {| sc_revision := p_revision p + 1; sc_value := p_cursor p |} in
  exists c, commit_of p = [c] /\ follows (removed l) position c /\ evidenced l c /\
    cursor_at l (saved_cursor x') (advance position c) /\ pending_ok l x' (advance position c) p /\ stored_ok l x' (advance position c) p.
Proof.
  intros Hl H Hc Hr H0. cbv zeta. unfold pending_ok, stored_ok, commit_of in *. rewrite Hr in H0.
  destruct (p_purpose p) as [reason current next wp it|it n|i r it|e has] eqn:Ep.
  - destruct H as (Hrev & Hcur & Hnext & H). fold (preserving reason wp).
    destruct H as [[Hir Hca]|[[_ ->] _]]; [|cbn in Hr; lia].
    eexists. split; [done|].
    assert (Hn : cursor_at l next (advance position (if preserving reason wp then kept reason else reset_ reason))).
    { rewrite Hnext. destruct Hca as [Hk Hx]. destruct (preserving reason wp); split; cbn; auto; done. }
    split; [by destruct (preserving reason wp)|]. split; [by destruct (preserving reason wp)|].
    split; [cbn; rewrite Hcur; by apply cursor_at_decoded|]. rewrite <- Hrev in *. split_and!; auto; done.
  - by destruct H as [? _].
  - destruct H as (Hrev & Hcur & Hi & Hev & H). destruct H as [[_ Hn]|[[_ ->] _]]; [|cbn in Hr; lia].
    eexists. split; [done|]. cbn [follows advance evidenced]. rewrite <- Hrev in *.
    assert (Hid : 0 <= lr_id r <= u64_max) by (destruct Hl as [_ Hl]; by apply (Forall_lookup_1 _ _ _ _ Hl Hi)).
    split; [done|]. split; [by exists r|]. split; [|split].
    + cbn. rewrite Hcur, cursor_decode_encode by done. split; [done|by exists r].
    + split_and!; try done. by right.
    + done.
  - done.
Qed.
Lemma continue_ok l x position p now w : log_ok l -> stored_ok l x position p -> revision_of x <= u64_max -> w_channel w = channel ->
  let o := continue_after (p_purpose p) now w in w_channel o.1 = channel /\ control_ok l x position o.2.
Proof.
  intros Hl (H0 & Hx & H) Hmax Hw. cbv zeta. rewrite Hx in Hmax. cbn in Hmax.
  destruct (p_purpose p) as [reason current next wp it|it n|i r it|e has]; [|done| |done].
  - destruct H as [Hc Hr]. split; [done|]. cbn. destruct wp; [done|]. split; [|done]. cbn. rewrite Hx. cbn.
    rewrite <- Hr. apply u64_small. lia.
  - destruct H as (-> & Hi & Hr). split; [etrans; [apply channel_status|done]|]. cbn. split; [|done]. split; cbn.
    + rewrite Hx. cbn. rewrite <- Hr. apply u64_small. lia.
    + assert (Hid : 0 <= lr_id r <= u64_max) by (destruct Hl as [_ Hl]; by apply (Forall_lookup_1 _ _ _ _ Hl Hi)).
      split; [done|]. by exists r.
Qed.
Lemma load_nonneg j x : c_load j = Ok x -> 0 <= revision_of x <= u64_max.
Proof. destruct x as [c|]; cbn; [apply load_range|]. intros _. unfold u64_max. lia. Qed.
Lemma answered_ok l x position p b now w : log_ok l -> w_channel w = channel -> revision_of x <= u64_max ->
  pending_ok l x position p -> (b = true -> stored_ok l x position p) ->
  let o := answered p b now w in w_channel o.1 = channel /\ control_ok l x position o.2.
Proof.
  intros Hl Hw Hmax Hp Hb. unfold answered. destruct b.
  - apply continue_ok; auto.
  - split; [etrans; [apply channel_status|done]|done].
Qed.
Lemma commit_state_ok s p b j now : state_ok s -> sys_control s = accepting p -> p_cursor p <> "" ->
  c_commit (p_line p) (p_cursor p) (p_revision p) (sys_journal s) = (b, j) ->
  state_ok (let o := answered p b now (sys_worker s) in
            {| sys_worker := o.1; sys_control := o.2; sys_journal := j; sys_log := sys_log s;
               sys_commits := commits p (sys_journal s) j (sys_commits s) |}).
Proof.
  intros [Hw Hl Hwalk Hev (x & Hx & Hr & Hc & Hk)] Ectl Hne Hcm. rewrite Ectl in Hk. cbn in Hk.
  pose proof (load_nonneg _ _ Hx) as H0.
  assert (Hrev : 0 <= p_revision p).
  { destruct (pending_cases _ _ _ _ Hk Hne) as [->|[H _]]; [apply H0|done]. }
  pose proof (commit_law (p_line p) (p_cursor p) (p_revision p) _ x Hx Hrev) as Hlaw. rewrite Hcm in Hlaw. cbn in Hlaw.
  pose proof (fun E => commit_accepted (p_line p) (p_cursor p) (p_revision p) (sys_journal s) j E Hrev) as Hacc.
  assert (Hsame : c_load j = Ok x -> p_revision p = revision_of x -> b = false).
  { intros Hj Hpr. destruct b; [|done]. specialize (Hacc Hcm). rewrite Hj in Hacc. injection Hacc as ->. cbn in Hpr. lia. }
  destruct Hlaw as [Hj|[Hrx Hj]].
  - assert (Ecom : commits p (sys_journal s) j (sys_commits s) = sys_commits s).
    { unfold commits. rewrite decide_True; [done|]. by rewrite Hj, Hx. }
    cbv zeta. rewrite Ecom.
    destruct (answered_ok (sys_log s) x (reached start (sys_commits s)) p b now (sys_worker s)) as [H1 H2]; [done|done|lia|done| |].
    { intros ->. destruct (pending_cases _ _ _ _ Hk Hne) as [Hpr|H]; [by specialize (Hsame Hj Hpr)|done]. }
    constructor; try done. exists x. done.
  - assert (Ecom : commits p (sys_journal s) j (sys_commits s) = sys_commits s ++ commit_of p).
    { unfold commits. rewrite decide_False; [done|]. rewrite Hj, Hx. intros [= E]. rewrite <- E in Hrx. cbn in Hrx. lia. }
    destruct (stored_after _ _ _ _ Hl Hk Hne Hrx ltac:(lia)) as (c & Ec & Hf & He & Hca & Hpend & Hst). cbv zeta. rewrite Ecom, Ec.
    pose proof (load_nonneg _ _ Hj) as H1.
    destruct (answered_ok (sys_log s) _ _ p b now (sys_worker s) Hl Hw ltac:(apply H1) Hpend ltac:(done)) as [G1 G2].
    constructor; cbn [sys_worker sys_control sys_journal sys_log sys_commits]; try done.
    + by apply walk_snoc.
    + apply Forall_app. split; [done|by apply Forall_singleton].
    + eexists. split; [exact Hj|]. rewrite reached_snoc, zlen_app. split; [|done]. cbn. change (zlen [c]) with 1. lia.
Qed.

(** ** Every step *)
Lemma moves_ok s o : state_ok s ->
  (forall x, c_load (sys_journal s) = Ok x -> cursor_at (sys_log s) (saved_cursor x) (reached start (sys_commits s)) ->
     control_ok (sys_log s) x (reached start (sys_commits s)) (sys_control s) ->
     w_channel o.1 = channel /\ control_ok (sys_log s) x (reached start (sys_commits s)) o.2) ->
  state_ok (moves s o).
Proof.
  intros [Hw Hl Hwalk Hev (x & Hx & Hr & Hc & Hk)] Ho. destruct (Ho x Hx Hc Hk) as [H1 H2].
  constructor; try done. by exists x.
Qed.
Lemma cursor_at_grows l l' c position : log_grows l l' -> cursor_at l c position -> cursor_at l' c position.
Proof.
  intros [[new E] _] [Hr Hx]. split; [done|]. destruct position as [i|]; [|done]. destruct Hx as (r & Hi & ?).
  exists r. split; [|done]. rewrite E. by apply lookup_app_l_Some.
Qed.
Lemma next_ok_grows l l' position n : log_grows l l' -> next_ok l position n -> next_ok l' position n.
Proof. intros (_ & [? _] & _). destruct position; cbn; [done|lia]. Qed.
Lemma control_ok_grows l l' x position c : log_grows l l' -> control_ok l x position c -> control_ok l' x position c.
Proof.
  intros Hg. pose proof (cursor_at_grows l l') as Hc. pose proof (next_ok_grows l l') as Hn.
  assert (Hi : forall it, iteration_ok l x position it -> iteration_ok l' x position it) by (intros it [? ?]; split; eauto).
  assert (Hlk : forall i r, history l !! i = Some r -> history l' !! i = Some r).
  { intros i r. destruct Hg as [[new ->] _]. apply lookup_app_l_Some. }
  destruct c as [|it|it n|p|]; cbn; [done|auto|naive_solver| |done].
  unfold pending_ok. destruct (p_purpose p); naive_solver.
Qed.
Lemma evidenced_grows l l' c : log_grows l l' -> evidenced l c -> evidenced l' c.
Proof.
  intros [[new E] _]. destruct c as [i line gap| |]; cbn; try done. intros (r & Hi & ?). exists r. split; [|done].
  rewrite E. by apply lookup_app_l_Some.
Qed.
Lemma bookmark_unique l i j r r' : log_ok l -> history l !! i = Some r -> history l !! j = Some r' ->
  lr_bookmark r = lr_bookmark r' -> i = j.
Proof.
  intros [Hn _] Hi Hj E. eapply (NoDup_lookup _ _ _ (lr_bookmark r) Hn); rewrite list_lookup_fmap.
  - by rewrite Hi.
  - by rewrite Hj, E.
Qed.
Lemma persist_ok s p b j now : state_ok s -> sys_control s = accepting p -> p_cursor p = "" -> c_persist (p_line p) (sys_journal s) = (b, j) ->
  state_ok (let o := answered p b now (sys_worker s) in
            {| sys_worker := o.1; sys_control := o.2; sys_journal := j; sys_log := sys_log s; sys_commits := sys_commits s |}).
Proof.
  intros [Hw Hlog Hwalk Hev (x & Hx & Hr & Hc & Hk)] Ec He Hcm. rewrite Ec in Hk. cbn in Hk.
  pose proof (persist_law (p_line p) (sys_journal s)) as Hj. rewrite Hcm in Hj. cbn in Hj.
  assert (Ho : let o := answered p b now (sys_worker s) in
    w_channel o.1 = channel /\ control_ok (sys_log s) x (reached start (sys_commits s)) o.2).
  { unfold answered. destruct b; [|split; [etrans; [apply channel_status|done]|done]]. unfold pending_ok in Hk.
    destruct (p_purpose p) as [reason current next wp it|it n|i r it|e has].
    - destruct Hk as (_ & E & _). rewrite He in E. symmetry in E. by apply encode_nonempty in E.
    - destruct Hk as (_ & Hit & Hn). split; [etrans; [apply channel_status|done]|done].
    - destruct Hk as (_ & E & _). rewrite He in E. symmetry in E. by apply encode_nonempty in E.
    - split; [etrans; [apply channel_status|done]|done]. }
  destruct Ho as [H1 H2]. constructor; try done. exists x. cbn [sys_journal sys_log sys_commits sys_control]. by rewrite Hj.
Qed.
Lemma log_step_ok s l : state_ok s -> log_grows (sys_log s) l ->
  state_ok {| sys_worker := sys_worker s; sys_control := sys_control s; sys_journal := sys_journal s; sys_log := l; sys_commits := sys_commits s |}.
Proof.
  intros [Hw Hlog Hwalk Hev (x & Hx & Hr & Hc & Hk)] Hg. constructor; cbn; try done.
  - apply Hg.
  - eapply walk_mono; [|exact Hwalk]. apply Hg.
  - eapply Forall_impl; [exact Hev|]. intros c. by apply evidenced_grows.
  - exists x. split_and!; try done; [by eapply cursor_at_grows|by eapply control_ok_grows].
Qed.
Lemma state_ok_step s s' : state_ok s -> Step s s' -> state_ok s'.
Proof.
  intros Hs St. pose proof (st_channel s Hs) as Hw. pose proof (st_log s Hs) as Hlog. destruct St as [s saved enabled info now Ec Hld
    |s e now Ec Hld|s saved enabled e now Ec Hld|s saved enabled what now Ec Hld|s it i r now Ec Hne Hi Hrm Hb|s it now Ec He|s it i r now Ec Hi Hrm
    |s it i now Ec|s it i info now Ec|s has e now f Ec Hf|s has what now Ec|s has now Ec|s p b j now Ec Hne Hcm|s p b j now Ec He Hcm
    |s now Ec|s|s j Hj|s l Hg].
  - apply moves_ok; [done|]. intros x Hx Hc Hk. rewrite Hld in Hx. injection Hx as <-. apply settle_ok. by apply begin_ok.
  - apply moves_ok; [done|]. intros x Hx. congruence.
  - apply moves_ok; [done|]. intros x Hx Hc Hk. by apply native_error_ok.
  - apply moves_ok; [done|]. intros x Hx Hc Hk. split; [etrans; [apply channel_status|done]|done].
  - apply moves_ok; [done|]. intros x Hx Hc Hk. rewrite Ec in Hk. cbn in Hk. apply settle_ok. apply subscribed_ok; [done..|].
    destruct Hk as [_ [_ Hxml]]. destruct (reached start (sys_commits s)) as [i'|]; [|done].
    destruct Hxml as (r' & Hi' & E). cbn. f_equal. eapply bookmark_unique; [done|exact Hi|exact Hi'|congruence].
  - apply moves_ok; [done|]. intros x Hx Hc Hk. rewrite Ec in Hk. cbn in Hk. apply settle_ok. apply subscribed_ok; [done..|].
    destruct Hk as [_ [_ Hxml]]. destruct (reached start (sys_commits s)) as [i'|]; [|cbn; lia].
    destruct Hxml as (r' & Hi' & E). exfalso. destruct Hlog as [_ Hlog].
    destruct (Forall_lookup_1 _ _ _ _ Hlog Hi') as [Hb _]. apply Hb. by rewrite <- E.
  - apply moves_ok; [done|]. intros x Hx Hc Hk. rewrite Ec in Hk. destruct Hk as [Hit Hn]. apply settle_ok. by apply pulled_ok.
  - apply moves_ok; [done|]. intros x Hx Hc Hk. by rewrite Ec in Hk.
  - apply moves_ok; [done|]. intros x Hx Hc Hk. rewrite Ec in Hk. destruct Hk as [Hit Hn]. apply settle_ok. by apply log_check_ok.
  - apply moves_ok; [done|]. intros x Hx Hc Hk. apply native_error_ok.
    rewrite !elem_of_cons, elem_of_nil in Hf. by destruct Hf as [->|[->|[->|[]]]].
  - apply moves_ok; [done|]. intros x Hx Hc Hk. split; [etrans; [apply channel_status|done]|done].
  - apply moves_ok; [done|]. intros x Hx Hc Hk. split; [etrans; [apply channel_status|done]|done].
  - by apply commit_state_ok.
  - by apply persist_ok.
  - apply moves_ok; [done|]. intros x Hx Hc Hk. split; [|done]. unfold abandoned, finish. cbn.
    destruct (sys_control s) as [| | |[? ? ? ? []]|]; try done. etrans; [apply channel_status|done].
  - by apply moves_ok.
  - destruct Hs as [_ _ Hwalk Hev (x & Hx & ?)]. constructor; try done. exists x. cbn [sys_journal sys_log sys_commits sys_control]. by rewrite Hj.
  - by apply log_step_ok.
Qed.
(** the worker starts with a checkpoint that fits the log: none, or one behind a record of it *)
Record starting (s : System) : Prop := {
  starting_worker : sys_worker s = new_worker channel; starting_control : sys_control s = looping;
  starting_commits : sys_commits s = []; starting_log : log_ok (sys_log s);
  starting_saved : exists x, c_load (sys_journal s) = Ok x /\ revision_of x = revision0 /\ cursor_at (sys_log s) (saved_cursor x) start
}.
Lemma starting_ok s : starting s -> state_ok s.
Proof.
  intros [Hw Hc Hk Hl (x & Hx & Hr & Ha)]. constructor; rewrite ?Hw, ?Hk; try done. exists x. rewrite Hc. split_and!; try done.
  rewrite Hr. change (zlen (A := Commit) []) with 0. lia.
Qed.
Lemma run_ok s s' : state_ok s -> Run s s' -> state_ok s'.
Proof. intros Hs Hr. induction Hr as [s|s1 s2 s3 St _ IH]; [done|]. apply IH. by eapply state_ok_step. Qed.
(** C21: No record of the event log is skipped silently.  Over any life of a channel's worker, with crashes, lost
    answers of the journal, native failures, retention and clearing of the log at any point: the commits that move
    the checkpoint walk through the channel record by record, each line being the evidence of its record; only a
    durable gap leaves the walk, and behind it (as at first) the worker starts with the oldest record the log still had.
    The checkpoint in the journal names the last record of the walk, its revision counts the commits, and the
    worker never reads ahead of it. *)
Theorem event_log_no_silent_gap (s s' : System) : starting s -> Run s s' ->
  walk (removed (sys_log s')) start (sys_commits s') /\
  Forall (evidenced (sys_log s')) (sys_commits s') /\
  (exists x, c_load (sys_journal s') = Ok x /\ revision_of x = revision0 + zlen (sys_commits s') /\
     cursor_at (sys_log s') (saved_cursor x) (reached start (sys_commits s'))) /\
  (forall it n, sys_control s' = pulling it n -> next_ok (sys_log s') (reached start (sys_commits s')) n).
Proof.
  intros Hs Hr. destruct (run_ok _ _ (starting_ok _ Hs) Hr) as [_ _ Hw He (x & Hx & Hrev & Hc & Hk)].
  split; [done|]. split; [done|]. split; [by exists x|]. intros it n E. rewrite E in Hk. apply Hk.
Qed.
End EventLogFacts.

(** ** The durable journal serves the event log *)
Section Instance_.
Context (cng_sha256 : string -> string + list Z) (valid_utf8 : string -> bool).
Context (json_parse : string -> option json) (protect unprotect : string -> string -> result string).
Context (disk : JournalDb -> DiskReport) (config : JournalConfig).
Context (source : string).
Definition accepted_by {A} (r : result A * JState) : bool * JState := (is_ok r.1, r.2).
Definition source_journal : CheckpointJournal JState := {|
  c_load s := match (source_checkpoint unprotect source s).1 with
              | Ok (Some c) => Ok (Some {| sc_revision := revision c; sc_value := value c |})
              | Ok None => Ok None
              | Throw e => Throw e
              end;
  c_commit line cursor expected s :=
    accepted_by (append_checkpointed cng_sha256 valid_utf8 json_parse protect unprotect disk config line source cursor expected s);
  c_persist line s := accepted_by (append cng_sha256 valid_utf8 json_parse protect disk config line s)
|}.
#[local] Existing Instance source_journal.
Context (Hsource : validate_source source = Ok tt) (Hdpapi : dpapi_roundtrip protect unprotect).
Lemma load_db s s' : db s' = db s -> c_load s' = c_load s.
Proof.
  intros E. cbn. unfold source_checkpoint, mbind, M_bind, lift, get_db. rewrite Hsource, E.
  destruct (checkpoints (db s) !! source) as [row|]; [|done]. destruct (checkpoint_revision _); [|done]. by destruct (unprotect _ _).
Qed.
Lemma load_row s row : checkpoints (db s) !! source = Some row ->
  c_load s = match checkpoint_revision (s_revision row) with
             | Ok r => match unprotect (s_value row) ("source:" +:+ source) with
                       | Ok v => Ok (Some {| sc_revision := r; sc_value := v |})
                       | Throw e => Throw e
                       end
             | Throw e => Throw e
             end.
Proof.
  intros E. cbn. unfold source_checkpoint, mbind, M_bind, lift, get_db. rewrite Hsource, E.
  destruct (checkpoint_revision _); [|done]. by destruct (unprotect _ _).
Qed.
Lemma load_none s : checkpoints (db s) !! source = None -> c_load s = Ok None.
Proof. intros E. cbn. unfold source_checkpoint, mbind, M_bind, lift, get_db. by rewrite Hsource, E. Qed.
Lemma load_holds s rev cp : holds_checkpoint unprotect (db s) source rev cp -> c_load s = Ok (Some {| sc_revision := rev; sc_value := cp |}).
Proof. intros (row & Hrow & Hr & Hv). by rewrite (load_row _ _ Hrow), Hr, Hv. Qed.
Lemma revision_range text r : checkpoint_revision text = Ok r -> 0 <= r <= u64_max.
Proof.
  unfold checkpoint_revision. destruct (from_chars_all u64_max text) as [v|] eqn:E; [|done]. destruct (_ || _); [done|].
  intros [= <-]. by eapply from_chars_range.
Qed.
Lemma append_checkpointed_bounded line cp expected s u s' :
  append_checkpointed cng_sha256 valid_utf8 json_parse protect unprotect disk config line source cp expected s = (Ok u, s') ->
  expected <> u64_max.
Proof.
  unfold append_checkpointed. intros H. inv_step H. inv_step H. unfold checkpoint_bounds in *.
  match goal with E : throw_if _ _ = Ok _ |- _ => apply throw_if_Ok in E end. lia.
Qed.
(** a commit that was accepted repeated the last one or replaced the expected one *)
Lemma accepted_cases line cp expected s u s' : 0 <= expected ->
  append_checkpointed cng_sha256 valid_utf8 json_parse protect unprotect disk config line source cp expected s = (Ok u, s') ->
  c_load s' = Ok (Some {| sc_revision := expected + 1; sc_value := cp |}) /\
  (db s' = db s \/ match checkpoints (db s) !! source with
                   | Some row => checkpoint_revision (s_revision row) = Ok expected
                   | None => expected = 0
                   end).
Proof.
  intros H0 H. pose proof (append_checkpointed_bounded _ _ _ _ _ _ H) as Hb.
  apply append_checkpointed_run in H as (k & _ & _ & H). pose proof H as Hr.
  apply compare_and_swap_run in Hr as [(E & row & v & Hrow & Hrev & _ & Hv & ->)|(s1 & enc & _ & _ & Hr & _)].
  - split; [|by left]. apply load_holds. exists row. by rewrite E.
  - split; [|by right]. apply load_holds. apply (swap_holds protect unprotect disk config _ _ _ _ _ _ _ _ _ Hdpapi) in H; [done|].
    destruct (checkpoints (db s) !! source) as [row|]; [apply revision_range in Hr; lia|]. unfold u64_max in *. lia.
Qed.
Lemma refused_same line cp expected s e s' :
  append_checkpointed cng_sha256 valid_utf8 json_parse protect unprotect disk config line source cp expected s = (Throw e, s') ->
  db s' = db s.
Proof.
  intros H. apply (perform_atomic cng_sha256 valid_utf8 json_parse protect unprotect disk config
    (AppendCheckpointed line source cp expected) s e). cbn [perform]. unfold answering, mbind, M_bind. by rewrite H.
Qed.
#[global] Instance source_journal_laws : CheckpointJournalLaws JState.
Proof.
  constructor.
  - intros line cp expected s x Hx H0. change (c_commit line cp expected s) with (accepted_by
      (append_checkpointed cng_sha256 valid_utf8 json_parse protect unprotect disk config line source cp expected s)).
    destruct (append_checkpointed _ _ _ _ _ _ _ _ _ _ _ s) as [[u|e] s'] eqn:E; cbn [accepted_by fst snd].
    + destruct (accepted_cases _ _ _ _ _ _ H0 E) as [Hl [Hd|Hd]]; [left; by rewrite (load_db _ _ Hd)|right]. split; [|done].
      destruct (checkpoints (db s) !! source) as [row|] eqn:Er.
      * rewrite (load_row _ _ Er), Hd in Hx. destruct (unprotect _ _); [|done]. by injection Hx as <-.
      * rewrite (load_none _ Er) in Hx. injection Hx as <-. by rewrite Hd.
    + left. by rewrite (load_db _ _ (refused_same _ _ _ _ _ _ E)).
  - intros line cp expected s s' H H0. change (c_commit line cp expected s) with (accepted_by
      (append_checkpointed cng_sha256 valid_utf8 json_parse protect unprotect disk config line source cp expected s)) in H.
    destruct (append_checkpointed _ _ _ _ _ _ _ _ _ _ _ s) as [[u|e] s2] eqn:E; [|done]. injection H as <-.
    by apply accepted_cases in E as [? _].
  - intros line s. change (c_persist line s) with (accepted_by (append cng_sha256 valid_utf8 json_parse protect disk config line s)).
    destruct (append _ _ _ _ _ _ line s) as [[u|e] s'] eqn:E; cbn [accepted_by fst snd].
    + apply append_run in E as (k & _ & Hi & _). apply insert_other_tables in Hi as (_ & Hc & _).
      destruct (checkpoints (db s) !! source) as [row|] eqn:Er.
      * by rewrite (load_row s row), (load_row s' row) by congruence.
      * by rewrite !load_none by congruence.
    + apply load_db. apply (perform_atomic cng_sha256 valid_utf8 json_parse protect unprotect disk config (Append line) s e).
      cbn [perform]. unfold answering, mbind, M_bind. by rewrite E.
  - intros s c H. destruct (checkpoints (db s) !! source) as [row|] eqn:Er; [|by rewrite (load_none _ Er) in H].
    rewrite (load_row _ _ Er) in H. destruct (checkpoint_revision _) as [r|] eqn:E; [|done]. destruct (unprotect _ _); [|done].
    injection H as <-. by eapply revision_range.
Qed.
End Instance_.
(** the source name of a channel the constructor accepts is one the journal accepts *)
Lemma contains_forall c f s : (forall a, f a = true -> Ascii.eqb c a = false) -> str_forallb f s = true -> str_contains c s = false.
Proof.
  intros Hf. induction s as [|a s IH]; [done|]. cbn. intros [Ha Hs]%andb_true_iff. by rewrite (Hf a Ha), IH.
Qed.
Lemma channel_source_valid channels w : valid_channels channels = true -> w_channel w ∈ channels -> validate_source (source_name w) = Ok tt.
Proof.
  intros Hv Hin. unfold valid_channels in Hv. apply andb_true_iff in Hv as [_ Hv]. rewrite forallb_forall in Hv.
  apply list_elem_of_In, Hv in Hin. apply andb_true_iff in Hin as [[_ Hlen]%andb_true_iff Hch]. apply Z.leb_le in Hlen.
  assert (Hc : forall c, c ∈ [newline; carriage_return; zero] -> str_contains c (source_name w) = false).
  { intros c Hc. unfold source_name. apply (contains_forall c (fun a => negb (code a =? 13) && negb (code a =? 10) && negb (code a =? 0))).
    - intros a Ha. rewrite !elem_of_cons, elem_of_nil in Hc. destruct (Ascii.eqb_spec c a) as [->|]; [|done].
      by destruct Hc as [->|[->|[->|[]]]].
    - cbn. exact Hch. }
  unfold validate_source, single_line. rewrite !Hc by (rewrite !elem_of_cons; auto).
  unfold source_name. change (str_empty ("winevt:v1:" +:+ w_channel w)) with false. cbn [orb negb andb].
  rewrite slen_app. change (slen "winevt:v1:") with 10. destruct (Z.ltb_spec 512 (10 + slen (w_channel w))); [lia|done].
Qed.
