(* ===== verification/EventLogExample.v ===== *)
(** * A life of an event log worker

    A first start with an empty checkpoint, a record whose commit is stored while
    its answer is lost, a crash, and the resumption behind that record. *)

From S2P Require Import Prelude Telemetry Ledger Json Command EventLog EventLogFacts.

Module EventLogExample.
(** ** A text form of cursors *)
Fixpoint ones (n : nat) (s : string) : string := match n with O => s | S n => String "1" (ones n s) end.
Definition enc (s rest : string) : string := ones (String.length s) (String "0" (s +:+ rest)).
Fixpoint count_ones (s : string) : nat * string :=
  match s with
  | String c s' => if Ascii.eqb c "1" then let '(n, r) := count_ones s' in (S n, r) else (O, s')
  | "" => (O, "")
  end.
Definition dec (s : string) : string * string := let '(n, r) := count_ones s in (str_take n r, str_drop n r).
Lemma dec_enc s rest : dec (enc s rest) = (s, rest).
Proof.
  unfold dec, enc. assert (E : forall n r, count_ones (ones n (String "0" r)) = (n, r)).
  { induction n as [|n IH]; intros r; [done|]. cbn. by rewrite IH. }
  rewrite E. by rewrite str_take_app, str_drop_app.
Qed.
Definition dump (j : json) : string :=
  match j with
  | JObj [(_, JStr b); _; (_, JStr i); (_, JBool k); (_, JStr g); (_, JStr o)] =>
      String "{" (String (if k then "t" else "f") (enc b (enc i (enc g (enc o "")))))
  | _ => ""
  end.
Definition json_parse (s : string) : option json :=
  match s with
  | String _ (String k s) =>
      let '(b, s) := dec s in let '(i, s) := dec s in let '(g, s) := dec s in let '(o, _) := dec s in
      Some (JObj [("bookmark_xml", JStr b); ("format", JStr cursor_format); ("last_record_id", JStr i);
                  ("last_record_id_known", JBool (Ascii.eqb k "t")); ("log_generation", JStr g); ("oldest_record_id", JStr o)])
  | _ => None
  end.
Lemma cursor_text b log id known : exists rest, dump (cursor_json b log id known) = String "{" rest.
Proof. rewrite cursor_sorted. eexists. reflexivity. Defined.
Lemma cursor_parse b log id known : json_parse (dump (cursor_json b log id known)) = Some (cursor_json b log id known).
Proof. rewrite cursor_sorted. cbn [dump text_of json_parse]. rewrite !dec_enc. by destruct known. Qed.

(** ** A journal whose answers may get lost *)
Record Store := { cp : option SavedCheckpoint; lines : list string; answers : list bool }.
Definition fits (r : Z) : bool := (0 <=? r) && (r <=? u64_max).
Definition commit (line cursor : string) (revision : Z) (s : Store) : bool * Store :=
  let next := Some {| sc_revision := revision + 1; sc_value := cursor |} in
  if bool_decide (revision_of (cp s) = revision /\ fits (revision + 1) = true)
  then (default true (head (answers s)), {| cp := next; lines := lines s ++ [line]; answers := tail (answers s) |})
  else (bool_decide (cp s = next /\ fits (revision + 1) = true), s).
Definition load (s : Store) : result (option SavedCheckpoint) :=
  if fits (revision_of (cp s)) then Ok (cp s) else Throw (runtime_error "revision").
#[global] Instance store_journal : CheckpointJournal Store := {|
  c_load := load; c_commit := commit;
  c_persist line s := (true, {| cp := cp s; lines := lines s ++ [line]; answers := answers s |})
|}.
#[global] Instance store_laws : CheckpointJournalLaws Store.
Proof.
  constructor.
  - intros line cursor revision s x Hx H0. cbn [c_load c_commit store_journal] in *. unfold commit.
    case_bool_decide as E; [right|by left]. destruct E as [E F]. unfold load in *. cbn [fst snd cp revision_of sc_revision]. rewrite F.
    split; [|done]. destruct (fits _); [|done]. by injection Hx as <-.
  - intros line cursor revision s s' H H0. cbn [c_load c_commit store_journal] in *. unfold commit in H.
    case_bool_decide as E.
    + destruct E as [E F]. injection H as _ <-. unfold load. cbn [cp revision_of sc_revision]. by rewrite F.
    + injection H as H <-. apply bool_decide_eq_true in H as [H F]. unfold load. by rewrite H; cbn [revision_of sc_revision]; rewrite F.
  - done.
  - intros s c. cbn [c_load store_journal]. unfold load. destruct (fits _) eqn:F; [|done]. intros [= E]. rewrite E in F.
    unfold fits in F. cbn [revision_of] in F. lia.
Defined.

(** ** A channel with two records *)
Definition narrow (l : list Z) : option string := Some (string_of_list_ascii ((fun z => ascii_of_nat (Z.to_nat z)) <$> l)).
Definition rendering (s : string) : Rendering := {|
  r_sized := false; r_error := 122; r_required := 2 * (slen s + 1);
  r_fill := inr (2 * (slen s + 1), (code <$> list_ascii_of_string s) ++ [0]) |}.
Definition entry (id : Z) (text bookmark : string) : LogRecord := {| lr_id := id; lr_xml := rendering text; lr_bookmark := bookmark |}.
Definition channel_log : Log := {| history := [entry 7 "<a/>" "b7"; entry 9 "<b/>" "b9"]; removed := 0 |}.
Definition decoder (xml channel : string) : result DecodedWindowsEvent :=
  Ok {| dw_data := object [("decode_state", JStr "healthy"); ("rendered_xml", JStr xml)]; dw_time := None |}.
Definition factory (channel : string) (d : DecodedWindowsEvent) (gap : bool) : result string :=
  Ok ((if gap then "gap " else "event ") +:+ match find "rendered_xml" (dw_data d) with Some (JStr s) => s | _ => "" end).
Definition info : ChannelLogInfo := channel_log_info 133 2 7 (Some 9).
Abbreviation state := (@System Store).
Definition s0 : state := {|
  sys_worker := new_worker "System"; sys_control := looping; sys_journal := {| cp := None; lines := []; answers := [false] |};
  sys_log := channel_log; sys_commits := [] |}.
(** the steps, as functions *)
Definition begins (s : state) : state := match load (sys_journal s) with
  | Ok saved => moves s (settle (bool_decide (is_Some saved)) 1 (begin_iteration json_parse dump factory (sys_worker s) saved (Some true) info 1))
  | Throw _ => s end.
Definition subscribes (n : nat) (s : state) : state := match sys_control s with
  | resuming it => moves s (settle (it_had it) 2 (subscribed factory (sys_worker s) it n 2)) | _ => s end.
Definition pulls (s : state) : state := match sys_control s with
  | pulling it i => match history (sys_log s) !! i with
                    | Some r => moves s (settle (it_had it) 3 (pulled narrow dump decoder factory (sys_worker s) it i r 3))
                    | None => s end
  | _ => s end.
Definition commits_ (s : state) : state := match sys_control s with
  | accepting p =>
      let '(b, j) := (if String.eqb (p_cursor p) "" then c_persist (p_line p) (sys_journal s)
                      else c_commit (p_line p) (p_cursor p) (p_revision p) (sys_journal s)) in
      let o := answered p b 4 (sys_worker s) in
      {| sys_worker := o.1; sys_control := o.2; sys_journal := j; sys_log := sys_log s;
         sys_commits := if String.eqb (p_cursor p) "" then sys_commits s else commits p (sys_journal s) j (sys_commits s) |}
  | _ => s end.
Definition crashes (s : state) : state := moves s (new_worker (w_channel (sys_worker s)), looping).
Definition s1 : state := begins s0.
Definition s2 : state := subscribes 0 s1.
Definition s3 : state := commits_ s2.
Definition s4 : state := pulls s3.
Definition s5 : state := commits_ s4.
Definition s6 : state := crashes s5.
Definition s7 : state := begins s6.
Definition s8 : state := subscribes 1 s7.
Definition s9 : state := commits_ s8.
Definition s10 : state := pulls s9.
Definition s11 : state := commits_ s10.
Example life_ends : sys_commits s11 = [of_record 0 "event <a/>" false; of_record 1 "event <b/>" false] /\
  lines (sys_journal s11) = ["gap "; "event <a/>"; "gap "; "event <b/>"].
Proof. vm_compute. done. Qed.
Abbreviation step := (Step narrow json_parse dump decoder factory).
Lemma begins_step s saved : sys_control s = looping -> load (sys_journal s) = Ok saved -> step s (begins s).
Proof. intros Hc Hl. unfold begins. rewrite Hl. by apply step_begin. Defined.
Lemma oldest_step s it : sys_control s = resuming it -> bc_xml (it_cursor it) = "" -> step s (subscribes (removed (sys_log s)) s).
Proof. intros Hc He. unfold subscribes. rewrite Hc. by apply step_oldest. Defined.
Lemma resume_step s it i r : sys_control s = resuming it -> bc_xml (it_cursor it) <> "" -> history (sys_log s) !! i = Some r ->
  (removed (sys_log s) <= i)%nat -> lr_bookmark r = bc_xml (it_cursor it) -> step s (subscribes (S i) s).
Proof. intros Hc He Hi Hr Hb. unfold subscribes. rewrite Hc. by eapply step_resume. Defined.
Lemma pulls_step s it i r : sys_control s = pulling it i -> history (sys_log s) !! i = Some r -> (removed (sys_log s) <= i)%nat ->
  step s (pulls s).
Proof. intros Hc Hi Hr. unfold pulls. rewrite Hc, Hi. by apply step_pull. Defined.
Lemma commits_step s p : sys_control s = accepting p -> step s (commits_ s).
Proof.
  intros Hc. unfold commits_. rewrite Hc. destruct (String.eqb_spec (p_cursor p) "") as [E|E].
  - destruct (c_persist _ _) as [b j] eqn:Ej. by apply step_persist.
  - destruct (c_commit _ _ _ _) as [b j] eqn:Ej. by apply step_commit.
Defined.
Lemma life : Run narrow json_parse dump decoder factory s0 s11.
Proof.
  eapply rtc_l; [apply (begins_step s0 None); vm_compute; reflexivity|].
  eapply rtc_l; [eapply (oldest_step s1); vm_compute; reflexivity|].
  eapply rtc_l; [eapply (commits_step s2); vm_compute; reflexivity|].
  eapply rtc_l; [eapply (pulls_step s3); vm_compute; first [reflexivity|constructor]|].
  eapply rtc_l; [eapply (commits_step s4); vm_compute; reflexivity|].
  eapply rtc_l; [apply (step_crash _ _ _ _ _ s5)|].
  eapply rtc_l; [eapply (begins_step s6); vm_compute; reflexivity|].
  eapply rtc_l; [eapply (resume_step s7); [vm_compute; reflexivity|vm_compute; discriminate| |vm_compute; constructor|]; vm_compute; reflexivity|].
  eapply rtc_l; [eapply (commits_step s8); vm_compute; reflexivity|].
  eapply rtc_l; [eapply (pulls_step s9); vm_compute; first [reflexivity|repeat constructor]|].
  eapply rtc_l; [eapply (commits_step s10); vm_compute; reflexivity|].
  apply rtc_refl.
Qed.
Lemma first_start : starting json_parse "System" None 0 s0.
Proof.
  constructor; [reflexivity..| |].
  - split; [apply (bool_decide_unpack _); vm_compute; reflexivity|repeat constructor; discriminate].
  - exists None. split; [vm_compute; reflexivity|]. split; [reflexivity|]. split; [discriminate|reflexivity].
Qed.
End EventLogExample.
Import EventLogExample.
Lemma event_log_no_silent_gap_witness :
  sys_commits s11 = [of_record 0 "event <a/>" false; of_record 1 "event <b/>" false] /\
  walk (removed (sys_log s11)) None (sys_commits s11) /\
  (exists x, c_load (sys_journal s11) = Ok x /\ revision_of x = 0 + zlen (sys_commits s11)).
Proof.
  destruct (event_log_no_silent_gap narrow json_parse dump decoder factory cursor_text cursor_parse "System" None 0 s0 s11 first_start life)
    as (Hw & _ & (x & Hx & Hr & _) & _).
  split; [vm_compute; reflexivity|]. split; [exact Hw|]. exists x. split; [exact Hx|exact Hr].
Defined.
