(* ===== verification/EventDecoder.v ===== *)
(** * Decoding Windows events

    [collectors/windows_event_decoder.cpp], the classification of PowerShell events
    ([decode] of [collectors/powershell_script_telemetry.cpp]) and the typed fields of
    authentication events ([collectors/authentication_telemetry.cpp]).  The XML
    parser and printer and the two calendar functions of Windows are parameters.
    After the definitions, the theorem: every text decodes to evidence that retains
    it, and what is called healthy is complete. *)

From S2P Require Import Prelude Telemetry Ledger Json Command CommandFacts SysmonDecoder AuditSemantics EventLog EventLogFacts.

(** ** Documents *)
Definition child (parent : option Element) (name : string) : option Element := parent ≫= FirstChildElement name.
Definition text_json (node : option Element) : json := opt_json JStr (node ≫= e_text).
Definition attribute (node : option Element) (name : string) : json := opt_json JStr (node ≫= Attribute name).
Definition repeated_in (parent : option Element) (name : string) : bool :=
  match parent with Some p => repeated name p | None => false end.
Definition number (input : json) (maximum : Z) : option Z :=
  match input with
  | JStr v => match from_chars_all u64_max v with Some z => if maximum <? z then None else Some z | None => None end
  | _ => None
  end.
Fixpoint put_all (l : list (string * json)) (j : json) : json :=
  match l with [] => j | (k, v) :: l => put_all l (set_member k v j) end.
(** [j.value(k, false)] *)
Definition value_bool (k : string) (j : json) : result bool :=
  match find k j with Some v => get_bool v | None => Ok false end.

(** ** Times *)
Section Times.
(** year, month, day, hour, minute, second *)
Context (SystemTimeToFileTime : list Z -> option Z) (FileTimeToSystemTime : Z -> option (list Z)).
Definition epoch_ticks : Z := 116444736000000000.
Definition tick_bound : Z := i64_max / 100.
Definition native_ticks (system : list Z) : option Z :=
  ticks ← SystemTimeToFileTime system;
  roundtrip ← FileTimeToSystemTime ticks;
  if bool_decide (roundtrip = system) then Some ticks else None.
Definition timestamp_text (value : string) : option UtcTimestamp :=
  if (slen value <? 20) || (28 <? slen value) || negb (char_at value 4 "-") || negb (char_at value 7 "-") || negb (char_at value 10 "T")
     || negb (char_at value 13 ":") || negb (char_at value 16 ":") || negb (char_at value (String.length value - 1) "Z") then None
  else
    year ← digits value 0 4; month ← digits value 5 2; day ← digits value 8 2;
    hour ← digits value 11 2; minute ← digits value 14 2; second ← digits value 17 2;
    fraction ← (if slen value =? 20 then Some 0
                else if negb (char_at value 19 ".") || (slen value <? 22) then None
                else let length := (String.length value - 21)%nat in
                     parsed ← digits value 20 length; Some (parsed * 10 ^ Z.of_nat (7 - length)));
    ticks ← native_ticks [year; month; day; hour; minute; second];
    if epoch_ticks <=? ticks then
      if (tick_bound <? ticks - epoch_ticks) || (tick_bound - (ticks - epoch_ticks) <? fraction) then None
      else Some ((ticks - epoch_ticks + fraction) * 100)
    else if (tick_bound <? epoch_ticks - ticks) || (epoch_ticks - ticks <? fraction) then None
    else Some (- ((epoch_ticks - ticks - fraction) * 100)).
Definition timestamp (input : json) : option UtcTimestamp := match input with JStr v => timestamp_text v | _ => None end.
End Times.

(** ** Authentication events *)
Definition auth_integer (text : string) (radix16 : bool) (maximum : Z) : option Z :=
  let digits := if radix16 && (starts_with "0x" text || starts_with "0X" text) then str_drop 2 text else text in
  let value := if radix16 then (if str_empty digits then None else hex_text digits 0) else from_chars_all u64_max digits in
  v ← value; if (u64_max <? v) || (maximum <? v) then None else Some v.
Definition auth_ids : list Z := [4624; 4625; 4634; 4648; 4672; 4768; 4769; 4776].
Definition auth_event (event : json) : option (Z * json) :=
  if negb (is_object event) then None
  else if negb (is_text "Security" (value_null "requested_channel" event)) || negb (is_text "Security" (value_null "native_channel" event))
       || negb (is_text "Microsoft-Windows-Security-Auditing" (value_null "provider_name" event))
       || is_text "ambiguous_system_fields" (value_null "validation_error" event) then None
  else system ← find "system_fields" event;
       if negb (is_object system) then None
       else match value_null "EventID" system with
            | JStr raw => id ← auth_integer raw false 65535;
                          if bool_decide (id ∈ auth_ids) then Some (id, value_null "Version" system) else None
            | _ => None
            end.
Definition known_version (id : Z) (version : json) : bool :=
  match version with
  | JStr raw => match auth_integer raw false 65535 with
                | Some v => if id =? 4624 then v <=? 2 else if (id =? 4768) || (id =? 4769) then (v =? 0) || (v =? 2) else v =? 0
                | None => false
                end
  | _ => false
  end.
(** the named fields, the first of each name, and the names that occur again; [None]: a bound was passed *)
Fixpoint auth_fields (l : list json) (bytes : Z) (values : list (string * json)) (duplicate : list string)
  : option (list (string * json) * list string) :=
  match l with
  | [] => Some (values, duplicate)
  | f :: l =>
      match is_object f && is_text "Data" (value_null "element" f), value_null "name" f with
      | true, JStr name =>
          let value := value_null "text" f in
          let size := match value with JStr s => slen s | _ => 0 end in
          if (128 <? slen name) || (65536 <? size) || (196608 - bytes <? slen name + size) then None
          else match find_member name values with
               | Some _ => auth_fields l (bytes + slen name + size) values (name :: duplicate)
               | None => auth_fields l (bytes + slen name + size) (values ++ [(name, value)]) duplicate
               end
      | _, _ => auth_fields l bytes values duplicate
      end
  end.
(** what was found missing, and whether a field was invalid *)
Record AuthState := { au_missing : list json; au_invalid : bool }.
Definition AuthM (A : Type) : Type := AuthState -> A * AuthState.
#[global] Instance AuthM_ret : MRet AuthM := fun A a s => (a, s).
#[global] Instance AuthM_bind : MBind AuthM := fun A B f m s => let '(a, s) := m s in f a s.
Definition missing (field reason : string) : json := object [("field", JStr field); ("reason", JStr reason)].
Definition unavailable_ (invalid : bool) (field reason : string) : AuthM unit := fun s =>
  (tt, {| au_missing := au_missing s ++ [missing field reason]; au_invalid := au_invalid s || invalid |}).
Section Fields.
Context (values : list (string * json)) (duplicate : list string).
Definition auth_text (name : string) : AuthM json :=
  if bool_decide (name ∈ duplicate) then _ ← unavailable_ true name "ambiguous_source_field"; mret JNull
  else match find_member name values with
       | Some (JStr v) => if str_empty v || String.eqb v "-" then _ ← unavailable_ false name "source_not_reported"; mret JNull
                          else mret (JStr v)
       | _ => _ ← unavailable_ false name "source_not_reported"; mret JNull
       end.
Definition auth_number (name : string) (radix16 : bool) (maximum : Z) : AuthM json :=
  raw ← auth_text name;
  match raw with
  | JStr v => match auth_integer v radix16 maximum with
              | Some n => mret (JStr (to_string n))
              | None => _ ← unavailable_ true name "invalid_source_number"; mret JNull
              end
  | _ => mret JNull
  end.
Definition account (sid name domain luid : string) : AuthM json :=
  a ← auth_text sid; b ← auth_text name; c ← auth_text domain; d ← auth_number luid true u64_max;
  mret (object [("sid", a); ("name", b); ("domain", c); ("logon_id", d)]).
Definition session_field (id : Z) : option string :=
  if (id =? 4624) || (id =? 4634) then Some "TargetLogonId"
  else if (id =? 4625) || (id =? 4648) || (id =? 4672) then Some "SubjectLogonId" else None.
Definition operation_of (id : Z) : string :=
  if id =? 4624 then "logon" else if id =? 4625 then "logon_failed" else if id =? 4634 then "logoff"
  else if id =? 4648 then "explicit_credentials" else if id =? 4672 then "privileges_assigned"
  else if id =? 4768 then "kerberos_tgt_request" else if id =? 4769 then "kerberos_service_ticket_request" else "credential_validation".
Definition outcome_text (id : Z) (status : json) : string :=
  if id =? 4624 then "success" else if id =? 4625 then "failure"
  else if ((id =? 4768) || (id =? 4769) || (id =? 4776)) && negb (is_null status)
  then (if is_text "0" status then "success" else "failure") else "not_reported".
Definition typed_fields (id : Z) (out : json) : AuthM json :=
  subject ← account "SubjectUserSid" "SubjectUserName" "SubjectDomainName" "SubjectLogonId";
  target ← account (if id =? 4768 then "TargetSid" else "TargetUserSid") "TargetUserName" "TargetDomainName" "TargetLogonId";
  type ← auth_number "LogonType" false u32_max;
  ip ← auth_text "IpAddress"; port ← auth_number "IpPort" false 65535;
  workstation ← auth_text (if id =? 4776 then "Workstation" else "WorkstationName");
  package ← auth_text (if id =? 4776 then "PackageName" else "AuthenticationPackageName");
  status ← auth_number "Status" true u32_max; substatus ← auth_number "SubStatus" true u32_max;
  pid ← auth_number "ProcessId" true u32_max; executable ← auth_text "ProcessName"; guid ← auth_text "LogonGuid";
  elevated ← auth_text "ElevatedToken";
  let token := if is_text "%%1842" elevated then JBool true else if is_text "%%1843" elevated then JBool false else JNull in
  _ ← (if negb (is_null elevated) && is_null token then unavailable_ true "ElevatedToken" "unsupported_source_value" else mret tt);
  let field := session_field id in
  mret (put_all [("subject", subject); ("target", target);
    ("logon_type", match type with JStr t => opt_json JUint (auth_integer t false u32_max) | _ => JNull end);
    ("source", object [("ip", ip); ("port", port); ("workstation", workstation)]); ("authentication_package", package);
    ("status", status); ("substatus", substatus);
    ("process", object [("observed_pid", pid); ("executable", executable); ("instance", JNull)]); ("logon_guid", guid);
    ("elevated_token", token); ("session_id_field", opt_json JStr field);
    ("session_observed_logon_id", match field with
                                  | Some f => member "logon_id" (if String.eqb f "TargetLogonId" then target else subject)
                                  | None => JNull
                                  end);
    ("session_role", JStr (if id =? 4624 then "new_logon" else if id =? 4634 then "ended_logon"
                           else if bool_decide (is_Some field) then "subject_logon" else "not_reported"));
    ("operation", JStr (operation_of id)); ("outcome", JStr (outcome_text id status));
    ("outcome_scope", JStr "native_event_only_no_local_session_or_process_inference")] out).
End Fields.
Definition auth_base (id : Z) (version : json) : json := object [
  ("format", JStr "windows_authentication_v1"); ("event_id", JUint id); ("event_version", version); ("state", JStr "degraded");
  ("confidence", JStr "reported"); ("process_instance", JNull); ("logon_session_entity", JNull); ("event_boot_id", JNull);
  ("raw_fields_retained", JBool true)].
Definition auth_missing : list json :=
  [missing "process_instance" "source_does_not_supply_native_creation_token"; missing "logon_session_entity" "native_event_boot_unverified"].
Definition decode_authentication (event : json) : result (option json) :=
  match auth_event event with
  | None => Ok None
  | Some (id, version) =>
      let refuse reason := Ok (Some (set_member "unavailable" (JArr (auth_missing ++ [missing "typed_fields" reason])) (auth_base id version))) in
      ambiguous ← value_bool "event_data_ambiguous" event;
      if ambiguous : bool then refuse "ambiguous_source_fields"
      else if negb (known_version id version) then refuse "unsupported_or_missing_event_version"
      else match default (JArr []) (find "event_data" event) with
           | JArr fields =>
               if 1024 <? zlen fields then refuse "source_field_bound_exceeded"
               else
                 exceeded ← value_bool "event_data_bound_exceeded" event;
                 if exceeded : bool then refuse "source_field_bound_exceeded"
                 else match auth_fields fields 0 [] [] with
                      | None => refuse "source_field_bound_exceeded"
                      | Some (values, duplicate) =>
                          let '(out, s) := typed_fields values duplicate id (auth_base id version) {| au_missing := auth_missing; au_invalid := false |} in
                          Ok (Some (put_all [("unavailable", JArr (au_missing s));
                            ("state", JStr (if au_invalid s || negb (bool_decide (duplicate = [])) then "partial" else "decoded"))] out))
                      end
           | _ => refuse "source_field_bound_exceeded"
           end
  end.

(** ** Events *)
Section Events.
Context (Parse : string -> string + list Element) (print_element : Element -> string).
Context (SystemTimeToFileTime : list Z -> option Z) (FileTimeToSystemTime : Z -> option (list Z)).
(** the document of a text within the bounds; the decoder of the channel accepts an empty text *)
Definition parse_event_xml (xml : string) : option (list Element) :=
  if (196608 <? slen xml) || has_nul xml then None
  else match Parse xml with inr l => Some l | inl _ => None end.
(** the root, if it is the only element and an [Event] *)
Definition event_root (document : list Element) : option Element :=
  match document with [root] => if String.eqb (e_name root) "Event" then Some root else None | _ => None end.
Definition data_entry (e : Element) : json := object [
  ("element", JStr (e_name e)); ("name", attribute (Some e) "Name"); ("text", text_json (Some e));
  ("element_xml", JStr (print_element e))].
Definition system_names : list string := ["EventID"; "Version"; "Level"; "Task"; "Opcode"; "Keywords"; "EventRecordID"].
Definition system_fields (system : option Element) : json := object ((fun n => (n, text_json (child system n))) <$> system_names).

(** *** PowerShell *)
Definition uncertain : json := object [("status", JStr "uncertain");
  ("basis", JStr "event System/Execution ProcessID is event-writer metadata and may not identify the script execution subject")].
Definition unverified_token : json := object [("status", JStr "unverified");
  ("basis", JStr "PowerShell EventData user fields are source claims; no token handle or logon-session join is verified here")].
Definition powershell_base (xml channel : string) : json := object [
  ("format", JStr "powershell_script_event_v1"); ("requested_channel", JStr channel); ("rendered_xml", JStr xml);
  ("event_data", JArr []); ("system_fields", JObj []); ("semantic_family", JStr "powershell"); ("semantic_event", JNull);
  ("user_claims", JArr []); ("process_attribution", uncertain); ("token_attribution", unverified_token);
  ("script_block_assembled", JBool false)].
Definition powershell_degraded (error : string) (out : json) : json :=
  put_all [("decode_state", JStr "degraded"); ("validation_error", JStr error)] out.
(** the member a field is shown as *)
Definition claim_member (field : string) : option string :=
  if String.eqb field "ScriptBlockText" || String.eqb field "Message" then Some "script_block_text_fragment"
  else if String.eqb field "ContextInfo" then Some "module_context_info"
  else if String.eqb field "Payload" then Some "module_payload"
  else if String.eqb field "Path" || String.eqb field "ScriptName" || String.eqb field "CommandPath" then Some "script_path_claim"
  else if String.eqb field "CommandName" then Some "command_name_claim"
  else if String.eqb field "CommandType" then Some "command_type_claim"
  else if String.eqb field "RunspaceId" then Some "runspace_id_claim"
  else if String.eqb field "PipelineId" then Some "pipeline_id_claim" else None.
Definition push (k : string) (v : json) (j : json) : json :=
  match find k j with Some (JArr l) => set_member k (JArr (l ++ [v])) j | _ => j end.
(** script block id, message number and total *)
Record Fragment := { fr_block : string; fr_number : string; fr_total : string }.
Definition powershell_item (item : Element) (s : json * Fragment) : json * Fragment :=
  let '(out, f) := s in
  let field := default "" (Attribute "Name" item) in
  let value := default "" (e_text item) in
  let out := push "event_data" (data_entry item) out in
  if String.eqb field "ScriptBlockId" then (out, {| fr_block := value; fr_number := fr_number f; fr_total := fr_total f |})
  else if String.eqb field "MessageNumber" then (out, {| fr_block := fr_block f; fr_number := value; fr_total := fr_total f |})
  else if String.eqb field "MessageTotal" then (out, {| fr_block := fr_block f; fr_number := fr_number f; fr_total := value |})
  else match claim_member field with
       | Some m => (set_member m (JStr value) out, f)
       | None => if String.eqb field "User" || String.eqb field "UserId" || String.eqb field "ConnectedUser"
                 then (push "user_claims" (object [("field", JStr field); ("value", JStr value)]) out, f)
                 else (out, f)
       end.
Definition kOperational : string := "Microsoft-Windows-PowerShell/Operational".
Definition powershell_label (operational : bool) (id : string) : string :=
  if operational && String.eqb id "4103" then "powershell_module_logging"
  else if operational && String.eqb id "4104" then "powershell_script_block_fragment"
  else if operational && String.eqb id "4105" then "powershell_script_block_invocation_started"
  else if operational && String.eqb id "4106" then "powershell_script_block_invocation_finished"
  else if String.eqb id "400" then "powershell_engine_started"
  else if String.eqb id "403" then "powershell_engine_stopped"
  else "powershell_event_unclassified".
Definition or_null (s : string) : json := if str_empty s then JNull else JStr s.
Definition powershell_event (event : Element) (xml channel : string) : json :=
  let system := FirstChildElement "System" event in
  let ambiguous := negb (bool_decide (is_Some system)) || repeated "System" event
                   || existsb (repeated_in system) ["Provider"; "EventID"; "Version"; "EventRecordID"; "Channel"; "Execution"; "Security"] in
  let provider := child system "Provider" in
  let native_channel := text_json (child system "Channel") in
  let matches := is_text channel native_channel in
  let fields := system_fields system in
  let out := put_all [("system_fields_ambiguous", JBool ambiguous); ("provider_name", attribute provider "Name");
    ("provider_guid", attribute provider "Guid"); ("native_channel", native_channel); ("channel_matches_request", JBool matches);
    ("system_fields", fields);
    ("event_writer", object [("pid", attribute (child system "Execution") "ProcessID"); ("tid", attribute (child system "Execution") "ThreadID");
                             ("user_sid", attribute (child system "Security") "UserID")])] (powershell_base xml channel) in
  let items := match FirstChildElement "EventData" event with Some d => e_children d | None => [] end in
  let many := (1024 <? zlen items) in
  let '(out, f) := foldl (fun s i => powershell_item i s) (out, {| fr_block := ""; fr_number := ""; fr_total := "" |}) (take 1024 items) in
  let out := if many then set_member "event_data_bound_exceeded" (JBool true) out else out in
  let id := match find "EventID" fields with Some (JStr s) => s | _ => "" end in
  let operational := String.eqb channel kOperational in
  let trusted := negb ambiguous && is_text "Microsoft-Windows-PowerShell" (attribute provider "Name") && matches
                 && (operational || String.eqb channel "Windows PowerShell") in
  let out := set_member "semantic_event" (JStr (if trusted then powershell_label operational id
                                                else "powershell_event_unclassified_source_mismatch")) out in
  let out := if trusted && operational && String.eqb id "4104"
             then set_member "script_block_fragment" (object [("script_block_id", or_null (fr_block f)); ("message_number", or_null (fr_number f));
                    ("message_total", or_null (fr_total f)); ("assembled", JBool false); ("assembly_performed", JBool false);
                    ("text_is_fragment_only", JBool true)]) out
             else out in
  set_member "decode_state" (JStr (if matches && negb ambiguous && negb many then "healthy" else "degraded")) out.
Definition decode_powershell_event_xml (xml channel : string) : json :=
  let out := powershell_base xml channel in
  if str_empty xml || (196608 <? slen xml) || has_nul xml then powershell_degraded "xml_size_or_nul_bound" out
  else match Parse xml with
       | inl _ => powershell_degraded "xml_uninterpreted" out
       | inr document => match event_root document with
                         | None => powershell_degraded "event_root_uninterpreted" out
                         | Some event => powershell_event event xml channel
                         end
       end.

(** *** Labels *)
Definition security_labels : list (Z * string) :=
  [(1102, "security_log_cleared"); (4616, "system_time_changed"); (4624, "logon_success"); (4625, "logon_failure"); (4634, "logoff");
   (4647, "user_initiated_logoff"); (4648, "explicit_credentials"); (4672, "special_privileges_assigned"); (4688, "audit_process_created");
   (4689, "audit_process_exited"); (4697, "audit_service_installed"); (4698, "audit_task_created"); (4699, "audit_task_deleted");
   (4700, "audit_task_enabled"); (4701, "audit_task_disabled"); (4702, "audit_task_updated"); (4719, "audit_policy_changed");
   (4720, "user_account_created"); (4722, "user_account_enabled"); (4723, "password_change_attempt"); (4724, "password_reset_attempt");
   (4725, "user_account_disabled"); (4726, "user_account_deleted"); (4728, "security_group_member_added");
   (4732, "security_group_member_added"); (4756, "security_group_member_added"); (4729, "security_group_member_removed");
   (4733, "security_group_member_removed"); (4757, "security_group_member_removed"); (4740, "account_locked_out");
   (4768, "kerberos_tgt_requested"); (4769, "kerberos_service_ticket_requested"); (4771, "kerberos_preauthentication_failed");
   (4776, "credential_validation"); (4778, "session_reconnected"); (4779, "session_disconnected")].
Definition powershell_labels : list (Z * string) :=
  [(4103, "powershell_module_logging"); (4104, "powershell_script_block_fragment");
   (4105, "powershell_script_block_invocation_started"); (4106, "powershell_script_block_invocation_finished")].
Definition service_labels : list (Z * string) :=
  [(7045, "service_installed"); (7040, "service_start_type_changed"); (7036, "service_state_reported");
   (7034, "service_terminated_unexpectedly")].
Definition task_labels : list (Z * string) := [(106, "task_registered"); (141, "task_registration_deleted"); (142, "task_deleted")].
Definition wmi_labels : list (Z * string) := [(5857, "wmi_provider_started"); (5858, "wmi_client_operation_reported")].
Definition defender_labels : list (Z * string) :=
  [(1116, "defender_threat_detected"); (1117, "defender_remediation_action_reported"); (1121, "defender_asr_block_reported");
   (1122, "defender_asr_audit_reported"); (1129, "defender_asr_user_override_reported"); (3002, "defender_realtime_protection_failure");
   (3007, "defender_realtime_protection_recovered"); (5000, "defender_realtime_protection_enabled");
   (5001, "defender_realtime_protection_disabled"); (5007, "defender_configuration_changed"); (5008, "defender_engine_failure");
   (5013, "defender_tamper_protection_blocked_change")].
Fixpoint label_of (id : Z) (l : list (Z * string)) : json :=
  match l with [] => JNull | (i, s) :: l => if i =? id then JStr s else label_of id l end.
Definition kTask : string := "Microsoft-Windows-TaskScheduler/Operational".
Definition kWmi : string := "Microsoft-Windows-WMI-Activity/Operational".
Definition kDefender : string := "Microsoft-Windows-Windows Defender/Operational".
Definition kDns : string := "Microsoft-Windows-DNS-Client/Operational".
Definition semantic_family (requested : string) (provider : json) : string :=
  let from c p := String.eqb requested c && is_text p provider in
  if from "Security" "Microsoft-Windows-Security-Auditing" then "security_audit"
  else if mentions "PowerShell" requested then "powershell"
  else if from kTask "Microsoft-Windows-TaskScheduler" then "task_scheduler"
  else if from kWmi "Microsoft-Windows-WMI-Activity" then "wmi_activity"
  else if mentions "Windows Defender" requested then "defender"
  else if from kDns "Microsoft-Windows-DNS-Client" then "dns_client"
  else if String.eqb requested "System" then "system" else "unclassified".
(** the label of an event whose id is known and whose channel is the requested one *)
Definition event_label (requested family : string) (provider : json) (id : Z) : json :=
  let from c p := String.eqb requested c && is_text p provider in
  if String.eqb family "security_audit" then label_of id security_labels
  else if from kOperational "Microsoft-Windows-PowerShell" then label_of id powershell_labels
  else if from "System" "Service Control Manager" then label_of id service_labels
  else if from kTask "Microsoft-Windows-TaskScheduler" then label_of id task_labels
  else if String.eqb family "wmi_activity" then label_of id wmi_labels
  else if from kDefender "Microsoft-Windows-Windows Defender" then label_of id defender_labels
  else if String.eqb family "dns_client" && (id =? 3008) then JStr "dns_query_completed" else JNull.
Definition unverified (l : list (string * json)) : json := object ([("state", JStr "unverified"); ("subject_process_id", JNull)] ++ l).
Definition semantics (role : json) (basis name : string) (attribution : json) (more : list (string * json)) : json := object ([
  ("event_role", role); ("source_label_basis", JStr basis); ("raw_event_data_preserved", JBool true);
  ("event_data_fields_interpreted", JBool false); (name, attribution)] ++ more).
(** the sections of the channels, each for its own provider *)
Definition channel_sections (requested family : string) (provider role user writer : json) : list (string * json) :=
  let role_in f := if String.eqb family f then role else JNull in
  let from c p := String.eqb requested c && is_text p provider in
  (if from kWmi "Microsoft-Windows-WMI-Activity" then [("wmi_activity_semantics",
     semantics (role_in "wmi_activity") "Microsoft Learn WMI troubleshooting guidance documents Operational events 5857 and 5858" "attribution"
       (unverified [("reported_security_user_id", user);
          ("reason", JStr "WMI event User and ClientProcessId fields, when present, remain source-reported and are not independently verified or correlated to a process instance")]) [])]
   else [])
  ++ (if from kDefender "Microsoft-Windows-Windows Defender" then [("defender_operational_semantics",
     semantics (role_in "defender") "Microsoft Defender Antivirus event documentation and ASR event guidance" "process_and_action_attribution"
       (unverified [("reason", JStr "raw event fields and reported writer metadata are not independently verified or correlated to a process instance")])
       [("privacy_scope", JStr "retained raw XML/EventData may include threat names, file paths, usernames, and security configuration values")])]
   else [])
  ++ (if from kTask "Microsoft-Windows-TaskScheduler" then [("task_scheduler_semantics",
     semantics (role_in "task_scheduler") "Microsoft Windows Event Forwarding intrusion detection guidance: Task Scheduler Operational events 106, 141, and 142"
       "actor_attribution"
       (unverified [("reported_event_writer_pid", writer); ("reported_security_user_id", user);
          ("reason", JStr "the cited source does not define EventData field templates; event writer metadata is not verified as the initiating actor or process")]) [])]
   else [])
  ++ (if from kDns "Microsoft-Windows-DNS-Client" then [("dns_client_semantics",
     semantics (if is_text "dns_query_completed" role then role else JNull) "Microsoft-Windows-DNS-Client Operational event 3008; query completion label only"
       "process_attribution"
       (unverified [("reported_event_writer_pid", writer);
          ("reason", JStr "event writer PID/TID are not verified as the DNS requester; no process instance or caller attribution is established")]) [])]
   else []).
Definition powershell_section (source : json) : json := object [
  ("semantic_event", value_null "semantic_event" source);
  ("decode_state", default (JStr "degraded") (find "decode_state" source));
  ("channel_matches_request", default (JBool false) (find "channel_matches_request" source));
  ("process_attribution", default (JObj []) (find "process_attribution" source));
  ("token_attribution", default (JObj []) (find "token_attribution" source)); ("script_block_assembled", JBool false);
  ("script_block_fragment", value_null "script_block_fragment" source)].

(** *** The decoder *)
Definition event_base (xml requested : string) : json := object [
  ("format", JStr "windows_event_xml_v1"); ("requested_channel", JStr requested); ("rendered_xml", JStr xml);
  ("native_binary_bytes_retained", JBool false); ("process_reference", JNull); ("actor_verified", JBool false);
  ("decode_state", JStr "degraded"); ("provider_name", JNull); ("event_record_id", JNull); ("event_data", JArr []);
  ("semantic_family", JStr "unclassified")].
Definition attach_security_semantics (requested : string) (data : json) : result json :=
  if negb (String.eqb requested "Security") then Ok data
  else
    semantics ← AuditSemantics.enrich data;
    let data := set_member "security_audit_semantics" semantics data in
    auth ← decode_authentication data;
    Ok (match auth with Some a => set_member "authentication" a data | None => data end).
Definition event_fields (root : Element) (requested xml : string) : DecodedWindowsEvent :=
  let system := FirstChildElement "System" root in
  let provider := child system "Provider" in
  let ambiguous := (bool_decide (is_Some system) && repeated "System" root)
    || existsb (repeated_in system) ["Provider"; "EventID"; "EventRecordID"; "TimeCreated"; "Channel"; "Execution"; "Security"; "Correlation"] in
  let fields := system_fields system in
  let id := number (member "EventID" fields) 65535 in
  let record := number (member "EventRecordID" fields) u64_max in
  let provider_name := attribute provider "Name" in
  let native_channel := text_json (child system "Channel") in
  let user := attribute (child system "Security") "UserID" in
  let writer := attribute (child system "Execution") "ProcessID" in
  let system_time := attribute (child system "TimeCreated") "SystemTime" in
  let event_time := if ambiguous then None else timestamp SystemTimeToFileTime FileTimeToSystemTime system_time in
  let items := match FirstChildElement "EventData" root with Some d => e_children d | None => [] end in
  let twice := repeated "EventData" root in
  let many := 1024 <? zlen items in
  let matches := is_text requested native_channel in
  let family := semantic_family requested provider_name in
  let role := match id with
              | Some i => if negb ambiguous && matches then event_label requested family provider_name i else JNull
              | None => JNull
              end in
  let data := put_all ([("provider_name", provider_name); ("provider_guid", attribute provider "Guid"); ("native_channel", native_channel);
      ("computer", text_json (child system "Computer")); ("system_fields", fields);
      ("event_record_id", if ambiguous then JNull else opt_json text_of record);
      ("execution", object [("reported_writer_pid", writer); ("reported_writer_tid", attribute (child system "Execution") "ThreadID");
                            ("subject_process_identity_verified", JBool false)]);
      ("security_user_id", user);
      ("correlation", object [("activity_id", attribute (child system "Correlation") "ActivityID");
                              ("related_activity_id", attribute (child system "Correlation") "RelatedActivityID")]);
      ("native_system_time", system_time)]
    ++ (if ambiguous then [("validation_error", JStr "ambiguous_system_fields")] else [])
    ++ (if twice then [("event_data_ambiguous", JBool true)] else [])
    ++ [("event_data", JArr (data_entry <$> take 1024 items))]
    ++ (if many then [("event_data_bound_exceeded", JBool true)] else [])
    ++ [("channel_matches_request", JBool matches); ("semantic_family", JStr family); ("semantic_event", role)]
    ++ (if negb ambiguous && matches && bool_decide (id = Some 4104) && String.eqb requested kOperational
           && is_text "Microsoft-Windows-PowerShell" provider_name then [("script_block_assembled", JBool false)] else [])
    ++ (if matches then channel_sections requested family provider_name role user writer else [])
    ++ (if String.eqb requested kOperational || String.eqb requested "Windows PowerShell"
        then [("powershell_source_semantics", powershell_section (decode_powershell_event_xml xml requested))] else [])
    ++ (if negb ambiguous && bool_decide (is_Some system) && bool_decide (is_Some provider) && bool_decide (is_Some id)
           && bool_decide (is_Some record) && bool_decide (is_Some event_time) && matches && negb many && negb twice
        then [("decode_state", JStr "healthy")] else [])) (event_base xml requested) in
  {| dw_data := data; dw_time := event_time |}.
Definition decode_windows_event_xml (xml requested : string) : result DecodedWindowsEvent :=
  let refused error :=
    data ← attach_security_semantics requested (set_member "validation_error" (JStr error) (event_base xml requested));
    Ok {| dw_data := data; dw_time := None |} in
  match parse_event_xml xml with
  | None => refused "xml_uninterpreted"
  | Some document =>
      match event_root document with
      | None => refused "event_root_uninterpreted"
      | Some root =>
          let d := event_fields root requested xml in
          data ← attach_security_semantics requested (dw_data d);
          Ok {| dw_data := data; dw_time := dw_time d |}
      end
  end.
End Events.

(** ** What the decoder promises *)
(** ** Members after many assignments *)
Fixpoint last_member (k : string) (l : list (string * json)) : option json :=
  match l with
  | [] => None
  | (k', v) :: l => match last_member k l with Some w => Some w | None => if String.eqb k k' then Some v else None end
  end.
Lemma find_put_all k l j : is_object j = true ->
  find k (put_all l j) = match last_member k l with Some v => Some v | None => find k j end.
Proof.
  revert j. induction l as [|[k' v] l IH]; intros j Hj; [done|]. cbn. rewrite IH by (by rewrite set_is_object).
  destruct (last_member k l); [done|]. rewrite find_set by done. by destruct (String.eqb k k').
Qed.
Lemma put_all_object l j : is_object (put_all l j) = is_object j.
Proof. revert j. induction l as [|[k v] l IH]; intros j; [done|]. cbn. by rewrite IH, set_is_object. Qed.
Lemma last_member_app k l l' : last_member k (l ++ l') = match last_member k l' with Some v => Some v | None => last_member k l end.
Proof. induction l as [|[k' v] l IH]; cbn; [by destruct (last_member k l')|]. rewrite IH. by destruct (last_member k l'). Qed.
Lemma last_member_if k (b : bool) l l' : last_member k (if b then l else l') = if b then last_member k l else last_member k l'.
Proof. by destruct b. Qed.
Lemma if_same {A} (b : bool) (x : A) : (if b then x else x) = x.
Proof. by destruct b. Qed.
Lemma sections_other k requested family p r u w :
  k ∉ ["wmi_activity_semantics"; "defender_operational_semantics"; "task_scheduler_semantics"; "dns_client_semantics"] ->
  last_member k (channel_sections requested family p r u w) = None.
Proof.
  intros Hk. unfold channel_sections. rewrite !last_member_app, !last_member_if. cbn [last_member].
  assert (E : forall n, n ∈ ["wmi_activity_semantics"; "defender_operational_semantics"; "task_scheduler_semantics"; "dns_client_semantics"] ->
    String.eqb k n = false) by (intros n Hn; apply String.eqb_neq; congruence).
  rewrite !E by (rewrite !elem_of_cons; auto 6). by rewrite !if_same.
Qed.

Section DecoderFacts.
Context (Parse : string -> string + list Element) (print_element : Element -> string).
Context (SystemTimeToFileTime : list Z -> option Z) (FileTimeToSystemTime : Z -> option (list Z)).
Abbreviation event_fields := (event_fields Parse print_element SystemTimeToFileTime FileTimeToSystemTime).
Abbreviation decode_windows_event_xml := (decode_windows_event_xml Parse print_element SystemTimeToFileTime FileTimeToSystemTime).
Ltac members := rewrite find_put_all by reflexivity; rewrite !last_member_app, !last_member_if;
  rewrite sections_other by (rewrite !elem_of_cons, elem_of_nil; naive_solver); cbn [last_member String.eqb Ascii.eqb Bool.eqb]; rewrite ?if_same.
Lemma fields_xml root requested xml : find "rendered_xml" (dw_data (event_fields root requested xml)) = Some (JStr xml).
Proof. unfold EventDecoder.event_fields. cbv zeta. cbn [dw_data]. members. reflexivity. Qed.
Lemma fields_requested root requested xml : find "requested_channel" (dw_data (event_fields root requested xml)) = Some (JStr requested).
Proof. unfold EventDecoder.event_fields. cbv zeta. cbn [dw_data]. members. reflexivity. Qed.
Lemma fields_object root requested xml : is_object (dw_data (event_fields root requested xml)) = true.
Proof. by eapply find_is_object, fields_xml. Qed.
Lemma fields_exceeded root requested xml : let d := dw_data (event_fields root requested xml) in
  find "event_data_bound_exceeded" d = None \/ find "event_data_bound_exceeded" d = Some (JBool true).
Proof.
  cbv zeta. unfold EventDecoder.event_fields. cbv zeta. cbn [dw_data]. members. destruct (1024 <? _); [by right|by left].
Qed.
Lemma fields_twice root requested xml : let d := dw_data (event_fields root requested xml) in
  find "event_data_ambiguous" d = None \/ find "event_data_ambiguous" d = Some (JBool true).
Proof.
  cbv zeta. unfold EventDecoder.event_fields. cbv zeta. cbn [dw_data]. members. destruct (repeated "EventData" root); [by right|by left].
Qed.
(** the children of [EventData] *)
Definition data_elements (root : Element) : list Element :=
  match FirstChildElement "EventData" root with Some d => e_children d | None => [] end.
(** what healthy evidence of an event contains *)
Definition complete (root : Element) (requested : string) (d : DecodedWindowsEvent) : Prop :=
  is_Some (dw_time d) /\ find "native_channel" (dw_data d) = Some (JStr requested) /\
  (exists n, 0 <= n <= u64_max /\ find "event_record_id" (dw_data d) = Some (text_of n)) /\
  find "event_data" (dw_data d) = Some (JArr (data_entry print_element <$> data_elements root)) /\
  repeated "EventData" root = false.
Lemma number_range j m n : number j m = Some n -> 0 <= n <= u64_max.
Proof.
  unfold number. destruct j as [| | | | |v| |]; try done. destruct (from_chars_all u64_max v) as [z|] eqn:E; [|done].
  destruct (m <? z); [done|]. intros [= <-]. by eapply from_chars_range.
Qed.
Lemma fields_state root requested xml : let d := event_fields root requested xml in
  find "decode_state" (dw_data d) = Some (JStr "degraded") \/
  find "decode_state" (dw_data d) = Some (JStr "healthy") /\ complete root requested d.
Proof.
  cbv zeta. unfold complete, EventDecoder.event_fields. cbv zeta. cbn [dw_data dw_time].
  assert (E : forall k l, find k (put_all l (event_base xml requested)) =
    match last_member k l with Some v => Some v | None => find k (event_base xml requested) end) by (intros; by apply find_put_all).
  rewrite !E, !last_member_app, !last_member_if. rewrite !sections_other by (rewrite !elem_of_cons, elem_of_nil; naive_solver).
  clear E. cbn [last_member String.eqb Ascii.eqb Bool.eqb]. rewrite !if_same.
  match goal with |- context [if ?b then Some (JStr "healthy") else _] => destruct b eqn:Eb end; [right|by left].
  split; [done|]. rewrite !andb_true_iff, !bool_decide_eq_true, !negb_true_iff in Eb.
  destruct Eb as [[[[[[[[Ha Hs] Hp] Hid] [n Hn]] Ht] Hm] Hmany] Htwice]. rewrite Ha in *. apply is_text_spec in Hm. rewrite Hm, Hn.
  split; [done|]. split; [done|]. split; [exists n; split; [by eapply number_range|done]|].
  split; [|done]. unfold data_elements. apply Z.ltb_ge in Hmany. rewrite take_ge; [done|]. unfold zlen in *. lia.
Qed.

(** ** Security events *)
Lemma enrich_total event : (find "event_data_bound_exceeded" event = None \/ find "event_data_bound_exceeded" event = Some (JBool true)) ->
  exists r, AuditSemantics.enrich event = Ok r.
Proof.
  intros Hb. unfold AuditSemantics.enrich. destruct (negb (is_object event)); [eauto|]. cbv zeta. destruct (negb (guarded event)); [eauto|].
  destruct (default _ _) as [| | | | | |fields|]; eauto. unfold with_fields. destruct (raw_fields _ _ _) as [records cut]. cbv zeta.
  assert (exists b, bound_exceeded event = Ok b) as [b ->].
  { unfold bound_exceeded. destruct Hb as [->| ->]; eauto. }
  eexists. reflexivity.
Qed.
Lemma authentication_total event :
  (find "event_data_ambiguous" event = None \/ find "event_data_ambiguous" event = Some (JBool true)) ->
  (find "event_data_bound_exceeded" event = None \/ find "event_data_bound_exceeded" event = Some (JBool true)) ->
  exists r, decode_authentication event = Ok r.
Proof.
  intros Ha Hb. unfold decode_authentication. destruct (auth_event event) as [[id version]|]; [|eauto]. cbv zeta.
  assert (exists b, value_bool "event_data_ambiguous" event = Ok b) as [b ->] by (unfold value_bool; destruct Ha as [->| ->]; eauto).
  assert (exists b, value_bool "event_data_bound_exceeded" event = Ok b) as [b' ->] by (unfold value_bool; destruct Hb as [->| ->]; eauto).
  cbn [mbind result_bind]. destruct b; [eauto|]. destruct (negb _); [eauto|]. destruct (default _ _); eauto. destruct (1024 <? _); [eauto|].
  destruct b'; [eauto|]. destruct (auth_fields _ _ _ _) as [[values duplicate]|]; [|eauto]. destruct (typed_fields _ _ _ _ _) as [out s]. eauto.
Qed.
(** the semantics are added beside the other members *)
Lemma attached requested data : is_object data = true ->
  (find "event_data_ambiguous" data = None \/ find "event_data_ambiguous" data = Some (JBool true)) ->
  (find "event_data_bound_exceeded" data = None \/ find "event_data_bound_exceeded" data = Some (JBool true)) ->
  exists data', attach_security_semantics requested data = Ok data' /\
    forall k, k <> "security_audit_semantics" -> k <> "authentication" -> find k data' = find k data.
Proof.
  intros Ho Ha Hb. unfold attach_security_semantics. destruct (negb _); [eauto|]. destruct (enrich_total data Hb) as [r ->].
  cbn [mbind result_bind]. assert (E : forall k, k <> "security_audit_semantics" -> find k (set_member "security_audit_semantics" r data) = find k data).
  { intros k Hk. rewrite find_set by done. by apply String.eqb_neq in Hk as ->. }
  destruct (authentication_total (set_member "security_audit_semantics" r data)) as [auth ->]; [by rewrite E|by rewrite E|].
  cbn [mbind result_bind]. destruct auth as [a|]; eexists; (split; [reflexivity|]); intros k K1 K2; [|by apply E].
  rewrite find_set by (by rewrite set_is_object). apply String.eqb_neq in K2. rewrite K2. by apply E.
Qed.
End DecoderFacts.
