(* ===== verification/FileAcquisition.v ===== *)
(** * Encrypted file acquisition

    [forensics/file_acquisition.cpp]: the store copies a bounded prefix of a file
    into encrypted chunks, with a manifest that is authenticated and replaced
    after every chunk, so that an interrupted capture is continued.  The store
    directory is a map from file names to contents; Windows does not distinguish
    the case of names, so names are kept in lower case.  Every call of Windows is a
    step whose answer [os n] is arbitrary, and the process may end before any of
    them; what a write leaves when it is interrupted is a step of its own.

    The cipher (AES-256-GCM), the authenticator (HMAC-SHA-256), the digest, the
    text form of JSON, DPAPI and the conversion of native paths to UTF-8 are
    parameters.  Native text is a string of code units. *)

From S2P Require Import Prelude Crc32 Identity Json.

(** ** Data *)
Record FileAcquisitionConfig := {
  collection_root : string; encrypted_store_root : string; encryption_key : string;
  maximum_capture_bytes : Z; chunk_bytes : Z
}.
Record FileAcquisitionRequest := {
  rq_capture_id : string; rq_relative_path : string; rq_maximum_bytes : Z;
  rq_command_id : string; rq_correlation_id : string; resume_existing_only : bool
}.
Record FileAcquisitionResult := {
  capture_id : string; acq_state : string; acq_manifest_path : string; acq_error : string;
  captured_bytes : Z; next_sequence : Z; acq_sha256 : string; existing_capture_verified : bool
}.
Record FileFacts := { f_size : Z; f_write_time : Z; f_identity : string; f_path : string }.
#[global] Instance FileFacts_eq_dec : EqDecision FileFacts.
Proof. solve_decision. Defined.

Definition kChunkMagic : Z := 0x31434650.
Definition kNonceBytes : nat := 12.
Definition kTagBytes : nat := 16.
Definition kChunkHeaderBytes : nat := 52.

(** assignments to the result *)
Definition set_state (state : string) (r : FileAcquisitionResult) : FileAcquisitionResult := {|
  capture_id := capture_id r; acq_state := state; acq_manifest_path := acq_manifest_path r; acq_error := acq_error r;
  captured_bytes := captured_bytes r; next_sequence := next_sequence r; acq_sha256 := acq_sha256 r;
  existing_capture_verified := existing_capture_verified r |}.
Definition set_error (error : string) (r : FileAcquisitionResult) : FileAcquisitionResult := {|
  capture_id := capture_id r; acq_state := acq_state r; acq_manifest_path := acq_manifest_path r; acq_error := error;
  captured_bytes := captured_bytes r; next_sequence := next_sequence r; acq_sha256 := acq_sha256 r;
  existing_capture_verified := existing_capture_verified r |}.
Definition set_path (path : string) (r : FileAcquisitionResult) : FileAcquisitionResult := {|
  capture_id := capture_id r; acq_state := acq_state r; acq_manifest_path := path; acq_error := acq_error r;
  captured_bytes := captured_bytes r; next_sequence := next_sequence r; acq_sha256 := acq_sha256 r;
  existing_capture_verified := existing_capture_verified r |}.
Definition set_captured (n : Z) (r : FileAcquisitionResult) : FileAcquisitionResult := {|
  capture_id := capture_id r; acq_state := acq_state r; acq_manifest_path := acq_manifest_path r;
  acq_error := acq_error r; captured_bytes := n; next_sequence := next_sequence r; acq_sha256 := acq_sha256 r;
  existing_capture_verified := existing_capture_verified r |}.
Definition set_next (n : Z) (r : FileAcquisitionResult) : FileAcquisitionResult := {|
  capture_id := capture_id r; acq_state := acq_state r; acq_manifest_path := acq_manifest_path r;
  acq_error := acq_error r; captured_bytes := captured_bytes r; next_sequence := n; acq_sha256 := acq_sha256 r;
  existing_capture_verified := existing_capture_verified r |}.
Definition set_sha256 (sha : string) (r : FileAcquisitionResult) : FileAcquisitionResult := {|
  capture_id := capture_id r; acq_state := acq_state r; acq_manifest_path := acq_manifest_path r;
  acq_error := acq_error r; captured_bytes := captured_bytes r; next_sequence := next_sequence r; acq_sha256 := sha;
  existing_capture_verified := existing_capture_verified r |}.
Definition set_existing (b : bool) (r : FileAcquisitionResult) : FileAcquisitionResult := {|
  capture_id := capture_id r; acq_state := acq_state r; acq_manifest_path := acq_manifest_path r;
  acq_error := acq_error r; captured_bytes := captured_bytes r; next_sequence := next_sequence r;
  acq_sha256 := acq_sha256 r; existing_capture_verified := b |}.
Definition blank (id : string) : FileAcquisitionResult := {|
  capture_id := id; acq_state := ""; acq_manifest_path := ""; acq_error := ""; captured_bytes := 0;
  next_sequence := 0; acq_sha256 := ""; existing_capture_verified := false |}.

(** ** What Windows answers *)
Inductive handle := Root | Source.
Record RawFacts := { is_directory : bool; is_reparse : bool; end_of_file : Z; last_write : Z }.
Record AccessEntry := { entry_type : Z; entry_flags : Z; entry_mask : Z; entry_sid : string }.
Record Descriptor := { control : option Z; owner_sid : option string; entries_ : option (list (option AccessEntry)) }.
Record Os := {
  ends : bool;                       (** the process ends before this call *)
  fails : bool;                      (** the call fails *)
  kept : nat;                        (** what an interrupted write leaves *)
  raw_facts : handle -> option RawFacts;
  raw_identity : handle -> option string;
  raw_path : handle -> option string;
  read_at : Z -> Z -> option string; (** [ReadFile] at a position, at most so many bytes *)
  random : nat -> string;            (** so many random bytes *)
  user_sid : result string;
  descriptor : option Descriptor;
  move_conflict : bool;              (** a failed move reports that the target exists *)
  created : bool                     (** the store directory was created by this call *)
}.
Abbreviation Disk := (gmap string string).
(** the directory, the number of calls so far, and the locals
    [existing_capture_verified] and [result] *)
Record Store := { disk : Disk; calls : nat; verified : bool; draft : FileAcquisitionResult }.

(** ** Computations *)
Inductive verdict (A : Type) := Returned (a : A) | Raised (e : exn) | Ended.
Arguments Returned {A} a.
Arguments Raised {A} e.
Arguments Ended {A}.
Definition M (A : Type) : Type := Store -> verdict A * Store.
#[global] Instance M_ret : MRet M := fun A a s => (Returned a, s).
#[global] Instance M_bind : MBind M := fun A B f m s =>
  match m s with
  | (Returned a, s) => f a s
  | (Raised e, s) => (Raised e, s)
  | (Ended, s) => (Ended, s)
  end.
Definition of_result {A} (r : result A) : M A := fun s =>
  (match r with Ok a => Returned a | Throw e => Raised e end, s).
Definition set_verified (b : bool) : M unit := fun s =>
  (Returned tt, {| disk := disk s; calls := calls s; verified := b; draft := draft s |}).
Definition get_verified : M bool := fun s => (Returned (verified s), s).
Definition report (f : FileAcquisitionResult -> FileAcquisitionResult) : M unit := fun s =>
  (Returned tt, {| disk := disk s; calls := calls s; verified := verified s; draft := f (draft s) |}).
Definition get_draft : M FileAcquisitionResult := fun s => (Returned (draft s), s).
(** [try { m } catch (const std::exception& e) { h }] *)
Definition catching {A} (m : M A) (h : exn -> M A) : M A := fun s =>
  match m s with (Raised e, s) => h e s | other => other end.

(** ** Text *)
Definition lower_char (c : ascii) : ascii :=
  if (65 <=? code c) && (code c <=? 90) then ascii_of_N (Z.to_N (code c + 32)) else c.
Fixpoint map_text (f : ascii -> ascii) (s : string) : string :=
  match s with "" => "" | String c s => String (f c) (map_text f s) end.
Definition lower (s : string) : string := map_text lower_char s.
Definition backslash : ascii := ascii_of_N 92.
Definition is_slash (c : ascii) : bool := (code c =? 92) || (code c =? 47).
(** the trailing backslashes are removed, but not the first character *)
Fixpoint strip_end (s : string) : string :=
  match s with
  | "" => ""
  | String c s =>
      match strip_end s with
      | "" => String c ""
      | String d "" => if Ascii.eqb d backslash then String c "" else String c (String d "")
      | s => String c s
      end
  end.
Definition lower_slashes (s : string) : string :=
  strip_end (map_text (fun c => if Ascii.eqb c "/" then backslash else lower_char c) s).
Definition hex (s : string) : string := hex_bytes (code <$> of_str s).
Definition le (n : nat) (v : Z) : string := to_str (le_bytes n v).
Definition le_number (s : string) : Z := le_value (of_str s).
Definition is_letter (c : ascii) : bool := ((65 <=? code c) && (code c <=? 90)) || ((97 <=? code c) && (code c <=? 122)).
(** [is_absolute()]: a drive with a root directory, or another root name *)
Definition is_absolute (s : string) : bool :=
  match s with
  | String a (String b (String c _)) =>
      (is_letter a && Ascii.eqb b ":" && is_slash c) || (is_slash a && is_slash b && negb (is_slash c))
      || starts_with "\??\" s
  | _ => false
  end.
(** [is_absolute()], [has_root_name()] or [has_root_directory()] *)
Definition is_rooted (s : string) : bool :=
  match s with
  | String a rest => is_slash a || (is_letter a && starts_with ":" rest)
  | "" => false
  end.
(** the parts of a relative path: adjacent separators count once, one at the end
    is followed by an empty part *)
Fixpoint path_parts (s part : string) : list string :=
  match s with
  | "" => [part]
  | String c s =>
      if is_slash c then
        match s with
        | "" => [part; ""]
        | String d _ => if is_slash d then path_parts s part else part :: path_parts s ""
        end
      else path_parts s (part +:+ String c "")
  end.
Definition bad_part (p : string) : option string :=
  if String.eqb p ".." || String.eqb p "." || str_empty p
  then Some "path traversal and empty components are refused"
  else if str_contains ":" p then Some "alternate data stream paths are refused" else None.
Fixpoint first_bad (l : list string) : option string :=
  match l with [] => None | p :: l => match bad_part p with Some why => Some why | None => first_bad l end end.

Definition id_char (c : ascii) : bool := is_alnum c || (code c =? 95) || (code c =? 45).
Definition validated_id (id : string) : result unit :=
  _ ← throw_if (str_empty id || (96 <? slen id)) (runtime_error "capture id length is invalid");
  throw_if (negb (str_forallb id_char id)) (runtime_error "capture id contains invalid characters").
Definition manifest_name (id : string) : string := lower (id +:+ ".manifest.json").
(** [%020llu] *)
Definition padded (z : Z) : string :=
  zeros (20 - String.length (to_string z)) +:+ to_string z.
Definition chunk_name (id : string) (sequence : Z) : string := lower (id +:+ "." +:+ padded sequence +:+ ".chunk").
Definition key_name : string := "acquisition-key.dpapi".

(** ** JSON numbers and members *)
(** [j.get<std::uint64_t>()] *)
Definition get_number (j : json) : result Z :=
  match j with
  | JInt z | JUint z => Ok (u64 z)
  | JFloat q => Ok (u64 (Z.quot (Qnum q) (Z.pos (Qden q))))
  | _ => Throw (json_exception "type must be number")
  end.
(** [j.value(k, std::uint64_t{})] *)
Definition value_number (k : string) (j : json) : result Z :=
  match j with
  | JObj l => match find_member k l with Some v => get_number v | None => Ok 0 end
  | _ => Throw (json_exception "cannot use value() with a non-object")
  end.
(** [a || b || ...] of operands that may throw *)
Fixpoint any_of (l : list (result bool)) : result bool :=
  match l with [] => Ok false | r :: l => b ← r; if (b : bool) then Ok true else any_of l end.
Definition differs (k : string) (v m : json) : result bool := x ← at_ k m; Ok (negb (jeq x v)).
Definition differs_text (k : string) (v : result string) (m : json) : result bool :=
  x ← value_string k m; t ← v; Ok (negb (String.eqb x t)).

(** ** Private access lists *)
Definition ACCESS_ALLOWED_ACE_TYPE : Z := 0.
Definition FILE_ALL_ACCESS : Z := 0x1F01FF.
(** the flags other than INHERITED_ACE, CONTAINER_INHERIT_ACE and OBJECT_INHERIT_ACE *)
Definition other_ace_flags : Z := 0xEC.
Definition SE_DACL_PROTECTED : Z := 0x1000.
Definition system_sid : string := "S-1-5-18".
(** the loop: whether the list is safe, and which of the two accounts it names *)
Fixpoint check_entries (user : string) (l : list (option AccessEntry)) (saw_user saw_system : bool) : bool * bool * bool :=
  match l with
  | [] => (true, saw_user, saw_system)
  | None :: _ => (false, saw_user, saw_system)
  | Some e :: l =>
      if negb (entry_type e =? ACCESS_ALLOWED_ACE_TYPE) || negb (Z.land (entry_flags e) other_ace_flags =? 0)
         || negb (entry_mask e =? FILE_ALL_ACCESS)
      then (false, saw_user, saw_system)
      else if String.eqb (entry_sid e) user && negb saw_user then check_entries user l true saw_system
      else if String.eqb (entry_sid e) system_sid && negb saw_system then check_entries user l saw_user true
      else (false, saw_user, saw_system)
  end.
Definition private_acl (user : string) (d : Descriptor) (require_protected_dacl : bool) : bool :=
  match control d, owner_sid d, entries_ d with
  | Some c, Some owner, Some l =>
      (negb require_protected_dacl || negb (Z.land c SE_DACL_PROTECTED =? 0)) && String.eqb owner user
      && Nat.eqb (length l) 2
      && (let '(safe, saw_user, saw_system) := check_entries user l false false in safe && saw_user && saw_system)
  | _, _, _ => false
  end.

Section Acquisition.
Context (cng_sha256 : string -> outcome (list Z)).
Context (hmac_sha256 : string -> string -> result (list Z)).
(** [encrypt key nonce aad plain]: the cipher text and the tag *)
Context (encrypt : string -> string -> string -> string -> result (string * string)).
Context (decrypt : string -> string -> string -> string -> string -> result string).
(** [dump()] and [dump(2)] *)
Context (json_parse : string -> result json) (dump pretty : json -> result string).
Context (utf8 : string -> result string).
Context (protect unprotect : string -> option string).
Context (os : nat -> Os) (config : FileAcquisitionConfig).
Abbreviation key := (encryption_key config).

(** one call of Windows *)
Definition call {A} (f : Os -> Disk -> result A * Disk) : M A := fun s =>
  let a := os (calls s) in
  let tick d := {| disk := d; calls := S (calls s); verified := verified s; draft := draft s |} in
  if ends a then (Ended, tick (disk s))
  else let '(x, d) := f a (disk s) in (match x with Ok v => Returned v | Throw e => Raised e end, tick d).
Definition query {A} (f : Os -> result A) : M A := call (fun a d => (f a, d)).
(** a call that fails with this error, or has this effect *)
Definition act (what_ : string) (f : Os -> Disk -> Disk) : M unit := call (fun a d =>
  if fails a then (Throw (runtime_error what_), d) else (Ok tt, f a d)).
Definition nt_ok (what_ : string) : M unit := act what_ (fun _ d => d).
Definition require_private_acl (require_protected_dacl : bool) : M unit := query (fun a =>
  user ← user_sid a;
  _ ← throw_if (fails a) (runtime_error "cannot create SYSTEM SID for forensic store ACL check");
  d ← of_option (descriptor a) (runtime_error "cannot inspect existing forensic store ACL");
  throw_if (negb (private_acl user d require_protected_dacl))
    (runtime_error "existing forensic store ACL is not restricted to the current service account and SYSTEM; preserve it and configure a dedicated protected store")).

Definition restrict_store_acl : M unit :=
  _ ← query user_sid;
  _ ← nt_ok "cannot create SYSTEM SID for forensic store ACL";
  _ ← nt_ok "cannot build private forensic store ACL";
  nt_ok "cannot restrict forensic store to the agent account and SYSTEM".

(** ** Facts about open files *)
Definition final_path (h : handle) : M string := query (fun a =>
  match raw_path a h with
  | Some p => Ok (lower_slashes p)
  | None => Throw (runtime_error "cannot resolve normalized final file path")
  end).
Definition identity (h : handle) : M string := query (fun a =>
  match raw_identity a h with
  | Some id => Ok (hex id)
  | None => Throw (runtime_error "cannot read volume and file identity")
  end).
Definition facts : M FileFacts :=
  raw ← query (fun a => of_option (raw_facts a Source) (runtime_error "cannot read opened file metadata"));
  _ ← of_result (throw_if (is_directory raw || is_reparse raw)
        (runtime_error "directories and reparse points are refused"));
  _ ← of_result (throw_if (end_of_file raw <? 0) (runtime_error "file reports invalid size"));
  id ← identity Source;
  path ← final_path Source;
  mret {| f_size := end_of_file raw; f_write_time := last_write raw; f_identity := id; f_path := path |}.
Definition resolved_root : M string :=
  _ ← of_result (throw_if (str_empty (collection_root config) || negb (is_absolute (collection_root config)))
        (runtime_error "collection root must be explicitly configured as an absolute path"));
  _ ← nt_ok "cannot open configured collection root";
  _ ← query (fun a => match raw_facts a Root with
                       | Some raw => throw_if (negb (is_directory raw) || is_reparse raw)
                                       (runtime_error "collection root must be a non-reparse directory")
                       | None => Throw (runtime_error "collection root must be a non-reparse directory")
                       end);
  final_path Root.

(** ** The manifest *)
Definition manifest_mac (manifest : json) : result string :=
  text ← dump (erase "manifest_hmac" manifest);
  tag ← hmac_sha256 key text;
  Ok (hex_bytes tag).
Definition verify_manifest (manifest : json) : result unit :=
  stored ← value_string "manifest_hmac" manifest;
  _ ← throw_if (negb (slen stored =? 64)) (runtime_error "manifest authentication tag is missing");
  expected ← manifest_mac manifest;
  throw_if (negb (String.eqb stored expected)) (runtime_error "manifest authentication failed").
Definition persist_manifest (file : string) (manifest : json) : M unit :=
  mac ← of_result (manifest_mac manifest);
  text ← of_result (pretty (set_member "manifest_hmac" (JStr mac) manifest));
  let temp := file +:+ ".tmp" in
  let stopped := "cannot durably write acquisition manifest" in
  _ ← act "cannot create acquisition manifest" (fun _ => insert temp "");
  _ ← call (fun a d => (Ok tt, <[temp := str_take (kept a) text]> d));
  _ ← act stopped (fun _ => insert temp text);
  _ ← nt_ok stopped;
  act "cannot atomically commit acquisition manifest" (fun _ d => <[file := text]> (delete temp d)).
(** [std::filesystem::exists] *)
Definition exists_ (file : string) : M bool := call (fun a d =>
  (if fails a then Throw (runtime_error "exists") else Ok (bool_decide (is_Some (d !! file))), d)).
(** [in >> manifest] and the authentication *)
Definition read_manifest (file : string) : M json :=
  text ← call (fun a d => (of_option (if fails a then None else d !! file) (json_exception "parse error"), d));
  manifest ← of_result (json_parse text);
  _ ← of_result (verify_manifest manifest);
  mret manifest.

(** ** Chunks *)
Definition chunk_aad (id : string) (sequence offset : Z) : string := id +:+ nul_bytes 1 +:+ le 8 sequence +:+ le 8 offset.
Definition chunk_frame (sequence offset : Z) (plain nonce tag cipher : string) : string :=
  le 4 kChunkMagic +:+ le 8 sequence +:+ le 8 offset +:+ le 4 (slen plain) +:+ nonce +:+ tag +:+ cipher.
Definition encode_chunk (id : string) (sequence offset : Z) (plain : string) : M string :=
  nonce ← query (fun a => if fails a then Throw (runtime_error "secure nonce generation failed")
                            else Ok (random a kNonceBytes));
  _ ← nt_ok "cannot initialize AES-256 key";
  '(cipher, tag) ← of_result (encrypt key nonce (chunk_aad id sequence offset) plain);
  mret (chunk_frame sequence offset plain nonce tag cipher).
(** [decode_chunk] of the contents of the file *)
Definition open_chunk (id : string) (expected_sequence expected_offset : Z) (bytes : string) : result string :=
  let at_byte off n := str_take n (str_drop off bytes) in
  _ ← throw_if (negb (le_number (at_byte 0 4)%nat =? kChunkMagic)
                || negb (le_number (at_byte 4 8)%nat =? expected_sequence)
                || negb (le_number (at_byte 12 8)%nat =? expected_offset)
                || negb (le_number (at_byte 20 4)%nat =? slen bytes - Z.of_nat kChunkHeaderBytes))
        (runtime_error "committed chunk sequence or framing mismatch");
  decrypt key (at_byte 24 kNonceBytes)%nat (chunk_aad id expected_sequence expected_offset)
    (str_drop kChunkHeaderBytes bytes) (at_byte 36 kTagBytes)%nat.
Definition decode_chunk (id : string) (expected_sequence expected_offset : Z) : M string :=
  bytes ← call (fun a d =>
    (of_option (if fails a then None else d !! chunk_name id expected_sequence) (runtime_error "committed chunk is missing"), d));
  _ ← of_result (throw_if ((slen bytes <? Z.of_nat kChunkHeaderBytes)
                           || (Z.of_nat kChunkHeaderBytes + 16 * 1024 * 1024 <? slen bytes))
        (runtime_error "committed chunk length is invalid"));
  _ ← nt_ok "cannot read committed chunk";
  _ ← nt_ok "cannot initialize AES-256 key";
  of_result (open_chunk id expected_sequence expected_offset bytes).
Definition write_durable (file bytes : string) : M unit :=
  _ ← call (fun a d =>
        if fails a || bool_decide (is_Some (d !! file))
        then (Throw (runtime_error "cannot create encrypted output chunk"), d) else (Ok tt, <[file := ""]> d));
  _ ← call (fun a d => (Ok tt, <[file := str_take (kept a) bytes]> d));
  _ ← act "cannot write encrypted output chunk" (fun _ => insert file bytes);
  nt_ok "cannot durably flush encrypted output chunk".
(** a chunk file that is already there is adopted only when it holds the same bytes *)
Definition commit_chunk (id : string) (sequence offset : Z) (plain encrypted : string) : M unit :=
  let final := chunk_name id sequence in
  present ← exists_ final;
  if (present : bool) then
    orphan ← decode_chunk id sequence offset;
    of_result (throw_if (negb (String.eqb orphan plain))
      (runtime_error "uncommitted chunk conflicts with held source; refusing replay"))
  else
    let temp := final +:+ ".part" in
    _ ← call (fun a d => (Ok tt, if fails a then d else delete temp d));
    _ ← write_durable temp encrypted;
    call (fun a d => if fails a || bool_decide (is_Some (d !! final))
                     then (Throw (runtime_error "cannot commit encrypted chunk atomically"), d)
                     else (Ok tt, <[final := encrypted]> (delete temp d))).

(** ** Acquisition *)
Record Opened := { root_path : string; root_identity : string; before : FileFacts }.
(** up to the open source, or the reason of a refusal *)
Definition open_target (rq : FileAcquisitionRequest) : M (string + Opened) :=
  let path := rq_relative_path rq in
  if str_empty path || is_rooted path || (rq_maximum_bytes rq =? 0)
  then mret (inl "request must name a relative path and a positive byte bound")
  else match first_bad (path_parts path "") with
  | Some why => mret (inl why)
  | None =>
      root ← resolved_root;
      opened ← query (fun a => Ok (negb (fails a)));
      if negb opened
      then mret (inl "cannot open target read-only while holding it against new write/delete opens")
      else
        f ← facts;
        root_now ← final_path Root;
        id ← identity Root;
        if negb (String.eqb root_now root)
        then mret (inl "configured collection root identity or final path changed")
        else
          let prefix := root +:+ String backslash "" in
          if (slen (f_path f) <=? slen prefix) || negb (starts_with prefix (f_path f))
          then mret (inl "opened target final path is outside configured collection root")
          else mret (inr {| root_path := root; root_identity := id; before := f |})
  end.
Definition refuse (why : string) : M FileAcquisitionResult :=
  _ ← report (fun r => set_error why (set_state "refused" r)); get_draft.
Definition requested_cap (rq : FileAcquisitionRequest) : Z := Z.min (rq_maximum_bytes rq) (maximum_capture_bytes config).
Definition other_request (rq : FileAcquisitionRequest) (o : Opened) (m : json) : result bool :=
  any_of [differs "source_identity" (JStr (f_identity (before o))) m;
          (t ← utf8 (f_path (before o)); differs "source_path" (JStr t) m);
          differs_text "requested_relative_path" (utf8 (rq_relative_path rq)) m;
          differs "source_size" (JUint (f_size (before o))) m;
          differs "source_write_time" (JInt (f_write_time (before o))) m;
          differs "root_identity" (JStr (root_identity o)) m;
          differs "maximum_bytes" (JUint (requested_cap rq)) m;
          (n ← value_number "requested_maximum_bytes" m; Ok (negb (n =? rq_maximum_bytes rq)));
          differs "chunk_bytes" (JUint (chunk_bytes config)) m;
          (if resume_existing_only rq then differs_text "command_id" (Ok (rq_command_id rq)) m else Ok false);
          differs_text "command_correlation_id" (Ok (rq_correlation_id rq)) m].
Definition new_manifest (rq : FileAcquisitionRequest) (o : Opened) (source_path relative_path : string) : json :=
  object [("version", JInt 1); ("capture_id", JStr (rq_capture_id rq)); ("source_path", JStr source_path);
          ("requested_relative_path", JStr relative_path); ("source_identity", JStr (f_identity (before o)));
          ("root_identity", JStr (root_identity o)); ("source_size", JUint (f_size (before o)));
          ("source_write_time", JInt (f_write_time (before o))); ("maximum_bytes", JUint (requested_cap rq));
          ("requested_maximum_bytes", JUint (rq_maximum_bytes rq)); ("command_id", JStr (rq_command_id rq));
          ("command_correlation_id", JStr (rq_correlation_id rq)); ("chunk_bytes", JUint (chunk_bytes config));
          ("captured_bytes", JInt 0); ("next_sequence", JInt 0); ("state", JStr "partial"); ("sha256", JStr "");
          ("hash_scope", JStr "captured_prefix")].
Definition number_at (k : string) (m : json) : M Z := of_result (at_ k m |> get_number).
(** the fields of a manifest that a result reports *)
Definition report_manifest (m : json) : M unit :=
  c ← number_at "captured_bytes" m;
  _ ← report (set_captured c);
  n ← number_at "next_sequence" m;
  _ ← report (set_next n);
  sha ← of_result (value_string "sha256" m);
  report (set_sha256 sha).
Definition check_manifest (id what_ : string) (m : json) : M unit := of_result (
  foreign ← any_of [differs "version" (JInt 1) m; differs "capture_id" (JStr id) m];
  throw_if foreign (runtime_error what_)).
(** the manifest to continue with, or [None] when the result is known *)
Definition admission (rq : FileAcquisitionRequest) (o : Opened) : M (option json) :=
  let file := manifest_name (rq_capture_id rq) in
  present ← exists_ file;
  if (present : bool) then
    manifest ← read_manifest file;
    _ ← check_manifest (rq_capture_id rq) "existing manifest is invalid" manifest;
    state ← of_result (at_ "state" manifest |> get_string);
    if String.eqb state "complete" || String.eqb state "truncated" then
      other ← of_result (other_request rq o manifest);
      if (other : bool)
      then _ ← refuse "capture id already belongs to another source or request identity"; mret None
      else
        _ ← set_verified true;
        _ ← report (fun r => set_path file (set_state state r));
        _ ← report_manifest manifest;
        _ ← report (set_existing true);
        mret None
    else
      other ← of_result (if String.eqb state "partial" then other_request rq o manifest else Ok true);
      if (other : bool)
      then _ ← refuse "partial capture cannot resume because source or request identity changed"; mret None
      else _ ← set_verified true; mret (Some manifest)
  else if resume_existing_only rq
  then _ ← refuse "no authenticated capture manifest exists for interrupted command recovery"; mret None
  else
    source_path ← of_result (utf8 (f_path (before o)));
    relative_path ← of_result (utf8 (rq_relative_path rq));
    let manifest := new_manifest rq o source_path relative_path in
    _ ← persist_manifest file manifest;
    mret (Some manifest).

(** the committed chunks are read back: their number, and the bytes so far *)
Fixpoint verify_chunks (id : string) (n : nat) (i sequence : Z) (extent : string) : M string :=
  match n with
  | O => mret extent
  | S n =>
      previous ← decode_chunk id i (slen extent);
      _ ← of_result (throw_if (str_empty previous || (chunk_bytes config <? slen previous)
                               || ((i + 1 <? sequence) && negb (slen previous =? chunk_bytes config)))
            (runtime_error "committed chunk lengths do not match manifest sequence"));
      _ ← nt_ok "cannot rebuild resumed SHA-256";
      verify_chunks id n (i + 1) sequence (extent +:+ previous)
  end.
(** the inner loop: [ReadFile] until the chunk is full or the file ends *)
Fixpoint fill (fuel : nat) (offset take : Z) (got : string) : M string :=
  if take <=? slen got then mret got
  else match fuel with
  | O => mret got
  | S fuel =>
      let count := Z.min (take - slen got) (1024 * 1024) in
      part ← query (fun a => match read_at a (offset + slen got) count with
                              | Some part => Ok (str_take (Z.to_nat count) part)
                              | None => Throw (runtime_error "source read failed")
                              end);
      if str_empty part then mret got else fill fuel offset take (got +:+ part)
  end.
(** the locals of the loop; [p_hash] are the bytes that were hashed *)
Record Progress := { p_offset : Z; p_sequence : Z; p_manifest : json; p_hash : string; p_state : string }.
Definition interrupted (why : string) (p : Progress) : M Progress :=
  _ ← report (set_error why);
  mret {| p_offset := p_offset p; p_sequence := p_sequence p; p_manifest := p_manifest p; p_hash := p_hash p;
          p_state := "partial" |}.
Definition advanced (plain : string) (p : Progress) : Progress :=
  let offset := p_offset p + slen plain in
  let sequence := p_sequence p + 1 in
  {| p_offset := offset; p_sequence := sequence;
     p_manifest := set_member "state" (JStr "partial") (set_member "next_sequence" (JUint sequence)
                     (set_member "captured_bytes" (JUint offset) (p_manifest p)));
     p_hash := p_hash p +:+ plain; p_state := p_state p |}.
Fixpoint copy_chunks (fuel : nat) (id : string) (cap : Z) (p : Progress) : M Progress :=
  if cap <=? p_offset p then mret p
  else match fuel with
  | O => mret p
  | S fuel =>
      let take := Z.min (chunk_bytes config) (cap - p_offset p) in
      plain ← fill (Z.to_nat take) (p_offset p) take "";
      if str_empty plain then interrupted "source ended before admitted size" p
      else
        _ ← nt_ok "cannot update source SHA-256";
        encrypted ← encode_chunk id (p_sequence p) (p_offset p) plain;
        _ ← commit_chunk id (p_sequence p) (p_offset p) plain encrypted;
        let p := advanced plain p in
        _ ← persist_manifest (manifest_name id) (p_manifest p);
        if negb (slen plain =? take)
        then interrupted "short read; capture remains resumable only if source identity stays stable" p
        else copy_chunks fuel id cap p
  end.
(** every turn that is not the last copies a whole chunk *)
Definition copy_fuel (cap offset : Z) : nat := S (Z.to_nat ((cap - offset) / chunk_bytes config)).
Definition source_changed (o : Opened) : M bool :=
  after ← facts;
  if negb (bool_decide (after = before o)) then mret true
  else
    path ← final_path Root;
    if negb (String.eqb path (root_path o)) then mret true
    else id ← identity Root; mret (negb (String.eqb id (root_identity o))).
Definition final_state (state : string) (offset cap size : Z) : string :=
  let state := if str_empty state then (if offset <? size then "truncated" else "complete") else state in
  if (cap <=? offset) && (cap <? size) && negb (String.eqb state "partial") then "truncated" else state.
Definition conclude (rq : FileAcquisitionRequest) (o : Opened) (cap : Z) (p : Progress) : M FileAcquisitionResult :=
  changed ← source_changed o;
  let size := f_size (before o) in
  p ← (if (changed : bool)
       then interrupted "source or collection root changed during acquisition; captured chunks retained as partial" p
       else mret p);
  let state := final_state (p_state p) (p_offset p) cap size in
  manifest ← (if String.eqb state "partial" || (p_offset p =? size) || (p_offset p =? cap)
              then
                _ ← nt_ok "SHA-256 finalization failed";
                digest ← of_result (match cng_sha256 (p_hash p) with
                                    | inr digest => Ok digest
                                    | inl _ => Throw (runtime_error "SHA-256 finalization failed")
                                    end);
                mret (set_member "hash_scope" (JStr (if p_offset p =? size then "complete_source" else "captured_prefix"))
                        (set_member "sha256" (JStr (hex_bytes digest)) (p_manifest p)))
              else mret (p_manifest p));
  let manifest := set_member "state" (JStr state) (set_member "next_sequence" (JUint (p_sequence p))
                    (set_member "captured_bytes" (JUint (p_offset p)) manifest)) in
  let file := manifest_name (rq_capture_id rq) in
  _ ← persist_manifest file manifest;
  _ ← report (fun r => set_next (p_sequence p) (set_captured (p_offset p) (set_path file (set_state state r))));
  sha ← of_result (value_string "sha256" manifest);
  existing ← get_verified;
  _ ← report (fun r => set_existing existing (set_sha256 sha r));
  get_draft.
(** the rest of a capture whose manifest is known *)
Definition continue_capture (rq : FileAcquisitionRequest) (o : Opened) (manifest : json) : M FileAcquisitionResult :=
  let size := f_size (before o) in
  captured ← number_at "captured_bytes" manifest;
  sequence ← number_at "next_sequence" manifest;
  _ ← of_result (throw_if ((requested_cap rq <? captured) || (size <? captured)
                           || negb (sequence =? (captured + chunk_bytes config - 1) / chunk_bytes config))
        (runtime_error "partial manifest sequence accounting is inconsistent"));
  _ ← nt_ok "cannot initialize SHA-256";
  extent ← verify_chunks (rq_capture_id rq) (Z.to_nat sequence) 0 sequence "";
  _ ← of_result (throw_if (negb (slen extent =? captured)) (runtime_error "committed chunk extent differs from manifest"));
  _ ← nt_ok "cannot seek held source file";
  let cap := Z.min (requested_cap rq) size in
  p ← copy_chunks (copy_fuel cap captured) (rq_capture_id rq) cap
        {| p_offset := captured; p_sequence := sequence; p_manifest := manifest; p_hash := extent; p_state := "" |};
  conclude rq o cap p.
(** the handler: a partial manifest is reported as such *)
Definition fail_with (e : exn) : M unit :=
  existing ← get_verified;
  report (fun r => set_existing existing (set_error (what e) (set_state "failed" r))).
Definition report_partial (file : string) : M unit :=
  manifest ← read_manifest file;
  state ← of_result (value_string "state" manifest);
  if negb (String.eqb state "partial") then mret tt
  else
    _ ← report (set_state "partial");
    c ← of_result (value_number "captured_bytes" manifest);
    _ ← report (set_captured c);
    n ← of_result (value_number "next_sequence" manifest);
    report (fun r => set_path file (set_next n r)).
Definition after_failure (rq : FileAcquisitionRequest) (e : exn) : M FileAcquisitionResult :=
  _ ← fail_with e;
  let file := manifest_name (rq_capture_id rq) in
  present ← exists_ file;
  _ ← (if (present : bool) then catching (report_partial file) (fun _ => mret tt) else mret tt);
  get_draft.
Definition acquire (rq : FileAcquisitionRequest) : M FileAcquisitionResult :=
  _ ← report (fun _ => blank (rq_capture_id rq));
  match validated_id (rq_capture_id rq) with
  | Throw e => refuse (what e)
  | Ok _ =>
      if resume_existing_only rq && (str_empty (rq_command_id rq) || str_empty (rq_correlation_id rq))
      then refuse "restart recovery requires the original command id and correlation id"
      else
        _ ← set_verified false;
        target ← catching (x ← open_target rq; mret (inr x)) (fun e => mret (inl e));
        match target with
        | inl e => _ ← fail_with e; get_draft
        | inr (inl why) => refuse why
        | inr (inr o) =>
            catching
              (admitted ← admission rq o;
               match admitted with
               | None => get_draft
               | Some manifest => continue_capture rq o manifest
               end)
              (after_failure rq)
        end
  end.
Definition inspect (id : string) : M FileAcquisitionResult :=
  let file := manifest_name id in
  _ ← report (fun _ => blank id);
  catching
    (_ ← of_result (validated_id id);
     opened ← call (fun a d => (Ok (negb (fails a) && bool_decide (is_Some (d !! file))), d));
     if negb opened
     then _ ← report (fun r => set_error "capture manifest does not exist" (set_state "refused" r)); get_draft
     else
       manifest ← read_manifest file;
       _ ← check_manifest id "manifest version or id mismatch" manifest;
       state ← of_result (at_ "state" manifest |> get_string);
       _ ← report (set_state state);
       _ ← report_manifest manifest;
       _ ← report (set_path file);
       get_draft)
    (fun e => _ ← report (fun r => set_error (what e) (set_state "failed" r)); get_draft).

(** ** The protected key *)
(** [None]: there is no key file, or it cannot be opened *)
Definition read_key : M (option string) := call (fun a d =>
  (match (if fails a then None else d !! key_name) with
   | None => Ok None
   | Some bytes =>
       _ ← throw_if (str_empty bytes || (16 * 1024 <? slen bytes))
             (runtime_error "protected forensic key file has invalid size");
       clear ← of_option (unprotect bytes) (runtime_error "cannot unprotect forensic key under this Windows account");
       _ ← throw_if (negb (slen clear =? 32)) (runtime_error "unprotected forensic key has invalid length");
       Ok (Some clear)
   end, d)).
(** the store directory exists, is a directory, and is private; a new one is made private *)
Definition open_store_root : M unit :=
  _ ← nt_ok "cannot create parent for configured forensic store root";
  fresh ← query (fun a => if fails a then Throw (runtime_error "cannot create configured forensic store root")
                            else Ok (created a));
  _ ← query (fun a => match raw_facts a Root with
                       | Some raw => throw_if (negb (is_directory raw) || is_reparse raw)
                                       (runtime_error "forensic store root must be a non-reparse directory")
                       | None => Throw (runtime_error "forensic store root must be a non-reparse directory")
                       end);
  if (fresh : bool) then restrict_store_acl else require_private_acl true.
Definition provision_key : M string :=
  generated ← query (fun a => if fails a then Throw (runtime_error "forensic key entropy unavailable") else Ok (random a 32%nat));
  bytes ← of_result (of_option (protect generated) (runtime_error "cannot protect forensic acquisition key with DPAPI"));
  let temp := key_name +:+ ".tmp" in
  let drop_temp := call (fun a d => (Ok tt, if fails a then d else delete temp d)) in
  _ ← drop_temp;
  _ ← catching (write_durable temp bytes)
        (fun _ => _ ← drop_temp; of_result (Throw (runtime_error "cannot durably write protected forensic key")));
  moved ← call (fun a d => if fails a || bool_decide (is_Some (d !! key_name)) then (Ok false, d)
                           else (Ok true, <[key_name := bytes]> (delete temp d)));
  if negb moved then
    _ ← drop_temp;
    conflict ← query (fun a => Ok (move_conflict a));
    other ← (if (conflict : bool) then _ ← require_private_acl false; read_key else mret None);
    of_result (of_option other (runtime_error "cannot commit protected forensic key"))
  else
    _ ← require_private_acl false;
    stored ← call (fun a d => (Ok (if fails a then "" else default "" (d !! key_name)), d));
    decoded ← of_result (of_option (unprotect stored) (runtime_error "cannot verify persisted DPAPI forensic key"));
    _ ← of_result (throw_if (negb (slen decoded =? 32)) (runtime_error "persisted forensic key has invalid length"));
    mret decoded.
(** the key, or the message *)
Definition load_or_create_dpapi_key (store_root : string) (create_if_missing : bool) : M (string + string) :=
  catching
    (if str_empty store_root || negb (is_absolute store_root)
     then mret (inl "forensic store root must be an explicit absolute path")
     else
       _ ← open_store_root;
       present ← call (fun a d => (Ok (negb (fails a) && bool_decide (is_Some (d !! key_name))), d));
       _ ← (if (present : bool) then
              _ ← query (fun a => match raw_facts a Source with
                                   | Some raw => throw_if (is_directory raw || is_reparse raw)
                                                   (runtime_error "protected forensic key path is not a regular file")
                                   | None => Ok tt
                                   end);
              require_private_acl false
            else mret tt);
       found ← read_key;
       match found with
       | Some clear => mret (inr clear)
       | None =>
           if negb create_if_missing
           then of_result (Throw (runtime_error "DPAPI acquisition key is unavailable; restart recovery will not provision a replacement key"))
           else clear ← provision_key; mret (inr clear)
       end)
    (fun e => mret (inl (what e))).

(** ** Opening the store *)
Definition valid_config : bool :=
  negb (str_empty (collection_root config)) && is_absolute (collection_root config)
  && negb (str_empty (encrypted_store_root config)) && is_absolute (encrypted_store_root config)
  && negb (maximum_capture_bytes config =? 0) && (maximum_capture_bytes config <=? 4 * 1024 * 1024 * 1024)
  && negb (chunk_bytes config =? 0) && (chunk_bytes config <=? 16 * 1024 * 1024).
Definition open_store : M unit :=
  _ ← of_result (throw_if (negb valid_config) (invalid_argument "invalid bounded file acquisition configuration"));
  _ ← of_result (throw_if (str_forallb (fun c => code c =? 0) key)
        (invalid_argument "file acquisition encryption key is not provisioned"));
  _ ← nt_ok "cannot create explicitly configured encrypted store root";
  _ ← query (fun a =>
        let changed := runtime_error "encrypted store root changed or became a reparse point during initialization" in
        match (if fails a then None else raw_facts a Root) with
        | Some raw => throw_if (negb (is_directory raw) || is_reparse raw) changed
        | None => Throw changed
        end);
  _ ← require_private_acl true;
  _ ← nt_ok "cannot open SHA-256 provider";
  _ ← nt_ok "cannot open manifest HMAC provider";
  _ ← nt_ok "cannot open AES provider";
  nt_ok "cannot configure AES-GCM".
End Acquisition.
