(* ===== verification/Transport.v ===== *)
(** * The response transport

    [response/transport.cpp]: the requests of the response path to the Manager,
    the exact receipts it requires, and the signed, resumable upload of evidence.
    The network answers each request as it likes: [network] gives the reply to the
    last request of a history, and an operation returns its answer with the
    history it extended.  Base64 (crypt32), the signature provider, the digest
    provider and the text form of JSON are parameters. *)

From S2P Require Import Prelude Telemetry Uploader Identity Ledger Json Enrollment Command.

(** ** Requests *)
(** [HttpClient] with its certificate verification and timeout, and one call *)
Record Request := {
  verify_tls : bool; timeout_ms : Z; method : string; request_url : string;
  request_headers : list (string * string); request_body : string
}.

Definition without_trailing_slash (url : string) : string :=
  if negb (str_empty url) && char_at url (String.length url - 1) "/"
  then str_take (String.length url - 1) url else url.
Definition looks_like_https (url : string) : bool := starts_with "https://" url.

Inductive TransportOutcome := acknowledged | retryable | authentication_failed | rejected.
#[global] Instance TransportOutcome_eq_dec : EqDecision TransportOutcome.
Proof. solve_decision. Defined.
Record EcKeyPair := { private_blob : string; public_point : string }.
(** [ResponseTransportClient] *)
Record Client := { client_timeout_ms : Z; maximum_response_bytes : Z }.
Definition default_client : Client := {| client_timeout_ms := 15000; maximum_response_bytes := 65536 |}.

(** ** Receipts

    The parser's callback marks a document as ambiguous when an event lies more
    than one level deep (a member that is a container with content) or when a
    key is repeated. *)
Definition has_content (j : json) : bool :=
  match j with JArr (_ :: _) | JObj (_ :: _) => true | _ => false end.
Definition nested (j : json) : bool :=
  match j with
  | JArr l => existsb has_content l
  | JObj l => existsb (fun m => has_content m.2) l
  | _ => false
  end.
Definition ambiguous (j : json) : bool := nested j || duplicate_keys j.
(** an operation inside [try { ... } catch (...) { return false; }] *)
Definition or_false (r : result bool) : bool := match r with Ok b => b | Throw _ => false end.
(** an operation inside [try { ... } catch (...) { return std::nullopt; }] *)
Definition or_none {A} (r : result (option A)) : option A :=
  match r with Ok o => o | Throw _ => None end.
(** [value.contains(k) && value[k].is_boolean() && value[k] == true] *)
Definition is_true (k : string) (j : json) : bool :=
  match find k j with Some (JBool b) => b | _ => false end.
(** [value.contains(k) && value[k].is_string()] *)
Definition has_string (k : string) (j : json) : bool :=
  match find k j with Some v => is_string v | None => false end.

(** ** The chunk protocol: one exchange *)
Record Call := {
  call_method : string; call_suffix : string; call_type : string; call_body : string;
  call_digest : string
}.
Definition chunk_bytes : Z := 65536.
Definition hexadecimal (value : string) : bool := (slen value =? 64) && str_forallb is_lower_hex value.
(** what a payload that passed every local check is made of *)
Record Upload := { up_manifest : json; up_id : string; up_sha : string; up_content : string }.

Section Client.
Context (cng_sha256 : string -> outcome (list Z)).
(** the event tree of a text, as in [Command] *)
Context (json_events : string -> bool + json).
Context (dump : json -> result string).
Context (base64_encode : string -> string) (base64_decode : string -> option string).
Context (sign_raw : EcKeyPair -> string -> outcome string).

(** [json::parse]: throws on text that is not JSON *)
Definition parse (text : string) : result json :=
  match json_events text with
  | inr tree => Ok (dom tree)
  | inl _ => Throw (json_exception "parse error")
  end.
(** [json::parse] with the callback: the document and whether it is ambiguous *)
Definition parse_watched (text : string) : result (bool * json) :=
  match json_events text with
  | inr tree => Ok (ambiguous tree, dom tree)
  | inl _ => Throw (json_exception "parse error")
  end.

Definition valid_artifact_ack (payload receipt : string) : bool :=
  if 4096 <? slen receipt then false
  else or_false (
    sent ← parse payload;
    manifest ← (if contains "manifest" sent then at_ "manifest" sent else Ok sent);
    '(unclear, ack) ← parse_watched receipt;
    if negb unclear && is_object ack && (size_ ack =? 3) && is_true "retained" ack
       && has_string "artifact_id" ack
    then
      id ← at_ "artifact_id" manifest;
      if jeq (member "artifact_id" ack) id && has_string "sha256" ack
      then sha ← at_ "sha256" manifest; Ok (jeq (member "sha256" ack) sha)
      else Ok false
    else Ok false).
Definition valid_collection_accept_ack (command receipt : string) : bool :=
  if 4096 <? slen receipt then false
  else or_false (
    '(unclear, value) ← parse_watched receipt;
    Ok (negb unclear && is_object value && (size_ value =? 2)
        && has_string "command_id" value && is_text command (member "command_id" value)
        && is_true "accepted" value)).
Definition valid_result_ack (payload receipt : string) : bool :=
  or_false (
    sent ← parse payload;
    '(unclear, ack) ← parse_watched receipt;
    if negb unclear && is_object ack && (size_ ack =? 3) && is_true "accepted" ack
       && is_true "retained" ack && has_string "result_id" ack
    then id ← at_ "result_id" sent; Ok (jeq (member "result_id" ack) id)
    else Ok false).

(** ** Artifacts *)
Definition sha256 (what_ input : string) : result string :=
  match sha256_hex cng_sha256 input with
  | inr h => Ok h
  | inl error => Throw (runtime_error (what_ +:+ error))
  end.
Definition artifact_material (command correlation kind digest : string) : string :=
  "response-artifact-v1" +:+ String (ascii_of_N 10)
  (Identity.field command +:+ Identity.field correlation +:+ Identity.field kind +:+ Identity.field digest).
Definition artifact_document (command correlation host kind content digest identity : string) : json :=
  object [("schema_version", JStr "1"); ("artifact_id", JStr ("art_" +:+ identity));
          ("command_id", JStr command); ("correlation_id", JStr correlation); ("host_id", JStr host);
          ("kind", JStr kind); ("media_type", JStr "application/json");
          ("content_bytes", JUint (slen content)); ("sha256", JStr digest);
          ("content_base64", JStr (base64_encode content))].
Definition make_artifact_payload (command correlation host kind content : string) : result string :=
  _ ← throw_if (str_empty content || (1024 * 1024 <? slen content))
        (invalid_argument "structured artifact exceeds content bound");
  document ← parse content;
  _ ← throw_if (negb (is_object document) && negb (is_array document))
        (invalid_argument "structured artifact requires JSON object/array");
  digest ← sha256 "artifact SHA-256 failed: " content;
  identity ← sha256 "artifact identity hash failed: " (artifact_material command correlation kind digest);
  dump (artifact_document command correlation host kind content digest identity).

(** the fields of the signing input, in order, and where they are found *)
Inductive place := InManifest | InAuthorization.
Definition signed_fields : list (string * place) :=
  [("schema_version", InManifest); ("artifact_id", InManifest); ("agent_id", InManifest);
   ("host_id", InManifest); ("command_id", InManifest); ("correlation_id", InManifest);
   ("kind", InManifest); ("media_type", InManifest); ("content_bytes", InManifest);
   ("sha256", InManifest); ("produced_at_unix", InManifest); ("algorithm", InAuthorization);
   ("key_id", InAuthorization)].
Definition is_numeric_field (name : string) : bool :=
  String.eqb name "content_bytes" || String.eqb name "produced_at_unix".
Definition signed_value (manifest : json) (f : string * place) : result string :=
  let '(name, p) := f in
  v ← match p with
      | InManifest => at_ name manifest
      | InAuthorization => a ← at_ "authorization" manifest; at_ name a
      end;
  if is_numeric_field name
  then _ ← throw_if (negb (is_number_unsigned v)) (invalid_argument "invalid artifact integer");
       Ok (to_string (get_u64 v))
  else get_string v.
Definition signed_line (name value : string) (rest : string) : string :=
  name +:+ ":" +:+ to_string (slen value) +:+ ":" +:+ value +:+ String (ascii_of_N 10) rest.
Fixpoint signed_lines (manifest : json) (fields : list (string * place)) : result string :=
  match fields with
  | [] => Ok ""
  | f :: fields =>
      value ← signed_value manifest f;
      rest ← signed_lines manifest fields;
      Ok (signed_line f.1 value rest)
  end.
Definition signing_prefix : string := "panopticon-response-artifact-auth/2" +:+ String (ascii_of_N 10) "".
(** the checks and the text for a parsed manifest *)
Definition signing_input_of (manifest : json) : result string :=
  let closed := invalid_argument "invalid closed signed artifact manifest" in
  _ ← throw_if (negb (size_ manifest =? 12)) closed;
  version ← at_ "schema_version" manifest;
  _ ← throw_if (negb (is_text "2" version)) closed;
  authorization ← at_ "authorization" manifest;
  _ ← throw_if (negb (size_ authorization =? 3)) closed;
  algorithm ← at_ "algorithm" authorization;
  _ ← throw_if (negb (is_text "ES256" algorithm)) closed;
  lines ← signed_lines manifest signed_fields;
  Ok (signing_prefix +:+ lines).
Definition artifact_manifest_signing_input (manifest_json : string) : result string :=
  manifest ← parse manifest_json;
  signing_input_of manifest.

Definition authorization_json (key_id signature : string) : json :=
  object [("algorithm", JStr "ES256"); ("key_id", JStr key_id); ("signature", JStr (base64_encode signature))].
Definition sign_artifact_payload (payload agent : string) (keypair : EcKeyPair) (produced_at_unix : Z)
  : result string :=
  manifest ← parse payload;
  content ← at_ "content_base64" manifest;
  let manifest := erase "content_base64" manifest in
  let manifest := set_member "schema_version" (JStr "2") manifest in
  let manifest := set_member "agent_id" (JStr agent) manifest in
  let manifest := set_member "produced_at_unix" (JUint produced_at_unix) manifest in
  key_digest ← sha256 "artifact key identity failed: " (public_point keypair);
  let key_id := str_take 16 key_digest in
  text ← dump (set_member "authorization" (authorization_json key_id (nul_bytes 64)) manifest);
  input ← artifact_manifest_signing_input text;
  signature ← match sign_raw keypair input with
              | inr s => Ok s
              | inl error => Throw (runtime_error ("artifact signature failed: " +:+ error))
              end;
  dump (object [("manifest", set_member "authorization" (authorization_json key_id signature) manifest);
                ("content_base64", content)]).

(** ** Resumable upload *)
(** the checks before the first exchange; [None]: nothing is sent *)
Definition admissible_upload (payload : string) : option Upload :=
  if 1500 * 1024 <? slen payload then None
  else or_none (
    envelope ← parse payload;
    if negb (is_object envelope) || negb (size_ envelope =? 2) then Ok None
    else
      manifest ← at_ "manifest" envelope;
      text ← dump manifest;
      _ ← artifact_manifest_signing_input text;
      id ← (at_ "artifact_id" manifest |> get_string);
      sha ← (at_ "sha256" manifest |> get_string);
      if negb (starts_with "art_" id) || negb (hexadecimal (str_drop 4 id)) || negb (hexadecimal sha)
      then Ok None
      else
        encoded ← (at_ "content_base64" envelope |> get_string);
        match base64_decode encoded with
        | None => Ok None
        | Some content =>
            if str_empty content || (1024 * 1024 <? slen content) then Ok None
            else
              bytes ← at_ "content_bytes" manifest;
              if negb (slen content =? get_u64 bytes) || negb (String.eqb (base64_encode content) encoded)
              then Ok None
              else
                match sha256_hex cng_sha256 content with
                | inr actual =>
                    if String.eqb actual sha
                    then Ok (Some {| up_manifest := manifest; up_id := id; up_sha := sha;
                                     up_content := content |})
                    else Ok None
                | inl _ => Ok None
                end
        end).

(** the lambda [read_progress]: [known] is the captured [manifest_sha]; the bytes
    the Manager has and the digest to remember *)
Definition read_progress (up : Upload) (known body : string) : option (Z * string) :=
  if 4096 <? slen body then None
  else or_none (
    '(unclear, value) ← parse_watched body;
    if unclear || negb (is_object value) || negb (size_ value =? 8) then Ok None
    else
      version ← at_ "schema_version" value;
      id ← at_ "artifact_id" value;
      sha ← at_ "sha256" value;
      digest ← at_ "manifest_sha256" value;
      received ← at_ "received_bytes" value;
      chunk ← at_ "chunk_bytes" value;
      complete ← at_ "complete" value;
      if negb (is_text "1" version) || negb (is_text (up_id up) id) || negb (is_text (up_sha up) sha)
         || negb (is_string digest) || negb (is_number_unsigned received)
         || negb (is_number_unsigned chunk) || negb (jeq chunk (JUint chunk_bytes))
         || negb (is_boolean complete)
      then Ok None
      else
        digest ← get_string digest;
        if negb (hexadecimal digest) || (negb (str_empty known) && negb (String.eqb digest known))
        then Ok None
        else
          let received := get_u64 received in
          let size := slen (up_content up) in
          let complete := jeq complete (JBool true) in
          if (size <? received) || (negb (received =? size) && negb (received mod chunk_bytes =? 0))
          then Ok None
          else
            expires ← (if complete && negb (received =? size) then Ok JNull
                       else at_ "expires_at" value);
            if (complete && (negb (received =? size) || negb (is_null expires)))
               || (negb complete && (negb (is_string expires) || is_text "" expires))
            then Ok None
            else Ok (Some (received, digest))).

Section Exchange.
Context {X : Type} (exchange : Call -> X -> option string * X).

Definition admission_call (up : Upload) : result Call :=
  body ← dump (object [("schema_version", JStr "1"); ("manifest", up_manifest up)]);
  Ok {| call_method := "POST"; call_suffix := ""; call_type := "application/json";
        call_body := body; call_digest := "" |}.
Definition part_at (up : Upload) (received : Z) : string :=
  str_take (Z.to_nat chunk_bytes) (str_drop (Z.to_nat received) (up_content up)).
Definition chunk_call (up : Upload) (received : Z) (digest : string) : Call := {|
  call_method := "PUT"; call_suffix := "/" +:+ up_id up +:+ "/chunks/" +:+ to_string received;
  call_type := "application/octet-stream"; call_body := part_at up received; call_digest := digest |}.
Definition completion_call (up : Upload) (manifest_sha : string) : result Call :=
  body ← dump (object [("schema_version", JStr "1"); ("manifest_sha256", JStr manifest_sha)]);
  Ok {| call_method := "POST"; call_suffix := "/" +:+ up_id up +:+ "/complete";
        call_type := "application/json"; call_body := body; call_digest := "" |}.

(** the loop: [None] is a [return std::nullopt]; the flag is [*made_progress] *)
Fixpoint send_chunks (steps : nat) (up : Upload) (received : Z) (manifest_sha : string)
    (progress : bool) (x : X) : option (Z * string) * bool * X :=
  match steps with
  | O => (Some (received, manifest_sha), progress, x)
  | S steps =>
      if slen (up_content up) <=? received then (Some (received, manifest_sha), progress, x)
      else
        match sha256_hex cng_sha256 (part_at up received) with
        | inl _ => (None, progress, x)
        | inr digest =>
            match exchange (chunk_call up received digest) x with
            | (None, x) => (None, progress, x)
            | (Some reply, x) =>
                match read_progress up manifest_sha reply with
                | Some (next, manifest_sha) =>
                    if next =? received + slen (part_at up received)
                    then send_chunks steps up next manifest_sha true x
                    else (None, progress, x)
                | None => (None, progress, x)
                end
            end
        end
  end.

(** the receipt, whether progress was made, and the state of the other side *)
Definition resume_artifact_upload (payload : string) (x : X) : option string * bool * X :=
  match admissible_upload payload with
  | None => (None, false, x)
  | Some up =>
      match admission_call up with
      | Throw _ => (None, false, x)
      | Ok call =>
          match exchange call x with
          | (None, x) => (None, false, x)
          | (Some admitted, x) =>
              match read_progress up "" admitted with
              | None => (None, false, x)
              | Some (received, manifest_sha) =>
                  match send_chunks 4 up received manifest_sha false x with
                  | (None, progress, x) => (None, progress, x)
                  | (Some (received, manifest_sha), progress, x) =>
                      if negb (received =? slen (up_content up)) then (None, progress, x)
                      else
                        match completion_call up manifest_sha with
                        | Throw _ => (None, progress, x)
                        | Ok call =>
                            match exchange call x with
                            | (Some receipt, x) =>
                                (if valid_artifact_ack payload receipt then Some receipt else None,
                                 progress, x)
                            | (None, x) => (None, progress, x)
                            end
                        end
                  end
              end
          end
      end
  end.
End Exchange.

(** ** Requests to the Manager *)
Section Network.
Context (network : list Request -> reply).
Definition N (A : Type) : Type := list Request -> A * list Request.

(** [HttpClient{true, timeout}.request(...)] *)
Definition send (timeout : Z) (verb url : string) (headers : list (string * string)) (body : string)
  : N reply := fun history =>
  let history := history ++ [{| verify_tls := true; timeout_ms := timeout; method := verb;
                                request_url := url; request_headers := headers;
                                request_body := body |}] in
  (network history, history).
Definition bearer (identity : EnrolledIdentity) : string * string :=
  ("Authorization", "Bearer " +:+ bearer_token identity).
Definition agent_url (url : string) (identity : EnrolledIdentity) : string :=
  without_trailing_slash url +:+ "/api/v1/agents/" +:+ Enrollment.agent_id identity.

Definition request_enrollment_challenge (c : Client) (url : string) : N (outcome string) := fun h =>
  if negb (looks_like_https url) then (inl "enrollment challenge input is invalid", h)
  else
    let '(r, h) := send (client_timeout_ms c) "POST"
                     (without_trailing_slash url +:+ "/api/v1/agents/enrollment-challenge") [] "" h in
    (match r with
     | inl error => inl ("enrollment challenge transport failure: " +:+ error)
     | inr response =>
         if negb (status_code response =? 200) then inl "enrollment challenge service rejected request"
         else match (parsed ← parse (response_body response); value_string "nonce" parsed) with
              | Ok nonce => if str_empty nonce || (64 <? slen nonce)
                            then inl "enrollment challenge response is malformed" else inr nonce
              | Throw _ => inl "enrollment challenge response is not valid JSON"
              end
     end, h).

(** [body.dump()] is outside the [try]: its exception passes through *)
Definition enroll (c : Client) (url agent host bootstrap_token : string) (keypair : EcKeyPair)
    (nonce_b64 : string) : N (result (outcome EnrolledIdentity)) := fun h =>
  if negb (looks_like_https url) || negb (is_valid_identifier agent) || negb (is_valid_identifier host)
     || str_empty bootstrap_token || (512 <? slen bootstrap_token) || str_empty nonce_b64
  then (Ok (inl "enrollment input is invalid"), h)
  else
    match base64_decode nonce_b64 with
    | None => (Ok (inl "enrollment challenge nonce is not valid base64"), h)
    | Some nonce =>
        match sign_raw keypair nonce with
        | inl error => (Ok (inl error), h)
        | inr signature =>
            match dump (object [("agent_id", JStr agent); ("host_id", JStr host);
                                ("public_key", JStr (base64_encode (public_point keypair)));
                                ("nonce", JStr nonce_b64);
                                ("signature", JStr (base64_encode signature))]) with
            | Throw e => (Throw e, h)
            | Ok body =>
                let '(r, h) := send (client_timeout_ms c) "POST"
                  (without_trailing_slash url +:+ "/api/v1/agents/enroll")
                  [("Content-Type", "application/json"); ("X-Panopticon-Enrollment-Token", bootstrap_token)]
                  body h in
                (Ok match r with
                 | inl error => inl ("enrollment transport failure: " +:+ error)
                 | inr response =>
                     if (status_code response =? 401) || (status_code response =? 403)
                     then inl "enrollment credential rejected"
                     else if negb (status_code response =? 200)
                     then inl "enrollment service rejected request"
                     else
                       match (parsed ← parse (response_body response);
                              returned ← value_string "agent_id" parsed;
                              token ← value_string "access_token" parsed;
                              Ok (returned, token)) with
                       | Ok (returned, token) =>
                           if negb (String.eqb returned agent) || str_empty token || (512 <? slen token)
                           then inl "enrollment response is malformed"
                           else inr {| Enrollment.agent_id := agent; enrolled_host_id := host;
                                       bearer_token := token |}
                       | Throw _ => inl "enrollment response is not valid JSON"
                       end
                 end, h)
            end
        end
    end.

Definition poll_commands (c : Client) (url : string) (identity : EnrolledIdentity)
    (response_profile : string) : N (outcome string) := fun h =>
  if negb (looks_like_https url) || negb (is_valid_identifier (Enrollment.agent_id identity))
     || str_empty (bearer_token identity) || (512 <? slen (bearer_token identity))
  then (inl "command polling input is invalid", h)
  else
    let encoded := base64_encode response_profile in
    if negb (str_empty response_profile) && (4096 <? slen encoded)
    then (inl "response profile exceeds header bound", h)
    else
      let headers := bearer identity ::
        (if str_empty response_profile then [] else [("X-Panopticon-Response-Profile", encoded)]) in
      let '(r, h) := send (client_timeout_ms c) "GET"
        (agent_url url identity +:+ "/commands?delivery_mode=durable") headers "" h in
      (match r with
       | inl error => inl ("command poll transport failure: " +:+ error)
       | inr response =>
           if negb (status_code response =? 200)
           then inl ("manager rejected command poll (status " +:+ to_string (status_code response) +:+ ")")
           else if maximum_response_bytes c <? slen (response_body response)
           then inl "command poll response exceeds bounds"
           else inr (response_body response)
       end, h).

Definition refused_status (code : Z) : option TransportOutcome :=
  if (code =? 401) || (code =? 403) then Some authentication_failed
  else if negb (code =? 200) then Some rejected else None.
Definition accept_command (c : Client) (url : string) (identity : EnrolledIdentity) (command : string)
  : N TransportOutcome := fun h =>
  if negb (looks_like_https url) || negb (is_valid_identifier (Enrollment.agent_id identity))
     || negb (is_valid_identifier command) || str_empty (bearer_token identity)
  then (rejected, h)
  else
    let '(r, h) := send (client_timeout_ms c) "POST"
      (agent_url url identity +:+ "/commands/" +:+ command +:+ "/accept") [bearer identity] "" h in
    (match r with
     | inl _ => retryable
     | inr response =>
         default (if valid_collection_accept_ack command (response_body response)
                  then acknowledged else rejected) (refused_status (status_code response))
     end, h).
Definition submit_command_result (c : Client) (url : string) (identity : EnrolledIdentity)
    (payload : string) : N TransportOutcome := fun h =>
  if negb (looks_like_https url) || negb (is_valid_identifier (Enrollment.agent_id identity))
     || str_empty (bearer_token identity) || str_empty payload || (maximum_response_bytes c <? slen payload)
  then (rejected, h)
  else
    let '(r, h) := send (client_timeout_ms c) "POST" (agent_url url identity +:+ "/command-results")
      [("Content-Type", "application/json"); bearer identity] payload h in
    (match r with
     | inl _ => retryable
     | inr response =>
         default (if valid_result_ack payload (response_body response) then acknowledged else retryable)
           (refused_status (status_code response))
     end, h).

(** the lambda handed to [resume_artifact_upload] *)
Definition artifact_exchange (c : Client) (base : string) (identity : EnrolledIdentity) (call : Call)
  : N (option string) := fun h =>
  let headers := [("Content-Type", call_type call); bearer identity] ++
    (if str_empty (call_digest call) then [] else [("X-Panopticon-Chunk-SHA256", call_digest call)]) in
  let '(r, h) := send (Z.min (client_timeout_ms c) 5000) (call_method call) (base +:+ call_suffix call)
                   headers (call_body call) h in
  (match r with
   | inr response =>
       if negb (status_code response =? 200) || (4096 <? slen (response_body response))
       then None else Some (response_body response)
   | inl _ => None
   end, h).
Definition artifact_base (url : string) (identity : EnrolledIdentity) (command : string) : string :=
  agent_url url identity +:+ "/commands/" +:+ command +:+ "/artifact-transfers".
Definition payload_command (payload : string) : result string :=
  value ← parse payload;
  manifest ← at_ "manifest" value;
  at_ "command_id" manifest |> get_string.
Definition submit_artifact (c : Client) (url : string) (identity : EnrolledIdentity) (payload : string)
  : N (option string * bool) := fun h =>
  if negb (looks_like_https url) || negb (is_valid_identifier (Enrollment.agent_id identity))
     || str_empty (bearer_token identity) || (1500 * 1024 <? slen payload)
  then ((None, false), h)
  else match payload_command payload with
       | Throw _ => ((None, false), h)
       | Ok command =>
           if negb (is_valid_identifier command) then ((None, false), h)
           else resume_artifact_upload
                  (artifact_exchange c (artifact_base url identity command) identity) payload h
       end.
End Network.
End Client.
