(* ===== verification/TransportFacts.v ===== *)
(** * What the transport promises

    Receipts are exact documents; the signing input determines every member of a
    manifest; an upload sends only verified content, in consecutive chunks, and
    finishes against a Manager that follows the protocol; every request goes to
    an HTTPS address with certificate verification. *)

From S2P Require Import Prelude Telemetry Uploader Identity Ledger Json Enrollment Command Transport.

(** ** Flat objects *)
Definition dom_members (l acc : list (string * json)) : list (string * json) :=
  foldl (fun acc m => put_member m.1 (dom m.2) acc) acc l.
Lemma dom_object l : dom (JObj l) = JObj (dom_members l []).
Proof.
  cbn [dom]. f_equal. unfold dom_members. generalize (@nil (string * json)) as acc.
  induction l as [|[k x] l IH]; intros acc; [done|]. simpl. apply IH.
Qed.
Lemma put_member_keys k v l : forall x, x ∈ (put_member k v l).*1 <-> x = k \/ x ∈ l.*1.
Proof.
  intros x. induction l as [|[k' v'] l IH]; simpl; [set_solver|].
  destruct (String.compare k k') eqn:E; simpl.
  - apply String.compare_eq_iff in E as ->. set_solver.
  - set_solver.
  - rewrite !elem_of_cons, IH. set_solver.
Qed.
Lemma put_member_length k v l : k ∉ l.*1 -> length (put_member k v l) = S (length l).
Proof.
  induction l as [|[k' v'] l IH]; simpl; [done|]. intros Hk.
  destruct (String.compare k k') eqn:E; simpl; [|done|].
  - apply String.compare_eq_iff in E as ->. set_solver.
  - rewrite IH; [done|set_solver].
Qed.
Lemma dom_members_length l acc :
  NoDup l.*1 -> (forall k, k ∈ l.*1 -> k ∉ acc.*1) ->
  length (dom_members l acc) = (length l + length acc)%nat.
Proof.
  revert acc. induction l as [|[k x] l IH]; intros acc; simpl; [done|].
  intros [Hk Hn]%NoDup_cons Hd. unfold dom_members in *. simpl. rewrite IH; [|done|].
  - rewrite put_member_length; [lia|]. apply Hd. set_solver.
  - intros k' Hk'. rewrite put_member_keys. intros [->|Hin]; [done|]. eapply Hd; [|done]. set_solver.
Qed.
Lemma find_dom_members k l acc :
  NoDup l.*1 ->
  find_member k (dom_members l acc) =
  match find_member k l with Some v => Some (dom v) | None => find_member k acc end.
Proof.
  unfold dom_members. revert acc. induction l as [|[k' x] l IH]; intros acc; simpl; [done|].
  intros [Hk Hn]%NoDup_cons. rewrite IH by done. destruct (String.eqb_spec k k') as [->|Hne].
  - assert (find_member k' l = None) as ->.
    { clear -Hk. induction l as [|[k2 v2] l IH]; [done|]. simpl in *. destruct (String.eqb_spec k' k2); set_solver. }
    by rewrite find_put, String.eqb_refl.
  - rewrite find_put. destruct (String.eqb_spec k k'); [done|]. done.
Qed.
Lemma dom_small j : has_content j = false -> dom j = j /\ duplicate_keys j = false.
Proof. by destruct j as [| | | | | |[|? ?]|[|? ?]]. Qed.
Lemma existsb_false {A} (f : A -> bool) l : existsb f l = false <-> Forall (fun a => f a = false) l.
Proof.
  induction l as [|a l IH]; simpl; [split; [constructor|done]|].
  rewrite orb_false_iff, IH, Forall_cons. done.
Qed.
Lemma flat_duplicates l :
  nested (JObj l) = false -> duplicate_keys (JObj l) = false <-> NoDup l.*1.
Proof.
  cbn [nested duplicate_keys]. match goal with |- _ -> ?go _ _ = _ <-> _ => set (g := go) end.
  intros Hf. rewrite existsb_false in Hf.
  enough (Hg : forall seen, g seen l = false <-> NoDup l.*1 /\ forall k, k ∈ l.*1 -> k ∉ seen).
  { rewrite Hg. split; [by intros [? _]|]. intros. split; [done|]. set_solver. }
  induction l as [|[k x] l IH]; intros seen; [split; [split; [constructor|set_solver]|done]|].
  apply Forall_cons in Hf as [Hx Hf]. simpl in Hx. apply dom_small in Hx as [_ Hx].
  change (g seen ((k, x) :: l)) with (bool_decide (k ∈ seen) || duplicate_keys x || g (k :: seen) l).
  rewrite Hx, orb_false_r, orb_false_iff, bool_decide_eq_false, (IH Hf). simpl. rewrite NoDup_cons. set_solver.
Qed.

(** a document that is not ambiguous: its members, each once, as they were sent *)
Lemma watched_object tree ack :
  ambiguous tree = false -> dom tree = ack -> is_object ack = true ->
  exists l, tree = JObj l /\ NoDup l.*1 /\ size_ ack = zlen l /\ forall k, find k ack = find_member k l.
Proof.
  unfold ambiguous. intros [Hn Hd]%orb_false_iff <- Ho.
  destruct tree as [| | | | | |l|l]; try done. exists l. split; [done|].
  apply flat_duplicates in Hd; [|done]. split; [done|]. rewrite dom_object. cbn [size_ find]. split.
  - unfold zlen. rewrite dom_members_length; [simpl; lia|done|set_solver].
  - intros k. rewrite find_dom_members by done. cbn [nested] in Hn. rewrite existsb_false in Hn.
    clear -Hn. induction l as [|[k' x] l IH]; [done|]. apply Forall_cons in Hn as [Hx Hn].
    apply dom_small in Hx as [Hx _]. cbn [find_member snd] in *.
    destruct (String.eqb k k'); [by rewrite Hx|by apply IH].
Qed.
Lemma find_member_elem k v l : NoDup l.*1 -> find_member k l = Some v <-> (k, v) ∈ l.
Proof.
  induction l as [|[k' x] l IH]; simpl; [set_solver|]. intros [Hk Hn]%NoDup_cons.
  rewrite elem_of_cons, <- (IH Hn). destruct (String.eqb_spec k k') as [->|Hne].
  - split; [intros [= ->]; by left|]. intros [[= ->]|H]; [done|]. apply IH in H; [|done].
    exfalso. apply Hk. apply list_elem_of_fmap. by exists (k', v).
  - split; [by right|]. intros [[= -> ->]|H]; done.
Qed.
(** a list of distinct keys that has the members [want] and no more is [want] in some order *)
Lemma members_permuted (l want : list (string * json)) :
  NoDup l.*1 -> NoDup want.*1 -> zlen l = zlen want ->
  Forall (fun m => find_member m.1 l = Some m.2) want <-> l ≡ₚ want.
Proof.
  intros Hl Hw Hlen. split.
  - intros H. symmetry. apply submseteq_length_Permutation.
    + apply NoDup_submseteq; [by apply NoDup_fmap_1 in Hw|]. intros [k v] Hin.
      rewrite Forall_forall in H. by apply find_member_elem, (H (k, v)).
    + unfold zlen in Hlen. lia.
  - intros Hp. apply Forall_forall. intros [k v] Hin. apply find_member_elem; [done|].
    by rewrite Hp.
Qed.
Lemma flat_perm (l want : list (string * json)) :
  l ≡ₚ want -> NoDup want.*1 -> Forall (fun m => has_content m.2 = false) want ->
  ambiguous (JObj l) = false.
Proof.
  intros Hp Hn Hf. assert (Hfl : nested (JObj l) = false).
  { cbn [nested]. rewrite existsb_false. by rewrite Hp. }
  unfold ambiguous. rewrite Hfl. apply flat_duplicates; [done|]. by rewrite Hp.
Qed.

(** ** Receipts *)
Lemma is_true_spec k j : is_true k j = true <-> find k j = Some (JBool true).
Proof. unfold is_true. destruct (find k j) as [[]|]; naive_solver. Qed.
Lemma has_string_spec k j : has_string k j = true <-> exists s, find k j = Some (JStr s).
Proof. unfold has_string. destruct (find k j) as [[]|]; naive_solver. Qed.
Lemma jeq_string s j : jeq (JStr s) j = true <-> j = JStr s.
Proof. destruct j; simpl; split; try done; [by intros ->%String.eqb_eq|intros [= ->]; apply String.eqb_refl]. Qed.
Lemma member_find k j v : find k j = Some v -> member k j = v.
Proof. unfold member. by intros ->. Qed.
Lemma or_false_bind {A} (r : result A) (f : A -> result bool) :
  or_false (r ≫= f) = true <-> exists a, r = Ok a /\ or_false (f a) = true.
Proof. destruct r; simpl; naive_solver. Qed.

Section Receipts.
Context (json_events : string -> bool + json).
Abbreviation parse := (parse json_events).
Abbreviation parse_watched := (parse_watched json_events).

(** the text is an object with exactly these members, each once, in any order *)
Definition says (text : string) (want : list (string * json)) : Prop :=
  exists l, json_events text = inr (JObj l) /\ l ≡ₚ want.
(** distinct keys and members without content of their own *)
Definition plain (want : list (string * json)) : Prop :=
  NoDup want.*1 /\ Forall (fun m => has_content m.2 = false) want.
Lemma says_spec text want :
  plain want ->
  says text want <->
  exists ack, parse_watched text = Ok (false, ack) /\ is_object ack = true /\
    size_ ack = zlen want /\ Forall (fun m => find m.1 ack = Some m.2) want.
Proof.
  intros [Hn Hf]. split.
  - intros (l & He & Hp). pose proof (flat_perm _ _ Hp Hn Hf) as Ha.
    destruct (watched_object (JObj l) _ Ha eq_refl eq_refl) as (l' & [= <-] & Hl & Hs & Hk).
    exists (dom (JObj l)). unfold Transport.parse_watched. rewrite He, Ha. split; [done|]. split; [done|].
    assert (Hlen : zlen l = zlen want) by (unfold zlen; by rewrite Hp). split; [congruence|].
    apply (members_permuted l want) in Hp; [|done..]. eapply Forall_impl; [exact Hp|].
    intros m Hm. cbv beta in *. by rewrite Hk.
  - intros (ack & Hw & Ho & Hs & Hm). unfold Transport.parse_watched in Hw.
    destruct (json_events text) as [|tree] eqn:He; [done|]. injection Hw as Ha Hd.
    destruct (watched_object tree ack Ha Hd Ho) as (l & -> & Hl & Hsz & Hk).
    exists l. split; [exact He|]. apply members_permuted; [done|done|congruence|].
    eapply Forall_impl; [exact Hm|]. intros m. cbv beta. by rewrite Hk.
Qed.

(** what a payload names: its own members, or those of its manifest *)
Definition payload_manifest (payload : string) : option json :=
  match parse payload with
  | Ok sent => Some (default sent (find "manifest" sent))
  | Throw _ => None
  end.
Definition names (payload k v : string) : Prop :=
  exists m, payload_manifest payload = Some m /\ find k m = Some (JStr v).
Definition artifact_receipt (id sha : string) : list (string * json) :=
  [("retained", JBool true); ("artifact_id", JStr id); ("sha256", JStr sha)].
Definition result_receipt (id : string) : list (string * json) :=
  [("accepted", JBool true); ("retained", JBool true); ("result_id", JStr id)].
Definition acceptance_receipt (command : string) : list (string * json) :=
  [("command_id", JStr command); ("accepted", JBool true)].
Lemma plain_artifact id sha : plain (artifact_receipt id sha).
Proof. split; [apply (bool_decide_unpack _); exact I|by repeat constructor]. Qed.
Lemma plain_result id : plain (result_receipt id).
Proof. split; [apply (bool_decide_unpack _); exact I|by repeat constructor]. Qed.
Lemma plain_acceptance id : plain (acceptance_receipt id).
Proof. split; [apply (bool_decide_unpack _); exact I|by repeat constructor]. Qed.
#[local] Hint Resolve plain_artifact plain_result plain_acceptance : core.

Lemma artifact_ack_exact payload receipt :
  valid_artifact_ack json_events payload receipt = true <->
  slen receipt <= 4096 /\
  exists id sha, names payload "artifact_id" id /\ names payload "sha256" sha /\
    says receipt (artifact_receipt id sha).
Proof.
  unfold valid_artifact_ack. destruct (Z.ltb_spec 4096 (slen receipt)); [split; [done|lia]|].
  assert (Hman : forall sent, (if contains "manifest" sent then at_ "manifest" sent else Ok sent)
    = Ok (default sent (find "manifest" sent))).
  { intros sent. unfold contains. destruct (find "manifest" sent) eqn:E; [by apply at_find|done]. }
  rewrite or_false_bind. setoid_rewrite Hman. cbn [mbind result_bind].
  setoid_rewrite or_false_bind. split.
  - intros (sent & Hsent & [unclear ack] & Hw & Hb).
    cbv beta iota in Hb. destruct (_ && has_string "artifact_id" ack) eqn:E; [|done]. repeat rewrite andb_true_iff in E.
    destruct E as [[[[Hu%negb_true_iff Ho] Hsz%Z.eqb_eq] Hr%is_true_spec] [i Hi]%has_string_spec]. subst unclear.
    apply or_false_bind in Hb as (id & Hid%at_Ok & Hb).
    rewrite (member_find _ _ _ Hi) in Hb.
    destruct (jeq (JStr i) id && has_string "sha256" ack) eqn:E; [|done].
    apply andb_true_iff in E as [->%jeq_string [s Hs]%has_string_spec].
    apply or_false_bind in Hb as (sha & Hsha%at_Ok & Hb). rewrite (member_find _ _ _ Hs) in Hb. cbn [or_false] in Hb.
    apply (jeq_string s) in Hb as ->. split; [lia|]. exists i, s.
    assert (Hpm : payload_manifest payload = Some (default sent (find "manifest" sent)))
      by (unfold payload_manifest; by rewrite Hsent).
    split; [by eexists|]. split; [by eexists|].
    apply says_spec; [done|]. exists ack. by repeat constructor.
  - intros (_ & i & s & (m & Hm & Hi) & (m' & Hm' & Hs) & Hsay).
    rewrite Hm in Hm'. injection Hm' as <-. unfold payload_manifest in Hm.
    destruct (parse payload) as [sent|] eqn:Hsent; [|done]. injection Hm as <-. exists sent. split; [done|].
    apply says_spec in Hsay; [|done]. destruct Hsay as (ack & Hw & Ho & Hsz & Hf).
    exists (false, ack). split; [done|]. rewrite Ho, Hsz. cbn [negb andb].
    repeat (apply Forall_cons in Hf as [? Hf]). cbn [fst snd] in *.
    rewrite !(member_find _ _ _ H1), (member_find _ _ _ H2).
    unfold is_true, has_string. rewrite H0, H1, H2. cbn [is_string andb].
    rewrite (at_find _ _ _ Hi), (at_find _ _ _ Hs). cbn. by rewrite !String.eqb_refl.
Qed.
Lemma accept_ack_exact command receipt :
  valid_collection_accept_ack json_events command receipt = true <->
  slen receipt <= 4096 /\ says receipt (acceptance_receipt command).
Proof.
  unfold valid_collection_accept_ack. destruct (Z.ltb_spec 4096 (slen receipt)); [split; [done|lia]|].
  rewrite or_false_bind, says_spec by done. split.
  - intros ([unclear ack] & Hw & Hb). cbn in Hb. repeat rewrite andb_true_iff in Hb.
    destruct Hb as [[[[[Hu%negb_true_iff Ho] Hsz%Z.eqb_eq] [i Hi]%has_string_spec] Ht] Ha%is_true_spec].
    subst unclear. split; [lia|]. exists ack. rewrite (member_find _ _ _ Hi) in Ht.
    apply (is_text_spec command (JStr i)) in Ht as [= ->]. by repeat constructor.
  - intros (_ & ack & Hw & Ho & Hsz & Hf). exists (false, ack). split; [done|].
    repeat (apply Forall_cons in Hf as [? Hf]). cbn [fst snd] in *. rewrite Ho, Hsz.
    rewrite (member_find _ _ _ H0).
    unfold is_true, has_string. rewrite H0, H1. cbn. by rewrite String.eqb_refl.
Qed.
Lemma result_ack_exact payload receipt :
  valid_result_ack json_events payload receipt = true <->
  exists sent id, parse payload = Ok sent /\ find "result_id" sent = Some (JStr id) /\
    says receipt (result_receipt id).
Proof.
  unfold valid_result_ack. rewrite or_false_bind. setoid_rewrite or_false_bind. split.
  - intros (sent & Hsent & [unclear ack] & Hw & Hb).
    cbv beta iota in Hb. destruct (_ && has_string "result_id" ack) eqn:E; [|done]. repeat rewrite andb_true_iff in E.
    destruct E as [[[[[Hu%negb_true_iff Ho] Hsz%Z.eqb_eq] Ha%is_true_spec] Hr%is_true_spec] [i Hi]%has_string_spec].
    subst unclear. apply or_false_bind in Hb as (id & Hid%at_Ok & Hb).
    rewrite (member_find _ _ _ Hi) in Hb. cbn [or_false] in Hb. apply (jeq_string i) in Hb as ->.
    exists sent, i. split; [done|]. split; [done|]. apply says_spec; [done|].
    exists ack. by repeat constructor.
  - intros (sent & i & Hsent & Hi & Hsay). exists sent. split; [done|].
    apply says_spec in Hsay; [|done]. destruct Hsay as (ack & Hw & Ho & Hsz & Hf).
    exists (false, ack). split; [done|]. rewrite Ho, Hsz.
    repeat (apply Forall_cons in Hf as [? Hf]). cbn [fst snd] in *.
    rewrite (member_find _ _ _ H1).
    unfold is_true, has_string. rewrite H, H0, H1. cbn [negb is_object is_string andb Z.eqb].
    rewrite (at_find _ _ _ Hi). cbn. by rewrite String.eqb_refl.
Qed.

(** C15: A receipt is believed only when it is exact.  The Manager's answer retires an
    artifact, a result or an accepted collection only when it is a JSON object
    with exactly the required members, each once and in any order, naming the
    artifact identifier and digest, the result identifier or the command that
    were sent; artifact and acceptance receipts have at most 4096 bytes. *)
Theorem receipts_exact (payload command receipt : string) :
  (valid_artifact_ack json_events payload receipt = true <->
   slen receipt <= 4096 /\
   exists id sha, names payload "artifact_id" id /\ names payload "sha256" sha /\
     says receipt (artifact_receipt id sha)) /\
  (valid_result_ack json_events payload receipt = true <->
   exists sent id, parse payload = Ok sent /\ find "result_id" sent = Some (JStr id) /\
     says receipt (result_receipt id)) /\
  (valid_collection_accept_ack json_events command receipt = true <->
   slen receipt <= 4096 /\ says receipt (acceptance_receipt command)).
Proof. split; [apply artifact_ack_exact|]. split; [apply result_ack_exact|apply accept_ack_exact]. Qed.
End Receipts.

(** ** The signing input *)
Lemma app_cancel_l (a b c : string) : a +:+ b = a +:+ c -> b = c.
Proof. intros H. by apply string_app_inj_len in H as [_ ?]. Qed.
Lemma signed_line_sized name v rest :
  signed_line name v rest = name +:+ ":" +:+ sized v (String (ascii_of_N 10) rest).
Proof. done. Qed.
Lemma signed_lines_inj m1 m2 fields s1 s2 :
  signed_lines m1 fields = Ok s1 -> signed_lines m2 fields = Ok s2 -> s1 = s2 ->
  Forall (fun f => exists v, signed_value m1 f = Ok v /\ signed_value m2 f = Ok v) fields.
Proof.
  revert s1 s2. induction fields as [|f fields IH]; intros s1 s2; [constructor|].
  cbn [signed_lines]. intros H1 H2 ->. inv_ok H1. inv_ok H2. apply Ok_inj in H1 as <-, H2.
  rewrite !signed_line_sized in H2. apply app_cancel_l in H2. injection H2 as H2.
  apply sized_inj in H2 as [-> H2]. injection H2 as H2. constructor; [by eexists|]. by eapply IH.
Qed.
Lemma signing_input_run m s :
  signing_input_of m = Ok s ->
  size_ m = 12 /\ (exists a, find "authorization" m = Some a /\ size_ a = 3) /\
  exists lines, signed_lines m signed_fields = Ok lines /\ s = signing_prefix +:+ lines.
Proof.
  unfold signing_input_of. intros H. inv_ok H. apply Ok_inj in H as <-.
  repeat match goal with H : negb _ = false |- _ => apply negb_false_iff in H end.
  apply Z.eqb_eq in Ha, Ha3. apply at_Ok in Ha2. split; [done|]. split; [by eexists|]. by eexists.
Qed.
Lemma signed_value_member m name v :
  signed_value m (name, InManifest) = Ok v -> exists j, find name m = Some j.
Proof. cbn [signed_value]. intros H. inv_ok H. apply at_Ok in Ha. by eexists. Qed.
Definition manifest_keys : list string := omap (fun f => match f.2 with InManifest => Some f.1 | InAuthorization => None end) signed_fields.
(** a manifest has no member outside the signing input and the authorization *)
Lemma manifest_closed l s :
  signing_input_of (JObj l) = Ok s -> NoDup l.*1 -> l.*1 ≡ₚ "authorization" :: manifest_keys.
Proof.
  intros H Hn. apply signing_input_run in H as (Hsz & (a & Ha & _) & lines & Hl & _).
  symmetry. apply submseteq_length_Permutation.
  - apply NoDup_submseteq; [apply (bool_decide_unpack _); exact I|]. intros k Hk.
    assert (exists v, find_member k l = Some v) as [v Hv].
    { apply elem_of_cons in Hk as [->|Hk]; [by eexists|].
      apply list_elem_of_omap in Hk as ([name p] & Hin & Hp). destruct p; [|done]. injection Hp as ->.
      apply (signed_lines_inj _ _ _ _ _ Hl) in Hl as Hf; [|done]. rewrite Forall_forall in Hf.
      destruct (Hf _ Hin) as (v & Hv & _). by apply signed_value_member in Hv. }
    apply find_member_elem in Hv; [|done]. apply list_elem_of_fmap. by exists (k, v).
  - rewrite length_fmap. cbn [size_] in Hsz. unfold zlen in Hsz. vm_compute. change (length l <= 12)%nat. lia.
Qed.

(** A signature covers the whole manifest.  Two closed manifests with the same
    signing input have the same members, and agree on every one of them outside
    the authorization, and on its algorithm and key. *)
Theorem signature_covers_manifest (l1 l2 : list (string * json)) (input : string) :
  NoDup l1.*1 -> NoDup l2.*1 ->
  signing_input_of (JObj l1) = Ok input -> signing_input_of (JObj l2) = Ok input ->
  l1.*1 ≡ₚ l2.*1 /\
  (forall k, k ∈ l1.*1 -> k <> "authorization" -> (k, InManifest) ∈ signed_fields) /\
  Forall (fun f => exists v, signed_value (JObj l1) f = Ok v /\ signed_value (JObj l2) f = Ok v) signed_fields.
Proof.
  intros N1 N2 H1 H2. pose proof (manifest_closed _ _ H1 N1) as P1. pose proof (manifest_closed _ _ H2 N2) as P2.
  split; [by rewrite P1, P2|]. split.
  - intros k Hk Hne. rewrite P1 in Hk. apply elem_of_cons in Hk as [|Hk]; [done|].
    apply list_elem_of_omap in Hk as ([name p] & Hin & Hp). destruct p; [|done]. by injection Hp as <-.
  - apply signing_input_run in H1 as (_ & _ & s1 & Hl1 & E1). apply signing_input_run in H2 as (_ & _ & s2 & Hl2 & E2).
    eapply signed_lines_inj; [done|done|]. rewrite E1 in E2. by apply app_cancel_l in E2.
Qed.

(** ** Uploads *)
Lemma or_none_bind {A B} (r : result A) (f : A -> result (option B)) b :
  or_none (r ≫= f) = Some b -> exists a, r = Ok a /\ or_none (f a) = Some b.
Proof. destruct r; simpl; naive_solver. Qed.
Ltac inv_none H :=
  repeat match type of H with
  | or_none (_ ≫= _) = Some _ =>
      let a := fresh "a" in let Ha := fresh "Ha" in
      apply or_none_bind in H as (a & Ha & H); cbv beta in H
  end.
Lemma orb_guard {A} (b : bool) (x : result (option A)) (y : A) :
  or_none (if b then Ok None else x) = Some y -> b = false /\ or_none x = Some y.
Proof. destruct b; [done|]. by intros. Qed.

Section Uploads.
Context (cng_sha256 : string -> outcome (list Z)).
Context (json_events : string -> bool + json).
Context (dump : json -> result string).
Context (base64_encode : string -> string) (base64_decode : string -> option string).
Abbreviation parse := (parse json_events).
Abbreviation admissible_upload :=
  (admissible_upload cng_sha256 json_events dump base64_encode base64_decode).
Abbreviation read_progress := (read_progress json_events).

(** the content is what the signed manifest describes *)
Record verified (payload : string) (up : Upload) : Prop := {
  ver_envelope : exists envelope, parse payload = Ok envelope /\
    find "manifest" envelope = Some (up_manifest up) /\
    find "content_base64" envelope = Some (JStr (base64_encode (up_content up)));
  ver_id : find "artifact_id" (up_manifest up) = Some (JStr (up_id up));
  ver_sha : find "sha256" (up_manifest up) = Some (JStr (up_sha up));
  ver_digest : sha256_hex cng_sha256 (up_content up) = inr (up_sha up);
  ver_bytes : exists v, find "content_bytes" (up_manifest up) = Some v /\ get_u64 v = slen (up_content up);
  ver_size : 0 < slen (up_content up) <= 1024 * 1024;
  ver_decodes : base64_decode (base64_encode (up_content up)) = Some (up_content up)
}.
Lemma get_string_at k j s : (at_ k j |> get_string) = Ok s -> find k j = Some (JStr s).
Proof.
  intros H. inv_ok H. apply at_Ok in Ha as ->. destruct a; try done. by injection H as ->.
Qed.
Lemma str_empty_len s : str_empty s = false -> 0 < slen s.
Proof. destruct s; [done|]. intros _. rewrite slen_cons. pose proof (slen_nonneg s). lia. Qed.
Lemma admissible_verified payload up : admissible_upload payload = Some up -> verified payload up.
Proof.
  unfold Transport.admissible_upload. destruct (Z.ltb_spec (1500 * 1024) (slen payload)); [done|]. intros Hp.
  apply or_none_bind in Hp as (envelope & He & Hp). apply orb_guard in Hp as [_ Hp].
  apply or_none_bind in Hp as (manifest & Hm%at_Ok & Hp).
  apply or_none_bind in Hp as (text & _ & Hp). apply or_none_bind in Hp as (input & _ & Hp).
  apply or_none_bind in Hp as (id & Hid%get_string_at & Hp).
  apply or_none_bind in Hp as (sha & Hsha%get_string_at & Hp). apply orb_guard in Hp as [_ Hp].
  apply or_none_bind in Hp as (encoded & Henc%get_string_at & Hp).
  destruct (base64_decode encoded) as [content|] eqn:Hd; [|done].
  apply orb_guard in Hp as [[Hemp%str_empty_len Hbig%Z.ltb_ge]%orb_false_iff Hp].
  apply or_none_bind in Hp as (bytes & Hb%at_Ok & Hp).
  apply orb_guard in Hp as [[Hlen%negb_false_iff%Z.eqb_eq Hre%negb_false_iff%String.eqb_eq]%orb_false_iff Hp].
  destruct (sha256_hex cng_sha256 content) as [|actual] eqn:Hs; [done|].
  destruct (String.eqb_spec actual sha) as [->|]; [|done]. injection Hp as <-.
  split; cbn [up_manifest up_id up_sha up_content]; try done.
  - exists envelope. split; [done|]. split; [done|]. by rewrite Hre.
  - by exists bytes.
  - by rewrite Hre.
Qed.
Lemma read_progress_bounds up known body r d :
  read_progress up known body = Some (r, d) ->
  0 <= r <= slen (up_content up) /\ (r = slen (up_content up) \/ r mod chunk_bytes = 0).
Proof.
  unfold Transport.read_progress. destruct (4096 <? slen body); [done|]. intros H.
  apply or_none_bind in H as ([unclear value] & _ & H). apply orb_guard in H as [_ H]. inv_none H.
  apply orb_guard in H as [_ H]. inv_none H. apply orb_guard in H as [_ H]. cbv zeta in H.
  apply orb_guard in H as [Hr H]. inv_none H. apply orb_guard in H as [_ H]. injection H as <- _.
  apply orb_false_iff in Hr as [Hr1%Z.ltb_ge Hr2].
  assert (0 <= get_u64 a3) by (destruct a3; simpl; try lia; apply u64_range).
  split; [lia|]. destruct (Z.eqb_spec (get_u64 a3) (slen (up_content up))); [by left|right].
  by apply negb_false_iff, Z.eqb_eq in Hr2.
Qed.

(** PUT calls for consecutive parts of the content, from one offset to another *)
Inductive consecutive (up : Upload) : Z -> list Call -> Z -> Prop :=
| consecutive_nil off : consecutive up off [] off
| consecutive_put off digest calls off' :
    off < slen (up_content up) -> sha256_hex cng_sha256 (part_at up off) = inr digest ->
    consecutive up (off + slen (part_at up off)) calls off' ->
    consecutive up off (chunk_call up off digest :: calls) off'.
Definition bodies (calls : list Call) : string := foldr (fun c s => call_body c +:+ s) "" calls.
Lemma part_size up off :
  0 <= off -> slen (part_at up off) = Z.min chunk_bytes (Z.max 0 (slen (up_content up) - off)).
Proof. intros H. unfold part_at. rewrite slen_take, slen_drop. unfold chunk_bytes. lia. Qed.
(** together the parts are the content between the offsets *)
Lemma consecutive_bodies up off calls off' :
  0 <= off -> consecutive up off calls off' ->
  off <= off' /\ str_take (Z.to_nat off) (up_content up) +:+ bodies calls = str_take (Z.to_nat off') (up_content up).
Proof.
  intros H0 H. induction H as [off|off d calls off' Hlt Hd H IH]; [split; [lia|by rewrite string_app_nil_r]|].
  pose proof (slen_nonneg (part_at up off)). destruct IH as [Hle IH]; [lia|]. split; [lia|].
  rewrite <- IH. cbn [bodies foldr chunk_call call_body]. rewrite <- string_app_assoc. f_equal.
  rewrite part_size by lia. replace (Z.to_nat (off + Z.min chunk_bytes (Z.max 0 (slen (up_content up) - off))))
    with (Z.to_nat off + Nat.min (Z.to_nat chunk_bytes) (String.length (str_drop (Z.to_nat off) (up_content up))))%nat.
  - rewrite str_take_add. f_equal. unfold part_at. by rewrite str_take_clip.
  - pose proof (slen_drop (Z.to_nat off) (up_content up)) as Hs. unfold slen in *. unfold chunk_bytes in *. lia.
Qed.

Section Shape.
Context {X : Type} (exchange : Call -> X -> option string * X).
(** the same exchange, with a record of the calls *)
Definition logged (c : Call) (s : X * list Call) : option string * (X * list Call) :=
  let '(r, x) := exchange c s.1 in (r, (x, s.2 ++ [c])).
(** at most [n] consecutive parts were sent, and what the loop returned *)
Definition sent_parts (n : nat) (up : Upload) (received : Z) (progress : bool)
    (out : option (Z * string) * bool) (log log' : list Call) : Prop :=
  exists calls off', log' = log ++ calls /\ (length calls <= n)%nat /\ consecutive up received calls off' /\
    (forall r d, out.1 = Some (r, d) -> r = off') /\ (out.2 = true -> progress = true \/ calls <> []).
Lemma sent_none n up received progress out log :
  (forall r d, out.1 = Some (r, d) -> r = received) -> out.2 = progress ->
  sent_parts n up received progress out log log.
Proof.
  intros Ho Hp. exists [], received. rewrite app_nil_r. split_and!; [done|simpl; lia|constructor|done|].
  rewrite Hp. by left.
Qed.
Lemma sent_last n up received progress out log digest :
  received < slen (up_content up) -> sha256_hex cng_sha256 (part_at up received) = inr digest ->
  out = (None, progress) ->
  sent_parts (S n) up received progress out log (log ++ [chunk_call up received digest]).
Proof.
  intros Hlt Hd ->. eexists _, _.
  split_and!; [done|simpl; lia|eapply consecutive_put; [done|done|constructor]|done|by left].
Qed.
Lemma send_chunks_shape n up received known progress x log out x' log' :
  0 <= received ->
  send_chunks cng_sha256 json_events logged n up received known progress (x, log) = (out, (x', log')) ->
  sent_parts n up received progress out log log'.
Proof.
  revert received known progress x log out. induction n as [|n IH]; intros received known progress x log out H0;
    cbn [send_chunks]; [intros [= <- <- <-]; apply sent_none; [by intros ? ? [= -> ->]|done]|].
  destruct (Z.leb_spec (slen (up_content up)) received) as [|Hlt];
    [intros [= <- <- <-]; apply sent_none; [by intros ? ? [= -> ->]|done]|].
  destruct (sha256_hex cng_sha256 (part_at up received)) as [e|digest] eqn:Hd;
    [intros [= <- <- <-]; by apply sent_none|].
  unfold logged at 1. cbn [fst snd]. destruct (exchange (chunk_call up received digest) x) as [[reply|] x1];
    [|intros [= <- <- <-]; by apply sent_last].
  destruct (read_progress up known reply) as [[next known']|]; [|intros [= <- <- <-]; by apply sent_last].
  destruct (Z.eqb_spec next (received + slen (part_at up received))) as [->|];
    [|intros [= <- <- <-]; by apply sent_last].
  intros E. apply IH in E as (calls & off' & -> & Hlen & Hc & Hr & Hp);
    [|pose proof (slen_nonneg (part_at up received)); lia].
  exists (chunk_call up received digest :: calls), off'. rewrite <- app_assoc.
  split_and!; [done|simpl; lia|by eapply consecutive_put|done|by right].
Qed.

Lemma logged_run c s r s' :
  logged c s = (r, s') -> exists x', exchange c s.1 = (r, x') /\ s' = (x', s.2 ++ [c]).
Proof. unfold logged. destruct (exchange c s.1) as [r' x']. intros [= <- <-]. by eexists. Qed.
(** what a call of [resume_artifact_upload] has sent when it returns *)
Inductive upload_sent (payload : string) : list Call -> option string -> Prop :=
| sent_nothing : upload_sent payload [] None
| sent_some up admission off parts off' last r :
    verified payload up -> admission_call dump up = Ok admission -> 0 <= off ->
    (length parts <= 4)%nat -> consecutive up off parts off' ->
    str_take (Z.to_nat off) (up_content up) +:+ bodies parts = str_take (Z.to_nat off') (up_content up) ->
    (last = [] /\ r = None \/
     exists digest completion, completion_call dump up digest = Ok completion /\ last = [completion] /\
       off' = slen (up_content up) /\
       forall receipt, r = Some receipt -> valid_artifact_ack json_events payload receipt = true) ->
    upload_sent payload (admission :: parts ++ last) r.
Lemma upload_shape payload x r progress x' calls :
  resume_artifact_upload cng_sha256 json_events dump base64_encode base64_decode logged payload (x, [])
    = (r, progress, (x', calls)) ->
  upload_sent payload calls r /\ (progress = true -> (2 <= length calls)%nat).
Proof.
  unfold resume_artifact_upload. destruct (admissible_upload payload) as [up|] eqn:Hup;
    [|intros [= <- <- <- <-]; split; [constructor|done]].
  apply admissible_verified in Hup.
  destruct (admission_call dump up) as [admission|] eqn:Had; [|intros [= <- <- <- <-]; split; [constructor|done]].
  destruct (logged admission (x, [])) as [o s1] eqn:E1. apply logged_run in E1 as (x1 & _ & ->). cbn [snd app].
  assert (Hend : forall off parts off' last r, 0 <= off -> (length parts <= 4)%nat -> consecutive up off parts off' ->
    last = [] /\ r = None \/ (exists digest completion, completion_call dump up digest = Ok completion /\
       last = [completion] /\ off' = slen (up_content up) /\
       forall receipt, r = Some receipt -> valid_artifact_ack json_events payload receipt = true) ->
    upload_sent payload (admission :: parts ++ last) r)
    by (intros; eapply sent_some; try done; by eapply consecutive_bodies).
  destruct o as [admitted|];
    [|intros [= <- <- <- <-]; split; [|done]; apply (Hend 0 [] 0 []); [done|simpl; lia|constructor|by left]].
  destruct (read_progress up "" admitted) as [[received known]|] eqn:Hr;
    [|intros [= <- <- <- <-]; split; [|done]; apply (Hend 0 [] 0 []); [done|simpl; lia|constructor|by left]].
  apply read_progress_bounds in Hr as [Hr _].
  destruct (send_chunks _ _ _ 4 up received known false _) as [[o p] [x2 log]] eqn:E2.
  apply send_chunks_shape in E2 as (parts & off' & -> & Hlen & Hc & Ho & Hp); [|lia]. cbn [fst snd] in *.
  assert (Hpr : forall last, p = true -> (2 <= length (([admission] ++ parts) ++ last))%nat).
  { intros last ->. destruct Hp as [|Hp]; [done|done|]. destruct parts; [done|]. simpl. lia. }
  assert (Hstop : upload_sent payload ([admission] ++ parts) None).
  { rewrite <- (app_nil_r parts). apply (Hend received parts off'); [lia|done|done|by left]. }
  specialize (Hpr []) as Hpr0. rewrite app_nil_r in Hpr0.
  destruct o as [[received' known']|]; [|by intros [= <- <- <- <-]].
  specialize (Ho _ _ eq_refl) as ->.
  destruct (Z.eqb_spec off' (slen (up_content up))) as [->|]; cbn [negb]; [|by intros [= <- <- <- <-]].
  destruct (completion_call dump up known') as [completion|] eqn:Hcc; [|by intros [= <- <- <- <-]].
  destruct (logged completion _) as [o s3] eqn:E3. apply logged_run in E3 as (x3 & _ & ->). cbn [snd].
  assert (Hfin : forall r, (forall receipt, r = Some receipt -> valid_artifact_ack json_events payload receipt = true) ->
    upload_sent payload (([admission] ++ parts) ++ [completion]) r).
  { intros r0 Hr0. apply (Hend received parts (slen (up_content up)) [completion]); [lia|done|done|right].
    by exists known', completion. }
  destruct o as [receipt|]; intros [= <- <- <- <-]; (split; [apply Hfin|by apply Hpr]); [|done].
  destruct (valid_artifact_ack json_events payload receipt) eqn:E; [by intros ? [= <-]|done].
Qed.

End Shape.
End Uploads.

(** ** Where requests go *)
Definition secure (r : Request) : Prop := verify_tls r = true /\ looks_like_https (request_url r) = true.
Definition sends_securely (h h' : list Request) : Prop := exists new, h' = h ++ new /\ Forall secure new.
Lemma secure_refl h : sends_securely h h.
Proof. exists []. by rewrite app_nil_r. Qed.
Lemma secure_trans a b c : sends_securely a b -> sends_securely b c -> sends_securely a c.
Proof.
  intros (n1 & -> & F1) (n2 & -> & F2). exists (n1 ++ n2). rewrite app_assoc. split; [done|]. by apply Forall_app.
Qed.
(** appending a path keeps the scheme, even when the address ends in its slash *)
Lemma https_path url path :
  looks_like_https url = true -> looks_like_https (without_trailing_slash url +:+ String "/" path) = true.
Proof.
  unfold looks_like_https, without_trailing_slash. intros H.
  assert (exists rest, url = "https://" +:+ rest) as [rest ->].
  { revert H. generalize "https://" as p. intros p. revert url.
    induction p as [|c p IH]; intros url H; [by exists url|]. destruct url as [|d url]; [done|]. simpl in H.
    apply andb_true_iff in H as [->%Ascii.eqb_eq H]. apply IH in H as [rest ->]. by exists rest. }
  destruct (_ && _); [|by rewrite string_app_assoc; apply starts_with_app].
  destruct rest as [|c rest]; [done|].
  rewrite str_length_app. replace (_ + _ - 1)%nat with (String.length "https://" + String.length rest)%nat by (simpl; lia).
  rewrite str_take_add. change (str_take (String.length "https://") ("https://" +:+ String c rest)) with "https://".
  rewrite string_app_assoc. apply starts_with_app.
Qed.
Lemma send_secure network timeout verb url headers body h r h' :
  looks_like_https url = true -> send network timeout verb url headers body h = (r, h') -> sends_securely h h'.
Proof. intros Hu [= <- <-]. eexists. split; [done|]. by repeat constructor. Qed.

Section Preserves.
Context (cng_sha256 : string -> outcome (list Z)) (json_events : string -> bool + json).
Context (dump : json -> result string).
Context (base64_encode : string -> string) (base64_decode : string -> option string).
Context {X : Type} (exchange : Call -> X -> option string * X).
Context (R : X -> X -> Prop) `{!PreOrder R} (step : forall c x, R x (exchange c x).2).
Lemma send_chunks_rel n up received known progress x out x' :
  send_chunks cng_sha256 json_events exchange n up received known progress x = (out, x') -> R x x'.
Proof.
  revert received known progress x. induction n as [|n IH]; intros received known progress x; cbn [send_chunks];
    [by intros [= _ <-]|]. destruct (_ <=? _); [by intros [= _ <-]|].
  destruct (sha256_hex _ _) as [|d]; [by intros [= _ <-]|].
  pose proof (step (chunk_call up received d) x) as Hs. destruct (exchange _ x) as [[reply|] x1]; [|by intros [= _ <-]].
  destruct (read_progress _ _ _ _) as [[next known']|]; [|by intros [= _ <-]].
  destruct (_ =? _); [|by intros [= _ <-]]. intros E. etransitivity; [exact Hs|]. by eapply IH.
Qed.
Lemma resume_rel payload x out x' :
  resume_artifact_upload cng_sha256 json_events dump base64_encode base64_decode exchange payload x = (out, x') ->
  R x x'.
Proof.
  unfold resume_artifact_upload. destruct (admissible_upload _ _ _ _ _ payload) as [up|]; [|by intros [= _ <-]].
  destruct (admission_call dump up) as [call|]; [|by intros [= _ <-]].
  pose proof (step call x) as H1. destruct (exchange call x) as [[admitted|] x1]; [|by intros [= _ <-]].
  destruct (read_progress _ _ _ _) as [[received known]|]; [|by intros [= _ <-]].
  destruct (send_chunks _ _ _ 4 up received known false x1) as [[o p] x2] eqn:E. apply send_chunks_rel in E.
  assert (H2 : R x x2) by (etransitivity; done).
  destruct o as [[received' known']|]; [|by intros [= _ <-]]. destruct (negb _); [by intros [= _ <-]|].
  destruct (completion_call dump up known') as [c|]; [|by intros [= _ <-]].
  pose proof (step c x2) as H3. destruct (exchange c x2) as [[receipt|] x3];
    intros [= _ <-]; by etransitivity.
Qed.
End Preserves.

Section Secure.
Context (cng_sha256 : string -> outcome (list Z)) (json_events : string -> bool + json).
Context (dump : json -> result string).
Context (base64_encode : string -> string) (base64_decode : string -> option string).
Context (sign_raw : EcKeyPair -> string -> outcome string) (network : list Request -> reply).
(** the operations of the client *)
Inductive client_call :=
| RequestChallenge (url : string)
| Enroll (url agent host token : string) (keypair : EcKeyPair) (nonce : string)
| PollCommands (url : string) (identity : EnrolledIdentity) (profile : string)
| AcceptCommand (url : string) (identity : EnrolledIdentity) (command : string)
| SubmitResult (url : string) (identity : EnrolledIdentity) (payload : string)
| SubmitArtifact (url : string) (identity : EnrolledIdentity) (payload : string).
Definition client_step (c : Client) (call : client_call) (h : list Request) : list Request :=
  match call with
  | RequestChallenge url => (request_enrollment_challenge json_events network c url h).2
  | Enroll url agent host token keypair nonce =>
      (enroll json_events dump base64_encode base64_decode sign_raw network c url agent host token keypair nonce h).2
  | PollCommands url identity profile => (poll_commands base64_encode network c url identity profile h).2
  | AcceptCommand url identity command => (accept_command json_events network c url identity command h).2
  | SubmitResult url identity payload => (submit_command_result json_events network c url identity payload h).2
  | SubmitArtifact url identity payload =>
      (submit_artifact cng_sha256 json_events dump base64_encode base64_decode network c url identity payload h).2
  end.
Lemma orb_first a b : a || b = false -> a = false.
Proof. by destruct a. Qed.
Ltac https := repeat match goal with H : _ || _ = false |- _ => apply orb_first in H end;
  match goal with H : negb _ = false |- _ => apply negb_false_iff in H end.
#[local] Instance sends_preorder : PreOrder sends_securely.
Proof. split; [intros h; apply secure_refl|intros a b c; apply secure_trans]. Qed.

(** Every request of the response path goes to an HTTPS address with certificate
    verification on, whatever the caller passes and the network replies. *)
Theorem requests_secure (c : Client) (call : client_call) (h : list Request) :
  sends_securely h (client_step c call h).
Proof.
  destruct call; cbn [client_step].
  - unfold request_enrollment_challenge. destruct (negb _) eqn:E; [apply secure_refl|]. https.
    destruct (send _ _ _ _ _ _ h) as [r h'] eqn:Es. eapply send_secure; [|exact Es]. by apply https_path.
  - unfold enroll. destruct (_ || _) eqn:E; [apply secure_refl|]. https.
    destruct (base64_decode nonce); [|apply secure_refl]. destruct (sign_raw _ _); [apply secure_refl|].
    destruct (dump _); [|apply secure_refl]. destruct (send _ _ _ _ _ _ h) as [r h'] eqn:Es.
    eapply send_secure; [|exact Es]. by apply https_path.
  - unfold poll_commands. destruct (_ || _) eqn:E; [apply secure_refl|]. https.
    destruct (_ && _); [apply secure_refl|]. destruct (send _ _ _ _ _ _ h) as [r h'] eqn:Es.
    eapply send_secure; [|exact Es]. unfold agent_url. rewrite string_app_assoc. by apply https_path.
  - unfold accept_command. destruct (_ || _) eqn:E; [apply secure_refl|]. https.
    destruct (send _ _ _ _ _ _ h) as [r h'] eqn:Es.
    eapply send_secure; [|exact Es]. unfold agent_url. rewrite string_app_assoc. by apply https_path.
  - unfold submit_command_result. destruct (_ || _) eqn:E; [apply secure_refl|]. https.
    destruct (send _ _ _ _ _ _ h) as [r h'] eqn:Es.
    eapply send_secure; [|exact Es]. unfold agent_url. rewrite string_app_assoc. by apply https_path.
  - unfold submit_artifact. destruct (_ || _) eqn:E; [apply secure_refl|]. https.
    destruct (payload_command json_events payload) as [command|]; [|apply secure_refl].
    destruct (negb _); [apply secure_refl|].
    destruct (resume_artifact_upload _ _ _ _ _ _ payload h) as [out h'] eqn:Er. cbn [snd].
    eapply (resume_rel _ _ _ _ _ _ sends_securely); [|exact Er]. intros call x. unfold artifact_exchange.
    destruct (send _ _ _ _ _ _ x) as [r x'] eqn:Es. eapply send_secure; [|exact Es].
    unfold artifact_base, agent_url. rewrite !string_app_assoc. by apply https_path.
Qed.
End Secure.
