(* ===== verification/ArtifactFacts.v ===== *)
(** * From collected evidence to a finished upload

    An artifact that is made and signed here passes the checks of its own upload,
    and against a Manager that follows the chunk protocol the upload finishes in
    as many rounds as its size needs. *)

From S2P Require Import Prelude Telemetry Uploader Identity Ledger Json Enrollment Command Transport TransportFacts.

(** ** Documents that survive printing and parsing *)
Fixpoint keys_sorted (l : list string) : bool :=
  match l with
  | a :: (b :: _) as r => match String.compare a b with Lt => keys_sorted r | _ => false end
  | _ => true
  end.
(** objects with sorted keys, no floating numbers, non-negative integers unsigned *)
Fixpoint stable (j : json) : bool :=
  match j with
  | JInt z => (z <? 0) && (-9223372036854775808 <=? z)
  | JUint z => (0 <=? z) && (z <=? u64_max)
  | JFloat _ => false
  | JArr l => forallb stable l
  | JObj l => keys_sorted l.*1 && forallb (fun m => stable m.2) l
  | _ => true
  end.
(** every string and key is valid text *)
Fixpoint texts_valid (valid : string -> bool) (j : json) : bool :=
  match j with
  | JStr s => valid s
  | JArr l => forallb (texts_valid valid) l
  | JObj l => forallb (fun m => valid m.1 && texts_valid valid m.2) l
  | _ => true
  end.
Definition is_ascii (c : ascii) : bool := code c <? 128.
Lemma keys_sorted_cons k l : keys_sorted (k :: l) = true -> Forall (key_lt k) l /\ keys_sorted l = true.
Proof.
  revert k. induction l as [|b l IH]; intros k; [done|]. intros H. cbn [keys_sorted] in H.
  destruct (String.compare k b) eqn:E; try done. split; [|done]. apply IH in H as [Hb _].
  constructor; [done|]. eapply Forall_impl; [exact Hb|]. intros x Hx. by eapply key_lt_trans.
Qed.
Lemma stable_object l :
  keys_sorted l.*1 = true -> Forall (fun m => stable m.2 = true) l -> stable (JObj l) = true.
Proof.
  intros Hk H. cbn [stable]. rewrite Hk. cbn [andb]. induction H as [|m l Hm _ IH]; [done|]. cbn [forallb].
  rewrite Hm. apply IH. by destruct l; [|apply keys_sorted_cons in Hk as [_ ?]].
Qed.
Lemma stable_uint z : 0 <= z <= u64_max -> stable (JUint z) = true.
Proof. intros H. cbn [stable]. rewrite andb_true_iff, !Z.leb_le. lia. Qed.
Lemma put_member_last k v l :
  Forall (fun x => key_lt x k) l.*1 -> put_member k v l = l ++ [(k, v)].
Proof.
  induction l as [|[k' v'] l IH]; [done|]. cbn [fmap list_fmap fst]. intros [Hk Hl]%Forall_cons.
  cbn [put_member]. unfold key_lt in Hk. rewrite String.compare_antisym, Hk. simpl. by rewrite IH.
Qed.
Lemma dom_stable : forall j, stable j = true -> dom j = j.
Proof.
  fix IH 1. intros [|b|z|z|q|s|l|l]; try done; intros H.
  - cbn [dom]. f_equal. cbn [stable] in H. induction l as [|x l IHl]; [done|]. simpl in H.
    apply andb_true_iff in H as [Hx Hl]. rewrite IH by done. f_equal. by apply IHl.
  - rewrite dom_object. f_equal. cbn [stable] in H. apply andb_true_iff in H as [Hs H].
    enough (Hacc : forall acc, Forall (fun x => Forall (key_lt x) l.*1) acc.*1 -> dom_members l acc = acc ++ l)
      by (apply (Hacc []); constructor).
    unfold dom_members. induction l as [|[k x] l IHl]; intros acc Ha; [by rewrite app_nil_r|].
    simpl in H. apply andb_true_iff in H as [Hx Hl]. cbn [fmap list_fmap fst] in *.
    apply keys_sorted_cons in Hs as [Hk Hs]. cbn [foldl fst snd]. rewrite (IH x Hx).
    rewrite put_member_last by (eapply Forall_impl; [exact Ha|]; by intros y [? _]%Forall_cons).
    rewrite (IHl Hs Hl); [by rewrite <- app_assoc|].
    rewrite fmap_app. apply Forall_app. split; [|by repeat constructor].
    eapply Forall_impl; [exact Ha|]. by intros y [_ ?]%Forall_cons.
Qed.

Section Artifact.
Context (cng_sha256 : string -> outcome (list Z)).
Context (json_events : string -> bool + json).
Context (dump : json -> result string).
Context (base64_encode : string -> string) (base64_decode : string -> option string).
Context (sign_raw : EcKeyPair -> string -> outcome string).
(** digests are 32 bytes *)
Context (digest_bytes : forall s d, cng_sha256 s = inr d -> zlen d = 32 /\ Forall (fun b => 0 <= b < 256) d).
(** printed documents are read back, encoded bytes decoded *)
Context (reads_back : forall j s, stable j = true -> dump j = Ok s -> json_events s = inr j).
(** printing fails exactly on text that is not UTF-8 *)
Context (valid_utf8 : string -> bool).
Context (prints : forall j, (exists s, dump j = Ok s) <-> texts_valid valid_utf8 j = true).
Context (ascii_valid : forall s, str_forallb is_ascii s = true -> valid_utf8 s = true).
Context (decodes_back : forall s, s <> "" -> base64_decode (base64_encode s) = Some s).
Abbreviation parse := (parse json_events).

Lemma parse_dump j s : stable j = true -> dump j = Ok s -> parse s = Ok j.
Proof. intros Hj Hs. unfold Transport.parse. rewrite (reads_back _ _ Hj Hs). by rewrite dom_stable. Qed.
Lemma sha256_hexadecimal s h : sha256_hex cng_sha256 s = inr h -> hexadecimal h = true.
Proof.
  unfold sha256_hex. destruct (_ <? _); [done|]. destruct (cng_sha256 s) as [|d] eqn:E; [done|]. intros [= <-].
  apply digest_bytes in E as [Hl Hb]. unfold hexadecimal. rewrite hex_bytes_length, Hl, hex_bytes_lower by done. done.
Qed.
Lemma sha256_run w s h : sha256 cng_sha256 w s = Ok h -> sha256_hex cng_sha256 s = inr h.
Proof. unfold sha256. by destruct (sha256_hex cng_sha256 s); intros [= <-]. Qed.

Lemma document_stable command correlation host kind content digest identity :
  slen content <= 1024 * 1024 ->
  stable (artifact_document base64_encode command correlation host kind content digest identity) = true.
Proof.
  intros Hc. pose proof (slen_nonneg content). apply stable_object; [reflexivity|].
  repeat (apply Forall_cons; split; [first [done|apply stable_uint; unfold u64_max in *; lia]|]). constructor.
Qed.
(** the manifest of a signed artifact, as its members *)
Definition manifest_of (agent command correlation host kind content digest identity : string) (at_unix : Z)
    (authorization : json) : json :=
  JObj [("agent_id", JStr agent); ("artifact_id", JStr ("art_" +:+ identity)); ("authorization", authorization);
        ("command_id", JStr command); ("content_bytes", JUint (slen content)); ("correlation_id", JStr correlation);
        ("host_id", JStr host); ("kind", JStr kind); ("media_type", JStr "application/json");
        ("produced_at_unix", JUint at_unix); ("schema_version", JStr "2"); ("sha256", JStr digest)].
Lemma signed_manifest agent command correlation host kind content digest identity t key sig :
  set_member "authorization" (authorization_json base64_encode key sig)
    (set_member "produced_at_unix" (JUint t) (set_member "agent_id" (JStr agent)
      (set_member "schema_version" (JStr "2") (erase "content_base64"
        (artifact_document base64_encode command correlation host kind content digest identity)))))
  = manifest_of agent command correlation host kind content digest identity t
      (authorization_json base64_encode key sig).
Proof. reflexivity. Qed.
Lemma manifest_input agent command correlation host kind content digest identity t key sig :
  exists input, signing_input_of (manifest_of agent command correlation host kind content digest identity t
    (authorization_json base64_encode key sig)) = Ok input.
Proof. by eexists. Qed.
Lemma manifest_stable agent command correlation host kind content digest identity t key sig :
  slen content <= 1024 * 1024 -> 0 <= t <= u64_max ->
  stable (manifest_of agent command correlation host kind content digest identity t
    (authorization_json base64_encode key sig)) = true.
Proof.
  intros Hc Ht. pose proof (slen_nonneg content). apply stable_object; [reflexivity|].
  repeat (apply Forall_cons; split; [first [done|apply stable_uint; unfold u64_max in *; lia|reflexivity]|]).
  constructor.
Qed.

(** the payload that is queued: the manifest and the encoded content *)
Lemma signed_payload command correlation host kind content agent keypair t unsigned payload :
  make_artifact_payload cng_sha256 json_events dump base64_encode command correlation host kind content = Ok unsigned ->
  sign_artifact_payload cng_sha256 json_events dump base64_encode sign_raw unsigned agent keypair t = Ok payload ->
  0 <= t <= u64_max ->
  exists digest identity key sig manifest,
    manifest = manifest_of agent command correlation host kind content digest identity t
                 (authorization_json base64_encode key sig) /\
    0 < slen content <= 1024 * 1024 /\ sha256_hex cng_sha256 content = inr digest /\ hexadecimal identity = true /\
    dump (JObj [("content_base64", JStr (base64_encode content)); ("manifest", manifest)]) = Ok payload.
Proof.
  unfold make_artifact_payload, sign_artifact_payload. intros Hm Hs Ht.
  apply bind_Ok in Hm as (? & Hb%throw_if_Ok & Hm).
  apply orb_false_iff in Hb as [He%str_empty_len Hb%Z.ltb_ge].
  apply bind_Ok in Hm as (doc & _ & Hm). apply bind_Ok in Hm as (? & _ & Hm).
  apply bind_Ok in Hm as (digest & Hd%sha256_run & Hm). apply bind_Ok in Hm as (identity & Hi%sha256_run & Hm).
  pose proof (slen_nonneg content).
  apply parse_dump in Hm; [|by apply document_stable].
  rewrite Hm in Hs. cbn [mbind result_bind] in Hs.
  apply bind_Ok in Hs as (encoded & Henc & Hs). apply at_Ok in Henc. injection Henc as <-. cbv zeta in Hs.
  apply bind_Ok in Hs as (key & _ & Hs). rewrite !signed_manifest in Hs.
  apply bind_Ok in Hs as (text & _ & Hs). apply bind_Ok in Hs as (input & _ & Hs).
  apply bind_Ok in Hs as (sig & _ & Hs). rewrite signed_manifest in Hs.
  exists digest, identity, (str_take 16 key), sig. eexists. split_and!; [done|lia|lia|done| |exact Hs].
  by eapply sha256_hexadecimal.
Qed.
Lemma find_get_string k j s : find k j = Some (JStr s) -> (at_ k j |> get_string) = Ok s.
Proof. intros H. by rewrite (at_find _ _ _ H). Qed.
Lemma admissible_intro payload envelope up text input v :
  parse payload = Ok envelope -> slen payload <= 1500 * 1024 ->
  is_object envelope = true -> size_ envelope = 2 -> find "manifest" envelope = Some (up_manifest up) ->
  dump (up_manifest up) = Ok text -> artifact_manifest_signing_input json_events text = Ok input ->
  find "artifact_id" (up_manifest up) = Some (JStr (up_id up)) ->
  find "sha256" (up_manifest up) = Some (JStr (up_sha up)) ->
  starts_with "art_" (up_id up) = true -> hexadecimal (str_drop 4 (up_id up)) = true ->
  hexadecimal (up_sha up) = true -> find "content_base64" envelope = Some (JStr (base64_encode (up_content up))) ->
  base64_decode (base64_encode (up_content up)) = Some (up_content up) ->
  0 < slen (up_content up) <= 1024 * 1024 ->
  find "content_bytes" (up_manifest up) = Some v /\ get_u64 v = slen (up_content up) ->
  sha256_hex cng_sha256 (up_content up) = inr (up_sha up) ->
  admissible_upload cng_sha256 json_events dump base64_encode base64_decode payload = Some up.
Proof.
  intros Hp Hsize Ho Hsz Hm Ht Hin Hid Hsha Hpre Hhid Hhsha Henc Hdec Hlen [Hb Hv] Hd.
  unfold admissible_upload. destruct (Z.ltb_spec (1500 * 1024) (slen payload)); [lia|].
  rewrite Hp. cbn [mbind result_bind]. rewrite Ho, Hsz. cbn [negb orb Z.eqb Pos.eqb].
  rewrite (at_find _ _ _ Hm). cbn [mbind result_bind]. rewrite Ht. cbn [mbind result_bind].
  rewrite Hin. cbn [mbind result_bind]. rewrite (find_get_string _ _ _ Hid). cbn [mbind result_bind].
  rewrite (find_get_string _ _ _ Hsha). cbn [mbind result_bind]. rewrite Hpre, Hhid, Hhsha. cbn [negb orb].
  rewrite (find_get_string _ _ _ Henc). cbn [mbind result_bind]. rewrite Hdec.
  assert (str_empty (up_content up) = false) as -> by (destruct (up_content up); [unfold slen in Hlen; simpl in Hlen; lia|done]).
  destruct (Z.ltb_spec (1024 * 1024) (slen (up_content up))); [lia|]. cbn [orb].
  rewrite (at_find _ _ _ Hb). cbn [mbind result_bind]. rewrite Hv, Z.eqb_refl, String.eqb_refl. cbn [negb orb].
  rewrite Hd, String.eqb_refl. by destruct up.
Qed.
Lemma signed_payload_admissible command correlation host kind content agent keypair t unsigned payload :
  make_artifact_payload cng_sha256 json_events dump base64_encode command correlation host kind content = Ok unsigned ->
  sign_artifact_payload cng_sha256 json_events dump base64_encode sign_raw unsigned agent keypair t = Ok payload ->
  0 <= t <= u64_max -> slen payload <= 1500 * 1024 ->
  exists up, admissible_upload cng_sha256 json_events dump base64_encode base64_decode payload = Some up /\
    up_content up = content /\ find "command_id" (up_manifest up) = Some (JStr command).
Proof.
  intros Hm Hs Ht Hsize.
  destruct (signed_payload _ _ _ _ _ _ _ _ _ _ Hm Hs Ht)
    as (digest & identity & key & sig & manifest & Em & Hc & Hd & Hi & Hp).
  assert (Hst : stable manifest = true) by (rewrite Em; apply manifest_stable; lia).
  assert (exists text, dump manifest = Ok text) as [text Htext].
  { apply prints. pose proof (proj1 (prints _) (ex_intro _ _ Hp)) as Hv. cbn [texts_valid forallb snd] in Hv.
    repeat rewrite andb_true_iff in Hv. tauto. }
  apply parse_dump in Hp; [|cbn [stable fmap list_fmap fst keys_sorted forallb snd]; by rewrite Hst].
  exists {| up_manifest := manifest; up_id := "art_" +:+ identity; up_sha := digest; up_content := content |}.
  destruct (manifest_input agent command correlation host kind content digest identity t key sig) as [input Hin].
  split; [|split; [done|by rewrite Em]].
  eapply admissible_intro; cbn [up_manifest up_id up_sha up_content].
  all: try first [exact Hp|exact Htext|exact Hd|exact Hi|lia|done].
  - unfold artifact_manifest_signing_input. rewrite (parse_dump _ _ Hst Htext), Em. exact Hin.
  - by rewrite Em.
  - by rewrite Em.
  - by eapply sha256_hexadecimal.
  - apply decodes_back. intros ->. simpl in Hc. unfold slen in Hc. simpl in Hc. lia.
  - rewrite Em. split; [reflexivity|]. cbn [get_u64]. apply u64_small. unfold u64_max. lia.
Qed.

(** ** A Manager that follows the chunk protocol *)
Definition progress_members (up : Upload) (manifest_sha expires : string) (received : Z) : list (string * json) :=
  [("schema_version", JStr "1"); ("artifact_id", JStr (up_id up)); ("sha256", JStr (up_sha up));
   ("manifest_sha256", JStr manifest_sha); ("received_bytes", JUint received); ("chunk_bytes", JUint chunk_bytes);
   ("complete", JBool false); ("expires_at", JStr expires)].
Lemma plain_progress up m e r : plain (progress_members up m e r).
Proof. split; [apply (bool_decide_unpack _); exact I|by repeat constructor]. Qed.
Definition aligned (up : Upload) (received : Z) : Prop :=
  0 <= received <= slen (up_content up) /\ (received = slen (up_content up) \/ received mod chunk_bytes = 0).
Lemma read_progress_ok up known m e r body :
  slen body <= 4096 -> says json_events body (progress_members up m e r) -> hexadecimal m = true -> e <> "" ->
  aligned up r -> slen (up_content up) <= 1024 * 1024 -> known = "" \/ known = m ->
  read_progress json_events up known body = Some (r, m).
Proof.
  intros Hb Hs Hm He [Hr Hal] Hsize Hk. unfold read_progress. destruct (Z.ltb_spec 4096 (slen body)); [lia|].
  apply says_spec in Hs as (value & Hw & Ho & Hsz & Hf); [|apply plain_progress].
  rewrite Hw. cbn [mbind result_bind]. rewrite Ho, Hsz. cbn [negb orb].
  change (negb (zlen (progress_members up m e r) =? 8)) with false. cbn iota.
  repeat (apply Forall_cons in Hf as [?Hf0 Hf]). cbn [fst snd] in *.
  repeat match goal with
  | H : find _ value = Some _ |- _ => apply at_find in H; try (rewrite H; cbn [mbind result_bind])
  end.
  unfold is_text at 1 2 3. cbn [jeq is_string is_number_unsigned is_boolean negb orb get_string].
  rewrite !String.eqb_refl. cbn [negb orb mbind result_bind Bool.eqb].
  change (jeq (JUint chunk_bytes) (JUint chunk_bytes)) with true. cbn [negb orb]. rewrite Hm. cbn [negb orb].
  assert (negb (str_empty known) && negb (String.eqb m known) = false) as ->.
  { destruct Hk as [->| ->]; [done|]. rewrite String.eqb_refl. by rewrite andb_false_r. }
  cbn [get_u64]. rewrite (u64_small r) by (unfold u64_max; lia).
  destruct (Z.ltb_spec (slen (up_content up)) r); [lia|].
  assert (negb (r =? slen (up_content up)) && negb (r mod chunk_bytes =? 0) = false) as ->.
  { destruct Hal as [->| ->]; [by rewrite Z.eqb_refl|]. by rewrite andb_false_r. }
  cbn [orb andb negb mbind result_bind is_string]. unfold is_text. cbn [jeq].
  destruct (String.eqb_spec e ""); [done|]. done.
Qed.

Section Completes.
Context {X : Type} (exchange : Call -> X -> option string * X).
Context (up : Upload) (payload manifest_sha expires : string) (has : X -> Z).
(** replies of the Manager: [has] is the number of bytes it has *)
Record follows_protocol : Prop := {
  fp_aligned x : aligned up (has x);
  fp_admits x call : admission_call dump up = Ok call -> exists body x', exchange call x = (Some body, x') /\
    has x' = has x /\ slen body <= 4096 /\ says json_events body (progress_members up manifest_sha expires (has x));
  fp_stores x digest : has x < slen (up_content up) -> sha256_hex cng_sha256 (part_at up (has x)) = inr digest ->
    exists body x', exchange (chunk_call up (has x) digest) x = (Some body, x') /\
      has x' = has x + slen (part_at up (has x)) /\ slen body <= 4096 /\
      says json_events body (progress_members up manifest_sha expires (has x'));
  fp_finishes x call : has x = slen (up_content up) -> completion_call dump up manifest_sha = Ok call ->
    exists receipt x', exchange call x = (Some receipt, x') /\
      slen receipt <= 4096 /\ says json_events receipt (artifact_receipt (up_id up) (up_sha up))
}.
Context (admissible : admissible_upload cng_sha256 json_events dump base64_encode base64_decode payload = Some up).
Context (protocol : follows_protocol) (hex_sha : hexadecimal manifest_sha = true) (expiring : expires <> "").
(** the digest provider answers *)
Context (digests : forall s, slen s <= chunk_bytes -> exists d, sha256_hex cng_sha256 s = inr d).

Lemma content_size : 0 < slen (up_content up) <= 1024 * 1024.
Proof. apply admissible_verified in admissible. apply (ver_size _ _ _ _ _ _ admissible). Qed.
Lemma send_chunks_run n x known progress :
  known = manifest_sha ->
  exists p x', send_chunks cng_sha256 json_events exchange n up (has x) known progress x
      = (Some (has x', manifest_sha), p, x') /\
    has x' = Z.min (slen (up_content up)) (has x + Z.of_nat n * chunk_bytes).
Proof.
  intros ->. revert x progress. induction n as [|n IH]; intros x progress; cbn [send_chunks];
    pose proof (fp_aligned protocol x) as [Hx _]; pose proof content_size.
  { eexists _, _. split; [done|]. unfold chunk_bytes. lia. }
  destruct (Z.leb_spec (slen (up_content up)) (has x)) as [|Hlt].
  { eexists _, _. split; [done|]. unfold chunk_bytes. lia. }
  pose proof (part_size up (has x) ltac:(lia)) as Hpart.
  destruct (digests (part_at up (has x))) as [d Hd]; [rewrite Hpart; unfold chunk_bytes; lia|]. rewrite Hd.
  destruct (fp_stores protocol x d Hlt Hd) as (body & x' & Hex & Hhas & Hb & Hs). rewrite Hex.
  pose proof (fp_aligned protocol x') as Hal.
  rewrite (read_progress_ok up manifest_sha manifest_sha expires (has x') body); [|done..|lia|by right].
  rewrite Hhas, Z.eqb_refl, <- Hhas. destruct (IH x' true) as (p & x2 & Hrun & Hh). exists p, x2. split; [exact Hrun|].
  rewrite Hh, Hhas, Hpart. unfold chunk_bytes. lia.
Qed.
Lemma hexadecimal_ascii s : hexadecimal s = true -> str_forallb is_ascii s = true.
Proof.
  unfold hexadecimal. intros [_ H]%andb_true_iff. induction s as [|c s IH]; [done|]. cbn [str_forallb] in *.
  apply andb_true_iff in H as [Hc H]. rewrite (IH H), andb_true_r. revert Hc. unfold is_lower_hex, is_digit, is_ascii.
  rewrite orb_true_iff, !andb_true_iff, !Z.leb_le, Z.ltb_lt. lia.
Qed.
Lemma calls_print :
  (exists call, admission_call dump up = Ok call) /\ exists call, completion_call dump up manifest_sha = Ok call.
Proof.
  assert (Hm : texts_valid valid_utf8 (up_manifest up) = true).
  { apply prints. pose proof admissible as H. unfold admissible_upload in H.
    destruct (1500 * 1024 <? slen payload); [done|].
    apply or_none_bind in H as (envelope & _ & H). apply orb_guard in H as [_ H].
    apply or_none_bind in H as (manifest & _ & H). apply or_none_bind in H as (text & Ht & H).
    enough (manifest = up_manifest up) as <- by by exists text. clear -H. inv_none H. apply orb_guard in H as [_ H].
    inv_none H. destruct (base64_decode _); [|done]. apply orb_guard in H as [_ H]. inv_none H.
    apply orb_guard in H as [_ H]. destruct (sha256_hex _ _); [done|]. destruct (String.eqb _ _); [|done].
    by injection H as <-. }
  unfold admission_call, completion_call. split.
  - edestruct (proj2 (prints (object [("schema_version", JStr "1"); ("manifest", up_manifest up)]))) as [s Hs];
      [|rewrite Hs; by eexists].
    cbn [object foldl put_member String.compare Ascii.compare fst snd]. 
    change (texts_valid valid_utf8 (JObj [("manifest", up_manifest up); ("schema_version", JStr "1")]) = true).
    cbn [texts_valid forallb fst snd]. by rewrite Hm, !ascii_valid by reflexivity.
  - edestruct (proj2 (prints (object [("schema_version", JStr "1"); ("manifest_sha256", JStr manifest_sha)]))) as [s Hs];
      [|rewrite Hs; by eexists].
    change (texts_valid valid_utf8 (JObj [("manifest_sha256", JStr manifest_sha); ("schema_version", JStr "1")]) = true).
    cbn [texts_valid forallb fst snd]. by rewrite (ascii_valid manifest_sha), !ascii_valid by (reflexivity || by apply hexadecimal_ascii).
Qed.
Lemma names_own : names json_events payload "artifact_id" (up_id up) /\ names json_events payload "sha256" (up_sha up).
Proof.
  pose proof (admissible_verified _ _ _ _ _ _ _ admissible) as Hv.
  destruct (ver_envelope _ _ _ _ _ _ Hv) as (envelope & He & Hm & _).
  assert (Hp : payload_manifest json_events payload = Some (up_manifest up))
    by (unfold payload_manifest; by rewrite He, Hm).
  split; (eexists; split; [exact Hp|]); [apply (ver_id _ _ _ _ _ _ Hv)|apply (ver_sha _ _ _ _ _ _ Hv)].
Qed.
Abbreviation resume := (resume_artifact_upload cng_sha256 json_events dump base64_encode base64_decode exchange payload).
(** one round: finished, or four chunks further *)
Lemma round_run x :
  (slen (up_content up) <= has x + 4 * chunk_bytes /\
   exists receipt p x', resume x = (Some receipt, p, x') /\ valid_artifact_ack json_events payload receipt = true) \/
  exists p x', resume x = (None, p, x') /\ has x' = has x + 4 * chunk_bytes /\ has x' < slen (up_content up).
Proof.
  destruct calls_print as [[admission Had] [completion Hco]]. pose proof content_size as Hsize.
  unfold resume_artifact_upload. rewrite admissible, Had.
  destruct (fp_admits protocol x admission Had) as (body & x1 & Hex & Hhas & Hb & Hs). rewrite Hex.
  rewrite (read_progress_ok up "" manifest_sha expires (has x) body);
    [|done..|apply (fp_aligned protocol)|lia|by left].
  rewrite <- Hhas. destruct (send_chunks_run 4 x1 manifest_sha false eq_refl) as (p & x2 & Hrun & Hh). rewrite Hrun.
  destruct (Z.eqb_spec (has x2) (slen (up_content up))) as [E|E]; cbn [negb]; [left|right].
  - split; [lia|]. rewrite Hco. destruct (fp_finishes protocol x2 completion E Hco) as (receipt & x3 & Hex3 & Hr & Hsay).
    rewrite Hex3. assert (Hv : valid_artifact_ack json_events payload receipt = true).
    { apply artifact_ack_exact. split; [done|]. exists (up_id up), (up_sha up). by split_and!; [apply names_own..|]. }
    rewrite Hv. by eexists _, _, _.
  - eexists _, _. split; [done|]. unfold chunk_bytes in *. lia.
Qed.
(** the upload repeated until a receipt arrives, at most [n] times *)
Fixpoint rounds (n : nat) (x : X) : option string * X :=
  match n with
  | O => (None, x)
  | S n => match resume x with
           | (Some receipt, _, x) => (Some receipt, x)
           | (None, _, x) => rounds n x
           end
  end.
Lemma rounds_finish n x :
  (0 < n)%nat -> slen (up_content up) <= has x + Z.of_nat n * (4 * chunk_bytes) ->
  exists receipt x', rounds n x = (Some receipt, x') /\ valid_artifact_ack json_events payload receipt = true.
Proof.
  revert x. induction n as [|n IH]; intros x Hn Hle; [lia|]. cbn [rounds].
  destruct (round_run x) as [(_ & receipt & p & x' & -> & Hv)|(p & x' & Hr & Hh & Hlt)]; [by eexists _, _|]. rewrite Hr.
  apply IH; unfold chunk_bytes in *; lia.
Qed.
End Completes.

End Artifact.
