(* ===== verification/ArtifactExample.v ===== *)
(** * An artifact upload at work

    The theorems on artifacts applied to one collected document and a Manager that
    stores the only chunk.  Documents are printed as the binary code of their
    tree, Base64 is the identity, digests and signatures are constant. *)

From stdpp Require Import countable.
From S2P Require Import Prelude Telemetry Uploader Identity Ledger Json Enrollment Command Transport TransportFacts ArtifactFacts.

(** ** A printer and a parser *)
Abbreviation tree := (gen_tree (string + Z)).
Definition member_tree (print : json -> tree) (m : string * json) : tree :=
  GenNode 7 [GenLeaf (inl m.1); print m.2].
Fixpoint to_tree (j : json) : tree :=
  match j with
  | JNull => GenNode 0 []
  | JBool b => GenNode (if b then 1 else 2) []
  | JInt z => GenNode 3 [GenLeaf (inr z)]
  | JUint z => GenLeaf (inr z)
  | JFloat q => GenNode 4 [GenLeaf (inr (Qnum q)); GenLeaf (inr (Z.pos (Qden q)))]
  | JStr s => GenLeaf (inl s)
  | JArr l => GenNode 5 (map to_tree l)
  | JObj l => GenNode 6 (map (member_tree to_tree) l)
  end.
Definition tree_member (read : tree -> option json) (t : tree) : option (string * json) :=
  match t with GenNode 7 [GenLeaf (inl k); t] => (fun v => (k, v)) <$> read t | _ => None end.
Fixpoint of_tree (t : tree) : option json :=
  match t with
  | GenNode 0 [] => Some JNull
  | GenNode 1 [] => Some (JBool true)
  | GenNode 2 [] => Some (JBool false)
  | GenNode 3 [GenLeaf (inr z)] => Some (JInt z)
  | GenLeaf (inr z) => Some (JUint z)
  | GenNode 4 [GenLeaf (inr n); GenLeaf (inr (Z.pos d))] => Some (JFloat (Qmake n d))
  | GenLeaf (inl s) => Some (JStr s)
  | GenNode 5 l => JArr <$> (fix go (l : list tree) :=
                               match l with [] => Some [] | t :: l => v ← of_tree t; l ← go l; Some (v :: l) end) l
  | GenNode 6 l => JObj <$> (fix go (l : list tree) :=
                               match l with [] => Some [] | t :: l => v ← tree_member of_tree t; l ← go l; Some (v :: l) end) l
  | _ => None
  end.
Lemma of_to_tree : forall j, of_tree (to_tree j) = Some j.
Proof.
  fix IH 1. intros [|[]|z|z|[n d]|s|l|l]; try reflexivity; cbn [to_tree of_tree].
  - apply fmap_Some. exists l. split; [|done]. induction l as [|j l IHl]; [done|]. cbn [map]. by rewrite IH, IHl.
  - apply fmap_Some. exists l. split; [|done]. induction l as [|[k j] l IHl]; [done|]. cbn [map].
    change (tree_member of_tree (member_tree to_tree (k, j))) with ((fun v => (k, v)) <$> of_tree (to_tree j)).
    by rewrite IH, IHl.
Qed.
(** two bits per character *)
Fixpoint pack (p : positive) : string :=
  match p with
  | xH => ""
  | xO xH => "a" | xI xH => "b"
  | xO (xO q) => String "0" (pack q) | xO (xI q) => String "1" (pack q)
  | xI (xO q) => String "2" (pack q) | xI (xI q) => String "3" (pack q)
  end.
Fixpoint unpack (s : string) : positive :=
  match s with
  | "" => xH
  | String c s =>
      if Ascii.eqb c "a" then 2%positive else if Ascii.eqb c "b" then 3%positive
      else if Ascii.eqb c "0" then xO (xO (unpack s)) else if Ascii.eqb c "1" then xO (xI (unpack s))
      else if Ascii.eqb c "2" then xI (xO (unpack s)) else xI (xI (unpack s))
  end.
Lemma unpack_pack : forall p, unpack (pack p) = p.
Proof. fix IH 1. intros [[q|q|]|[q|q|]|]; try reflexivity; cbn; by rewrite IH. Qed.
Definition print (j : json) : string := pack (encode (to_tree j)).
Definition printing (j : json) : result string := Ok (print j).
Definition reading (s : string) : bool + json :=
  match decode (unpack s) ≫= of_tree with Some j => inr j | None => inl false end.
Lemma reading_print j : reading (print j) = inr j.
Proof. unfold reading, print. rewrite unpack_pack, decode_encode. cbn. by rewrite of_to_tree. Qed.

(** ** The parameters *)
Definition zero_sha (_ : string) : outcome (list Z) := inr (repeat 0 32).
Definition as_is (s : string) : string := s.
Definition zero_signature (_ : EcKeyPair) (_ : string) : outcome string := inr (nul_bytes 64).
Lemma zero_sha_bytes s d : zero_sha s = inr d -> zlen d = 32 /\ Forall (fun b => 0 <= b < 256) d.
Proof. intros [= <-]. split; [done|]. by repeat constructor. Qed.
Lemma reads_all j s : stable j = true -> printing j = Ok s -> reading s = inr j.
Proof. intros _ [= <-]. apply reading_print. Qed.
Lemma texts_all : forall j, texts_valid (fun _ => true) j = true.
Proof.
  fix IH 1. intros [|b|z|z|q|s|l|l]; try reflexivity; cbn [texts_valid]; (induction l as [|x l IHl]; [done|]; cbn).
  - by rewrite IH, IHl.
  - rewrite IH. exact IHl.
Qed.
Lemma prints_all j : (exists s, printing j = Ok s) <-> texts_valid (fun _ => true) j = true.
Proof. split; [intros; apply texts_all|intros _; by eexists]. Qed.

Definition the_content : string := print (JArr []).
Definition the_key : EcKeyPair := {| private_blob := ""; public_point := "point" |}.
Definition or_empty (r : result string) : string := match r with Ok s => s | Throw _ => "" end.
Definition the_unsigned : string :=
  or_empty (make_artifact_payload zero_sha reading printing as_is "cmd-9" "corr-1" "host-1" "process_snapshot" the_content).
Definition the_payload : string :=
  or_empty (sign_artifact_payload zero_sha reading printing as_is zero_signature the_unsigned "agent-1" the_key 1709251000).
Definition the_upload : option Upload := admissible_upload zero_sha reading printing as_is Some the_payload.
Definition the_up : Upload :=
  default {| up_manifest := JNull; up_id := ""; up_sha := ""; up_content := "" |} the_upload.
Example the_upload_admissible : the_upload = Some the_up.
Proof. vm_compute. reflexivity. Qed.

(** ** A Manager that stores the only chunk *)
Definition the_manifest_sha : string := hex_bytes (repeat 0 32).
Definition stored_bytes (stored : bool) : Z := if stored then slen (up_content the_up) else 0.
Definition progress_text (stored : bool) : string :=
  print (JObj (progress_members the_up the_manifest_sha "2024-03-01T00:00:00Z" (stored_bytes stored))).
Definition receipt_text : string := print (JObj (artifact_receipt (up_id the_up) (up_sha the_up))).
Definition manager (call : Call) (stored : bool) : option string * bool :=
  if String.eqb (call_method call) "PUT" then (Some (progress_text true), true)
  else if str_empty (call_suffix call) then (Some (progress_text stored), stored)
  else (Some receipt_text, stored).
Lemma progress_short stored : slen (progress_text stored) <= 4096.
Proof. destruct stored; vm_compute; discriminate. Qed.
Lemma printed_says l : says reading (print (JObj l)) l.
Proof. eexists. split; [apply reading_print|reflexivity]. Qed.
Lemma manager_follows : follows_protocol zero_sha reading printing manager the_up the_manifest_sha "2024-03-01T00:00:00Z" stored_bytes.
Proof.
  split.
  - intros stored. split; [destruct stored; vm_compute; split; discriminate|]. destruct stored; [by left|by right].
  - intros stored call (body & _ & <-%Ok_inj)%bind_Ok. exists (progress_text stored), stored.
    split_and!; [reflexivity|reflexivity|apply progress_short|apply printed_says].
  - intros [] digest Hlt _; [by apply Z.lt_irrefl in Hlt|]. exists (progress_text true), true.
    split_and!; [reflexivity|vm_compute; reflexivity|apply progress_short|apply printed_says].
  - intros stored call _ (body & _ & <-%Ok_inj)%bind_Ok. exists receipt_text, stored.
    split_and!; [|vm_compute; discriminate|apply printed_says].
    unfold manager. cbn [call_method call_suffix]. reflexivity.
Qed.
Lemma zero_sha_answers s : slen s <= chunk_bytes -> exists d, sha256_hex zero_sha s = inr d.
Proof. intros H. unfold sha256_hex. destruct (Z.ltb_spec u32_max (slen s)); [unfold chunk_bytes, u32_max in *; lia|by eexists]. Qed.


