(* ===== verification/FileAcquisitionFacts.v ===== *)
(** * What the acquisition store promises

    The manifests and chunks of the store directory stay in agreement whatever
    Windows answers and wherever the process ends. *)

From S2P Require Import Prelude Crc32 Identity Json FileAcquisition.

(** ** Names *)
Fixpoint last_char (s : string) : option ascii :=
  match s with "" => None | String c "" => Some c | String _ s => last_char s end.
Lemma last_char_app s c r : last_char (s +:+ String c r) = last_char (String c r).
Proof. induction s as [|a s IH]; [done|]. simpl. rewrite IH. by destruct s. Qed.
Lemma map_text_app f a b : map_text f (a +:+ b) = map_text f a +:+ map_text f b.
Proof. induction a as [|c a IH]; [done|]. simpl. by rewrite IH. Qed.
Lemma manifest_name_end id : last_char (manifest_name id) = Some "n"%char.
Proof. unfold manifest_name, lower. rewrite map_text_app. apply last_char_app. Qed.
Lemma chunk_name_end id i : last_char (chunk_name id i) = Some "k"%char.
Proof.
  unfold chunk_name, lower. rewrite !map_text_app. 
  rewrite <- !string_app_assoc. apply last_char_app.
Qed.
(** temporaries end in another letter *)
Lemma tmp_end file : last_char (file +:+ ".tmp") = Some "p"%char.
Proof. apply last_char_app. Qed.
Lemma part_end file : last_char (file +:+ ".part") = Some "t"%char.
Proof. apply last_char_app. Qed.
Definition is_manifest (name : string) : Prop := last_char name = Some "n"%char.
Definition is_chunk (name : string) : Prop := last_char name = Some "k"%char.
Definition is_scratch (name : string) : Prop := ~ is_manifest name /\ ~ is_chunk name.

Lemma padded_value z : 0 <= z -> dec_value (padded z) 0 = Some z.
Proof. intros H. unfold padded. rewrite dec_value_zeros, to_string_nonneg by done. by apply dec_value_udec. Qed.
Lemma padded_digits z : 0 <= z -> str_forallb is_digit (padded z) = true.
Proof.
  intros H. unfold padded. rewrite to_string_nonneg by done. generalize (20 - String.length (udec z))%nat as k.
  induction k as [|k IH]; [by apply udec_digits|exact IH].
Qed.
Lemma lower_digits s : str_forallb is_digit s = true -> lower s = s.
Proof.
  induction s as [|c s IH]; [done|]. cbn [str_forallb lower map_text]. intros [Hc Hs]%andb_true_iff.
  unfold lower in IH. rewrite IH by done. f_equal. unfold lower_char, is_digit in *.
  apply andb_true_iff in Hc as [_ Hc%Z.leb_le]. destruct (Z.leb_spec 65 (code c)); [lia|done].
Qed.
Lemma string_app_inv_head (a b c : string) : a +:+ b = a +:+ c -> b = c.
Proof. induction a as [|x a IH]; [done|]. simpl. intros [= H]. by apply IH. Qed.
Lemma chunk_name_inj id i j : 0 <= i -> 0 <= j -> chunk_name id i = chunk_name id j -> i = j.
Proof.
  unfold chunk_name, lower. rewrite !map_text_app. intros Hi Hj E. apply string_app_inv_head in E.
  simpl in E. injection E as E. fold (lower (padded i)) (lower (padded j)) in E.
  rewrite !lower_digits in E by by apply padded_digits.
  assert (Hcut : forall (a b c : string), a +:+ c = b +:+ c -> a = b).
  { intros a b c H. apply (string_app_inj_len a c b c); [|done]. pose proof (f_equal slen H) as L.
    rewrite !slen_app in L. unfold slen in L. lia. }
  apply Hcut in E. pose proof (padded_value i Hi) as H. rewrite E, padded_value in H by done. by injection H.
Qed.

(** ** Chunks are read back *)
Lemma str_take_take n k s : str_take n (str_take k s) = str_take (Nat.min n k) s.
Proof. revert k s. induction n as [|n IH]; intros [|k] [|c s]; simpl; [done..|]. by rewrite IH. Qed.
Lemma of_to_str l : of_str (to_str l) = l.
Proof. apply String.list_ascii_of_string_of_list_ascii. Qed.
Lemma le_length n v : String.length (le n v) = n.
Proof. unfold le. by rewrite <- of_str_length, of_to_str, le_bytes_length. Qed.
Lemma le_number_le n v : 0 <= v < 256 ^ Z.of_nat n -> le_number (le n v) = v.
Proof. intros H. unfold le_number, le. rewrite of_to_str. by apply le_value_bytes. Qed.
Lemma skip_field n k a b : String.length a = n -> str_drop (n + k) (a +:+ b) = str_drop k b.
Proof. intros <-. apply str_drop_app_add. Qed.
Lemma take_field n a b : String.length a = n -> str_take n (str_drop 0 (a +:+ b)) = a.
Proof. intros <-. apply str_take_app. Qed.

Section Chunk.
Context (encrypt : string -> string -> string -> string -> result (string * string)).
Context (decrypt : string -> string -> string -> string -> string -> result string).
(** what AES-256-GCM encrypts, it decrypts; the cipher text is as long as the plain text *)
Context (decrypts : forall key nonce aad plain cipher tag, encrypt key nonce aad plain = Ok (cipher, tag) ->
  decrypt key nonce aad cipher tag = Ok plain /\ slen cipher = slen plain /\ String.length tag = kTagBytes).
Context (config : FileAcquisitionConfig).
Lemma chunk_length sequence offset plain nonce tag cipher :
  String.length nonce = kNonceBytes -> String.length tag = kTagBytes ->
  slen (chunk_frame sequence offset plain nonce tag cipher) = Z.of_nat kChunkHeaderBytes + slen cipher.
Proof.
  intros Hn Ht. unfold chunk_frame. rewrite !slen_app. unfold slen. rewrite !le_length, Hn, Ht. unfold kNonceBytes, kTagBytes, kChunkHeaderBytes. lia.
Qed.
Lemma chunk_roundtrip id sequence offset plain nonce tag cipher :
  0 <= sequence <= u64_max -> 0 <= offset <= u64_max -> slen plain <= u32_max ->
  String.length nonce = kNonceBytes ->
  encrypt (encryption_key config) nonce (chunk_aad id sequence offset) plain = Ok (cipher, tag) ->
  open_chunk decrypt config id sequence offset (chunk_frame sequence offset plain nonce tag cipher) = Ok plain.
Proof.
  intros Hs Ho Hp Hn He. apply decrypts in He as (Hd & Hc & Ht). pose proof (slen_nonneg plain).
  unfold open_chunk. rewrite chunk_length, Hc by done.
  unfold chunk_frame.
  change (str_drop 36) with (str_drop (4 + (8 + (8 + (4 + (kNonceBytes + 0)))))).
  change (str_drop 24) with (str_drop (4 + (8 + (8 + (4 + 0))))).
  change (str_drop 20) with (str_drop (4 + (8 + (8 + 0)))). change (str_drop 12) with (str_drop (4 + (8 + 0))).
  change (str_drop 4) with (str_drop (4 + 0)).
  change (str_drop kChunkHeaderBytes) with (str_drop (4 + (8 + (8 + (4 + (kNonceBytes + (kTagBytes + 0))))))).
  rewrite !skip_field by (apply le_length || done). rewrite !take_field by (apply le_length || done).
  rewrite !le_number_le by (unfold kChunkMagic, u64_max, u32_max in *; lia).
  cbn [str_drop]. rewrite !Z.eqb_refl. replace (Z.of_nat kChunkHeaderBytes + slen plain - Z.of_nat kChunkHeaderBytes) with (slen plain) by lia.
  rewrite Z.eqb_refl. exact Hd.
Qed.
End Chunk.

(** ** Manifests *)
(** a manifest, as a record *)
Record Capture := {
  c_id : string; c_captured : Z; c_chunk : Z; c_correlation : string; c_command : string; c_scope : string; c_cap : Z;
  c_next : Z; c_requested : Z; c_relative : string; c_root : string; c_sha : string; c_identity : string;
  c_path : string; c_size : Z; c_write : Z; c_state : string
}.
Definition advance (captured next : Z) (state : string) (c : Capture) : Capture := {|
  c_id := c_id c; c_captured := captured; c_chunk := c_chunk c; c_correlation := c_correlation c;
  c_command := c_command c; c_scope := c_scope c; c_cap := c_cap c; c_next := next; c_requested := c_requested c;
  c_relative := c_relative c; c_root := c_root c; c_sha := c_sha c; c_identity := c_identity c; c_path := c_path c;
  c_size := c_size c; c_write := c_write c; c_state := state |}.
Definition hashed (sha scope : string) (c : Capture) : Capture := {|
  c_id := c_id c; c_captured := c_captured c; c_chunk := c_chunk c; c_correlation := c_correlation c;
  c_command := c_command c; c_scope := scope; c_cap := c_cap c; c_next := c_next c; c_requested := c_requested c;
  c_relative := c_relative c; c_root := c_root c; c_sha := sha; c_identity := c_identity c; c_path := c_path c;
  c_size := c_size c; c_write := c_write c; c_state := c_state c |}.
(** a number is signed or unsigned in memory, and unsigned when it was read *)
Definition number (v : json) (z : Z) : Prop := v = JInt z \/ v = JUint z /\ 0 <= z.
Definition shape (captured next write version : json) (mac : option string) (c : Capture) : json := JObj (
  [("capture_id", JStr (c_id c)); ("captured_bytes", captured); ("chunk_bytes", JUint (c_chunk c));
   ("command_correlation_id", JStr (c_correlation c)); ("command_id", JStr (c_command c));
   ("hash_scope", JStr (c_scope c))]
  ++ match mac with Some m => [("manifest_hmac", JStr m)] | None => [] end
  ++ [("maximum_bytes", JUint (c_cap c)); ("next_sequence", next); ("requested_maximum_bytes", JUint (c_requested c));
      ("requested_relative_path", JStr (c_relative c)); ("root_identity", JStr (c_root c)); ("sha256", JStr (c_sha c));
      ("source_identity", JStr (c_identity c)); ("source_path", JStr (c_path c)); ("source_size", JUint (c_size c));
      ("source_write_time", write); ("state", JStr (c_state c)); ("version", version)]).
Definition describes (mac : option string) (c : Capture) (j : json) : Prop :=
  exists captured next write version, number captured (c_captured c) /\ number next (c_next c) /\
    number write (c_write c) /\ number version 1 /\ j = shape captured next write version mac c.
Record in_range (c : Capture) : Prop := {
  ir_captured : 0 <= c_captured c <= i64_max; ir_next : 0 <= c_next c <= i64_max; ir_chunk : 0 <= c_chunk c <= u32_max;
  ir_cap : 0 <= c_cap c <= u64_max; ir_requested : 0 <= c_requested c <= u64_max; ir_size : 0 <= c_size c <= i64_max;
  ir_write : - i64_max - 1 <= c_write c <= i64_max
}.
Lemma describes_advance mac c j captured next state :
  describes mac c j -> 0 <= captured -> 0 <= next ->
  describes mac (advance captured next state c)
    (set_member "state" (JStr state) (set_member "next_sequence" (JUint next) (set_member "captured_bytes" (JUint captured) j))).
Proof.
  intros (cp & nx & wt & ver & Hcp & Hnx & Hwt & Hver & ->) Hc Hn. exists (JUint captured), (JUint next), wt, ver.
  split_and!; [by right|by right|done|done|]. by destruct mac.
Qed.
Lemma describes_hashed mac c j sha scope :
  describes mac c j -> describes mac (hashed sha scope c) (set_member "hash_scope" (JStr scope) (set_member "sha256" (JStr sha) j)).
Proof.
  intros (cp & nx & wt & ver & Hcp & Hnx & Hwt & Hver & ->). exists cp, nx, wt, ver. split_and!; [done..|]. by destruct mac.
Qed.
Lemma describes_mac mac c j m : describes mac c j -> describes (Some m) c (set_member "manifest_hmac" (JStr m) j).
Proof.
  intros (cp & nx & wt & ver & Hcp & Hnx & Hwt & Hver & ->). exists cp, nx, wt, ver. split_and!; [done..|]. by destruct mac.
Qed.
Lemma describes_erase mac c j : describes mac c j -> describes None c (erase "manifest_hmac" j).
Proof.
  intros (cp & nx & wt & ver & Hcp & Hnx & Hwt & Hver & ->). exists cp, nx, wt, ver. split_and!; [done..|]. by destruct mac.
Qed.
Lemma erase_set mac c j m :
  describes mac c j -> erase "manifest_hmac" (set_member "manifest_hmac" (JStr m) j) = erase "manifest_hmac" j.
Proof. intros (cp & nx & wt & ver & _ & _ & _ & _ & ->). by destruct mac. Qed.

(** *** What is read *)
Lemma describes_texts mac c j : describes mac c j ->
  find "state" j = Some (JStr (c_state c)) /\ find "capture_id" j = Some (JStr (c_id c)) /\
  find "sha256" j = Some (JStr (c_sha c)) /\ find "source_identity" j = Some (JStr (c_identity c)) /\
  find "source_path" j = Some (JStr (c_path c)) /\ find "requested_relative_path" j = Some (JStr (c_relative c)) /\
  find "root_identity" j = Some (JStr (c_root c)) /\ find "command_id" j = Some (JStr (c_command c)) /\
  find "command_correlation_id" j = Some (JStr (c_correlation c)) /\
  find "manifest_hmac" j = JStr <$> mac.
Proof. intros (cp & nx & wt & ver & _ & _ & _ & _ & ->). by destruct mac. Qed.
Lemma describes_numbers mac c j : describes mac c j ->
  find "source_size" j = Some (JUint (c_size c)) /\ find "maximum_bytes" j = Some (JUint (c_cap c)) /\
  find "requested_maximum_bytes" j = Some (JUint (c_requested c)) /\ find "chunk_bytes" j = Some (JUint (c_chunk c)) /\
  exists cp nx wt ver, find "captured_bytes" j = Some cp /\ find "next_sequence" j = Some nx /\
    find "source_write_time" j = Some wt /\ find "version" j = Some ver /\
    number cp (c_captured c) /\ number nx (c_next c) /\ number wt (c_write c) /\ number ver 1.
Proof.
  intros (cp & nx & wt & ver & Hcp & Hnx & Hwt & Hver & ->).
  split_and!; [by destruct mac..|]. exists cp, nx, wt, ver. split_and!; try done; by destruct mac.
Qed.
Lemma get_number_number v z : number v z -> 0 <= z <= u64_max -> get_number v = Ok z.
Proof. intros [->|[-> _]] H; cbn; by rewrite u64_small. Qed.
Lemma jeq_signed v z : number v z -> jeq v (JInt z) = true.
Proof. intros [->|[-> _]]; simpl; by apply Qeq_bool_iff. Qed.
Lemma jeq_int v a b : number v a -> jeq v (JInt b) = (a =? b).
Proof.
  intros Hv. destruct (Z.eqb_spec a b) as [<-|Hne]; [by apply jeq_signed|]. apply not_true_is_false.
  destruct Hv as [->|[-> _]]; simpl; rewrite Qeq_bool_iff; unfold Qeq; simpl; lia.
Qed.
Lemma jeq_uint a b : jeq (JUint a) (JUint b) = (a =? b).
Proof.
  simpl. destruct (Z.eqb_spec a b) as [<-|Hne]; [by apply Qeq_bool_iff|]. apply not_true_is_false.
  rewrite Qeq_bool_iff; unfold Qeq; simpl; lia.
Qed.
Lemma find_at k j v : find k j = Some v -> at_ k j = Ok v.
Proof. destruct j; try done. simpl. by intros ->. Qed.
Lemma differs_text_at k j s t : find k j = Some (JStr s) -> differs k (JStr t) j = Ok (negb (String.eqb s t)).
Proof. intros H. unfold differs. by rewrite (find_at _ _ _ H). Qed.
Lemma differs_uint_at k j a b : find k j = Some (JUint a) -> differs k (JUint b) j = Ok (negb (a =? b)).
Proof. intros H. unfold differs. rewrite (find_at _ _ _ H). cbn [mbind result_bind]. by rewrite jeq_uint. Qed.
Lemma differs_int_at k j v a b : find k j = Some v -> number v a -> differs k (JInt b) j = Ok (negb (a =? b)).
Proof. intros H Hv. unfold differs. rewrite (find_at _ _ _ H). cbn [mbind result_bind]. by rewrite (jeq_int _ _ _ Hv). Qed.
Lemma any_of_cons r l : any_of (r :: l) = Ok false <-> r = Ok false /\ any_of l = Ok false.
Proof. simpl. destruct r as [[]|]; simpl; naive_solver. Qed.
Lemma value_find k j s : find k j = Some (JStr s) -> value_string k j = Ok s.
Proof. destruct j; try done. simpl. by intros ->. Qed.

(** *** Printing and parsing *)
Definition scalar (j : json) : bool :=
  match j with
  | JNull | JBool _ | JStr _ => true
  | JInt z => (- i64_max - 1 <=? z) && (z <=? i64_max)
  | JUint z => (0 <=? z) && (z <=? u64_max)
  | _ => false
  end.
Fixpoint ascending_keys (l : list string) : bool :=
  match l with
  | a :: (b :: _) as r => match String.compare a b with Lt => ascending_keys r | _ => false end
  | _ => true
  end.
(** an object of scalars, its keys in order *)
Definition flat (j : json) : Prop :=
  exists l, j = JObj l /\ ascending_keys l.*1 = true /\ Forall (fun m => scalar m.2 = true) l.
Definition reread_scalar (j : json) : json :=
  match j with JInt z => if 0 <=? z then JUint z else JInt z | _ => j end.
(** the document that a parser makes of a printed one: a number without a sign is unsigned *)
Definition reread (j : json) : json :=
  match j with JObj l => JObj ((fun m => (m.1, reread_scalar m.2)) <$> l) | _ => reread_scalar j end.
Definition texts_ok (valid : string -> bool) (j : json) : Prop :=
  exists l, j = JObj l /\ Forall (fun m => match m.2 with JStr s => valid s = true | _ => True end) l.
(** every text of a manifest is valid *)
Definition texts_of (c : Capture) : list string :=
  [c_id c; c_correlation c; c_command c; c_scope c; c_relative c; c_root c; c_sha c; c_identity c; c_path c; c_state c].
Lemma describes_texts_ok valid mac c j :
  describes mac c j -> Forall (fun s => valid s = true) (texts_of c) -> (forall m, mac = Some m -> valid m = true) ->
  texts_ok valid j.
Proof.
  intros (cp & nx & wt & ver & Hcp & Hnx & Hwt & Hver & ->) Ht Hm. eexists. split; [reflexivity|].
  assert (Hn : forall v z, number v z -> match v with JStr s => valid s = true | _ => True end)
    by (intros v z [->|[-> _]]; done).
  unfold texts_of in Ht. repeat (apply Forall_cons in Ht as [?Ht0 Ht]).
  destruct mac as [m|]; [specialize (Hm m eq_refl)|];
    repeat (apply Forall_cons; split; [first [assumption|exact I|by eapply Hn]|]); constructor.
Qed.
Lemma number_unique v a b : number v a -> number v b -> a = b.
Proof. intros [->|[-> _]] [E|[E _]]; congruence. Qed.
Lemma describes_inj mac mac' c c' j : describes mac c j -> describes mac' c' j -> c = c'.
Proof.
  intros H H'. destruct (describes_texts _ _ _ H) as (T1 & T2 & T3 & T4 & T5 & T6 & T7 & T8 & T9 & _).
  destruct (describes_texts _ _ _ H') as (U1 & U2 & U3 & U4 & U5 & U6 & U7 & U8 & U9 & _).
  destruct (describes_numbers _ _ _ H) as (N1 & N2 & N3 & N4 & cp & nx & wt & ver & F1 & F2 & F3 & F4 & M1 & M2 & M3 & _).
  destruct (describes_numbers _ _ _ H') as (O1 & O2 & O3 & O4 & cp' & nx' & wt' & ver' & G1 & G2 & G3 & G4 & K1 & K2 & K3 & _).
  assert (cp' = cp /\ nx' = nx /\ wt' = wt) as (-> & -> & ->) by (split_and!; congruence).
  pose proof (number_unique _ _ _ M1 K1). pose proof (number_unique _ _ _ M2 K2). pose proof (number_unique _ _ _ M3 K3).
  assert (find "hash_scope" j = Some (JStr (c_scope c)) /\ find "hash_scope" j = Some (JStr (c_scope c'))) as [S1 S2].
  { split; [destruct H as (?&?&?&?&_&_&_&_& ->)|destruct H' as (?&?&?&?&_&_&_&_& ->)]; [by destruct mac|by destruct mac']. }
  destruct c, c'; simpl in *. f_equal; congruence.
Qed.
Lemma reread_number v z : number v z -> number (reread_scalar v) z.
Proof.
  intros [->|[-> H]]; [|by right]. cbn. destruct (Z.leb_spec 0 z); [by right|by left].
Qed.
Lemma describes_reread mac c j : describes mac c j -> describes mac c (reread j).
Proof.
  intros (cp & nx & wt & ver & Hcp & Hnx & Hwt & Hver & ->).
  exists (reread_scalar cp), (reread_scalar nx), (reread_scalar wt), (reread_scalar ver).
  split_and!; [by apply reread_number..|]. by destruct mac.
Qed.
Lemma reread_erase mac c j : describes mac c j -> erase "manifest_hmac" (reread j) = reread (erase "manifest_hmac" j).
Proof. intros (cp & nx & wt & ver & _ & _ & _ & _ & ->). by destruct mac. Qed.
Lemma scalar_number v z : number v z -> - i64_max - 1 <= z <= i64_max -> scalar v = true.
Proof.
  intros [->|[-> H]] Hz; cbn; apply andb_true_iff; rewrite !Z.leb_le; unfold u64_max, i64_max in *; lia.
Qed.
Lemma scalar_uint z : 0 <= z <= u64_max -> scalar (JUint z) = true.
Proof. intros H. cbn. apply andb_true_iff. rewrite !Z.leb_le. lia. Qed.
Lemma describes_flat mac c j : describes mac c j -> in_range c -> flat j.
Proof.
  intros (cp & nx & wt & ver & Hcp & Hnx & Hwt & Hver & ->) [].
  assert (Hs : scalar cp = true /\ scalar nx = true /\ scalar wt = true /\ scalar ver = true)
    by (split_and!; eapply scalar_number; eauto; unfold i64_max in *; lia).
  destruct Hs as (Hs1 & Hs2 & Hs3 & Hs4).
  assert (Hu : scalar (JUint (c_chunk c)) = true /\ scalar (JUint (c_cap c)) = true /\
    scalar (JUint (c_requested c)) = true /\ scalar (JUint (c_size c)) = true)
    by (split_and!; apply scalar_uint; unfold u32_max, u64_max, i64_max in *; lia).
  destruct Hu as (Hu1 & Hu2 & Hu3 & Hu4).
  eexists. split; [reflexivity|]. split; [by destruct mac|].
  destruct mac; repeat (apply Forall_cons; split; [assumption || reflexivity|]); constructor.
Qed.
