(* ===== verification/FileAcquisitionLogic.v ===== *)
(** * A crash logic for the acquisition store

    A triple says what holds of the store directory and of the result before a
    computation and after it returns; when it throws or the process ends, the
    directory satisfies an invariant, and failing was possible at all. *)

From S2P Require Import Prelude Crc32 Identity Json FileAcquisition FileAcquisitionFacts.

Section Logic.
Context (os : nat -> Os).
(** [fallible]: the computation may fail; otherwise every call succeeds *)
Context (fallible : Prop).
Record smooth (a : Os) : Prop := {
  sm_ends : ends a = false; sm_fails : fails a = false;
  sm_source : exists raw, raw_facts a Source = Some raw /\ is_directory raw = false /\ is_reparse raw = false;
  sm_root : exists raw, raw_facts a Root = Some raw /\ is_directory raw = true /\ is_reparse raw = false;
  sm_identity : forall h, raw_identity a h <> None; sm_path : forall h, raw_path a h <> None;
  sm_read : forall pos count, read_at a pos count <> None
}.
Context (smooth_unless : fallible \/ forall n, smooth (os n)).

Definition assertion : Type := Disk -> FileAcquisitionResult -> Prop.
Definition run_ok {A} (P : assertion) (m : M A) (Q : A -> assertion) (I : Disk -> Prop) : Prop :=
  forall s, P (disk s) (draft s) ->
    match m s with
    | (Returned a, s') => Q a (disk s') (draft s')
    | (_, s') => fallible /\ I (disk s')
    end.

Lemma run_ok_bind {A B} P (m : M A) Q (f : A -> M B) R I :
  run_ok P m Q I -> (forall a, run_ok (Q a) (f a) R I) -> run_ok P (m ≫= f) R I.
Proof.
  intros Hm Hf s Hs. specialize (Hm s Hs). unfold mbind, M_bind.
  destruct (m s) as [[a|e|] s']; [|done..]. exact (Hf a s' Hm).
Qed.
Lemma run_ok_conseq {A} (P P' : assertion) (m : M A) (Q Q' : A -> assertion) (I I' : Disk -> Prop) :
  run_ok P m Q I -> (forall d r, P' d r -> P d r) -> (forall a d r, Q a d r -> Q' a d r) -> (forall d, I d -> I' d) ->
  run_ok P' m Q' I'.
Proof.
  clear smooth_unless. intros H HP HQ HI s Hs. specialize (H s (HP _ _ Hs)). destruct (m s) as [[a|e|] s']; naive_solver.
Qed.
Lemma run_ok_pre {A} (P P' : assertion) (m : M A) Q I :
  (forall d r, P' d r -> P d r) -> run_ok P m Q I -> run_ok P' m Q I.
Proof. intros HP H. by eapply run_ok_conseq. Qed.
Lemma run_ok_post {A} P (m : M A) (Q Q' : A -> assertion) I :
  (forall a d r, Q a d r -> Q' a d r) -> run_ok P m Q I -> run_ok P m Q' I.
Proof. intros HQ H. by eapply run_ok_conseq. Qed.
Lemma run_ok_ret {A} (a : A) (P : assertion) (Q : A -> assertion) I :
  (forall d r, P d r -> Q a d r) -> run_ok P (mret a) Q I.
Proof. intros H s Hs. by apply H. Qed.
(** a pure precondition *)
Lemma run_ok_assume {A} (X : Prop) (P : assertion) (m : M A) Q I :
  (X -> run_ok P m Q I) -> run_ok (fun d r => P d r /\ X) m Q I.
Proof. intros H s [Hs HX]. exact (H HX s Hs). Qed.
Lemma run_ok_exists {A X} (P : X -> assertion) (m : M A) Q I :
  (forall x, run_ok (P x) m Q I) -> run_ok (fun d r => exists x, P x d r) m Q I.
Proof. intros H s [x Hs]. exact (H x s Hs). Qed.
(** a result that may be an error: an error must be possible *)
Lemma run_ok_result {A} (x : result A) (P : assertion) (Q : A -> assertion) (I : Disk -> Prop) :
  (forall d r, P d r -> match x with Ok a => Q a d r | Throw _ => fallible /\ I d end) ->
  run_ok P (of_result x) Q I.
Proof. intros H s Hs. specialize (H _ _ Hs). by destruct x. Qed.
Lemma run_ok_result_bind {A B} (x : result A) (f : A -> M B) (P : assertion) Q (I : Disk -> Prop) :
  (forall d r e, P d r -> x = Throw e -> fallible /\ I d) -> (forall a, x = Ok a -> run_ok P (f a) Q I) ->
  run_ok P (of_result x ≫= f) Q I.
Proof.
  intros He Hf. eapply run_ok_bind; [apply (run_ok_result x P (fun a d r => P d r /\ x = Ok a))|].
  - intros d r Hd. destruct x; [done|]. by eapply He.
  - intros a. apply run_ok_assume. intros Ha. by apply Hf.
Qed.
Lemma run_ok_call {A} (f : Os -> Disk -> result A * Disk) (P : assertion) (Q : A -> assertion) (I : Disk -> Prop) :
  (forall d r, P d r -> I d) ->
  (forall n d r, P d r -> ends (os n) = false -> fallible \/ smooth (os n) ->
     match f (os n) d with (Ok v, d') => Q v d' r | (Throw _, d') => fallible /\ I d' end) ->
  run_ok P (call os f) Q I.
Proof.
  intros HI H s Hs. unfold call. set (a := os (calls s)).
  assert (Hsm : fallible \/ smooth a) by (destruct smooth_unless as [|Hn]; [by left|right; apply Hn]).
  destruct (ends a) eqn:E.
  - cbn. split; [|by eapply HI]. destruct Hsm as [|[]]; [done|congruence].
  - specialize (H (calls s) (disk s) (draft s) Hs E Hsm). fold a in H. destruct (f a (disk s)) as [[v|e] d']; exact H.
Qed.
(** a question that does not change the directory *)
Lemma run_ok_query {A} (f : Os -> result A) (P : assertion) (I : Disk -> Prop) (X : A -> Prop) :
  (forall d r, P d r -> I d) ->
  (forall n, fallible \/ smooth (os n) -> match f (os n) with Ok v => X v | Throw _ => fallible end) ->
  run_ok P (query os f) (fun v d r => P d r /\ X v) I.
Proof.
  intros HI H. apply run_ok_call; [done|]. intros n d r Hd _ Hsm. specialize (H n Hsm).
  destruct (f (os n)); [done|]. split; [done|]. by eapply HI.
Qed.
(** the same, before the rest *)
Lemma run_ok_query_bind {A B} (f : Os -> result A) (k : A -> M B) (P : assertion) Q (I : Disk -> Prop) (X : A -> Prop) :
  (forall d r, P d r -> I d) ->
  (forall n, fallible \/ smooth (os n) -> match f (os n) with Ok v => X v | Throw _ => fallible end) ->
  (forall v, X v -> run_ok P (k v) Q I) -> run_ok P (query os f ≫= k) Q I.
Proof.
  intros HI H Hk. eapply run_ok_bind; [by apply run_ok_query|]. intros v. apply run_ok_assume. apply Hk.
Qed.
Lemma run_ok_act what_ (f : Os -> Disk -> Disk) (P : assertion) (Q : assertion) (I : Disk -> Prop) :
  (forall d r, P d r -> I d) -> (forall a d r, P d r -> Q (f a d) r) -> run_ok P (act os what_ f) (fun _ => Q) I.
Proof.
  intros HI H. apply run_ok_call; [done|]. intros n d r Hd _ Hsm. destruct (fails (os n)) eqn:E; [|by apply H].
  split; [|by eapply HI]. destruct Hsm as [|[]]; [done|congruence].
Qed.
Lemma run_ok_nt_ok what_ (P : assertion) (I : Disk -> Prop) :
  (forall d r, P d r -> I d) -> run_ok P (nt_ok os what_) (fun _ => P) I.
Proof. intros HI. by apply run_ok_act. Qed.
Lemma run_ok_nt_bind {B} what_ (k : unit -> M B) (P : assertion) Q (I : Disk -> Prop) :
  (forall d r, P d r -> I d) -> run_ok P (k tt) Q I -> run_ok P (nt_ok os what_ ≫= k) Q I.
Proof. intros HI Hk. eapply run_ok_bind; [by apply run_ok_nt_ok|]. by intros []. Qed.
Lemma run_ok_catching {A} P (m : M A) h Q (I J : Disk -> Prop) :
  run_ok P m Q J -> (forall e, fallible -> run_ok (fun d _ => J d) (h e) Q I) -> (forall d, J d -> I d) ->
  run_ok P (catching m h) Q I.
Proof.
  intros Hm Hh HI s Hs. specialize (Hm s Hs). unfold catching.
  destruct (m s) as [[a|e|] s']; [done| |destruct Hm; auto]. destruct Hm as [Hf HJ]. exact (Hh e Hf s' HJ).
Qed.
Lemma run_ok_report (f : FileAcquisitionResult -> FileAcquisitionResult) (P : assertion) (Q : assertion) I :
  (forall d r, P d r -> Q d (f r)) -> run_ok P (report f) (fun _ => Q) I.
Proof. intros H s Hs. by apply H. Qed.
Lemma run_ok_draft (P : assertion) (Q : FileAcquisitionResult -> assertion) I :
  (forall d r, P d r -> Q r d r) -> run_ok P get_draft Q I.
Proof. intros H s Hs. by apply H. Qed.
Lemma run_ok_verified (P : assertion) I : run_ok P get_verified (fun _ => P) I.
Proof. by intros s Hs. Qed.
Lemma run_ok_set_verified b (P : assertion) I : run_ok P (set_verified b) (fun _ => P) I.
Proof. by intros s Hs. Qed.
End Logic.
