(* ===== verification/FileAcquisitionRuns.v ===== *)
(** * Captures over whole lives of the store

    The invariant of the store directory: every manifest in it is authentic and
    its chunks are there, decrypt, and are as many bytes as it says; for an honest
    source they are the bytes of the source.  [good] adds what is known when every
    call asks for the same capture of an unchanged source. *)

From S2P Require Import Prelude Crc32 Identity Json FileAcquisition FileAcquisitionFacts FileAcquisitionLogic.

Fixpoint joined (parts : list string) : string :=
  match parts with [] => "" | p :: parts => p +:+ joined parts end.
Lemma joined_concat a b : joined (a ++ b) = joined a +:+ joined b.
Proof. induction a as [|p a IH]; [done|]. simpl. by rewrite IH, string_app_assoc. Qed.
(** the part of a text that a capture with this bound copies at [offset] *)
Definition piece (chunk cap offset : Z) (text : string) : string :=
  str_take (Z.to_nat (Z.min chunk (cap - offset))) (str_drop (Z.to_nat offset) text).

Section Captures.
Context (cng_sha256 : string -> outcome (list Z)) (hmac_sha256 : string -> string -> result (list Z)).
Context (encrypt : string -> string -> string -> string -> result (string * string)).
Context (decrypt : string -> string -> string -> string -> string -> result string).
Context (json_parse : string -> result json) (dump pretty : json -> result string) (utf8 : string -> result string).
Context (config : FileAcquisitionConfig).
Context (decrypts : forall key nonce aad plain cipher tag, encrypt key nonce aad plain = Ok (cipher, tag) ->
  decrypt key nonce aad cipher tag = Ok plain /\ slen cipher = slen plain /\ String.length tag = kTagBytes).
(** authenticators have 32 bytes *)
Context (tags : forall key text tag, hmac_sha256 key text = Ok tag -> zlen tag = 32 /\ Forall (fun b => 0 <= b < 256) tag).
(** a printed document is read back, and prints as before *)
Context (rereads : forall j s, flat j -> pretty j = Ok s -> json_parse s = Ok (reread j)).
Context (reprints : forall j, flat j -> dump (reread j) = dump j).
(** an accepted configuration, of unsigned numbers *)
Context (valid : valid_config config = true).
Context (unsigned : 0 <= maximum_capture_bytes config /\ 0 <= chunk_bytes config).
Abbreviation chunk := (chunk_bytes config).
Abbreviation verify := (verify_manifest hmac_sha256 dump config).
Abbreviation opens := (open_chunk decrypt config).

Lemma config_ok :
  str_empty (collection_root config) = false /\ is_absolute (collection_root config) = true /\
  0 < maximum_capture_bytes config <= 4 * 1024 * 1024 * 1024 /\ 0 < chunk <= 16 * 1024 * 1024.
Proof.
  unfold valid_config in valid. rewrite !andb_true_iff, !negb_true_iff, !Z.eqb_neq, !Z.leb_le in valid.
  destruct valid as (((((((H1 & H2) & _) & _) & H3) & H4) & H5) & H6). split_and!; try done; lia.
Qed.

(** the source: its text by volume and file identity, size and time of the last write *)
Context (contents : string -> Z -> Z -> string) (honest : Prop).

(** ** The invariant *)
Definition manifest_text (c : Capture) (text : string) : Prop :=
  exists j mac, json_parse text = Ok j /\ describes (Some mac) c j /\ verify j = Ok tt.
Definition holds_chunk (d : Disk) (id : string) (i offset : Z) (plain : string) : Prop :=
  exists bytes, d !! chunk_name id i = Some bytes /\ opens id i offset bytes = Ok plain /\
    Z.of_nat kChunkHeaderBytes <= slen bytes <= Z.of_nat kChunkHeaderBytes + 16 * 1024 * 1024.
Fixpoint chunks_at (d : Disk) (id : string) (i offset : Z) (parts : list string) : Prop :=
  match parts with
  | [] => True
  | p :: parts => holds_chunk d id i offset p /\ chunks_at d id (i + 1) (offset + slen p) parts
  end.
(** the chunks of a capture: [parts] are their plain texts *)
Record backed (d : Disk) (c : Capture) (parts : list string) : Prop := {
  bk_chunks : chunks_at d (c_id c) 0 0 parts;
  bk_next : c_next c = zlen parts; bk_captured : c_captured c = slen (joined parts);
  bk_sizes : Forall (fun p => 0 < slen p <= c_chunk c) parts;
  bk_bound : c_captured c <= Z.min (c_cap c) (c_size c);
  bk_source : honest -> joined parts = str_take (Z.to_nat (c_captured c)) (contents (c_identity c) (c_size c) (c_write c))
}.
(** what a final state claims *)
Record concluded (c : Capture) (text : string) : Prop := {
  cl_state : c_state c = "partial" \/ c_state c = "complete" \/ c_state c = "truncated";
  cl_complete : c_state c = "complete" -> c_captured c = c_size c;
  cl_truncated : c_state c = "truncated" -> c_captured c = c_cap c /\ c_cap c < c_size c;
  cl_sha : c_state c <> "partial" -> exists digest, cng_sha256 text = inr digest /\ c_sha c = hex_bytes digest
}.
Definition capture_ok (d : Disk) (c : Capture) : Prop :=
  in_range c /\ exists parts, backed d c parts /\ concluded c (joined parts).
Definition store_ok (d : Disk) : Prop := forall name text, is_manifest name -> d !! name = Some text ->
  exists c, manifest_text c text /\ name = manifest_name (c_id c) /\ capture_ok d c.

(** ** Frames *)
Definition keeps (d d' : Disk) : Prop := forall name bytes, is_chunk name -> d !! name = Some bytes -> d' !! name = Some bytes.
Lemma chunks_keep d d' id parts i offset : keeps d d' -> chunks_at d id i offset parts -> chunks_at d' id i offset parts.
Proof.
  intros Hk. revert i offset. induction parts as [|p parts IH]; intros i offset; [done|].
  intros [(bytes & Hb & Ho & Hs) Hp]. split; [|by apply IH]. exists bytes. split; [|done].
  apply Hk; [apply chunk_name_end|done].
Qed.
Lemma capture_keep d d' c : keeps d d' -> capture_ok d c -> capture_ok d' c.
Proof.
  intros Hk (Hr & parts & [] & Hc). split; [done|]. exists parts. split; [|done]. split; try done. by eapply chunks_keep.
Qed.
Lemma store_keep d d' : keeps d d' -> (forall name, is_manifest name -> d' !! name = d !! name) -> store_ok d -> store_ok d'.
Proof.
  intros Hk Hm Hs name text Hn Hd. rewrite Hm in Hd by done. destruct (Hs name text Hn Hd) as (c & Ht & En & Hc).
  exists c. split_and!; [done|done|]. by eapply capture_keep.
Qed.
Lemma keeps_scratch d name x : ~ is_chunk name -> keeps d (<[name := x]> d) /\ keeps d (delete name d).
Proof.
  intros Hn. split; intros k bytes Hk Hd.
  - rewrite lookup_insert_ne; [done|]. by intros ->.
  - rewrite lookup_delete_ne; [done|]. by intros ->.
Qed.
Lemma store_scratch d name x : is_scratch name -> store_ok d -> store_ok (<[name := x]> d) /\ store_ok (delete name d).
Proof.
  intros [Hm Hc] Hs. destruct (keeps_scratch d name x Hc) as [H1 H2].
  split; (eapply store_keep; [eassumption| |done]); intros k Hk;
    [rewrite lookup_insert_ne|rewrite lookup_delete_ne]; try done; intros ->; by apply Hm.
Qed.
Lemma keeps_new d name x : d !! name = None -> keeps d (<[name := x]> d).
Proof. intros Hn k bytes _ Hd. rewrite lookup_insert_ne; [done|]. intros ->. congruence. Qed.
Lemma not_manifest_chunk name : is_chunk name -> ~ is_manifest name.
Proof. unfold is_chunk, is_manifest. congruence. Qed.
Lemma store_chunk d name x : is_chunk name -> d !! name = None -> store_ok d -> store_ok (<[name := x]> d).
Proof.
  intros Hc Hn. apply store_keep; [by apply keeps_new|]. intros k Hk. rewrite lookup_insert_ne; [done|].
  intros ->. by apply (not_manifest_chunk k).
Qed.
Lemma store_manifest d c text : manifest_text c text -> capture_ok d c -> store_ok d -> store_ok (<[manifest_name (c_id c) := text]> d).
Proof.
  intros Ht Hc Hs name x Hn Hd.
  assert (Hk : keeps d (<[manifest_name (c_id c) := text]> d)).
  { intros k bytes Hk Hb. rewrite lookup_insert_ne; [done|]. intros <-. by apply (not_manifest_chunk _ Hk), manifest_name_end. }
  destruct (decide (name = manifest_name (c_id c))) as [->|Hne].
  - rewrite lookup_insert_eq in Hd. injection Hd as <-. exists c. split_and!; [done|done|]. by eapply capture_keep.
  - rewrite lookup_insert_ne in Hd by done. destruct (Hs name x Hn Hd) as (c' & Ht' & En & Hc').
    exists c'. split_and!; [done|done|]. by eapply capture_keep.
Qed.
Lemma tmp_scratch file : is_scratch (file +:+ ".tmp").
Proof. split; unfold is_manifest, is_chunk; by rewrite tmp_end. Qed.
Lemma part_scratch file : is_scratch (file +:+ ".part").
Proof. split; unfold is_manifest, is_chunk; by rewrite part_end. Qed.

(** ** A manifest that was written is authentic *)
Lemma persisted mac c j m text :
  describes mac c j -> in_range c -> manifest_mac hmac_sha256 dump config j = Ok m ->
  pretty (set_member "manifest_hmac" (JStr m) j) = Ok text -> manifest_text c text.
Proof.
  intros Hj Hr Hm Ht. pose proof (describes_mac _ _ _ m Hj) as Hd. pose proof (describes_flat _ _ _ Hd Hr) as Hf.
  exists (reread (set_member "manifest_hmac" (JStr m) j)), m. split; [by apply rereads|].
  pose proof (describes_reread _ _ _ Hd) as Hd'. split; [done|].
  unfold verify_manifest. destruct (describes_texts _ _ _ Hd') as (_ & _ & _ & _ & _ & _ & _ & _ & _ & Hmac).
  rewrite (value_find _ _ _ Hmac). cbn [mbind result_bind].
  unfold manifest_mac in *. inv_ok Hm. apply Ok_inj in Hm as <-.
  rewrite (reread_erase _ _ _ Hd), (erase_set _ _ _ _ Hj).
  rewrite (reprints _ (describes_flat _ _ _ (describes_erase _ _ _ Hj) Hr)), Ha. cbn [mbind result_bind]. rewrite Ha0.
  cbn [mbind result_bind]. destruct (tags _ _ _ Ha0) as [Hl _]. rewrite hex_bytes_length, Hl, String.eqb_refl. done.
Qed.

(** ** One call *)
(** numbers and random bytes of Windows *)
Record native_os (os : nat -> Os) : Prop := {
  no_random n k : String.length (random (os n) k) = k;
  no_facts n h raw : raw_facts (os n) h = Some raw ->
    end_of_file raw <= i64_max /\ - i64_max - 1 <= last_write raw <= i64_max
}.
(** while a call runs, the source is the file [f], and reading gives its bytes *)
Record held (os : nat -> Os) (f : FileFacts) : Prop := {
  hd_facts n raw : raw_facts (os n) Source = Some raw -> end_of_file raw = f_size f /\ last_write raw = f_write_time f;
  hd_identity n id : raw_identity (os n) Source = Some id -> hex id = f_identity f;
  hd_read n pos count part : 0 <= pos -> read_at (os n) pos count = Some part ->
    exists k, part = str_take k (str_drop (Z.to_nat pos) (contents (f_identity f) (f_size f) (f_write_time f)))
}.
(** all calls see the same target, and reading stops only at its end *)
Record steady (os : nat -> Os) (o : Opened) : Prop := {
  sd_held : held os (before o);
  sd_path n p : raw_path (os n) Source = Some p -> lower_slashes p = f_path (before o);
  sd_root_path n p : raw_path (os n) Root = Some p -> lower_slashes p = root_path o;
  sd_root_identity n id : raw_identity (os n) Root = Some id -> hex id = root_identity o;
  sd_read n pos count : 0 <= pos < f_size (before o) -> 0 < count -> read_at (os n) pos count <> Some ""
}.

(** a request that can be served: its identifiers are valid, its path is below the
    root, and its texts are valid UTF-8 *)
Context (utf8_ok : string -> bool).
Record capturable (rq : FileAcquisitionRequest) (o : Opened) : Prop := {
  cb_id : validated_id (rq_capture_id rq) = Ok tt;
  cb_commands : rq_command_id rq <> "" /\ rq_correlation_id rq <> "";
  cb_bound : 0 < rq_maximum_bytes rq <= u64_max;
  cb_path : rq_relative_path rq <> "" /\ is_rooted (rq_relative_path rq) = false /\
    first_bad (path_parts (rq_relative_path rq) "") = None;
  cb_inside : starts_with (root_path o +:+ String backslash "") (f_path (before o)) = true /\
    slen (root_path o) + 1 < slen (f_path (before o));
  cb_utf8 : exists source relative, utf8 (f_path (before o)) = Ok source /\ utf8 (rq_relative_path rq) = Ok relative /\
    utf8_ok source = true /\ utf8_ok relative = true;
  cb_texts : utf8_ok (rq_capture_id rq) = true /\ utf8_ok (rq_command_id rq) = true /\
    utf8_ok (rq_correlation_id rq) = true /\ utf8_ok (f_identity (before o)) = true /\ utf8_ok (root_identity o) = true;
  cb_size : 0 <= f_size (before o) <= i64_max /\ - i64_max - 1 <= f_write_time (before o) <= i64_max;
  cb_contents : slen (contents (f_identity (before o)) (f_size (before o)) (f_write_time (before o))) = f_size (before o)
}.
(** the providers answer, and documents of valid text are printed *)
Record providers_work : Prop := {
  pw_prints j : flat j -> texts_ok utf8_ok j -> (exists s, dump j = Ok s) /\ exists s, pretty j = Ok s;
  pw_macs key text : exists tag, hmac_sha256 key text = Ok tag;
  pw_encrypts key nonce aad plain : exists r, encrypt key nonce aad plain = Ok r;
  pw_digests text : exists digest, cng_sha256 text = inr digest /\ Forall (fun b => 0 <= b < 256) digest;
  pw_ascii s : str_forallb is_lower_hex s = true -> utf8_ok s = true;
  pw_literals s : s ∈ [""; "partial"; "complete"; "truncated"; "captured_prefix"; "complete_source"] -> utf8_ok s = true
}.
Definition same_request (a b : FileAcquisitionRequest) : Prop :=
  rq_capture_id a = rq_capture_id b /\ rq_relative_path a = rq_relative_path b /\
  rq_maximum_bytes a = rq_maximum_bytes b /\ rq_command_id a = rq_command_id b /\ rq_correlation_id a = rq_correlation_id b.

Section Call.
Context (os : nat -> Os) (rq rq0 : FileAcquisitionRequest) (o0 : Opened) (f0 : FileFacts) (fallible good : Prop).
Context (smooth_unless : fallible \/ forall n, smooth (os n)) (good_unless : fallible \/ good).
Context (native : native_os os) (bound : 0 <= rq_maximum_bytes rq <= u64_max).
Context (source_held : honest -> held os f0).
Context (good_held : good -> honest /\ f0 = before o0) (good_steady : good -> steady os o0).
Context (good_request : good -> same_request rq rq0) (good_target : good -> capturable rq0 o0).
Abbreviation run_ok := (run_ok fallible).

Context (good_works : good -> providers_work).
(** a resumption is asked for only where a manifest may be missing without harm *)
Context (fresh_unless : fallible \/ resume_existing_only rq = false).

(** what an opened target satisfies *)
Record opened_ok (o : Opened) : Prop := {
  op_size : 0 <= f_size (before o) <= i64_max; op_write : - i64_max - 1 <= f_write_time (before o) <= i64_max;
  op_held : honest -> f_size (before o) = f_size f0 /\ f_write_time (before o) = f_write_time f0 /\
    f_identity (before o) = f_identity f0;
  op_good : good -> o = o0
}.
Definition stays (P : assertion) (I : Disk -> Prop) : Prop := forall d r, P d r -> I d.
Lemma final_path_run h P I : stays P I ->
  run_ok P (final_path os h) (fun p d r => P d r /\
    (good -> p = match h with Root => root_path o0 | Source => f_path (before o0) end)) I.
Proof.
  intros HI. apply run_ok_query; [done|done|]. intros n Hs. destruct (raw_path (os n) h) as [p|] eqn:E.
  - intros Hg. destruct (good_steady Hg). destruct h; eauto.
  - destruct Hs as [|Hs]; [done|]. by destruct (sm_path _ Hs h).
Qed.
Lemma identity_run h P I : stays P I ->
  run_ok P (identity os h) (fun id d r => P d r /\
    (good -> h = Root -> id = root_identity o0) /\ (honest -> h = Source -> id = f_identity f0)) I.
Proof.
  intros HI. apply run_ok_query; [done|done|]. intros n Hs. destruct (raw_identity (os n) h) as [id|] eqn:E.
  - split; [intros Hg ->; by eapply (sd_root_identity _ _ (good_steady Hg))|intros Hh ->; by eapply (hd_identity _ _ (source_held Hh))].
  - destruct Hs as [|Hs]; [done|]. by destruct (sm_identity _ Hs h).
Qed.
Record facts_ok (f : FileFacts) : Prop := {
  fo_size : 0 <= f_size f <= i64_max; fo_write : - i64_max - 1 <= f_write_time f <= i64_max;
  fo_held : honest -> f_size f = f_size f0 /\ f_write_time f = f_write_time f0 /\ f_identity f = f_identity f0;
  fo_good : good -> f = before o0
}.
Lemma facts_run P I : stays P I -> run_ok P (facts os) (fun f d r => P d r /\ facts_ok f) I.
Proof.
  intros HI. unfold facts.
  apply (run_ok_query_bind os fallible smooth_unless _ _ _ _ _ (fun raw =>
    (fallible \/ is_directory raw = false /\ is_reparse raw = false) /\
    end_of_file raw <= i64_max /\ - i64_max - 1 <= last_write raw <= i64_max /\
    (honest -> end_of_file raw = f_size f0 /\ last_write raw = f_write_time f0))); [done| |].
  { intros n Hs. destruct (raw_facts (os n) Source) as [raw|] eqn:E; cbn.
    - destruct (no_facts _ native n _ _ E) as [H1 H2]. split_and!; try lia; [|intros Hh; by apply (hd_facts _ _ (source_held Hh) n)].
      destruct Hs as [|Hs]; [by left|right]. destruct (sm_source _ Hs) as (raw' & E' & ?). congruence.
    - destruct Hs as [|Hs]; [done|]. destruct (sm_source _ Hs) as (raw' & E' & _). congruence. }
  intros raw (Hd & He & Hw & Hh).
  apply run_ok_result_bind.
  { intros d r e Hp Ht. split; [|by eapply HI]. destruct Hd as [|[E1 E2]]; [done|]. by rewrite E1, E2 in Ht. }
  intros [] _. apply run_ok_result_bind.
  { intros d r e Hp Ht. split; [|by eapply HI]. destruct good_unless as [|Hg]; [done|].
    destruct (good_held Hg) as [Hho Ef]. destruct (Hh Hho) as [Es _].
    pose proof (cb_size _ _ (good_target Hg)) as [Hz _]. rewrite Es, Ef in Ht.
    unfold throw_if in Ht. destruct (Z.ltb_spec (f_size (before o0)) 0); [lia|discriminate]. }
  intros [] Hz%throw_if_Ok%Z.ltb_ge.
  eapply run_ok_bind; [by apply identity_run|]. intros id. apply run_ok_assume. intros [_ Hid].
  eapply run_ok_bind; [by apply final_path_run|]. intros path. apply run_ok_assume. intros Hpath.
  apply run_ok_ret. intros d r Hp. split; [done|]. split; cbn; [lia|lia| |].
  - intros Hho. destruct (Hh Hho). by rewrite (Hid Hho eq_refl).
  - intros Hg. destruct (good_held Hg) as [Hho Ef]. destruct (Hh Hho) as [-> ->]. rewrite (Hid Hho eq_refl), (Hpath Hg), Ef.
    by destruct (before o0).
Qed.

Lemma resolved_root_run P I : stays P I ->
  run_ok P (resolved_root os config) (fun p d r => P d r /\ (good -> p = root_path o0)) I.
Proof.
  intros HI. unfold resolved_root. apply run_ok_result_bind.
  { intros d r e Hp Ht. exfalso. destruct config_ok as (H1 & H2 & _). by rewrite H1, H2 in Ht. }
  intros [] _. apply run_ok_nt_bind; [done|done|].
  apply (run_ok_query_bind os fallible smooth_unless _ _ _ _ _ (fun _ => True)); [done| |].
  { intros n Hs. destruct (raw_facts (os n) Root) as [raw|] eqn:E.
    - destruct Hs as [|Hs]; [by destruct (throw_if _ _)|]. destruct (sm_root _ Hs) as (raw' & E' & H1 & H2).
      assert (raw' = raw) as -> by congruence. by rewrite H1, H2.
    - destruct Hs as [|Hs]; [done|]. destruct (sm_root _ Hs) as (raw' & E' & _). congruence. }
  intros [] _. by apply (final_path_run Root).
Qed.
Lemma open_target_run P I : stays P I ->
  run_ok P (open_target os config rq) (fun x d r => P d r /\ match x with inl _ => fallible | inr o => opened_ok o end) I.
Proof.
  intros HI. unfold open_target.
  assert (Hgood : forall X : Prop, (good -> X -> False) -> X -> fallible)
    by (intros X H HX; destruct good_unless as [|Hg]; [done|by destruct (H Hg HX)]).
  destruct (_ || _) eqn:Epath.
  { apply run_ok_ret. intros d r Hp. split; [done|]. revert Epath. apply Hgood. intros Hg E.
    destruct (good_target Hg) as [_ _ Hb (Hp1 & Hp2 & _) _ _ _ _ _]. destruct (good_request Hg) as (_ & Er & Em & _).
    rewrite Er, Em, Hp2 in E. destruct (rq_relative_path rq0); [done|]. cbn in E. apply Z.eqb_eq in E. lia. }
  destruct (first_bad _) as [why|] eqn:Ebad.
  { apply run_ok_ret. intros d r Hp. split; [done|]. revert Ebad. apply Hgood. intros Hg E.
    destruct (good_request Hg) as (_ & Er & _). rewrite Er in E. pose proof (cb_path _ _ (good_target Hg)) as (_ & _ & Hb). congruence. }
  eapply run_ok_bind; [by apply resolved_root_run|]. intros root. apply run_ok_assume. intros Hroot.
  apply (run_ok_query_bind os fallible smooth_unless _ _ _ _ _ (fun b => b = true \/ fallible)); [done| |].
  { intros n [|Hs]; [by right|left]. by rewrite (sm_fails _ Hs). }
  intros opened Hop. destruct opened; cbn [negb]; [|apply run_ok_ret; intros d r Hp; split; [done|by destruct Hop]].
  eapply run_ok_bind; [by apply facts_run|]. intros f. apply run_ok_assume. intros Hf.
  eapply run_ok_bind; [by apply final_path_run|]. intros now. apply run_ok_assume. intros Hnow.
  eapply run_ok_bind; [by apply identity_run|]. intros id. apply run_ok_assume. intros [Hid _].
  destruct (String.eqb_spec now root) as [->|Hne]; cbn [negb];
    [|apply run_ok_ret; intros d r Hp; split; [done|]; revert Hne; apply Hgood; intros Hg E; apply E; by rewrite Hnow, Hroot].
  clear Epath. cbv zeta. destruct (_ || _) eqn:Ein; apply run_ok_ret; intros d r Hp; (split; [done|]).
  - revert Ein. apply Hgood. intros Hg E. rewrite (Hroot Hg), (fo_good _ Hf Hg) in E.
    pose proof (cb_inside _ _ (good_target Hg)) as [H1 H2]. rewrite H1, slen_app in E. cbn [negb] in E. rewrite orb_false_r in E.
    apply Z.leb_le in E. unfold slen in *. simpl in E. lia.
  - destruct Hf as [Hsz Hwr Hhe Hgo]. split; cbn; try done. intros Hg. rewrite (Hroot Hg), (Hid Hg eq_refl), (Hgo Hg). by destruct o0.
Qed.

(** ** What is known of the one capture of a good life *)
Abbreviation id0 := (rq_capture_id rq0).
Definition source0 : string :=
  contents (f_identity (before o0)) (f_size (before o0)) (f_write_time (before o0)).
Definition cap0 : Z := Z.min (requested_cap config rq0) (f_size (before o0)).
Abbreviation piece0 := (fun offset => piece chunk cap0 offset source0).
Record asks (r : FileAcquisitionRequest) (o : Opened) (c : Capture) : Prop := {
  as_id : c_id c = rq_capture_id r; as_identity : c_identity c = f_identity (before o);
  as_path : utf8 (f_path (before o)) = Ok (c_path c); as_relative : utf8 (rq_relative_path r) = Ok (c_relative c);
  as_size : c_size c = f_size (before o); as_write : c_write c = f_write_time (before o);
  as_root : c_root c = root_identity o; as_cap : c_cap c = requested_cap config r;
  as_requested : c_requested c = rq_maximum_bytes r; as_chunk : c_chunk c = chunk;
  as_correlation : c_correlation c = rq_correlation_id r
}.
(** every chunk file holds its piece; those below [next] exist, at most one more does *)
Definition regular_upto (d : Disk) (next : Z) : Prop := forall i, 0 <= i ->
  match d !! chunk_name id0 i with
  | Some _ => i <= next /\ i * chunk < cap0 /\ holds_chunk d id0 i (i * chunk) (piece0 (i * chunk))
  | None => next <= i
  end.
Record known (c : Capture) : Prop := {
  kn_range : in_range c; kn_asks : asks rq0 o0 c; kn_command : c_command c = rq_command_id rq0;
  kn_texts : Forall (fun s => utf8_ok s = true) (texts_of c)
}.
Definition underway (c : Capture) : Prop :=
  c_state c = "partial" /\ c_captured c = Z.min cap0 (c_next c * chunk) /\ 0 <= c_next c /\
  (c_next c = 0 \/ (c_next c - 1) * chunk < cap0).
Definition final0 : string := if requested_cap config rq0 <? f_size (before o0) then "truncated" else "complete".
Definition finished (state sha : string) (captured : Z) : Prop :=
  state = final0 /\ captured = cap0 /\
  exists digest, cng_sha256 (str_take (Z.to_nat cap0) source0) = inr digest /\ sha = hex_bytes digest.
Definition regular (d : Disk) : Prop :=
  match d !! manifest_name id0 with
  | None => regular_upto d 0
  | Some text => exists c, manifest_text c text /\ known c /\
      (underway c /\ regular_upto d (c_next c) \/ finished (c_state c) (c_sha c) (c_captured c))
  end.
Definition inv (d : Disk) : Prop := store_ok d /\ (good -> regular d).
Definition scratch_stable (P : assertion) : Prop := forall d r name, is_scratch name -> P d r ->
  (forall x, P (<[name := x]> d) r) /\ P (delete name d) r.
Lemma holds_chunk_same d d' id i offset p :
  d' !! chunk_name id i = d !! chunk_name id i -> holds_chunk d id i offset p -> holds_chunk d' id i offset p.
Proof. intros E (bytes & Hb & H). exists bytes. by rewrite E. Qed.
Lemma upto_same d d' next :
  (forall i, 0 <= i -> d' !! chunk_name id0 i = d !! chunk_name id0 i) -> regular_upto d next -> regular_upto d' next.
Proof.
  intros E H i Hi. specialize (H i Hi). rewrite (E i Hi). destruct (d !! chunk_name id0 i); [|done].
  destruct H as (? & ? & ?). split_and!; [done|done|]. eapply holds_chunk_same; [|done]. by apply E.
Qed.
Lemma regular_same d d' :
  (forall name, is_manifest name \/ is_chunk name -> d' !! name = d !! name) -> regular d -> regular d'.
Proof.
  intros E. unfold regular. rewrite (E (manifest_name id0)) by (left; apply manifest_name_end).
  assert (Hc : forall i, 0 <= i -> d' !! chunk_name id0 i = d !! chunk_name id0 i)
    by (intros i _; apply E; right; apply chunk_name_end).
  destruct (d !! manifest_name id0); [|by apply upto_same].
  intros (c & Ht & Hk & [[Hu Hr]|Hf]); exists c; (split_and!; [done|done|]); [left|by right].
  split; [done|]. by eapply upto_same.
Qed.
Lemma inv_scratch d name : is_scratch name -> inv d -> (forall x, inv (<[name := x]> d)) /\ inv (delete name d).
Proof.
  intros Hn [Hs Hr]. assert (Hother : forall k, is_manifest k \/ is_chunk k -> k <> name)
    by (intros k Hk ->; destruct Hn; tauto).
  split; [intros x|]; (split; [by apply (store_scratch d name); eauto|intros Hg; eapply regular_same; [|by apply Hr]; intros k Hk]).
  all: apply Hother in Hk; by rewrite ?lookup_insert_ne, ?lookup_delete_ne.
Qed.

(** ** Writing *)
Lemma fallible_if (X : Prop) : (good -> X -> False) -> X -> fallible.
Proof. intros H HX. destruct good_unless as [|Hg]; [done|by destruct (H Hg HX)]. Qed.
Lemma persist_run (P : assertion) file mac c j :
  describes mac c j -> in_range c -> (good -> Forall (fun s => utf8_ok s = true) (texts_of c)) ->
  stays P inv -> scratch_stable P ->
  run_ok P (persist_manifest hmac_sha256 dump pretty os config file j)
    (fun _ d' r => exists d text, P d r /\ manifest_text c text /\ d' = <[file := text]> d) inv.
Proof.
  intros Hj Hr Ht HI HP. unfold persist_manifest.
  pose proof (describes_erase _ _ _ Hj) as He.
  apply run_ok_result_bind.
  { intros d r e Hp Hm. split; [|by apply HI in Hp]. revert Hm. apply fallible_if. intros Hg Hm. unfold manifest_mac in Hm.
    destruct (good_works Hg) as [Hpr Hma _ _ _ _].
    destruct (Hpr _ (describes_flat _ _ _ He Hr)) as [[t Et] _].
    { eapply describes_texts_ok; [exact He|by apply Ht|done]. }
    rewrite Et in Hm. cbn [mbind result_bind] in Hm. destruct (Hma (encryption_key config) t) as [tag Eg]. by rewrite Eg in Hm. }
  intros m Hm. pose proof (describes_mac _ _ _ m Hj) as Hd.
  apply run_ok_result_bind.
  { intros d r e Hp Hx. split; [|by apply HI in Hp]. revert Hx. apply fallible_if. intros Hg Hx.
    destruct (good_works Hg) as [Hpr _ _ _ Has _].
    destruct (Hpr _ (describes_flat _ _ _ Hd Hr)) as [_ [t Et]]; [|by rewrite Et in Hx].
    eapply describes_texts_ok; [exact Hd|by apply Ht|]. intros ? [= <-]. apply Has.
    unfold manifest_mac in Hm. inv_ok Hm. apply Ok_inj in Hm as <-. apply hex_bytes_lower. by eapply tags. }
  intros text Htext. cbv zeta. pose proof (persisted _ _ _ _ _ Hj Hr Hm Htext) as Hmt.
  pose proof (tmp_scratch file) as Hs.
  eapply run_ok_bind; [apply (run_ok_act os fallible smooth_unless _ _ P P); [done|]|].
  { intros x d r Hp. by apply (HP d r _ Hs). }
  intros ?. eapply run_ok_bind; [apply (run_ok_call os fallible smooth_unless _ P (fun _ => P)); [done|]|].
  { intros n d r Hp _ _. by apply (HP d r _ Hs). }
  intros ?. eapply run_ok_bind; [apply (run_ok_act os fallible smooth_unless _ _ P P); [done|]|].
  { intros x d r Hp. by apply (HP d r _ Hs). }
  intros ?. apply run_ok_nt_bind; [done|done|].
  apply run_ok_act; [done|done|]. intros x d r Hp. exists (delete (file +:+ ".tmp") d), text.
  split_and!; [by apply (HP d r _ Hs)|done|done].
Qed.

(** ** Reading *)
Lemma exists_run P file : stays P inv ->
  run_ok P (exists_ os file) (fun b d r => P d r /\ (b = true <-> is_Some (d !! file))) inv.
Proof.
  intros HI. apply run_ok_call; [done|done|]. intros n d r Hp _ Hs. destruct (fails (os n)) eqn:E.
  - split; [|by apply HI in Hp]. destruct Hs as [|Hs]; [done|]. by rewrite (sm_fails _ Hs) in E.
  - split; [done|]. by rewrite bool_decide_eq_true.
Qed.
(** the contents of a file, which must be there *)
Lemma load_run (P : assertion) file e : stays P inv -> (good -> forall d r, P d r -> is_Some (d !! file)) ->
  run_ok P (call os (fun a d => (of_option (if fails a then None else d !! file) e, d)))
    (fun text d r => P d r /\ d !! file = Some text) inv.
Proof.
  intros HI Hg. apply run_ok_call; [done|done|]. intros n d r Hp _ Hs. destruct (fails (os n)) eqn:E; cbn [of_option].
  - split; [|by apply HI in Hp]. destruct Hs as [|Hs]; [done|]. by rewrite (sm_fails _ Hs) in E.
  - destruct (d !! file) eqn:El; [done|]. split; [|by apply HI in Hp]. revert El. apply fallible_if.
    intros Hgo El. destruct (Hg Hgo d r Hp). congruence.
Qed.
Lemma decode_run (P : assertion) id i offset : stays P inv ->
  (good -> forall d r, P d r -> exists p, holds_chunk d id i offset p) ->
  run_ok P (decode_chunk decrypt os config id i offset) (fun p d r => P d r /\ holds_chunk d id i offset p) inv.
Proof.
  intros HI Hg. unfold decode_chunk.
  eapply run_ok_bind; [apply load_run; [done|]; intros Hgo d r Hp; destruct (Hg Hgo d r Hp) as (? & b & Hb & _); by exists b|].
  intros bytes. cbv beta. apply run_ok_result_bind.
  { intros d r e [Hp Hb] Ht. split; [|by apply HI in Hp]. revert Ht. apply fallible_if. intros Hgo Ht.
    destruct (Hg Hgo d r Hp) as (p & b & Hb' & _ & Hl). assert (b = bytes) as -> by congruence.
    unfold throw_if in Ht. destruct (Z.ltb_spec (slen bytes) (Z.of_nat kChunkHeaderBytes)); [lia|].
    destruct (Z.ltb_spec (Z.of_nat kChunkHeaderBytes + 16 * 1024 * 1024) (slen bytes)); [lia|done]. }
  intros [] [H1%Z.ltb_ge H2%Z.ltb_ge]%throw_if_Ok%orb_false_iff.
  apply run_ok_nt_bind; [done|intros d r [Hp _]; by apply HI in Hp|].
  apply run_ok_nt_bind; [done|intros d r [Hp _]; by apply HI in Hp|].
  apply run_ok_result. intros d r [Hp Hb]. destruct (opens id i offset bytes) as [p|e] eqn:E.
  - split; [done|]. by exists bytes.
  - split; [|by apply HI in Hp]. revert E. apply fallible_if. intros Hgo E.
    destruct (Hg Hgo d r Hp) as (p & b & Hb' & Ho & _). congruence.
Qed.
Lemma encode_run (P : assertion) id i offset plain : stays P inv ->
  0 <= i <= u64_max -> 0 <= offset <= u64_max -> slen plain <= chunk ->
  run_ok P (encode_chunk encrypt os config id i offset plain) (fun bytes d r => P d r /\
    opens id i offset bytes = Ok plain /\
    Z.of_nat kChunkHeaderBytes <= slen bytes <= Z.of_nat kChunkHeaderBytes + 16 * 1024 * 1024) inv.
Proof.
  intros HI Hi Ho Hp. unfold encode_chunk. destruct config_ok as (_ & _ & _ & Hc).
  apply (run_ok_query_bind os fallible smooth_unless _ _ _ _ _ (fun nonce => String.length nonce = kNonceBytes)); [done| |].
  { intros n Hs. destruct (fails (os n)) eqn:E; [|by apply no_random]. destruct Hs as [|Hs]; [done|]. by rewrite (sm_fails _ Hs) in E. }
  intros nonce Hn. apply run_ok_nt_bind; [done|done|]. apply run_ok_result_bind.
  { intros d r e Hd Ht. split; [|by apply HI in Hd]. revert Ht. apply fallible_if. intros Hg Ht.
    destruct (pw_encrypts (good_works Hg) (encryption_key config) nonce (chunk_aad id i offset) plain). congruence. }
  intros [cipher tag] He. apply run_ok_ret. intros d r Hd. split; [done|]. split.
  - eapply chunk_roundtrip; try done. unfold u32_max. lia.
  - destruct (decrypts _ _ _ _ _ _ He) as (_ & Hl & Ht). rewrite chunk_length, Hl by done. pose proof (slen_nonneg plain). lia.
Qed.
Lemma holds_chunk_unique d id i offset p q : holds_chunk d id i offset p -> holds_chunk d id i offset q -> p = q.
Proof. intros (b & Hb & Ho & _) (b' & Hb' & Ho' & _). assert (b' = b) as -> by congruence. rewrite Ho in Ho'. by apply Ok_inj. Qed.
Lemma manifest_text_unique c c' text : manifest_text c text -> manifest_text c' text -> c = c'.
Proof.
  intros (j & m & Hj & Hd & _) (j' & m' & Hj' & Hd' & _). rewrite Hj in Hj'. apply Ok_inj in Hj' as <-. by eapply describes_inj.
Qed.
(** a manifest that is there is authentic *)
Lemma read_manifest_run (P : assertion) file : stays P inv -> is_manifest file ->
  (good -> forall d r, P d r -> is_Some (d !! file)) ->
  run_ok P (read_manifest hmac_sha256 json_parse dump os config file) (fun j d r => P d r /\ exists text c mac,
    d !! file = Some text /\ manifest_text c text /\ describes (Some mac) c j /\ file = manifest_name (c_id c)) inv.
Proof.
  intros HI Hf Hg. unfold read_manifest. eapply run_ok_bind; [by apply load_run|]. intros text. cbv beta.
  assert (Hm : forall d r, P d r -> d !! file = Some text -> exists c j mac, json_parse text = Ok j /\
    describes (Some mac) c j /\ verify j = Ok tt /\ manifest_text c text /\ file = manifest_name (c_id c)).
  { intros d r Hp Hl. destruct (HI d r Hp) as [Hs _]. destruct (Hs file text Hf Hl) as (c & Ht & En & _).
    pose proof Ht as (j & mac & H1 & H2 & H3). by exists c, j, mac. }
  apply run_ok_result_bind.
  { intros d r e [Hp Hl] He. destruct (Hm d r Hp Hl) as (c & j & mac & H1 & _). congruence. }
  intros j Hj. apply run_ok_result_bind.
  { intros d r e [Hp Hl] He. destruct (Hm d r Hp Hl) as (c & j' & mac & H1 & _ & H2 & _). congruence. }
  intros [] _. apply run_ok_ret. intros d r [Hp Hl]. split; [done|]. destruct (Hm d r Hp Hl) as (c & j' & mac & H1 & H2 & _ & H3 & H4).
  exists text, c, mac. assert (j' = j) as -> by congruence. done.
Qed.

(** ** A manifest that exists *)
Lemma other_request_iff o mac c j : describes mac c j -> in_range c -> c_id c = rq_capture_id rq ->
  other_request utf8 config rq o j = Ok false <->
  asks rq o c /\ (resume_existing_only rq = true -> c_command c = rq_command_id rq).
Proof.
  intros Hj [] Hid. destruct (describes_texts _ _ _ Hj) as (_ & _ & _ & T4 & T5 & T6 & T7 & T8 & T9 & _).
  destruct (describes_numbers _ _ _ Hj) as (N1 & N2 & N3 & N4 & cp & nx & wt & ver & _ & _ & F3 & _ & _ & _ & M3 & _).
  unfold other_request. rewrite !any_of_cons.
  rewrite (differs_text_at _ _ _ _ T4), (differs_text_at _ _ _ _ T7), (differs_uint_at _ _ _ _ N1),
    (differs_uint_at _ _ _ _ N2), (differs_uint_at _ _ _ _ N4), (differs_int_at _ _ _ _ _ F3 M3).
  unfold differs_text. rewrite (value_find _ _ _ T6), (value_find _ _ _ T8), (value_find _ _ _ T9). cbn [mbind result_bind].
  assert (Hn : value_number "requested_maximum_bytes" j = Ok (c_requested c)).
  { destruct j; try done. simpl in N3 |- *. rewrite N3. simpl. by rewrite u64_small. }
  rewrite Hn. cbn [mbind result_bind].
  assert (Hsame : forall b, Ok (negb b) = Ok false <-> b = true) by (intros []; naive_solver).
  rewrite !Hsame, !String.eqb_eq, !Z.eqb_eq.
  assert (Hp : (t ← utf8 (f_path (before o)); differs "source_path" (JStr t) j) = Ok false <-> utf8 (f_path (before o)) = Ok (c_path c)).
  { destruct (utf8 (f_path (before o))) as [t|e]; cbn [mbind result_bind]; [|done].
    rewrite (differs_text_at _ _ _ _ T5), Hsame, String.eqb_eq. naive_solver. }
  assert (Hr : (t ← utf8 (rq_relative_path rq); Ok (negb (c_relative c =? t)%string)) = Ok false <-> utf8 (rq_relative_path rq) = Ok (c_relative c)).
  { destruct (utf8 (rq_relative_path rq)) as [t|e]; cbn [mbind result_bind]; [|done]. rewrite Hsame, String.eqb_eq. naive_solver. }
  assert (Hc : (if resume_existing_only rq then Ok (negb (c_command c =? rq_command_id rq)%string) else Ok false) = Ok false <->
    (resume_existing_only rq = true -> c_command c = rq_command_id rq)).
  { destruct (resume_existing_only rq); [rewrite Hsame, String.eqb_eq; naive_solver|naive_solver]. }
  rewrite Hp, Hr, Hc. split.
  - intros (H1 & H2 & H3 & H4 & H5 & H6 & H7 & H8 & H9 & H10 & H11 & _). split; [split|]; first [done|congruence].
  - intros [[] H]. split_and!; first [done|congruence].
Qed.

Abbreviation id := (rq_capture_id rq).
Abbreviation file := (manifest_name id).
Definition is_final (state : string) : Prop := state = "complete" \/ state = "truncated".
(** a result that names a final state reports an authentic manifest *)
Definition told (x : FileAcquisitionResult) (d : Disk) : Prop := is_final (acq_state x) ->
  exists text c o, d !! file = Some text /\ manifest_text c text /\ opened_ok o /\ asks rq o c /\
    c_state c = acq_state x /\ c_captured c = captured_bytes x /\ c_sha c = acq_sha256 x.
Definition answered (x : FileAcquisitionResult) (d : Disk) : Prop :=
  inv d /\ told x d /\ (fallible \/ is_final (acq_state x)).
Definition at_manifest (o : Opened) (c : Capture) (j : json) (d : Disk) : Prop :=
  inv d /\ (exists text, d !! file = Some text /\ manifest_text c text) /\ (exists mac, describes mac c j) /\
  asks rq o c /\ c_state c = "partial" /\ in_range c.

Lemma asks_same o c : same_request rq rq0 -> asks rq o c <-> asks rq0 o c.
Proof.
  intros (E1 & E2 & E3 & _ & E5). unfold requested_cap in *.
  split; intros []; split; unfold requested_cap in *; congruence.
Qed.
Lemma regular_manifest d text c : good -> inv d -> d !! file = Some text -> manifest_text c text ->
  known c /\ (underway c /\ regular_upto d (c_next c) \/ finished (c_state c) (c_sha c) (c_captured c)).
Proof.
  intros Hg [_ Hr] Hl Ht. specialize (Hr Hg). unfold regular in Hr. destruct (good_request Hg) as (Ei & _). rewrite Ei in Hl.
  rewrite Hl in Hr. destruct Hr as (c' & Ht' & H). by rewrite (manifest_text_unique _ _ _ Ht Ht').
Qed.
Lemma inv_manifest d c text : inv d -> manifest_text c text -> capture_ok d c -> c_id c = id ->
  (good -> known c /\ (underway c /\ regular_upto d (c_next c) \/ finished (c_state c) (c_sha c) (c_captured c))) ->
  inv (<[file := text]> d).
Proof.
  intros [Hs _] Ht Hc Hid Hg. rewrite <- Hid. split; [by apply store_manifest|]. intros Hgo.
  destruct (Hg Hgo) as [Hk H]. unfold regular. destruct (good_request Hgo) as (Ei & _). rewrite Hid, Ei, lookup_insert_eq.
  exists c. split_and!; [done|done|]. destruct H as [[Hu Hr]|]; [left|by right]. split; [done|].
  eapply upto_same; [|done]. intros i _. apply lookup_insert_ne. intros E.
  apply (not_manifest_chunk (chunk_name id0 i)); [apply chunk_name_end|rewrite <- E; apply manifest_name_end].
Qed.
Lemma inv_capture d text c : inv d -> d !! file = Some text -> manifest_text c text -> capture_ok d c.
Proof.
  intros [Hs _] Hl Ht. destruct (Hs _ _ (manifest_name_end _) Hl) as (c' & Ht' & _ & Hc).
  by rewrite (manifest_text_unique _ _ _ Ht Ht').
Qed.

(** ** Admission *)
Lemma refuse_run why (P : assertion) : (forall d r, P d r -> inv d /\ fallible) ->
  run_ok P (refuse why) (fun x d r => answered x d /\ x = r) inv.
Proof.
  intros H. unfold refuse. eapply run_ok_bind; [apply (run_ok_report _ _ P (fun d r => inv d /\ fallible /\ acq_state r = "refused"))|].
  { intros d r Hp. by destruct (H d r Hp). }
  intros ?. apply run_ok_draft. intros d r (Hi & Hf & Hx).
  split; [|done]. split_and!; [done| |by left]. intros [E|E]; congruence.
Qed.
Lemma refuse_none why (P : assertion) (Q : option json -> assertion) : (forall d r, P d r -> inv d /\ fallible) ->
  (forall d r, answered r d -> Q None d r) -> run_ok P (_ ← refuse why; mret None) Q inv.
Proof.
  intros H HQ. eapply run_ok_bind; [by apply refuse_run|]. intros x. apply run_ok_ret. intros d r [Ha ->]. by apply HQ.
Qed.
Lemma number_at_run k j v z (P : assertion) : find k j = Some v -> number v z -> 0 <= z <= u64_max ->
  run_ok P (number_at k j) (fun n d r => P d r /\ n = z) inv.
Proof.
  intros Hf Hv Hz. apply run_ok_result. intros d r Hp. rewrite (find_at _ _ _ Hf). cbn [mbind result_bind].
  by rewrite (get_number_number _ _ Hv Hz).
Qed.
Lemma manifest_numbers mac c j : describes mac c j -> in_range c ->
  exists cp nx, find "captured_bytes" j = Some cp /\ number cp (c_captured c) /\ 0 <= c_captured c <= u64_max /\
    find "next_sequence" j = Some nx /\ number nx (c_next c) /\ 0 <= c_next c <= u64_max.
Proof.
  intros Hj []. destruct (describes_numbers _ _ _ Hj) as (_ & _ & _ & _ & cp & nx & wt & ver & F1 & F2 & _ & _ & M1 & M2 & _).
  exists cp, nx. unfold i64_max, u64_max in *. split_and!; try done; lia.
Qed.
Lemma report_manifest_run (P : assertion) mac c j : describes mac c j -> in_range c ->
  run_ok P (report_manifest j) (fun _ d r => exists r0, P d r0 /\ acq_state r = acq_state r0 /\
    captured_bytes r = c_captured c /\ acq_sha256 r = c_sha c) inv.
Proof.
  intros Hj Hr. destruct (manifest_numbers _ _ _ Hj Hr) as (cp & nx & F1 & M1 & R1 & F2 & M2 & R2).
  destruct (describes_texts _ _ _ Hj) as (_ & _ & T3 & _). unfold report_manifest.
  eapply run_ok_bind; [by eapply number_at_run|]. intros n. cbv beta. apply run_ok_assume. intros ->.
  eapply run_ok_bind; [apply (run_ok_report _ _ P (fun d r => exists r0, P d r0 /\ acq_state r = acq_state r0 /\ captured_bytes r = c_captured c))|].
  { intros d r Hp. by exists r. }
  intros ?. eapply run_ok_bind; [by eapply number_at_run|]. intros n. cbv beta. apply run_ok_assume. intros ->.
  eapply run_ok_bind; [apply (run_ok_report _ _ _ (fun d r => exists r0, P d r0 /\ acq_state r = acq_state r0 /\ captured_bytes r = c_captured c)); done|].
  intros ?. rewrite (value_find _ _ _ T3). apply run_ok_result_bind; [done|]. intros sha [= <-].
  apply run_ok_report. intros d r (r0 & Hp & E1 & E2). by exists r0.
Qed.
Lemma known_asks o c : good -> opened_ok o -> known c ->
  asks rq o c /\ (resume_existing_only rq = true -> c_command c = rq_command_id rq).
Proof.
  intros Hg Ho Hk. destruct (good_request Hg) as (E1 & E2 & E3 & E4 & E5) eqn:E. split.
  - rewrite (op_good _ Ho Hg). apply asks_same; [by apply good_request|apply Hk].
  - intros _. rewrite E4. apply Hk.
Qed.
Lemma other_request_run (P : assertion) o mac c j : stays P inv -> describes mac c j -> in_range c -> c_id c = id ->
  opened_ok o -> (good -> known c) ->
  run_ok P (of_result (other_request utf8 config rq o j))
    (fun b d r => P d r /\ if b : bool then fallible else asks rq o c) inv.
Proof.
  intros HI Hj Hr Hid Ho Hk. apply run_ok_result. intros d r Hp. pose proof (other_request_iff o _ _ _ Hj Hr Hid) as Hiff.
  assert (Hgood : other_request utf8 config rq o j <> Ok false -> fallible)
    by (apply fallible_if; intros Hg Hn; by apply Hn, Hiff, known_asks; auto).
  destruct (other_request utf8 config rq o j) as [[]|e]; [|by split; [|apply Hiff]|].
  - split; [done|by apply Hgood].
  - split; [by apply Hgood|by apply HI in Hp].
Qed.
Lemma check_manifest_run (P : assertion) what_ mac c j : stays P inv -> describes mac c j -> (good -> c_id c = id) ->
  run_ok P (check_manifest id what_ j) (fun _ d r => P d r /\ c_id c = id) inv.
Proof.
  intros HI Hj Hg. destruct (describes_texts _ _ _ Hj) as (_ & T2 & _).
  destruct (describes_numbers _ _ _ Hj) as (_ & _ & _ & _ & cp & nx & wt & ver & _ & _ & _ & F4 & _ & _ & _ & M4).
  apply run_ok_result. intros d r Hp. simpl. rewrite (differs_int_at _ _ _ _ _ F4 M4), (differs_text_at _ _ _ _ T2). simpl.
  destruct (String.eqb_spec (c_id c) id) as [E|E]; [done|]. split; [|by apply HI in Hp]. revert E. apply fallible_if. intros Hgo E. by apply E, Hg.
Qed.
(** what is found where a manifest exists *)
Definition found (c : Capture) (d : Disk) : Prop := inv d /\ exists text, d !! file = Some text /\ manifest_text c text.
Record readable (j : json) (c : Capture) : Prop := {
  rd_describes : exists mac, describes mac c j; rd_range : in_range c; rd_known : good -> known c;
  rd_state : c_state c = "partial" \/ is_final (c_state c)
}.
Lemma found_readable j c mac d : describes mac c j -> found c d -> readable j c.
Proof.
  intros Hj (Hi & text & Hl & Ht). destruct (inv_capture _ _ _ Hi Hl Ht) as (Hr & parts & Hb & Hc).
  split; [by exists mac|done| |apply Hc]. intros Hg. by apply (regular_manifest d text c).
Qed.
Definition admitted (o : Opened) (x : option json) (d : Disk) (r : FileAcquisitionResult) : Prop :=
  match x with None => answered r d | Some j => exists c, at_manifest o c j d end.
Lemma existing_run o j c : opened_ok o -> readable j c -> c_id c = id ->
  run_ok (fun d _ => found c d)
    (state ← of_result (at_ "state" j |> get_string);
     if String.eqb state "complete" || String.eqb state "truncated" then
       other ← of_result (other_request utf8 config rq o j);
       if (other : bool)
       then _ ← refuse "capture id already belongs to another source or request identity"; mret None
       else
         _ ← set_verified true;
         _ ← report (fun r => set_path file (set_state state r));
         _ ← report_manifest j;
         _ ← report (set_existing true);
         mret None
     else
       other ← of_result (if String.eqb state "partial" then other_request utf8 config rq o j else Ok true);
       if (other : bool)
       then _ ← refuse "partial capture cannot resume because source or request identity changed"; mret None
       else _ ← set_verified true; mret (Some j)) (admitted o) inv.
Proof.
  intros Ho [[mac Hj] Hr Hk Hst] Hid. assert (HI : stays (fun d _ => found c d) inv) by by intros d _ [].
  destruct (describes_texts _ _ _ Hj) as (T1 & _). rewrite (find_at _ _ _ T1). cbn [mbind result_bind get_string].
  apply run_ok_result_bind; [done|]. intros state [= <-].
  assert (Hf : reflect (is_final (c_state c)) (String.eqb (c_state c) "complete" || String.eqb (c_state c) "truncated")).
  { unfold is_final. destruct (String.eqb_spec (c_state c) "complete"), (String.eqb_spec (c_state c) "truncated"); constructor; tauto. }
  destruct Hf as [Hf|Hf].
  - eapply run_ok_bind; [by eapply other_request_run|]. intros other. apply run_ok_assume. intros Hother. destruct other.
    + apply refuse_none; [|done]. intros d r H. split; [apply H|done].
    + eapply run_ok_bind; [apply run_ok_set_verified|]. intros ?.
      eapply run_ok_bind; [apply (run_ok_report _ _ _ (fun d r => found c d /\ acq_state r = c_state c)); done|]. intros ?.
      eapply run_ok_bind; [by eapply report_manifest_run|]. intros ?. cbv beta.
      eapply run_ok_bind; [apply (run_ok_report _ _ _ (fun d r => found c d /\ acq_state r = c_state c /\
        captured_bytes r = c_captured c /\ acq_sha256 r = c_sha c))|].
      { intros d r (r0 & [Hd E1] & E2 & E3 & E4). cbn. by rewrite E2. }
      intros ?. apply run_ok_ret. intros d r ((Hi & text' & Hl & Ht') & E1 & E2 & E3). cbn.
      split_and!; [done| |right; by rewrite E1]. intros _. by exists text', c, o.
  - destruct Hst as [Hst|]; [|done]. rewrite Hst. cbn [String.eqb Ascii.eqb Bool.eqb].
    eapply run_ok_bind; [by eapply other_request_run|]. intros other. apply run_ok_assume. intros Hother. destruct other.
    + apply refuse_none; [|done]. intros d r H. split; [apply H|done].
    + eapply run_ok_bind; [apply run_ok_set_verified|]. intros ?. apply run_ok_ret. intros d r [Hi Hm].
      exists c. split_and!; try done. by exists mac.
Qed.
(** a new capture *)
Definition fresh_capture (o : Opened) (source relative : string) : Capture := {|
  c_id := id; c_captured := 0; c_chunk := chunk; c_correlation := rq_correlation_id rq; c_command := rq_command_id rq;
  c_scope := "captured_prefix"; c_cap := requested_cap config rq; c_next := 0; c_requested := rq_maximum_bytes rq;
  c_relative := relative; c_root := root_identity o; c_sha := ""; c_identity := f_identity (before o); c_path := source;
  c_size := f_size (before o); c_write := f_write_time (before o); c_state := "partial" |}.
Lemma fresh_describes o source relative :
  describes None (fresh_capture o source relative) (new_manifest config rq o source relative).
Proof. exists (JInt 0), (JInt 0), (JInt (f_write_time (before o))), (JInt 1). split_and!; by (left || reflexivity). Qed.
Lemma fresh_range o source relative : opened_ok o -> in_range (fresh_capture o source relative).
Proof.
  intros [Hs Hw _ _]. destruct config_ok as (_ & _ & Hm & Hc). unfold u32_max, u64_max, i64_max, requested_cap in *.
  split; cbn; unfold requested_cap, i64_max, u64_max, u32_max; lia.
Qed.
Lemma fresh_capture_ok o source relative d : opened_ok o -> capture_ok d (fresh_capture o source relative).
Proof.
  intros Ho. pose proof (fresh_range o source relative Ho) as Hr. split; [done|]. exists []. split.
  - destruct Hr as [_ _ _ H1 _ H2 _]. split; cbn in *; try done; first [lia|intros _; by rewrite str_take_0].
  - split; cbn; [by left|done|done|done].
Qed.
Lemma fresh_known o source relative : good -> opened_ok o ->
  utf8 (f_path (before o)) = Ok source -> utf8 (rq_relative_path rq) = Ok relative ->
  known (fresh_capture o source relative) /\ underway (fresh_capture o source relative).
Proof.
  intros Hg Ho Hs Hr. pose proof (good_request Hg) as Hsame. pose proof Hsame as (E1 & E2 & E3 & E4 & E5).
  pose proof (op_good _ Ho Hg) as ->. destruct (good_target Hg) as [_ _ _ _ _ Hu Ht Hz _].
  destruct Hu as (source' & relative' & U1 & U2 & U3 & U4). destruct Ht as (V1 & V2 & V3 & V4 & V5).
  rewrite E2 in Hr. assert (source' = source /\ relative' = relative) as [-> ->] by (split; apply Ok_inj; congruence).
  destruct (good_works Hg) as [_ _ _ _ _ Hl]. split.
  - split; [by apply fresh_range|apply asks_same; [done|]|done|].
    + split; cbn; congruence.
    + repeat (apply Forall_cons; split; [cbn; first [congruence|apply Hl; set_solver]|]). constructor.
  - unfold underway, cap0. cbn. destruct config_ok as (_ & _ & Hm & _). pose proof (op_size _ Ho). pose proof (cb_bound _ _ (good_target Hg)).
    unfold requested_cap. split_and!; [done|lia|done|by left].
Qed.
Lemma admit_run o : opened_ok o ->
  run_ok (fun d _ => inv d) (admission hmac_sha256 json_parse dump pretty utf8 os config rq o) (admitted o) inv.
Proof.
  intros Ho. unfold admission. eapply run_ok_bind; [apply exists_run; by intros d _ Hi|]. intros present. cbv beta. destruct present.
  - eapply run_ok_bind; [apply read_manifest_run; [by intros d r []|apply manifest_name_end|intros _ d r [_ H]; by apply H]|].
    intros j. cbv beta. apply (run_ok_pre _ (fun d _ => exists c, found c d /\ readable j c)).
    { intros d r [[Hi _] (text & c & mac & Hl & Ht & Hj & _)]. assert (found c d) by (split; [done|by exists text]).
      exists c. split; [done|]. by eapply found_readable. }
    apply run_ok_exists. intros c. apply run_ok_assume. intros Hc. pose proof Hc as [[mac Hj] _ Hk _].
    eapply run_ok_bind; [eapply check_manifest_run; [by intros d r [Hi _]|exact Hj|]|].
    { intros Hg. destruct (Hk Hg) as [_ Ha _ _]. rewrite (as_id _ _ _ Ha). symmetry. apply (good_request Hg). }
    intros ?. cbv beta. apply run_ok_assume. intros Hid. by apply existing_run.
  - apply (run_ok_pre _ (fun d _ => inv d /\ d !! file = None)).
    { intros d r [Hi H]. split; [done|]. apply eq_None_not_Some. intros Hs%H. done. }
    case_eq (resume_existing_only rq); intros Eres.
    { apply refuse_none; [|done]. intros d r [Hi _]. split; [done|]. destruct fresh_unless; [done|congruence]. }
    assert (HI : stays (fun d _ => inv d /\ d !! file = None) inv) by by intros d _ [].
    assert (Hconv : forall s, (good -> exists t, utf8 s = Ok t) -> forall e, utf8 s = Throw e -> fallible).
    { intros s Hs e He. revert He. apply fallible_if. intros Hg He. destruct (Hs Hg). congruence. }
    apply run_ok_result_bind.
    { intros d r e [Hi _] He. split; [|done]. eapply Hconv; [|exact He]. intros Hg. rewrite (op_good _ Ho Hg).
      destruct (cb_utf8 _ _ (good_target Hg)) as (a & b & ? & ? & _). eauto. }
    intros source Hs. apply run_ok_result_bind.
    { intros d r e [Hi _] He. split; [|done]. eapply Hconv; [|exact He]. intros Hg. destruct (good_request Hg) as (_ & -> & _).
      destruct (cb_utf8 _ _ (good_target Hg)) as (a & b & ? & ? & _). eauto. }
    intros relative Hr. cbv zeta. pose proof (fresh_describes o source relative) as Hj.
    eapply run_ok_bind; [apply (persist_run _ _ None (fresh_capture o source relative)); [done|by apply fresh_range| |done|]|].
    + intros Hg. by apply (fresh_known o source relative).
    + intros d r name Hn [Hi Hl]. destruct (inv_scratch d name Hn Hi) as [H1 H2].
      assert (name <> file) by (intros ->; destruct Hn as [Hn _]; apply Hn, manifest_name_end).
      split; [intros x|]; (split; [done|by rewrite ?lookup_insert_ne, ?lookup_delete_ne]).
    + intros ?. apply run_ok_ret. intros d' r (d & text & [Hi Hl] & Ht & ->). exists (fresh_capture o source relative).
      split_and!; [|exists text; by rewrite lookup_insert_eq|by exists None|by split|done|by apply fresh_range].
      apply (inv_manifest d (fresh_capture o source relative)); [done|done|by apply fresh_capture_ok|done|]. intros Hg.
      destruct (fresh_known o source relative) as [Hk Hu]; [done..|]. split; [done|]. left. split; [done|].
      destruct Hi as [_ Hreg]. specialize (Hreg Hg). unfold regular in Hreg. destruct (good_request Hg) as (Ei & _).
      rewrite Ei in Hl. by rewrite Hl in Hreg.
Qed.

(** ** The chunks of a capture that continues *)
Abbreviation size o := (f_size (before o)).
Abbreviation goal o := (Z.min (requested_cap config rq) (f_size (before o))).
Abbreviation held_text := (contents (f_identity f0) (f_size f0) (f_write_time f0)).
Lemma upto_now d text c : good -> inv d -> d !! file = Some text -> manifest_text c text -> c_state c = "partial" ->
  known c /\ underway c /\ regular_upto d (c_next c).
Proof.
  intros Hg Hi Hl Ht Hp. destruct (regular_manifest d text c Hg Hi Hl Ht) as [Hk [[Hu Hr]|[Hf _]]]; [done|].
  exfalso. rewrite Hp in Hf. unfold final0 in Hf. by destruct (_ <? _).
Qed.
Lemma good_id : good -> id = id0.
Proof. intros Hg. apply (good_request Hg). Qed.
Lemma good_goal o : good -> opened_ok o -> goal o = cap0.
Proof.
  intros Hg Ho. rewrite (op_good _ Ho Hg). unfold cap0, requested_cap. by destruct (good_request Hg) as (_ & _ & -> & _).
Qed.
Lemma piece0_size offset : good -> 0 <= offset -> slen (piece0 offset) = Z.max 0 (Z.min chunk (cap0 - offset)).
Proof.
  intros Hg Ho. unfold piece. rewrite slen_take, slen_drop. pose proof (cb_contents _ _ (good_target Hg)) as Hc.
  fold source0 in Hc. rewrite Hc. pose proof (cb_size _ _ (good_target Hg)). destruct config_ok as (_ & _ & _ & Hch).
  unfold cap0. lia.
Qed.
(** the committed chunks are the pieces of the source *)
Lemma regular_parts d next parts : good -> regular_upto d next -> (next = 0 \/ (next - 1) * chunk < cap0) ->
  forall i, 0 <= i -> i + zlen parts = next -> chunks_at d id0 i (i * chunk) parts ->
  forall k p, parts !! k = Some p -> p = piece0 ((i + Z.of_nat k) * chunk).
Proof.
  intros Hg Hr Hn. destruct config_ok as (_ & _ & _ & Hch).
  induction parts as [|q parts IH]; intros i Hi Hl Hc k p Hk; [done|]. destruct Hc as [Hq Hc].
  assert (Eq : q = piece0 (i * chunk)).
  { specialize (Hr i Hi). pose proof Hq as (bytes & Hb & _). rewrite Hb in Hr. destruct Hr as (_ & _ & Hr).
    by eapply holds_chunk_unique. }
  destruct k as [|k]; [simpl in Hk; injection Hk as <-; by rewrite Z.add_0_r|]. simpl in Hk.
  rewrite zlen_cons in Hl. assert (0 < zlen parts) by (destruct parts; [done|unfold zlen; simpl; lia]).
  assert (Hs : slen q = chunk) by (rewrite Eq, piece0_size by (done || nia); nia).
  replace (i + Z.of_nat (S k)) with (i + 1 + Z.of_nat k) by lia. apply IH; [lia|lia| |done].
  by replace ((i + 1) * chunk) with (i * chunk + slen q) by lia.
Qed.
Lemma verify_run (Q : assertion) sequence rest : forall i extent, stays Q inv ->
  (forall d r, Q d r -> chunks_at d id i (slen extent) rest) ->
  (good -> forall k p, rest !! k = Some p -> 0 < slen p <= chunk /\ (i + Z.of_nat k + 1 < sequence -> slen p = chunk)) ->
  run_ok Q (verify_chunks decrypt os config id (length rest) i sequence extent)
    (fun x d r => Q d r /\ x = extent +:+ joined rest) inv.
Proof.
  induction rest as [|p rest IH]; intros i extent HI Hc Hg.
  { apply run_ok_ret. intros d r Hq. by rewrite string_app_nil_r. }
  cbn [length verify_chunks]. eapply run_ok_bind; [apply decode_run; [done|]; intros _ d r Hq; exists p; by destruct (Hc d r Hq)|].
  intros q. apply (run_ok_pre _ (fun d r => Q d r /\ q = p)).
  { intros d r [Hq Hh]. split; [done|]. eapply holds_chunk_unique; [exact Hh|]. by destruct (Hc d r Hq). }
  apply run_ok_assume. intros ->. apply run_ok_result_bind.
  { intros d r e Hq He. split; [|by apply HI in Hq]. revert He. apply fallible_if. intros Hgo He.
    destruct (Hg Hgo O p eq_refl) as [Hl Hf]. rewrite Z.add_0_r in Hf. unfold throw_if in He.
    destruct p; [by destruct Hl|]. cbn [str_empty orb] in He. destruct (Z.ltb_spec chunk (slen (String a p))); [lia|].
    destruct (Z.ltb_spec (i + 1) sequence); [|done]. rewrite Hf, Z.eqb_refl in He by done. done. }
  intros [] _. apply run_ok_nt_bind; [done|done|]. cbn [joined]. rewrite <- string_app_assoc.
  apply IH; [done| |].
  - intros d r Hq. rewrite slen_app. by destruct (Hc d r Hq).
  - intros Hgo k q Hk. replace (i + 1 + Z.of_nat k) with (i + Z.of_nat (S k)) by lia. by apply Hg.
Qed.

(** *** Reading a piece of the source *)
Lemma fill_run (P : assertion) offset take : stays P inv -> 0 <= offset -> forall fuel got,
  slen got <= take -> take - slen got <= Z.of_nat fuel ->
  (honest -> got = str_take (String.length got) (str_drop (Z.to_nat offset) held_text)) ->
  run_ok P (fill os fuel offset take got) (fun x d r => P d r /\ slen x <= take /\
    (honest -> x = str_take (String.length x) (str_drop (Z.to_nat offset) held_text)) /\
    (good -> offset + take <= size o0 -> slen x = take)) inv.
Proof.
  intros HI Ho. induction fuel as [|fuel IH]; intros got Hl Hf Hh; cbn [fill]; pose proof (slen_nonneg got).
  { destruct (Z.leb_spec take (slen got)); apply run_ok_ret; intros d r Hp; split_and!; try done; intros; lia. }
  destruct (Z.leb_spec take (slen got)) as [Hle|Hlt]; [apply run_ok_ret; intros d r Hp; split_and!; try done; intros; lia|].
  cbv zeta. set (count := Z.min (take - slen got) (1024 * 1024)).
  assert (Hcount : 0 < count <= take - slen got) by (unfold count; lia). clearbody count.
  apply (run_ok_query_bind os fallible smooth_unless _ _ _ _ _ (fun part => slen part <= count /\
    (honest -> exists k, part = str_take k (str_drop (Z.to_nat (offset + slen got)) held_text)) /\
    (good -> offset + take <= size o0 -> part <> ""))); [done| |].
  { intros n Hs. destruct (read_at (os n) (offset + slen got) count) as [part|] eqn:E.
    - split_and!; [rewrite slen_take; lia| |].
      + intros Hho. destruct (hd_read _ _ (source_held Hho) n (offset + slen got) count part) as [k ->]; [lia|done|].
        exists (Nat.min (Z.to_nat count) k). by rewrite str_take_take.
      + intros Hg Hin Hz. apply (sd_read _ _ (good_steady Hg) n (offset + slen got) count); [lia|lia|]. rewrite E. f_equal.
        destruct part; [done|]. exfalso. assert (Z.to_nat count <> O) by lia. by destruct (Z.to_nat count).
    - destruct Hs as [|Hs]; [done|]. by destruct (sm_read _ Hs (offset + slen got) count). }
  intros part (Hc & Hho & Hg). destruct part as [|b part]; cbn [str_empty].
  { apply run_ok_ret. intros d r Hp. split_and!; try done. intros Hgo Hin. by destruct (Hg Hgo Hin). }
  pose proof (slen_nonneg part). apply IH; rewrite ?slen_app; rewrite slen_cons in *; [lia|lia|].
  intros Hh'. destruct (Hho Hh') as [k Ek]. rewrite str_length_app, str_take_add, <- (Hh Hh'). f_equal.
  rewrite Ek at 1. rewrite str_drop_drop. replace (Z.to_nat offset + String.length got)%nat with (Z.to_nat (offset + slen got)) by (unfold slen; lia).
  rewrite Ek. by rewrite str_take_self.
Qed.

(** *** Committing a chunk *)
Lemma write_durable_run (P : assertion) name bytes : is_scratch name -> stays P inv -> scratch_stable P ->
  run_ok (fun d r => P d r /\ (fallible \/ d !! name = None)) (write_durable os name bytes) (fun _ d r => exists d0, P d0 r /\ d = <[name := bytes]> d0) inv.
Proof.
  intros Hn HI HP. unfold write_durable.
  assert (Hput : forall x, stays (fun d r => exists d0, P d0 r /\ d = <[name := x]> d0) inv).
  { intros x d r (d0 & Hp & ->). destruct (HP d0 r name Hn Hp) as [H _]. by eapply HI. }
  eapply run_ok_bind; [apply (run_ok_call os fallible smooth_unless _ _ (fun _ d r => exists d0, P d0 r /\ d = <[name := ""]> d0)); [by intros d r [Hp _]; eapply HI|]|].
  { intros n d r [Hp Hnew] _ Hs. destruct (fails (os n) || _) eqn:E; [|by exists d].
    split; [|by apply HI in Hp]. destruct Hs as [|Hs]; [done|]. destruct Hnew as [|Hnew]; [done|].
    by rewrite (sm_fails _ Hs), Hnew in E. }
  intros ?. eapply run_ok_bind; [apply (run_ok_call os fallible smooth_unless _ _ (fun _ d r => exists d0 x, P d0 r /\ d = <[name := x]> d0)); [by apply Hput|]|].
  { intros n d r (d0 & Hp & ->) _ _. rewrite insert_insert_eq. by eexists _, _. }
  intros ?. eapply run_ok_bind; [apply (run_ok_act os fallible smooth_unless _ _ _ (fun d r => exists d0, P d0 r /\ d = <[name := bytes]> d0))|].
  - intros d r (d0 & x & Hp & E). apply (Hput x d r). by exists d0.
  - intros x d r (d0 & y & Hp & ->). rewrite insert_insert_eq. by exists d0.
  - intros ?. apply run_ok_nt_ok; [done|by apply Hput].
Qed.
Lemma commit_run (P : assertion) i offset plain bytes : stays P inv -> scratch_stable P ->
  opens id i offset bytes = Ok plain ->
  Z.of_nat kChunkHeaderBytes <= slen bytes <= Z.of_nat kChunkHeaderBytes + 16 * 1024 * 1024 ->
  (good -> forall d r, P d r -> is_Some (d !! chunk_name id i) -> holds_chunk d id i offset plain) ->
  (forall d r, P d r -> d !! chunk_name id i = None -> P (<[chunk_name id i := bytes]> d) r) ->
  run_ok P (commit_chunk decrypt os config id i offset plain bytes) (fun _ d r => P d r /\ holds_chunk d id i offset plain) inv.
Proof.
  intros HI HP Hopen Hlen Hg Hnew. unfold commit_chunk. cbv zeta.
  eapply run_ok_bind; [by apply exists_run|]. intros present. cbv beta. destruct present.
  - eapply run_ok_bind; [apply decode_run; [by intros d r [Hp _]; eapply HI|]|].
    { intros Hgo d r [Hp Hs]. exists plain. by apply (Hg Hgo d r Hp), Hs. }
    intros q. cbv beta. apply run_ok_result. intros d r [[Hp Hs] Hq]. destruct (String.eqb_spec q plain) as [->|Hne]; [done|].
    split; [|by apply HI in Hp]. revert Hne. apply fallible_if. intros Hgo Hne. apply Hne.
    eapply holds_chunk_unique; [exact Hq|]. by apply (Hg Hgo d r Hp), Hs.
  - set (name := chunk_name id i). set (temp := name +:+ ".part"). pose proof (part_scratch name) as Hn. fold temp in Hn.
    assert (Hne : name <> temp) by (intros E; apply (proj2 Hn); rewrite <- E; apply chunk_name_end).
    set (P' := fun d r => P d r /\ d !! name = None).
    assert (HI' : stays P' inv) by (intros d r [Hp _]; by eapply HI).
    assert (HP' : scratch_stable P').
    { intros d r k Hk [Hp Hl]. assert (k <> name) by (intros ->; apply (proj2 Hk), chunk_name_end).
      destruct (HP d r k Hk Hp) as [H1 H2]. split; [intros x|]; (split; [done|by rewrite ?lookup_insert_ne, ?lookup_delete_ne]). }
    apply (run_ok_pre _ P'). { intros d r [Hp Hl]. split; [done|]. apply eq_None_not_Some. intros Hs%Hl. done. }
    eapply run_ok_bind; [apply (run_ok_call os fallible smooth_unless _ P' (fun _ d r => P' d r /\ (fallible \/ d !! temp = None))); [done|]|].
    { intros n d r Hp _ Hs. destruct (fails (os n)) eqn:E.
      - split; [done|]. left. destruct Hs as [|Hs]; [done|]. by rewrite (sm_fails _ Hs) in E.
      - split; [by apply (HP' d r temp)|right; apply lookup_delete_eq]. }
    intros ?. cbv beta. eapply run_ok_bind; [|intros ?; apply (run_ok_call os fallible smooth_unless _ (fun d r => exists d0, P' d0 r /\ d = <[temp := bytes]> d0))].
    + by apply write_durable_run.
    + intros d r (d0 & Hp & ->). destruct (HP' d0 r temp Hn Hp) as [H _]. by eapply HI'.
    + intros n d r (d0 & [Hp Hl] & ->) _ Hs. rewrite lookup_insert_ne by done. rewrite Hl, bool_decide_false by by intros [].
      rewrite orb_false_r. destruct (fails (os n)) eqn:E.
      * split; [destruct Hs as [|Hs]; [done|by rewrite (sm_fails _ Hs) in E]|].
        destruct (HP' d0 r temp Hn (conj Hp Hl)) as [H _]. by eapply HI'.
      * rewrite delete_insert_eq. destruct (HP' d0 r temp Hn (conj Hp Hl)) as [_ [H1 H2]]. split; [by apply Hnew|].
        exists bytes. split; [apply lookup_insert_eq|done].
Qed.

(** *** The loop *)
Definition at_chunks (o : Opened) (c : Capture) (j : json) (parts : list string) (d : Disk) : Prop :=
  at_manifest o c j d /\ backed d c parts.
Lemma keeps_manifest d text : keeps d (<[file := text]> d).
Proof.
  intros k bytes Hk Hb. rewrite lookup_insert_ne; [done|]. intros <-. by apply (not_manifest_chunk _ Hk), manifest_name_end.
Qed.
Lemma backed_keep d d' c parts : keeps d d' -> backed d c parts -> backed d' c parts.
Proof. intros Hk []. split; try done. by eapply chunks_keep. Qed.
Lemma at_chunks_stays o c j parts : stays (fun d _ => at_chunks o c j parts d) inv.
Proof. by intros d _ [[Hi _] _]. Qed.
Lemma at_chunks_scratch o c j parts : scratch_stable (fun d _ => at_chunks o c j parts d).
Proof.
  intros d _ name Hn [(Hi & (text & Hl & Ht) & H) Hb]. destruct (inv_scratch d name Hn Hi) as [H1 H2].
  assert (name <> file) by (intros ->; apply (proj1 Hn), manifest_name_end).
  split; [intros x|]; (split; [split; [done|split; [|done]]|eapply backed_keep; [by apply keeps_scratch, Hn|done]]);
    exists text; by rewrite ?lookup_insert_ne, ?lookup_delete_ne.
Qed.
(** what is known of the next chunk in a good life *)
Lemma next_piece o c j d : good -> opened_ok o -> at_manifest o c j d -> c_captured c < goal o ->
  known c /\ underway c /\ regular_upto d (c_next c) /\ c_captured c = c_next c * chunk /\ c_next c * chunk < cap0.
Proof.
  intros Hg Ho (Hi & (text & Hl & Ht) & _ & _ & Hp & _) Hlt. destruct (upto_now d text c) as (Hk & Hu & Hr); [done..|].
  rewrite (good_goal o Hg Ho) in Hlt. pose proof Hu as (_ & Hc & _). split_and!; [done..|lia|lia].
Qed.
Lemma inv_chunk d o c j i bytes : opened_ok o -> at_manifest o c j d -> c_captured c < goal o -> i = c_next c ->
  d !! chunk_name id i = None ->
  Z.of_nat kChunkHeaderBytes <= slen bytes <= Z.of_nat kChunkHeaderBytes + 16 * 1024 * 1024 ->
  (good -> opens id i (c_captured c) bytes = Ok (piece0 (c_captured c))) -> inv (<[chunk_name id i := bytes]> d).
Proof.
  intros Ho Hm Hlt -> Hn Hlen Hop. pose proof Hm as (Hi & (text & Hl & Ht) & _). pose proof Hi as [Hs Hr].
  split; [apply store_chunk; [apply chunk_name_end|done|done]|]. intros Hg.
  destruct (next_piece o c j d Hg Ho Hm Hlt) as (Hk & Hu & Hup & Ec & Hlt').
  unfold regular. rewrite <- (good_id Hg), lookup_insert_ne, Hl.
  2:{ intros E. apply (not_manifest_chunk file); [rewrite <- E; apply chunk_name_end|apply manifest_name_end]. }
  exists c. split_and!; [done..|]. left. split; [done|]. rewrite (good_id Hg) in *. specialize (Hop Hg). rewrite Ec in Hop.
  intros i Hi0. specialize (Hup i Hi0). destruct (decide (i = c_next c)) as [->|Hne].
  - rewrite lookup_insert_eq. split_and!; [lia|done|]. exists bytes. by rewrite lookup_insert_eq.
  - assert (Hne' : chunk_name id0 (c_next c) <> chunk_name id0 i).
    { intros E. apply Hne. symmetry. eapply chunk_name_inj; [apply Hu|done|exact E]. }
    rewrite lookup_insert_ne by done. destruct (d !! chunk_name id0 i); [|done]. destruct Hup as (? & ? & ?).
    split_and!; [done..|]. eapply holds_chunk_same; [|done]. by rewrite lookup_insert_ne.
Qed.
Lemma chunks_snoc d parts p : forall i offset, chunks_at d id i offset parts ->
  holds_chunk d id (i + zlen parts) (offset + slen (joined parts)) p -> chunks_at d id i offset (parts ++ [p]).
Proof.
  induction parts as [|q parts IH]; intros i offset Hc Hh; simpl in *.
  - split; [|done]. by rewrite !Z.add_0_r in Hh.
  - destruct Hc as [Hq Hc]. split; [done|]. apply IH; [done|]. rewrite zlen_cons, slen_app in Hh.
    by rewrite !Z.add_assoc in Hh.
Qed.
(** as many chunks as bytes at most *)
Lemma parts_count n parts : Forall (fun p => 0 < slen p <= n) parts -> zlen parts <= slen (joined parts).
Proof.
  induction 1 as [|p parts Hp H IH]; [done|]. cbn [joined]. rewrite zlen_cons, slen_app. lia.
Qed.
Abbreviation advanced_capture c plain := (advance (c_captured c + slen plain) (c_next c + 1) "partial" c).
Lemma backed_snoc d o c j parts plain : opened_ok o -> at_chunks o c j parts d ->
  holds_chunk d id (c_next c) (c_captured c) plain -> 0 < slen plain <= chunk -> c_captured c + slen plain <= goal o ->
  (honest -> plain = str_take (String.length plain) (str_drop (Z.to_nat (c_captured c)) held_text)) ->
  in_range (advanced_capture c plain) /\ backed d (advanced_capture c plain) (parts ++ [plain]).
Proof.
  intros Ho [(_ & _ & _ & [Aid Aident _ _ Asize Awrite _ Acap _ Achunk _] & _ & Hr) Hb] Hh Hp Hle Hs.
  pose proof Hb as [B1 B2 B3 B4 B5 B6]. pose proof (parts_count _ _ B4) as Hcount. pose proof (op_size _ Ho).
  pose proof Hr as [R1 R2 R3 R4 R5 R6 R7].
  split; [split; cbn; try done; lia|]. split; cbn; rewrite ?Aid.
  - apply chunks_snoc; [by rewrite <- Aid|]. by rewrite !Z.add_0_l, <- B2, <- B3.
  - by rewrite zlen_app, B2.
  - rewrite joined_concat, slen_app, B3. cbn [joined]. by rewrite string_app_nil_r.
  - apply Forall_app. split; [done|]. apply Forall_singleton. by rewrite Achunk.
  - by rewrite Acap, Asize.
  - intros Hho. rewrite joined_concat. cbn [joined]. rewrite string_app_nil_r, Z2Nat.inj_add by (lia || apply slen_nonneg).
    rewrite str_take_add, <- (B6 Hho). f_equal. rewrite (Hs Hho) at 1.
    destruct (op_held _ Ho Hho) as (E1 & E2 & E3). rewrite Aident, Asize, Awrite, E1, E2, E3. f_equal. unfold slen. lia.
Qed.
Lemma advanced_known c plain : known c -> in_range (advanced_capture c plain) -> utf8_ok "partial" = true ->
  known (advanced_capture c plain).
Proof.
  intros [_ [] Hc Ht] Hr Hu. split; [done|by split|done|]. unfold texts_of in *. cbn.
  repeat (apply Forall_cons in Ht as [?Ht0 Ht]). repeat (apply Forall_cons; split; [done|]). constructor.
Qed.
Lemma advanced_underway d c plain : underway c -> regular_upto d (c_next c) -> c_captured c = c_next c * chunk ->
  c_next c * chunk < cap0 -> slen plain = Z.min chunk (cap0 - c_captured c) -> is_Some (d !! chunk_name id0 (c_next c)) ->
  underway (advanced_capture c plain) /\ regular_upto d (c_next c + 1).
Proof.
  intros (_ & _ & Hn & _) Hr Ec Hlt Hp Hs. split.
  - unfold underway. cbn. split_and!; [done|lia|lia|right; lia].
  - intros i Hi. specialize (Hr i Hi). destruct (d !! chunk_name id0 i) eqn:E.
    + destruct Hr as (? & ? & ?). split_and!; [lia|done..].
    + destruct (decide (i = c_next c)) as [->|]; [rewrite E in Hs; by destruct Hs|lia].
Qed.
(** a committed chunk is recorded *)
Lemma record_chunk d o c j parts plain text : opened_ok o -> at_chunks o c j parts d ->
  holds_chunk d id (c_next c) (c_captured c) plain -> 0 < slen plain <= chunk -> c_captured c + slen plain <= goal o ->
  (honest -> plain = str_take (String.length plain) (str_drop (Z.to_nat (c_captured c)) held_text)) ->
  (good -> slen plain = Z.min chunk (goal o - c_captured c)) -> manifest_text (advanced_capture c plain) text ->
  forall j', (exists mac, describes mac (advanced_capture c plain) j') ->
  at_chunks o (advanced_capture c plain) j' (parts ++ [plain]) (<[file := text]> d).
Proof.
  intros Ho Hc Hh Hp Hle Hs Hg Ht j' Hj'. destruct (backed_snoc d o c j parts plain) as [Hr Hb]; [done..|].
  destruct Hc as [Hm Hb0]. pose proof Hm as (Hi & _ & _ & Ha & Hst & _). pose proof Ha as [Aid _ _ _ _ _ _ _ _ _ _].
  split; [|by eapply backed_keep; [apply keeps_manifest|]].
  split_and!; [|exists text; by rewrite lookup_insert_eq|done|by destruct Ha|done|done].
  apply (inv_manifest d (advanced_capture c plain)); [done|done| |done|].
  - split; [done|]. exists (parts ++ [plain]). split; [done|]. split; cbn; [by left|done..].
  - intros Hgo. destruct (next_piece o c j d Hgo Ho Hm ltac:(lia)) as (Hk & Hu & Hup & Ec & Hlt).
    rewrite (good_goal o Hgo Ho) in *. split.
    + apply advanced_known; [done|done|]. apply (pw_literals (good_works Hgo)). set_solver.
    + left. apply advanced_underway; try done; [by apply Hg|]. rewrite <- (good_id Hgo). destruct Hh as (b & Hb' & _). by exists b.
Qed.
Definition working (o : Opened) (p : Progress) (d : Disk) : Prop :=
  exists c parts, at_chunks o c (p_manifest p) parts d /\ p_offset p = c_captured c /\ p_sequence p = c_next c /\
    p_hash p = joined parts.
(** at the end of the loop the bound is reached, or the capture is partial *)
Definition stopped (o : Opened) (p : Progress) : Prop :=
  p_state p = "" /\ p_offset p = goal o \/ p_state p = "partial" /\ ~ good.
Lemma interrupted_run why o p (P : assertion) : (forall d r, P d r -> working o p d /\ ~ good) ->
  run_ok P (interrupted why p) (fun p' d _ => working o p' d /\ p_state p' = "partial" /\ ~ good) inv.
Proof.
  intros H. unfold interrupted. eapply run_ok_bind; [apply (run_ok_report _ _ P (fun d _ => working o p d /\ ~ good)); exact H|].
  intros ?. apply run_ok_ret. intros d r [Hw Hg]. done.
Qed.
(** one chunk is encrypted, committed and recorded before the rest *)
Lemma chunk_run o c p parts plain (k : M Progress) Q : opened_ok o ->
  p_offset p = c_captured c -> p_sequence p = c_next c -> p_hash p = joined parts -> 0 <= c_captured c ->
  0 < slen plain <= Z.min chunk (goal o - c_captured c) ->
  (honest -> plain = str_take (String.length plain) (str_drop (Z.to_nat (c_captured c)) held_text)) ->
  (good -> slen plain = Z.min chunk (goal o - c_captured c)) ->
  run_ok (fun d _ => working o (advanced plain p) d) k Q inv ->
  run_ok (fun d _ => at_chunks o c (p_manifest p) parts d)
    (encrypted ← encode_chunk encrypt os config id (c_next c) (c_captured c) plain;
     _ ← commit_chunk decrypt os config id (c_next c) (c_captured c) plain encrypted;
     _ ← persist_manifest hmac_sha256 dump pretty os config file (p_manifest (advanced plain p));
     k) Q inv.
Proof.
  intros Ho E1 E2 E3 H0 Hl Hs Hfull Hk. set (P := fun d (_ : FileAcquisitionResult) => at_chunks o c (p_manifest p) parts d).
  pose proof (at_chunks_stays o c (p_manifest p) parts) as HI. pose proof (at_chunks_scratch o c (p_manifest p) parts) as HP.
  apply (run_ok_pre _ (fun d r => P d r /\ (in_range c /\ exists mac, describes mac c (p_manifest p)))).
  { intros d r Hd. split; [done|]. by destruct Hd as [(_ & _ & Hj & _ & _ & Hr) _]. }
  apply run_ok_assume. intros [Hr [mac Hj]]. pose proof Hr as [R1 R2 _ _ _ _ _].
  assert (Hplain : good -> plain = piece0 (c_captured c)).
  { intros Hg. rewrite (good_goal o Hg Ho) in Hfull. destruct (good_held Hg) as [Hho Ef]. rewrite (Hs Hho). unfold piece, source0.
    rewrite <- (Hfull Hg), Ef. f_equal. unfold slen. lia. }
  eapply run_ok_bind; [apply (encode_run P id (c_next c) (c_captured c) plain HI); unfold i64_max, u64_max in *; lia|].
  intros bytes. cbv beta. apply run_ok_assume. intros [Hopen Hlen].
  eapply run_ok_bind; [apply (commit_run P (c_next c) (c_captured c) plain bytes HI HP Hopen Hlen)|].
  { intros Hg d r [Hm _] [b Hb]. destruct (next_piece o c _ d Hg Ho Hm ltac:(lia)) as (_ & _ & Hup & Ec & _).
    rewrite (Hplain Hg), Ec, (good_id Hg) in *. specialize (Hup (c_next c) ltac:(lia)). rewrite Hb in Hup. apply Hup. }
  { intros d r [Hm Hb] Hn. assert (Hi : inv (<[chunk_name id (c_next c) := bytes]> d)).
    { apply (inv_chunk d o c (p_manifest p) (c_next c) bytes Ho Hm); [lia|done..|]. intros Hg. by rewrite <- Hplain. }
    destruct Hm as (_ & (text & Ht & Hm) & Hrest). split; [split; [done|split; [|done]]|by eapply backed_keep; [apply keeps_new|]].
    exists text. split; [|done]. rewrite lookup_insert_ne; [done|]. intros E. apply (not_manifest_chunk file);
      [rewrite <- E; apply chunk_name_end|apply manifest_name_end]. }
  intros ?. cbv beta. set (P' := fun d r => P d r /\ holds_chunk d id (c_next c) (c_captured c) plain).
  assert (Hj' : describes mac (advanced_capture c plain) (p_manifest (advanced plain p))).
  { cbn [advanced p_manifest]. rewrite E1, E2. apply describes_advance; [done|lia|lia]. }
  apply (run_ok_pre _ (fun d r => P' d r /\ (in_range (advanced_capture c plain) /\
    (good -> Forall (fun s => utf8_ok s = true) (texts_of (advanced_capture c plain)))))).
  { intros d r [Hd Hh]. split; [done|]. destruct (backed_snoc d o c _ parts plain Ho Hd Hh) as [Hr' _]; [lia|lia|done|]. split; [done|].
    intros Hg. destruct Hd as [Hm _]. destruct (next_piece o c _ d Hg Ho Hm ltac:(lia)) as (Hkn & _).
    apply (advanced_known c plain Hkn Hr'). apply (pw_literals (good_works Hg)). set_solver. }
  apply run_ok_assume. intros [Hr' Ht'].
  eapply run_ok_bind; [apply (persist_run P' file mac (advanced_capture c plain) _ Hj' Hr' Ht')|].
  { intros d r [Hd _]. by eapply HI. }
  { intros d r name Hn [Hd Hh]. destruct (HP d r name Hn Hd) as [H1 H2].
    assert (name <> chunk_name id (c_next c)) by (intros ->; apply (proj2 Hn), chunk_name_end).
    split; [intros x|]; (split; [exact (H1 x) || exact H2|eapply holds_chunk_same; [|done]; by rewrite ?lookup_insert_ne, ?lookup_delete_ne]). }
  intros ?. cbv beta. eapply run_ok_pre; [|exact Hk].
  intros d' r (d & text & [Hd Hh] & Ht & ->). exists (advanced_capture c plain), (parts ++ [plain]). split_and!.
  - eapply record_chunk; try done; first [lia|by exists mac].
  - cbn. by rewrite E1.
  - cbn. by rewrite E2.
  - cbn [advanced p_hash]. rewrite E3, joined_concat. cbn [joined]. by rewrite string_app_nil_r.
Qed.
Lemma copy_run o : opened_ok o -> forall fuel p, p_state p = "" ->
  goal o - p_offset p < Z.of_nat fuel * chunk \/ goal o <= p_offset p ->
  run_ok (fun d _ => working o p d)
    (copy_chunks hmac_sha256 encrypt decrypt dump pretty os config fuel id (goal o) p)
    (fun p' d _ => working o p' d /\ stopped o p') inv.
Proof.
  intros Ho. destruct config_ok as (_ & _ & Hmax & Hch). induction fuel as [|fuel IH]; intros p Hst Hfuel.
  all: cbn [copy_chunks]; apply run_ok_exists; intros c; apply run_ok_exists; intros parts.
  all: apply (run_ok_pre _ (fun d _ => at_chunks o c (p_manifest p) parts d /\
         (p_offset p = c_captured c /\ p_sequence p = c_next c /\ p_hash p = joined parts /\ 0 <= c_captured c <= goal o))).
  1,3: intros d r (Hc & E1 & E2 & E3); split_and!; try done; destruct Hc as [(_ & _ & _ & Ha & _ & Hr) Hb];
       [apply Hr|rewrite <- (as_cap _ _ _ Ha), <- (as_size _ _ _ Ha); apply Hb].
  all: apply run_ok_assume; intros (E1 & E2 & E3 & Hbound).
  all: assert (Hw : forall d, at_chunks o c (p_manifest p) parts d -> working o p d) by (intros d Hd; by exists c, parts).
  all: destruct (Z.leb_spec (goal o) (p_offset p)) as [Hge|Hlt];
       [apply run_ok_ret; intros d r Hd; split; [by apply Hw|left; split; [done|lia]]|].
  { exfalso. lia. }
  cbv zeta. rewrite E1 in *. set (take := Z.min chunk (goal o - c_captured c)). assert (Htake : 0 < take <= chunk) by (unfold take; lia).
  pose proof (at_chunks_stays o c (p_manifest p) parts) as HI.
  eapply run_ok_bind; [apply (fill_run _ (c_captured c) take HI); [lia|by unfold slen; simpl; lia|unfold slen; simpl; lia|]|].
  { intros _. by rewrite str_take_0. }
  intros plain. cbv beta. apply run_ok_assume. intros (Hl & Hs & Hfull).
  assert (Hfull' : good -> slen plain = take).
  { intros Hg. apply Hfull; [done|]. rewrite <- (op_good _ Ho Hg). unfold take. lia. }
  destruct plain as [|b plain'] eqn:Eplain; cbn [str_empty].
  { apply (run_ok_post _ _ _ (fun p' d _ => working o p' d /\ p_state p' = "partial" /\ ~ good));
      [intros p' d r (H1 & H2 & H3); split; [done|by right]|].
    apply interrupted_run. intros d r Hd. split; [by apply Hw|]. intros Hg. specialize (Hfull' Hg). unfold slen in Hfull'. simpl in Hfull'. lia. }
  rewrite <- Eplain in *. assert (Hpos : 0 < slen plain) by (rewrite Eplain, slen_cons; pose proof (slen_nonneg plain'); lia).
  clear b plain' Eplain. apply run_ok_nt_bind; [done|done|]. rewrite E2.
  eapply chunk_run; [done|done|done|done|lia|done|exact Hs|exact Hfull'|]. destruct (Z.eqb_spec (slen plain) take) as [Et|Et]; cbn [negb].
  - apply IH; [done|]. cbn [advanced p_offset]. rewrite E1. unfold take in *. lia.
  - apply (run_ok_post _ _ _ (fun p' d _ => working o p' d /\ p_state p' = "partial" /\ ~ good));
      [intros p' d r (H1 & H2 & H3); split; [done|by right]|].
    apply interrupted_run. intros d r Hd. split; [done|]. intros Hg. by apply Et, Hfull'.
Qed.

(** ** The end of a capture *)
Lemma source_changed_run (P : assertion) o : stays P inv -> opened_ok o ->
  run_ok P (source_changed os o) (fun b d r => P d r /\ (good -> b = false)) inv.
Proof.
  intros HI Ho. unfold source_changed. eapply run_ok_bind; [by apply facts_run|]. intros f. cbv beta. apply run_ok_assume. intros Hf.
  destruct (bool_decide (f = before o)) eqn:Ef; cbn [negb].
  2:{ apply run_ok_ret. intros d r Hp. split; [done|]. intros Hg. apply bool_decide_eq_false in Ef. destruct Ef.
      by rewrite (fo_good _ Hf Hg), (op_good _ Ho Hg). }
  eapply run_ok_bind; [by apply final_path_run|]. intros path. cbv beta. apply run_ok_assume. intros Hpath.
  destruct (String.eqb_spec path (root_path o)) as [E|Hne]; cbn [negb].
  2:{ apply run_ok_ret. intros d r Hp. split; [done|]. intros Hg. destruct Hne. by rewrite (Hpath Hg), (op_good _ Ho Hg). }
  eapply run_ok_bind; [by apply identity_run|]. intros i. cbv beta. apply run_ok_assume. intros [Hi _].
  apply run_ok_ret. intros d r Hp. split; [done|]. intros Hg. rewrite (Hi Hg eq_refl), (op_good _ Ho Hg). by rewrite String.eqb_refl.
Qed.
Lemma working_stays o p : stays (fun d _ => working o p d) inv.
Proof. intros d _ (c & parts & [[Hi _] _] & _). done. Qed.
Definition result_state (o : Opened) (p : Progress) : string := final_state (p_state p) (p_offset p) (goal o) (size o).
(** the state is partial, or the bound was reached *)
Lemma result_cases o p : stopped o p ->
  result_state o p = "partial" /\ ~ good \/
  p_offset p = goal o /\ (result_state o p = "complete" /\ goal o = size o \/ result_state o p = "truncated" /\ goal o < size o).
Proof.
  unfold result_state, final_state. intros [[-> ->]|[-> Hg]]; [right|left].
  - split; [done|]. cbn [str_empty]. rewrite Z.leb_refl. destruct (Z.ltb_spec (goal o) (size o)) as [Hlt|Hge]; cbn; [by right|left; split; [done|lia]].
  - cbn. by rewrite andb_false_r.
Qed.
Definition final_capture (o : Opened) (p : Progress) (digest : list Z) (c : Capture) : Capture :=
  advance (p_offset p) (p_sequence p) (result_state o p)
    (hashed (hex_bytes digest) (if p_offset p =? size o then "complete_source" else "captured_prefix") c).
Lemma final_ok d o p digest c j parts : opened_ok o -> stopped o p -> at_chunks o c j parts d ->
  p_offset p = c_captured c -> p_sequence p = c_next c -> cng_sha256 (joined parts) = inr digest ->
  capture_ok d (final_capture o p digest c).
Proof.
  intros Ho Hst [(_ & _ & _ & [] & _ & []) []] E1 E2 Hd. split; [split; cbn; by rewrite ?E1, ?E2|]. exists parts. split.
  - split; cbn; try done; rewrite ?E1, ?E2; done.
  - destruct (result_cases o p Hst) as [[Es _]|[Eo Es]]; split; cbn.
    + by left.
    + by rewrite Es.
    + by rewrite Es.
    + intros _. by exists digest.
    + destruct Es as [[-> _]|[-> _]]; auto.
    + intros Ec. destruct Es as [[_ E]|[E _]]; [by rewrite Eo, E|congruence].
    + intros Ec. destruct Es as [[E _]|[_ E]]; [congruence|]. rewrite Eo. split; lia.
    + intros _. by exists digest.
Qed.
Lemma final_good d o p digest c j parts : good -> opened_ok o -> stopped o p -> at_chunks o c j parts d ->
  p_offset p = c_captured c -> p_sequence p = c_next c -> cng_sha256 (joined parts) = inr digest ->
  known (final_capture o p digest c) /\
  finished (c_state (final_capture o p digest c)) (c_sha (final_capture o p digest c)) (c_captured (final_capture o p digest c)).
Proof.
  intros Hg Ho Hst Hc E1 E2 Hd. pose proof (final_ok d o p digest c j parts Ho Hst Hc E1 E2 Hd) as [Hr _].
  destruct Hc as [(Hi & (text & Hl & Ht) & _ & _ & Hp & _) Hb]. destruct (upto_now d text c Hg Hi Hl Ht Hp) as ([_ [] Hcm Htx] & _).
  destruct (result_cases o p Hst) as [[_ Hn]|[Eo Es]]; [done|]. pose proof (good_goal o Hg Ho) as Eg.
  destruct (good_works Hg) as [_ _ _ Hdig Hasc Hlit]. split.
  - split; [done|by split|done|]. unfold texts_of in *. repeat (apply Forall_cons in Htx as [?Ht0 Htx]).
    assert (Hsha : utf8_ok (hex_bytes digest) = true).
    { apply Hasc, hex_bytes_lower. destruct (Hdig (joined parts)) as (digest' & Hd' & H). by replace digest with digest' by congruence. }
    assert (Hscope : utf8_ok (if p_offset p =? size o then "complete_source" else "captured_prefix") = true)
      by (apply Hlit; destruct (p_offset p =? size o); repeat constructor).
    assert (Hstate : utf8_ok (result_state o p) = true) by (apply Hlit; destruct Es as [[-> _]|[-> _]]; repeat constructor).
    unfold final_capture, advance, hashed. cbn [c_id c_correlation c_command c_scope c_relative c_root c_sha c_identity c_path c_state].
    repeat (apply Forall_cons; split; [assumption|]). constructor.
  - split_and!; cbn.
    + unfold final0, cap0 in *. rewrite (op_good _ Ho Hg) in *. unfold requested_cap in *. destruct (good_request Hg) as (_ & _ & <- & _).
      destruct Es as [[-> E]|[-> E]]; destruct (Z.ltb_spec (Z.min (rq_maximum_bytes rq) (maximum_capture_bytes config)) (size o0)); try done; lia.
    + by rewrite Eo.
    + exists digest. split; [|done]. rewrite <- Hd. f_equal. destruct (good_held Hg) as [Hho _]. rewrite (bk_source _ _ _ Hb Hho).
      unfold source0. rewrite <- E1, Eo, Eg. congruence.
Qed.
Lemma final_describes mac o p digest c : describes mac c (p_manifest p) -> 0 <= p_offset p -> 0 <= p_sequence p ->
  describes mac (final_capture o p digest c)
    (set_member "state" (JStr (result_state o p)) (set_member "next_sequence" (JUint (p_sequence p))
      (set_member "captured_bytes" (JUint (p_offset p))
        (set_member "hash_scope" (JStr (if p_offset p =? size o then "complete_source" else "captured_prefix"))
          (set_member "sha256" (JStr (hex_bytes digest)) (p_manifest p)))))).
Proof. intros Hj H1 H2. apply describes_advance; [|done|done]. by apply describes_hashed. Qed.
(** the end of [conclude], after the source was looked at again *)
Lemma conclude_tail_run o p : opened_ok o -> stopped o p ->
  run_ok (fun d _ => working o p d)
    (manifest ← (if String.eqb (result_state o p) "partial" || (p_offset p =? size o) || (p_offset p =? goal o)
              then
                _ ← nt_ok os "SHA-256 finalization failed";
                digest ← of_result (match cng_sha256 (p_hash p) with
                                    | inr digest => Ok digest
                                    | inl _ => Throw (runtime_error "SHA-256 finalization failed")
                                    end);
                mret (set_member "hash_scope" (JStr (if p_offset p =? size o then "complete_source" else "captured_prefix"))
                        (set_member "sha256" (JStr (hex_bytes digest)) (p_manifest p)))
              else mret (p_manifest p));
     let manifest := set_member "state" (JStr (result_state o p)) (set_member "next_sequence" (JUint (p_sequence p))
                    (set_member "captured_bytes" (JUint (p_offset p)) manifest)) in
     _ ← persist_manifest hmac_sha256 dump pretty os config file manifest;
     _ ← report (fun r => set_next (p_sequence p) (set_captured (p_offset p) (set_path file (set_state (result_state o p) r))));
     sha ← of_result (value_string "sha256" manifest);
     existing ← get_verified;
     _ ← report (fun r => set_existing existing (set_sha256 sha r));
     get_draft) (fun x d _ => answered x d) inv.
Proof.
  intros Ho Hst. apply run_ok_exists; intros c; apply run_ok_exists; intros parts.
  apply (run_ok_pre _ (fun d _ => at_chunks o c (p_manifest p) parts d /\
         (p_offset p = c_captured c /\ p_sequence p = c_next c /\ p_hash p = joined parts /\ 0 <= p_offset p /\ 0 <= p_sequence p /\
          exists mac, describes mac c (p_manifest p)))).
  { intros d r (Hc & E1 & E2 & E3). pose proof Hc as [(_ & _ & Hj & _ & _ & [R1 R2 _ _ _ _ _]) _]. split_and!; try done; lia. }
  apply run_ok_assume. intros (E1 & E2 & E3 & H1 & H2 & mac & Hj). pose proof (at_chunks_stays o c (p_manifest p) parts) as HI.
  set (P := fun d (_ : FileAcquisitionResult) => at_chunks o c (p_manifest p) parts d) in *.
  assert (Hb : String.eqb (result_state o p) "partial" || (p_offset p =? size o) || (p_offset p =? goal o) = true).
  { destruct (result_cases o p Hst) as [[-> _]|[-> _]]; [done|]. by rewrite Z.eqb_refl, orb_true_r. }
  rewrite Hb. eapply run_ok_bind with (Q := fun m d r => P d r /\ exists digest, cng_sha256 (joined parts) = inr digest /\
    m = set_member "hash_scope" (JStr (if p_offset p =? size o then "complete_source" else "captured_prefix"))
          (set_member "sha256" (JStr (hex_bytes digest)) (p_manifest p))).
  { apply run_ok_nt_bind; [done|done|]. rewrite E3. apply run_ok_result_bind.
    - intros d r e Hd He. split; [|by eapply HI]. revert He. apply fallible_if. intros Hg He.
      destruct (pw_digests (good_works Hg) (joined parts)) as (digest & Hdig & _). by rewrite Hdig in He.
    - intros digest Hdig. apply run_ok_ret. intros d r Hd. split; [done|]. exists digest. split; [|done].
      destruct (cng_sha256 (joined parts)); [done|]. by apply Ok_inj in Hdig as ->. }
  intros m. cbv beta. apply run_ok_assume. intros (digest & Hdig & ->). cbv zeta.
  pose proof (final_describes mac o p digest c Hj H1 H2) as Hf. set (c' := final_capture o p digest c) in *.
  apply (run_ok_pre _ (fun d r => P d r /\ (in_range c' /\ (good -> Forall (fun s => utf8_ok s = true) (texts_of c'))))).
  { intros d r Hd. split; [done|]. split; [by apply (final_ok d o p digest c (p_manifest p) parts)|].
    intros Hg. by apply (final_good d o p digest c (p_manifest p) parts). }
  apply run_ok_assume. intros [Hr Htx].
  eapply run_ok_bind; [apply (persist_run P file mac c' _ Hf Hr Htx HI), at_chunks_scratch|]. intros ?. cbv beta.
  apply (run_ok_pre _ (fun d _ => inv d /\ exists text, d !! file = Some text /\ manifest_text c' text /\ asks rq o c')).
  { intros d' r (d & text & Hd & Ht & ->). pose proof Hd as [(Hi & _ & _ & [] & _) _].
    split; [|exists text; split_and!; [by rewrite lookup_insert_eq|done|by split]].
    apply (inv_manifest d c'); [done|done|by apply (final_ok d o p digest c (p_manifest p) parts)|done|].
    intros Hg. destruct (final_good d o p digest c (p_manifest p) parts) as [Hk Hfin]; [done..|]. split; [done|by right]. }
  destruct (describes_texts _ _ _ Hf) as (_ & _ & T3 & _).
  eapply run_ok_bind; [apply (run_ok_report _ _ _ (fun d r => inv d /\ acq_state r = result_state o p /\ captured_bytes r = p_offset p /\
    exists text, d !! file = Some text /\ manifest_text c' text /\ asks rq o c')); by intros d r []|]. intros ?.
  rewrite (value_find _ _ _ T3). apply run_ok_result_bind; [done|]. intros sha [= <-].
  eapply run_ok_bind; [apply run_ok_verified|]. intros existing. cbv beta.
  eapply run_ok_bind; [apply (run_ok_report _ _ _ (fun d r => inv d /\ acq_state r = result_state o p /\ captured_bytes r = p_offset p /\
    acq_sha256 r = c_sha c' /\ exists text, d !! file = Some text /\ manifest_text c' text /\ asks rq o c')); by intros d r (? & ? & ? & ?)|].
  intros ?. apply run_ok_draft. intros d r (Hi & S1 & S2 & S3 & text & Hl & Ht & Ha). split_and!; [done| |].
  - intros _. exists text, c', o. by split_and!.
  - rewrite S1. destruct (result_cases o p Hst) as [[_ Hn]|[_ Hs]]; [left; by destruct good_unless|right]. destruct Hs as [[-> _]|[-> _]]; [by left|by right].
Qed.
Lemma conclude_run o p : opened_ok o -> stopped o p ->
  run_ok (fun d _ => working o p d) (conclude cng_sha256 hmac_sha256 dump pretty os config rq o (goal o) p)
    (fun x d _ => answered x d) inv.
Proof.
  intros Ho Hst. unfold conclude. eapply run_ok_bind; [apply (source_changed_run _ o (working_stays o p) Ho)|].
  intros changed. cbv beta. apply run_ok_assume. intros Hch.
  eapply run_ok_bind with (Q := fun p' d _ => working o p' d /\ stopped o p').
  { destruct changed; [|by apply run_ok_ret]. assert (Hg : ~ good) by (intros Hg; by specialize (Hch Hg)).
    eapply run_ok_post; [|by apply (interrupted_run _ o p)]. intros p' d r (Hw & Hs & _). split; [done|by right]. }
  intros p'. apply run_ok_assume. intros Hst'. by apply (conclude_tail_run o p').
Qed.

(** ** The whole call *)
Lemma ceiling n x : 0 < n -> 0 <= x -> forall k, (k = 0 /\ x = 0) \/ (k - 1) * n < x <= k * n -> (x + n - 1) / n = k.
Proof. intros Hn Hx k Hk. symmetry. apply (Z.div_unique _ _ _ (x + n - 1 - k * n)); lia. Qed.
Lemma accounting o c j d : good -> opened_ok o -> at_manifest o c j d ->
  ((requested_cap config rq <? c_captured c) || (size o <? c_captured c)
    || negb (c_next c =? (c_captured c + chunk - 1) / chunk)) = false.
Proof.
  intros Hg Ho (Hi & (text & Hl & Ht) & _ & _ & Hp & Hr). destruct (upto_now d text c) as (_ & (_ & Hc & Hn & Hlt) & _); [done..|].
  pose proof (good_goal o Hg Ho) as Eg. destruct config_ok as (_ & _ & _ & Hch). pose proof (ir_captured _ Hr).
  destruct (Z.ltb_spec (requested_cap config rq) (c_captured c)); [lia|]. destruct (Z.ltb_spec (size o) (c_captured c)); [lia|]. cbn [orb].
  rewrite (ceiling chunk (c_captured c) ltac:(lia) ltac:(lia) (c_next c)); [by rewrite Z.eqb_refl|]. lia.
Qed.
Lemma parts_regular o c j parts d : good -> opened_ok o -> at_chunks o c j parts d ->
  forall k p, parts !! k = Some p -> 0 < slen p <= chunk /\ (0 + Z.of_nat k + 1 < c_next c -> slen p = chunk).
Proof.
  intros Hg Ho [(Hi & (text & Hl & Ht) & _ & Ha & Hp & _) Hb] k p Hk.
  destruct (upto_now d text c) as (_ & (_ & Hc & Hn & Hlt) & Hup); [done..|]. destruct config_ok as (_ & _ & _ & Hch).
  pose proof (bk_chunks _ _ _ Hb) as Hat. rewrite (as_id _ _ _ Ha), (good_id Hg) in Hat.
  pose proof (regular_parts d (c_next c) parts Hg Hup Hlt 0 ltac:(lia)) as Hreg. specialize (Hreg ltac:(rewrite (bk_next _ _ _ Hb); lia) Hat k p Hk).
  pose proof (Forall_lookup_1 _ _ _ _ (bk_sizes _ _ _ Hb) Hk) as Hs. cbv beta in Hs. rewrite (as_chunk _ _ _ Ha) in Hs. split; [done|].
  intros Hlast. rewrite Hreg, piece0_size by (done || nia). nia.
Qed.
Lemma continue_run o c j : opened_ok o ->
  run_ok (fun d _ => at_manifest o c j d)
    (continue_capture cng_sha256 hmac_sha256 encrypt decrypt dump pretty os config rq o j) (fun x d _ => answered x d) inv.
Proof.
  intros Ho. unfold continue_capture. apply (run_ok_pre _ (fun d _ => exists parts, at_chunks o c j parts d)).
  { intros d r Hd. pose proof Hd as (Hi & (text & Hl & Ht) & _). destruct (inv_capture d text c Hi Hl Ht) as (_ & parts & Hb & _). by exists parts. }
  apply run_ok_exists. intros parts. set (P := fun d (_ : FileAcquisitionResult) => at_chunks o c j parts d).
  pose proof (at_chunks_stays o c j parts) as HI.
  apply (run_ok_pre _ (fun d r => P d r /\ (in_range c /\ asks rq o c /\ (exists mac, describes mac c j) /\
    c_next c = zlen parts /\ c_captured c = slen (joined parts) /\ c_captured c <= goal o /\
    (good -> forall k p, parts !! k = Some p -> 0 < slen p <= chunk /\ (0 + Z.of_nat k + 1 < c_next c -> slen p = chunk))))).
  { intros d r Hd. pose proof Hd as [(_ & _ & Hj & Ha & _ & Hr) []]. split; [done|].
    split_and!; try done; [by rewrite <- (as_cap _ _ _ Ha), <- (as_size _ _ _ Ha)|].
    intros Hg. by apply (parts_regular o c j parts d). }
  intros s (Hd & Hr & Ha & [mac Hj] & Hn & Hcap & Hle & Hfull). revert s Hd.
  change (run_ok P (continue_capture cng_sha256 hmac_sha256 encrypt decrypt dump pretty os config rq o j) (fun x d _ => answered x d) inv).
  unfold continue_capture. destruct (manifest_numbers _ _ _ Hj Hr) as (cp & nx & F1 & M1 & R1 & F2 & M2 & R2).
  eapply run_ok_bind; [by eapply number_at_run|]. intros captured. cbv beta. apply run_ok_assume. intros ->.
  eapply run_ok_bind; [by eapply number_at_run|]. intros sequence. cbv beta. apply run_ok_assume. intros ->.
  apply run_ok_result_bind.
  { intros d r e Hd He. split; [|by eapply HI]. revert He. apply fallible_if. intros Hg He. destruct Hd as [Hm _].
    by rewrite (accounting o c j d) in He. }
  intros [] _. apply run_ok_nt_bind; [done|done|].
  replace (Z.to_nat (c_next c)) with (length parts) by (unfold zlen in Hn; lia).
  eapply run_ok_bind; [apply (verify_run P (c_next c) parts 0 "" HI); [|done]|].
  { intros d r [(_ & _ & _ & Ha' & _) Hb]. rewrite <- (as_id _ _ _ Ha'). apply Hb. }
  intros extent. cbv beta. apply run_ok_assume. intros ->. cbn [String.append].
  change ("" +:+ joined parts) with (joined parts). rewrite <- Hcap, Z.eqb_refl. apply run_ok_result_bind; [done|]. intros [] _.
  apply run_ok_nt_bind; [done|done|]. cbv zeta.
  eapply run_ok_bind; [eapply run_ok_pre; [|apply (copy_run o Ho); [done|]]|].
  - intros d r Hd. by exists c, parts.
  - cbn [p_offset]. left. unfold copy_fuel. destruct config_ok as (_ & _ & _ & Hch).
    pose proof (Z.mod_pos_bound (goal o - c_captured c) chunk ltac:(lia)). pose proof (Z.div_mod (goal o - c_captured c) chunk ltac:(lia)).
    pose proof (Z.div_pos (goal o - c_captured c) chunk ltac:(lia) ltac:(lia)). nia.
  - intros p'. cbv beta. apply run_ok_assume. intros Hst. by apply conclude_run.
Qed.
(** *** Failures *)
(** the directory is not changed, and no state but [partial] is reported *)
Definition calm {A} (m : M A) : Prop := forall s, disk (m s).2 = disk s /\
  (acq_state (draft (m s).2) = acq_state (draft s) \/ acq_state (draft (m s).2) = "partial").
Lemma calm_bind {A B} (m : M A) (k : A -> M B) : calm m -> (forall a, calm (k a)) -> calm (m ≫= k).
Proof.
  intros Hm Hk s. unfold mbind, M_bind. destruct (Hm s) as [H1 H2]. destruct (m s) as [[a|e|] s']; [|done..]. simpl in *.
  destruct (Hk a s') as [H3 H4]. rewrite <- H1. split; [done|]. destruct H4 as [->|]; auto.
Qed.
Lemma calm_result {A} (x : result A) : calm (of_result x).
Proof. intros s. split; [done|by left]. Qed.
Lemma calm_call {A} (f : Os -> Disk -> result A * Disk) : (forall a d, (f a d).2 = d) -> calm (call os f).
Proof.
  intros H s. unfold call. destruct (ends (os (calls s))); [split; [done|by left]|]. specialize (H (os (calls s)) (disk s)).
  destruct (f (os (calls s)) (disk s)) as [x d]. split; [done|by left].
Qed.
Lemma calm_report (f : FileAcquisitionResult -> FileAcquisitionResult) :
  (forall r, acq_state (f r) = acq_state r \/ acq_state (f r) = "partial") -> calm (report f).
Proof. intros H s. split; [done|apply H]. Qed.
Lemma report_partial_calm name : calm (report_partial hmac_sha256 json_parse dump os config name).
Proof.
  unfold report_partial, read_manifest.
  repeat first [apply calm_bind; [|intros ?] | apply calm_result | by apply calm_call | by apply calm_report; auto
    | match goal with |- calm (if ?b then _ else _) => destruct b end | intros s; split; [done|by left]].
Qed.
Lemma failed_answered x d : fallible -> inv d -> acq_state x = "failed" \/ acq_state x = "partial" -> answered x d.
Proof. intros Hf Hi Hx. split_and!; [done| |by left]. intros [E|E]; rewrite E in Hx; by destruct Hx. Qed.
Lemma fail_with_run e : run_ok (fun d _ => inv d) (fail_with e) (fun _ d r => inv d /\ acq_state r = "failed") inv.
Proof.
  unfold fail_with. eapply run_ok_bind; [apply run_ok_verified|]. intros v. by apply (run_ok_report _ _ _ (fun d r => inv d /\ acq_state r = "failed")).
Qed.
Lemma after_failure_run e : fallible ->
  run_ok (fun d _ => inv d) (after_failure hmac_sha256 json_parse dump os config rq e) (fun x d _ => answered x d) inv.
Proof.
  intros Hf. unfold after_failure. eapply run_ok_bind; [apply fail_with_run|]. intros ?. cbv beta zeta.
  eapply run_ok_bind; [apply exists_run; by intros d r []|]. intros present. cbv beta.
  eapply run_ok_bind with (Q := fun _ d r => inv d /\ (acq_state r = "failed" \/ acq_state r = "partial")).
  - destruct present; [|apply run_ok_ret; intros d r [[Hi Hs] _]; auto].
    intros s [[Hi Hs] _]. unfold catching. destruct (report_partial_calm file s) as [H1 H2].
    destruct (report_partial _ _ _ _ _ _ s) as [[x|e'|] s']; cbn in *; rewrite H1; split; try done; destruct H2 as [->|]; auto.
  - intros ?. apply run_ok_draft. intros d r [Hi Hs]. by apply failed_answered.
Qed.
(** ** What a call keeps *)
Lemma acquire_run :
  run_ok (fun d _ => inv d)
    (acquire cng_sha256 hmac_sha256 encrypt decrypt json_parse dump pretty utf8 os config rq) (fun x d _ => answered x d) inv.
Proof.
  unfold acquire. eapply run_ok_bind; [by apply (run_ok_report _ _ _ (fun d _ => inv d))|]. intros ?.
  assert (Hrefuse : forall why, fallible -> run_ok (fun d _ => inv d) (refuse why) (fun x d _ => answered x d) inv).
  { intros why Hf. eapply run_ok_post; [|apply (refuse_run why (fun d _ => inv d))]; [by intros x d r [H _]|done]. }
  destruct (validated_id id) as [u|e] eqn:Eid.
  2:{ apply Hrefuse. revert Eid. apply fallible_if. intros Hg E. rewrite (good_id Hg), (cb_id _ _ (good_target Hg)) in E. done. }
  destruct (resume_existing_only rq && (str_empty (rq_command_id rq) || str_empty (rq_correlation_id rq))) eqn:Eres.
  { apply Hrefuse. revert Eres. apply fallible_if. intros Hg E. destruct (cb_commands _ _ (good_target Hg)) as [H1 H2].
    destruct (good_request Hg) as (_ & _ & _ & E4 & E5). rewrite E4, E5 in E.
    destruct (rq_command_id rq0), (rq_correlation_id rq0); try done. by rewrite andb_false_r in E. }
  eapply run_ok_bind; [apply run_ok_set_verified|]. intros ?. cbv beta.
  eapply run_ok_bind with (Q := fun t d _ => inv d /\ match t with inr (inr o) => opened_ok o | _ => fallible end).
  { eapply run_ok_catching with (J := inv); [|intros e Hf; by apply run_ok_ret|done].
    eapply run_ok_bind; [apply (open_target_run (fun d _ => inv d)); by intros d r|]. intros x. apply run_ok_ret.
    intros d r [Hi Hx]. split; [done|]. by destruct x. }
  intros [e|[why|o]]; cbv beta; apply run_ok_assume; intros Ht.
  - eapply run_ok_bind; [apply fail_with_run|]. intros ?. apply run_ok_draft. intros d r [Hi Hs]. apply failed_answered; auto.
  - by apply Hrefuse.
  - eapply run_ok_catching with (J := inv); [|intros e Hf; by apply after_failure_run|done].
    eapply run_ok_bind; [by apply admit_run|]. intros [j|]; cbn [admitted].
    + apply run_ok_exists. intros c. by apply continue_run.
    + apply run_ok_draft. intros d r Ha. done.
Qed.
End Call.
End Captures.
