(* ===== verification/FileAcquisitionTheorems.v ===== *)
(** * Captures survive failures and restarts

    The store directory over whole lives: any number of calls of [acquire], each
    with its own process, its own answers of Windows and its own end.  First the
    captures, then the protected key. *)

From S2P Require Import Prelude Crc32 Identity Json FileAcquisition FileAcquisitionFacts FileAcquisitionLogic FileAcquisitionRuns.

(** a call starts with the directory that the calls before it left *)
Definition begun (d : Disk) : Store := {| disk := d; calls := 0; verified := false; draft := blank "" |}.
(** one call: the answers of Windows, the request, and the file that is held open *)
Record AcquireCall := { ac_os : nat -> Os; ac_request : FileAcquisitionRequest; ac_file : FileFacts }.

Section Theorems.
Context (cng_sha256 : string -> outcome (list Z)) (hmac_sha256 : string -> string -> result (list Z)).
Context (encrypt : string -> string -> string -> string -> result (string * string)).
Context (decrypt : string -> string -> string -> string -> string -> result string).
Context (json_parse : string -> result json) (dump pretty : json -> result string) (utf8 : string -> result string).
Context (config : FileAcquisitionConfig).
Context (decrypts : forall key nonce aad plain cipher tag, encrypt key nonce aad plain = Ok (cipher, tag) ->
  decrypt key nonce aad cipher tag = Ok plain /\ slen cipher = slen plain /\ String.length tag = kTagBytes).
Context (tags : forall key text tag, hmac_sha256 key text = Ok tag -> zlen tag = 32 /\ Forall (fun b => 0 <= b < 256) tag).
Context (rereads : forall j s, flat j -> pretty j = Ok s -> json_parse s = Ok (reread j)).
Context (reprints : forall j, flat j -> dump (reread j) = dump j).
Context (valid : valid_config config = true).
Context (unsigned : 0 <= maximum_capture_bytes config /\ 0 <= chunk_bytes config).
Context (contents : string -> Z -> Z -> string).
Abbreviation acquire := (acquire cng_sha256 hmac_sha256 encrypt decrypt json_parse dump pretty utf8).
Abbreviation store_ok := (store_ok cng_sha256 hmac_sha256 decrypt json_parse dump config contents).
Abbreviation manifest_text := (manifest_text hmac_sha256 json_parse dump config).
Abbreviation backed := (backed decrypt config contents).
Abbreviation concluded := (concluded cng_sha256).

Definition after (d : Disk) (a : AcquireCall) : Disk := disk (acquire (ac_os a) config (ac_request a) (begun d)).2.
(** the directory after some calls *)
Definition lived (l : list AcquireCall) : Disk := foldl after ∅ l.

(** numbers are those of Windows; when [honest], reading gives the bytes of the held file *)
Record call_ok (honest : Prop) (a : AcquireCall) : Prop := {
  ok_native : native_os (ac_os a); ok_bound : 0 <= rq_maximum_bytes (ac_request a) <= u64_max;
  ok_held : honest -> held contents (ac_os a) (ac_file a)
}.

Section Any.
Context (honest : Prop).
(** with nothing known of the request *)
Definition some_opened (f : FileFacts) : Opened := {| root_path := ""; root_identity := ""; before := f |}.
Lemma any_call a d : call_ok honest a -> store_ok honest d ->
  store_ok honest (after d a) /\ forall x s, acquire (ac_os a) config (ac_request a) (begun d) = (Returned x, s) ->
    is_final (acq_state x) -> exists text c parts, disk s !! manifest_name (rq_capture_id (ac_request a)) = Some text /\
      manifest_text c text /\ backed honest (disk s) c parts /\ concluded c (joined parts) /\ c_id c = rq_capture_id (ac_request a) /\
      c_state c = acq_state x /\ c_captured c = captured_bytes x /\ c_sha c = acq_sha256 x /\
      c_cap c = requested_cap config (ac_request a) /\ utf8 (rq_relative_path (ac_request a)) = Ok (c_relative c) /\
      (honest -> c_identity c = f_identity (ac_file a) /\ c_size c = f_size (ac_file a) /\ c_write c = f_write_time (ac_file a)).
Proof.
  intros [Hn Hb Hh] Hd. set (rq := ac_request a). set (f := ac_file a).
  pose proof (acquire_run cng_sha256 hmac_sha256 encrypt decrypt json_parse dump pretty utf8 config decrypts tags rereads reprints
    valid unsigned contents honest (fun _ => true) (ac_os a) rq rq (some_opened f) f True False (or_introl I) (or_introl I) Hn Hb Hh
    ltac:(done) ltac:(done) ltac:(done) ltac:(done) ltac:(done) (or_introl I) (begun d)) as H.
  specialize (H (conj Hd (fun F => False_ind _ F))). unfold after. fold rq.
  destruct (acquire (ac_os a) config rq (begun d)) as [[x|e|] s]; cbn [snd].
  - destruct H as (Hi & Ht & _). split; [apply Hi|]. intros x' s' [= <- <-] Hf.
    destruct (Ht Hf) as (text & c & o & Hl & Hm & Ho & Ha & E1 & E2 & E3).
    destruct (inv_capture _ _ _ _ _ _ _ _ _ _ _ _ _ _ _ _ _ Hi Hl Hm) as (_ & parts & Hbk & Hcl).
    exists text, c, parts. destruct Ha. split_and!; try done. intros Hho. destruct (op_held _ _ _ _ _ Ho Hho) as (? & ? & ?).
    split_and!; congruence.
  - destruct H as [_ [Hi _]]. split; [done|]. by intros x' s' [=].
  - destruct H as [_ [Hi _]]. split; [done|]. by intros x' s' [=].
Qed.
Lemma store_ok_empty : store_ok honest ∅.
Proof. intros name text _ H. by rewrite lookup_empty in H. Qed.
Lemma lived_ok l : Forall (call_ok honest) l -> store_ok honest (lived l).
Proof.
  unfold lived. generalize store_ok_empty. generalize (∅ : Disk). induction l as [|a l IH]; intros d Hd Hl; [done|].
  apply Forall_cons in Hl as [Ha Hl]. apply IH; [|done]. by apply any_call.
Qed.
End Any.

(** ** Lives of one capture *)
Section Steady.
Context (utf8_ok : string -> bool) (rq0 : FileAcquisitionRequest) (o0 : Opened).
Context (works : providers_work cng_sha256 hmac_sha256 encrypt dump pretty utf8_ok).
Context (target : capturable utf8 contents utf8_ok rq0 o0).
(** a call for this capture while the source does not change *)
Record steady_call (a : AcquireCall) : Prop := {
  st_native : native_os (ac_os a); st_steady : steady contents (ac_os a) o0; st_request : same_request (ac_request a) rq0
}.
Abbreviation inv0 := (inv cng_sha256 hmac_sha256 decrypt json_parse dump utf8 config contents True utf8_ok rq0 o0 True).
Lemma steady_run a (fallible : Prop) : steady_call a -> fallible \/ (forall n, smooth (ac_os a n)) ->
  fallible \/ resume_existing_only (ac_request a) = false ->
  run_ok fallible (fun d _ => inv0 d) (acquire (ac_os a) config (ac_request a))
    (fun x d _ => answered cng_sha256 hmac_sha256 decrypt json_parse dump utf8 config contents True utf8_ok
       (ac_request a) rq0 o0 (before o0) fallible True x d) inv0.
Proof.
  intros [Hn Hs Hr] Hsm Hf. apply acquire_run with (encrypt := encrypt) (pretty := pretty); try done.
  - by right.
  - destruct Hr as (_ & _ & -> & _). destruct (cb_bound _ _ _ _ _ target). lia.
  - intros _. apply Hs.
Qed.
Lemma steady_after a d : steady_call a -> inv0 d -> inv0 (after d a).
Proof.
  intros Ha Hd. pose proof (steady_run a True Ha (or_introl I) (or_introl I) (begun d) Hd) as H. unfold after.
  destruct (acquire (ac_os a) config (ac_request a) (begun d)) as [[x|e|] s]; apply H.
Qed.
Lemma inv0_empty : inv0 ∅.
Proof.
  split; [apply store_ok_empty|]. intros _. unfold regular. rewrite lookup_empty. intros i Hi. by rewrite lookup_empty.
Qed.
Lemma steady_lived l : Forall steady_call l -> inv0 (lived l).
Proof.
  unfold lived. generalize inv0_empty. generalize (∅ : Disk). induction l as [|a l IH]; intros d Hd Hl; [done|].
  apply Forall_cons in Hl as [Ha Hl]. apply IH; [|done]. by apply steady_after.
Qed.
End Steady.

(** C17: Encrypted file acquisition never corrupts the store.  Start with an empty directory and run any sequence of
    [acquire] calls for any captures, where every call of Windows may fail, return anything, or be the
    last one before the process ends.  Then every manifest file is authentic (it parses and its HMAC verifies), its
    numbered chunks are all there, decrypt, have together exactly the recorded number of bytes within the recorded
    bounds, and a final state is true: complete means the whole source size, truncated exactly the bound below it,
    and the recorded SHA-256 is that of the decrypted chunks.  When reading is honest (it returns bytes of the file
    that is held), the decrypted chunks are that prefix of the source. *)
Theorem captures_intact (honest : Prop) (l : list AcquireCall) name text :
  Forall (call_ok honest) l -> is_manifest name -> lived l !! name = Some text ->
  exists c parts, manifest_text c text /\ name = manifest_name (c_id c) /\
    backed honest (lived l) c parts /\ concluded c (joined parts).
Proof.
  intros Hl Hn Ht. destruct (lived_ok honest l Hl name text Hn Ht) as (c & Hc & En & _ & parts & Hb & Hcl).
  by exists c, parts.
Qed.


(** C19: An interrupted acquisition is finished by asking again.  For one capture of a source that stays the same, let
    any number of calls fail or end anywhere, between any two calls of Windows, even in the middle of a write.  Then
    one call in which Windows answers returns, and its result is the whole capture: truncated when the source is
    longer than the bound and complete otherwise, with exactly that many bytes and the SHA-256 of exactly
    this prefix of the source, and the chunks on disk decrypt to this prefix. *)
Theorem interrupted_capture_resumes utf8_ok rq0 o0 (l : list AcquireCall) (a : AcquireCall) :
  providers_work cng_sha256 hmac_sha256 encrypt dump pretty utf8_ok -> capturable utf8 contents utf8_ok rq0 o0 ->
  Forall (steady_call rq0 o0) l -> steady_call rq0 o0 a -> resume_existing_only (ac_request a) = false ->
  (forall n, smooth (ac_os a n)) ->
  let f := before o0 in
  let captured := Z.min (requested_cap config rq0) (f_size f) in
  let prefix := str_take (Z.to_nat captured) (contents (f_identity f) (f_size f) (f_write_time f)) in
  exists x s, acquire (ac_os a) config (ac_request a) (begun (lived l)) = (Returned x, s) /\
    acq_state x = (if requested_cap config rq0 <? f_size f then "truncated" else "complete") /\
    captured_bytes x = captured /\ (exists digest, cng_sha256 prefix = inr digest /\ acq_sha256 x = hex_bytes digest) /\
    exists parts, chunks_at decrypt config (disk s) (rq_capture_id rq0) 0 0 parts /\ joined parts = prefix.
Proof.
  intros Hw Ht Hl Ha Hres Hsm. pose proof (steady_lived utf8_ok rq0 o0 Hw Ht l Hl) as Hi.
  pose proof (steady_run utf8_ok rq0 o0 Hw Ht a False Ha (or_intror Hsm) (or_intror Hres) (begun (lived l)) Hi) as H. cbv zeta.
  destruct (acquire (ac_os a) config (ac_request a) (begun (lived l))) as [[x|e|] s]; [|by destruct H..].
  destruct H as (Hi' & Htold & [[]|Hf]). exists x, s. split; [done|].
  destruct (Htold Hf) as (text & c & o & Hlk & Hm & Ho & Hask & E1 & E2 & E3).
  pose proof (st_request _ _ _ Ha) as Hsame. pose proof Hsame as (Eid & _).
  destruct (regular_manifest cng_sha256 hmac_sha256 decrypt json_parse dump utf8 config contents True utf8_ok (ac_request a) rq0 o0 True
    (fun _ => Hsame) _ text c I Hi' Hlk Hm) as [Hk [[[Hp _] _]|(F1 & F2 & F3)]].
  { rewrite E1 in Hp. rewrite Hp in Hf. by destruct Hf. }
  destruct (inv_capture _ _ _ _ _ _ _ _ _ _ _ _ _ _ _ _ _ Hi' Hlk Hm) as (_ & parts & Hbk & _).
  rewrite <- E1, <- E2, <- E3. split_and!; [done|done|done|]. exists parts. destruct Hk as [_ Hask0 _ _]. split.
  - rewrite <- (as_id _ _ _ _ _ Hask0). apply Hbk.
  - rewrite (bk_source _ _ _ _ _ _ _ Hbk I), F2. destruct Hask0. unfold cap0. congruence.
Qed.

End Theorems.
