(* ===== verification/FileAcquisitionKey.v ===== *)
(** * The protected key of the acquisition store

    [FileAcquisitionStore::load_or_create_dpapi_key]: whatever fails and wherever
    the process ends, a key that was handed out is the key of every later call, and
    captures leave the key file alone. *)

From S2P Require Import Prelude Crc32 Identity Json FileAcquisition FileAcquisitionFacts FileAcquisitionLogic FileAcquisitionRuns FileAcquisitionTheorems.

Definition is_key (name : string) : Prop := last_char name = Some "i"%char.
(** the key file is not touched *)
Definition leaves_key {A} (m : M A) : Prop := forall s, disk (m s).2 !! key_name = disk s !! key_name.
(** a key file that is there stays as it is *)
Definition keeps_key {A} (m : M A) : Prop := forall s bytes,
  disk s !! key_name = Some bytes -> disk (m s).2 !! key_name = Some bytes.
Create HintDb key.
Lemma leaves_keeps {A} (m : M A) : leaves_key m -> keeps_key m.
Proof. intros H s bytes Hb. by rewrite H. Qed.
Lemma leaves_ret {A} (a : A) : leaves_key (mret a).
Proof. by intros s. Qed.
Lemma leaves_bind {A B} (m : M A) (k : A -> M B) : leaves_key m -> (forall a, leaves_key (k a)) -> leaves_key (m ≫= k).
Proof.
  intros Hm Hk s. unfold mbind, M_bind. specialize (Hm s). destruct (m s) as [[a|e|] s']; [|done..]. by rewrite (Hk a s').
Qed.
Lemma leaves_result {A} (x : result A) : leaves_key (of_result x).
Proof. by intros s. Qed.
Lemma leaves_report f : leaves_key (report f).
Proof. by intros s. Qed.
Lemma leaves_set_verified b : leaves_key (set_verified b).
Proof. by intros s. Qed.
Lemma leaves_get_verified : leaves_key get_verified.
Proof. by intros s. Qed.
Lemma leaves_get_draft : leaves_key get_draft.
Proof. by intros s. Qed.
Lemma leaves_catching {A} (m : M A) h : leaves_key m -> (forall e, leaves_key (h e)) -> leaves_key (catching m h).
Proof.
  intros Hm Hh s. unfold catching. specialize (Hm s). destruct (m s) as [[a|e|] s']; [done| |done]. by rewrite (Hh e s').
Qed.
Lemma insert_other (d : Disk) name x : last_char name <> Some "i"%char -> <[name := x]> d !! key_name = d !! key_name.
Proof. intros H. apply lookup_insert_ne. by intros ->. Qed.
Lemma delete_other (d : Disk) name : last_char name <> Some "i"%char -> delete name d !! key_name = d !! key_name.
Proof. intros H. apply lookup_delete_ne. by intros ->. Qed.

Section Calls.
Context (os : nat -> Os).
Lemma leaves_call {A} (f : Os -> Disk -> result A * Disk) :
  (forall a d, (f a d).2 !! key_name = d !! key_name) -> leaves_key (call os f).
Proof.
  intros H s. unfold call. destruct (ends (os (calls s))); [done|]. specialize (H (os (calls s)) (disk s)).
  by destruct (f (os (calls s)) (disk s)) as [x d].
Qed.
Lemma leaves_query {A} (f : Os -> result A) : leaves_key (query os f).
Proof. by apply leaves_call. Qed.
Lemma leaves_act what_ f : (forall a d, f a d !! key_name = d !! key_name) -> leaves_key (act os what_ f).
Proof. intros H. apply leaves_call. intros a d. destruct (fails a); [done|apply H]. Qed.
Lemma leaves_nt_ok what_ : leaves_key (nt_ok os what_).
Proof. by apply leaves_act. Qed.
Lemma leaves_write_durable name bytes : last_char name <> Some "i"%char -> leaves_key (write_durable os name bytes).
Proof.
  intros H. unfold write_durable. repeat (apply leaves_bind; [|intros ?]); try apply leaves_nt_ok.
  - apply leaves_call. intros x d. destruct (_ || _); [done|]. by apply insert_other.
  - apply leaves_call. intros x d. by apply insert_other.
  - apply leaves_act. intros x d. by apply insert_other.
Qed.
End Calls.
#[export] Hint Resolve leaves_ret leaves_result leaves_report leaves_set_verified leaves_get_verified leaves_get_draft
  leaves_query leaves_nt_ok : key.
(** follow the structure of a computation *)
Ltac leaves := repeat first
  [ solve [auto with key]
  | apply leaves_bind; [|intros ?]
  | apply leaves_catching; [|intros ?]
  | apply leaves_write_durable; by rewrite ?tmp_end, ?part_end
  | apply leaves_act; intros ? ?; rewrite ?insert_other, ?delete_other by (rewrite ?tmp_end, ?part_end, ?manifest_name_end, ?chunk_name_end; done); reflexivity
  | apply leaves_call; intros ? ?; try (destruct (_ || _)); try (destruct (fails _)); cbn [snd];
    rewrite ?insert_other, ?delete_other by (rewrite ?tmp_end, ?part_end, ?manifest_name_end, ?chunk_name_end; done); reflexivity
  | match goal with
    | |- leaves_key (if ?b then _ else _) => destruct b
    | |- leaves_key (match ?x with _ => _ end) => destruct x
    end
  | progress cbv zeta beta ].

(** ** Captures leave the key alone *)
Section Acquire.
Context (cng_sha256 : string -> outcome (list Z)) (hmac_sha256 : string -> string -> result (list Z)).
Context (encrypt : string -> string -> string -> string -> result (string * string)).
Context (decrypt : string -> string -> string -> string -> string -> result string).
Context (json_parse : string -> result json) (dump pretty : json -> result string) (utf8 : string -> result string).
Context (config : FileAcquisitionConfig) (os : nat -> Os).
Lemma leaves_persist id j : leaves_key (persist_manifest hmac_sha256 dump pretty os config (manifest_name id) j).
Proof. unfold persist_manifest. leaves. Qed.
Lemma leaves_read name : leaves_key (read_manifest hmac_sha256 json_parse dump os config name).
Proof. unfold read_manifest. leaves. Qed.
Lemma leaves_decode id i offset : leaves_key (decode_chunk decrypt os config id i offset).
Proof. unfold decode_chunk. leaves. Qed.
Lemma leaves_commit id i offset plain bytes : leaves_key (commit_chunk decrypt os config id i offset plain bytes).
Proof. unfold commit_chunk, exists_. pose proof leaves_decode. leaves. Qed.
#[local] Hint Resolve leaves_persist leaves_read leaves_decode leaves_commit : key.
Lemma leaves_encode id i offset plain : leaves_key (encode_chunk encrypt os config id i offset plain).
Proof. unfold encode_chunk. leaves. Qed.
Lemma leaves_verify id n : forall i sequence extent, leaves_key (verify_chunks decrypt os config id n i sequence extent).
Proof. induction n as [|n IH]; intros i sequence extent; cbn [verify_chunks]; leaves. Qed.
Lemma leaves_fill fuel : forall offset take got, leaves_key (fill os fuel offset take got).
Proof. induction fuel as [|fuel IH]; intros offset take got; cbn [fill]; leaves. Qed.
Lemma leaves_interrupted why p : leaves_key (interrupted why p).
Proof. unfold interrupted. leaves. Qed.
#[local] Hint Resolve leaves_encode leaves_verify leaves_fill leaves_interrupted : key.
Lemma leaves_copy id cap fuel : forall p,
  leaves_key (copy_chunks hmac_sha256 encrypt decrypt dump pretty os config fuel id cap p).
Proof. induction fuel as [|fuel IH]; intros p; cbn [copy_chunks]; leaves. Qed.
Lemma leaves_facts : leaves_key (facts os).
Proof. unfold facts, identity, final_path. leaves. Qed.
#[local] Hint Resolve leaves_copy leaves_facts : key.
Lemma leaves_conclude rq o cap p : leaves_key (conclude cng_sha256 hmac_sha256 dump pretty os config rq o cap p).
Proof. unfold conclude, source_changed, final_path, identity. leaves. Qed.
Lemma leaves_report_manifest j : leaves_key (report_manifest j).
Proof. unfold report_manifest, number_at. leaves. Qed.
Lemma leaves_refuse why : leaves_key (refuse why).
Proof. unfold refuse. leaves. Qed.
#[local] Hint Resolve leaves_conclude leaves_report_manifest leaves_refuse : key.
Lemma leaves_admit rq o : leaves_key (admission hmac_sha256 json_parse dump pretty utf8 os config rq o).
Proof. unfold admission, exists_, check_manifest. leaves. Qed.
Lemma leaves_continue rq o j :
  leaves_key (continue_capture cng_sha256 hmac_sha256 encrypt decrypt dump pretty os config rq o j).
Proof. unfold continue_capture, number_at. leaves. Qed.
Lemma leaves_open_target rq : leaves_key (open_target os config rq).
Proof. unfold open_target, resolved_root, final_path, identity. leaves. Qed.
Lemma leaves_after_failure rq e : leaves_key (after_failure hmac_sha256 json_parse dump os config rq e).
Proof. unfold after_failure, fail_with, exists_, report_partial. leaves. Qed.
#[local] Hint Resolve leaves_admit leaves_continue leaves_open_target leaves_after_failure : key.
Lemma leaves_acquire rq :
  leaves_key (acquire cng_sha256 hmac_sha256 encrypt decrypt json_parse dump pretty utf8 os config rq).
Proof. unfold acquire, fail_with. leaves. Qed.
End Acquire.

(** ** Loading or making the key *)
Lemma keeps_key_bind {A B} (m : M A) (k : A -> M B) : keeps_key m -> (forall a, keeps_key (k a)) -> keeps_key (m ≫= k).
Proof.
  intros Hm Hk s bytes Hb. unfold mbind, M_bind. specialize (Hm s bytes Hb). destruct (m s) as [[a|e|] s']; [|done..]. by apply (Hk a s').
Qed.
Lemma keeps_key_catching {A} (m : M A) h : keeps_key m -> (forall e, keeps_key (h e)) -> keeps_key (catching m h).
Proof.
  intros Hm Hh s bytes Hb. unfold catching. specialize (Hm s bytes Hb). destruct (m s) as [[a|e|] s']; [done| |done]. by apply (Hh e s').
Qed.
(** what holds when a computation returns *)
Definition yields {A} (P : Disk -> Prop) (m : M A) (Q : A -> Disk -> Prop) : Prop := forall s a s',
  P (disk s) -> m s = (Returned a, s') -> Q a (disk s').
Lemma yields_bind {A B} P (m : M A) R (k : A -> M B) Q :
  yields P m R -> (forall a, yields (R a) (k a) Q) -> yields P (m ≫= k) Q.
Proof.
  intros Hm Hk s b s' Hs. unfold mbind, M_bind. destruct (m s) as [[a|e|] s1] eqn:E; [|done..]. intros Hb.
  by apply (Hk a s1 b s'); [apply (Hm s a s1)|].
Qed.
Lemma yields_any {A} (m : M A) : yields (fun _ => True) m (fun _ _ => True).
Proof. done. Qed.

Section Key.
Context (protect unprotect : string -> option string).
(** DPAPI does not unprotect nothing *)
Context (no_blob : unprotect "" = None).
Definition stored (clear : string) (d : Disk) : Prop :=
  exists bytes, d !! key_name = Some bytes /\ unprotect bytes = Some clear /\ slen clear = 32.
Section Os.
Context (os : nat -> Os).
Lemma read_key_stored P : yields P (read_key unprotect os) (fun x d => forall clear, x = Some clear -> stored clear d).
Proof.
  intros s x s' _. unfold read_key, call. destruct (ends _); [done|]. destruct (if fails _ then None else _) as [bytes|] eqn:E.
  - destruct (_ ← throw_if _ _; _) as [o|e] eqn:Eo; [|done]. intros [= <- <-] clear ->. inv_ok Eo.
    destruct (unprotect bytes) as [c|] eqn:Eu; [|done]. injection Ha0 as ->. apply Ok_inj in Eo. injection Eo as ->.
    destruct (fails _); [done|]. exists bytes. split_and!; [done|done|]. by apply negb_false_iff, Z.eqb_eq in Ha1.
  - intros [= <- <-] clear [=].
Qed.
Lemma leaves_read_key : leaves_key (read_key unprotect os).
Proof. unfold read_key. by apply leaves_call. Qed.
Lemma keeps_provision : keeps_key (provision_key protect unprotect os).
Proof.
  pose proof leaves_read_key. unfold provision_key.
  apply keeps_key_bind; [apply leaves_keeps; leaves|]. intros generated.
  apply keeps_key_bind; [apply leaves_keeps; leaves|]. intros bytes. cbv zeta.
  apply keeps_key_bind; [apply leaves_keeps; leaves|]. intros ?.
  apply keeps_key_bind; [apply leaves_keeps; leaves|]. intros ?.
  apply keeps_key_bind; [|intros moved; apply leaves_keeps; unfold require_private_acl; leaves].
  intros s b Hb. unfold call. destruct (ends _); [done|]. destruct (_ || _) eqn:E; [done|].
  apply orb_false_iff in E as [_ E%bool_decide_eq_false]. destruct E. by exists b.
Qed.
Ltac step_any := eapply (yields_bind _ _ (fun _ _ => True)); [done|intros ?]; cbv zeta.
Lemma yields_result {A} (x : result A) (P : Disk -> Prop) (Q : A -> Disk -> Prop) :
  (forall a d, x = Ok a -> P d -> Q a d) -> yields P (of_result x) Q.
Proof. intros H s a s' Hs. unfold of_result. destruct x; [|done]. intros [= <- <-]. by apply H. Qed.
Lemma yields_result_bind {A B} (x : result A) (k : A -> M B) P Q :
  (forall a, x = Ok a -> yields P (k a) Q) -> yields P (of_result x ≫= k) Q.
Proof.
  intros H. intros s b s' Hs. unfold mbind, M_bind, of_result. destruct x as [a|e]; [|done]. by apply (H a eq_refl).
Qed.
Lemma provision_stored P : yields P (provision_key protect unprotect os) stored.
Proof.
  unfold provision_key. do 4 step_any. eapply (yields_bind _ _ (fun _ _ => True)); [done|intros [|]]; cbn [negb].
  - step_any. eapply (yields_bind _ _ (fun x d => x <> "" -> d !! key_name = Some x)).
    { intros s x s' _. unfold call. destruct (ends _); [done|]. intros [= <- <-]. cbn. destruct (fails _); [done|].
      by destruct (disk s !! key_name). }
    intros bytes. apply yields_result_bind. intros clear Hc. apply yields_result_bind. intros [] Hl.
    intros s x s' Hs [= <- <-]. destruct (unprotect bytes) as [c|] eqn:Eu; [|done]. injection Hc as ->.
    exists bytes. apply throw_if_Ok, negb_false_iff, Z.eqb_eq in Hl. split_and!; [|done|done]. apply Hs. intros ->. congruence.
  - step_any. eapply (yields_bind _ _ (fun _ _ => True)); [done|intros conflict]. eapply (yields_bind _ _ (fun x d => forall clear, x = Some clear -> stored clear d)).
    + destruct conflict; [step_any; apply read_key_stored|]. by intros s x s' _ [= <- <-] clear [=].
    + intros other. apply yields_result. intros clear d Ho Hd. apply Hd. destruct other; [|done]. by injection Ho as ->.
Qed.
Lemma keeps_load root create : keeps_key (load_or_create_dpapi_key protect unprotect os root create).
Proof.
  pose proof leaves_read_key. pose proof keeps_provision as Hp. unfold load_or_create_dpapi_key.
  apply keeps_key_catching; [|intros e; apply leaves_keeps; leaves]. destruct (_ || _); [apply leaves_keeps; leaves|].
  apply keeps_key_bind; [apply leaves_keeps; unfold open_store_root, restrict_store_acl, require_private_acl; leaves|]. intros ?.
  apply keeps_key_bind; [apply leaves_keeps; leaves|]. intros present.
  apply keeps_key_bind; [apply leaves_keeps; unfold require_private_acl; leaves|]. intros ?.
  apply keeps_key_bind; [by apply leaves_keeps|]. intros [clear|]; [apply leaves_keeps; leaves|].
  destruct create; cbn [negb]; [|apply leaves_keeps; leaves]. apply keeps_key_bind; [done|]. intros ?. apply leaves_keeps; leaves.
Qed.
(** a key that is handed out is the key of the directory *)
Lemma load_stored root create P :
  yields P (load_or_create_dpapi_key protect unprotect os root create) (fun x d => forall clear, x = inr clear -> stored clear d).
Proof.
  unfold load_or_create_dpapi_key, catching. intros s x s' _.
  match goal with |- match ?m s with _ => _ end = _ -> _ =>
    assert (Hm : yields (fun _ => True) m (fun x d => forall clear, x = inr clear -> stored clear d)); [|specialize (Hm s)] end.
  - destruct (_ || _); [by intros s0 y s1 _ [= <- <-] clear [=]|]. do 3 step_any.
    eapply yields_bind; [apply read_key_stored|]. intros [clear|].
    + intros s0 y s1 Hs [= <- <-] c [= <-]. by apply Hs.
    + destruct create; cbn [negb]; [|by intros s0 y s1 _ [=]].
      eapply yields_bind; [apply provision_stored|]. intros clear s0 y s1 Hs [= <- <-] c [= <-]. done.
  - match goal with |- match ?m with _ => _ end = _ -> _ => destruct m as [[y|e|] s1] end; [|by intros [= <- <-] clear [=]|done].
    intros [= <- <-]. by apply (Hm y s1 I).
Qed.
End Os.

(** ** Lives of the store *)
Inductive KeyEvent :=
| Load (os : nat -> Os) (root : string) (create_if_missing : bool)
| Capture (os : nat -> Os) (config : FileAcquisitionConfig) (rq : FileAcquisitionRequest).
Section Lives.
Context (cng_sha256 : string -> outcome (list Z)) (hmac_sha256 : string -> string -> result (list Z)).
Context (encrypt : string -> string -> string -> string -> result (string * string)).
Context (decrypt : string -> string -> string -> string -> string -> result string).
Context (json_parse : string -> result json) (dump pretty : json -> result string) (utf8 : string -> result string).
Definition happen (e : KeyEvent) (d : Disk) : option string * Disk :=
  match e with
  | Load os root create =>
      match load_or_create_dpapi_key protect unprotect os root create (begun d) with
      | (Returned (inr clear), s) => (Some clear, disk s)
      | (_, s) => (None, disk s)
      end
  | Capture os config rq =>
      (None, disk (acquire cng_sha256 hmac_sha256 encrypt decrypt json_parse dump pretty utf8 os config rq (begun d)).2)
  end.
(** the keys that are handed out *)
Fixpoint keys (l : list KeyEvent) (d : Disk) : list string :=
  match l with
  | [] => []
  | e :: l => let '(k, d) := happen e d in match k with Some k => k :: keys l d | None => keys l d end
  end.
Lemma happen_keeps e d bytes : d !! key_name = Some bytes -> (happen e d).2 !! key_name = Some bytes.
Proof.
  intros Hb. destruct e as [os root create|os config rq]; cbn.
  - pose proof (keeps_load os root create (begun d) bytes Hb) as H.
    by destruct (load_or_create_dpapi_key protect unprotect os root create (begun d)) as [[[]|e|] s].
  - by apply leaves_keeps; [apply leaves_acquire|].
Qed.
Lemma happen_stored e d k : (happen e d).1 = Some k -> stored k (happen e d).2.
Proof.
  destruct e as [os root create|os config rq]; cbn; [|done].
  pose proof (load_stored os root create (fun _ => True) (begun d)) as H.
  destruct (load_or_create_dpapi_key protect unprotect os root create (begun d)) as [[[e|c]|e|] s]; try done.
  intros [= <-]. by apply (H (inr c) s I eq_refl).
Qed.
Lemma stored_unique a b d : stored a d -> stored b d -> a = b.
Proof. intros (x & Hx & Hu & _) (y & Hy & Hv & _). congruence. Qed.
Lemma keys_stored l : forall d k, stored k d -> Forall (fun k' => k' = k) (keys l d).
Proof.
  induction l as [|e l IH]; intros d k Hk; cbn; [constructor|].
  destruct (happen e d) as [o d'] eqn:E. assert (Hk' : stored k d').
  { destruct Hk as (bytes & Hb & H). exists bytes. split; [|done]. by rewrite <- (happen_keeps e d bytes Hb), E. }
  destruct o as [k'|]; [|by apply IH]. constructor; [|by apply IH].
  pose proof (happen_stored e d k') as Hs. rewrite E in Hs. eapply stored_unique; [by apply Hs|done].
Qed.
(** C20: The forensic key is never replaced.  Over any sequence of key loads and captures on one store
    directory, with any failures and with the process ending anywhere (also between the temporary key file and its
    move), every key that [load_or_create_dpapi_key] hands out is the same 32 bytes, so chunks and manifests that
    were written under one key stay readable under every later one. *)
Theorem acquisition_key_stable (l : list KeyEvent) (d : Disk) :
  forall k k', k ∈ keys l d -> k' ∈ keys l d -> k = k' /\ slen k = 32.
Proof.
  revert d. induction l as [|e l IH]; intros d k k'; cbn; [intros Hk; inversion Hk|].
  destruct (happen e d) as [[key|] d'] eqn:E; [|apply IH].
  pose proof (happen_stored e d key) as Hs. rewrite E in Hs. specialize (Hs eq_refl). cbn in Hs.
  assert (Hall : forall x, x ∈ key :: keys l d' -> x = key).
  { apply Forall_forall. constructor; [done|]. by apply keys_stored. }
  intros Hk Hk'. rewrite (Hall k Hk), (Hall k' Hk'). split; [done|]. by destruct Hs as (? & _ & _ & ?).
Qed.
End Lives.
End Key.
