(* ===== verification/FileAcquisitionExample.v ===== *)
(** * A capture at work

    The theorems on file acquisition applied to a store with chunks of four bytes,
    a source of eight and a bound of six.  The first process ends after its first
    chunk, before the manifest that counts it.  The cipher is the identity,
    documents are printed as the binary code of their tree. *)

From S2P Require Import Prelude Crc32 Identity Json FileAcquisition ArtifactExample FileAcquisitionFacts FileAcquisitionLogic FileAcquisitionRuns FileAcquisitionTheorems FileAcquisitionKey.

(** ** The parameters *)
Definition length_mac (_ text : string) : result (list Z) := Ok (repeat (slen text mod 256) 32).
Definition plain_encrypt (_ _ _ plain : string) : result (string * string) := Ok (plain, nul_bytes 16).
Definition plain_decrypt (_ _ _ cipher _ : string) : result string := Ok cipher.
Definition tree_parse (s : string) : result json :=
  match reading s with inr j => Ok j | inl _ => Throw (json_exception "parse error") end.
Definition tree_print (j : json) : result string := Ok (print (reread j)).
Definition same_text (s : string) : result string := Ok s.
Definition eight_bytes (_ : string) (_ _ : Z) : string := "evidence".
Definition the_config : FileAcquisitionConfig := {|
  collection_root := "C:\evidence"; encrypted_store_root := "C:\store"; encryption_key := "0123456789abcdef0123456789abcdef";
  maximum_capture_bytes := 6; chunk_bytes := 4 |}.
Definition the_request : FileAcquisitionRequest := {|
  rq_capture_id := "cap-1"; rq_relative_path := "log.txt"; rq_maximum_bytes := 100; rq_command_id := "cmd-1";
  rq_correlation_id := "corr-1"; resume_existing_only := false |}.
Definition the_file : FileFacts := {| f_size := 8; f_write_time := 5; f_identity := hex "f"; f_path := "c:\evidence\log.txt" |}.
Definition the_target : Opened := {| root_path := "c:\evidence"; root_identity := hex "r"; before := the_file |}.
Definition entry (sid : string) : option AccessEntry :=
  Some {| entry_type := 0; entry_flags := 0; entry_mask := FILE_ALL_ACCESS; entry_sid := sid |}.
(** Windows answers, until the process ends before call [last] *)
Definition answers (last : option nat) (n : nat) : Os := {|
  ends := match last with Some m => Nat.eqb m n | None => false end; fails := false; kept := 1;
  raw_facts := fun h => Some match h with
                             | Source => {| is_directory := false; is_reparse := false; end_of_file := 8; last_write := 5 |}
                             | Root => {| is_directory := true; is_reparse := false; end_of_file := 0; last_write := 5 |}
                             end;
  raw_identity := fun h => Some match h with Source => "f" | Root => "r" end;
  raw_path := fun h => Some match h with Source => "C:\evidence\log.txt" | Root => "C:\evidence" end;
  read_at := fun pos count => Some (str_take (Z.to_nat count) (str_drop (Z.to_nat pos) "evidence"));
  random := nul_bytes; user_sid := Ok "S-1-5-21-1";
  descriptor := Some {| control := Some SE_DACL_PROTECTED; owner_sid := Some "S-1-5-21-1";
                        entries_ := Some [entry "S-1-5-21-1"; entry system_sid] |};
  move_conflict := false; created := false |}.
Definition call_with (last : option nat) : AcquireCall := {|
  ac_os := answers last; ac_request := the_request; ac_file := the_file |}.
Abbreviation lived_with := (lived zero_sha length_mac plain_encrypt plain_decrypt tree_parse tree_print tree_print same_text the_config).
Abbreviation acquire_with := (acquire zero_sha length_mac plain_encrypt plain_decrypt tree_parse tree_print tree_print same_text).

(** ** They satisfy the hypotheses *)
Lemma plain_decrypts key nonce aad plain cipher tag : plain_encrypt key nonce aad plain = Ok (cipher, tag) ->
  plain_decrypt key nonce aad cipher tag = Ok plain /\ slen cipher = slen plain /\ String.length tag = kTagBytes.
Proof. by intros [= <- <-]. Qed.
Lemma length_tags key text tag : length_mac key text = Ok tag -> zlen tag = 32 /\ Forall (fun b => 0 <= b < 256) tag.
Proof.
  intros H. apply Ok_inj in H as <-. split; [done|]. apply Forall_forall. intros b Hb%list_elem_of_In%repeat_spec.
  rewrite Hb. by apply Z.mod_pos_bound.
Qed.
Lemma tree_rereads j s : flat j -> tree_print j = Ok s -> tree_parse s = Ok (reread j).
Proof. intros _ H. apply Ok_inj in H as <-. unfold tree_parse. by rewrite reading_print. Qed.
Lemma reread_twice j : flat j -> reread (reread j) = reread j.
Proof.
  intros (l & -> & _). cbn. f_equal. rewrite <- list_fmap_compose. apply list_fmap_ext. intros i [k v] _. cbn. f_equal.
  destruct v; cbn; try done. by destruct (Z.leb_spec 0 z) as [H|H]; cbn; [|rewrite (proj2 (Z.leb_gt _ _) H)].
Qed.
Lemma tree_reprints j : flat j -> tree_print (reread j) = tree_print j.
Proof. intros H. unfold tree_print. by rewrite reread_twice. Qed.
Lemma answers_native last : native_os (answers last).
Proof.
  split; [intros n k; cbn; induction k as [|k IH]; [done|]; cbn; by rewrite IH|].
  intros n h raw [= <-]. unfold i64_max. destruct h; cbn; lia.
Qed.
Lemma answers_held last : held eight_bytes (answers last) the_file.
Proof.
  split; [by intros n raw [= <-]|by intros n id [= <-]|]. intros n pos count part _ H. injection H as <-. by eexists.
Qed.
Lemma answers_steady last : steady eight_bytes (answers last) the_target.
Proof.
  split; [apply answers_held|by intros n p [= <-]..|].
  intros n pos count Hp Hc H. injection H as H. apply (f_equal slen) in H. rewrite slen_take, slen_drop in H.
  change (slen "evidence") with 8 in H. change (slen "") with 0 in H. cbn in Hp. lia.
Qed.
Lemma call_fine honest last : call_ok eight_bytes honest (call_with last).
Proof. split; [apply answers_native|by split|intros _; apply answers_held]. Qed.
Lemma call_steady last : steady_call eight_bytes the_request the_target (call_with last).
Proof. split; [apply answers_native|apply answers_steady|done]. Qed.
Lemma calls_fine honest l : Forall (call_ok eight_bytes honest) (map call_with l).
Proof. induction l as [|last l IH]; [done|]. constructor; [apply call_fine|done]. Qed.
Lemma calls_steady l : Forall (steady_call eight_bytes the_request the_target) (map call_with l).
Proof. induction l as [|last l IH]; [done|]. constructor; [apply call_steady|done]. Qed.
Lemma the_unsigned_config : 0 <= maximum_capture_bytes the_config /\ 0 <= chunk_bytes the_config.
Proof. done. Qed.
Lemma providers_fine : providers_work zero_sha length_mac plain_encrypt tree_print tree_print (fun _ => true).
Proof.
  split; [intros j _ _; split; by eexists|by eexists|by eexists| |done|done].
  intros text. exists (repeat 0 32). split; [done|]. by apply (zero_sha_bytes text).
Qed.
Lemma target_fine : capturable same_text eight_bytes (fun _ => true) the_request the_target.
Proof.
  split; try done. by eexists _, _.
Qed.
Lemma answers_smooth n : smooth (answers None n).
Proof. split; try done; by eexists. Qed.

(** ** The theorems *)
Lemma captures_intact_witness :
  exists text c parts, lived_with [call_with (Some 30%nat)] !! "cap-1.manifest.json" = Some text /\
    manifest_text length_mac tree_parse tree_print the_config c text /\
    backed plain_decrypt the_config eight_bytes True (lived_with [call_with (Some 30%nat)]) c parts.
Proof.
  assert (Hs : bool_decide (is_Some (lived_with [call_with (Some 30%nat)] !! "cap-1.manifest.json")) = true) by (vm_compute; reflexivity).
  apply bool_decide_eq_true in Hs as [text Hl].
  destruct (captures_intact zero_sha length_mac plain_encrypt plain_decrypt tree_parse tree_print tree_print same_text the_config
    plain_decrypts length_tags tree_rereads tree_reprints eq_refl the_unsigned_config eight_bytes True [call_with (Some 30%nat)]
    "cap-1.manifest.json" text (calls_fine True [Some 30%nat]) eq_refl Hl) as (c & parts & Hm & _ & Hb & _).
  exists text, c, parts. exact (conj Hl (conj Hm Hb)).
Defined.
Lemma interrupted_capture_resumes_witness :
  exists x s, acquire_with (answers None) the_config the_request (begun (lived_with [call_with (Some 30%nat); call_with (Some 9%nat)])) = (Returned x, s) /\
    acq_state x = "truncated" /\ captured_bytes x = 6 /\ acq_sha256 x = hex_bytes (repeat 0 32).
Proof.
  destruct (interrupted_capture_resumes zero_sha length_mac plain_encrypt plain_decrypt tree_parse tree_print tree_print same_text the_config
    plain_decrypts length_tags tree_rereads tree_reprints eq_refl the_unsigned_config eight_bytes (fun _ => true) the_request the_target
    [call_with (Some 30%nat); call_with (Some 9%nat)] (call_with None) providers_fine target_fine
    (calls_steady [Some 30%nat; Some 9%nat]) (call_steady None) eq_refl answers_smooth)
    as (x & s & E & Hs & Hc & (digest & Hd & Hx) & _).
  exists x, s. split; [exact E|]. split; [exact Hs|]. split; [exact Hc|]. rewrite Hx. injection Hd as <-. reflexivity.
Defined.

(** a key that is wrapped in one more byte *)
Definition wrap (s : string) : option string := Some (String "w" s).
Definition unwrap (s : string) : option string := match s with String _ s => Some s | "" => None end.
Definition key_life : list KeyEvent :=
  [Load (answers (Some 8%nat)) "C:\store" true; Load (answers None) "C:\store" true; Load (answers None) "C:\store" false;
   Capture (answers None) the_config the_request; Load (answers None) "C:\store" true].
Abbreviation keys_with := (keys wrap unwrap zero_sha length_mac plain_encrypt plain_decrypt tree_parse tree_print tree_print same_text).
Lemma acquisition_key_stable_witness :
  keys_with key_life ∅ = [nul_bytes 32; nul_bytes 32; nul_bytes 32] /\
  forall k k', k ∈ keys_with key_life ∅ -> k' ∈ keys_with key_life ∅ -> k = k' /\ slen k = 32.
Proof.
  split; [vm_compute; reflexivity|].
  exact (acquisition_key_stable wrap unwrap eq_refl zero_sha length_mac plain_encrypt plain_decrypt tree_parse tree_print tree_print
    same_text key_life ∅).
Defined.
