(* ===== verification/ProcessActions.v ===== *)
(** * Process actions

    [response/process_actions.cpp]: re-observation and termination of the exact
    process instance a command names, and the receipt of a termination.  What
    Windows answers to each call is a field of a probe; the creation time, image,
    protection and liveness answers are about the process object of one held
    handle. *)

From S2P Require Import Prelude Telemetry Identity Ledger Json Command.

(** ** Observation *)
Record ProcessObservation := {
  ob_pid : Z; creation_time_ticks : Z; ob_parent_pid : option Z; executable_path : option string;
  image_base_name : string
}.
Definition lowered_base_name (path : string) : string := str_map to_lower (base_name path).
Definition ticks_to_utc (ticks : Z) : option UtcTimestamp :=
  let epoch := 116444736000000000 in
  if ticks <? epoch then None
  else if i64_max / 100 <? ticks - epoch then None
  else Some ((ticks - epoch) * 100).
(** the answers during a re-observation; [None]: the call failed *)
Record ObservationProbe := {
  obs_boot : outcome string; obs_opened : bool; obs_creation : option Z; obs_parent : option Z;
  obs_image : option string
}.
Definition reobserve_process (probe : ObservationProbe) (target : ProcessTarget)
  : outcome ProcessObservation :=
  match pt_boot_id target with
  | None => inl "boot-bound process target required; legacy process action refused"
  | Some boot =>
      if negb (bool_decide (obs_boot probe = inr boot))
      then inl "process target boot does not match verified current native boot"
      else if (pt_pid target =? 0) || (pt_start_time_ticks target =? 0)
      then inl "process target is invalid"
      else if negb (obs_opened probe)
      then inl "process no longer exists or cannot be opened for query"
      else
        match obs_creation probe with
        | None => inl "cannot read process creation time for re-observation"
        | Some ticks =>
            if negb (ticks =? pt_start_time_ticks target)
            then inl "process identity no longer matches (PID has been reused)"
            else inr {| ob_pid := pt_pid target; creation_time_ticks := ticks;
                        ob_parent_pid := obs_parent probe; executable_path := obs_image probe;
                        image_base_name := match obs_image probe with
                                           | Some path => lowered_base_name path
                                           | None => ""
                                           end |}
        end
  end.
Definition to_raw_process_event (o : ProcessObservation) : RawProcessEvent := {|
  pe_source := {| sp_kind := etw; sp_provider := "Officer-Response-Reobservation"; sp_channel := None;
                  sp_record_id := None |};
  pe_process_start_time := default 0 (ticks_to_utc (creation_time_ticks o));
  pe_pid := ob_pid o; pe_start_time_ticks := Some (creation_time_ticks o);
  pe_process_guid := None; pe_parent_process_guid := None; pe_parent_pid := ob_parent_pid o;
  pe_parent_executable := None; pe_executable := executable_path o; pe_command_line := None;
  pe_user_sid := None; pe_user_name := None; pe_sha256 := None; pe_terminated := false;
  pe_termination_time := None; pe_termination_time_ticks := None; pe_exit_code := None;
  pe_native_fields := None; pe_sysmon_fields := None |}.

(** ** Termination *)
Inductive ProcessTerminationState := Refused | Failed | Succeeded | Indeterminate.
#[global] Instance ProcessTerminationState_eq_dec : EqDecision ProcessTerminationState.
Proof. solve_decision. Defined.
Inductive ProcessTerminationStage :=
| preflight | boot | open | identity_ | image | critical | protection | liveness | initiate | completion.
#[global] Instance ProcessTerminationStage_eq_dec : EqDecision ProcessTerminationStage.
Proof. solve_decision. Defined.
Record ProcessTerminationResult := {
  t_state : ProcessTerminationState; t_stage : ProcessTerminationStage; t_initiated : bool;
  t_observed : bool; t_error : option Z; t_summary : string
}.
Definition stage_name (s : ProcessTerminationStage) : string :=
  match s with
  | preflight => "preflight" | boot => "boot" | open => "open" | identity_ => "identity"
  | image => "image" | critical => "critical" | protection => "protection"
  | liveness => "liveness" | initiate => "initiate" | completion => "completion"
  end.
Definition WAIT_OBJECT_0 : Z := 0.
Definition WAIT_TIMEOUT : Z := 258.
Definition WAIT_FAILED : Z := 4294967295.
Definition ERROR_PROC_NOT_FOUND : Z := 127.
Definition PROTECTION_LEVEL_NONE : Z := 4294967294.
(** the answers during a termination: [inl] is the error of a failed call; a
    looked-up function may be absent ([None]) *)
Record TerminationProbe := {
  current_pid : Z; native_boot : outcome string; open_error : option Z; creation : Z + Z;
  full_image : option Z + string; is_critical : option (Z + bool); protection_level : option (Z + Z);
  wait_before : Z * Z; terminate_error : option Z; wait_after : Z * Z
}.
Definition termination_completion (wait_status : Z) (error : option Z) : ProcessTerminationResult :=
  if wait_status =? WAIT_OBJECT_0
  then {| t_state := Succeeded; t_stage := completion; t_initiated := true; t_observed := true;
          t_error := None; t_summary := "termination initiated and held process exit observed" |}
  else {| t_state := Indeterminate; t_stage := completion; t_initiated := true; t_observed := false;
          t_error := if wait_status =? WAIT_FAILED then error else None;
          t_summary := if wait_status =? WAIT_TIMEOUT
                       then "termination initiated; bounded wait expired without observing exit"
                       else if wait_status =? WAIT_FAILED
                       then "termination initiated; exit observation failed"
                       else "termination initiated; unexpected exit observation status" |}.
Definition stop_at (state : ProcessTerminationState) (stage : ProcessTerminationStage) (why : string)
    (error : option Z) : ProcessTerminationResult :=
  {| t_state := state; t_stage := stage; t_initiated := false; t_observed := false;
     t_error := error; t_summary := why |}.
Definition wait_error (w : Z * Z) : option Z := if w.1 =? WAIT_FAILED then Some w.2 else None.

(** the checks before [TerminateProcess]: the refusal, or [None] when it is called *)
Definition termination_refusal (p : TerminationProbe) (target : ProcessTarget)
  : option ProcessTerminationResult :=
  if (pt_pid target =? 0) || (pt_start_time_ticks target =? 0) || (pt_pid target =? current_pid p)
     || is_protected_process (pt_pid target) ""
  then Some (stop_at Refused preflight "target is invalid, protected, or the endpoint process itself" None)
  else match pt_boot_id target with
  | None => Some (stop_at Refused boot "boot-bound process target required; legacy process action refused" None)
  | Some wanted =>
  match native_boot p with
  | inl error => Some (stop_at Failed boot ("native boot verification unavailable: " +:+ error) None)
  | inr now =>
  if negb (String.eqb now wanted)
  then Some (stop_at Refused boot "process target boot does not match verified current native boot" None)
  else match open_error p with
  | Some e => Some (stop_at Failed open "cannot open process for termination" (Some e))
  | None =>
  match creation p with
  | inl e => Some (stop_at Failed identity_ "cannot read held process creation token" (Some e))
  | inr ticks =>
  if negb (ticks =? pt_start_time_ticks target)
  then Some (stop_at Refused identity_ "held process creation token does not match requested instance" None)
  else
  let unverified e := Some (stop_at Failed image "target image could not be verified; termination refused" e) in
  match full_image p with
  | inl e => unverified e
  | inr path =>
  if str_empty path then unverified None
  else if is_protected_process (pt_pid target) (lowered_base_name path)
  then Some (stop_at Refused image "target image is protected" None)
  else match is_critical p with
  | None => Some (stop_at Failed critical "critical-process API unavailable; termination refused"
                    (Some ERROR_PROC_NOT_FOUND))
  | Some (inl e) => Some (stop_at Failed critical
                      "critical-process status could not be verified; termination refused" (Some e))
  | Some (inr true) => Some (stop_at Refused critical
                         "Windows reports a critical process; termination refused" None)
  | Some (inr false) =>
  match protection_level p with
  | None => Some (stop_at Failed protection "process protection API unavailable; termination refused"
                    (Some ERROR_PROC_NOT_FOUND))
  | Some (inl e) => Some (stop_at Failed protection
                      "process protection level could not be verified; termination refused" (Some e))
  | Some (inr level) =>
  if negb (level =? PROTECTION_LEVEL_NONE)
  then Some (stop_at Refused protection
         "Windows reports a protected or unknown protection level; termination refused" None)
  else if negb ((wait_before p).1 =? WAIT_TIMEOUT)
  then Some (if (wait_before p).1 =? WAIT_OBJECT_0
             then stop_at Refused liveness "target already exited; no termination performed" None
             else stop_at Failed liveness "target lifetime state could not be verified"
                    (wait_error (wait_before p)))
  else None
  end end end end end end end.
(** the result, and whether [TerminateProcess] was called on the held handle *)
Definition terminate_process (p : TerminationProbe) (target : ProcessTarget)
  : ProcessTerminationResult * bool :=
  match termination_refusal p target with
  | Some result => (result, false)
  | None =>
      (match terminate_error p with
       | Some e => stop_at Failed initiate "TerminateProcess failed" (Some e)
       | None => termination_completion (wait_after p).1 (wait_error (wait_after p))
       end, true)
  end.

(** ** The receipt *)
Definition flag (b : bool) : string := if b then "true" else "false".
Definition termination_receipt (result : ProcessTerminationResult) (command correlation : string)
  : CommandReceipt :=
  let declared := match t_state result with
                  | Refused => target_mismatch | Failed => execution_failed
                  | Succeeded => succeeded | Indeterminate => indeterminate
                  end in
  let code := if (t_initiated result && negb (t_observed result))
                 || (bool_decide (declared = succeeded)
                     && (negb (t_initiated result) || negb (t_observed result)))
              then indeterminate else declared in
  let text := "kill_process stage=" +:+ stage_name (t_stage result)
              +:+ " action_initiated=" +:+ flag (t_initiated result)
              +:+ " completion_observed=" +:+ flag (t_observed result)
              +:+ match t_error result with
                  | Some e => " windows_error=" +:+ to_string e
                  | None => ""
                  end in
  let no_error := bool_decide (t_error result = None) in
  let consistent :=
    if t_observed result then t_initiated result && bool_decide (code = succeeded) && no_error
    else if t_initiated result then bool_decide (code = indeterminate)
    else negb (bool_decide (code = indeterminate)) in
  {| r_command_id := command; r_correlation_id := correlation; code_ := code;
     summary := text +:+ ": " +:+ t_summary result;
     execution :=
       if consistent && bool_decide (code = declared)
          && (no_error || bool_decide (code = execution_failed) || bool_decide (code = indeterminate))
          && Bool.eqb (t_initiated result) (bool_decide (t_stage result = completion))
       then Some {| stage := stage_name (t_stage result); action_initiated := t_initiated result;
                    completion_observed := t_observed result; native_error := t_error result |}
       else None |}.

(** ** Theorems *)
(** the process is the instance the command names and may be terminated *)
Record may_terminate (p : TerminationProbe) (target : ProcessTarget) : Prop := {
  mt_pid : pt_pid target <> 0 /\ pt_pid target <> 4 /\ pt_pid target <> current_pid p;
  mt_boot : exists b, pt_boot_id target = Some b /\ native_boot p = inr b;
  mt_open : open_error p = None;
  mt_instance : creation p = inr (pt_start_time_ticks target) /\ pt_start_time_ticks target <> 0;
  mt_image : exists path, full_image p = inr path /\ path <> "" /\
    base_name (str_map to_lower (lowered_base_name path)) ∉ protected_images;
  mt_not_critical : is_critical p = Some (inr false);
  mt_unprotected : protection_level p = Some (inr PROTECTION_LEVEL_NONE);
  mt_alive : (wait_before p).1 = WAIT_TIMEOUT
}.
Lemma unprotected_pid pid name :
  is_protected_process pid name = false ->
  pid <> 0 /\ pid <> 4 /\ base_name (str_map to_lower name) ∉ protected_images.
Proof.
  unfold is_protected_process. destruct (Z.eqb_spec pid 0); [done|]. destruct (Z.eqb_spec pid 4); [done|].
  intros H. by apply bool_decide_eq_false in H.
Qed.
Lemma refusal_none p target : termination_refusal p target = None -> may_terminate p target.
Proof.
  unfold termination_refusal. destruct (_ || is_protected_process _ _) eqn:E0; [done|].
  repeat rewrite orb_false_iff in E0. destruct E0 as [[[_ Ht%Z.eqb_neq] Hself%Z.eqb_neq] Hp%unprotected_pid].
  destruct (pt_boot_id target) as [b|] eqn:Eb; [|done]. destruct (native_boot p) as [|now] eqn:En; [done|].
  destruct (String.eqb_spec now b) as [->|]; cbn [negb]; [|done].
  destruct (open_error p) eqn:Eo; [done|]. destruct (creation p) as [|ticks] eqn:Ec; [done|].
  destruct (Z.eqb_spec ticks (pt_start_time_ticks target)) as [->|]; cbn [negb]; [|done].
  destruct (full_image p) as [|path] eqn:Ei; [done|]. destruct (str_empty path) eqn:Ee; [done|].
  destruct (is_protected_process (pt_pid target) (lowered_base_name path)) eqn:Epi; [done|].
  destruct (is_critical p) as [[|[]]|] eqn:Ecr; try done.
  destruct (protection_level p) as [[|level]|] eqn:Epl; try done.
  destruct (Z.eqb_spec level PROTECTION_LEVEL_NONE) as [->|]; cbn [negb]; [|done].
  destruct (Z.eqb_spec (wait_before p).1 WAIT_TIMEOUT) as [Ew|]; [|done]. intros _.
  apply unprotected_pid in Epi as (_ & _ & Hpi). split; try done; [tauto|by exists b|].
  exists path. split; [done|]. split; [by intros ->|done].
Qed.
Lemma refusal_some p target r :
  termination_refusal p target = Some r ->
  t_initiated r = false /\ t_observed r = false /\ t_stage r <> completion /\
  (t_state r = Refused /\ t_error r = None \/ t_state r = Failed).
Proof.
  unfold termination_refusal.
  repeat match goal with
  | |- context [match ?x with _ => _ end] => destruct x
  end; intros H; try done; injection H as <-; split_and!; try done; first [by left|by right].
Qed.

(** C16: A kill is exact and its receipt truthful.  [TerminateProcess] is called only on
    the process instance the command names - same boot, same creation time, a
    known image - and never on this process, a protected, critical or exited one.
    The receipt says "succeeded" exactly when the exit was observed, and
    "indeterminate" exactly when the termination was initiated and the exit not
    observed; any other answer means that nothing was initiated.  Its evidence is
    always present, and the result serializer accepts it. *)
Theorem kill_exact_and_truthful (p : TerminationProbe) (target : ProcessTarget) (command correlation : string) :
  let '(result, called) := terminate_process p target in
  let r := termination_receipt result command correlation in
  let initiated := called && bool_decide (terminate_error p = None) in
  let exited := initiated && ((wait_after p).1 =? WAIT_OBJECT_0) in
  (called = true -> may_terminate p target) /\
  (code_ r = succeeded <-> exited = true) /\
  (code_ r = indeterminate <-> initiated = true /\ exited = false) /\
  (code_ r = target_mismatch -> called = false) /\
  code_ r ∈ [succeeded; indeterminate; target_mismatch; execution_failed] /\
  exists e, execution r = Some e /\ evidence_consistent (code_ r) e = true /\
    action_initiated e = initiated /\ completion_observed e = exited.
Proof.
  unfold terminate_process. destruct (termination_refusal p target) as [result|] eqn:E.
  - apply refusal_some in E as (Hi & Ho & Hst & Hs). cbn [andb].
    destruct result as [state st ini obs err text]. cbn in Hi, Ho, Hst, Hs. subst ini obs.
    destruct Hs as [[-> ->]| ->]; (split_and!; [done|done|by split; [|intros [? _]]|done|set_solver|]);
      destruct st; try done; try destruct err; by eexists.
  - apply refusal_none in E. destruct (terminate_error p) as [e|]; cbn [andb bool_decide].
    + split_and!; [done|done|by split; [|intros [? _]]|done|set_solver|]. by eexists.
    + unfold termination_completion. destruct ((wait_after p).1 =? WAIT_OBJECT_0).
      * split_and!; [done|done|by split; [|intros [_ ?]]|done|set_solver|]. by eexists.
      * split_and!; [done|done|done|done|set_solver|].
        destruct ((wait_after p).1 =? WAIT_FAILED), (wait_error (wait_after p)); by eexists.
Qed.
