(* ===== verification/Outbox.v ===== *)
(** * The outboxes of the response path

    [response/result_outbox.hpp] and [response/artifact_outbox.hpp]: a journal of
    its own holds every command result, another every signed artifact; [flush]
    offers the oldest entry and retires it only after the sender's answer
    accounts for it.  The journal is used through [EvidenceJournal]; the sender
    works on a state of its own, and [meanwhile] is what other threads do to the
    journal while it waits. *)

From S2P Require Import Prelude Telemetry Identity Ledger Journal Uploader Json Enrollment Command Transport TransportFacts.

Section Outbox.
Context {S : Type} `{EvidenceJournal S}.
Context (json_events : string -> bool + json) (dump : json -> result string).
(** the identity the outbox belongs to *)
Context (agent host : string).
Abbreviation parse := (parse json_events).

Definition wrapper (field payload : string) : json :=
  object [("agent_id", JStr agent); ("host_id", JStr host); (field, JStr payload)].
Definition append_checked (line : result string) (s : S) : result unit * S :=
  match line with Ok line => j_append line s | Throw e => (Throw e, s) end.

(** [ResultOutbox::save] *)
Definition result_line (result_ : string) : result string :=
  value ← parse result_;
  version ← at_ "schema_version" value;
  _ ← throw_if (negb (is_text "2" version)) (invalid_argument "outbox requires result version 2");
  dump (wrapper "result" result_).
Definition result_save (result_ : string) : S -> result unit * S := append_checked (result_line result_).

(** [ArtifactOutbox::save] *)
Definition artifact_line (payload : string) : result string :=
  value ← parse payload;
  manifest ← (if contains "manifest" value then at_ "manifest" value else Ok value);
  version ← at_ "schema_version" manifest;
  let disagreement := invalid_argument "artifact outbox identity/schema disagreement" in
  _ ← throw_if (negb (is_text "1" version) && negb (is_text "2" version)) disagreement;
  its_host ← at_ "host_id" manifest;
  _ ← throw_if (negb (is_text host its_host)) disagreement;
  _ ← (if contains "manifest" value
       then its_agent ← at_ "agent_id" manifest; throw_if (negb (is_text agent its_agent)) disagreement
       else Ok tt);
  dump (wrapper "artifact" payload).
Definition artifact_save (payload : string) : S -> result unit * S := append_checked (artifact_line payload).

(** ** Flushing *)
(** what [flush] reads from the head of the journal: the batch and its payload *)
Definition head_payload (field mismatch : string) (batch : JournalBatch) : result string :=
  front ← of_option (hd_error (entries batch)) (logic_error "front of an empty batch");
  wrapped ← parse (body front);
  its_agent ← at_ "agent_id" wrapped;
  _ ← throw_if (negb (is_text agent its_agent)) (runtime_error mismatch);
  its_host ← at_ "host_id" wrapped;
  _ ← throw_if (negb (is_text host its_host)) (runtime_error mismatch);
  at_ field wrapped |> get_string.
Definition one_receipt (batch : JournalBatch) : result string :=
  dump (object [("batch_id", JStr (batch_id batch)); ("received", JUint 1); ("accepted", JUint 1);
                ("duplicates", JUint 0); ("rejected", JArr [])]).

Section Flush.
Context {W A : Type} (sender : string -> W -> A * W) (accepts : string -> A -> bool).
(** one turn of the loop: [Ok true] when the entry was retired, [Ok false] on an early return *)
Definition flush_step (field mismatch : string) (max_bytes : Z) (meanwhile : S -> S) (s : S) (w : W)
  : result bool * S * W :=
  match j_peek 1 max_bytes s with
  | (Throw e, s) => (Throw e, s, w)
  | (Ok None, s) => (Ok false, s, w)
  | (Ok (Some batch), s) =>
      match head_payload field mismatch batch with
      | Throw e => (Throw e, s, w)
      | Ok payload =>
          let '(answer, w) := sender payload w in
          let s := meanwhile s in
          if negb (accepts payload answer) then (Ok false, s, w)
          else match one_receipt batch with
               | Throw e => (Throw e, s, w)
               | Ok receipt =>
                   match j_acknowledge batch receipt s with
                   | (Ok _, s) => (Ok true, s, w)
                   | (Throw e, s) => (Throw e, s, w)
                   end
               end
      end
  end.
(** the loop, [limit] turns at most; the number of retired entries *)
Fixpoint flush (field mismatch : string) (max_bytes : Z) (meanwhile : nat -> S -> S) (limit : nat)
    (s : S) (w : W) : result Z * S * W :=
  match limit with
  | O => (Ok 0, s, w)
  | Datatypes.S limit =>
      match flush_step field mismatch max_bytes (meanwhile limit) s w with
      | (Throw e, s, w) => (Throw e, s, w)
      | (Ok false, s, w) => (Ok 0, s, w)
      | (Ok true, s, w) =>
          match flush field mismatch max_bytes meanwhile limit s w with
          | (Ok n, s, w) => (Ok (n + 1), s, w)
          | (Throw e, s, w) => (Throw e, s, w)
          end
      end
  end.
End Flush.

(** only one thread uses the result outbox *)
Definition result_flush {W} (sender : string -> W -> TransportOutcome * W) (limit : nat) (s : S) (w : W)
  : result Z * S * W :=
  flush sender (fun _ o => bool_decide (o = Transport.acknowledged)) "result"
    "response outbox identity scope mismatch; evidence retained" (1024 * 1024) (fun _ s => s) limit s w.
(** the response thread may save while the artifact thread waits for the network:
    [saved] are those payloads, per turn *)
Definition artifact_flush {W} (sender : string -> W -> option string * W) (saved : nat -> list string)
    (limit : nat) (s : S) (w : W) : result Z * S * W :=
  flush sender
    (fun payload o => match o with
                      | Some receipt => valid_artifact_ack json_events payload receipt
                      | None => false
                      end)
    "artifact" "artifact outbox scope mismatch; original retained" (2 * 1024 * 1024)
    (fun i s => foldl (fun s payload => (artifact_save payload s).2) s (saved i)) limit s w.

(** ** Facts *)
Context `{!EvidenceJournalLaws S}.
Definition keeps_all (s s' : S) : Prop := forall k, j_evidence s k -> j_evidence s' k.
Lemma append_checked_keeps line s : keeps_all s (append_checked line s).2.
Proof. intros k Hk. destruct line; [by apply append_keeps|done]. Qed.
Lemma saves_keep payloads s : keeps_all s (foldl (fun s payload => (artifact_save payload s).2) s payloads).
Proof.
  revert s. induction payloads as [|p payloads IH]; intros s k Hk; [done|]. apply IH.
  by apply (append_checked_keeps (artifact_line p)).
Qed.

(** an answer of the sender that [accepts] allows, for the payload of the entry stored under [k] *)
Definition accounted {W A} (sender : string -> W -> A * W) (accepts : string -> A -> bool)
    (field k : string) (w w' : W) : Prop :=
  exists e payload wrapped answer, key e = k /\ parse (body e) = Ok wrapped /\
    find "agent_id" wrapped = Some (JStr agent) /\ find "host_id" wrapped = Some (JStr host) /\
    find field wrapped = Some (JStr payload) /\ sender payload w = (answer, w') /\ accepts payload answer = true.
Lemma head_payload_run field mismatch batch payload :
  head_payload field mismatch batch = Ok payload ->
  exists front wrapped, hd_error (entries batch) = Some front /\ parse (body front) = Ok wrapped /\
    find "agent_id" wrapped = Some (JStr agent) /\ find "host_id" wrapped = Some (JStr host) /\
    find field wrapped = Some (JStr payload).
Proof.
  unfold head_payload. intros Hp. inv_ok Hp.
  destruct (hd_error (entries batch)) as [front|]; [|done]. injection Ha as <-.
  apply negb_false_iff, is_text_spec in Ha2, Ha4. subst. apply at_Ok in Ha1, Ha3, Ha5.
  exists front, a0. split_and!; try done. destruct a3; try done. by injection Hp as ->.
Qed.
Lemma flush_step_spec {W A} (sender : string -> W -> A * W) (accepts : string -> A -> bool)
    field mismatch mb meanwhile s w r s' w' :
  (forall s, keeps_all s (meanwhile s)) ->
  flush_step sender accepts field mismatch mb meanwhile s w = (r, s', w') ->
  forall k, j_evidence s k ->
    j_evidence s' k \/ r = Ok true /\ accounted sender accepts field k w w'.
Proof.
  intros Hm. unfold flush_step. destruct (j_peek 1 mb s) as [[[batch|]|e] s1] eqn:Ep.
  2, 3: intros [= <- <- <-] k Hk; left; apply (peek_keeps 1 mb) in Hk; by rewrite Ep in Hk.
  assert (H1 : keeps_all s s1) by (intros k Hk; apply (peek_keeps 1 mb) in Hk; by rewrite Ep in Hk).
  destruct (head_payload field mismatch batch) as [payload|e] eqn:Eh; [|intros [= <- <- <-]; auto].
  destruct (sender payload w) as [answer w1] eqn:Es.
  assert (H2 : keeps_all s (meanwhile s1)) by (intros k Hk; by apply Hm, H1).
  destruct (accepts payload answer) eqn:Ea; cbn [negb]; [|intros [= <- <- <-]; auto].
  destruct (one_receipt batch) as [receipt|e]; [|intros [= <- <- <-]; auto].
  destruct (j_acknowledge batch receipt (meanwhile s1)) as [[ok|e] s2] eqn:Ek; intros [= <- <- <-] k Hk.
  - destruct (decide (k ∈ batch_keys batch)) as [Hin|Hin].
    + right. split; [done|]. apply head_payload_run in Eh as (front & wrapped & Hf & Hrest).
      apply peek_bounded in Ep as Hb. destruct (entries batch) as [|e0 [|e1 es]] eqn:Ee; [done| |].
      * injection Hf as <-. unfold batch_keys in Hin. rewrite Ee in Hin. apply list_elem_of_singleton in Hin as ->.
        destruct Hrest as (? & ? & ? & ?). exists e0, payload, wrapped, answer. by split_and!.
      * exfalso. unfold zlen in Hb. simpl in Hb. lia.
    + left. apply H2, (acknowledge_keeps batch receipt) in Hk; [|done]. by rewrite Ek in Hk.
  - left. eapply acknowledge_refused; [exact Ek|]. by apply H2.
Qed.
(** an entry stays, or one of the sender's answers accounts for it *)
Lemma flush_spec {W A} (sender : string -> W -> A * W) (accepts : string -> A -> bool)
    (R : W -> W -> Prop) `{!PreOrder R} field mismatch mb meanwhile limit s w r s' w' :
  (forall p w, R w (sender p w).2) -> (forall i s, keeps_all s (meanwhile i s)) ->
  flush sender accepts field mismatch mb meanwhile limit s w = (r, s', w') ->
  R w w' /\ forall k, j_evidence s k ->
    j_evidence s' k \/ exists w1 w2, R w w1 /\ accounted sender accepts field k w1 w2 /\ R w2 w'.
Proof.
  intros HR Hm. revert s w r s' w'. induction limit as [|limit IH]; intros s w r s' w'; cbn [flush];
    [intros [= <- <- <-]; split; [done|auto]|].
  destruct (flush_step sender accepts field mismatch mb (meanwhile limit) s w) as [[r1 s1] w1] eqn:E1.
  assert (Hw : R w w1).
  { revert E1. unfold flush_step. destruct (j_peek 1 mb s) as [[[batch|]|e] s0]; [|by intros [= <- <- <-]..].
    destruct (head_payload _ _ _) as [payload|e]; [|by intros [= <- <- <-]].
    specialize (HR payload w). destruct (sender payload w) as [answer w2]. cbn [snd] in HR.
    destruct (negb _); [by intros [= <- <- <-]|]. destruct (one_receipt batch); [|by intros [= <- <- <-]].
    destruct (j_acknowledge _ _ _) as [[]]; by intros [= <- <- <-]. }
  pose proof (flush_step_spec _ _ _ _ _ _ _ _ _ _ _ (Hm limit) E1) as E3. clear E1.
  assert (Hone : forall k, j_evidence s k -> j_evidence s1 k \/
    exists wa wb, R w wa /\ accounted sender accepts field k wa wb /\ R wb w1).
  { intros k Hk. destruct (E3 k Hk) as [|[_ Ha]]; [by left|]. right. by exists w, w1. }
  destruct r1 as [[]|e]; [|by intros [= <- <- <-]..].
  destruct (flush sender accepts field mismatch mb meanwhile limit s1 w1) as [[r2 s2] w2] eqn:E2.
  apply IH in E2 as [Hw2 E2].
  assert (Hend : R w w2 /\ forall k, j_evidence s k -> j_evidence s2 k \/
    exists wa wb, R w wa /\ accounted sender accepts field k wa wb /\ R wb w2).
  { split; [by etransitivity|]. intros k Hk. destruct (Hone k Hk) as [Hk1|(wa & wb & ? & ? & ?)].
    - destruct (E2 k Hk1) as [|(wa & wb & ? & ? & ?)]; [by left|right; exists wa, wb].
      split_and!; [by etransitivity|done|done].
    - right. exists wa, wb. split_and!; [done|done|by etransitivity]. }
  destruct r2; by intros [= <- <- <-].
Qed.
End Outbox.
