(* ===== verification/Serializer.v ===== *)
(** * Schema 0.3 events and their JSON form

    [telemetry/panopticon_event.hpp] and [pipeline/serializer.cpp]: the event
    structs, the writer [event_to_json], and the strict reader
    [deserialize_event] with all its refusals.  The text level of the JSON
    library is a parameter of the two entry points. *)

From S2P Require Import Prelude Json.

(** ** The event structs *)
Record EventMetadata := { em_id : string; em_category : string; em_type : string; em_timestamp : string }.
Record AgentMetadata := { am_id : string; am_version : string }.
Record SourceMetadata := {
  sm_kind : string; sm_provider : string; sm_channel : option string; sm_record_id : option Z }.
Record OperatingSystemMetadata := { os_name : string; os_build : string }.
Record HostMetadata := { hm_id : string; hm_hostname : string; hm_os : OperatingSystemMetadata }.
Record UserMetadata := { um_name : option string; um_domain : option string; um_sid : option string }.
Record ParentProcessMetadata := {
  pp_entity_id : option string; pp_pid : option Z; pp_name : option string }.
Record ProcessHashMetadata := { sha256 : option string }.
Record ProcessMetadata := {
  pm_entity_id : string; pm_pid : Z; pm_name : option string; pm_executable : option string;
  pm_command_line : option string; pm_parent : ParentProcessMetadata; pm_hash : ProcessHashMetadata;
  pm_start_time_ticks : option Z }.
Record NetworkMetadata := {
  nm_direction : string; nm_protocol : option string; nm_source_ip : option string;
  nm_source_port : option Z; nm_destination_ip : option string; nm_destination_port : option Z;
  nm_destination_hostname : option string }.
Record FileMetadata := {
  fm_operation : string; fm_path : option string; fm_target_path : option string;
  fm_previous_path : option string; fm_hash : ProcessHashMetadata }.
Record RegistryMetadata := {
  rm_operation : string; rm_key_path : option string; rm_value_name : option string;
  rm_value_type : option string; rm_value_data : option string }.
Record ImageLoadMetadata := {
  im_path : option string; im_is_signed : option bool; im_signature_status : option string;
  im_hash : ProcessHashMetadata }.
Record PanopticonEvent := {
  schema_version : string; event : EventMetadata; source : SourceMetadata; agent : AgentMetadata;
  host : HostMetadata; user : UserMetadata; process : ProcessMetadata;
  network : option NetworkMetadata; file : option FileMetadata; registry : option RegistryMetadata;
  image_load : option ImageLoadMetadata }.
Definition kSchemaVersion : string := "0.3".

(** ** Writing *)
Definition nullable_string (value : option string) : json := opt_json JStr value.
Definition nullable_uint (value : option Z) : json := opt_json JUint value.
Definition nullable_uint64 (value : option Z) : json := opt_json JUint value.
Definition nullable_bool (value : option bool) : json := opt_json JBool value.
Definition hash_object (hash : ProcessHashMetadata) : json :=
  object [("sha256", nullable_string (sha256 hash))].

Definition event_block (e : EventMetadata) : json :=
  object [("id", JStr (em_id e)); ("category", JStr (em_category e)); ("type", JStr (em_type e));
          ("timestamp", JStr (em_timestamp e))].
Definition source_block (s : SourceMetadata) : json :=
  object [("kind", JStr (sm_kind s)); ("provider", JStr (sm_provider s));
          ("channel", nullable_string (sm_channel s)); ("record_id", opt_json JUint (sm_record_id s))].
Definition agent_block (a : AgentMetadata) : json :=
  object [("id", JStr (am_id a)); ("version", JStr (am_version a))].
Definition os_block (o : OperatingSystemMetadata) : json :=
  object [("name", JStr (os_name o)); ("build", JStr (os_build o))].
Definition host_block (h : HostMetadata) : json :=
  object [("id", JStr (hm_id h)); ("hostname", JStr (hm_hostname h)); ("os", os_block (hm_os h))].
Definition user_block (u : UserMetadata) : json :=
  object [("name", nullable_string (um_name u)); ("domain", nullable_string (um_domain u));
          ("sid", nullable_string (um_sid u))].
Definition parent_block (p : ParentProcessMetadata) : json :=
  object [("entity_id", nullable_string (pp_entity_id p)); ("pid", opt_json JUint (pp_pid p));
          ("name", nullable_string (pp_name p))].
Definition process_block (p : ProcessMetadata) : json :=
  object [("entity_id", JStr (pm_entity_id p)); ("pid", JUint (pm_pid p));
          ("name", nullable_string (pm_name p)); ("executable", nullable_string (pm_executable p));
          ("command_line", nullable_string (pm_command_line p)); ("parent", parent_block (pm_parent p));
          ("hash", hash_object (pm_hash p)); ("start_time_ticks", nullable_uint64 (pm_start_time_ticks p))].
Definition network_block (n : NetworkMetadata) : json :=
  object [("direction", JStr (nm_direction n)); ("protocol", nullable_string (nm_protocol n));
          ("source_ip", nullable_string (nm_source_ip n)); ("source_port", nullable_uint (nm_source_port n));
          ("destination_ip", nullable_string (nm_destination_ip n));
          ("destination_port", nullable_uint (nm_destination_port n));
          ("destination_hostname", nullable_string (nm_destination_hostname n))].
Definition file_block (f : FileMetadata) : json :=
  object [("operation", JStr (fm_operation f)); ("path", nullable_string (fm_path f));
          ("target_path", nullable_string (fm_target_path f));
          ("previous_path", nullable_string (fm_previous_path f)); ("hash", hash_object (fm_hash f))].
Definition registry_block (r : RegistryMetadata) : json :=
  object [("operation", JStr (rm_operation r)); ("key_path", nullable_string (rm_key_path r));
          ("value_name", nullable_string (rm_value_name r)); ("value_type", nullable_string (rm_value_type r));
          ("value_data", nullable_string (rm_value_data r))].
Definition image_load_block (i : ImageLoadMetadata) : json :=
  object [("path", nullable_string (im_path i)); ("is_signed", nullable_bool (im_is_signed i));
          ("signature_status", nullable_string (im_signature_status i)); ("hash", hash_object (im_hash i))].
(** [if (block) out[k] = { ... };] *)
Definition put_block {A} (k : string) (f : A -> json) (block : option A) (out : json) : json :=
  match block with Some b => set_member k (f b) out | None => out end.
Definition event_to_json (e : PanopticonEvent) : json :=
  put_block "image_load" image_load_block (image_load e)
    (put_block "registry" registry_block (registry e)
      (put_block "file" file_block (file e)
        (put_block "network" network_block (network e)
          (object [("schema_version", JStr (schema_version e)); ("event", event_block (event e));
                   ("source", source_block (source e)); ("agent", agent_block (agent e));
                   ("host", host_block (host e)); ("user", user_block (user e));
                   ("process", process_block (process e))])))).

(** ** Reading: fields *)
Definition known_key (required optional : list string) (m : string * json) : bool :=
  existsb (String.eqb m.1) required || existsb (String.eqb m.1) optional.
Definition first_missing (required : list string) (object : json) : option string :=
  List.find (fun k => negb (contains k object)) required.
Definition require_only_keys (object : json) (required optional : list string) (path : string)
  : result unit :=
  match object with
  | JObj members =>
      match first_missing required object with
      | Some k => Throw (runtime_error (path +:+ " is missing required field '" +:+ k +:+ "'."))
      | None =>
          match List.find (fun m => negb (known_key required optional m)) members with
          | Some m => Throw (runtime_error (path +:+ " has an unknown field '" +:+ m.1 +:+ "'."))
          | None => Ok tt
          end
      end
  | _ => Throw (runtime_error (path +:+ " must be a JSON object."))
  end.
Definition require_exact_keys (object : json) (expected : list string) (path : string) : result unit :=
  _ ← require_only_keys object expected [] path;
  throw_if (negb (size_ object =? zlen expected))
    (runtime_error (path +:+ " has missing or unknown fields.")).
Definition required_string (object : json) (key path : string) : result string :=
  value ← at_ key object;
  match value with
  | JStr result =>
      if str_empty result then Throw (runtime_error (path +:+ "." +:+ key +:+ " cannot be empty."))
      else Ok result
  | _ => Throw (runtime_error (path +:+ "." +:+ key +:+ " must be a string."))
  end.
Definition optional_string (object : json) (key path : string) : result (option string) :=
  value ← at_ key object;
  match value with
  | JNull => Ok None
  | JStr result =>
      if str_empty result
      then Throw (runtime_error (path +:+ "." +:+ key +:+ " cannot be empty when present."))
      else Ok (Some result)
  | _ => Throw (runtime_error (path +:+ "." +:+ key +:+ " must be a string or null."))
  end.
(** an integer of either kind that [get<std::int64_t>] does not show as negative *)
Definition unsigned_value (value : json) (kind path : string) : result Z :=
  _ ← throw_if (negb (is_number_integer value)) (runtime_error (path +:+ kind));
  _ ← throw_if (get_i64 value <? 0) (runtime_error (path +:+ " cannot be negative."));
  Ok (get_u64 value).
Definition required_pid (value : json) (path : string) : result Z :=
  pid ← unsigned_value value " must be an unsigned integer." path;
  _ ← throw_if (u32_max <? pid) (runtime_error (path +:+ " exceeds the Windows PID range."));
  Ok pid.
Definition optional_pid (value : json) (path : string) : result (option Z) :=
  if is_null value then Ok None else Some <$> required_pid value path.
Definition optional_port (value : json) (path : string) : result (option Z) :=
  if is_null value then Ok None
  else
    port ← unsigned_value value " must be an integer or null." path;
    _ ← throw_if (65535 <? port) (runtime_error (path +:+ " exceeds the TCP/UDP port range."));
    Ok (Some port).
Definition optional_uint64 (value : json) (path : string) : result (option Z) :=
  if is_null value then Ok None
  else Some <$> unsigned_value value " must be an integer or null." path.
Definition optional_bool (value : json) (path : string) : result (option bool) :=
  match value with
  | JNull => Ok None
  | JBool b => Ok (Some b)
  | _ => Throw (runtime_error (path +:+ " must be a boolean or null."))
  end.
Definition parse_hash (parent : json) (path : string) : result ProcessHashMetadata :=
  hash ← at_ "hash" parent;
  _ ← require_exact_keys hash ["sha256"] path;
  s ← optional_string hash "sha256" path;
  Ok {| sha256 := s |}.

(** ** Reading: patterns and vocabularies *)
(** [^prefix[0-9a-f]{64}$] *)
Definition hex_id_pattern (prefix : string) (s : string) : bool :=
  starts_with prefix s && (slen s =? slen prefix + 64)
  && str_forallb is_lower_hex (str_drop (String.length prefix) s).
Definition event_id_pattern : string -> bool := hex_id_pattern "evt_".
Definition entity_id_pattern : string -> bool := hex_id_pattern "proc_".
Definition sha256_pattern : string -> bool := hex_id_pattern "".
(** [^dddd-dd-ddTdd:dd:dd.dddZ$]: [d] stands for a decimal digit *)
Fixpoint matches (shape s : string) : bool :=
  match shape, s with
  | "", "" => true
  | String p shape, String c s =>
      (if Ascii.eqb p "d" then is_digit c else Ascii.eqb p c) && matches shape s
  | _, _ => false
  end.
Definition timestamp_pattern : string -> bool := matches "dddd-dd-ddTdd:dd:dd.dddZ".
Definition require_pattern (value : string) (pattern : string -> bool) (field_name : string) : result unit :=
  throw_if (negb (pattern value)) (runtime_error (field_name +:+ " has an invalid format.")).
Definition require_opt_pattern (value : option string) (pattern : string -> bool) (field_name : string)
  : result unit :=
  match value with Some v => require_pattern v pattern field_name | None => Ok tt end.

Definition one_of (l : list string) (s : string) : bool := existsb (String.eqb s) l.
Definition is_network_type : string -> bool := one_of ["connect"].
Definition is_file_type : string -> bool :=
  one_of ["create"; "delete"; "rename"; "open"; "write"; "set_information"; "overwrite"].
Definition is_registry_type : string -> bool :=
  one_of ["add_key"; "delete_key"; "set_value"; "rename_key"].
Definition is_image_load_type : string -> bool := one_of ["load"].

(** ** Reading: blocks *)
Definition parse_event_block (root : json) : result EventMetadata :=
  event ← at_ "event" root;
  _ ← require_exact_keys event ["id"; "category"; "type"; "timestamp"] "$.event";
  id ← required_string event "id" "$.event";
  category ← required_string event "category" "$.event";
  type ← required_string event "type" "$.event";
  timestamp ← required_string event "timestamp" "$.event";
  Ok {| em_id := id; em_category := category; em_type := type; em_timestamp := timestamp |}.

Definition count_true (l : list bool) : Z := zsum (fun b : bool => if b then 1 else 0) l.
Definition check_family (category type : string) (root : json) : result unit :=
  let has_network := contains "network" root in
  let has_file := contains "file" root in
  let has_registry := contains "registry" root in
  let has_image_load := contains "image_load" root in
  let family_blocks := count_true [has_network; has_file; has_registry; has_image_load] in
  let family ok bad has wrong :=
    _ ← throw_if (negb (ok type)) (runtime_error bad);
    throw_if (negb has || negb (family_blocks =? 1)) (runtime_error wrong) in
  if String.eqb category "process" then
    _ ← throw_if (negb (String.eqb type "start"))
          (runtime_error "A process event must be of type 'start'.");
    throw_if (negb (family_blocks =? 0))
      (runtime_error "A process event must not carry a telemetry-family block.")
  else if String.eqb category "network" then
    family is_network_type "Unsupported network event type." has_network
      "A network event must carry exactly the network block."
  else if String.eqb category "file" then
    family is_file_type "Unsupported file event type." has_file
      "A file event must carry exactly the file block."
  else if String.eqb category "registry" then
    family is_registry_type "Unsupported registry event type." has_registry
      "A registry event must carry exactly the registry block."
  else if String.eqb category "image_load" then
    family is_image_load_type "Unsupported image_load event type." has_image_load
      "An image_load event must carry exactly the image_load block."
  else Throw (runtime_error "$.event.category is not a supported telemetry category.").

Definition supported_kind : string -> bool :=
  one_of ["etw"; "sysmon"; "windows_event_log"; "minifilter"; "api_hook"; "etw_kernel"].
Definition parse_source_block (root : json) : result SourceMetadata :=
  source ← at_ "source" root;
  _ ← require_exact_keys source ["kind"; "provider"; "channel"; "record_id"] "$.source";
  kind ← required_string source "kind" "$.source";
  provider ← required_string source "provider" "$.source";
  channel ← optional_string source "channel" "$.source";
  record ← at_ "record_id" source;
  record_id ← (if is_null record then Ok None
               else if is_number_unsigned record then Ok (Some (get_u64 record))
               else Throw (runtime_error "$.source.record_id must be an unsigned integer or null."));
  _ ← throw_if (negb (supported_kind kind))
        (runtime_error "$.source.kind is not a supported telemetry source.");
  Ok {| sm_kind := kind; sm_provider := provider; sm_channel := channel; sm_record_id := record_id |}.

Definition parse_agent_block (root : json) : result AgentMetadata :=
  agent ← at_ "agent" root;
  _ ← require_exact_keys agent ["id"; "version"] "$.agent";
  id ← required_string agent "id" "$.agent";
  version ← required_string agent "version" "$.agent";
  Ok {| am_id := id; am_version := version |}.

Definition parse_host_block (root : json) : result HostMetadata :=
  host ← at_ "host" root;
  _ ← require_exact_keys host ["id"; "hostname"; "os"] "$.host";
  os ← at_ "os" host;
  _ ← require_exact_keys os ["name"; "build"] "$.host.os";
  id ← required_string host "id" "$.host";
  hostname ← required_string host "hostname" "$.host";
  name ← required_string os "name" "$.host.os";
  build ← required_string os "build" "$.host.os";
  Ok {| hm_id := id; hm_hostname := hostname; hm_os := {| os_name := name; os_build := build |} |}.

Definition parse_user_block (root : json) : result UserMetadata :=
  user ← at_ "user" root;
  _ ← require_exact_keys user ["name"; "domain"; "sid"] "$.user";
  name ← optional_string user "name" "$.user";
  domain ← optional_string user "domain" "$.user";
  sid ← optional_string user "sid" "$.user";
  Ok {| um_name := name; um_domain := domain; um_sid := sid |}.

Definition parse_process_block (root : json) : result ProcessMetadata :=
  process ← at_ "process" root;
  _ ← require_exact_keys process
        ["entity_id"; "pid"; "name"; "executable"; "command_line"; "parent"; "hash"; "start_time_ticks"]
        "$.process";
  parent ← at_ "parent" process;
  _ ← require_exact_keys parent ["entity_id"; "pid"; "name"] "$.process.parent";
  entity_id ← required_string process "entity_id" "$.process";
  pid_value ← at_ "pid" process;
  pid ← required_pid pid_value "$.process.pid";
  name ← optional_string process "name" "$.process";
  executable ← optional_string process "executable" "$.process";
  command_line ← optional_string process "command_line" "$.process";
  parent_entity_id ← optional_string parent "entity_id" "$.process.parent";
  parent_pid_value ← at_ "pid" parent;
  parent_pid ← optional_pid parent_pid_value "$.process.parent.pid";
  parent_name ← optional_string parent "name" "$.process.parent";
  hash ← parse_hash process "$.process.hash";
  ticks_value ← at_ "start_time_ticks" process;
  ticks ← optional_uint64 ticks_value "$.process.start_time_ticks";
  Ok {| pm_entity_id := entity_id; pm_pid := pid; pm_name := name; pm_executable := executable;
        pm_command_line := command_line;
        pm_parent := {| pp_entity_id := parent_entity_id; pp_pid := parent_pid; pp_name := parent_name |};
        pm_hash := hash; pm_start_time_ticks := ticks |}.

Definition parse_network_block (n : json) : result NetworkMetadata :=
  _ ← require_exact_keys n
        ["direction"; "protocol"; "source_ip"; "source_port"; "destination_ip"; "destination_port";
         "destination_hostname"] "$.network";
  direction ← required_string n "direction" "$.network";
  _ ← throw_if (negb (one_of ["inbound"; "outbound"] direction))
        (runtime_error "$.network.direction must be 'inbound' or 'outbound'.");
  protocol ← optional_string n "protocol" "$.network";
  _ ← throw_if (match protocol with Some p => negb (one_of ["tcp"; "udp"] p) | None => false end)
        (runtime_error "$.network.protocol must be 'tcp', 'udp' or null.");
  source_ip ← optional_string n "source_ip" "$.network";
  source_port_value ← at_ "source_port" n;
  source_port ← optional_port source_port_value "$.network.source_port";
  destination_ip ← optional_string n "destination_ip" "$.network";
  destination_port_value ← at_ "destination_port" n;
  destination_port ← optional_port destination_port_value "$.network.destination_port";
  destination_hostname ← optional_string n "destination_hostname" "$.network";
  Ok {| nm_direction := direction; nm_protocol := protocol; nm_source_ip := source_ip;
        nm_source_port := source_port; nm_destination_ip := destination_ip;
        nm_destination_port := destination_port; nm_destination_hostname := destination_hostname |}.

Definition parse_file_block (f : json) : result FileMetadata :=
  _ ← require_exact_keys f ["operation"; "path"; "target_path"; "previous_path"; "hash"] "$.file";
  operation ← required_string f "operation" "$.file";
  _ ← throw_if (negb (is_file_type operation))
        (runtime_error "$.file.operation is not a supported file operation.");
  path ← optional_string f "path" "$.file";
  target_path ← optional_string f "target_path" "$.file";
  previous_path ← optional_string f "previous_path" "$.file";
  hash ← parse_hash f "$.file.hash";
  Ok {| fm_operation := operation; fm_path := path; fm_target_path := target_path;
        fm_previous_path := previous_path; fm_hash := hash |}.

Definition parse_registry_block (r : json) : result RegistryMetadata :=
  _ ← require_exact_keys r ["operation"; "key_path"; "value_name"; "value_type"; "value_data"] "$.registry";
  operation ← required_string r "operation" "$.registry";
  _ ← throw_if (negb (is_registry_type operation))
        (runtime_error "$.registry.operation is not a supported registry operation.");
  key_path ← optional_string r "key_path" "$.registry";
  value_name ← optional_string r "value_name" "$.registry";
  value_type ← optional_string r "value_type" "$.registry";
  value_data ← optional_string r "value_data" "$.registry";
  Ok {| rm_operation := operation; rm_key_path := key_path; rm_value_name := value_name;
        rm_value_type := value_type; rm_value_data := value_data |}.

Definition parse_image_load_block (im : json) : result ImageLoadMetadata :=
  _ ← require_exact_keys im ["path"; "is_signed"; "signature_status"; "hash"] "$.image_load";
  path ← optional_string im "path" "$.image_load";
  signed_value ← at_ "is_signed" im;
  is_signed ← optional_bool signed_value "$.image_load.is_signed";
  signature_status ← optional_string im "signature_status" "$.image_load";
  hash ← parse_hash im "$.image_load.hash";
  Ok {| im_path := path; im_is_signed := is_signed; im_signature_status := signature_status;
        im_hash := hash |}.

(** [if (root.contains(k)) result = parse(root.at(k));] *)
Definition parse_if {A} (k : string) (parse : json -> result A) (root : json) : result (option A) :=
  if contains k root then (block ← at_ k root; Some <$> parse block) else Ok None.

Definition check_patterns (e : PanopticonEvent) : result unit :=
  _ ← require_pattern (em_id (event e)) event_id_pattern "$.event.id";
  _ ← require_pattern (em_timestamp (event e)) timestamp_pattern "$.event.timestamp";
  _ ← require_pattern (pm_entity_id (process e)) entity_id_pattern "$.process.entity_id";
  _ ← require_opt_pattern (pp_entity_id (pm_parent (process e))) entity_id_pattern
        "$.process.parent.entity_id";
  _ ← require_opt_pattern (sha256 (pm_hash (process e))) sha256_pattern "$.process.hash.sha256";
  _ ← require_opt_pattern (f ← file e; sha256 (fm_hash f)) sha256_pattern "$.file.hash.sha256";
  require_opt_pattern (i ← image_load e; sha256 (im_hash i)) sha256_pattern "$.image_load.hash.sha256".

(** the body of [deserialize_event] after parsing the text *)
Definition parse_event (root : json) : result PanopticonEvent :=
  _ ← require_only_keys root
        ["schema_version"; "event"; "source"; "agent"; "host"; "user"; "process"]
        ["network"; "file"; "registry"; "image_load"] "$";
  version ← required_string root "schema_version" "$";
  _ ← throw_if (negb (one_of ["0.2"; "0.3"] version))
        (runtime_error "$.schema_version is not supported by this agent.");
  event ← parse_event_block root;
  _ ← check_family (em_category event) (em_type event) root;
  source ← parse_source_block root;
  agent ← parse_agent_block root;
  host ← parse_host_block root;
  user ← parse_user_block root;
  process ← parse_process_block root;
  network ← parse_if "network" parse_network_block root;
  file ← parse_if "file" parse_file_block root;
  registry ← parse_if "registry" parse_registry_block root;
  image_load ← parse_if "image_load" parse_image_load_block root;
  let e := {| schema_version := version; event := event; source := source; agent := agent;
              host := host; user := user; process := process; network := network; file := file;
              registry := registry; image_load := image_load |} in
  _ ← check_patterns e;
  Ok e.

(** ** Text *)
Section Text.
Context (json_parse : string -> result json) (dump : json -> result string).
Definition serialize_event (e : PanopticonEvent) : result string := dump (event_to_json e).
(** the event, or the message of the exception *)
Definition deserialize_event (json_text : string) : string + PanopticonEvent :=
  match (root ← json_parse json_text; parse_event root) with
  | Ok e => inr e
  | Throw x => inl (what x)
  end.
End Text.
