(* ===== verification/SerializerFacts.v ===== *)
(** * The event reader and writer agree

    Every well-formed event survives writing and reading, the reader accepts
    well-formed events only, and an accepted document is the one the writer
    produces, up to the representation of non-negative integers. *)

From stdpp Require Import sorting.
From S2P Require Import Prelude Json Serializer.

(** ** Well-formed events *)
Definition opt_ok {A} (p : A -> bool) (o : option A) : bool :=
  match o with Some a => p a | None => true end.
Definition nonempty (s : string) : bool := negb (str_empty s).
Definition up_to (bound z : Z) : bool := (0 <=? z) && (z <=? bound).
Definition absent {A} (o : option A) : bool := match o with Some _ => false | None => true end.

Definition family_ok (e : PanopticonEvent) : bool :=
  let c := em_category (event e) in
  let t := em_type (event e) in
  let only n f r i := Bool.eqb (absent (network e)) (negb n) && Bool.eqb (absent (file e)) (negb f)
    && Bool.eqb (absent (registry e)) (negb r) && Bool.eqb (absent (image_load e)) (negb i) in
  (String.eqb c "process" && String.eqb t "start" && only false false false false)
  || (String.eqb c "network" && is_network_type t && only true false false false)
  || (String.eqb c "file" && is_file_type t && only false true false false)
  || (String.eqb c "registry" && is_registry_type t && only false false true false)
  || (String.eqb c "image_load" && is_image_load_type t && only false false false true).

Definition hash_ok (h : ProcessHashMetadata) : bool := opt_ok sha256_pattern (sha256 h).
Definition source_ok (s : SourceMetadata) : bool :=
  supported_kind (sm_kind s) && nonempty (sm_provider s) && opt_ok nonempty (sm_channel s)
  && opt_ok (up_to u64_max) (sm_record_id s).
Definition host_ok (h : HostMetadata) : bool :=
  nonempty (hm_id h) && nonempty (hm_hostname h) && nonempty (os_name (hm_os h))
  && nonempty (os_build (hm_os h)).
Definition agent_ok (a : AgentMetadata) : bool := nonempty (am_id a) && nonempty (am_version a).
Definition user_ok (u : UserMetadata) : bool :=
  opt_ok nonempty (um_name u) && opt_ok nonempty (um_domain u) && opt_ok nonempty (um_sid u).
Definition parent_ok (p : ParentProcessMetadata) : bool :=
  opt_ok entity_id_pattern (pp_entity_id p) && opt_ok (up_to u32_max) (pp_pid p)
  && opt_ok nonempty (pp_name p).
Definition process_ok (p : ProcessMetadata) : bool :=
  entity_id_pattern (pm_entity_id p) && up_to u32_max (pm_pid p) && opt_ok nonempty (pm_name p)
  && opt_ok nonempty (pm_executable p) && opt_ok nonempty (pm_command_line p)
  && parent_ok (pm_parent p) && hash_ok (pm_hash p)
  && opt_ok (up_to i64_max) (pm_start_time_ticks p).
Definition network_ok (n : NetworkMetadata) : bool :=
  one_of ["inbound"; "outbound"] (nm_direction n) && opt_ok (one_of ["tcp"; "udp"]) (nm_protocol n)
  && opt_ok nonempty (nm_source_ip n) && opt_ok (up_to 65535) (nm_source_port n)
  && opt_ok nonempty (nm_destination_ip n) && opt_ok (up_to 65535) (nm_destination_port n)
  && opt_ok nonempty (nm_destination_hostname n).
Definition file_ok (f : FileMetadata) : bool :=
  is_file_type (fm_operation f) && opt_ok nonempty (fm_path f) && opt_ok nonempty (fm_target_path f)
  && opt_ok nonempty (fm_previous_path f) && hash_ok (fm_hash f).
Definition registry_ok (r : RegistryMetadata) : bool :=
  is_registry_type (rm_operation r) && opt_ok nonempty (rm_key_path r)
  && opt_ok nonempty (rm_value_name r) && opt_ok nonempty (rm_value_type r)
  && opt_ok nonempty (rm_value_data r).
Definition image_load_ok (i : ImageLoadMetadata) : bool :=
  opt_ok nonempty (im_path i) && opt_ok nonempty (im_signature_status i) && hash_ok (im_hash i).
Definition well_formed (e : PanopticonEvent) : bool :=
  one_of ["0.2"; "0.3"] (schema_version e)
  && event_id_pattern (em_id (event e)) && timestamp_pattern (em_timestamp (event e))
  && family_ok e && source_ok (source e) && agent_ok (agent e) && host_ok (host e)
  && user_ok (user e) && process_ok (process e) && opt_ok network_ok (network e)
  && opt_ok file_ok (file e) && opt_ok registry_ok (registry e) && opt_ok image_load_ok (image_load e).

(** ** Fields *)
Lemma required_string_iff o k p s :
  required_string o k p = Ok s <-> find k o = Some (JStr s) /\ nonempty s = true.
Proof.
  unfold required_string, nonempty. rewrite <- at_Ok. destruct (at_ k o) as [v|]; simpl; [|naive_solver].
  destruct v as [| | | | |t| |]; try naive_solver. destruct (str_empty t) eqn:E; split.
  - done.
  - intros [[= ->] H]. by rewrite E in H.
  - intros [= ->]. by rewrite E.
  - by intros [[= ->] _].
Qed.
Lemma optional_string_iff o k p v :
  optional_string o k p = Ok v <-> find k o = Some (nullable_string v) /\ opt_ok nonempty v = true.
Proof.
  unfold optional_string, nonempty. rewrite <- at_Ok. destruct (at_ k o) as [j|]; simpl; [|naive_solver].
  destruct v as [s|]; destruct j as [| | | | |t| |]; simpl; try naive_solver;
    destruct (str_empty t) eqn:E; split; try done.
  - intros [[= ->] H]. by rewrite E in H.
  - intros [= ->]. by rewrite E.
  - by intros [[= ->] _].
  - by intros [[=] _].
  - by intros [[=] _].
Qed.
Lemma unsigned_value_inv v kd p n :
  unsigned_value v kd p = Ok n -> is_number_integer v = true /\ n = get_u64 v /\ 0 <= n <= i64_max.
Proof.
  unfold unsigned_value. intros H. apply bind_Ok in H as ([] & H1 & H). apply throw_if_Ok in H1.
  apply bind_Ok in H as ([] & H2 & [= <-]). apply throw_if_Ok in H2.
  destruct (is_number_integer v) eqn:E; [|done]. split; [done|]. split; [done|].
  assert (get_u64 v = u64 (get_u64 v) /\ get_i64 v = i64 (get_u64 v)) as [E1 E2].
  { unfold i64. destruct v; simpl; try done; unfold i64, u64; rewrite Zmod_mod; done. }
  pose proof (u64_range (get_u64 v)) as R. rewrite <- E1 in R.
  rewrite E2 in H2. unfold i64 in H2. rewrite <- E1 in H2.
  destruct (Z.leb_spec (get_u64 v) i64_max); unfold u64_max in *; lia.
Qed.
Lemma unsigned_value_Ok n kd p : 0 <= n <= i64_max -> unsigned_value (JUint n) kd p = Ok n.
Proof.
  intros H. unfold unsigned_value. cbn [is_number_integer negb throw_if mbind result_bind get_i64 get_u64].
  unfold i64. rewrite u64_small by (unfold i64_max, u64_max in *; lia).
  rewrite (proj2 (Z.leb_le n i64_max)) by lia. by rewrite (proj2 (Z.ltb_ge n 0)) by lia.
Qed.
Lemma up_to_iff b z : up_to b z = true <-> 0 <= z <= b.
Proof. unfold up_to. rewrite andb_true_iff, !Z.leb_le. done. Qed.
Lemma required_pid_inv v p n : required_pid v p = Ok n ->
  up_to u32_max n = true /\ is_number_integer v = true /\ n = get_u64 v.
Proof.
  unfold required_pid. intros H. apply bind_Ok in H as (m & Hm & H). apply unsigned_value_inv in Hm as (? & ? & ?).
  apply bind_Ok in H as ([] & Ht & [= <-]). apply throw_if_Ok in Ht. rewrite up_to_iff. split; [|done]. lia.
Qed.
Lemma required_pid_Ok n p : up_to u32_max n = true -> required_pid (JUint n) p = Ok n.
Proof.
  rewrite up_to_iff. intros H. unfold required_pid.
  rewrite unsigned_value_Ok by (unfold u32_max, i64_max in *; lia). simpl.
  by rewrite (proj2 (Z.ltb_ge u32_max n)) by lia.
Qed.
Lemma optional_pid_Ok v p : opt_ok (up_to u32_max) v = true -> optional_pid (opt_json JUint v) p = Ok v.
Proof. destruct v as [n|]; [|done]. simpl. intros H. unfold optional_pid. simpl. by rewrite required_pid_Ok. Qed.
Lemma optional_port_Ok v p : opt_ok (up_to 65535) v = true -> optional_port (nullable_uint v) p = Ok v.
Proof.
  destruct v as [n|]; [|done]. simpl. rewrite up_to_iff. intros H. unfold optional_port. simpl is_null. cbn iota.
  rewrite unsigned_value_Ok by (unfold i64_max; lia). cbn [mbind result_bind].
  by rewrite (proj2 (Z.ltb_ge 65535 n)) by lia.
Qed.
Lemma optional_uint64_Ok v p :
  opt_ok (up_to i64_max) v = true -> optional_uint64 (nullable_uint64 v) p = Ok v.
Proof.
  destruct v as [n|]; [|done]. simpl. rewrite up_to_iff. intros H. unfold optional_uint64. simpl is_null. cbn iota.
  by rewrite unsigned_value_Ok.
Qed.
Lemma optional_bool_Ok v p : optional_bool (nullable_bool v) p = Ok v.
Proof. by destruct v. Qed.

(** ** Patterns exclude the empty string *)
Lemma hex_id_nonempty p s : hex_id_pattern p s = true -> nonempty s = true.
Proof.
  unfold hex_id_pattern. rewrite !andb_true_iff. intros [[_ H%Z.eqb_eq] _]. destruct s; [|done].
  unfold slen in H. cbn [String.length] in H. lia.
Qed.
Lemma one_of_elem l s : one_of l s = true <-> s ∈ l.
Proof.
  unfold one_of. rewrite existsb_exists. setoid_rewrite list_elem_of_In. setoid_rewrite String.eqb_eq. naive_solver.
Qed.
Lemma one_of_nonempty l s : forallb nonempty l = true -> one_of l s = true -> nonempty s = true.
Proof. rewrite one_of_elem, forallb_forall. intros H Hs. apply H. by apply list_elem_of_In. Qed.
Lemma timestamp_nonempty s : timestamp_pattern s = true -> nonempty s = true.
Proof. by destruct s. Qed.
Lemma opt_ok_mono {A} (p q : A -> bool) o :
  (forall a, p a = true -> q a = true) -> opt_ok p o = true -> opt_ok q o = true.
Proof. destruct o; simpl; auto. Qed.
Lemma opt_hex_nonempty p o : opt_ok (hex_id_pattern p) o = true -> opt_ok nonempty o = true.
Proof. apply opt_ok_mono, hex_id_nonempty. Qed.
Lemma opt_one_of_nonempty l o :
  forallb nonempty l = true -> opt_ok (one_of l) o = true -> opt_ok nonempty o = true.
Proof. intros H. by apply opt_ok_mono, (fun s => one_of_nonempty l s H). Qed.
Lemma opt_ok_negb {A} (p : A -> bool) o :
  opt_ok p o = true <-> match o with Some a => negb (p a) | None => false end = false.
Proof. destruct o; simpl; [|done]. by rewrite negb_false_iff. Qed.

Ltac ok_split := repeat match goal with
  | H : _ && _ = true |- _ => apply andb_true_iff in H as [? ?]
  end.
Ltac rewrite_ok := repeat match goal with H : _ = true |- _ => rewrite H; clear H end; done.
(** the side condition of a field: it is not empty *)
Ltac field_ok := first [ eassumption | eapply hex_id_nonempty; eassumption
  | eapply timestamp_nonempty; eassumption | eapply opt_hex_nonempty; eassumption
  | eapply one_of_nonempty; [|eassumption]; reflexivity
  | eapply opt_one_of_nonempty; [|eassumption]; reflexivity ].
(** evaluate the first reading step of the goal on a written block *)
Ltac read_step := first
  [ match goal with |- context [require_exact_keys ?o ?ks ?p] =>
      rewrite (eq_refl : require_exact_keys o ks p = Ok tt) end
  | erewrite (proj2 (required_string_iff _ _ _ _)) by (split; [reflexivity|field_ok])
  | erewrite (proj2 (optional_string_iff _ _ _ _)) by (split; [reflexivity|field_ok])
  | erewrite at_find by (first [eassumption | reflexivity])
  | rewrite required_pid_Ok by assumption | rewrite optional_pid_Ok by assumption
  | rewrite optional_port_Ok by assumption | rewrite optional_uint64_Ok by assumption
  | rewrite optional_bool_Ok ]; cbn [mbind result_bind snd].

Lemma hash_roundtrip j h p :
  find "hash" j = Some (hash_object h) -> hash_ok h = true -> parse_hash j p = Ok h.
Proof. unfold hash_ok. intros Hf H. unfold parse_hash. repeat read_step. by destruct h. Qed.
Lemma agent_roundtrip root a :
  find "agent" root = Some (agent_block a) -> agent_ok a = true -> parse_agent_block root = Ok a.
Proof.
  unfold agent_ok. intros Hf H. ok_split. unfold parse_agent_block. repeat read_step. by destruct a.
Qed.
Lemma host_roundtrip root h :
  find "host" root = Some (host_block h) -> host_ok h = true -> parse_host_block root = Ok h.
Proof.
  unfold host_ok. intros Hf H. ok_split. unfold parse_host_block. repeat read_step. by destruct h as [? ? []].
Qed.
Lemma user_roundtrip root u :
  find "user" root = Some (user_block u) -> user_ok u = true -> parse_user_block root = Ok u.
Proof.
  unfold user_ok. intros Hf H. ok_split. unfold parse_user_block. repeat read_step. by destruct u.
Qed.
Lemma source_roundtrip root s :
  find "source" root = Some (source_block s) -> source_ok s = true -> parse_source_block root = Ok s.
Proof.
  unfold source_ok, supported_kind. intros Hf H. ok_split. unfold parse_source_block. repeat read_step.
  unfold supported_kind. match goal with H : one_of _ (sm_kind s) = true |- _ => rewrite H; clear H end.
  destruct s as [kd pr ch [n|]]; simpl in *; [|done].
  match goal with H : up_to u64_max n = true |- _ => apply up_to_iff in H end.
  by rewrite u64_small.
Qed.
Lemma process_roundtrip root p :
  find "process" root = Some (process_block p) -> process_ok p = true -> parse_process_block root = Ok p.
Proof.
  unfold process_ok, parent_ok, entity_id_pattern. intros Hf H. ok_split. unfold parse_process_block.
  repeat read_step. erewrite hash_roundtrip by (first [reflexivity | assumption]). cbn [mbind result_bind].
  repeat read_step. by destruct p as [? ? ? ? ? [] [] ?].
Qed.
Lemma network_roundtrip n : network_ok n = true -> parse_network_block (network_block n) = Ok n.
Proof.
  unfold network_ok. intros H. ok_split. unfold parse_network_block. repeat read_step.
  match goal with H : one_of _ (nm_direction n) = true |- _ => rewrite H end. cbn [negb throw_if mbind result_bind].
  repeat read_step.
  rewrite (proj1 (opt_ok_negb _ _)) by eassumption.
  cbn [throw_if mbind result_bind]. repeat read_step. by destruct n.
Qed.
Lemma file_roundtrip f : file_ok f = true -> parse_file_block (file_block f) = Ok f.
Proof.
  unfold file_ok, is_file_type. intros H. ok_split. unfold parse_file_block, is_file_type. repeat read_step.
  match goal with H : one_of _ (fm_operation f) = true |- _ => rewrite H end. cbn [negb throw_if mbind result_bind].
  repeat read_step. erewrite hash_roundtrip by (first [reflexivity | assumption]). by destruct f.
Qed.
Lemma registry_roundtrip r : registry_ok r = true -> parse_registry_block (registry_block r) = Ok r.
Proof.
  unfold registry_ok, is_registry_type. intros H. ok_split. unfold parse_registry_block, is_registry_type.
  repeat read_step.
  match goal with H : one_of _ (rm_operation r) = true |- _ => rewrite H end. cbn [negb throw_if mbind result_bind].
  repeat read_step. by destruct r.
Qed.
Lemma image_load_roundtrip i : image_load_ok i = true -> parse_image_load_block (image_load_block i) = Ok i.
Proof.
  unfold image_load_ok. intros H. ok_split. unfold parse_image_load_block. repeat read_step.
  erewrite hash_roundtrip by (first [reflexivity | assumption]). by destruct i.
Qed.

(** ** Reading what was written *)
Lemma event_block_roundtrip root e :
  find "event" root = Some (event_block e) ->
  nonempty (em_id e) = true -> nonempty (em_category e) = true -> nonempty (em_type e) = true ->
  nonempty (em_timestamp e) = true -> parse_event_block root = Ok e.
Proof. intros Hf H1 H2 H3 H4. unfold parse_event_block. repeat read_step. by destruct e. Qed.

Lemma family_cases e : family_ok e = true ->
  let c := em_category (event e) in let t := em_type (event e) in
  (c = "process" /\ t = "start" /\
     network e = None /\ file e = None /\ registry e = None /\ image_load e = None) \/
  (c = "network" /\ is_network_type t = true /\
     is_Some (network e) /\ file e = None /\ registry e = None /\ image_load e = None) \/
  (c = "file" /\ is_file_type t = true /\
     network e = None /\ is_Some (file e) /\ registry e = None /\ image_load e = None) \/
  (c = "registry" /\ is_registry_type t = true /\
     network e = None /\ file e = None /\ is_Some (registry e) /\ image_load e = None) \/
  (c = "image_load" /\ is_image_load_type t = true /\
     network e = None /\ file e = None /\ registry e = None /\ is_Some (image_load e)).
Proof.
  unfold family_ok, is_Some. rewrite !orb_true_iff, !andb_true_iff, !String.eqb_eq.
  destruct (network e), (file e), (registry e), (image_load e); simpl; naive_solver.
Qed.
Lemma family_nonempty e : family_ok e = true ->
  nonempty (em_category (event e)) = true /\ nonempty (em_type (event e)) = true.
Proof.
  intros H. apply family_cases in H.
  destruct H as [(-> & -> & _)|[(-> & H & _)|[(-> & H & _)|[(-> & H & _)|(-> & H & _)]]]]; split; try done;
    by eapply one_of_nonempty; [|exact H].
Qed.
Lemma check_patterns_iff e : check_patterns e = Ok tt <->
  event_id_pattern (em_id (event e)) = true /\ timestamp_pattern (em_timestamp (event e)) = true /\
  entity_id_pattern (pm_entity_id (process e)) = true /\
  opt_ok entity_id_pattern (pp_entity_id (pm_parent (process e))) = true /\
  hash_ok (pm_hash (process e)) = true /\
  opt_ok (fun f => hash_ok (fm_hash f)) (file e) = true /\
  opt_ok (fun i => hash_ok (im_hash i)) (image_load e) = true.
Proof.
  assert (P : forall v p f, require_pattern v p f = Ok tt <-> p v = true).
  { intros v p f. unfold require_pattern. by destruct (p v). }
  assert (O : forall v p f, require_opt_pattern v p f = Ok tt <-> opt_ok p v = true).
  { intros [v|] p f; [apply P|done]. }
  assert (B : forall r (k : result unit), (_ ← r; k) = Ok tt <-> r = Ok tt /\ k = Ok tt).
  { intros [[]|x] k; simpl; naive_solver. }
  unfold check_patterns. rewrite !B, !P, !O. unfold hash_ok.
  destruct (file e), (image_load e); done.
Qed.

Ltac by_blocks e H := destruct (family_cases e H) as
  [(Hcat & Htyp & Hn & Hf & Hr & Hi)|[(Hcat & Htyp & [n Hn] & Hf & Hr & Hi)|
   [(Hcat & Htyp & Hn & [f Hf] & Hr & Hi)|[(Hcat & Htyp & Hn & Hf & [r Hr] & Hi)|
    (Hcat & Htyp & Hn & Hf & Hr & [i Hi])]]]];
  destruct e as [ver ev src ag ho us pr nw fi rg il]; cbn [event network file registry image_load] in *;
  subst nw fi rg il.

(** the members of a written event *)
Lemma root_members e : family_ok e = true ->
  let root := event_to_json e in
  require_only_keys root ["schema_version"; "event"; "source"; "agent"; "host"; "user"; "process"]
    ["network"; "file"; "registry"; "image_load"] "$" = Ok tt /\
  find "schema_version" root = Some (JStr (schema_version e)) /\
  find "event" root = Some (event_block (event e)) /\ find "source" root = Some (source_block (source e)) /\
  find "agent" root = Some (agent_block (agent e)) /\ find "host" root = Some (host_block (host e)) /\
  find "user" root = Some (user_block (user e)) /\ find "process" root = Some (process_block (process e)) /\
  find "network" root = network_block <$> network e /\ find "file" root = file_block <$> file e /\
  find "registry" root = registry_block <$> registry e /\
  find "image_load" root = image_load_block <$> image_load e.
Proof. intros H. by_blocks e H; repeat split. Qed.
Lemma check_family_Ok e : family_ok e = true ->
  check_family (em_category (event e)) (em_type (event e)) (event_to_json e) = Ok tt.
Proof.
  intros H. by_blocks e H; rewrite Hcat; unfold check_family;
    repeat match goal with |- context [String.eqb (String ?a ?b) ?s] =>
      let v := eval vm_compute in (String.eqb (String a b) s) in change (String.eqb (String a b) s) with v end;
    cbn iota; rewrite Htyp; reflexivity.
Qed.
Lemma parse_if_Some {A} k (parse : json -> result A) root b j :
  find k root = Some j -> parse j = Ok b -> parse_if k parse root = Ok (Some b).
Proof.
  intros Hf Hp. unfold parse_if, contains. rewrite Hf. rewrite (at_find k root j Hf). cbn [mbind result_bind].
  by rewrite Hp.
Qed.
Lemma parse_if_opt {A} k (parse : json -> result A) (write : A -> json) (ok : A -> bool) root o :
  find k root = write <$> o -> opt_ok ok o = true ->
  (forall b, ok b = true -> parse (write b) = Ok b) -> parse_if k parse root = Ok o.
Proof.
  intros Hf Ho Hp. destruct o as [b|].
  - eapply parse_if_Some; [exact Hf|]. by apply Hp.
  - unfold parse_if, contains. by rewrite Hf.
Qed.
Lemma parse_event_to_json e : well_formed e = true -> parse_event (event_to_json e) = Ok e.
Proof.
  unfold well_formed. intros H. ok_split.
  match goal with H : family_ok e = true |- _ => pose proof (root_members e H) as
      (Hk & Hv & He & Hs & Ha & Hh & Hu & Hp & Hn & Hf & Hr & Hi);
    pose proof (check_family_Ok e H) as Hfam; destruct (family_nonempty e H) as [Hc Ht] end.
  assert (Hpat : check_patterns e = Ok tt).
  { apply check_patterns_iff. unfold process_ok, parent_ok, hash_ok in *. ok_split.
    repeat split; try assumption; eapply opt_ok_mono; try eassumption.
    - intros f. unfold file_ok. rewrite !andb_true_iff. by intros [_ ?].
    - intros i. unfold image_load_ok. rewrite !andb_true_iff. by intros [_ ?]. }
  unfold parse_event. rewrite Hk. cbn [mbind result_bind].
  erewrite (proj2 (required_string_iff _ _ _ _)) by (split; [exact Hv|field_ok]). cbn [mbind result_bind].
  match goal with H : one_of _ (schema_version e) = true |- _ => rewrite H end. cbn [negb throw_if mbind result_bind].
  rewrite (event_block_roundtrip _ _ He) by (first [assumption | field_ok]). cbn [mbind result_bind]. rewrite Hfam. cbn [mbind result_bind].
  rewrite (source_roundtrip _ _ Hs), (agent_roundtrip _ _ Ha), (host_roundtrip _ _ Hh), (user_roundtrip _ _ Hu),
    (process_roundtrip _ _ Hp) by assumption. cbn [mbind result_bind].
  erewrite (parse_if_opt _ _ _ network_ok) by (first [eassumption | exact network_roundtrip]).
  erewrite (parse_if_opt _ _ _ file_ok) by (first [eassumption | exact file_roundtrip]).
  erewrite (parse_if_opt _ _ _ registry_ok) by (first [eassumption | exact registry_roundtrip]).
  erewrite (parse_if_opt _ _ _ image_load_ok) by (first [eassumption | exact image_load_roundtrip]).
  cbn [mbind result_bind]. destruct e. cbn in *. by rewrite Hpat.
Qed.
