(* ===== verification/SerializerExact.v ===== *)
(** * The event reader is strict

    What [deserialize_event] accepts: only well-formed events, and only
    documents that say exactly what the event says.  A document of the JSON
    library is [canonical]: numbers fit their machine types and the members of
    an object are in strictly ascending order. *)

From stdpp Require Import sorting.
From S2P Require Import Prelude Json Serializer SerializerFacts.

(** ** Canonical documents *)
Fixpoint ascending (ks : list string) : bool :=
  match ks with
  | a :: ((b :: _) as r) => match String.compare a b with Lt => ascending r | _ => false end
  | _ => true
  end.
Fixpoint canonical (j : json) : bool :=
  match j with
  | JInt z => (- i64_max - 1 <=? z) && (z <=? i64_max)
  | JUint z => up_to u64_max z
  | JArr l => forallb canonical l
  | JObj l => ascending l.*1 && forallb (fun m => canonical m.2) l
  | _ => true
  end.

Lemma ascending_sorted ks : ascending ks = true -> StronglySorted key_lt ks.
Proof.
  intros H. apply Sorted_StronglySorted; [exact key_lt_trans|].
  induction ks as [|a [|b r] IH]; [constructor|by repeat constructor|]. simpl in H.
  destruct (String.compare a b) eqn:E; try done. constructor; [by apply IH|]. by constructor.
Qed.
Lemma sorted_nodup ks : StronglySorted key_lt ks -> NoDup ks.
Proof.
  induction 1 as [|a ks _ IH F]; [constructor|]. constructor; [|done]. intros Ha.
  rewrite Forall_forall in F. by apply (key_lt_irrefl a), F.
Qed.
(** an ascending list is determined by its elements *)
Lemma ascending_unique ks ks' :
  ascending ks = true -> ascending ks' = true -> (forall k, k ∈ ks <-> k ∈ ks') -> ks = ks'.
Proof.
  intros H%ascending_sorted H'%ascending_sorted E.
  apply (StronglySorted_unique_strong key_lt); try done.
  - intros a b _ _ H1 H2. exfalso. exact (key_lt_irrefl a (key_lt_trans _ _ _ H1 H2)).
  - apply NoDup_Permutation; auto using sorted_nodup.
Qed.

(** ** Keys *)
Lemma contains_keys k l : contains k (JObj l) = true <-> k ∈ l.*1.
Proof.
  unfold contains. simpl. induction l as [|[k' v] l IH]; [split; [done|by intros ?%not_elem_of_nil]|].
  simpl. rewrite elem_of_cons. destruct (String.eqb_spec k k') as [->|Hn]; naive_solver.
Qed.
Lemma find_None {A} (p : A -> bool) l : List.find p l = None <-> forall x, x ∈ l -> p x = false.
Proof.
  split; [intros H x Hx; eapply find_none; [done|]; by apply list_elem_of_In|].
  intros H. destruct (List.find p l) as [x|] eqn:E; [|done]. apply find_some in E as [E1 E2].
  rewrite H in E2; [done|]. by apply list_elem_of_In.
Qed.
Lemma only_keys_inv v req opt p : require_only_keys v req opt p = Ok tt ->
  exists l, v = JObj l /\ (forall k, k ∈ req -> k ∈ l.*1) /\ (forall k, k ∈ l.*1 -> k ∈ req ++ opt).
Proof.
  destruct v as [| | | | | | |l]; try done. unfold require_only_keys, first_missing.
  destruct (List.find _ req) eqn:E1; [done|]. destruct (List.find _ l) eqn:E2; [done|]. intros _.
  exists l. split; [done|]. rewrite find_None in E1. rewrite find_None in E2. split.
  - intros k Hk. apply contains_keys. specialize (E1 k Hk). by apply negb_false_iff in E1.
  - intros k Hk. apply list_elem_of_fmap in Hk as (m & -> & Hm). specialize (E2 m Hm). apply negb_false_iff in E2.
    unfold known_key in E2. rewrite elem_of_app, <- !one_of_elem. by apply orb_true_iff in E2.
Qed.
Definition same_keys (ks ks' : list string) : bool := forallb (one_of ks) ks' && forallb (one_of ks') ks.
Lemma same_keys_spec ks ks' : same_keys ks ks' = true -> forall k, k ∈ ks <-> k ∈ ks'.
Proof.
  unfold same_keys. rewrite andb_true_iff, !forallb_forall. intros [H1 H2] k.
  rewrite <- !one_of_elem. split; intros H.
  - apply H2, list_elem_of_In, one_of_elem, H.
  - apply H1, list_elem_of_In, one_of_elem, H.
Qed.
(** the members of an accepted object, in order: [ks] lists the expected keys in ascending order *)
Lemma exact_members ks v exp p : require_exact_keys v exp p = Ok tt -> canonical v = true ->
  ascending ks = true -> same_keys ks exp = true ->
  exists l, v = JObj l /\ l.*1 = ks /\ forallb (fun m => canonical m.2) l = true.
Proof.
  unfold require_exact_keys. intros H Hc Hk Hs. apply bind_Ok in H as ([] & H & _).
  apply only_keys_inv in H as (l & -> & H1 & H2). simpl in Hc. apply andb_true_iff in Hc as [Ha Hc].
  exists l. split; [done|]. split; [|done]. apply ascending_unique; [done|done|]. intros k.
  rewrite app_nil_r in H2. rewrite (same_keys_spec _ _ Hs). split; auto.
Qed.

(** ** Values *)
Lemma jeq_text s : jeq (JStr s) (JStr s) = true.
Proof. simpl. apply String.eqb_refl. Qed.
Lemma jeq_nullable s : jeq (nullable_string s) (nullable_string s) = true.
Proof. destruct s; [apply jeq_text|done]. Qed.
Lemma jeq_nullable_bool b : jeq (nullable_bool b) (nullable_bool b) = true.
Proof. destruct b as [[]|]; done. Qed.
Lemma jeq_member k x y l l' :
  jeq x y = true -> jeq (JObj l) (JObj l') = true -> jeq (JObj ((k, x) :: l)) (JObj ((k, y) :: l')) = true.
Proof. simpl. rewrite String.eqb_refl. by intros -> ->. Qed.
Lemma jeq_number n m : m = n -> jeq (JUint n) (JUint m) = true /\ jeq (JUint n) (JInt m) = true.
Proof. intros ->. simpl. by rewrite (proj2 (Qeq_bool_iff _ _)). Qed.
Lemma unsigned_value_exact v kd p n :
  unsigned_value v kd p = Ok n -> canonical v = true -> jeq (JUint n) v = true.
Proof.
  intros H Hc. pose proof H as Hi. apply unsigned_value_inv in Hi as (Hi & Hn & Hb).
  unfold unsigned_value in H. apply bind_Ok in H as ([] & _ & H).
  apply bind_Ok in H as ([] & H%throw_if_Ok & _). destruct v; try done; cbn [get_i64 get_u64 canonical] in H, Hn, Hc.
  - apply jeq_number. unfold i64, u64 in *.
    destruct (Z.leb_spec (z mod 18446744073709551616) i64_max); [|unfold i64_max in *; lia].
    unfold i64_max in *. Z.to_euclidean_division_equations. lia.
  - apply jeq_number. apply up_to_iff in Hc. by rewrite u64_small in Hn.
Qed.
Lemma required_pid_exact v p n :
  required_pid v p = Ok n -> up_to u32_max n = true /\ (canonical v = true -> jeq (JUint n) v = true).
Proof.
  intros H. split; [by destruct (required_pid_inv _ _ _ H)|]. unfold required_pid in H.
  apply bind_Ok in H as (m & Hm & H). apply bind_Ok in H as ([] & _ & [= <-]). by eapply unsigned_value_exact.
Qed.
(** an optional number: null, or read by [unsigned_value] and bounded *)
Definition number_read (bound : Z) (o : option Z) (v : json) : Prop :=
  opt_ok (up_to bound) o = true /\ (canonical v = true -> jeq (opt_json JUint o) v = true).
Lemma optional_pid_exact v p o : optional_pid v p = Ok o -> number_read u32_max o v.
Proof.
  unfold optional_pid, number_read. destruct (is_null v) eqn:E; [intros [= <-]; by destruct v|].
  destruct (required_pid v p) eqn:H; [|done]. intros [= <-]. by apply required_pid_exact in H.
Qed.
Lemma optional_port_exact v p o : optional_port v p = Ok o -> number_read 65535 o v.
Proof.
  unfold optional_port, number_read. destruct (is_null v) eqn:E; [intros [= <-]; by destruct v|].
  intros H. apply bind_Ok in H as (n & Hn & H). apply bind_Ok in H as ([] & H%throw_if_Ok & [= <-]).
  simpl. split; [|by eapply unsigned_value_exact]. apply unsigned_value_inv in Hn as (_ & _ & ?).
  apply up_to_iff. lia.
Qed.
Lemma optional_uint64_exact v p o : optional_uint64 v p = Ok o -> number_read i64_max o v.
Proof.
  unfold optional_uint64, number_read. destruct (is_null v) eqn:E; [intros [= <-]; by destruct v|].
  destruct (unsigned_value v _ p) eqn:H; [|done]. intros [= <-]. simpl.
  split; [|by eapply unsigned_value_exact]. apply unsigned_value_inv in H as (_ & _ & ?). by apply up_to_iff.
Qed.
Lemma optional_bool_exact v p o : optional_bool v p = Ok o -> v = nullable_bool o.
Proof. destruct v; simpl; try done; by intros [= <-]. Qed.

(** ** Blocks *)
Ltac read_all H := repeat (let x := fresh "x" in let Hx := fresh "Hx" in apply bind_Ok in H as (x & Hx & H));
  repeat match goal with
  | H : at_ _ _ = Ok _ |- _ => rewrite at_Ok in H
  | H : required_string _ _ _ = Ok _ |- _ => rewrite required_string_iff in H; destruct H
  | H : optional_string _ _ _ = Ok _ |- _ => rewrite optional_string_iff in H; destruct H
  | H : required_pid _ _ = Ok _ |- _ => apply required_pid_exact in H as [? ?]
  | H : optional_pid _ _ = Ok _ |- _ => apply optional_pid_exact in H as [? ?]
  | H : optional_port _ _ = Ok _ |- _ => apply optional_port_exact in H as [? ?]
  | H : optional_uint64 _ _ = Ok _ |- _ => apply optional_uint64_exact in H as [? ?]
  | H : optional_bool _ _ = Ok _ |- _ => apply optional_bool_exact in H; subst
  | H : throw_if _ _ = Ok _ |- _ => apply throw_if_Ok in H
  end.
(** the members of [l], whose keys are known *)
Ltac members l Hl := repeat match type of Hl with
  | _ = _ :: _ => destruct l as [|[? ?] l]; [done|]; simpl in Hl; injection Hl as -> Hl
  | _ = [] => destruct l; [|done]; clear Hl
  end.
(** an object with the keys [ks], ascending *)
Ltac open_object v ks :=
  match goal with Hk : require_exact_keys v _ _ = Ok _, Hc : canonical v = true |- _ =>
    let l := fresh "l" in let Hl := fresh "Hl" in let Hcl := fresh "Hcl" in
    match type of Hk with _ = Ok ?u => destruct u end;
    destruct (exact_members ks v _ _ Hk Hc eq_refl eq_refl) as (l & -> & Hl & Hcl);
    clear Hk Hc; members l Hl; simpl in Hcl end.
Ltac find_all := repeat match goal with H : find _ (JObj _) = Some _ |- _ => cbn in H; injection H as H; try subst end; ok_split.
Ltac same_block := repeat first [ apply jeq_member
  | apply jeq_text | apply jeq_nullable | apply jeq_nullable_bool | by auto | reflexivity ].

Lemma agent_exact root a : parse_agent_block root = Ok a ->
  agent_ok a = true /\
  exists v, find "agent" root = Some v /\ (canonical v = true -> jeq (agent_block a) v = true).
Proof.
  unfold parse_agent_block. intros H. read_all H. injection H as <-. split; [unfold agent_ok; simpl; rewrite_ok|].
  exists x. split; [done|]. intros Hc. open_object x ["id"; "version"]. find_all.
  unfold agent_block, object; cbn -[jeq]. same_block.
Qed.
Lemma hash_exact j p h : parse_hash j p = Ok h ->
  exists v, find "hash" j = Some v /\ (canonical v = true -> jeq (hash_object h) v = true).
Proof.
  unfold parse_hash. intros H. read_all H. injection H as <-.
  exists x. split; [done|]. intros Hc. open_object x ["sha256"]. find_all.
  unfold hash_object, object; cbn -[jeq]. same_block.
Qed.
Lemma host_exact root h : parse_host_block root = Ok h ->
  host_ok h = true /\
  exists v, find "host" root = Some v /\ (canonical v = true -> jeq (host_block h) v = true).
Proof.
  unfold parse_host_block. intros H. read_all H. injection H as <-. split; [unfold host_ok; simpl; rewrite_ok|].
  exists x. split; [done|]. intros Hc. open_object x ["hostname"; "id"; "os"]. find_all.
  open_object x1 ["build"; "name"]. find_all. unfold host_block, os_block, object; cbn -[jeq]. same_block.
Qed.
Lemma user_exact root u : parse_user_block root = Ok u ->
  user_ok u = true /\
  exists v, find "user" root = Some v /\ (canonical v = true -> jeq (user_block u) v = true).
Proof.
  unfold parse_user_block. intros H. read_all H. injection H as <-. split; [unfold user_ok; simpl; rewrite_ok|].
  exists x. split; [done|]. intros Hc. open_object x ["domain"; "name"; "sid"]. find_all.
  unfold user_block, object; cbn -[jeq nullable_string]. same_block.
Qed.
Lemma event_block_exact root e : parse_event_block root = Ok e ->
  exists v, find "event" root = Some v /\ (canonical v = true -> jeq (event_block e) v = true).
Proof.
  unfold parse_event_block. intros H. read_all H. injection H as <-.
  exists x. split; [done|]. intros Hc. open_object x ["category"; "id"; "timestamp"; "type"]. find_all.
  unfold event_block, object; cbn -[jeq]. same_block.
Qed.
Lemma source_exact root s : parse_source_block root = Ok s ->
  source_ok s = true /\
  exists v, find "source" root = Some v /\ (canonical v = true -> jeq (source_block s) v = true).
Proof.
  unfold parse_source_block. intros H. read_all H. injection H as <-.
  match goal with H : negb (supported_kind _) = false |- _ => apply negb_false_iff in H end.
  match goal with H : (if is_null ?r then _ else _) = Ok ?o |- _ =>
    assert (Hr : opt_ok (up_to u64_max) o = true /\ (canonical r = true -> jeq (opt_json JUint o) r = true));
    [destruct r; try done; simpl in H; injection H as <-; [done|]; cbn [opt_ok opt_json];
     pose proof (u64_range z) | destruct Hr] end.
  { rewrite up_to_iff. split; [done|]. cbn [canonical]. rewrite up_to_iff. intros. apply jeq_number.
    by rewrite u64_small. }
  split; [unfold source_ok; simpl; rewrite_ok|].
  exists x. split; [done|]. intros Hc. open_object x ["channel"; "kind"; "provider"; "record_id"]. find_all.
  unfold source_block, object; cbn -[jeq nullable_string opt_json]. same_block.
Qed.
Lemma process_exact root q : parse_process_block root = Ok q ->
  (entity_id_pattern (pm_entity_id q) = true -> opt_ok entity_id_pattern (pp_entity_id (pm_parent q)) = true ->
   hash_ok (pm_hash q) = true -> process_ok q = true) /\
  exists v, find "process" root = Some v /\ (canonical v = true -> jeq (process_block q) v = true).
Proof.
  unfold parse_process_block. intros H. read_all H. injection H as <-.
  match goal with H : parse_hash _ _ = Ok _ |- _ => apply hash_exact in H as (vh & Hvh & Hh) end. split.
  { simpl. intros. unfold process_ok, parent_ok. simpl. rewrite_ok. }
  exists x. split; [done|]. intros Hc.
  open_object x ["command_line"; "entity_id"; "executable"; "hash"; "name"; "parent"; "pid"; "start_time_ticks"].
  find_all. open_object x1 ["entity_id"; "name"; "pid"]. find_all.
  unfold process_block, parent_block, object; cbn -[jeq nullable_string nullable_uint64 opt_json hash_object].
  same_block.
Qed.
Lemma network_exact v n : parse_network_block v = Ok n ->
  network_ok n = true /\ (canonical v = true -> jeq (network_block n) v = true).
Proof.
  unfold parse_network_block. intros H. read_all H. injection H as <-.
  match goal with H : negb (one_of _ _) = false |- _ => apply negb_false_iff in H end.
  match goal with H : match _ with Some _ => _ | None => _ end = false |- _ => apply opt_ok_negb in H end.
  split; [unfold network_ok; cbn [nm_direction nm_protocol nm_source_ip nm_source_port nm_destination_ip
    nm_destination_port nm_destination_hostname]; rewrite_ok|].
  intros Hc. open_object v ["destination_hostname"; "destination_ip"; "destination_port"; "direction";
    "protocol"; "source_ip"; "source_port"]. find_all.
  unfold network_block, object; cbn -[jeq nullable_string nullable_uint]. same_block.
Qed.
Lemma file_exact v f : parse_file_block v = Ok f ->
  (hash_ok (fm_hash f) = true -> file_ok f = true) /\ (canonical v = true -> jeq (file_block f) v = true).
Proof.
  unfold parse_file_block. intros H. read_all H. injection H as <-.
  match goal with H : negb _ = false |- _ => apply negb_false_iff in H end.
  match goal with H : parse_hash _ _ = Ok _ |- _ => apply hash_exact in H as (vh & Hvh & Hh) end.
  split; [intros Hp; unfold file_ok; cbn [fm_operation fm_path fm_target_path fm_previous_path fm_hash] in *;
    rewrite_ok|].
  intros Hc. open_object v ["hash"; "operation"; "path"; "previous_path"; "target_path"]. find_all.
  unfold file_block, object; cbn -[jeq nullable_string hash_object]. same_block.
Qed.
Lemma registry_exact v r : parse_registry_block v = Ok r ->
  registry_ok r = true /\ (canonical v = true -> jeq (registry_block r) v = true).
Proof.
  unfold parse_registry_block. intros H. read_all H. injection H as <-.
  match goal with H : negb _ = false |- _ => apply negb_false_iff in H end.
  split; [unfold registry_ok; cbn [rm_operation rm_key_path rm_value_name rm_value_type rm_value_data];
    rewrite_ok|].
  intros Hc. open_object v ["key_path"; "operation"; "value_data"; "value_name"; "value_type"]. find_all.
  unfold registry_block, object; cbn -[jeq nullable_string]. same_block.
Qed.
Lemma image_load_exact v i : parse_image_load_block v = Ok i ->
  (hash_ok (im_hash i) = true -> image_load_ok i = true) /\
  (canonical v = true -> jeq (image_load_block i) v = true).
Proof.
  unfold parse_image_load_block. intros H. read_all H. injection H as <-.
  match goal with H : parse_hash _ _ = Ok _ |- _ => apply hash_exact in H as (vh & Hvh & Hh) end.
  split; [intros Hp; unfold image_load_ok; cbn [im_path im_signature_status im_hash] in *; rewrite_ok|].
  intros Hc. open_object v ["hash"; "is_signed"; "path"; "signature_status"]. find_all.
  unfold image_load_block, object; cbn -[jeq nullable_string nullable_bool hash_object]. same_block.
Qed.

(** ** The whole document *)
Lemma parse_if_exact {A} k (parse : json -> result A) root o : parse_if k parse root = Ok o ->
  (exists v a, o = Some a /\ find k root = Some v /\ parse v = Ok a) \/ (o = None /\ find k root = None).
Proof.
  unfold parse_if, contains. destruct (find k root) as [v|] eqn:E; [|intros [= <-]; by right].
  rewrite (at_find _ _ _ E). cbn [mbind result_bind]. destruct (parse v) as [a|x] eqn:Ha; [|done].
  intros [= <-]. left. by exists v, a.
Qed.
(** which optional members a document has, by its category *)
Definition blocks (root : json) : list bool :=
  [contains "network" root; contains "file" root; contains "registry" root; contains "image_load" root].
Lemma check_family_inv c t root : check_family c t root = Ok tt ->
  (c = "process" /\ t = "start" /\ blocks root = [false; false; false; false]) \/
  (c = "network" /\ is_network_type t = true /\ blocks root = [true; false; false; false]) \/
  (c = "file" /\ is_file_type t = true /\ blocks root = [false; true; false; false]) \/
  (c = "registry" /\ is_registry_type t = true /\ blocks root = [false; false; true; false]) \/
  (c = "image_load" /\ is_image_load_type t = true /\ blocks root = [false; false; false; true]).
Proof.
  unfold check_family, blocks, count_true.
  repeat match goal with |- context [String.eqb c ?s] => destruct (String.eqb_spec c s) as [->|?] end;
    intros H; try done;
    apply bind_Ok in H as ([] & H1%throw_if_Ok & H2%throw_if_Ok); apply negb_false_iff in H1;
    rewrite ?String.eqb_eq in H1; rewrite !zsum_cons, zsum_nil in H2;
    destruct (contains "network" root), (contains "file" root), (contains "registry" root),
      (contains "image_load" root); try (cbv in H2; done); naive_solver.
Qed.
Lemma only_members ks root req opt p : require_only_keys root req opt p = Ok tt -> canonical root = true ->
  ascending ks = true -> forallb (one_of ks) req = true -> forallb (one_of (req ++ opt)) ks = true ->
  map (fun k => contains k root) opt = map (one_of ks) opt ->
  exists l, root = JObj l /\ l.*1 = ks /\ forallb (fun m => canonical m.2) l = true.
Proof.
  intros H Hc Ha H1 H2 H3. apply only_keys_inv in H as (l & -> & Hreq & Hkn). simpl in Hc.
  apply andb_true_iff in Hc as [Hl Hc]. exists l. split; [done|]. split; [|done].
  rewrite forallb_forall in H1, H2.
  assert (Hopt : forall k, k ∈ opt -> (k ∈ l.*1 <-> k ∈ ks)).
  { intros k Hk. rewrite <- contains_keys, <- one_of_elem. apply list_elem_of_In in Hk.
    by rewrite (ext_in_map H3 k Hk). }
  apply ascending_unique; [done|done|]. intros k. split; intros Hk.
  - pose proof (Hkn k Hk) as Hin. apply elem_of_app in Hin as [Hin|Hin]; [|by apply Hopt].
    apply one_of_elem, H1. by apply list_elem_of_In.
  - assert (Hin : k ∈ req ++ opt) by (apply one_of_elem, H2; by apply list_elem_of_In).
    apply elem_of_app in Hin as [Hin|Hin]; [auto|by apply Hopt].
Qed.
(** the member [k] of the document was read as [b]; an optional member is read or absent *)
Definition read_as {A} (k : string) (write : A -> json) (b : A) (root : json) : Prop :=
  exists v, find k root = Some v /\ (canonical v = true -> jeq (write b) v = true).
Definition read_opt {A} (k : string) (write : A -> json) (o : option A) (root : json) : Prop :=
  match o with Some b => read_as k write b root | None => find k root = None end.
Lemma parse_if_read {A} k (parse : json -> result A) (write : A -> json) (W : A -> Prop) root o :
  (forall v b, parse v = Ok b -> W b /\ (canonical v = true -> jeq (write b) v = true)) ->
  parse_if k parse root = Ok o ->
  read_opt k write o root /\ (forall b, o = Some b -> W b) /\ contains k root = negb (absent o).
Proof.
  intros Hp H. unfold contains. apply parse_if_exact in H as [(v & b & -> & F & [Hw Hj]%Hp)|[-> F]]; rewrite F.
  - split; [by exists v|]. split; [by intros b' [= <-]|done].
  - by split.
Qed.
(** what a successful reading establishes *)
Record was_read (root : json) (e : PanopticonEvent) : Prop := {
  rd_keys : require_only_keys root
    ["schema_version"; "event"; "source"; "agent"; "host"; "user"; "process"]
    ["network"; "file"; "registry"; "image_load"] "$" = Ok tt;
  rd_version : find "schema_version" root = Some (JStr (schema_version e));
  rd_event : read_as "event" event_block (event e) root;
  rd_source : read_as "source" source_block (source e) root;
  rd_agent : read_as "agent" agent_block (agent e) root;
  rd_host : read_as "host" host_block (host e) root;
  rd_user : read_as "user" user_block (user e) root;
  rd_process : read_as "process" process_block (process e) root;
  rd_network : read_opt "network" network_block (network e) root;
  rd_file : read_opt "file" file_block (file e) root;
  rd_registry : read_opt "registry" registry_block (registry e) root;
  rd_image_load : read_opt "image_load" image_load_block (image_load e) root }.
Lemma blocks_family e root :
  blocks root = [negb (absent (network e)); negb (absent (file e)); negb (absent (registry e));
                 negb (absent (image_load e))] ->
  check_family (em_category (event e)) (em_type (event e)) root = Ok tt -> family_ok e = true.
Proof.
  intros Hb Hf%check_family_inv. rewrite Hb in Hf. unfold family_ok.
  destruct (network e), (file e), (registry e), (image_load e); cbn [absent negb] in *;
  destruct Hf as [(-> & -> & [=])|[(-> & -> & [=])|[(-> & -> & [=])|[(-> & -> & [=])|(-> & -> & [=])]]]];
  reflexivity.
Qed.
Lemma opt_ok_intro {A} (p : A -> bool) o : (forall a, o = Some a -> p a = true) -> opt_ok p o = true.
Proof. destruct o; simpl; auto. Qed.
Lemma opt_ok_elim {A} (p : A -> bool) o a : opt_ok p o = true -> o = Some a -> p a = true.
Proof. by intros H ->. Qed.

Lemma parse_event_read root e : parse_event root = Ok e -> well_formed e = true /\ was_read root e.
Proof.
  unfold parse_event. intros H.
  apply bind_Ok in H as ([] & Hk & H). apply bind_Ok in H as (ver & [Hver _]%required_string_iff & H).
  apply bind_Ok in H as ([] & Hv%throw_if_Ok%negb_false_iff & H).
  apply bind_Ok in H as (ev & Re%event_block_exact & H). apply bind_Ok in H as ([] & Hfam & H).
  apply bind_Ok in H as (src & [Ws Rs]%source_exact & H). apply bind_Ok in H as (ag & [Wa Ra]%agent_exact & H).
  apply bind_Ok in H as (ho & [Wh Rh]%host_exact & H). apply bind_Ok in H as (us & [Wu Ru]%user_exact & H).
  apply bind_Ok in H as (pr & [Wp Rp]%process_exact & H).
  apply bind_Ok in H as (nw & (Rn & Wn & Bn)%(parse_if_read _ _ _ _ _ _ network_exact) & H).
  apply bind_Ok in H as (fi & (Rf & Wf & Bf)%(parse_if_read _ _ _ _ _ _ file_exact) & H).
  apply bind_Ok in H as (rg & (Rr & Wr & Br)%(parse_if_read _ _ _ _ _ _ registry_exact) & H).
  apply bind_Ok in H as (il & (Ri & Wi & Bi)%(parse_if_read _ _ _ _ _ _ image_load_exact) & H).
  apply bind_Ok in H as ([] & Hpat%check_patterns_iff & [= <-]).
  cbn [event process file image_load] in Hpat. destruct Hpat as (P1 & P2 & P3 & P4 & P5 & P6 & P7).
  split; [|constructor; assumption]. unfold well_formed.
  rewrite (blocks_family _ root); [|unfold blocks; simpl; congruence|done].
  cbn [schema_version event source agent host user process network file registry image_load].
  rewrite Hv, P1, P2, Ws, Wa, Wh, Wu, (Wp P3 P4 P5), (opt_ok_intro network_ok nw Wn),
    (opt_ok_intro registry_ok rg Wr). cbn [andb].
  rewrite !opt_ok_intro; [done| |]; intros b Hb.
  - exact (Wi b Hb (opt_ok_elim _ _ _ P7 Hb)).
  - exact (Wf b Hb (opt_ok_elim _ _ _ P6 Hb)).
Qed.
Lemma read_opt_contains {A} k (write : A -> json) o root :
  read_opt k write o root -> contains k root = negb (absent o).
Proof. unfold contains. destruct o; simpl; [intros (v & -> & _)|intros ->]; done. Qed.

(** open the document as an object with the keys [ks] and compare it member by member *)
Ltac same_document ks Hk Hc :=
  let l := fresh "l" in let Hl := fresh "Hl" in let Hcl := fresh "Hcl" in
  destruct (only_members ks _ _ _ _ Hk Hc eq_refl eq_refl eq_refl) as (l & -> & Hl & Hcl);
  [ cbn [map]; repeat match goal with H : read_opt ?k _ _ _ |- context [contains ?k _] =>
      rewrite (read_opt_contains _ _ _ _ H) end; reflexivity |];
  members l Hl; simpl in Hcl;
  cbn [network file registry image_load read_opt] in *;
  repeat match goal with H : read_as _ _ _ _ |- _ => destruct H as (? & ? & ?) end;
  find_all;
  unfold event_to_json, object, set_member, put_block;
  cbn -[jeq event_block source_block agent_block host_block user_block process_block network_block
        file_block registry_block image_load_block];
  same_block.
Lemma document_same root e :
  was_read root e -> family_ok e = true -> canonical root = true -> jeq (event_to_json e) root = true.
Proof.
  intros [Hk Hv He Hs Ha Hh Hu Hp Hn Hf Hr Hi] Hfam Hc.
  destruct (family_cases e Hfam) as [(_ & _ & En & Ef & Er & Ei)|[(_ & _ & [n En] & Ef & Er & Ei)|
   [(_ & _ & En & [f Ef] & Er & Ei)|[(_ & _ & En & Ef & [r Er] & Ei)|(_ & _ & En & Ef & Er & [i Ei])]]]];
  destruct e as [ver ev src ag ho us pr nw fi rg il];
  cbn [schema_version event source agent host user process network file registry image_load] in *; subst.
  - same_document ["agent"; "event"; "host"; "process"; "schema_version"; "source"; "user"] Hk Hc.
  - same_document ["agent"; "event"; "host"; "network"; "process"; "schema_version"; "source"; "user"] Hk Hc.
  - same_document ["agent"; "event"; "file"; "host"; "process"; "schema_version"; "source"; "user"] Hk Hc.
  - same_document ["agent"; "event"; "host"; "process"; "registry"; "schema_version"; "source"; "user"] Hk Hc.
  - same_document ["agent"; "event"; "host"; "image_load"; "process"; "schema_version"; "source"; "user"] Hk Hc.
Qed.

(** ** Text *)
(** documents without signed or floating numbers, members ascending *)
Fixpoint plain (j : json) : bool :=
  match j with
  | JInt _ | JFloat _ => false
  | JUint z => up_to u64_max z
  | JArr l => forallb plain l
  | JObj l => ascending l.*1 && forallb (fun m => plain m.2) l
  | _ => true
  end.
Lemma plain_object l : plain (JObj l) = ascending l.*1 && forallb (fun m => plain m.2) l.
Proof. done. Qed.
Lemma plain_nullable s : plain (nullable_string s) = true.
Proof. by destruct s. Qed.
Lemma plain_bool b : plain (nullable_bool b) = true.
Proof. by destruct b. Qed.
Lemma plain_uint b o : b <= u64_max -> opt_ok (up_to b) o = true -> plain (opt_json JUint o) = true.
Proof. intros Hb. destruct o; simpl; [|done]. rewrite !up_to_iff. lia. Qed.
Lemma plain_pid z : up_to u32_max z = true -> plain (JUint z) = true.
Proof. simpl. rewrite !up_to_iff. unfold u32_max, u64_max. lia. Qed.
Create HintDb plain_fields.
#[export] Hint Resolve plain_nullable plain_bool plain_uint : plain_fields.
Ltac build_object :=
  lazy beta iota zeta delta [object foldl put_member fst snd String.compare Ascii.compare N.compare
    Pos.compare Pos.compare_cont Pos.switch_Eq N_of_ascii N_of_digits N.add N.mul Pos.add Pos.mul Pos.succ
    Pos.add_carry].
Ltac plain_block := build_object;
  rewrite plain_object; apply andb_true_iff; split; [reflexivity|]; cbn [forallb snd];
  repeat match goal with |- _ && _ = true => apply andb_true_iff; split end; cbn [snd]; try reflexivity;
  auto with plain_fields; try (eapply plain_uint; [|eassumption]; vm_compute; discriminate).
Lemma hash_plain h : plain (hash_object h) = true.
Proof. unfold hash_object. plain_block. Qed.
Lemma os_plain o : plain (os_block o) = true.
Proof. unfold os_block. plain_block. Qed.
#[export] Hint Resolve hash_plain os_plain : plain_fields.
Lemma parent_plain p : parent_ok p = true -> plain (parent_block p) = true.
Proof. unfold parent_ok. intros H. ok_split. unfold parent_block. plain_block. Qed.
#[export] Hint Resolve parent_plain : plain_fields.
Lemma process_plain p : process_ok p = true -> plain (process_block p) = true.
Proof.
  unfold process_ok. intros H. ok_split. unfold process_block. plain_block.
  by apply plain_pid.
Qed.
Lemma network_plain n : network_ok n = true -> plain (network_block n) = true.
Proof. unfold network_ok. intros H. ok_split. unfold network_block. plain_block. Qed.
Lemma source_plain s : source_ok s = true -> plain (source_block s) = true.
Proof. unfold source_ok. intros H. ok_split. unfold source_block. plain_block. Qed.
Lemma file_plain f : plain (file_block f) = true.
Proof. unfold file_block. plain_block. Qed.
Lemma registry_plain r : plain (registry_block r) = true.
Proof. unfold registry_block. plain_block. Qed.
Lemma image_load_plain i : plain (image_load_block i) = true.
Proof. unfold image_load_block. plain_block. Qed.
#[export] Hint Resolve process_plain network_plain source_plain file_plain registry_plain
  image_load_plain : plain_fields.
Lemma event_block_plain e : plain (event_block e) = true.
Proof. unfold event_block. plain_block. Qed.
Lemma agent_plain a : plain (agent_block a) = true.
Proof. unfold agent_block. plain_block. Qed.
Lemma host_plain h : plain (host_block h) = true.
Proof. unfold host_block. plain_block. Qed.
Lemma user_plain u : plain (user_block u) = true.
Proof. unfold user_block. plain_block. Qed.
#[export] Hint Resolve event_block_plain agent_plain host_plain user_plain : plain_fields.
Lemma event_plain e : well_formed e = true -> plain (event_to_json e) = true.
Proof.
  unfold well_formed. intros H. ok_split.
  match goal with H : family_ok e = true |- _ => by_blocks e H end;
  cbn [source process opt_ok] in *; unfold event_to_json, put_block, set_member;
  cbn [schema_version event source agent host user process network file registry image_load];
  plain_block.
Qed.

(** The JSON library at the level of text: what [dump] prints of a document with
    unsigned numbers only parses back to it, and every parsed document is canonical. *)
Section Text.
Context (json_parse : string -> result json) (dump : json -> result string).
Hypothesis dump_parse : forall j t, plain j = true -> dump j = Ok t -> json_parse t = Ok j.
Hypothesis parse_canonical : forall t j, json_parse t = Ok j -> canonical j = true.

(** C35: A well-formed event survives writing and reading. *)
Theorem event_roundtrip (e : PanopticonEvent) (text : string) :
  well_formed e = true -> serialize_event dump e = Ok text -> deserialize_event json_parse text = inr e.
Proof.
  unfold serialize_event, deserialize_event. intros Hw Hd.
  rewrite (dump_parse _ _ (event_plain e Hw) Hd). cbn [mbind result_bind]. by rewrite parse_event_to_json.
Qed.

(** The reader accepts well-formed events only, and an accepted text denotes
    exactly the document the writer produces for the event: no member is
    ignored, none is invented. *)
Theorem event_reader_strict (text : string) (e : PanopticonEvent) :
  deserialize_event json_parse text = inr e ->
  well_formed e = true /\
  exists root, json_parse text = Ok root /\ jeq (event_to_json e) root = true.
Proof.
  unfold deserialize_event. destruct (json_parse text) as [root|x] eqn:Hp; [|done].
  cbn [mbind result_bind]. destruct (parse_event root) as [e'|x] eqn:He; [|done]. intros [= <-].
  apply parse_event_read in He as [Hw Hr]. split; [done|]. exists root. split; [done|].
  apply document_same; [done| |by eapply parse_canonical]. unfold well_formed in Hw. by ok_split.
Qed.
End Text.

(** ** A concrete event *)
Definition hex64 : string := "0123456789abcdef0123456789abcdef0123456789abcdef0123456789abcdef".
Definition sample_event (ticks : Z) : PanopticonEvent := {|
  schema_version := kSchemaVersion;
  event := {| em_id := "evt_" +:+ hex64; em_category := "network"; em_type := "connect";
              em_timestamp := "2024-01-02T03:04:05.678Z" |};
  source := {| sm_kind := "sysmon"; sm_provider := "p"; sm_channel := None;
               sm_record_id := Some u64_max |};
  agent := {| am_id := "a"; am_version := "0.3.0" |};
  host := {| hm_id := "h"; hm_hostname := "n"; hm_os := {| os_name := "w"; os_build := "1" |} |};
  user := {| um_name := Some "u"; um_domain := None; um_sid := None |};
  process := {| pm_entity_id := "proc_" +:+ hex64; pm_pid := 7; pm_name := Some "x.exe";
    pm_executable := None; pm_command_line := None;
    pm_parent := {| pp_entity_id := None; pp_pid := Some 4; pp_name := None |};
    pm_hash := {| sha256 := Some hex64 |}; pm_start_time_ticks := Some ticks |};
  network := Some {| nm_direction := "outbound"; nm_protocol := Some "tcp"; nm_source_ip := None;
    nm_source_port := Some 65535; nm_destination_ip := Some "10.0.0.1"; nm_destination_port := Some 443;
    nm_destination_hostname := None |};
  file := None; registry := None; image_load := None |}.
Definition sample_document : json := event_to_json (sample_event 5).
(** a library that knows one document *)
Definition one_parse (t : string) : result json :=
  if String.eqb t "doc" then Ok sample_document else Throw (json_exception "parse error").
Definition one_dump (j : json) : result string :=
  if decide (j = sample_document) then Ok "doc" else Throw (json_exception "unknown").
Lemma one_dump_parse j t : plain j = true -> one_dump j = Ok t -> one_parse t = Ok j.
Proof. intros _. unfold one_dump. case_decide as E; [|done]. intros [= <-]. by rewrite E. Defined.
Lemma one_parse_canonical t j : one_parse t = Ok j -> canonical j = true.
Proof. unfold one_parse. destruct (String.eqb t "doc"); [|done]. intros [= <-]. vm_compute. reflexivity. Defined.

Lemma event_roundtrip_witness : deserialize_event one_parse "doc" = inr (sample_event 5).
Proof.
  refine (event_roundtrip one_parse one_dump one_dump_parse (sample_event 5) "doc" _ _).
  - vm_compute. reflexivity.
  - unfold serialize_event, one_dump. rewrite decide_True by reflexivity. reflexivity.
Defined.
Lemma event_reader_strict_witness :
  well_formed (sample_event 5) = true /\
  exists root, one_parse "doc" = Ok root /\ jeq (event_to_json (sample_event 5)) root = true.
Proof.
  refine (event_reader_strict one_parse one_parse_canonical "doc" (sample_event 5) _).
  vm_compute. reflexivity.
Defined.

(** A process start tick count of 2^63 or more is written, and refused by the
    reader as negative: [get<std::int64_t>] wraps it. *)
Example large_ticks_refused :
  parse_event (event_to_json (sample_event (i64_max + 1))) =
    Throw (runtime_error "$.process.start_time_ticks cannot be negative.").
Proof. vm_compute. reflexivity. Qed.
