(* ===== verification/SourceFacts.v ===== *)
(** * Source facts

    [pipeline/source_facts.cpp]: the lossless JSON copy of a raw event, the
    hint a cached process context gives, and the test that decides whether the
    hint applies.  UTF-8 validation is a Windows call and a parameter. *)

From S2P Require Import Prelude Telemetry Identity Json.

(** ** When a cached context applies *)
Definition is_unknown (path : option string) : bool :=
  match path with
  | None => true
  | Some p => str_empty p || String.eqb p "<unknown process>"
  end.
Definition cached_context_applicable (source : SourceProvenance) (process : RawProcessContext) : bool :=
  match pc_cached_context process, pc_process_guid process with
  | Some cached, Some guid =>
      negb (is_unknown (cc_executable cached)) && (cc_pid cached =? pc_pid process)
      && String.eqb (cc_process_guid cached) guid
      && bool_decide (sp_kind (cc_source cached) = sp_kind source)
      && String.eqb (sp_provider (cc_source cached)) (sp_provider source)
      && bool_decide (sp_channel (cc_source cached) = sp_channel source)
      && is_unknown (pc_executable process)
  | _, _ => false
  end.

(** ** The JSON copy *)
Section Facts.
Context (valid_utf8 : string -> bool).

Definition observed_source_kind_name (kind : TelemetrySourceKind) : string := source_kind_name kind.
Fixpoint bytes_of (s : string) : list Z :=
  match s with "" => [] | String c s => code c :: bytes_of s end.
Definition lossless_text (text : string) : json :=
  if valid_utf8 text then JStr text
  else object [("encoding", JStr "hex"); ("bytes", JStr (hex_bytes (bytes_of text)));
               ("byte_length", JStr (to_string (slen text)))].
Definition text (value : option string) : json := opt_json lossless_text value.
Definition number (value : option Z) : json := opt_json JUint value.
Definition decimal (value : option Z) : json := opt_json (fun v => JStr (to_string v)) value.
Definition context (process : RawProcessContext) : json :=
  object [("pid", JUint (pc_pid process)); ("start_time_ticks", decimal (pc_start_time_ticks process));
          ("executable", text (pc_executable process)); ("process_name", text (pc_process_name process));
          ("user_name", text (pc_user_name process)); ("user_sid", text (pc_user_sid process));
          ("process_guid", text (pc_process_guid process))].
Definition phase_name (phase : OperationPhase) : string :=
  match phase with reported => "reported" | attempted => "attempted" | completed_phase => "completed" end.
Definition upper_hex_digit (v : Z) : ascii :=
  if v <? 10 then digit_char v else ascii_of_N (Z.to_N (65 + (v - 10))).
(** [%0nX] of a number below [16^n] *)
Fixpoint upper_hex (n : nat) (v : Z) : string :=
  match n with O => "" | S n => upper_hex n (v / 16) +:+ String (upper_hex_digit (v mod 16)) "" end.
Definition status (value : option NativeStatus) : json :=
  match value with
  | None => JNull
  | Some s =>
      object [("kind", JStr (match ns_kind s with ntstatus => "ntstatus" | win32_error => "win32_error" end));
              ("value", JStr (to_string (ns_value s))); ("hex", JStr ("0x" +:+ upper_hex 8 (ns_value s)));
              ("interpreted", JBool false)]
  end.

(** the values of the enumerations *)
Definition kind_value (k : TelemetrySourceKind) : Z :=
  match k with
  | etw => 0 | sysmon => 1 | windows_event_log => 2 | minifilter => 3 | api_hook => 4 | etw_kernel => 5
  end.
Definition direction_value (d : NetworkDirection) : Z := match d with inbound => 0 | outbound => 1 end.
Definition protocol_value (p : NetworkProtocol) : Z :=
  match p with tcp => 0 | udp => 1 | other_protocol => 2 end.
Definition file_operation_value (o : FileOperation) : Z :=
  match o with
  | file_create => 0 | file_remove => 1 | file_rename => 2 | file_open => 3 | file_write => 4
  | file_set_information => 5 | file_overwrite => 6
  end.
Definition registry_operation_value (o : RegistryOperation) : Z :=
  match o with add_key => 0 | delete_key => 1 | set_value => 2 | rename_key => 3 end.

Definition source_object (s : SourceProvenance) : json :=
  object [("kind", JStr (observed_source_kind_name (sp_kind s))); ("kind_value", JInt (kind_value (sp_kind s)));
          ("provider", lossless_text (sp_provider s)); ("channel", text (sp_channel s));
          ("record_id", decimal (sp_record_id s))].
(** the members every family starts from *)
Definition base_facts (s : SourceProvenance) : json :=
  object [("representation", JStr "decoded_source_facts_v1"); ("source", source_object s)].

(** *** Process events *)
Definition sysmon_names : list string :=
  ["ParentCommandLine"; "IntegrityLevel"; "OriginalFileName"; "CurrentDirectory"; "LogonId"; "LogonGuid";
   "TerminalSessionId"; "Hashes"; "UtcTime"].
Definition etw_names : list string :=
  ["ProcessSequenceNumber"; "ParentProcessSequenceNumber"; "SessionID"; "Flags"; "ProcessTokenElevationType";
   "ProcessTokenIsElevated"; "ImageChecksum"; "TimeDateStamp"; "SecurityMitigations"; "TokenElevationType";
   "HandleCount"; "CommitCharge"; "CommitPeak"; "CPUCycleCount"; "ReadOperationCount"; "WriteOperationCount";
   "ReadTransferKiloBytes"; "WriteTransferKiloBytes"; "HardFaultCount"].
Definition sysmon_fields_json (fields : list (option string)) : json :=
  let named := zip sysmon_names fields in
  object [("format", JStr "windows_sysmon_process_fields_v1"); ("event_id", JInt 1);
          ("fields", object (map (fun f => (f.1, text f.2)) named));
          ("unavailable", JArr (omap (fun f : string * option string =>
             match f.2 with
             | None => Some (object [("field", JStr f.1); ("reason", JStr "source_field_absent")])
             | Some _ => None
             end) named));
          ("values_interpreted", JBool false); ("native_creation_ticks_derived", JBool false)].
(** indices of the 64-bit fields *)
Definition wide (i : nat) : bool := existsb (Nat.eqb i) [0; 1; 11; 12; 13]%nat.
Definition TDH_INTYPE_UINT32 : Z := 8.
Definition TDH_INTYPE_UINT64 : Z := 10.
Definition field_state (s : EtwUIntFieldState) : string :=
  match s with copied => "healthy" | absent => "unsupported" | _ => "unavailable" end.
Definition field_reason (s : EtwUIntFieldState) : string :=
  match s with
  | copied => "selected_scalar_copied"
  | absent => "property_absent_in_source_template"
  | type_refused => "non_scalar_or_unexpected_native_type"
  | size_refused => "unexpected_native_byte_count"
  | query_failed => "native_query_failed"
  end.
Definition is_copied (s : EtwUIntFieldState) : bool := match s with copied => true | _ => false end.
Definition native_field_json (i : nat) (f : EtwUIntField) : result json :=
  let w := wide i in
  _ ← throw_if (is_copied (ef_state f) &&
        (bool_decide (ef_value f = None)
         || negb (bool_decide (ef_in_type f = Some (if w then TDH_INTYPE_UINT64 else TDH_INTYPE_UINT32)))
         || negb (bool_decide (ef_native_status f = Some 0))
         || negb (bool_decide (ef_reported_bytes f = Some (if w then 8 else 4)))
         || (negb w && (u32_max <? value_or (ef_value f) 0))))
        (invalid_argument "native process field copy evidence incomplete");
  _ ← throw_if (negb (is_copied (ef_state f)) && bool_decide (ef_value f <> None))
        (invalid_argument "refused native process field has a value");
  Ok (object [("state", JStr (field_state (ef_state f))); ("reason", JStr (field_reason (ef_state f)));
              ("native_in_type", number (ef_in_type f)); ("native_status", decimal (ef_native_status f));
              ("reported_bytes", number (ef_reported_bytes f)); ("value", decimal (ef_value f));
              ("value_interpreted", JBool false)]).
Fixpoint native_fields_from (i : nat) (names : list string) (fields : list EtwUIntField) (acc : json)
  : result json :=
  match names, fields with
  | n :: names, f :: fields =>
      v ← native_field_json i f;
      native_fields_from (S i) names fields (set_member n v acc)
  | _, _ => Ok acc
  end.
Definition native_fields_json (n : EtwProcessNativeFields) : result json :=
  fields ← native_fields_from 0 etw_names (en_fields n) (object []);
  Ok (object [("format", JStr "windows_etw_process_fields_v1"); ("event_id", JUint (en_event_id n));
              ("event_version", JUint (en_event_version n));
              ("provider_guid", JStr "{22fb2cd6-0e7b-422b-a0c7-2fad1fd0e716}"); ("fields", fields);
              ("full_native_payload_retained", JBool false); ("parent_instance_verified", JBool false);
              ("sequence_alias_promotion_performed", JBool false)]).
Definition process_object (e : RawProcessEvent) : json :=
  object [("pid", JUint (pe_pid e)); ("start_time_ticks", decimal (pe_start_time_ticks e));
          ("process_guid", text (pe_process_guid e)); ("parent_process_guid", text (pe_parent_process_guid e));
          ("parent_pid", number (pe_parent_pid e)); ("parent_executable", text (pe_parent_executable e));
          ("executable", text (pe_executable e)); ("command_line", text (pe_command_line e));
          ("user_sid", text (pe_user_sid e)); ("user_name", text (pe_user_name e));
          ("sha256", text (pe_sha256 e))].
Definition process_facts (e : RawProcessEvent) : result json :=
  let result := set_member "family" (JStr "process") (base_facts (pe_source e)) in
  let result := set_member "operation" (JStr (if pe_terminated e then "stop" else "start")) result in
  let result := set_member "event_time_ns"
    (if pe_terminated e then decimal (pe_termination_time e)
     else JStr (to_string (pe_process_start_time e))) result in
  let result := if pe_terminated e
    then set_member "exit_code" (decimal (pe_exit_code e))
           (set_member "termination_time_ticks" (decimal (pe_termination_time_ticks e)) result)
    else result in
  let process := process_object e in
  process ← match pe_sysmon_fields e with
    | None => Ok process
    | Some f =>
        _ ← throw_if (negb (bool_decide (sp_kind (pe_source e) = sysmon))
                      || negb (String.eqb (sp_provider (pe_source e)) "Microsoft-Windows-Sysmon")
                      || pe_terminated e)
              (invalid_argument "Sysmon process field source/operation mismatch");
        Ok (set_member "sysmon_fields" (sysmon_fields_json (sf_fields f)) process)
    end;
  process ← match pe_native_fields e with
    | None => Ok process
    | Some n =>
        _ ← throw_if (negb (bool_decide (sp_kind (pe_source e) = etw))
                      || negb (String.eqb (sp_provider (pe_source e)) "Microsoft-Windows-Kernel-Process")
                      || negb (en_event_id n =? (if pe_terminated e then 2 else 1)))
              (invalid_argument "native process field source/operation mismatch");
        j ← native_fields_json n;
        Ok (set_member "native_fields" j process)
    end;
  Ok (set_member "process" process result).

(** *** The other families *)
Definition family_facts (s : SourceProvenance) (timestamp : UtcTimestamp) (p : RawProcessContext)
  (members : list (string * json)) : json :=
  foldl (fun j m => set_member m.1 m.2 j) (base_facts s)
    ([("event_time_ns", JStr (to_string timestamp)); ("process", context p)] ++ members).
Definition network_object (e : RawNetworkEvent) : json :=
  object [("direction_value", JInt (direction_value (ne_direction e)));
          ("protocol_value", JInt (protocol_value (ne_protocol e)));
          ("source_ip", text (ne_source_ip e)); ("source_port", number (ne_source_port e));
          ("destination_ip", text (ne_destination_ip e)); ("destination_port", number (ne_destination_port e));
          ("destination_hostname", text (ne_destination_hostname e))].
Definition file_object (e : RawFileEvent) : json :=
  object [("operation_value", JInt (file_operation_value (fe_operation e))); ("path", text (fe_path e));
          ("target_path", text (fe_target_path e)); ("previous_path", text (fe_previous_path e));
          ("sha256", text (fe_sha256 e)); ("phase", JStr (phase_name (fe_phase e)));
          ("status", status (fe_status e))].
Definition registry_object (e : RawRegistryEvent) : json :=
  object [("operation_value", JInt (registry_operation_value (re_operation e)));
          ("key_path", text (re_key_path e)); ("value_name", text (re_value_name e));
          ("value_type", text (re_value_type e)); ("value_data", text (re_value_data e))].
Definition image_object (e : RawImageLoadEvent) : json :=
  object [("path", text (ie_path e)); ("is_signed", opt_json JBool (ie_is_signed e));
          ("signature_status", text (ie_signature_status e)); ("sha256", text (ie_sha256 e))].
Definition extended_family (event_id : Z) : string :=
  if event_id =? 22 then "dns" else if event_id =? 10 then "process_access" else "remote_thread".
Definition source_facts (raw : RawEvent) : result json :=
  match raw with
  | ProcessEvent e => process_facts e
  | NetworkEvent e =>
      Ok (family_facts (ne_source e) (ne_timestamp e) (ne_process e)
            [("family", JStr "network"); ("network", network_object e)])
  | FileEvent e =>
      Ok (family_facts (fe_source e) (fe_timestamp e) (fe_process e)
            [("family", JStr "file"); ("file", file_object e)])
  | RegistryEvent e =>
      Ok (family_facts (re_source e) (re_timestamp e) (re_process e)
            [("family", JStr "registry"); ("registry", registry_object e)])
  | ImageLoadEvent e =>
      Ok (family_facts (ie_source e) (ie_timestamp e) (ie_process e)
            [("family", JStr "image_load"); ("image", image_object e)])
  | SysmonExtendedEvent e =>
      Ok (family_facts (xe_source e) (xe_timestamp e) (xe_process e)
            [("family", JStr (extended_family (xe_event_id e))); ("event_id", JUint (xe_event_id e));
             ("event_time_field", JStr (xe_event_time_field e));
             ("target", opt_json context (xe_target e));
             ("windows_event_data", object (map (fun f => (f.1, lossless_text f.2)) (xe_source_fields e)))])
  end.

(** *** The hint of the cache *)
Definition hint_facts (s : SourceProvenance) (p : RawProcessContext) : json :=
  match pc_cached_context p with
  | None => object []
  | Some hint =>
      object [("cached_process_context", object
        [("basis", JStr "retained_process_start_guid_pid_match");
         ("applicable", JBool (cached_context_applicable s p));
         ("source", object [("kind", JStr (observed_source_kind_name (sp_kind (cc_source hint))));
                            ("provider", lossless_text (sp_provider (cc_source hint)));
                            ("channel", text (sp_channel (cc_source hint)));
                            ("record_id", decimal (sp_record_id (cc_source hint)))]);
         ("process_start_time_ns", JStr (to_string (cc_process_start_time hint)));
         ("pid", JUint (cc_pid hint)); ("process_guid", lossless_text (cc_process_guid hint));
         ("executable", text (cc_executable hint)); ("user_name", text (cc_user_name hint));
         ("user_sid", text (cc_user_sid hint))])]
  end.
Definition enrichment_facts (raw : RawEvent) : json :=
  match raw with
  | ProcessEvent _ => object []
  | NetworkEvent e => hint_facts (ne_source e) (ne_process e)
  | FileEvent e => hint_facts (fe_source e) (fe_process e)
  | RegistryEvent e => hint_facts (re_source e) (re_process e)
  | ImageLoadEvent e => hint_facts (ie_source e) (ie_process e)
  | SysmonExtendedEvent e => hint_facts (xe_source e) (xe_process e)
  end.
End Facts.

(** ** The copy is lossless *)
Lemma hex_digit_code v : 0 <= v < 16 -> code (hex_digit v) = if v <? 10 then 48 + v else 87 + v.
Proof.
  intros Hv. apply Z.eqb_eq.
  refine (below_forallb (fun v => code (hex_digit v) =? if v <? 10 then 48 + v else 87 + v) 16 v _ Hv).
  reflexivity.
Qed.
Lemma hex_digit_inj a b : 0 <= a < 16 -> 0 <= b < 16 -> hex_digit a = hex_digit b -> a = b.
Proof.
  intros Ha Hb H. apply (f_equal code) in H. rewrite !hex_digit_code in H by done.
  destruct (Z.ltb_spec a 10), (Z.ltb_spec b 10); lia.
Qed.
Lemma hex_bytes_inj a b :
  Forall (fun z => 0 <= z < 256) a -> Forall (fun z => 0 <= z < 256) b -> hex_bytes a = hex_bytes b -> a = b.
Proof.
  intros Ha. revert b. induction Ha as [|x a Hx _ IH]; intros b Hb H; destruct Hb as [|y b Hy Hb]; try done.
  simpl in H. injection H as H1 H2 H3. apply hex_digit_inj in H1, H2; try (Z.to_euclidean_division_equations; lia).
  f_equal; [Z.to_euclidean_division_equations; lia|auto].
Qed.
Lemma bytes_of_range s : Forall (fun z => 0 <= z < 256) (bytes_of s).
Proof. induction s; constructor; [apply code_range|done]. Qed.
Lemma bytes_of_inj s t : bytes_of s = bytes_of t -> s = t.
Proof.
  revert t; induction s as [|c s IH]; intros [|d t]; try done. simpl. intros [= H1%code_inj H2%IH]. congruence.
Qed.

Section Lossless.
Context (valid_utf8 : string -> bool).
#[local] Abbreviation lossless_text := (lossless_text valid_utf8).
#[local] Abbreviation text := (text valid_utf8).

Lemma lossless_text_inj a b : lossless_text a = lossless_text b -> a = b.
Proof.
  unfold SourceFacts.lossless_text. destruct (valid_utf8 a), (valid_utf8 b); try discriminate; [by intros [= ->]|].
  intros H. apply (f_equal (find "bytes")) in H. cbn in H. injection H as H.
  apply bytes_of_inj, hex_bytes_inj; auto using bytes_of_range.
Qed.
Lemma opt_json_inj {A} (f : A -> json) a b :
  (forall x, f x <> JNull) -> (forall x y, f x = f y -> x = y) -> opt_json f a = opt_json f b -> a = b.
Proof.
  intros Hn Hf. destruct a as [x|], b as [y|]; simpl; intros H; try done.
  - by rewrite (Hf _ _ H).
  - by destruct (Hn x).
  - by destruct (Hn y).
Qed.
Lemma text_inj a b : text a = text b -> a = b.
Proof.
  apply opt_json_inj; [|apply lossless_text_inj]. intros x. unfold SourceFacts.lossless_text.
  by destruct (valid_utf8 x).
Qed.
Lemma decimal_inj a b : decimal a = decimal b -> a = b.
Proof. apply opt_json_inj; [done|]. intros x y [= H]. by apply to_string_inj. Qed.
Lemma number_inj a b : number a = number b -> a = b.
Proof. apply opt_json_inj; [done|]. by intros x y [= ->]. Qed.
Lemma status_inj a b : status a = status b -> a = b.
Proof.
  apply (opt_json_inj (fun s => status (Some s))); [done|]. clear.
  intros [k v] [k' v'] H. pose proof (f_equal (find "kind") H) as H1. pose proof (f_equal (find "value") H) as H2.
  cbn in H1, H2. injection H2 as H2%to_string_inj. subst. by destruct k, k'.
Qed.
Lemma field_eq k a b x y : a = b -> find k a = Some x -> find k b = Some y -> x = y.
Proof. intros -> H1 H2. congruence. Qed.
Ltac member k H := let E := fresh "E" in pose proof (field_eq k _ _ _ _ H eq_refl eq_refl) as E;
  cbn [fst snd] in E; unfold observed_source_kind_name in E.
Ltac values := repeat match goal with
  | H : text _ = text _ |- _ => apply text_inj in H
  | H : decimal _ = decimal _ |- _ => apply decimal_inj in H
  | H : number _ = number _ |- _ => apply number_inj in H
  | H : status _ = status _ |- _ => apply status_inj in H
  | H : lossless_text _ = lossless_text _ |- _ => apply lossless_text_inj in H
  | H : JStr (to_string _) = JStr (to_string _) |- _ => injection H as H; apply to_string_inj in H
  | H : JStr (source_kind_name _) = JStr (source_kind_name _) |- _ => injection H as H; apply source_kind_name_inj in H
  | H : JUint _ = JUint _ |- _ => injection H as H
  end.
Lemma source_object_inj a b : source_object valid_utf8 a = source_object valid_utf8 b -> a = b.
Proof.
  intros H. member "kind" H. member "provider" H. member "channel" H. member "record_id" H.
  values. destruct a, b; simpl in *; congruence.
Qed.
Definition without_hint (p : RawProcessContext) : RawProcessContext := {|
  pc_pid := pc_pid p; pc_start_time_ticks := pc_start_time_ticks p; pc_executable := pc_executable p;
  pc_process_name := pc_process_name p; pc_user_name := pc_user_name p; pc_user_sid := pc_user_sid p;
  pc_process_guid := pc_process_guid p; pc_cached_context := None |}.
Lemma context_inj p q : context valid_utf8 p = context valid_utf8 q -> without_hint p = without_hint q.
Proof.
  intros H. member "pid" H. member "start_time_ticks" H. member "executable" H. member "process_name" H.
  member "user_name" H. member "user_sid" H. member "process_guid" H. values.
  unfold without_hint. congruence.
Qed.
Lemma hint_inj s p q : hint_facts valid_utf8 s p = hint_facts valid_utf8 s q ->
  without_hint p = without_hint q -> p = q.
Proof.
  intros H Hw. assert (E : pc_cached_context p = pc_cached_context q).
  { unfold hint_facts in H. destruct (pc_cached_context p) as [a|], (pc_cached_context q) as [b|]; try done.
    member "cached_process_context" H. f_equal. clear H Hw. rename E into H.
    member "source" H. member "process_start_time_ns" H. member "pid" H. member "process_guid" H.
    member "executable" H. member "user_name" H. member "user_sid" H. clear H. rename E into H.
    member "kind" H. member "provider" H. member "channel" H. member "record_id" H.
    values.
    destruct a as [[] ? ? ? ? ? ?], b as [[] ? ? ? ? ? ?]; simpl in *; congruence. }
  destruct p, q. unfold without_hint in Hw. simpl in *. congruence.
Qed.
Lemma network_object_inj a b : network_object valid_utf8 a = network_object valid_utf8 b ->
  ne_source a = ne_source b -> ne_timestamp a = ne_timestamp b -> ne_process a = ne_process b -> a = b.
Proof.
  intros H ? ? ?. member "direction_value" H. member "protocol_value" H. member "source_ip" H.
  member "source_port" H. member "destination_ip" H. member "destination_port" H.
  member "destination_hostname" H. values.
  destruct a as [? ? ? [] [] ? ? ? ? ?], b as [? ? ? [] [] ? ? ? ? ?]; simpl in *; congruence.
Qed.
Lemma file_object_inj a b : file_object valid_utf8 a = file_object valid_utf8 b ->
  fe_source a = fe_source b -> fe_timestamp a = fe_timestamp b -> fe_process a = fe_process b -> a = b.
Proof.
  intros H ? ? ?. member "operation_value" H. member "path" H. member "target_path" H. member "previous_path" H.
  member "sha256" H. member "phase" H. member "status" H. values.
  destruct a as [? ? ? [] ? ? ? ? [] ?], b as [? ? ? [] ? ? ? ? [] ?]; simpl in *; congruence.
Qed.
Lemma registry_object_inj a b : registry_object valid_utf8 a = registry_object valid_utf8 b ->
  re_source a = re_source b -> re_timestamp a = re_timestamp b -> re_process a = re_process b -> a = b.
Proof.
  intros H ? ? ?. member "operation_value" H. member "key_path" H. member "value_name" H.
  member "value_type" H. member "value_data" H. values.
  destruct a as [? ? ? [] ? ? ? ?], b as [? ? ? [] ? ? ? ?]; simpl in *; congruence.
Qed.
Lemma image_object_inj a b : image_object valid_utf8 a = image_object valid_utf8 b ->
  ie_source a = ie_source b -> ie_timestamp a = ie_timestamp b -> ie_process a = ie_process b -> a = b.
Proof.
  intros H ? ? ?. member "path" H. member "is_signed" H. member "signature_status" H. member "sha256" H. values.
  match goal with H : opt_json JBool _ = opt_json JBool _ |- _ =>
    apply opt_json_inj in H; [|done|by intros x y [= ->]] end.
  destruct a, b; simpl in *; congruence.
Qed.

(** equal facts of two events of one family, whose own member is [k] *)
Ltac same_family k Hb He object_inj :=
  apply (Ok_inj (A := json)) in Hb; cbn [enrichment_facts] in He;
  let Es := fresh "Es" in let Et := fresh "Et" in let Ep := fresh "Ep" in let Eo := fresh "Eo" in
  pose proof (field_eq "source" _ _ _ _ Hb eq_refl eq_refl) as Es;
  pose proof (field_eq "event_time_ns" _ _ _ _ Hb eq_refl eq_refl) as Et;
  pose proof (field_eq "process" _ _ _ _ Hb eq_refl eq_refl) as Ep;
  pose proof (field_eq k _ _ _ _ Hb eq_refl eq_refl) as Eo; cbn [fst snd] in Es, Et, Ep, Eo;
  apply source_object_inj in Es; injection Et as Et; apply to_string_inj in Et; apply context_inj in Ep;
  rewrite Es in He; apply hint_inj in He; [|congruence];
  f_equal; apply object_inj; congruence.

(** the families whose facts are copied field by field *)
Definition is_family (raw : RawEvent) : bool :=
  match raw with ProcessEvent _ | SysmonExtendedEvent _ => false | _ => true end.
Lemma process_family e j : process_facts valid_utf8 e = Ok j -> find "family" j = Some (JStr "process").
Proof.
  unfold process_facts. intros H. apply bind_Ok in H as (p1 & _ & H). apply bind_Ok in H as (p2 & _ & [= <-]).
  by destruct (pe_terminated e).
Qed.
(** The decoded facts of a network, file, registry or image-load event together
    with its cache hint determine the event completely. *)
Theorem source_facts_lossless (a b : RawEvent) (facts : json) :
  is_family a = true ->
  source_facts valid_utf8 a = Ok facts -> source_facts valid_utf8 b = Ok facts ->
  enrichment_facts valid_utf8 a = enrichment_facts valid_utf8 b -> a = b.
Proof.
  intros Hf Ha Hb He.
  assert (Hfam : forall k, source_facts valid_utf8 b = Ok facts -> find "family" facts = Some (JStr k) ->
    match b with
    | ProcessEvent _ => k = "process" | NetworkEvent _ => k = "network" | FileEvent _ => k = "file"
    | RegistryEvent _ => k = "registry" | ImageLoadEvent _ => k = "image_load"
    | SysmonExtendedEvent e => k = extended_family (xe_event_id e) end).
  { intros k Hk Hn. destruct b as [e|e|e|e|e|e]; [apply process_family in Hk; congruence|..];
      injection Hk as <-;
      pose proof (field_eq "family" _ _ _ _ eq_refl Hn eq_refl) as E; cbn [fst snd] in E; congruence. }
  specialize (fun k => Hfam k Hb). unfold extended_family in Hfam.
  destruct a as [e|e|e|e|e|e]; try done; injection Ha as <-;
    specialize (Hfam _ eq_refl); destruct b as [d|d|d|d|d|d]; try done;
    try (destruct (_ =? 22); [done|]; destruct (_ =? 10); done).
  - same_family "network" Hb He network_object_inj.
  - same_family "file" Hb He file_object_inj.
  - same_family "registry" Hb He registry_object_inj.
  - same_family "image" Hb He image_object_inj.
Qed.
End Lossless.

(** ** A file event whose path is not UTF-8 *)
Definition only_ascii (s : string) : bool := str_forallb (fun c => code c <? 128) s.
Definition sample_context : RawProcessContext := {|
  pc_pid := 7; pc_start_time_ticks := Some 5; pc_executable := Some "a.exe"; pc_process_name := None;
  pc_user_name := None; pc_user_sid := None; pc_process_guid := Some "{g}"; pc_cached_context := None |}.
Definition sample_file (path : string) : RawEvent := FileEvent {|
  fe_source := {| sp_kind := minifilter; sp_provider := "p"; sp_channel := None; sp_record_id := Some 9 |};
  fe_timestamp := 1; fe_process := sample_context; fe_operation := file_write; fe_path := Some path;
  fe_target_path := None; fe_previous_path := None; fe_sha256 := None; fe_phase := completed_phase;
  fe_status := Some {| ns_kind := ntstatus; ns_value := 3221225506 |} |}.
Definition bad_path : string := String (ascii_of_N 255) "x".
Definition sample_facts : json :=
  match source_facts only_ascii (sample_file bad_path) with Ok j => j | Throw _ => JNull end.
Lemma source_facts_lossless_witness :
  (f ← find "file" sample_facts; p ← find "path" f; find "bytes" p) = Some (JStr "ff78") /\
  sample_file (String (ascii_of_N 255) "x") = sample_file bad_path.
Proof.
  split; [vm_compute; reflexivity|].
  refine (source_facts_lossless only_ascii (sample_file (String (ascii_of_N 255) "x")) (sample_file bad_path)
    sample_facts _ _ _ _); vm_compute; reflexivity.
Defined.
