(* ===== verification/Normalizer.v ===== *)
(** * Normalization

    [pipeline/normalizer.cpp]: raw process, network, file, registry and
    image-load events become Schema 0.3 events.  A function with an
    [error_message] out-parameter returns the message or the event. *)

From S2P Require Import Prelude Telemetry Identity Ledger Json Command CommandFacts Calendar SourceFacts Serializer SerializerFacts.

(** ** Enriched process events ([enrichment/enriched_process_event.hpp]) *)
Record ResolvedUser := { ru_name : option string; ru_domain : option string; ru_sid : option string }.
Record EnrichedProcessEvent := {
  en_raw : RawProcessEvent; en_user : ResolvedUser; en_process_name : option string;
  en_sha256 : option string; en_parent_name : option string; en_parent_start_time : option UtcTimestamp }.
Record NormalizationContext := { nc_agent : AgentMetadata; nc_host : HostMetadata }.

#[local] Instance outcome_bind : MBind (sum string) := fun A B f r =>
  match r with inr a => f a | inl e => inl e end.
Definition refuse_if (b : bool) (error : string) : outcome unit := if b then inl error else inr tt.

(** ** Hashes, names and accounts *)
(** [std::isxdigit], [std::tolower] in the C locale *)
Definition is_hexadecimal (c : ascii) : bool :=
  is_lower_hex c || ((65 <=? code c) && (code c <=? 70)).
Definition tolower (c : ascii) : ascii :=
  if (65 <=? code c) && (code c <=? 90) then ascii_of_N (Z.to_N (code c + 32)) else c.
Fixpoint lowercase (s : string) : string :=
  match s with "" => "" | String c s => String (tolower c) (lowercase s) end.
Definition hash_value (message : string) (input : option string) : outcome (option string) :=
  match input with
  | None => inr None
  | Some s =>
      if negb (slen s =? 64) || negb (str_forallb is_hexadecimal s) then inl message
      else inr (Some (lowercase s))
  end.
Definition normalized_sha256 : option string -> outcome (option string) :=
  hash_value "A process SHA-256 value must contain exactly 64 hexadecimal characters.".
Definition canonical_sha256 : option string -> outcome (option string) :=
  hash_value "A telemetry SHA-256 value must contain exactly 64 hexadecimal characters.".

Definition context_is_valid (context : NormalizationContext) : outcome unit :=
  _ ← refuse_if (str_empty (am_id (nc_agent context)) || str_empty (am_version (nc_agent context)))
        "Normalization requires a non-empty agent ID and agent version.";
  refuse_if (str_empty (hm_id (nc_host context)) || str_empty (hm_hostname (nc_host context))
             || str_empty (os_name (hm_os (nc_host context))) || str_empty (os_build (hm_os (nc_host context))))
    "Normalization requires complete host identity and OS metadata.".

(** the part behind the last separator *)
Fixpoint leaf_from (s acc : string) : string :=
  match s with
  | "" => acc
  | String c r =>
      if Ascii.eqb c "\" || Ascii.eqb c "/" then leaf_from r "" else leaf_from r (acc +:+ String c "")
  end.
Definition leaf_name (path : option string) : option string :=
  match path with
  | None => None
  | Some p => if str_empty p then None else Some (leaf_from p "")
  end.
(** on a user without name and domain *)
Definition split_account (account : option string) : option string * option string :=
  match account with
  | None => (None, None)
  | Some a =>
      if str_empty a then (None, None)
      else match str_split "\" a with
           | None => (Some a, None)
           | Some (d, n) => (if str_empty n then None else Some n, if str_empty d then None else Some d)
           end
  end.

Definition source_metadata (s : SourceProvenance) : SourceMetadata := {|
  sm_kind := source_kind_name (sp_kind s); sm_provider := sp_provider s; sm_channel := sp_channel s;
  sm_record_id := sp_record_id s |}.

(** ** Process starts *)
Section Normalize.
Context (cng_sha256 : string -> outcome (list Z)).

Definition normalize_process_event (enriched : EnrichedProcessEvent) (context : NormalizationContext)
  : outcome PanopticonEvent :=
  let raw := en_raw enriched in
  let host_id := hm_id (nc_host context) in
  _ ← refuse_if (pe_terminated raw)
        "Process stop requires the canonical lifecycle path, not process-start normalization";
  _ ← context_is_valid context;
  _ ← refuse_if (str_empty (sp_provider (pe_source raw)))
        "A raw process event must identify its source provider.";
  _ ← refuse_if (bool_decide (en_parent_start_time enriched <> None) && bool_decide (pe_parent_pid raw = None))
        "A parent process start time cannot be used without a parent PID.";
  entity_id ← derive_process_entity_id cng_sha256 host_id (pe_pid raw) (pe_process_start_time raw);
  event_id ← derive_process_event_id cng_sha256 host_id raw;
  parent_entity_id ← match pe_parent_pid raw, en_parent_start_time enriched with
    | Some pid, Some start =>
        id ← derive_process_entity_id cng_sha256 host_id pid start;
        inr (Some id)
    | _, _ => inr None
    end;
  sha ← normalized_sha256 (en_sha256 enriched);
  let timestamp := format_utc_timestamp (pe_process_start_time raw) in
  _ ← refuse_if (str_empty timestamp) "The process start time could not be formatted as UTC.";
  inr {| schema_version := kSchemaVersion;
         event := {| em_id := event_id; em_category := "process"; em_type := "start"; em_timestamp := timestamp |};
         source := source_metadata (pe_source raw);
         agent := nc_agent context; host := nc_host context;
         user := {| um_name := ru_name (en_user enriched); um_domain := ru_domain (en_user enriched);
                    um_sid := match ru_sid (en_user enriched) with Some s => Some s | None => pe_user_sid raw end |};
         process := {| pm_entity_id := entity_id; pm_pid := pe_pid raw; pm_name := en_process_name enriched;
                       pm_executable := pe_executable raw; pm_command_line := pe_command_line raw;
                       pm_parent := {| pp_entity_id := parent_entity_id; pp_pid := pe_parent_pid raw;
                                       pp_name := en_parent_name enriched |};
                       pm_hash := {| sha256 := sha |}; pm_start_time_ticks := pe_start_time_ticks raw |};
         network := None; file := None; registry := None; image_load := None |}.

(** ** Telemetry families *)
Definition apply_hint (source : SourceProvenance) (p : RawProcessContext) : RawProcessContext :=
  match pc_cached_context p with
  | Some cached =>
      if cached_context_applicable source p
      then {| pc_pid := pc_pid p; pc_start_time_ticks := pc_start_time_ticks p;
              pc_executable := cc_executable cached; pc_process_name := pc_process_name p;
              pc_user_name := match pc_user_name p with Some u => Some u | None => cc_user_name cached end;
              pc_user_sid := match pc_user_sid p with Some u => Some u | None => cc_user_sid cached end;
              pc_process_guid := pc_process_guid p; pc_cached_context := pc_cached_context p |}
      else p
  | None => p
  end.
Definition build_family_base (source : SourceProvenance) (observed_process : RawProcessContext)
  (timestamp : UtcTimestamp) (category type : string) (context : NormalizationContext)
  : outcome PanopticonEvent :=
  let host_id := hm_id (nc_host context) in
  _ ← context_is_valid context;
  _ ← refuse_if (str_empty (sp_provider source)) "A raw telemetry event must identify its source provider.";
  let p := apply_hint source observed_process in
  entity_id ← derive_process_context_entity_id cng_sha256 host_id (pc_pid p) (value_or (pc_process_guid p) "");
  event_id ← derive_telemetry_event_id cng_sha256 host_id source category type (pc_pid p) timestamp;
  let formatted := format_utc_timestamp timestamp in
  _ ← refuse_if (str_empty formatted) "The telemetry timestamp could not be formatted as UTC.";
  let '(name, domain) := split_account (pc_user_name p) in
  inr {| schema_version := kSchemaVersion;
         event := {| em_id := event_id; em_category := category; em_type := type; em_timestamp := formatted |};
         source := source_metadata source; agent := nc_agent context; host := nc_host context;
         user := {| um_name := name; um_domain := domain; um_sid := pc_user_sid p |};
         process := {| pm_entity_id := entity_id; pm_pid := pc_pid p;
                       pm_name := match pc_process_name p with Some n => Some n | None => leaf_name (pc_executable p) end;
                       pm_executable := pc_executable p; pm_command_line := None;
                       pm_parent := {| pp_entity_id := None; pp_pid := None; pp_name := None |};
                       pm_hash := {| sha256 := None |}; pm_start_time_ticks := None |};
         network := None; file := None; registry := None; image_load := None |}.

Definition network_direction_name (d : NetworkDirection) : string :=
  match d with inbound => "inbound" | outbound => "outbound" end.
Definition network_protocol_name (p : NetworkProtocol) : option string :=
  match p with tcp => Some "tcp" | udp => Some "udp" | other_protocol => None end.
Definition file_operation_name (op : FileOperation) : string :=
  match op with
  | file_create => "create" | file_remove => "delete" | file_rename => "rename" | file_open => "open"
  | file_write => "write" | file_set_information => "set_information" | file_overwrite => "overwrite"
  end.
Definition registry_operation_name (op : RegistryOperation) : string :=
  match op with
  | add_key => "add_key" | delete_key => "delete_key" | set_value => "set_value" | rename_key => "rename_key"
  end.
(** the event with its family block *)
Definition with_blocks (e : PanopticonEvent) n f r i : PanopticonEvent := {|
  schema_version := schema_version e; event := event e; source := source e; agent := agent e; host := host e;
  user := user e; process := process e; network := n; file := f; registry := r; image_load := i |}.

Definition normalize_network_event (e : RawNetworkEvent) (context : NormalizationContext)
  : outcome PanopticonEvent :=
  base ← build_family_base (ne_source e) (ne_process e) (ne_timestamp e) "network" "connect" context;
  inr (with_blocks base
    (Some {| nm_direction := network_direction_name (ne_direction e);
             nm_protocol := network_protocol_name (ne_protocol e); nm_source_ip := ne_source_ip e;
             nm_source_port := ne_source_port e; nm_destination_ip := ne_destination_ip e;
             nm_destination_port := ne_destination_port e;
             nm_destination_hostname := ne_destination_hostname e |}) None None None).
Definition normalize_file_event (e : RawFileEvent) (context : NormalizationContext)
  : outcome PanopticonEvent :=
  let operation := file_operation_name (fe_operation e) in
  base ← build_family_base (fe_source e) (fe_process e) (fe_timestamp e) "file" operation context;
  sha ← canonical_sha256 (fe_sha256 e);
  inr (with_blocks base None
    (Some {| fm_operation := operation; fm_path := fe_path e; fm_target_path := fe_target_path e;
             fm_previous_path := fe_previous_path e; fm_hash := {| sha256 := sha |} |}) None None).
Definition normalize_registry_event (e : RawRegistryEvent) (context : NormalizationContext)
  : outcome PanopticonEvent :=
  let operation := registry_operation_name (re_operation e) in
  base ← build_family_base (re_source e) (re_process e) (re_timestamp e) "registry" operation context;
  inr (with_blocks base None None
    (Some {| rm_operation := operation; rm_key_path := re_key_path e; rm_value_name := re_value_name e;
             rm_value_type := re_value_type e; rm_value_data := re_value_data e |}) None).
Definition normalize_image_load_event (e : RawImageLoadEvent) (context : NormalizationContext)
  : outcome PanopticonEvent :=
  base ← build_family_base (ie_source e) (ie_process e) (ie_timestamp e) "image_load" "load" context;
  sha ← canonical_sha256 (ie_sha256 e);
  inr (with_blocks base None None None
    (Some {| im_path := ie_path e; im_is_signed := ie_is_signed e; im_signature_status := ie_signature_status e;
             im_hash := {| sha256 := sha |} |})).

(** ** The dispatch of the pipeline ([main.cpp]) *)
Definition file_name (path : option string) : option string := leaf_name path.
Definition populate_user (account : option string) : ResolvedUser :=
  let '(name, domain) := split_account account in {| ru_name := name; ru_domain := domain; ru_sid := None |}.
Definition enrich_process (raw : RawProcessEvent) : EnrichedProcessEvent := {|
  en_raw := raw; en_user := populate_user (pe_user_name raw); en_process_name := file_name (pe_executable raw);
  en_sha256 := pe_sha256 raw; en_parent_name := file_name (pe_parent_executable raw);
  en_parent_start_time := None |}.
Definition normalize_raw (raw : RawEvent) (context : NormalizationContext) : outcome PanopticonEvent :=
  match raw with
  | ProcessEvent e => normalize_process_event (enrich_process e) context
  | NetworkEvent e => normalize_network_event e context
  | FileEvent e => normalize_file_event e context
  | RegistryEvent e => normalize_registry_event e context
  | ImageLoadEvent e => normalize_image_load_event e context
  | SysmonExtendedEvent _ =>
      inl "Normalization exception: Sysmon extension must use the direct canonical path"
  end.
End Normalize.
