(* ===== verification/NormalizerFacts.v ===== *)
(** * Normalized events are readable

    Whatever the normalizer emits for a raw event whose texts are not empty and
    whose numbers fit their types is a well-formed Schema 0.3 event: the strict
    reader of [Serializer] returns it unchanged. *)

From S2P Require Import Prelude Telemetry Identity Ledger Json Command CommandFacts Calendar SourceFacts Serializer SerializerFacts Normalizer.

(** ** Identifiers, hashes and timestamps have the required shape *)
Lemma lowercase_pattern s :
  slen s = 64 -> str_forallb is_hexadecimal s = true -> sha256_pattern (lowercase s) = true.
Proof.
  assert (E : forall c, is_hexadecimal c = true -> is_lower_hex (tolower c) = true)
    by (intros [[] [] [] [] [] [] [] []]; vm_compute; done).
  intros Hl Hx. unfold sha256_pattern, hex_id_pattern. cbn [starts_with String.length str_drop].
  assert (slen (lowercase s) = slen s) as ->.
  { clear. induction s as [|c s IH]; [done|]. cbn [lowercase]. by rewrite !slen_cons, IH. }
  rewrite Hl. cbn [andb]. clear Hl. induction s as [|c s IH]; [done|]. simpl in *.
  apply andb_true_iff in Hx as [H1 H2]. by rewrite E, IH.
Qed.
Lemma hash_value_ok m input sha : hash_value m input = inr sha -> opt_ok sha256_pattern sha = true.
Proof.
  unfold hash_value. destruct input as [s|]; [|by intros [= <-]].
  destruct (_ || _) eqn:E; [done|]. intros [= <-]. simpl. apply orb_false_iff in E as [E1 E2].
  apply negb_false_iff in E1, E2. apply lowercase_pattern; [by apply Z.eqb_eq|done].
Qed.
Lemma two_matches n shape rest : 0 <= n < 100 ->
  matches (String "d" (String "d" shape)) (two n rest) = matches shape rest.
Proof.
  intros Hn. assert (D : forall v, 0 <= v < 10 -> is_digit (digit_char v) = true).
  { intros v. apply (below_forallb (fun v => is_digit (digit_char v))). reflexivity. }
  unfold two. cbn [matches]. change (Ascii.eqb "d" "d") with true. cbn iota.
  rewrite !D by (Z.to_euclidean_division_equations; lia). done.
Qed.
Lemma printf_three_matches v : 0 <= v < 1000 -> matches "dddZ" (printf_0d 3 v +:+ "Z") = true.
Proof. apply (below_forallb (fun v => matches "dddZ" (printf_0d 3 v +:+ "Z"))). vm_compute. reflexivity. Qed.
Lemma timestamp_shape ts : str_empty (format_utc_timestamp ts) = false ->
  timestamp_pattern (format_utc_timestamp ts) = true.
Proof.
  intros H. destruct (gmtime_s (ts / 1000000000)) as [u|] eqn:Hg.
  2:{ unfold format_utc_timestamp in H. by rewrite Hg in H. }
  rewrite (format_text _ _ Hg). clear H. apply gmtime_spec in Hg as (_ & ? & (? & ? & ?) & (? & ? & ?) & _).
  pose proof (max_day_31 (tm_year u + 1900) (tm_mon u + 1)).
  assert (L : forall c shape rest, Ascii.eqb c "d" = false -> matches (String c shape) (String c rest) = matches shape rest).
  { intros c sh r E. simpl. by rewrite E, Ascii.eqb_refl. }
  unfold timestamp_pattern, utc_text.
  rewrite two_matches, two_matches, L, two_matches, L, two_matches, L, two_matches, L, two_matches, L, two_matches
    by (done || (Z.to_euclidean_division_equations; lia)).
  cbn [String.append]. rewrite L by done. apply printf_three_matches.
  unfold milliseconds. Z.to_euclidean_division_equations; lia.
Qed.

(** ** What is asked of a raw event *)
(** the present texts are not empty, the numbers fit, and an executable has a leaf name *)
Definition source_fields_ok (s : SourceProvenance) : bool :=
  opt_ok nonempty (sp_channel s) && opt_ok (up_to u64_max) (sp_record_id s).
Definition observed_ok (s : SourceProvenance) (observed : RawProcessContext) : bool :=
  let p := apply_hint s observed in
  up_to u32_max (pc_pid p) && opt_ok nonempty (pc_process_name p) && opt_ok nonempty (pc_executable p)
  && opt_ok nonempty (leaf_name (pc_executable p)) && opt_ok nonempty (pc_user_sid p).
Definition raw_event_ok (raw : RawEvent) : bool :=
  match raw with
  | ProcessEvent e =>
      source_fields_ok (pe_source e) && up_to u32_max (pe_pid e) && opt_ok (up_to i64_max) (pe_start_time_ticks e)
      && opt_ok (up_to u32_max) (pe_parent_pid e) && opt_ok nonempty (pe_executable e)
      && opt_ok nonempty (leaf_name (pe_executable e)) && opt_ok nonempty (leaf_name (pe_parent_executable e))
      && opt_ok nonempty (pe_command_line e) && opt_ok nonempty (pe_user_sid e)
  | NetworkEvent e =>
      source_fields_ok (ne_source e) && observed_ok (ne_source e) (ne_process e)
      && opt_ok nonempty (ne_source_ip e) && opt_ok (up_to 65535) (ne_source_port e)
      && opt_ok nonempty (ne_destination_ip e) && opt_ok (up_to 65535) (ne_destination_port e)
      && opt_ok nonempty (ne_destination_hostname e)
  | FileEvent e =>
      source_fields_ok (fe_source e) && observed_ok (fe_source e) (fe_process e) && opt_ok nonempty (fe_path e)
      && opt_ok nonempty (fe_target_path e) && opt_ok nonempty (fe_previous_path e)
  | RegistryEvent e =>
      source_fields_ok (re_source e) && observed_ok (re_source e) (re_process e) && opt_ok nonempty (re_key_path e)
      && opt_ok nonempty (re_value_name e) && opt_ok nonempty (re_value_type e) && opt_ok nonempty (re_value_data e)
  | ImageLoadEvent e =>
      source_fields_ok (ie_source e) && observed_ok (ie_source e) (ie_process e) && opt_ok nonempty (ie_path e)
      && opt_ok nonempty (ie_signature_status e)
  | SysmonExtendedEvent _ => false
  end.

Section Readable.
Context (cng_sha256 : string -> string + list Z).
Hypothesis digest_bytes : forall input d, cng_sha256 input = inr d ->
  zlen d = 32 /\ Forall (fun b => 0 <= b < 256) d.
#[local] Instance readable_bind : MBind (sum string) := outcome_bind.

Lemma outcome_bind_inr {A B} (r : string + A) (f : A -> string + B) b :
  @mbind (sum string) outcome_bind A B f r = inr b -> exists a, r = inr a /\ f a = inr b.
Proof. destruct r; simpl; [done|eauto]. Qed.
Lemma refuse_if_inr b e u : refuse_if b e = inr u -> b = false.
Proof. by destruct b. Qed.
Lemma prefixed_pattern p canonical id : prefixed cng_sha256 p canonical = inr id -> hex_id_pattern p id = true.
Proof.
  unfold prefixed, sha256_hex. destruct (u32_max <? _); [done|].
  destruct (cng_sha256 canonical) as [e|d] eqn:E; [done|]. intros [= <-]. apply digest_bytes in E as [Hl Hd].
  unfold hex_id_pattern. rewrite starts_with_app, slen_app, hex_bytes_length, Hl, Z.eqb_refl, str_drop_app.
  by apply hex_bytes_lower.
Qed.
Lemma process_entity_pattern h p t id :
  derive_process_entity_id cng_sha256 h p t = inr id -> entity_id_pattern id = true.
Proof. unfold derive_process_entity_id. destruct (str_empty h); [done|apply prefixed_pattern]. Qed.
Lemma process_event_pattern h r id :
  derive_process_event_id cng_sha256 h r = inr id -> event_id_pattern id = true.
Proof.
  unfold derive_process_event_id. destruct (str_empty h); [done|].
  destruct (str_empty (sp_provider _)); [done|apply prefixed_pattern].
Qed.
Lemma context_entity_pattern h p g id :
  derive_process_context_entity_id cng_sha256 h p g = inr id -> entity_id_pattern id = true.
Proof. unfold derive_process_context_entity_id. destruct (str_empty h); [done|apply prefixed_pattern]. Qed.
Lemma telemetry_event_pattern h s c ty p t id :
  derive_telemetry_event_id cng_sha256 h s c ty p t = inr id -> event_id_pattern id = true.
Proof.
  unfold derive_telemetry_event_id. destruct (str_empty h); [done|].
  destruct (str_empty (sp_provider _)); [done|apply prefixed_pattern].
Qed.
Lemma context_valid_ok c u : context_is_valid c = inr u ->
  agent_ok (nc_agent c) = true /\ host_ok (nc_host c) = true.
Proof.
  unfold context_is_valid. intros H. apply outcome_bind_inr in H as (v & H1%refuse_if_inr & H2%refuse_if_inr).
  unfold agent_ok, host_ok, nonempty. by destruct (str_empty _), (str_empty _), (str_empty _), (str_empty _),
    (str_empty _), (str_empty _).
Qed.
Lemma source_metadata_ok s : str_empty (sp_provider s) = false -> source_fields_ok s = true ->
  source_ok (source_metadata s) = true.
Proof.
  unfold source_fields_ok, source_ok. intros Hp H. ok_split. simpl.
  unfold nonempty at 1. rewrite Hp. destruct (sp_kind s); simpl; rewrite_ok.
Qed.
Lemma split_account_ok account n d : split_account account = (n, d) ->
  opt_ok nonempty n = true /\ opt_ok nonempty d = true.
Proof.
  unfold split_account, nonempty. destruct account as [a|]; [|by intros [= <- <-]].
  destruct (str_empty a) eqn:E; [by intros [= <- <-]|].
  destruct (str_split "\" a) as [[x y]|]; [|intros [= <- <-]; simpl; by rewrite E].
  intros [= <- <-]. destruct (str_empty x) eqn:E1, (str_empty y) eqn:E2; simpl; by rewrite ?E1, ?E2.
Qed.
(** the parts of a family event that do not depend on the family *)
Lemma family_base_ok s p ts category type c e :
  build_family_base cng_sha256 s p ts category type c = inr e ->
  source_fields_ok s = true -> observed_ok s p = true ->
  schema_version e = kSchemaVersion /\ em_category (event e) = category /\ em_type (event e) = type /\
  event_id_pattern (em_id (event e)) = true /\ timestamp_pattern (em_timestamp (event e)) = true /\
  source_ok (source e) = true /\ agent_ok (agent e) = true /\ host_ok (host e) = true /\
  user_ok (user e) = true /\ process_ok (process e) = true.
Proof.
  unfold build_family_base. intros H Hs Hp.
  apply outcome_bind_inr in H as (u & [Ha Hh]%context_valid_ok & H).
  apply outcome_bind_inr in H as (u2 & Hprov%refuse_if_inr & H).
  unfold observed_ok in Hp. set (q := apply_hint s p) in *. ok_split.
  apply outcome_bind_inr in H as (entity & Hent & H). apply outcome_bind_inr in H as (ev & Hev & H).
  apply outcome_bind_inr in H as (u3 & Ht%refuse_if_inr & H).
  destruct (split_account (pc_user_name q)) as [n d] eqn:Hacc.
  apply split_account_ok in Hacc as [Hn Hd]. injection H as <-. simpl.
  apply context_entity_pattern in Hent. apply telemetry_event_pattern in Hev.
  assert (Hname : opt_ok nonempty (match pc_process_name q with Some n => Some n | None => leaf_name (pc_executable q) end) = true)
    by (destruct (pc_process_name q); done).
  repeat split; try done.
  - by apply timestamp_shape.
  - by apply source_metadata_ok.
  - unfold user_ok. simpl. rewrite_ok.
  - unfold process_ok, parent_ok, hash_ok. simpl. rewrite Hname. rewrite_ok.
Qed.
Ltac family_event H :=
  let base := fresh "base" in let Hb := fresh "Hb" in
  apply outcome_bind_inr in H as (base & Hb & H);
  apply family_base_ok in Hb as (? & ? & ? & ? & ? & ? & ? & ? & ? & ?); [|assumption..].
Ltac family_checks :=
  unfold well_formed, family_ok;
  cbn [with_blocks schema_version event source agent host user process network file registry image_load opt_ok absent];
  repeat match goal with
  | H : schema_version ?b = _ |- context [schema_version ?b] => rewrite H
  | H : em_category (event ?b) = _ |- context [em_category (event ?b)] => rewrite H
  | H : em_type (event ?b) = _ |- context [em_type (event ?b)] => rewrite H
  end.
(** each conjunct is a hypothesis or evaluates to true *)
Ltac conjuncts := repeat match goal with |- _ && _ = true => apply andb_true_iff; split end;
  first [reflexivity | assumption].
Lemma normalized_well_formed raw c e :
  raw_event_ok raw = true -> normalize_raw cng_sha256 raw c = inr e -> well_formed e = true.
Proof.
  intros Hok H. destruct raw as [r|r|r|r|r|r]; cbn [raw_event_ok normalize_raw] in *; [..|done].
  - ok_split. unfold normalize_process_event in H. cbn [enrich_process en_raw en_user en_process_name en_sha256
      en_parent_name en_parent_start_time] in H.
    apply outcome_bind_inr in H as (u0 & _ & H). apply outcome_bind_inr in H as (u & [Ha Hh]%context_valid_ok & H).
    apply outcome_bind_inr in H as (u2 & Hprov%refuse_if_inr & H). apply outcome_bind_inr in H as (u3 & _ & H).
    apply outcome_bind_inr in H as (ent & Hent%process_entity_pattern & H).
    apply outcome_bind_inr in H as (ev & Hev%process_event_pattern & H).
    apply outcome_bind_inr in H as (par & Hpar & H). apply outcome_bind_inr in H as (sha & Hsha%hash_value_ok & H).
    apply outcome_bind_inr in H as (u4 & Ht%refuse_if_inr%timestamp_shape & [= <-]).
    assert (par = None) as -> by (destruct (pe_parent_pid r); congruence).
    pose proof (source_metadata_ok _ Hprov ltac:(eassumption)) as Hsrc.
    unfold populate_user. destruct (split_account _) as [n d] eqn:Hacc.
    apply split_account_ok in Hacc as [Hn Hd].
    family_checks. unfold user_ok, process_ok, parent_ok, hash_ok, file_name. conjuncts.
  - ok_split. unfold normalize_network_event in H. family_event H. injection H as <-. family_checks.
    unfold network_ok. destruct (ne_direction r), (ne_protocol r); conjuncts.
  - ok_split. unfold normalize_file_event in H. family_event H.
    apply outcome_bind_inr in H as (sha & Hsha%hash_value_ok & [= <-]). family_checks.
    unfold file_ok, hash_ok. destruct (fe_operation r); conjuncts.
  - ok_split. unfold normalize_registry_event in H. family_event H. injection H as <-. family_checks.
    unfold registry_ok. destruct (re_operation r); conjuncts.
  - ok_split. unfold normalize_image_load_event in H. family_event H.
    apply outcome_bind_inr in H as (sha & Hsha%hash_value_ok & [= <-]). family_checks.
    unfold image_load_ok, hash_ok. conjuncts.
Qed.

End Readable.

(** ** A concrete event *)
Definition zero_digest (_ : string) : string + list Z := inr (replicate 32 0).
Lemma zero_digest_bytes input d : zero_digest input = inr d -> zlen d = 32 /\ Forall (fun b => 0 <= b < 256) d.
Proof. intros [= <-]. split; [reflexivity|]. repeat constructor; lia. Defined.
Definition sample_normalization : NormalizationContext := {|
  nc_agent := {| am_id := "a"; am_version := "0.3.0" |};
  nc_host := {| hm_id := "h"; hm_hostname := "n"; hm_os := {| os_name := "w"; os_build := "1" |} |} |}.
Definition sample_network (executable : string) : RawEvent := NetworkEvent {|
  ne_source := {| sp_kind := sysmon; sp_provider := "p"; sp_channel := None; sp_record_id := Some 1 |};
  ne_timestamp := 1704164645678901234;
  ne_process := {| pc_pid := 7; pc_start_time_ticks := None; pc_executable := Some executable;
    pc_process_name := None; pc_user_name := Some "DOM\user"; pc_user_sid := None; pc_process_guid := Some "{g}";
    pc_cached_context := None |};
  ne_direction := inbound; ne_protocol := udp; ne_source_ip := Some "10.0.0.1"; ne_source_port := Some 53;
  ne_destination_ip := None; ne_destination_port := None; ne_destination_hostname := None |}.
Definition normalized_sample (executable : string) : option PanopticonEvent :=
  match normalize_raw zero_digest (sample_network executable) sample_normalization with
  | inr e => Some e | inl _ => None end.
(** An executable that ends in a separator gives the process an empty name, which
    the reader refuses. *)
Example empty_leaf_refused :
  (fun e => parse_event (event_to_json e)) <$> normalized_sample "C:\d\" =
    Some (Throw (runtime_error "$.process.name cannot be empty when present.")).
Proof. vm_compute. reflexivity. Qed.
