(* ===== verification/EndpointRecord.v ===== *)
(** * Canonical endpoint records

    [pipeline/endpoint_record.cpp]: the factory that turns normalized events,
    process stops, states, health and gaps into canonical records.  Its methods
    are computations on the factory that keep what was changed before an
    exception, as the object does.  The clocks, the random bytes and UTF-8
    validation are parameters. *)

From S2P Require Import Prelude Telemetry Identity Json ProcessGraph Ledger Command CommandFacts Calendar SourceFacts Serializer SerializerFacts Normalizer.

(** ** The factory *)
Record EndpointRecordFactory := {
  context_ : NormalizationContext;
  device_id_ : string;
  installation_id_ : string;
  record_boot_id : option string;
  epoch_ : string;
  sequence_ : Z;
  generation_ : Z;
  processes_ : ProcessInstanceStore
}.
Definition with_sequence (n : Z) (f : EndpointRecordFactory) : EndpointRecordFactory := {|
  context_ := context_ f; device_id_ := device_id_ f; installation_id_ := installation_id_ f;
  record_boot_id := record_boot_id f; epoch_ := epoch_ f; sequence_ := n; generation_ := generation_ f;
  processes_ := processes_ f |}.
Definition with_processes (p : ProcessInstanceStore) (f : EndpointRecordFactory) : EndpointRecordFactory := {|
  context_ := context_ f; device_id_ := device_id_ f; installation_id_ := installation_id_ f;
  record_boot_id := record_boot_id f; epoch_ := epoch_ f; sequence_ := sequence_ f;
  generation_ := generation_ f; processes_ := p |}.

(** a method: the value or the exception, and the factory afterwards *)
Definition F (A : Type) : Type := EndpointRecordFactory -> result A * EndpointRecordFactory.
#[global] Instance F_ret : MRet F := fun A a f => (Ok a, f).
#[global] Instance F_bind : MBind F := fun A B k m f =>
  match m f with (Ok a, f) => k a f | (Throw e, f) => (Throw e, f) end.
Definition this : F EndpointRecordFactory := fun f => (Ok f, f).
Definition modify (g : EndpointRecordFactory -> EndpointRecordFactory) : F unit := fun f => (Ok tt, g f).
Definition lift {A} (r : result A) : F A := fun f => (r, f).
Definition raise_if (b : bool) (e : exn) : F unit := lift (throw_if b e).

(** what the clocks show during one call: [now()] in the method, [now()] and the
    uptime in the envelope *)
Record Clocks := { call_now : UtcTimestamp; received_now : UtcTimestamp; uptime_ms : Z }.

Definition nullable (value : option string) : json := opt_json JStr value.
Definition decimal_or_null (value : option Z) : json := opt_json (fun v => JStr (to_string v)) value.

(** [j[k1][k2]... = v] on nested objects; a missing or null level becomes an object *)
Fixpoint set_path (path : list string) (v : json) (j : json) : json :=
  match path with
  | [] => v
  | k :: path =>
      let j := if is_null j then object [] else j in
      set_member k (set_path path v (default JNull (find k j))) j
  end.
Definition erase_member (k : string) (j : json) : json :=
  match j with JObj l => JObj (filter (fun m => m.1 <> k) l) | _ => j end.

Section Records.
Context (cng_sha256 : string -> string + list Z).
Context (valid_utf8 : string -> bool).

Definition hash (input : string) : result string :=
  match sha256_hex cng_sha256 input with inr h => Ok h | inl error => Throw (runtime_error error) end.
(** [random]: 32 bytes of the system's generator, or its failure *)
Definition fresh_epoch (random : option string) : result string :=
  bytes ← of_option random (runtime_error "observation epoch entropy unavailable");
  h ← hash bytes;
  Ok ("epoch_" +:+ h).
Definition make_factory (context : NormalizationContext) (device_id installation_id : string)
  (boot : option string) (generation : Z) (random : option string) : result EndpointRecordFactory :=
  epoch ← fresh_epoch random;
  processes ← make_store (hm_id (nc_host context)) boot (Z.to_nat 32768);
  _ ← throw_if (str_empty installation_id || str_empty device_id || (generation =? 0))
        (invalid_argument "canonical records require device, installation and committed generation identity");
  Ok {| context_ := context; device_id_ := device_id; installation_id_ := installation_id;
        record_boot_id := boot; epoch_ := epoch; sequence_ := 0; generation_ := generation;
        processes_ := processes |}.

Definition put_all (members : list (string * json)) (j : json) : json :=
  foldl (fun j m => set_member m.1 m.2 j) j members.
Definition stamp_provenance (clk : Clocks) (f : EndpointRecordFactory) (sequence : Z) (time : UtcTimestamp)
  (provenance : json) : json :=
  put_all
    [("collector_epoch", JStr (epoch_ f)); ("collector_generation", JStr (to_string (generation_ f)));
     ("capture_clock", JStr "windows_uptime_ms"); ("capture_uptime_ms", JStr (to_string (uptime_ms clk)));
     ("sequence", JStr (to_string sequence)); ("received_at", JStr (format_utc_timestamp (received_now clk)));
     ("event_time_ns", JStr (to_string time))] provenance.
Definition endpoint_json (f : EndpointRecordFactory) : json :=
  object [("agent_id", JStr (am_id (nc_agent (context_ f)))); ("host_id", JStr (hm_id (nc_host (context_ f))));
          ("device_id", JStr (device_id_ f)); ("installation_id", JStr (installation_id_ f));
          ("boot_id", nullable (record_boot_id f))].
(** the text whose digest is the record's identity *)
Definition record_text (f : EndpointRecordFactory) (sequence : Z) : string :=
  installation_id_ f +:+ ":" +:+ epoch_ f +:+ ":" +:+ to_string sequence.
Definition record_json (clk : Clocks) (f : EndpointRecordFactory) (sequence : Z) (digest : string)
  (kind category : string) (time : UtcTimestamp) (provenance subject data : json) : json :=
  object
    [("schema_version", JStr "1.0"); ("record_id", JStr ("rec_" +:+ digest)); ("kind", JStr kind);
     ("category", JStr category); ("observed_at", JStr (format_utc_timestamp time));
     ("endpoint", endpoint_json f); ("provenance", stamp_provenance clk f sequence time provenance);
     ("subject", subject); ("data", data)].
Definition envelope (clk : Clocks) (kind category : string) (time : UtcTimestamp)
  (provenance subject data : json) : F json :=
  f ← this;
  _ ← raise_if (sequence_ f =? u64_max) (runtime_error "observation sequence exhausted");
  let sequence := sequence_ f + 1 in
  _ ← modify (with_sequence sequence);
  h ← lift (hash (record_text f sequence));
  mret (record_json clk f sequence h kind category time provenance subject data).

(** [processes_.observe] *)
Definition observe_process (pid : Z) (ticks : option Z) (guid : option string) (ns : string)
  : F ProcessReference := fun f =>
  match observe cng_sha256 pid ticks guid ns (processes_ f) with
  | Ok (r, st) => (Ok r, with_processes st f)
  | Throw e => (Throw e, f)
  end.

Definition bad_guid (guid : option string) : bool :=
  match guid with Some g => str_empty g || (256 <? slen g) || negb (valid_utf8 g) | None => false end.

(** the parts of a raw event the record needs, for every family *)
Definition event_source (raw : RawEvent) : SourceProvenance :=
  match raw with
  | ProcessEvent e => pe_source e | NetworkEvent e => ne_source e | FileEvent e => fe_source e
  | RegistryEvent e => re_source e | ImageLoadEvent e => ie_source e | SysmonExtendedEvent e => xe_source e
  end.
Definition event_process (raw : RawEvent) : option RawProcessContext :=
  match raw with
  | ProcessEvent _ => None
  | NetworkEvent e => Some (ne_process e) | FileEvent e => Some (fe_process e)
  | RegistryEvent e => Some (re_process e) | ImageLoadEvent e => Some (ie_process e)
  | SysmonExtendedEvent e => Some (xe_process e)
  end.
Definition event_timestamp (raw : RawEvent) : UtcTimestamp :=
  match raw with
  | ProcessEvent e => pe_process_start_time e | NetworkEvent e => ne_timestamp e | FileEvent e => fe_timestamp e
  | RegistryEvent e => re_timestamp e | ImageLoadEvent e => ie_timestamp e | SysmonExtendedEvent e => xe_timestamp e
  end.
Definition scope_of (kind : string) (s : SourceProvenance) : string :=
  kind +:+ ":" +:+ sp_provider s +:+ ":" +:+ value_or (sp_channel s) "".

(** ** Observations *)
Definition observation (clk : Clocks) (raw : RawEvent) (normalized : PanopticonEvent) : F json :=
  facts ← lift (source_facts valid_utf8 raw);
  let data := erase_member "schema_version" (event_to_json normalized) in
  let data := set_member "source_facts" facts data in
  let data := set_member "enrichment" (enrichment_facts valid_utf8 raw) data in
  let s := event_source raw in
  let source_namespace := scope_of (sm_kind (source normalized)) s in
  _ ← raise_if (str_empty (sp_provider s) || (512 <? slen (sp_provider s))
                || negb (valid_utf8 (sp_provider s)) || (1024 <? slen source_namespace)
                || negb (valid_utf8 source_namespace)
                || match sp_channel s with Some c => 512 <? slen c | None => false end)
        (invalid_argument "source metadata cannot be represented in canonical provenance; retain decoded evidence");
  x ← match raw with
      | ProcessEvent e =>
          _ ← raise_if (bad_guid (pe_process_guid e))
                (invalid_argument "source process GUID cannot be represented in canonical reference");
          _ ← raise_if (bad_guid (pe_parent_process_guid e))
                (invalid_argument "source parent GUID cannot be represented in canonical reference");
          reference ← observe_process (pe_pid e) (pe_start_time_ticks e) (pe_process_guid e) source_namespace;
          let data := set_path ["process"; "parent"; "entity_id"] JNull data in
          let data := set_path ["process"; "parent"; "identity"] JNull data in
          match pe_parent_pid e with
          | None => mret (reference, data)
          | Some parent_pid =>
              parent ← observe_process parent_pid None (pe_parent_process_guid e) source_namespace;
              let data := set_path ["process"; "parent"; "entity_id"] (nullable (entity_id parent)) data in
              mret (reference, set_path ["process"; "parent"; "identity"] (reference_json parent) data)
          end
      | _ =>
          match event_process raw with
          | None => lift (Throw (logic_error "unreachable"))
          | Some p =>
              _ ← raise_if (bad_guid (pc_process_guid p))
                    (invalid_argument "source process GUID cannot be represented in canonical reference");
              reference ← observe_process (pc_pid p) (pc_start_time_ticks p) (pc_process_guid p) source_namespace;
              mret (reference, set_path ["process"; "parent"; "entity_id"] JNull data)
          end
      end;
  let '(reference, data) := x in
  let time := event_timestamp raw in
  let data := set_path ["process"; "entity_id"] (nullable (entity_id reference)) data in
  _ ← raise_if (str_empty (format_utc_timestamp time))
        (invalid_argument "native event time cannot be rendered as UTC; retain exact decoded value");
  let data := set_path ["process"; "start_time_ticks"]
    (decimal_or_null (native_creation_ticks reference)) data in
  let provenance := object
    [("kind", JStr (sm_kind (source normalized))); ("provider", JStr (sp_provider s));
     ("channel", nullable (sp_channel s)); ("native_record_id", decimal_or_null (sp_record_id s));
     ("native_observation_id", JStr (em_id (event normalized))); ("continuity", JStr "unverified")] in
  envelope clk "observation" (em_category (event normalized)) time provenance (reference_json reference) data.

(** ** Process stops *)
Definition process_stop (clk : Clocks) (e : RawProcessEvent) : F json :=
  stop_time ← lift (of_option (if pe_terminated e then pe_termination_time e else None)
                      (invalid_argument "process stop lacks its termination clock"));
  let s := pe_source e in
  let kind := observed_source_kind_name (sp_kind s) in
  let scope := scope_of kind s in
  _ ← raise_if (str_empty (sp_provider s) || (512 <? slen (sp_provider s)) || negb (valid_utf8 scope)
                || (1024 <? slen scope) || bad_guid (pe_process_guid e))
        (invalid_argument "invalid process stop provenance");
  reference ← observe_process (pe_pid e) (pe_start_time_ticks e) (pe_process_guid e) scope;
  let stopped_at := format_utc_timestamp stop_time in
  _ ← raise_if (str_empty stopped_at) (invalid_argument "process stop time cannot be rendered as UTC");
  facts ← lift (source_facts valid_utf8 (ProcessEvent e));
  let data := object
    [("event", object [("category", JStr "process_stop"); ("type", JStr "stop"); ("timestamp", JStr stopped_at)]);
     ("process", object [("pid", JUint (pe_pid e)); ("entity_id", nullable (entity_id reference));
        ("start_time_ticks", decimal_or_null (pe_start_time_ticks e));
        ("parent", object [("entity_id", JNull)])]);
     ("source_facts", facts); ("enrichment", object []);
     ("lifecycle", object [("operation", JStr "stop"); ("identity", reference_json reference);
        ("exit_code", decimal_or_null (pe_exit_code e));
        ("termination_time_ticks", decimal_or_null (pe_termination_time_ticks e));
        ("creation_observed", JBool false); ("ancestry", JStr "not inferred from a stop");
        ("continuity", JStr "unverified")])] in
  envelope clk "observation" "process_stop" stop_time
    (object [("kind", JStr kind); ("provider", JStr (sp_provider s)); ("channel", nullable (sp_channel s));
             ("native_record_id", decimal_or_null (sp_record_id s)); ("native_observation_id", JNull);
             ("continuity", JStr "unverified")])
    (reference_json reference) data.
Definition accepted_process_stop (e : RawProcessEvent) : F unit :=
  stop_time ← lift (of_option (if pe_terminated e then pe_termination_time e else None)
                      (invalid_argument "invalid accepted stop"));
  let s := pe_source e in
  reference ← observe_process (pe_pid e) (pe_start_time_ticks e) (pe_process_guid e)
                (scope_of (observed_source_kind_name (sp_kind s)) s);
  modify (fun f => with_processes (terminate reference stop_time (processes_ f)) f).

(** ** State, health, gaps and logs *)
Definition capture_scope (f : EndpointRecordFactory) : json :=
  object [("installation_id", JStr (installation_id_ f)); ("boot_id", nullable (record_boot_id f));
          ("collector_generation", JStr (to_string (generation_ f))); ("collector_epoch", JStr (epoch_ f))].
Definition plain_provenance (kind provider : string) (channel : json) (continuity : string) : json :=
  object [("kind", JStr kind); ("provider", JStr provider); ("channel", channel); ("native_record_id", JNull);
          ("native_observation_id", JNull); ("continuity", JStr continuity)].
Definition windows_event_log (clk : Clocks) (channel : string) (data : json) (time : option UtcTimestamp)
  : F json :=
  _ ← raise_if (str_empty channel || (512 <? slen channel) || negb (valid_utf8 channel))
        (invalid_argument "invalid event log channel");
  provider ← lift (value_json "provider_name" JNull data);
  native_id ← lift (value_json "event_record_id" JNull data);
  let shown := match provider with
    | JStr p => if negb (str_empty p) && (slen p <=? 512) then provider else JStr "Officer-WindowsEventLog"
    | _ => JStr "Officer-WindowsEventLog"
    end in
  let provenance := object
    [("kind", JStr "windows_event_log"); ("provider", shown); ("channel", JStr channel);
     ("native_record_id", native_id); ("native_observation_id", JNull); ("continuity", JStr "unverified")] in
  let data := put_all
    [("envelope_event_time_semantics", JStr (match time with Some _ => "native_SystemTime"
        | None => "capture_time_native_event_time_uninterpreted" end));
     ("event_boot_id", JNull);
     ("boot_identity_scope", JStr "collection_boot_only_native_log_event_may_predate_boot")] data in
  envelope clk (match time with Some _ => "observation" | None => "evidence" end) "windows_event_log"
    (value_or time (call_now clk)) provenance JNull data.
Definition state (clk : Clocks) (category : string) (data : json) : F json :=
  envelope clk "state" category (call_now clk) (plain_provenance "win32" "Officer-State" JNull "snapshot") JNull data.
Definition usn_journal (clk : Clocks) (volume : string) (data : json) (gap : bool) : F json :=
  let data := put_all [("event_boot_id", JNull);
    ("boot_identity_scope", JStr "collection_boot_only_USN_records_may_predate_boot")] data in
  envelope clk (if gap then "gap" else "evidence") (if gap then "filesystem_usn_gap" else "filesystem_usn_batch")
    (call_now clk)
    (plain_provenance "win32" "Windows-USN-Journal" (JStr volume) (if gap then "gap" else "unverified")) JNull data.
Definition health (clk : Clocks) (data : json) : F json :=
  envelope clk "health" "endpoint_health" (call_now clk)
    (plain_provenance "agent" "Officer-Health" JNull "snapshot") JNull data.
Definition gap (clk : Clocks) (source : string) (data : json) : F json :=
  envelope clk "gap" "source_loss" (call_now clk)
    (plain_provenance "agent" "Officer-Source-Supervisor" (JStr source) "unverified") JNull data.

(** ** Failures *)
Definition normalization_failure (clk : Clocks) (raw : RawEvent) (error : string) : F json :=
  let s := event_source raw in
  let original := scope_of (observed_source_kind_name (sp_kind s)) s in
  let valid_scope := valid_utf8 original && (slen original <=? 1024) in
  let '(pid, ticks, guid) := match raw, event_process raw with
    | ProcessEvent e, _ => (pe_pid e, pe_start_time_ticks e, pe_process_guid e)
    | _, Some p => (pc_pid p, pc_start_time_ticks p, pc_process_guid p)
    | _, None => (0, None, None)
    end in
  let guid := if negb valid_scope || bad_guid guid then None else guid in
  let scope := if valid_scope then original else "Officer-Decoded-Facts:invalid-source-scope" in
  reference ← observe_process pid ticks guid scope;
  facts ← lift (source_facts valid_utf8 raw);
  envelope clk "evidence" "normalization_failure" (call_now clk)
    (object [("kind", JStr "agent"); ("provider", JStr "Officer-Decoded-Facts"); ("channel", JNull);
             ("native_record_id", decimal_or_null (sp_record_id s)); ("native_observation_id", JNull);
             ("continuity", JStr "unverified")])
    (reference_json reference)
    (object [("stage", JStr "normalization_or_serialization"); ("error", lossless_text valid_utf8 error);
             ("source_facts", facts); ("enrichment", enrichment_facts valid_utf8 raw);
             ("native_bytes_retained", JBool false)]).
End Records.
