(* ===== verification/EndpointFacts.v ===== *)
(** * Lifecycle records are interpretable

    The factory of [EndpointRecord] writes process starts and stops; the graph of
    [ProcessGraph] rederives their identities from the retained record.  The two
    agree: every lifecycle record the factory builds from an observed source is
    interpretable, and names the reference the factory used. *)

From S2P Require Import Prelude Telemetry Identity Json ProcessGraph Ledger Command CommandFacts Calendar SourceFacts Serializer SerializerFacts Normalizer NormalizerFacts EndpointRecord.

Section Lifecycle.
Context (cng_sha256 : string -> string + list Z) (valid_utf8 : string -> bool).

(** ** Reading back what the factory wrote *)
Definition text_ok (limit : Z) (s : string) : bool := nonempty s && (slen s <=? limit) && valid_utf8 s.
Lemma graph_text_ok limit o : opt_ok (text_ok limit) o = true ->
  ProcessGraph.text valid_utf8 limit (opt_json JStr o) = Ok o.
Proof.
  destruct o as [s|]; [|done]. simpl. unfold text_ok, nonempty, ProcessGraph.text. simpl.
  intros H. ok_split. rewrite negb_true_iff in *. destruct (Z.ltb_spec limit (slen s)); [lia|].
  match goal with H : str_empty s = false |- _ => rewrite H end.
  match goal with H : valid_utf8 s = true |- _ => rewrite H end. done.
Qed.
Lemma graph_ticks_ok o : opt_ok (up_to u64_max) o = true ->
  ProcessGraph.ticks (opt_json (fun t => JStr (to_string t)) o) = Ok o.
Proof.
  destruct o as [t|]; [|done]. simpl. rewrite up_to_iff. intros H. unfold ProcessGraph.ticks. simpl.
  rewrite from_chars_to_string by lia. by rewrite String.eqb_refl.
Qed.
Lemma graph_pid_ok n : up_to u32_max n = true -> ProcessGraph.pid (JUint n) = Ok n.
Proof.
  rewrite up_to_iff. intros H. unfold ProcessGraph.pid. simpl.
  rewrite u64_small by (unfold u32_max, u64_max in *; lia). by rewrite (proj2 (Z.ltb_ge _ _)) by lia.
Qed.
Lemma make_reference_ext st st' p t g ns : host_id_ st = host_id_ st' -> boot_id_ st = boot_id_ st' ->
  make_reference cng_sha256 st p t g ns = make_reference cng_sha256 st' p t g ns.
Proof. intros H1 H2. unfold make_reference. by rewrite H1, H2. Qed.

Lemma make_reference_ticks st p t g ns r : make_reference cng_sha256 st p t g ns = Ok r -> native_creation_ticks r = t.
Proof.
  unfold make_reference. intros H. apply bind_Ok in H as (u & _ & H).
  destruct (has_native_ticks t), (boot_id_ st), g; first [apply bind_Ok in H as (i & _ & H)|idtac];
    apply Ok_inj in H; by subst r.
Qed.

(** ** The shape the graph asks for *)
Record lifecycle := {
  l_rid : string; l_host : string; l_boot : option string; l_kind : string; l_provider : string;
  l_channel : option string; l_stopped : bool; l_pid : Z; l_ticks : option Z; l_guid : option string;
  l_reference : ProcessReference; l_parent_pid : option Z; l_parent_guid : option string;
  l_parent : option ProcessReference }.
Definition l_scope (l : lifecycle) : string :=
  l_kind l +:+ ":" +:+ l_provider l +:+ ":" +:+ value_or (l_channel l) "".
Definition observed_kind : string -> bool := one_of ["etw"; "sysmon"; "windows_event_log"].
(** the values are admissible *)
Record admissible (l : lifecycle) : Prop := {
  ad_rid : identifier (l_rid l) "rec_" = true;
  ad_host : text_ok 128 (l_host l) = true;
  ad_boot : opt_ok (fun b => text_ok 69 b && identifier b "boot_") (l_boot l) = true;
  ad_kind : observed_kind (l_kind l) = true;
  ad_provider : text_ok 512 (l_provider l) = true;
  ad_channel : opt_ok (fun c => (slen c <=? 512) && valid_utf8 c) (l_channel l) = true;
  ad_pid : up_to u32_max (l_pid l) = true;
  ad_ticks : opt_ok (up_to u64_max) (l_ticks l) = true;
  ad_guid : opt_ok (text_ok 256) (l_guid l) = true;
  ad_reference : forall st, host_id_ st = l_host l -> boot_id_ st = l_boot l ->
    make_reference cng_sha256 st (l_pid l) (l_ticks l) (l_guid l) (l_scope l) = Ok (l_reference l);
  ad_parent_pid : l_stopped l = false -> opt_ok (up_to u32_max) (l_parent_pid l) = true;
  ad_parent_guid : l_stopped l = false -> opt_ok (text_ok 256) (l_parent_guid l) = true;
  ad_parent : l_stopped l = false -> match l_parent_pid l with
    | Some p => exists r, l_parent l = Some r /\
        forall st, host_id_ st = l_host l -> boot_id_ st = l_boot l ->
          make_reference cng_sha256 st p None (l_parent_guid l) (l_scope l) = Ok r
    | None => l_parent l = None end;
  ad_stop : l_stopped l = true -> l_parent l = None }.
(** the record says them, in every place the graph looks *)
Definition member_of (path : list string) (j : json) (v : json) : Prop :=
  foldl (fun o k => j ← o; find k j) (Some j) path = Some v.
Record shaped (record : json) (l : lifecycle) : Prop := {
  sh_schema : member_of ["schema_version"] record (JStr "1.0");
  sh_kind : member_of ["kind"] record (JStr "observation");
  sh_rid : member_of ["record_id"] record (JStr (l_rid l));
  sh_host : member_of ["endpoint"; "host_id"] record (JStr (l_host l));
  sh_boot : member_of ["endpoint"; "boot_id"] record (nullable (l_boot l));
  sh_pkind : member_of ["provenance"; "kind"] record (JStr (l_kind l));
  sh_provider : member_of ["provenance"; "provider"] record (JStr (l_provider l));
  sh_channel : member_of ["provenance"; "channel"] record (nullable (l_channel l));
  sh_repr : member_of ["data"; "source_facts"; "representation"] record (JStr "decoded_source_facts_v1");
  sh_family : member_of ["data"; "source_facts"; "family"] record (JStr "process");
  sh_skind : member_of ["data"; "source_facts"; "source"; "kind"] record (JStr (l_kind l));
  sh_sprovider : member_of ["data"; "source_facts"; "source"; "provider"] record (JStr (l_provider l));
  sh_schannel : member_of ["data"; "source_facts"; "source"; "channel"] record (nullable (l_channel l));
  sh_category : member_of ["category"] record (JStr (if l_stopped l then "process_stop" else "process"));
  sh_type : l_stopped l = false -> member_of ["data"; "event"; "type"] record (JStr "start");
  sh_operation : member_of ["data"; "source_facts"; "operation"] record
    (JStr (if l_stopped l then "stop" else "start"));
  sh_pid : member_of ["data"; "source_facts"; "process"; "pid"] record (JUint (l_pid l));
  sh_ticks : member_of ["data"; "source_facts"; "process"; "start_time_ticks"] record
    (opt_json (fun t => JStr (to_string t)) (l_ticks l));
  sh_guid : member_of ["data"; "source_facts"; "process"; "process_guid"] record (nullable (l_guid l));
  sh_ppid : l_stopped l = false -> member_of ["data"; "source_facts"; "process"; "parent_pid"] record (opt_json JUint (l_parent_pid l));
  sh_pguid : l_stopped l = false -> member_of ["data"; "source_facts"; "process"; "parent_process_guid"] record
    (nullable (l_parent_guid l));
  sh_subject : member_of ["subject"] record (reference_json (l_reference l));
  sh_dentity : member_of ["data"; "process"; "entity_id"] record (nullable (entity_id (l_reference l)));
  sh_dpid : member_of ["data"; "process"; "pid"] record (JUint (l_pid l));
  sh_dticks : member_of ["data"; "process"; "start_time_ticks"] record
    (opt_json (fun t => JStr (to_string t)) (native_creation_ticks (l_reference l)));
  sh_lifecycle : l_stopped l = true ->
    member_of ["data"; "lifecycle"; "identity"] record (reference_json (l_reference l));
  sh_parent : forall r, l_parent l = Some r ->
    member_of ["data"; "process"; "parent"; "identity"] record (reference_json r) /\
    member_of ["data"; "process"; "parent"; "entity_id"] record (nullable (entity_id r)) }.
Definition derived (l : lifecycle) : ProcessGraphFact := {|
  interpretable := true; stop := l_stopped l; record_id := l_rid l;
  reason := match entity_id (l_reference l) with Some _ => "exact_reference_rederived"
            | None => "identity_unresolved" end;
  fact_entity_id := entity_id (l_reference l);
  parent_entity_id := (r ← l_parent l; entity_id r);
  fact_identity := reference_json (l_reference l);
  parent_identity := opt_json reference_json (l_parent l) |}.

Lemma member_cons k path j v : member_of (k :: path) j v -> exists x, find k j = Some x /\ member_of path x v.
Proof.
  unfold member_of. cbn [foldl]. change (x ← Some j; find k x) with (find k j).
  destruct (find k j) as [x|]; [eauto|]. intros H. exfalso. revert H.
  induction path as [|k' path IH]; [done|]. cbn [foldl]. exact IH.
Qed.
Lemma member_nil j v : member_of [] j v -> j = v.
Proof. by intros [= ->]. Qed.
(** turn the paths into steps, sharing the objects on the way *)
Ltac open_members := repeat match goal with
  | H : member_of [] _ _ |- _ => apply member_nil in H; subst
  | H : member_of (_ :: _) _ _ |- _ => apply member_cons in H as (? & ? & H)
  | H1 : find ?k ?j = Some ?x, H2 : find ?k ?j = Some ?y |- _ =>
      assert (x = y) by congruence; clear H2; subst
  end.
Ltac read_member := erewrite at_find by eassumption; cbn [mbind result_bind].

Lemma observed_kind_any k : observed_kind k = true ->
  String.eqb k "etw" || String.eqb k "sysmon" || String.eqb k "windows_event_log" = true.
Proof. unfold observed_kind, one_of. simpl. by rewrite orb_false_r, orb_assoc. Qed.
Lemma channel_read c : (if is_null (nullable c) then Ok None else s ← get_string (nullable c); Ok (Some s)) = Ok c.
Proof. by destruct c. Qed.
(** the computation that runs next, and its step *)
Ltac head_of t := lazymatch t with @mbind _ _ _ _ _ ?r => head_of r | _ => t end.
Ltac graph_step := lazymatch goal with |- ?t = _ =>
  let h := head_of t in
  lazymatch h with
  | at_ ?k ?j => erewrite (at_find k j) by eassumption
  | throw_if _ _ => first [ rewrite is_text_refl | rewrite jeq_refl
      | match goal with H : identifier _ _ = true |- _ => rewrite H end
      | match goal with H : _ = false |- _ => rewrite H end
      | match goal with H : _ = true |- _ => rewrite H end ]
  | if is_text _ _ then _ else _ => rewrite is_text_refl
  | _ => match goal with H : h = _ |- _ => rewrite H end
  end end;
  cbn [mbind result_bind get_string negb throw_if of_option].
Lemma derive_fact_complete record l :
  admissible l -> shaped record l -> derive_fact cng_sha256 valid_utf8 record = Ok (derived l).
Proof.
  destruct l as [rid host boot kind provider channel stopped p ticks guid ref ppid pguid par].
  intros [A1 A2 A3 A4 A5 A6 A7 A8 A9 A10 A11 A12 A13 A14] [].
  unfold l_scope in *. cbn [l_rid l_host l_boot l_kind l_provider l_channel l_stopped l_pid l_ticks l_guid
    l_reference l_parent_pid l_parent_guid l_parent] in *. open_members.
  assert (B1 : opt_ok (text_ok 69) boot = true) by (eapply opt_ok_mono; [|exact A3]; cbv beta; intros ?; ok_split; by intros [? _]%andb_true_iff).
  pose proof (graph_text_ok 128 (Some host) A2) as T1. pose proof (graph_text_ok 69 boot B1) as T2.
  pose proof (graph_text_ok 512 (Some provider) A5) as T3. pose proof (graph_text_ok 256 guid A9) as T4.
  pose proof (graph_ticks_ok ticks A8) as T6.
  pose proof (graph_pid_ok p A7) as T7. cbn [opt_json] in T1, T3. unfold nullable in *.
  assert (B2 : match boot with Some b => negb (identifier b "boot_") | None => false end = false).
  { destruct boot as [b|]; [|done]. simpl in A3. apply andb_true_iff in A3 as [_ ->]. done. }
  assert (B3 : match channel with Some c => (512 <? slen c) || negb (valid_utf8 c) | None => false end = false).
  { destruct channel as [c|]; [|done]. simpl in A6. apply andb_true_iff in A6 as [? ->].
    rewrite (proj2 (Z.ltb_ge _ _)) by lia. done. }
  assert (B4 : make_store host boot 1 = Ok {| host_id_ := host; boot_id_ := boot; resident_limit_ := 1;
     admission_failures_ := 0; instances_ := ∅ |}).
  { unfold make_store. unfold text_ok, nonempty in A2. ok_split. rewrite negb_true_iff in *.
    match goal with H : str_empty host = false |- _ => rewrite H end.
    destruct boot as [b|]; [|done]. simpl in B1. unfold text_ok, nonempty in B1. ok_split.
    rewrite negb_true_iff in *. match goal with H : str_empty b = false |- _ => rewrite H end. done. }
  apply observed_kind_any in A4. pose proof (channel_read channel) as B5. unfold nullable in B5.
  match type of B4 with _ = Ok ?st => pose proof (A10 st eq_refl eq_refl) as A10' end.
  unfold derive_fact. repeat graph_step.
  assert (Hstop : is_text "process_stop" (JStr (if stopped then "process_stop" else "process")) = stopped)
    by (by destruct stopped).
  rewrite Hstop. destruct stopped.
  - specialize (sh_lifecycle0 eq_refl). open_members. cbn [mbind result_bind]. repeat graph_step.
    by rewrite (A14 eq_refl).
  - specialize (sh_type0 eq_refl). specialize (sh_ppid0 eq_refl). specialize (sh_pguid0 eq_refl). open_members.
    specialize (A11 eq_refl). specialize (A13 eq_refl). pose proof (graph_text_ok 256 pguid (A12 eq_refl)) as T5. rewrite is_text_refl. cbn [negb]. repeat graph_step.
    destruct ppid as [q|]; cbn [opt_json is_null].
    + destruct A13 as (r & -> & Hr). destruct (sh_parent0 r eq_refl) as [Hi He]. open_members.
      pose proof (graph_pid_ok q A11) as T8. match type of B4 with _ = Ok ?st => pose proof (Hr st eq_refl eq_refl) as Hr' end.
      repeat graph_step. reflexivity.
    + subst par. reflexivity.
Qed.

(** ** What the factory writes *)
Lemma F_bind_Ok {A B} (m : F A) (k : A -> F B) f b f' :
  (m ≫= k) f = (Ok b, f') -> exists a f1, m f = (Ok a, f1) /\ k a f1 = (Ok b, f').
Proof. unfold mbind, F_bind. destruct (m f) as [[a|e] f1]; [eauto|done]. Qed.
Lemma record_lift_Ok {A} (r : result A) f a f' : lift r f = (Ok a, f') -> r = Ok a /\ f' = f.
Proof. by intros [= -> ->]. Qed.
Lemma record_raise_Ok b e f u f' : raise_if b e f = (Ok u, f') -> b = false /\ f' = f.
Proof. unfold raise_if. intros [H ->]%record_lift_Ok. by apply throw_if_Ok in H. Qed.
Lemma observe_process_Ok p t g ns f r f' : observe_process cng_sha256 p t g ns f = (Ok r, f') ->
  make_reference cng_sha256 (processes_ f) p t g ns = Ok r /\
  exists st, f' = with_processes st f /\ host_id_ st = host_id_ (processes_ f) /\ boot_id_ st = boot_id_ (processes_ f).
Proof.
  unfold observe_process, observe. destruct (make_reference _ _ _ _ _ _) as [q|e] eqn:E; [|done].
  cbn [mbind result_bind]. intros [= <- <-]. split; [done|]. eexists. split; [done|].
  unfold remember_instance. destruct (entity_id q); [|done]. destruct (instances_ _ !! _); [done|].
  by destruct (_ <=? _)%nat.
Qed.
(** the record of a successful envelope *)
Lemma envelope_Ok clk kind category time provenance subject data f record f' :
  envelope cng_sha256 clk kind category time provenance subject data f = (Ok record, f') ->
  exists h, hash cng_sha256 (record_text f (sequence_ f + 1)) = Ok h /\
    sequence_ f <> u64_max /\ f' = with_sequence (sequence_ f + 1) f /\
    record = record_json clk f (sequence_ f + 1) h kind category time provenance subject data.
Proof.
  unfold envelope. intros H. apply F_bind_Ok in H as (f0 & f1 & [= -> ->] & H).
  apply F_bind_Ok in H as (u & f1' & [Hs ->]%record_raise_Ok & H).
  apply F_bind_Ok in H as (u2 & f2 & [= <- <-] & H). apply F_bind_Ok in H as (h & f3 & [Hh ->]%record_lift_Ok & [= <- <-]).
  apply Z.eqb_neq in Hs. by exists h.
Qed.

(** the members of the decoded facts of a process event the graph looks at *)
Lemma process_facts_members e facts : process_facts valid_utf8 e = Ok facts ->
  member_of ["representation"] facts (JStr "decoded_source_facts_v1") /\
  member_of ["family"] facts (JStr "process") /\
  member_of ["operation"] facts (JStr (if pe_terminated e then "stop" else "start")) /\
  member_of ["source"; "kind"] facts (JStr (source_kind_name (sp_kind (pe_source e)))) /\
  member_of ["source"; "provider"] facts (lossless_text valid_utf8 (sp_provider (pe_source e))) /\
  member_of ["source"; "channel"] facts (SourceFacts.text valid_utf8 (sp_channel (pe_source e))) /\
  member_of ["process"; "pid"] facts (JUint (pe_pid e)) /\
  member_of ["process"; "start_time_ticks"] facts (decimal (pe_start_time_ticks e)) /\
  member_of ["process"; "process_guid"] facts (SourceFacts.text valid_utf8 (pe_process_guid e)) /\
  member_of ["process"; "parent_pid"] facts (number (pe_parent_pid e)) /\
  member_of ["process"; "parent_process_guid"] facts (SourceFacts.text valid_utf8 (pe_parent_process_guid e)).
Proof.
  unfold process_facts. intros H. apply bind_Ok in H as (p1 & H1 & H). apply bind_Ok in H as (p2 & H2 & H).
  apply Ok_inj in H. subst facts.
  destruct (pe_sysmon_fields e) as [sf|]; [apply bind_Ok in H1 as ([] & _ & H1)|]; apply Ok_inj in H1; subst p1;
  (destruct (pe_native_fields e) as [nf|];
    [apply bind_Ok in H2 as ([] & _ & H2); apply bind_Ok in H2 as (j & _ & H2)|]; apply Ok_inj in H2; subst p2);
  destruct (pe_terminated e); repeat split.
Qed.

(** ** The theorem *)
Hypothesis digest_bytes : forall input d, cng_sha256 input = inr d ->
  zlen d = 32 /\ Forall (fun b => 0 <= b < 256) d.
(** UTF-8 is decided character by character: an ASCII separator splits a valid text into valid texts *)
Hypothesis utf8_parts : forall a b, valid_utf8 (a +:+ String ":" b) = true ->
  valid_utf8 a = true /\ valid_utf8 b = true.

Record factory_ok (f : EndpointRecordFactory) : Prop := {
  fo_host : host_id_ (processes_ f) = hm_id (nc_host (context_ f));
  fo_boot : boot_id_ (processes_ f) = record_boot_id f;
  fo_host_text : text_ok 128 (hm_id (nc_host (context_ f))) = true;
  fo_boot_text : opt_ok (fun b => text_ok 69 b && identifier b "boot_") (record_boot_id f) = true }.
Definition lifecycle_event_ok (e : RawProcessEvent) : bool :=
  observed_kind (source_kind_name (sp_kind (pe_source e))) && up_to u32_max (pe_pid e)
  && opt_ok (up_to u64_max) (pe_start_time_ticks e) && opt_ok (up_to u32_max) (pe_parent_pid e)
  && opt_ok (fun c => slen c <=? 512) (sp_channel (pe_source e)).

Lemma hash_identifier p input h : hash cng_sha256 input = Ok h -> identifier (p +:+ h) p = true.
Proof.
  unfold hash, sha256_hex. destruct (u32_max <? _); [done|].
  destruct (cng_sha256 input) as [e|d] eqn:E; [done|]. intros [= <-]. apply digest_bytes in E as [Hl Hd].
  unfold identifier. rewrite starts_with_app, slen_app, hex_bytes_length, Hl, Z.eqb_refl, str_drop_app.
  by apply hex_bytes_lower.
Qed.
Lemma scope_utf8 kind s : valid_utf8 (scope_of kind s) = true ->
  valid_utf8 (sp_provider s) = true /\ opt_ok valid_utf8 (sp_channel s) = true.
Proof.
  unfold scope_of. intros H. apply utf8_parts in H as [_ H]. apply utf8_parts in H as [H1 H2].
  split; [done|]. by destruct (sp_channel s).
Qed.
Lemma lossless_valid s : valid_utf8 s = true -> lossless_text valid_utf8 s = JStr s.
Proof. unfold lossless_text. by intros ->. Qed.
Lemma text_valid o : opt_ok valid_utf8 o = true -> SourceFacts.text valid_utf8 o = nullable o.
Proof. destruct o; simpl; [apply lossless_valid|done]. Qed.
Lemma bad_guid_false g : bad_guid valid_utf8 g = false ->
  opt_ok (text_ok 256) g = true /\ opt_ok valid_utf8 g = true.
Proof.
  destruct g as [s|]; [|done]. simpl. unfold text_ok, nonempty. rewrite !orb_false_iff, !negb_false_iff.
  intros [[-> H] ->]. split; [|done]. simpl. rewrite andb_true_r. lia.
Qed.
Lemma opt_ok_both {A} (p q : A -> bool) o :
  opt_ok p o = true -> opt_ok q o = true -> opt_ok (fun a => p a && q a) o = true.
Proof. destruct o; simpl; [|done]. by intros -> ->. Qed.

(** the lifecycle a factory's record describes *)
Definition lifecycle_of (f : EndpointRecordFactory) (e : RawProcessEvent) (h : string) (r : ProcessReference)
  (parent : option ProcessReference) : lifecycle := {|
  l_rid := "rec_" +:+ h; l_host := hm_id (nc_host (context_ f)); l_boot := record_boot_id f;
  l_kind := source_kind_name (sp_kind (pe_source e)); l_provider := sp_provider (pe_source e);
  l_channel := sp_channel (pe_source e); l_stopped := pe_terminated e; l_pid := pe_pid e;
  l_ticks := pe_start_time_ticks e; l_guid := pe_process_guid e; l_reference := r;
  l_parent_pid := pe_parent_pid e; l_parent_guid := pe_parent_process_guid e; l_parent := parent |}.
(** the reference of the event's process, and of its parent *)
Definition event_scope (e : RawProcessEvent) : string :=
  scope_of (source_kind_name (sp_kind (pe_source e))) (pe_source e).
Definition event_reference (f : EndpointRecordFactory) (e : RawProcessEvent) : result ProcessReference :=
  make_reference cng_sha256 (processes_ f) (pe_pid e) (pe_start_time_ticks e) (pe_process_guid e) (event_scope e).
Definition parent_reference (f : EndpointRecordFactory) (e : RawProcessEvent) : result (option ProcessReference) :=
  match pe_parent_pid e with
  | Some p => r ← make_reference cng_sha256 (processes_ f) p None (pe_parent_process_guid e) (event_scope e); Ok (Some r)
  | None => Ok None
  end.
Lemma lifecycle_admissible f e input h r parent : factory_ok f -> lifecycle_event_ok e = true ->
  hash cng_sha256 input = Ok h -> event_reference f e = Ok r ->
  str_empty (sp_provider (pe_source e)) = false -> (512 <? slen (sp_provider (pe_source e))) = false ->
  valid_utf8 (event_scope e) = true -> opt_ok (text_ok 256) (pe_process_guid e) = true ->
  (pe_terminated e = true /\ parent = None \/
   pe_terminated e = false /\ parent_reference f e = Ok parent /\
   opt_ok (text_ok 256) (pe_parent_process_guid e) = true) ->
  admissible (lifecycle_of f e h r parent).
Proof.
  intros [Fh Fb Fht Fbt] He Hh Hr G1 G2 (U1 & U2)%scope_utf8 G5 Hp. unfold lifecycle_event_ok in He. ok_split.
  constructor; cbn [lifecycle_of l_rid l_host l_boot l_kind l_provider l_channel l_stopped l_pid l_ticks l_guid
    l_reference l_parent_pid l_parent_guid l_parent]; try done.
  - by apply (hash_identifier "rec_" _ _ Hh).
  - unfold text_ok, nonempty. rewrite G1, U1. simpl. lia.
  - by apply opt_ok_both.
  - intros st' E1 E2. rewrite <- Hr. apply make_reference_ext; congruence.
  - destruct Hp as [[]|(_ & _ & ?)]; congruence.
  - destruct Hp as [[]|(_ & Hp & _)]; [congruence|]. intros _. unfold parent_reference in Hp.
    destruct (pe_parent_pid e) as [q|]; [|by injection Hp]. apply bind_Ok in Hp as (x & Hx & [= <-]).
    exists x. split; [done|]. intros st' E1 E2. rewrite <- Hx. apply make_reference_ext; congruence.
  - destruct Hp as [[]|[]]; congruence.
Qed.
(** what the graph reads from a record of this lifecycle *)
Definition reads_as (record : json) (stopped : bool) (r : ProcessReference) (parent : option ProcessReference) : Prop :=
  exists fact, process_graph_fact cng_sha256 valid_utf8 record = Ok fact /\
    interpretable fact = true /\ stop fact = stopped /\ fact_entity_id fact = entity_id r /\
    fact_identity fact = reference_json r /\ parent_identity fact = opt_json reference_json parent.
Lemma lifecycle_reads_as record l : admissible l -> shaped record l ->
  reads_as record (l_stopped l) (l_reference l) (l_parent l).
Proof.
  intros Ha Hs. exists (derived l). split; [|done]. unfold process_graph_fact.
  by rewrite (derive_fact_complete _ _ Ha Hs).
Qed.

(** A record the factory builds for a process stop is interpretable. *)
Lemma process_stop_interpretable clk e f record f' :
  factory_ok f -> lifecycle_event_ok e = true ->
  process_stop cng_sha256 valid_utf8 clk e f = (Ok record, f') ->
  exists r, event_reference f e = Ok r /\ reads_as record true r None.
Proof.
  intros Hf He H. unfold process_stop in H.
  apply F_bind_Ok in H as (t & f1 & [Ht ->]%record_lift_Ok & H).
  apply F_bind_Ok in H as (u & f1' & [Hg ->]%record_raise_Ok & H).
  apply F_bind_Ok in H as (r & f2 & (Hr & st & -> & Hs1 & Hs2)%observe_process_Ok & H).
  apply F_bind_Ok in H as (u2 & f2' & [_ ->]%record_raise_Ok & H).
  apply F_bind_Ok in H as (facts & f3 & [Hfacts ->]%record_lift_Ok & H).
  apply envelope_Ok in H as (h & Hh & _ & _ & ->).
  rewrite !orb_false_iff in Hg. destruct Hg as [[[[G1 G2] G3] G4] G5]. apply negb_false_iff in G3.
  apply bad_guid_false in G5 as [G5 G6]. destruct (scope_utf8 _ _ G3) as [U1 U2].
  assert (Hterm : pe_terminated e = true) by (destruct (pe_terminated e); [done|discriminate Ht]).
  unfold source_facts in Hfacts. apply process_facts_members in Hfacts.
  rewrite Hterm, lossless_valid, !(text_valid (sp_channel _)), (text_valid (pe_process_guid e)) in Hfacts by done.
  destruct Hfacts as (M1 & M2 & M3 & M4 & M5 & M6 & M7 & M8 & M9 & M10 & M11).
  exists r. split; [done|]. rewrite <- Hterm. apply (lifecycle_reads_as _ (lifecycle_of f e h r None)).
  { eapply lifecycle_admissible; eauto. }
  apply make_reference_ticks in Hr. constructor; cbn [lifecycle_of l_stopped l_reference]; rewrite ?Hterm, ?Hr;
    intros; try discriminate; first [assumption | reflexivity].
Qed.

(** What the normalizer says of a process start. *)
Lemma normalized_start e ctx n : normalize_raw cng_sha256 (ProcessEvent e) ctx = inr n ->
  pe_terminated e = false /\ em_category (event n) = "process" /\ em_type (event n) = "start" /\
  source n = source_metadata (pe_source e) /\ pm_pid (process n) = pe_pid e /\
  network n = None /\ file n = None /\ registry n = None /\ image_load n = None.
Proof.
  cbn [normalize_raw]. unfold normalize_process_event. cbn [enrich_process en_raw]. intros H.
  apply outcome_bind_inr in H as (u0 & Ht%refuse_if_inr & H).
  do 7 apply outcome_bind_inr in H as (? & _ & H).
  apply outcome_bind_inr in H as (? & _ & [= <-]). done.
Qed.
(** the two references a start observes, and what they leave in the data *)
Definition with_parent (parent : option ProcessReference) (data : json) : json :=
  let data := set_path ["process"; "parent"; "identity"] JNull (set_path ["process"; "parent"; "entity_id"] JNull data) in
  match parent with
  | Some r => set_path ["process"; "parent"; "identity"] (reference_json r)
                (set_path ["process"; "parent"; "entity_id"] (nullable (entity_id r)) data)
  | None => data
  end.
Lemma start_references e base f r data f' :
  (_ ← raise_if (bad_guid valid_utf8 (pe_process_guid e))
         (invalid_argument "source process GUID cannot be represented in canonical reference");
   _ ← raise_if (bad_guid valid_utf8 (pe_parent_process_guid e))
         (invalid_argument "source parent GUID cannot be represented in canonical reference");
   reference ← observe_process cng_sha256 (pe_pid e) (pe_start_time_ticks e) (pe_process_guid e) (event_scope e);
   match pe_parent_pid e with
   | None => mret (reference, with_parent None base)
   | Some parent_pid =>
       parent ← observe_process cng_sha256 parent_pid None (pe_parent_process_guid e) (event_scope e);
       mret (reference, with_parent (Some parent) base)
   end) f = (Ok (r, data), f') ->
  bad_guid valid_utf8 (pe_process_guid e) = false /\ bad_guid valid_utf8 (pe_parent_process_guid e) = false /\
  event_reference f e = Ok r /\
  exists parent st, parent_reference f e = Ok parent /\ data = with_parent parent base /\ f' = with_processes st f.
Proof.
  intros H. apply F_bind_Ok in H as (u & f1 & [G1 ->]%record_raise_Ok & H).
  apply F_bind_Ok in H as (u2 & f1' & [G2 ->]%record_raise_Ok & H).
  apply F_bind_Ok in H as (r' & f2 & (Hr & st & -> & Hs1 & Hs2)%observe_process_Ok & H). unfold parent_reference.
  destruct (pe_parent_pid e) as [q|].
  - apply F_bind_Ok in H as (p & f3 & (Hp & st2 & -> & Ht1 & Ht2)%observe_process_Ok & [= -> <- <-]).
    repeat split; try done. exists (Some p), st2. split; [|done].
    rewrite <- (make_reference_ext st) by done. cbn [with_processes processes_] in Hp. by rewrite Hp.
  - injection H as -> <- <-. repeat split; try done. by exists None, st.
Qed.
Lemma process_start_interpretable clk e n ctx f record f' :
  factory_ok f -> lifecycle_event_ok e = true -> normalize_raw cng_sha256 (ProcessEvent e) ctx = inr n ->
  observation cng_sha256 valid_utf8 clk (ProcessEvent e) n f = (Ok record, f') ->
  exists r parent, event_reference f e = Ok r /\ parent_reference f e = Ok parent /\ reads_as record false r parent.
Proof.
  intros Hf He (Hterm & Hcat & Htype & Hsrc & Hpid & B1 & B2 & B3 & B4)%normalized_start H.
  unfold observation in H.
  apply F_bind_Ok in H as (facts & f1 & [Hfacts ->]%record_lift_Ok & H). cbv zeta in H. cbn [event_source event_timestamp] in H.
  apply F_bind_Ok in H as (u & f1' & [Hg ->]%record_raise_Ok & H). rewrite Hsrc, Hcat in *.
  apply F_bind_Ok in H as ([r data] & f2 & Hx & H).
  apply F_bind_Ok in H as (u2 & f2' & [_ ->]%record_raise_Ok & H).
  apply envelope_Ok in H as (h & Hh & _ & _ & ->).
  apply start_references in Hx as (G5 & G6 & Hr & parent & st & Hp & -> & ->).
  rewrite !orb_false_iff in Hg. destruct Hg as [[[[[G1 G2] _] _] G3] _]. apply negb_false_iff in G3.
  apply bad_guid_false in G5 as [G5 V5]. apply bad_guid_false in G6 as [G6 V6]. destruct (scope_utf8 _ _ G3) as [U1 U2].
  unfold source_facts in Hfacts. apply process_facts_members in Hfacts.
  rewrite Hterm, lossless_valid, !(text_valid (sp_channel _)), !text_valid in Hfacts by done.
  destruct Hfacts as (M1 & M2 & M3 & M4 & M5 & M6 & M7 & M8 & M9 & M10 & M11).
  exists r, parent. split; [done|]. split; [done|]. rewrite <- Hterm.
  apply (lifecycle_reads_as _ (lifecycle_of f e h r parent)).
  { eapply lifecycle_admissible; eauto 6. }
  destruct n as [v [ei ec et es] src ag ho us [p1 p2 p3 p4 p5 p6 p7 p8] ne fi re im]. cbn [event source process em_category em_type pm_pid network file
    registry image_load] in *. subst.
  constructor; cbn [lifecycle_of l_stopped l_reference l_parent]; rewrite ?Hterm;
    intros; try discriminate; destruct parent; simplify_eq; first [assumption | split; reflexivity | reflexivity].
Qed.
End Lifecycle.
