(* ===== verification/SysmonRecords.v ===== *)
(** * Sysmon extension records

    [pipeline/sysmon_records.cpp]: remote threads, process access and DNS queries
    have no Schema 0.3 family; their canonical records are built directly.  The
    syntax test of [InetPtonA] is a parameter. *)

From S2P Require Import Prelude Telemetry Identity Json ProcessGraph Ledger Command CommandFacts Calendar SourceFacts Serializer Normalizer EndpointRecord.

Section Sysmon.
Context (cng_sha256 : string -> string + list Z).
Context (valid_utf8 : string -> bool).
Context (inet_pton4 inet_pton6 : string -> bool).

(** ** Bounded text *)
Definition text_limit : nat := Z.to_nat 16384.
(** [(c & 0xc0) == 0x80] *)
Definition is_continuation (c : ascii) : bool := Z.land (code c) 192 =? 128.
(** [while (end && is_continuation(text[end])) --end] *)
Fixpoint back_off (text : string) (finish : nat) : nat :=
  match finish with
  | O => O
  | S before =>
      match str_get text finish with
      | Some c => if is_continuation c then back_off text before else finish
      | None => finish
      end
  end.
Definition kept_bytes (text : string) : nat :=
  let finish := Nat.min (String.length text) text_limit in
  if (finish <? String.length text)%nat then back_off text finish else finish.
Definition bounded_text (text : option string) : result json :=
  match text with
  | None => Ok JNull
  | Some t =>
      let finish := kept_bytes t in
      h ← EndpointRecord.hash cng_sha256 t;
      Ok (object [("text", lossless_text valid_utf8 (str_take finish t));
                  ("original_bytes", JStr (to_string (slen t)));
                  ("truncated", JBool (negb (finish =? String.length t)%nat)); ("sha256", JStr h)])
  end.

(** ** DNS answers *)
Definition is_space (c : ascii) : bool := existsb (Z.eqb (code c)) [32; 9; 13; 10].
Fixpoint trim_front (s : string) : string :=
  match s with String c r => if is_space c then trim_front r else s | "" => "" end.
Fixpoint trim_back (s : string) : string :=
  match s with
  | "" => ""
  | String c r => let r := trim_back r in if str_empty r && is_space c then "" else String c r
  end.
Definition trim (s : string) : string := trim_back (trim_front s).
(** [value.c_str()] ends at the first NUL *)
Fixpoint c_str (s : string) : string :=
  match s with String c r => if code c =? 0 then "" else String c (c_str r) | "" => "" end.
(** [from_chars(tail, type)] and the text from [end] on *)
Fixpoint digits_prefix (s : string) : string * string :=
  match s with
  | String c r => if is_digit c then let '(d, t) := digits_prefix r in (String c d, t) else ("", s)
  | "" => ("", "")
  end.
Definition is_host_char (c : ascii) : bool :=
  ((97 <=? code c) && (code c <=? 122)) || ((65 <=? code c) && (code c <=? 90)) || is_digit c
  || Ascii.eqb c "." || Ascii.eqb c "-" || Ascii.eqb c "_".
Definition cname_of (token : string) : option string :=
  if starts_with "type:" token then
    let '(digits, rest) := digits_prefix (trim (str_drop 5 token)) in
    match from_chars_all u32_max digits, rest with
    | Some 5, String c _ =>
        let name := trim rest in
        if (Ascii.eqb c " " || (code c =? 9)) && negb (str_empty name) && (slen name <=? 254)
           && str_forallb is_host_char name
        then Some name else None
    | _, _ => None
    end
  else None.
Inductive dns_token := Answer (j : json) | Unparsed (j : json).
Definition classify (token : string) : dns_token :=
  if inet_pton4 (c_str token)
  then Answer (object [("kind", JStr "ip"); ("family", JStr "ipv4"); ("value", JStr token)])
  else if inet_pton6 (c_str token)
  then Answer (object [("kind", JStr "ip"); ("family", JStr "ipv6"); ("value", JStr token)])
  else match cname_of token with
       | Some name => Answer (object [("kind", JStr "cname"); ("value", JStr name)])
       | None => Unparsed (lossless_text valid_utf8 token)
       end.
(** the loop over the tokens; [budget] tokens may still be taken *)
Fixpoint dns_loop (budget : nat) (remaining : string) (answers unparsed : list json)
  : list json * list json * bool :=
  match budget with
  | O => (answers, unparsed, negb (str_empty remaining))
  | S budget =>
      if str_empty remaining then (answers, unparsed, false)
      else
        let '(piece, remaining) := match str_split ";" remaining with Some p => p | None => (remaining, "") end in
        let token := trim piece in
        if str_empty token then dns_loop budget remaining answers unparsed
        else match classify token with
             | Answer a => dns_loop budget remaining (answers ++ [a]) unparsed
             | Unparsed u => dns_loop budget remaining answers (unparsed ++ [u])
             end
  end.
Definition token_limit : nat := Z.to_nat 256.
Definition dns_answers (results : option string) : list json * list json * bool :=
  match results with Some r => dns_loop token_limit r [] [] | None => ([], [], false) end.
Definition dns_json (results : option string) : json :=
  let '(answers, unparsed, bounded) := dns_answers results in
  object [("answers", JArr answers); ("unparsed_tokens", JArr unparsed); ("token_limit", JInt 256);
          ("bound_exceeded", JBool bounded);
          ("source_results_present", JBool (match results with Some _ => true | None => false end))].

(** ** The record *)
Definition missing (field reason : string) : json := object [("field", JStr field); ("reason", JStr reason)].
Definition missing_if (b : bool) (field reason : string) : list json := if b then [missing field reason] else [].
Definition absent_value {A} (o : option A) : bool := match o with Some _ => false | None => true end.
Definition nullable_text : option string -> json := SourceFacts.text valid_utf8.
Definition extended_process (raw : RawProcessContext) (identity : ProcessReference) : json :=
  object [("pid", JUint (pc_pid raw)); ("entity_id", nullable (entity_id identity));
          ("identity", reference_json identity); ("executable", nullable_text (pc_executable raw));
          ("user", nullable_text (pc_user_name raw));
          ("start_time_ticks", decimal_or_null (native_creation_ticks identity));
          ("parent", object [("entity_id", JNull)])].
Definition sysmon_reference (scope : string) (p : RawProcessContext) : F ProcessReference :=
  _ ← raise_if (bad_guid valid_utf8 (pc_process_guid p))
        (invalid_argument "invalid Sysmon process GUID; retain failure evidence");
  observe_process cng_sha256 (pc_pid p) None (pc_process_guid p) scope.
Definition sysmon_provider : string := "Microsoft-Windows-Sysmon".
Definition sysmon_channel : string := "Microsoft-Windows-Sysmon/Operational".
Definition extended_source (e : RawSysmonExtendedEvent) : bool :=
  let s := xe_source e in
  ((xe_event_id e =? 8) || (xe_event_id e =? 10) || (xe_event_id e =? 22))
  && bool_decide (sp_kind s = sysmon) && String.eqb (sp_provider s) sysmon_provider
  && bool_decide (sp_channel s = Some sysmon_channel).
Definition extended_category (id : Z) : string :=
  if id =? 22 then "dns" else if id =? 10 then "process_access" else "remote_thread".
Definition extended_operation (id : Z) : string :=
  if id =? 22 then "query" else if id =? 10 then "access" else "create".

(** the body of a DNS query, and what it lacks *)
Definition dns_body (e : RawSysmonExtendedEvent) : result (json * list json) :=
  results ← bounded_text (xe_query_results e);
  let '(answers, unparsed, bounded) := dns_answers (xe_query_results e) in
  Ok (put_all [("query_name", nullable_text (xe_query_name e));
               ("query_status", number (xe_query_status e)); ("query_type", JNull);
               ("query_results", results)] (dns_json (xe_query_results e)),
      [missing "dns.query_type" "source_does_not_report_field"]
      ++ missing_if (absent_value (xe_query_name e)) "dns.query_name" "source_not_reported"
      ++ missing_if (absent_value (xe_query_status e)) "dns.query_status" "source_not_reported"
      ++ missing_if (absent_value (xe_query_results e)) "dns.answers" "source_not_reported"
      ++ missing_if bounded "dns.answers_remaining" "token_bound_exceeded"
      ++ missing_if (match unparsed with [] => false | _ => true end)
           "dns.answers_unparsed" "unsupported_source_answer_syntax").
(** the body of an access or a thread, after its target *)
Definition interaction_body (e : RawSysmonExtendedEvent) (target : RawProcessContext) (t : ProcessReference)
  : result (json * list json) :=
  let body := object [("target", extended_process target t)] in
  let lacks := missing_if (absent_value (native_creation_ticks t))
    "target.start_time_ticks" "source_does_not_supply_native_creation_token" in
  if xe_event_id e =? 10 then
    trace ← bounded_text (xe_call_trace e);
    Ok (put_all [("granted_access", decimal_or_null (xe_granted_access e)); ("call_trace", trace)] body,
        lacks
        ++ missing_if (absent_value (xe_granted_access e)) "process_access.granted_access" "source_not_reported"
        ++ missing_if (absent_value (xe_call_trace e)) "process_access.call_trace" "source_not_reported")
  else
    Ok (put_all [("new_thread_id", number (xe_new_thread_id e));
                 ("start_address", decimal_or_null (xe_start_address e));
                 ("start_module", nullable_text (xe_start_module e));
                 ("start_function", nullable_text (xe_start_function e));
                 ("start_module_function_confidence", JStr "reported_inference")] body,
        lacks
        ++ missing_if (absent_value (xe_new_thread_id e)) "remote_thread.new_thread_id" "source_not_reported"
        ++ missing_if (absent_value (xe_start_address e)) "remote_thread.start_address" "source_not_reported"
        ++ missing_if (absent_value (xe_start_module e)) "remote_thread.start_module" "source_not_reported"
        ++ missing_if (absent_value (xe_start_function e)) "remote_thread.start_function" "source_not_reported").
Definition sysmon_extended (clk : Clocks) (e : RawSysmonExtendedEvent) : F json :=
  _ ← raise_if (negb (extended_source e))
        (invalid_argument "canonical Sysmon extension requires its exact source and closed event set");
  let scope := scope_of "sysmon" (xe_source e) in
  actor ← sysmon_reference scope (xe_process e);
  let category := extended_category (xe_event_id e) in
  let time := format_utc_timestamp (xe_timestamp e) in
  _ ← raise_if (str_empty time) (invalid_argument "Sysmon event time is not representable");
  let lacks := missing_if (absent_value (native_creation_ticks actor))
    "process.start_time_ticks" "source_does_not_supply_native_creation_token" in
  facts ← lift (source_facts valid_utf8 (SysmonExtendedEvent e));
  let data := object
    [("format", JStr "windows_sysmon_extended_v1");
     ("event", object [("category", JStr category); ("type", JStr (extended_operation (xe_event_id e)));
                       ("timestamp", JStr time)]);
     ("process", extended_process (xe_process e) actor); ("source_facts", facts);
     ("enrichment", enrichment_facts valid_utf8 (SysmonExtendedEvent e));
     ("attribution", object [("confidence", JStr "reported"); ("native_instance_verified", JBool false)])] in
  body ← (if xe_event_id e =? 22 then lift (dns_body e)
          else
            target ← lift (of_option (xe_target e)
                             (invalid_argument "Sysmon interaction target PID is required"));
            t ← sysmon_reference scope target;
            lift (interaction_body e target t));
  let data := put_all [(category, body.1); ("unavailable", JArr (lacks ++ body.2))] data in
  envelope cng_sha256 clk "observation" category (xe_timestamp e)
    (object [("kind", JStr "sysmon"); ("provider", JStr (sp_provider (xe_source e)));
             ("channel", nullable (sp_channel (xe_source e)));
             ("native_record_id", decimal_or_null (sp_record_id (xe_source e)));
             ("native_observation_id", JNull); ("continuity", JStr "unverified")])
    (reference_json actor) data.

(** ** What the reader of a record can rely on *)
(** the results, cut at every semicolon; nothing follows a final one *)
Fixpoint pieces (s : string) : list string :=
  match s with
  | "" => []
  | String c r =>
      if Ascii.eqb c ";" then "" :: pieces r
      else match pieces r with [] => [String c ""] | p :: ps => String c p :: ps end
  end.
Definition dns_tokens (s : string) : list string :=
  filter (fun t => str_empty t = false) (trim <$> take token_limit (pieces s)).
Definition answer_of (t : dns_token) : option json := match t with Answer a => Some a | Unparsed _ => None end.
Definition unparsed_of (t : dns_token) : option json := match t with Answer _ => None | Unparsed u => Some u end.

Definition next_piece (s : string) : string * string :=
  match str_split ";" s with Some p => p | None => (s, "") end.
Lemma pieces_split s : s <> "" -> pieces s = (next_piece s).1 :: pieces (next_piece s).2.
Proof.
  unfold next_piece. induction s as [|c s IH]; [done|]. intros _. cbn [pieces str_split].
  destruct (Ascii.eqb c ";"); [done|]. destruct s as [|d s]; [done|].
  rewrite IH by done. by destruct (str_split ";" (String d s)) as [[p r]|].
Qed.
Lemma pieces_empty s : str_empty s = (match pieces s with [] => true | _ => false end).
Proof. destruct s as [|c s]; [done|]. simpl. destruct (Ascii.eqb c ";"); [done|]. by destruct (pieces s). Qed.
Lemma dns_loop_spec budget remaining answers unparsed :
  let tokens := filter (fun t => str_empty t = false) (trim <$> take budget (pieces remaining)) in
  dns_loop budget remaining answers unparsed =
    (answers ++ omap (fun t => answer_of (classify t)) tokens,
     unparsed ++ omap (fun t => unparsed_of (classify t)) tokens,
     (budget <? length (pieces remaining))%nat).
Proof.
  revert remaining answers unparsed. induction budget as [|n IH]; intros remaining answers unparsed; cbn zeta.
  { cbn [take fmap list_fmap filter list_filter omap list_omap dns_loop]. rewrite !app_nil_r, pieces_empty.
    by destruct (pieces remaining). }
  cbn [dns_loop]. fold (next_piece remaining). destruct remaining as [|c r]; [by rewrite !app_nil_r|].
  rewrite pieces_split by done. cbn [str_empty]. destruct (next_piece (String c r)) as [piece rest]. cbn [fst snd].
  rewrite firstn_cons, fmap_cons, filter_cons. destruct (str_empty (trim piece)) eqn:Et.
  - rewrite decide_False by done. by rewrite IH.
  - rewrite decide_True by done. cbn [omap list_omap]. destruct (classify (trim piece)); cbn [answer_of unparsed_of];
      rewrite IH; by rewrite <- ?app_assoc.
Qed.

(** No DNS answer is lost in reading.  The loop reports the non-blank tokens
    between the semicolons of the first 256 pieces, each exactly once and in
    order, as an answer or as an unparsed token, and raises the bound flag
    exactly when there are more pieces. *)
Theorem dns_answers_complete (results : string) :
  dns_answers (Some results) =
    (omap (fun t => answer_of (classify t)) (dns_tokens results),
     omap (fun t => unparsed_of (classify t)) (dns_tokens results),
     (token_limit <? length (pieces results))%nat) /\
  (length (dns_answers (Some results)).1.1 + length (dns_answers (Some results)).1.2
   = length (dns_tokens results))%nat.
Proof.
  unfold dns_answers. rewrite dns_loop_spec. cbn [app fst snd]. fold (dns_tokens results). split; [done|].
  induction (dns_tokens results) as [|t ts IH]; [done|]. cbn [omap list_omap].
  destruct (classify t); cbn; lia.
Qed.

(** the bytes from [k] up to the limit are continuation bytes, and [k] is where they start *)
Lemma back_off_spec text n : (n < String.length text)%nat ->
  (back_off text n <= n)%nat /\
  (back_off text n = O \/ exists c, str_get text (back_off text n) = Some c /\ is_continuation c = false) /\
  (forall i c, (back_off text n < i <= n)%nat -> str_get text i = Some c -> is_continuation c = true).
Proof.
  induction n as [|n IH]; intros Hn; cbn [back_off]; [split_and!; [lia|by left|lia]|].
  destruct (str_get text (S n)) as [c|] eqn:E.
  - destruct (is_continuation c) eqn:Ec.
    + destruct IH as (H1 & H2 & H3); [lia|]. split_and!; [lia|done|]. intros i d Hi Hd.
      destruct (decide (i = S n)) as [->|]; [congruence|]. eapply H3; [|done]. lia.
    + split_and!; [lia| |lia]. right. eauto.
  - split_and!; [lia| |lia]. exfalso. clear IH. revert n E Hn.
    induction text as [|d text IH]; intros n E Hn; simpl in *; [lia|].
    destruct n; [destruct text; simpl in *; [lia|done]|]. eapply IH; [exact E|lia].
Qed.
(** Where a long text is cut.  A text of at most 16384 bytes is kept whole; a
    longer one is cut at most 16384 bytes in, never before a UTF-8 continuation
    byte (unless nothing is left), and only continuation bytes are given up
    before the limit. *)
Theorem bounded_text_cut (text : string) :
  (kept_bytes text <= Nat.min (String.length text) text_limit)%nat /\
  (kept_bytes text = String.length text <-> (String.length text <= text_limit)%nat) /\
  ((text_limit < String.length text)%nat ->
   (kept_bytes text = O \/ exists c, str_get text (kept_bytes text) = Some c /\ is_continuation c = false) /\
   (forall i c, (kept_bytes text < i <= text_limit)%nat -> str_get text i = Some c -> is_continuation c = true)).
Proof.
  unfold kept_bytes. destruct (Nat.ltb_spec (Nat.min (String.length text) text_limit) (String.length text)) as [H|H].
  - rewrite Nat.min_r by lia. destruct (back_off_spec text text_limit) as (H1 & H2 & H3); [lia|].
    split_and!; [lia|lia|by intros _].
  - split_and!; lia.
Qed.
End Sysmon.
