(* ===== verification/Pipeline.v ===== *)
(** * The pipeline

    The handler the agent passes to the raw-event handoff ([main.cpp],
    [persist_record], [emit_normalized], [emit_direct] and [process_raw_event]):
    a raw event is normalized, written as a canonical record and committed to
    the journal; what cannot be normalized or serialized becomes a
    normalization-failure record.  The journal is used through
    [EvidenceJournal], offline directly and online through the uploader.  The
    clock readings and string capacities of one call are a [Moment]. *)

From S2P Require Import Prelude Ring Telemetry Identity Diagnostic Json ProcessGraph Journal Uploader UploaderFacts ImageCache Calendar SourceFacts Serializer Normalizer EndpointRecord SysmonRecords.

(** what the environment shows during one call of the handler *)
Record Moment := {
  record_clocks : Clocks;  (** the record *)
  failure_clocks : Clocks;  (** the failure record after it *)
  coverage_now : string;
  copy_capacity : string -> option Z
}.

Section Pipeline.
Context {S : Type} `{EvidenceJournal S}.
Context (cng_sha256 : string -> string + list Z) (valid_utf8 : string -> bool).
Context (inet_pton4 inet_pton6 : string -> bool).
Context (dump : json -> result string) (sizeof_item : Z).

(** ** State *)
(** the uploader owns the journal, or the agent is offline *)
Inductive record_sink := Online (u : Uploader (S := S)) | Offline (j : S).
Record Pipeline := {
  record_factory : EndpointRecordFactory;
  sink : record_sink;
  normalization_failures : Z;
  failure_evidence_committed : Z;
  observation_admission_failures : Z;
  coverage : CoverageRegistry;
  health_changed : bool;
  diagnostic_stdout : DiagnosticState;
  diagnostic_stderr : DiagnosticState
}.
Definition with_factory (f : EndpointRecordFactory) (p : Pipeline) : Pipeline := {|
  record_factory := f; sink := sink p; normalization_failures := normalization_failures p;
  failure_evidence_committed := failure_evidence_committed p;
  observation_admission_failures := observation_admission_failures p; coverage := coverage p;
  health_changed := health_changed p; diagnostic_stdout := diagnostic_stdout p;
  diagnostic_stderr := diagnostic_stderr p |}.
Definition with_sink (s : record_sink) (p : Pipeline) : Pipeline := {|
  record_factory := record_factory p; sink := s; normalization_failures := normalization_failures p;
  failure_evidence_committed := failure_evidence_committed p;
  observation_admission_failures := observation_admission_failures p; coverage := coverage p;
  health_changed := health_changed p; diagnostic_stdout := diagnostic_stdout p;
  diagnostic_stderr := diagnostic_stderr p |}.
Definition with_failure_counts (normalization committed admission : Z) (p : Pipeline) : Pipeline := {|
  record_factory := record_factory p; sink := sink p; normalization_failures := normalization;
  failure_evidence_committed := committed; observation_admission_failures := admission;
  coverage := coverage p; health_changed := health_changed p; diagnostic_stdout := diagnostic_stdout p;
  diagnostic_stderr := diagnostic_stderr p |}.
Definition with_coverage (c : CoverageRegistry) (changed : bool) (p : Pipeline) : Pipeline := {|
  record_factory := record_factory p; sink := sink p; normalization_failures := normalization_failures p;
  failure_evidence_committed := failure_evidence_committed p;
  observation_admission_failures := observation_admission_failures p; coverage := c;
  health_changed := changed; diagnostic_stdout := diagnostic_stdout p;
  diagnostic_stderr := diagnostic_stderr p |}.
Definition with_diagnostics (out err : DiagnosticState) (p : Pipeline) : Pipeline := {|
  record_factory := record_factory p; sink := sink p; normalization_failures := normalization_failures p;
  failure_evidence_committed := failure_evidence_committed p;
  observation_admission_failures := observation_admission_failures p; coverage := coverage p;
  health_changed := health_changed p; diagnostic_stdout := out; diagnostic_stderr := err |}.

(** ** Computations: the value or the exception, and the state either leaves *)
Definition P (A : Type) : Type := Pipeline -> result A * Pipeline.
#[global] Instance P_ret : MRet P := fun A a p => (Ok a, p).
#[global] Instance P_bind : MBind P := fun A B k m p =>
  match m p with (Ok a, p) => k a p | (Throw e, p) => (Throw e, p) end.
Definition pure_p {A} (r : result A) : P A := fun p => (r, p).
Definition update (g : Pipeline -> Pipeline) : P unit := fun p => (Ok tt, g p).
(** [try { ... } catch (const std::exception&)]: what was done before stays *)
Definition try_p {A} (m : P A) : P (exn + A) := fun p =>
  match m p with (Ok a, p) => (Ok (inr a), p) | (Throw e, p) => (Ok (inl e), p) end.
Definition with_record_factory {A} (m : F A) : P A := fun p =>
  let '(r, f) := m (record_factory p) in (r, with_factory f p).

Definition count_normalization_failure : P unit := update (fun p =>
  with_failure_counts (u64 (normalization_failures p + 1)) (failure_evidence_committed p)
    (observation_admission_failures p) p).
Definition count_failure_evidence : P unit := update (fun p =>
  with_failure_counts (normalization_failures p) (u64 (failure_evidence_committed p + 1))
    (observation_admission_failures p) p).
Definition count_admission_failure : P unit := update (fun p =>
  with_failure_counts (normalization_failures p) (failure_evidence_committed p)
    (u64 (observation_admission_failures p + 1)) p).
Definition set_coverage (m : Moment) (id : string) (st : CapabilityState) (reason scope : string) : P unit := fun p =>
  match set_capability (coverage_now m) id st reason scope true (coverage p) with
  | Ok c => (Ok tt, with_coverage c (health_changed p) p)
  | Throw e => (Throw e, p)
  end.
Definition signal_health : P unit := update (fun p => with_coverage (coverage p) true p).
Definition to_stderr (m : Moment) (line : string) : P unit := update (fun p =>
  with_diagnostics (diagnostic_stdout p)
    (diagnostic_submit sizeof_item line (copy_capacity m line) (diagnostic_stderr p)).2 p).
Definition to_stdout (m : Moment) (line : string) : P unit := update (fun p =>
  with_diagnostics (diagnostic_submit sizeof_item line (copy_capacity m line) (diagnostic_stdout p)).2
    (diagnostic_stderr p) p).

(** ** The handler *)
Definition persist_record (m : Moment) (line : string) : P bool := fun p =>
  match sink p with
  | Online u => let '(accepted, u) := enqueue line u in (Ok accepted, with_sink (Online u) p)
  | Offline j =>
      match j_append line j with
      | (Ok _, j) => (Ok true, with_sink (Offline j) p)
      | (Throw e, j) =>
          (_ ← to_stderr m ("[journal] offline observation was not accepted: " +:+ what e); mret false)
            (with_sink (Offline j) p)
      end
  end.
(** what is committed: the line, or the failure that replaces it *)
Definition serialize_record (m : Moment) (normalized : string + PanopticonEvent) (raw : RawEvent)
  : P (string + string) :=
  match normalized with
  | inl error => mret (inl error)
  | inr n =>
      tried ← try_p (record ← with_record_factory (observation cng_sha256 valid_utf8 (record_clocks m) raw n);
                     pure_p (dump record));
      mret (match tried with
            | inr line => inr line
            | inl e => inl ("Canonical serialization failed: " +:+ what e)
            end)
  end.
Definition emit_normalized (m : Moment) (normalized : string + PanopticonEvent) (raw : RawEvent) : P unit :=
  serialized ← serialize_record m normalized raw;
  line ← match serialized with
         | inr line => mret line
         | inl failure =>
             _ ← count_normalization_failure;
             _ ← set_coverage m "pipeline.normalization" degraded failure
                   "decoded source facts retained in failure evidence when journal accepts";
             _ ← signal_health;
             _ ← to_stderr m ("[pipeline] " +:+ failure);
             record ← with_record_factory
                        (normalization_failure cng_sha256 valid_utf8 (failure_clocks m) raw failure);
             pure_p (dump record)
         end;
  accepted ← persist_record m line;
  if (accepted : bool) then
    _ ← match serialized with inl _ => count_failure_evidence | inr _ => mret tt end;
    to_stdout m line
  else
    _ ← count_admission_failure;
    _ ← set_coverage m "AG.durability" degraded "observation/failure evidence commit refused"
          "observation not durably accepted; source sink failure counted";
    _ ← signal_health;
    pure_p (Throw (runtime_error "observation was not durably accepted")).
Definition emit_direct (m : Moment) (raw : RawEvent) (build : F json) : P bool :=
  built ← try_p (with_record_factory build);
  record ← match built with
           | inr record => mret record
           | inl e =>
               _ ← count_normalization_failure;
               with_record_factory
                 (normalization_failure cng_sha256 valid_utf8 (failure_clocks m) raw (what e))
           end;
  let failed := match built with inl _ => true | inr _ => false end in
  line ← pure_p (dump record);
  accepted ← persist_record m line;
  if (accepted : bool) then
    _ ← (if failed then count_failure_evidence else mret tt);
    _ ← to_stdout m line;
    mret (negb failed)
  else
    _ ← count_admission_failure;
    _ ← signal_health;
    pure_p (Throw (runtime_error "direct canonical record was not durably accepted")).
Definition process_raw_event (m : Moment) (context : NormalizationContext) (raw : RawEvent) : P unit :=
  match raw with
  | ProcessEvent stopped =>
      if pe_terminated stopped then
        accepted ← emit_direct m raw (process_stop cng_sha256 valid_utf8 (record_clocks m) stopped);
        if (accepted : bool) then with_record_factory (accepted_process_stop cng_sha256 stopped) else mret tt
      else emit_normalized m (normalize_raw cng_sha256 raw context) raw
  | SysmonExtendedEvent extension =>
      _ ← emit_direct m raw
            (sysmon_extended cng_sha256 valid_utf8 inet_pton4 inet_pton6 (record_clocks m) extension);
      mret tt
  | _ => emit_normalized m (normalize_raw cng_sha256 raw context) raw
  end.
End Pipeline.
