(* ===== verification/PipelineFacts.v ===== *)
(** * Every event is accounted for

    The handler of [Pipeline] either commits exactly one record for the event,
    or throws, and then nothing is claimed durable; evidence already committed
    stays. *)

From S2P Require Import Prelude Ring Telemetry Identity Diagnostic Json ProcessGraph Journal JournalSpec JournalRuns Uploader UploaderFacts ImageCache Calendar SourceFacts Serializer SerializerFacts Normalizer NormalizerFacts EndpointRecord EndpointFacts SysmonRecords Pipeline.

Section Accounting.
Context {S : Type} `{EvidenceJournalLaws S}.
Context (cng_sha256 : string -> string + list Z) (valid_utf8 : string -> bool).
Context (inet_pton4 inet_pton6 : string -> bool).
Context (dump : json -> result string) (sizeof_item : Z).

Definition journal_of (s : record_sink (S := S)) : S := match s with Online u => journal_ u | Offline j => j end.
Definition committed (p : Pipeline (S := S)) (k : string) : Prop := j_evidence (journal_of (sink p)) k.
Definition counts (p : Pipeline (S := S)) : Z * Z * Z :=
  (normalization_failures p, failure_evidence_committed p, observation_admission_failures p).

Lemma P_bind_inv {A B} (m : P A) (k : A -> P B) (p : Pipeline (S := S)) r p' : (m ≫= k) p = (r, p') ->
  (exists a p1, m p = (Ok a, p1) /\ k a p1 = (r, p')) \/ (exists e, m p = (Throw e, p') /\ r = Throw e).
Proof. unfold mbind, P_bind. destruct (m p) as [[a|e] p1]; [eauto|]. intros [= <- <-]. eauto. Qed.

(** a commit keeps what was committed; an accepted line is committed under its key *)
Lemma persist_spec m line p r p' : persist_record sizeof_item m line p = (r, p') ->
  exists accepted : bool, r = Ok accepted /\ counts p' = counts p /\ record_factory p' = record_factory p /\
    (forall k, committed p k -> committed p' k) /\
    (accepted = true -> exists k, j_key line = Some k /\ committed p' k).
Proof.
  unfold persist_record, committed. destruct (sink p) as [u|j] eqn:Es.
  - destruct (enqueue line u) as [b u'] eqn:E. intros [= <- <-]. exists b. split; [done|]. split; [done|]. split; [done|].
    simpl. split.
    + intros k Hk. pose proof (append_keeps line (journal_ u) k Hk) as Hkeep.
      unfold enqueue, commit in E. destruct (stop_requested_ u); [by injection E as <- <-|].
      destruct (j_append line (journal_ u)) as [[|e] j']; injection E as <- <-; exact Hkeep.
    + intros ->. by apply enqueue_true in E.
  - destruct (j_append line j) as [[[]|e] j'] eqn:E; intros [= <- <-].
    + exists true. split; [done|]. split; [done|]. split; [done|]. simpl. split.
      * intros k Hk. pose proof (append_keeps line j k Hk). by rewrite E in *.
      * intros _. by apply append_stores in E.
    + exists false. split; [done|]. split; [done|]. split; [done|]. simpl. split; [|done].
      intros k Hk. pose proof (append_keeps line j k Hk). by rewrite E in *.
Qed.

(** ** What the handler may do with an event *)
(** the record built for the event itself *)
Definition built (m : Moment) (context : NormalizationContext) (raw : RawEvent) (record : json)
  (f f' : EndpointRecordFactory) : Prop :=
  let observed := exists n, normalize_raw cng_sha256 raw context = inr n /\
    observation cng_sha256 valid_utf8 (record_clocks m) raw n f = (Ok record, f') in
  match raw with
  | ProcessEvent e =>
      if pe_terminated e then process_stop cng_sha256 valid_utf8 (record_clocks m) e f = (Ok record, f') else observed
  | SysmonExtendedEvent e =>
      sysmon_extended cng_sha256 valid_utf8 inet_pton4 inet_pton6 (record_clocks m) e f = (Ok record, f')
  | _ => observed
  end.
(** the evidence that it could not be built *)
Definition failure_built (m : Moment) (raw : RawEvent) (record : json) : Prop := exists error f f',
  normalization_failure cng_sha256 valid_utf8 (failure_clocks m) raw error f = (Ok record, f').
Definition one_more (failed : bool) (c : Z * Z * Z) : Z * Z * Z :=
  let '(n, e, a) := c in if failed then (u64 (n + 1), u64 (e + 1), a) else (n, e, a).
Definition accounted (m : Moment) (context : NormalizationContext) (raw : RawEvent) (p : Pipeline (S := S))
  (r : result unit) (p' : Pipeline (S := S)) : Prop :=
  (forall k, committed p k -> committed p' k) /\
  match r with
  | Ok _ => exists (failed : bool) record line k,
      (if failed then failure_built m raw record else exists f', built m context raw record (record_factory p) f') /\
      dump record = Ok line /\ j_key line = Some k /\ committed p' k /\ counts p' = one_more failed (counts p)
  | Throw e =>
      failure_evidence_committed p' = failure_evidence_committed p /\
      (observation_admission_failures p' = u64 (observation_admission_failures p + 1) \/
       normalization_failures p' = u64 (normalization_failures p + 1) \/
       exists record, dump record = Throw e)
  end.

(** operations that only touch coverage and diagnostics *)
Definition quiet {A} (m : P A) : Prop := forall p r p', m p = (r, p') ->
  counts p' = counts p /\ sink p' = sink p /\ record_factory p' = record_factory p.
Lemma set_coverage_quiet m id st reason scope : quiet (set_coverage m id st reason scope).
Proof. intros p r p'. unfold set_coverage. by destruct (set_capability _ _ _ _ _ _ _); intros [= <- <-]. Qed.
Lemma signal_quiet : quiet signal_health.
Proof. by intros p r p' [= <- <-]. Qed.
Lemma to_stderr_quiet m line : quiet (to_stderr sizeof_item m line).
Proof. by intros p r p' [= <- <-]. Qed.
Lemma to_stdout_quiet m line : quiet (to_stdout sizeof_item m line).
Proof. by intros p r p' [= <- <-]. Qed.
Lemma quiet_bind {A B} (m : P A) (k : A -> P B) : quiet m -> (forall a, quiet (k a)) -> quiet (m ≫= k).
Proof.
  intros Hm Hk p r p' H'. apply P_bind_inv in H' as [(a & p1 & H1 & H2)|(e & H1 & ->)]; [|by eapply Hm].
  apply Hk in H2 as (-> & -> & ->). by apply Hm in H1.
Qed.
Lemma pure_quiet {A} (r : result A) : quiet (pure_p r).
Proof. by intros p r' p' [= <- <-]. Qed.

Definition throws {A} (m : P (S := S) A) : Prop := forall p x p', m p <> (Ok x, p').
Lemma throws_bind {A B} (m : P A) (k : A -> P B) : (forall a, throws (k a)) -> throws (m ≫= k).
Proof. intros Hk p x p' H'. apply P_bind_inv in H' as [(a & p1 & _ & H2)|(e & _ & ?)]; [by eapply Hk|done]. Qed.
Lemma throw_throws {A} e : throws (pure_p (S := S) (A := A) (Throw e)).
Proof. by intros p x p' [=]. Qed.

(** the commit both emitters end with, once the line is there *)
Lemma commit_line m line (failed : bool) {A} (a : A) (refused : P A) p r p' :
  quiet refused -> throws refused ->
  (accepted ← persist_record sizeof_item m line;
   if (accepted : bool) then _ ← (if failed then count_failure_evidence else mret tt); _ ← to_stdout sizeof_item m line; mret a
   else _ ← count_admission_failure; refused) p = (r, p') ->
  (forall k, committed p k -> committed p' k) /\
  match r with
  | Ok x => x = a /\ record_factory p' = record_factory p /\
      (exists k, j_key line = Some k /\ committed p' k) /\
      counts p' = (let '(n, e, a) := counts p in if failed then (n, u64 (e + 1), a) else (n, e, a))
  | Throw _ => counts p' = (let '(n, e, a) := counts p in (n, e, u64 (a + 1)))
  end.
Proof.
  intros Hq Ht H'. apply P_bind_inv in H' as [(acc & p1 & H1 & H2)|(e & H1 & _)].
  2:{ by apply persist_spec in H1 as (b & ? & _). }
  apply persist_spec in H1 as (b & [= <-] & Hc & Hf & Hk & Hs). destruct acc.
  - assert (E : r = Ok a /\ record_factory p' = record_factory p1 /\ sink p' = sink p1 /\
      counts p' = (let '(n, e, a) := counts p1 in if failed then (n, u64 (e + 1), a) else (n, e, a)))
      by (destruct failed; by injection H2 as <- <-).
    destruct E as (-> & -> & Es & ->). unfold committed in *. rewrite Es, Hc. split; [done|]. split; [done|]. auto.
  - apply P_bind_inv in H2 as [(u & p2 & [= <- <-] & H2)|(e & [=] & _)].
    destruct r as [x|e]; [by apply Ht in H2|]. apply Hq in H2 as (Hc2 & Hs2 & _).
    unfold committed in *. rewrite Hs2, Hc2. split; [done|]. revert Hc. unfold counts. simpl. by intros [= -> -> ->].
Qed.

(** ** The emitters *)
Lemma serialize_spec m normalized raw p r p' :
  serialize_record cng_sha256 valid_utf8 dump m normalized raw p = (r, p') ->
  exists s, r = Ok s /\ counts p' = counts p /\ sink p' = sink p /\
    forall line, s = inr line -> exists n record f', normalized = inr n /\
      observation cng_sha256 valid_utf8 (record_clocks m) raw n (record_factory p) = (Ok record, f') /\
      dump record = Ok line.
Proof.
  unfold serialize_record. destruct normalized as [e|n]; [intros [= <- <-]; by eexists|].
  unfold try_p, with_record_factory, pure_p, mbind, P_bind, mret, P_ret.
  destruct (observation _ _ _ _ _ _) as [[record|e] f'] eqn:E.
  - destruct (dump record) as [line|e] eqn:Ed; intros [= <- <-]; eexists; (split_and!; [done..|]); [|done].
    intros l [= <-]. by exists n, record, f'.
  - intros [= <- <-]. by eexists.
Qed.
Lemma failure_line_spec m raw failure (p : Pipeline (S := S)) r p' :
  (_ ← count_normalization_failure;
   _ ← set_coverage m "pipeline.normalization" degraded failure
         "decoded source facts retained in failure evidence when journal accepts";
   _ ← signal_health;
   _ ← to_stderr sizeof_item m ("[pipeline] " +:+ failure);
   record ← with_record_factory (normalization_failure cng_sha256 valid_utf8 (failure_clocks m) raw failure);
   pure_p (dump record)) p = (r, p') ->
  sink p' = sink p /\ counts p' = (let '(n, e, a) := counts p in (u64 (n + 1), e, a)) /\
  forall line, r = Ok line -> exists record, failure_built m raw record /\ dump record = Ok line.
Proof.
  intros H'. apply P_bind_inv in H' as [(u & p1 & [= <- <-] & H')|(e & [=] & _)].
  apply P_bind_inv in H' as [(u' & p2 & H1 & H')|(e & H1 & ->)]; apply set_coverage_quiet in H1 as (C1 & S1 & _);
    [|by rewrite C1, S1].
  apply P_bind_inv in H' as [(u2 & p3 & [= <- <-] & H')|(e & [=] & _)].
  apply P_bind_inv in H' as [(u3 & p4 & [= <- <-] & H')|(e & [=] & _)].
  revert H'. unfold mbind, P_bind, with_record_factory, pure_p.
  destruct (normalization_failure _ _ _ _ _ _) as [[record|e] f'] eqn:E; intros [= <- <-].
  - split; [exact S1|]. split; [exact C1|]. intros line Hd. exists record. split; [|done]. by eexists _, _, _.
  - done.
Qed.
Lemma emit_normalized_accounted m context raw p r p' :
  (forall n record f', normalize_raw cng_sha256 raw context = inr n ->
     observation cng_sha256 valid_utf8 (record_clocks m) raw n (record_factory p) = (Ok record, f') ->
     built m context raw record (record_factory p) f') ->
  emit_normalized cng_sha256 valid_utf8 dump sizeof_item m (normalize_raw cng_sha256 raw context) raw p = (r, p') ->
  accounted m context raw p r p'.
Proof.
  intros Hb H'. unfold emit_normalized in H'.
  set (refused := (_ ← set_coverage m "AG.durability" degraded "observation/failure evidence commit refused"
          "observation not durably accepted; source sink failure counted";
    _ ← signal_health; pure_p (Throw (runtime_error "observation was not durably accepted")) : P (S := S) unit)).
  assert (Hq : quiet refused) by repeat first [apply quiet_bind; [|intros _] | apply set_coverage_quiet
    | apply signal_quiet | apply pure_quiet].
  assert (Ht : throws refused) by (do 2 (apply throws_bind; intros _); apply throw_throws).
  apply P_bind_inv in H' as [(serialized & p1 & H1 & H')|(e & H1 & _)].
  2:{ by apply serialize_spec in H1 as (? & ? & _). }
  apply serialize_spec in H1 as (s & [= <-] & C1 & S1 & Hs). unfold accounted, committed. rewrite <- S1.
  destruct serialized as [failure|line].
  - apply P_bind_inv in H' as [(line & p2 & H2 & H')|(e & H2 & ->)];
      apply failure_line_spec in H2 as (S2 & C2 & Hl); rewrite C1 in C2; revert C2; unfold counts; intros C2.
    + pose proof (commit_line m line true tt refused p2 r p' Hq Ht H') as [Hk Hr]. unfold committed in Hk.
      rewrite S2 in Hk. split; [done|]. destruct r as [x|e]; revert Hr; unfold counts; injection C2 as -> -> ->.
      * intros (_ & _ & (k & Hk1 & Hk2) & E). destruct (Hl line eq_refl) as (record & Hrec & Hd).
        by exists true, record, line, k.
      * intros [= -> -> ->]. split; [done|]. by left.
    + rewrite S2. injection C2 as -> -> _. split; [done|]. split; [done|]. by right; left.
  - pose proof (commit_line m line false tt refused p1 r p' Hq Ht H') as [Hk Hr]. split; [done|].
    revert Hr C1. unfold counts. destruct r as [x|e]; intros Hr [= C1 C2 C3].
    + destruct Hr as (_ & _ & (k & Hk1 & Hk2) & E). destruct (Hs line eq_refl) as (n & record & f' & Hn & Ho & Hd).
      exists false, record, line, k. split; [eauto|]. rewrite E, C1, C2, C3. done.
    + injection Hr as -> -> ->. rewrite C2, C3. split; [done|]. by left.
Qed.
Lemma emit_direct_accounted m context raw build p r p' :
  (forall record f', build (record_factory p) = (Ok record, f') -> built m context raw record (record_factory p) f') ->
  emit_direct cng_sha256 valid_utf8 dump sizeof_item m raw build p = (r, p') ->
  accounted m context raw p (match r with Ok _ => Ok tt | Throw e => Throw e end) p' /\
  (r = Ok true -> exists record, build (record_factory p) = (Ok record, record_factory p')).
Proof.
  intros Hb H'. unfold emit_direct in H'.
  set (refused := (_ ← signal_health;
    pure_p (Throw (runtime_error "direct canonical record was not durably accepted")) : P (S := S) bool)).
  assert (Hq : quiet refused) by repeat first [apply quiet_bind; [|intros _] | apply signal_quiet | apply pure_quiet].
  assert (Ht : throws refused) by (apply throws_bind; intros _; apply throw_throws).
  apply P_bind_inv in H' as [(tried & p1 & H1 & H')|(e & H1 & _)].
  2:{ revert H1. unfold try_p, with_record_factory. by destruct (build _) as [[] ?]. }
  revert H1. unfold try_p, with_record_factory. destruct (build (record_factory p)) as [[record|err] f'] eqn:E;
    intros [= <- <-]; cbv zeta in H'.
  - apply P_bind_inv in H' as [(rec2 & p2 & [= <- <-] & H')|(e & [=] & _)].
    apply P_bind_inv in H' as [(line & p3 & [= Hd <-] & H')|(e & [= Hd <-] & ->)].
    + pose proof (commit_line m line false true refused _ r p' Hq Ht H') as [Hk Hr].
      destruct r as [x|e].
      * destruct Hr as (-> & Hf & (k & Hk1 & Hk2) & Hc). split; [|intros _; exists record; by rewrite Hf].
        split; [exact Hk|]. exists false, record, line, k. split; [eauto|]. done.
      * split; [|done]. split; [exact Hk|]. revert Hr. unfold counts. intros [= -> -> ->].
        split; [done|]. by left.
    + split; [|done]. split; [done|]. split; [done|]. eauto.
  - apply P_bind_inv in H' as [(record & p2 & H2 & H')|(e & H2 & ->)];
      (apply P_bind_inv in H2 as [(u & p2' & [= <- <-] & H2)|(e2 & [=] & _)]);
      revert H2; unfold with_record_factory; destruct (normalization_failure _ _ _ _ _ _) as [[record2|e2] f2] eqn:E2;
      intros H2; simplify_eq.
    + apply P_bind_inv in H' as [(line & p3 & [= Hd <-] & H')|(e & [= Hd <-] & ->)].
      * pose proof (commit_line m line true false refused _ r p' Hq Ht H') as [Hk Hr].
        destruct r as [x|e].
        -- destruct Hr as (-> & Hf & (k & Hk1 & Hk2) & Hc). split; [|done].
           split; [exact Hk|]. exists true, record, line, k. split; [by eexists _, _, _|]. done.
        -- split; [|done]. split; [exact Hk|]. revert Hr. unfold counts. intros [= -> -> ->].
           split; [done|]. by left.
      * split; [|done]. split; [done|]. split; [done|]. eauto.
    + split; [|done]. split; [done|]. split; [done|]. right. by left.
Qed.

(** once a stop is recorded, marking the instance as terminated cannot fail *)
Lemma accepted_stop_total clk e f record f' :
  process_stop cng_sha256 valid_utf8 clk e f = (Ok record, f') ->
  exists f2, accepted_process_stop cng_sha256 e f' = (Ok tt, f2).
Proof.
  unfold process_stop, accepted_process_stop. intros H'.
  apply F_bind_Ok in H' as (t & f1 & [Ht ->]%record_lift_Ok & H').
  apply F_bind_Ok in H' as (u & f1' & [_ ->]%record_raise_Ok & H').
  apply F_bind_Ok in H' as (r & f2 & (Hr & st & -> & Hs1 & Hs2)%observe_process_Ok & H').
  apply F_bind_Ok in H' as (u2 & f2' & [_ ->]%record_raise_Ok & H').
  apply F_bind_Ok in H' as (facts & f3 & [_ ->]%record_lift_Ok & H').
  apply envelope_Ok in H' as (h & _ & _ & -> & _).
  rewrite (make_reference_ext _ _ st) in Hr by done.
  unfold mbind, F_bind, lift, of_option in *. destruct (if pe_terminated e then _ else _); [|done].
  unfold observe_process, observe. cbn [with_sequence with_processes processes_]. rewrite Hr. eauto.
Qed.
Lemma accounted_factory m context raw p r p' f : accounted m context raw p r p' ->
  accounted m context raw p r (with_factory f p').
Proof. done. Qed.

Lemma handler_accounted m context raw (p : Pipeline (S := S)) r p' :
  process_raw_event cng_sha256 valid_utf8 inet_pton4 inet_pton6 dump sizeof_item m context raw p = (r, p') ->
  accounted m context raw p r p'.
Proof.
  intros H'. destruct raw as [e|e|e|e|e|e]; cbn [process_raw_event] in H';
    try (apply emit_normalized_accounted; [|done]; intros n record f' Hn Ho; by exists n).
  - destruct (pe_terminated e) eqn:Et.
    2:{ apply emit_normalized_accounted; [|done]. intros n record f' Hn Ho. unfold built. rewrite Et. by exists n. }
    apply P_bind_inv in H' as [(ok & p1 & H1 & H')|(x & H1 & ->)];
      apply (emit_direct_accounted m context) in H1 as [Ha Hok];
      try (intros record f'; unfold built; by rewrite Et); [|done].
    destruct ok; [|by injection H' as <- <-]. destruct (Hok eq_refl) as [record Hb].
    apply accepted_stop_total in Hb as [f2 Hf]. unfold with_record_factory in H'. rewrite Hf in H'.
    injection H' as <- <-. by apply accounted_factory.
  - apply P_bind_inv in H' as [(ok & p1 & H1 & [= <- <-])|(x & H1 & ->)];
      by apply (emit_direct_accounted m context) in H1 as [Ha _].
Qed.


(** Facts that cannot be represented lose the event.  When [source_facts]
    refuses an event (a Sysmon or ETW field block that does not belong to the
    event's source, or a field without its copy evidence), the failure record,
    which holds the same facts, is refused too: the handler throws for every
    journal and every state, so neither the observation nor its failure
    evidence is ever committed. *)
Theorem refused_facts_not_recorded (m : Moment) (context : NormalizationContext) (raw : RawEvent) (refusal : exn)
  (p : Pipeline (S := S)) :
  source_facts valid_utf8 raw = Throw refusal ->
  exists e p', process_raw_event cng_sha256 valid_utf8 inet_pton4 inet_pton6 dump sizeof_item m context raw p =
    (Throw e, p').
Proof.
  intros Hf. destruct (process_raw_event _ _ _ _ _ _ _ _ _ _) as [[u|e] p'] eqn:E; [|eauto]. exfalso.
  apply handler_accounted in E as (_ & failed & record & line & k & Hb & _).
  assert (Hobs : forall clk n f f', observation cng_sha256 valid_utf8 clk raw n f = (Ok record, f') -> False).
  { intros clk n f f' H'. unfold observation in H'. rewrite Hf in H'. discriminate H'. }
  destruct failed.
  - destruct Hb as (error & f & f' & H'). unfold normalization_failure in H'.
    destruct (match raw with ProcessEvent _ => _ | _ => _ end) as [[? ?] ?] in H'.
    apply F_bind_Ok in H' as (r & f1 & _ & H'). rewrite Hf in H'. discriminate H'.
  - destruct Hb as (f' & Hb). unfold built in Hb. destruct raw as [x|x|x|x|x|x];
      try (destruct Hb as (n & _ & Hb); by apply Hobs in Hb).
    + destruct (pe_terminated x); [|destruct Hb as (n & _ & Hb); by apply Hobs in Hb].
      unfold process_stop in Hb. apply F_bind_Ok in Hb as (? & ? & _ & Hb). apply F_bind_Ok in Hb as (? & ? & _ & Hb).
      apply F_bind_Ok in Hb as (? & ? & _ & Hb). apply F_bind_Ok in Hb as (? & ? & _ & Hb).
      rewrite Hf in Hb. discriminate Hb.
    + discriminate Hf.
Qed.
End Accounting.

(** ** Lifecycle records *)
Section LifecycleRecords.
Context (cng_sha256 : string -> string + list Z) (valid_utf8 : string -> bool).
Context (inet_pton4 inet_pton6 : string -> bool).
Context (digest_bytes : forall input d, cng_sha256 input = inr d -> zlen d = 32 /\ Forall (fun b => 0 <= b < 256) d).
Context (utf8_parts : forall a b, valid_utf8 (a +:+ String ":" b) = true -> valid_utf8 a = true /\ valid_utf8 b = true).

(** a factory made for a host with a representable name and boot identity *)
Lemma make_factory_ok context device installation boot generation random f :
  make_factory cng_sha256 context device installation boot generation random = Ok f ->
  text_ok valid_utf8 128 (hm_id (nc_host context)) = true ->
  opt_ok (fun b => text_ok valid_utf8 69 b && identifier b "boot_") boot = true -> factory_ok valid_utf8 f.
Proof.
  unfold make_factory. intros H Hh Hb. apply bind_Ok in H as (epoch & _ & H). apply bind_Ok in H as (st & Hs & H).
  apply bind_Ok in H as (u & _ & H). apply Ok_inj in H. subst f. unfold make_store in Hs.
  destruct (_ || _ || _) in Hs; [done|]. apply Ok_inj in Hs. subst st. by constructor.
Qed.

End LifecycleRecords.

(** ** A concrete stop and a concrete start *)
Definition sample_process (stopped : bool) : RawProcessEvent := {|
  pe_source := {| sp_kind := etw; sp_provider := "p"; sp_channel := Some "c"; sp_record_id := Some 1 |};
  pe_process_start_time := 1704164645678901234; pe_pid := 7; pe_start_time_ticks := Some 9; pe_process_guid := None;
  pe_parent_process_guid := Some "{g}"; pe_parent_pid := Some 4; pe_parent_executable := None;
  pe_executable := Some "C:\d\x.exe"; pe_command_line := None; pe_user_sid := None; pe_user_name := None;
  pe_sha256 := None; pe_terminated := stopped; pe_termination_time := Some 1704164645678901235;
  pe_termination_time_ticks := None; pe_exit_code := Some 0; pe_native_fields := None; pe_sysmon_fields := None |}.
Definition any_text (_ : string) : bool := true.
Lemma any_text_parts a b : any_text (a +:+ String ":" b) = true -> any_text a = true /\ any_text b = true.
Proof. done. Defined.
Definition sample_boot : string := "boot_" +:+ hex_bytes (replicate 32 0).
Definition sample_factory : EndpointRecordFactory := {|
  context_ := sample_normalization; device_id_ := "dev"; installation_id_ := "inst";
  record_boot_id := Some sample_boot; epoch_ := "epoch_" +:+ hex_bytes (replicate 32 0); sequence_ := 0;
  generation_ := 1;
  processes_ := {| host_id_ := "h"; boot_id_ := Some sample_boot; resident_limit_ := Z.to_nat 32768;
                   admission_failures_ := 0; instances_ := ∅ |} |}.
Example sample_factory_made :
  make_factory zero_digest sample_normalization "dev" "inst" (Some sample_boot) 1 (Some "r") = Ok sample_factory.
Proof. reflexivity. Qed.
Definition sample_clocks : Clocks := {| call_now := 1; received_now := 2; uptime_ms := 3 |}.
Definition sample_moment : Moment := {|
  record_clocks := sample_clocks; failure_clocks := sample_clocks; coverage_now := "now";
  copy_capacity := fun s => Some (slen s + 1) |}.
Definition sample_start (n : PanopticonEvent) : result json * EndpointRecordFactory :=
  observation zero_digest any_text sample_clocks (ProcessEvent (sample_process false)) n sample_factory.
Definition sample_normalized : option PanopticonEvent :=
  match normalize_raw zero_digest (ProcessEvent (sample_process false)) sample_normalization with
  | inr n => Some n | inl _ => None end.
Lemma pair_of {A B} (x : A * B) a : x.1 = a -> x = (a, x.2).
Proof. destruct x. simpl. by intros ->. Defined.

(** ** A concrete run of the handler, offline *)
#[local] Instance handler_journal : EvidenceJournal JState :=
  durable_journal toy_sha any_text no_parse toy_cipher toy_cipher toy_disk toy_config.
#[local] Instance handler_journal_laws : EvidenceJournalLaws JState :=
  durable_journal_laws toy_sha any_text no_parse toy_cipher toy_cipher toy_disk toy_config.
Definition brief_dump (j : json) : result string :=
  match find "record_id" j with Some (JStr id) => Ok id | _ => Throw (json_exception "no record") end.
Definition idle_output : DiagnosticState := fresh_diagnostic 4 4096 1024 Diagnostic.Started.
Definition idle_pipeline (f : EndpointRecordFactory) : Pipeline := {|
  record_factory := f; sink := Offline start; normalization_failures := 0; failure_evidence_committed := 0;
  observation_admission_failures := 0; coverage := []; health_changed := false;
  diagnostic_stdout := idle_output; diagnostic_stderr := idle_output |}.
Definition handled (raw : RawEvent) : result unit * Pipeline :=
  process_raw_event zero_digest any_text any_text any_text brief_dump 40 sample_moment sample_normalization raw
    (idle_pipeline sample_factory).

(** a native field block on an event that is not from the kernel provider *)
Definition foreign_fields : RawProcessEvent := {|
  pe_source := {| sp_kind := sysmon; sp_provider := "p"; sp_channel := Some "c"; sp_record_id := None |};
  pe_process_start_time := 1704164645678901234; pe_pid := 7; pe_start_time_ticks := None; pe_process_guid := None;
  pe_parent_process_guid := None; pe_parent_pid := None; pe_parent_executable := None; pe_executable := None;
  pe_command_line := None; pe_user_sid := None; pe_user_name := None; pe_sha256 := None; pe_terminated := false;
  pe_termination_time := None; pe_termination_time_ticks := None; pe_exit_code := None;
  pe_native_fields := Some {| en_event_id := 1; en_event_version := 3; en_fields := [] |}; pe_sysmon_fields := None |}.
Lemma refused_facts_not_recorded_witness :
  (exists e p', handled (ProcessEvent foreign_fields) = (Throw e, p')) /\
  observations (db (journal_of (sink (handled (ProcessEvent foreign_fields)).2))) = [].
Proof.
  split; [|vm_compute; reflexivity].
  eapply (refused_facts_not_recorded zero_digest any_text any_text any_text brief_dump 40). vm_compute. reflexivity.
Defined.
