(* ===== verification/Response.v ===== *)
(** * The response runtime

    [main.cpp]: [ResponseRuntime], [retain_collection_artifact], [execute_command],
    [process_durable_commands] and [run_response_cycle], with
    [response/profile.hpp].  Three journals are durable: the inbox of received
    commands, the outbox of results and the outbox of artifacts; the gate and the
    pending result are lost in a restart.

    A computation runs on the state of the runtime.  Every use of a journal, of
    the network or of Windows is a step; the answers of the outside world to the
    [n]-th step are [world n], and it may end the process before the step
    ([crash]).  The native actions (file evidence, quarantine, acquisition,
    isolation) are their results. *)

From S2P Require Import Prelude Telemetry Ledger Journal Uploader UploaderFacts Identity Json Serializer Normalizer Enrollment Command ProcessActions Transport Outbox.

(** ** What the outside answers *)
Inductive QuarantineState := q_refused | q_failed | q_partial | q_completed.
#[global] Instance QuarantineState_eq_dec : EqDecision QuarantineState.
Proof. solve_decision. Defined.
Record QuarantineOutcome := {
  q_state : QuarantineState; source_security_changed : bool; source_removed : bool;
  destination_protected : bool; metadata_durable : bool; stored_path : string; metadata_path : string;
  q_detail : string
}.
Record FileAcquisitionResult := {
  capture_id : string; acq_state : string; acq_error : string; captured_bytes : Z; acq_sha256 : string;
  existing_capture_verified : bool
}.
Record Answers := {
  (** the process ends before this step *)
  crash : bool;
  (** it ends inside a flush: after this many retired entries and one more request *)
  crash_in_flush : option nat;
  now : Z; uptime : Z; boot_query : option BootQuery;
  disk_of : JournalDb -> DiskReport;
  observation : ObservationProbe; termination : TerminationProbe;
  network_evidence : outcome string; file_evidence : outcome string;
  quarantine : option string * string * QuarantineOutcome;
  key_error : option string; acquisition : result FileAcquisitionResult;
  (** [apply_isolation] and [release_isolation]: whether applied, and the message *)
  isolation : bool * string
}.

Record ResponseConfig := {
  enabled : bool; file_collection_root : string; forensic_store_root : string; quarantine_root : string;
  manager_exception_host : string; manager_exception_port : Z; maximum_event_bytes : Z
}.
Definition default_journal : JournalConfig := {|
  retained_payload_limit := 16 * 1024 * 1024 * 1024; event_size_limit := 1024 * 1024;
  physical_admission_limit := 32 * 1024 * 1024 * 1024; minimum_free_bytes := 128 * 1024 * 1024 |}.
(** [ArtifactOutbox::bounded_config] *)
Definition artifact_journal : JournalConfig := {|
  retained_payload_limit := 64 * 1024 * 1024; event_size_limit := 1500 * 1024;
  physical_admission_limit := 128 * 1024 * 1024; minimum_free_bytes := 128 * 1024 * 1024 |}.

(** an action handler that was entered *)
Record Dispatch := { d_key : string; d_command : Command; d_recovering : bool }.

(** ** The state of the runtime *)
Record Runtime := {
  inbox : JState; outcomes : JState; artifacts : option JState;
  gate : CommandGate; pending_result : option (string * string);
  history : list Request; emitted : list string; dispatched : list Dispatch;
  artifact_failures : Z; result_commit_failures : Z; poll_failures : Z; parse_failures : Z;
  poll_state : Z; step : nat
}.
Definition with_journals (i o : JState) (a : option JState) (r : Runtime) : Runtime :=
  {| inbox := i; outcomes := o; artifacts := a; gate := gate r; pending_result := pending_result r;
     history := history r; emitted := emitted r; dispatched := dispatched r;
     artifact_failures := artifact_failures r; result_commit_failures := result_commit_failures r;
     poll_failures := poll_failures r; parse_failures := parse_failures r; poll_state := poll_state r;
     step := step r |}.
Definition with_gate (g : CommandGate) (p : option (string * string)) (r : Runtime) : Runtime :=
  {| inbox := inbox r; outcomes := outcomes r; artifacts := artifacts r; gate := g; pending_result := p;
     history := history r; emitted := emitted r; dispatched := dispatched r;
     artifact_failures := artifact_failures r; result_commit_failures := result_commit_failures r;
     poll_failures := poll_failures r; parse_failures := parse_failures r; poll_state := poll_state r;
     step := step r |}.
Definition with_trace (h : list Request) (e : list string) (d : list Dispatch) (r : Runtime) : Runtime :=
  {| inbox := inbox r; outcomes := outcomes r; artifacts := artifacts r; gate := gate r;
     pending_result := pending_result r; history := h; emitted := e; dispatched := d;
     artifact_failures := artifact_failures r; result_commit_failures := result_commit_failures r;
     poll_failures := poll_failures r; parse_failures := parse_failures r; poll_state := poll_state r;
     step := step r |}.
Definition count (artifact commit poll parse state : Z) (r : Runtime) : Runtime :=
  {| inbox := inbox r; outcomes := outcomes r; artifacts := artifacts r; gate := gate r;
     pending_result := pending_result r; history := history r; emitted := emitted r;
     dispatched := dispatched r; artifact_failures := u64 (artifact_failures r + artifact);
     result_commit_failures := u64 (result_commit_failures r + commit);
     poll_failures := u64 (poll_failures r + poll); parse_failures := u64 (parse_failures r + parse);
     poll_state := state; step := step r |}.
Definition tick (r : Runtime) : Runtime :=
  {| inbox := inbox r; outcomes := outcomes r; artifacts := artifacts r; gate := gate r;
     pending_result := pending_result r; history := history r; emitted := emitted r;
     dispatched := dispatched r; artifact_failures := artifact_failures r;
     result_commit_failures := result_commit_failures r; poll_failures := poll_failures r;
     parse_failures := parse_failures r; poll_state := poll_state r; step := S (step r) |}.

(** ** Computations *)
Inductive verdict (A : Type) := Returned (a : A) | Raised (e : exn) | Crashed.
Arguments Returned {A} a.
Arguments Raised {A} e.
Arguments Crashed {A}.
Definition R (A : Type) : Type := Runtime -> verdict A * Runtime.
#[global] Instance R_ret : MRet R := fun A a r => (Returned a, r).
#[global] Instance R_bind : MBind R := fun A B f m r =>
  match m r with
  | (Returned a, r) => f a r
  | (Raised e, r) => (Raised e, r)
  | (Crashed, r) => (Crashed, r)
  end.
Definition of_result {A} (x : result A) : R A := fun r =>
  match x with Ok a => (Returned a, r) | Throw e => (Raised e, r) end.
Definition modify (f : Runtime -> Runtime) : R unit := fun r => (Returned tt, f r).
(** [try { m } catch (const std::exception& e) { h }] *)
Definition catching {A} (m : R A) (h : exn -> R A) : R A := fun r =>
  match m r with (Raised e, r) => h e r | other => other end.

(** ** The profile that is sent with a poll *)
Definition response_profile (config : ResponseConfig) (host : string) (boot : option string) : json :=
  let allowed :=
    if enabled config then
      ["KILL_PROCESS"; "COLLECT_PROCESS_INFO"; "COLLECT_NETWORK_CONNECTIONS"; "RELEASE_HOST_ISOLATION"]
      ++ (if str_empty (file_collection_root config) then [] else ["COLLECT_FILE"])
      ++ (if str_empty (file_collection_root config) || str_empty (quarantine_root config) then []
          else ["QUARANTINE_FILE"])
      ++ (if str_empty (manager_exception_host config) || (manager_exception_port config =? 0) then []
          else ["ISOLATE_HOST"])
    else [] in
  object [("schema_version", JStr "2"); ("platform", JStr "windows"); ("host_id", JStr host);
          ("boot_id", opt_json JStr boot); ("mode", JStr (if enabled config then "enforce" else "off"));
          ("implemented_actions", JArr (JStr <$>
             ["KILL_PROCESS"; "COLLECT_PROCESS_INFO"; "COLLECT_NETWORK_CONNECTIONS"; "COLLECT_FILE";
              "QUARANTINE_FILE"; "ISOLATE_HOST"; "RELEASE_HOST_ISOLATION"]));
          ("allowed_actions", JArr (JStr <$> allowed)); ("require_boot_binding", JBool true);
          ("require_signature", JBool false); ("require_collection_acceptance", JBool true);
          ("artifact_protocol", JStr "signed-json-v2-resume-v1")].

Definition set_receipt (code : ReceiptCode) (why : string) (r : CommandReceipt) : CommandReceipt :=
  {| r_command_id := r_command_id r; r_correlation_id := r_correlation_id r; code_ := code;
     summary := why; execution := execution r |}.
Definition is_collection (a : ActionType) : bool :=
  match a with collect_process_info | collect_network_connections | collect_file => true | _ => false end.
Definition quarantine_code (s : QuarantineState) : ReceiptCode :=
  match s with
  | q_refused => target_mismatch | q_failed => execution_failed | q_partial | q_completed => indeterminate
  end.
Definition quarantine_state_name (s : QuarantineState) : string :=
  match s with
  | q_refused => "refused" | q_failed => "failed" | q_partial => "partial"
  | q_completed => "completed_without_result"
  end.
Definition quarantine_summary (o : QuarantineOutcome) (error : string) : string :=
  "QUARANTINE_FILE " +:+ quarantine_state_name (q_state o) +:+ ": "
  +:+ (if str_empty (q_detail o) then error else q_detail o)
  +:+ "; source_security_changed=" +:+ flag (source_security_changed o)
  +:+ "; source_removed=" +:+ flag (source_removed o)
  +:+ "; destination_protected=" +:+ flag (destination_protected o)
  +:+ "; metadata_durable=" +:+ flag (metadata_durable o)
  +:+ (if str_empty (stored_path o) then "" else "; stored_path=" +:+ stored_path o)
  +:+ (if str_empty (metadata_path o) then "" else "; metadata_path=" +:+ metadata_path o).

Section Runtime_.
Context (cng_sha256 : string -> outcome (list Z)) (valid_utf8 : string -> bool).
Context (json_events : string -> bool + json) (dump : json -> result string).
(** [dump()] of a parsed document *)
Context (dump_parsed : json -> string).
Context (base64_encode : string -> string) (base64_decode : string -> option string).
Context (sign_raw : EcKeyPair -> string -> outcome string).
Context (protect unprotect : string -> string -> result string).
Context (network : list Request -> reply) (world : nat -> Answers).
(** the fixed members of [ResponseRuntime] *)
Context (client : Client) (identity : EnrolledIdentity) (config : ResponseConfig) (manager_url : string).
Context (context : NormalizationContext) (ledger : ReplayLedger) (artifact_key : option EcKeyPair).
Context (inbox_scope : string).

Definition json_parse (text : string) : option json :=
  match json_events text with inr tree => Some (dom tree) | inl _ => None end.
Abbreviation agent := (Enrollment.agent_id identity).
Abbreviation host := (enrolled_host_id identity).

(** one step: the answers of the outside, unless the process ends first *)
Definition ask {A} (f : Answers -> Runtime -> verdict A * Runtime) : R A := fun r =>
  let a := world (step r) in
  let r := tick r in
  if crash a then (Crashed, r) else f a r.
Definition query {A} (f : Answers -> A) : R A := ask (fun a r => (Returned (f a), r)).
Definition verdict_of {A} (x : result A) : verdict A :=
  match x with Ok a => Returned a | Throw e => Raised e end.
(** journal operations *)
Definition on_inbox {A} (m : (JournalDb -> DiskReport) -> M A) : R A := ask (fun a r =>
  let '(x, j) := m (disk_of a) (inbox r) in (verdict_of x, with_journals j (outcomes r) (artifacts r) r)).
Definition journal_of (a : Answers) (c : JournalConfig) : EvidenceJournal JState :=
  durable_journal cng_sha256 valid_utf8 json_parse protect unprotect (disk_of a) c.
Definition save_outcome (result_ : string) : R unit := ask (fun a r =>
  let '(x, j) := @result_save _ (journal_of a default_journal) json_events dump agent host result_ (outcomes r) in
  (verdict_of x, with_journals (inbox r) j (artifacts r) r)).
Definition call {A} (f : N A) : R A := ask (fun _ r =>
  let '(x, h) := f (history r) in (Returned x, with_trace h (emitted r) (dispatched r) r)).

(** ** Collected evidence *)
(** [retain_collection_artifact]: the receipt afterwards *)
Definition retain_collection_artifact (c : Command) (kind data : string) (receipt : CommandReceipt)
  : R CommandReceipt :=
  catching (ask (fun a r =>
    match artifacts r with
    | None => (Raised (runtime_error "artifact store unavailable"), r)
    | Some j =>
        match (key ← of_option artifact_key (runtime_error "enrolled artifact signing key unavailable");
               unsigned ← make_artifact_payload cng_sha256 json_events dump base64_encode (command_id c)
                            (correlation_id c) host kind data;
               _ ← throw_if (now a <? 0) (runtime_error "artifact signing time is invalid");
               sign_artifact_payload cng_sha256 json_events dump base64_encode sign_raw unsigned agent
                 key (now a)) with
        | Throw e => (Raised e, r)
        | Ok payload =>
            let '(x, j) := @artifact_save _ (journal_of a artifact_journal) json_events dump agent host payload j in
            let r := with_journals (inbox r) (outcomes r) (Some j) r in
            match (_ ← x;
                   value ← parse json_events payload;
                   manifest ← at_ "manifest" value;
                   at_ "artifact_id" manifest |> get_string) with
            | Ok id => (Returned (set_receipt (code_ receipt)
                          (summary receipt +:+ "; structured evidence committed locally: " +:+ id) receipt), r)
            | Throw e => (Raised e, r)
            end
        end
    end))
  (fun e => _ ← modify (fun r => count 1 0 0 0 (poll_state r) r);
            mret (set_receipt indeterminate
                    ("Collection ran but evidence could not be durably committed: " +:+ what e) receipt)).

(** ** Dispatch *)
Definition process_snapshot (o : ProcessObservation) : result (outcome string) :=
  let raw := to_raw_process_event o in
  match normalize_process_event cng_sha256
          {| en_raw := raw; en_user := Build_ResolvedUser None None None; en_process_name := pe_executable raw;
             en_sha256 := None; en_parent_name := None; en_parent_start_time := None |} context with
  | inl error => Ok (inl ("process observation could not be normalized: " +:+ error))
  | inr event =>
      data ← serialize_event dump event;
      document ← parse json_events data;
      text ← dump (object [("scope", JStr "held_process_identity_and_image_path"); ("observation", document);
        ("unavailable", JArr (JStr <$> ["thread_inventory_not_collected_by_this_command";
           "instruction_trace"; "memory_contents"; "binary_contents"]))]);
      Ok (inr text)
  end.
Definition acquisition_receipt (recovering : bool) (a : result FileAcquisitionResult) (receipt : CommandReceipt)
  : CommandReceipt :=
  match a with
  | Throw e =>
      if recovering
      then set_receipt indeterminate
             ("interrupted ACQUIRE_FILE could not verify durable capture evidence: " +:+ what e) receipt
      else set_receipt execution_failed ("file acquisition initialization failed: " +:+ what e) receipt
  | Ok acquired =>
      if recovering && negb (existing_capture_verified acquired)
      then set_receipt indeterminate
             "interrupted ACQUIRE_FILE lacks an authenticated matching manifest; action not repeated" receipt
      else if String.eqb (acq_state acquired) "refused"
      then set_receipt target_mismatch ("file acquisition refused: " +:+ acq_error acquired) receipt
      else if String.eqb (acq_state acquired) "partial" || String.eqb (acq_state acquired) "failed"
      then set_receipt execution_failed
             ("file acquisition " +:+ acq_state acquired +:+ " for capture " +:+ capture_id acquired
              +:+ " after " +:+ to_string (captured_bytes acquired) +:+ " bytes"
              +:+ (if str_empty (acq_error acquired) then "" else ": " +:+ acq_error acquired)) receipt
      else set_receipt (code_ receipt)
             ("file acquisition " +:+ acq_state acquired +:+ " for capture " +:+ capture_id acquired
              +:+ "; bytes=" +:+ to_string (captured_bytes acquired) +:+ "; sha256=" +:+ acq_sha256 acquired)
             receipt
  end.
Definition dispatch (d : Dispatch) : R unit :=
  ask (fun _ r => (Returned tt, with_trace (history r) (emitted r) (dispatched r ++ [d]) r)).
Definition collect (c : Command) (kind : string) (refused : ReceiptCode) (why : string)
    (evidence : outcome string) (receipt : CommandReceipt) : R CommandReceipt :=
  match evidence with
  | inl error => mret (set_receipt refused (why +:+ error) receipt)
  | inr data => retain_collection_artifact c kind data receipt
  end.
(** [key]: the inbox key of the command, kept with the dispatch *)
Definition execute_command (key : string) (c : Command) (receipt : CommandReceipt) (recovering : bool)
  : R CommandReceipt :=
  if negb (bool_decide (code_ receipt = succeeded)) then mret receipt
  else
    t ← query now;
    if negb recovering && (expires_at_epoch_seconds c <=? t)
    then mret (set_receipt expired "command expired before OS action dispatch" receipt)
    else
      _ ← dispatch {| d_key := key; d_command := c; d_recovering := recovering |};
      match action c with
      | kill_process =>
          query (fun a => termination_receipt (terminate_process (termination a) (process_target c)).1
                            (command_id c) (correlation_id c))
      | collect_process_info =>
          observed ← query (fun a => reobserve_process (observation a) (process_target c));
          match observed with
          | inl error => mret (set_receipt target_mismatch
                                 ("process identity could not be re-observed: " +:+ error) receipt)
          | inr o =>
              snapshot ← of_result (process_snapshot o);
              collect c "process_snapshot" execution_failed "" snapshot receipt
          end
      | collect_network_connections =>
          evidence ← query network_evidence;
          collect c "network_snapshot" execution_failed "network evidence collection failed: " evidence receipt
      | collect_file =>
          evidence ← query file_evidence;
          collect c "file_metadata" target_mismatch "requested file could not be safely collected: " evidence receipt
      | quarantine_file =>
          '(result_, error, o) ← query quarantine;
          match result_, bool_decide (q_state o = q_completed) with
          | Some line, true =>
              _ ← modify (fun r => with_trace (history r) (emitted r ++ [line]) (dispatched r) r);
              mret receipt
          | _, _ => mret (set_receipt (quarantine_code (q_state o)) (quarantine_summary o error) receipt)
          end
      | acquire_file =>
          if str_empty (file_collection_root config) || str_empty (forensic_store_root config)
          then mret (set_receipt target_mismatch
                       "ACQUIRE_FILE requires explicit collection and forensic store roots" receipt)
          else
            key_failure ← query key_error;
            match key_failure with
            | Some error =>
                mret (if recovering
                      then set_receipt indeterminate
                        ("interrupted ACQUIRE_FILE cannot be reconciled because its protected key is unavailable: "
                         +:+ error) receipt
                      else set_receipt execution_failed ("forensic key provisioning failed: " +:+ error) receipt)
            | None => query (fun a => acquisition_receipt recovering (acquisition a) receipt)
            end
      | isolate_host | release_host_isolation =>
          '(applied, error) ← query isolation;
          mret (if applied : bool then receipt
                else set_receipt execution_failed
                  ((if bool_decide (action c = isolate_host) then "isolate_host failed: "
                    else "release_host_isolation failed: ") +:+ error) receipt)
      end.

(** ** Commands of the inbox *)
Definition validate (c : Command) : R CommandReceipt := ask (fun a r =>
  let '(receipt, g) := validate_and_mark (now a) Persisted c (gate r) in
  (Returned receipt, with_gate g (pending_result r) r)).
(** what stands before the dispatch of a command that was just begun *)
Definition authorize (c : Command) : R CommandReceipt :=
  receipt ← validate c;
  let receipt := if bool_decide (code_ receipt = succeeded) && Ledger.contains (command_id c) ledger
                 then set_receipt indeterminate
                   "legacy acceptance retained; prior execution cannot be proven; action not repeated" receipt
                 else receipt in
  if negb (bool_decide (code_ receipt = succeeded)) then mret receipt
  else
    acceptance ← call (accept_command json_events network client manager_url identity (command_id c));
    mret (if is_collection (action c) && negb (bool_decide (acceptance = Transport.acknowledged))
          then set_receipt execution_failed
                 "collection not executed: Manager acceptance was refused or unavailable" receipt
          else receipt).
Definition interrupted_receipt (c : Command) : CommandReceipt :=
  receipt c indeterminate "prior execution intent recovered; completion cannot be proven; action not repeated".
(** the receipt of a stored command; [None]: another worker has begun it *)
Definition resolve_command (key : string) (state : cmd_state) (c : Command) : R (option CommandReceipt) :=
  match state with
  | Journal.Received =>
      begun ← on_inbox (fun disk => begin_command disk default_journal inbox_scope key);
      if negb begun then mret None
      else
        receipt ← authorize c;
        receipt ← execute_command key c receipt false;
        mret (Some receipt)
  | Journal.Executing =>
      if bool_decide (action c = acquire_file) && String.eqb key (command_id c)
      then receipt ← execute_command key c (receipt c succeeded "") true; mret (Some receipt)
      else mret (Some (interrupted_receipt c))
  | _ => mret (Some (interrupted_receipt c))
  end.
Definition hand_over (key result_ : string) : R unit :=
  _ ← save_outcome result_;
  on_inbox (fun disk => mark_command_outboxed disk default_journal inbox_scope key).
Definition set_pending (p : option (string * string)) : R unit := modify (fun r => with_gate (gate r) p r).
Definition finish (key result_ : string) : R unit :=
  on_inbox (fun disk => finish_command protect unprotect disk default_journal inbox_scope key result_).
(** one turn of the loop of [process_durable_commands] *)
Definition handle_command (stored : JournalCommand) : R unit :=
  let key := jc_key stored in
  if bool_decide (jc_state stored = ResultReady) then hand_over key (jc_result stored)
  else
    match parse_command_json json_events dump_parsed (jc_body stored) with
    | inl error => of_result (Throw (runtime_error ("retained command cannot be decoded: " +:+ error)))
    | inr c =>
        resolved ← resolve_command key (jc_state stored) c;
        match resolved with
        | None => mret tt
        | Some receipt =>
            serialized ← of_result (serialize_command_result cng_sha256 dump receipt (maximum_event_bytes config));
            match serialized with
            | inl error => of_result (Throw (runtime_error ("retained command result cannot serialize: " +:+ error)))
            | inr result_ =>
                _ ← set_pending (Some (key, result_));
                _ ← finish key result_;
                _ ← set_pending None;
                hand_over key result_
            end
        end
    end.
Fixpoint handle_all (l : list JournalCommand) : R unit :=
  match l with
  | [] => mret tt
  | stored :: l => _ ← handle_command stored; handle_all l
  end.
Definition process_durable_commands : R unit :=
  stored ← on_inbox (fun _ => pending_commands unprotect inbox_scope 32);
  handle_all stored.

(** ** One cycle *)
Definition submit_result : string -> N TransportOutcome :=
  submit_command_result json_events network client manager_url identity.
Definition flushed (a : Answers) (limit : nat) (r : Runtime) : result Z * JState * list Request :=
  @result_flush _ (journal_of a default_journal) json_events dump agent host _ submit_result limit
    (outcomes r) (history r).
Definition after_flush (j : JState) (h : list Request) (r : Runtime) : Runtime :=
  with_trace h (emitted r) (dispatched r) (with_journals (inbox r) j (artifacts r) r).
Definition flush_outcomes : R unit := ask (fun a r =>
  match crash_in_flush a with
  | None =>
      let '(x, j, h) := flushed a 32 r in
      (match x with Ok _ => Returned tt | Throw e => Raised e end, after_flush j h r)
  | Some i =>
      let '(x, j, h) := flushed a (Nat.min i 31) r in
      if bool_decide (x = Ok (Z.of_nat (Nat.min i 31)))
      then (** the next result is sent, its acknowledgement is lost *)
        let '(_, j, h) := @flush_step _ (journal_of a default_journal) json_events dump agent host _ _
                            submit_result (fun _ _ => false) "result" "" (1024 * 1024) (fun s => s) j h in
        (Crashed, after_flush j h r)
      else (Crashed, after_flush j h r)
  end).
Fixpoint receive_all (cs : list Command) : R unit :=
  match cs with
  | [] => mret tt
  | c :: cs =>
      match sha256_hex cng_sha256 (inbox_scope +:+ ":" +:+ command_id c) with
      | inl error => of_result (Throw (runtime_error error))
      | inr key =>
          _ ← on_inbox (fun disk => receive_command cng_sha256 protect unprotect disk default_journal
                                      inbox_scope key (canonical_wire_json c));
          receive_all cs
      end
  end.
Definition commit_failed : R unit := modify (fun r => count 0 1 0 0 (poll_state r) r).
Definition finish_pending : R unit := fun r =>
  match pending_result r with
  | Some (key, result_) => (_ ← finish key result_; set_pending None) r
  | None => (Returned tt, r)
  end.
Definition run_response_cycle : R unit :=
  proceed ← catching (_ ← finish_pending; _ ← process_durable_commands; _ ← flush_outcomes; mret true)
              (fun _ => _ ← commit_failed; mret false);
  if negb proceed then mret tt
  else
    boot ← query (fun a => query_native_boot_id cng_sha256 (boot_query a));
    profile ← of_result (dump (response_profile config host
                match boot with inr b => Some b | inl _ => None end));
    poll ← call (poll_commands base64_encode network client manager_url identity profile);
    match poll with
    | inl _ => modify (count 0 0 1 0 2)
    | inr text =>
        match parse_command_poll_response json_events dump_parsed text 32 with
        | inl _ => modify (count 0 0 0 1 2)
        | inr commands =>
            _ ← modify (count 0 0 0 0 1);
            catching (_ ← receive_all commands; process_durable_commands) (fun _ => commit_failed)
        end
    end.

(** ** The artifact thread *)
(** one turn of its loop, with the back-off in milliseconds; the sender's state is
    the history of requests and whether a chunk was accepted *)
Definition submit_step (payload : string) (w : list Request * bool) : option string * (list Request * bool) :=
  let '((receipt, progress), h) :=
    submit_artifact cng_sha256 json_events dump base64_encode base64_decode network client manager_url identity
      payload w.1 in
  (receipt, (h, w.2 || progress)).
Definition next_delay (failed : bool) (delay : Z) : Z :=
  if failed then Z.min 60000 (u32 (delay * 2)) else 1000.
Definition artifact_pass (saved : nat -> list string) (delay : Z) : R Z := ask (fun a r =>
  match artifacts r with
  | None => (Returned delay, r)
  | Some j =>
      let '(x, j, (h, progress)) :=
        @artifact_flush _ (journal_of a artifact_journal) json_events dump agent host _ submit_step saved 8 j
          (history r, false) in
      let r := with_trace h (emitted r) (dispatched r) (with_journals (inbox r) (outcomes r) (Some j) r) in
      let failed := match x with
                    | Ok retired => negb (n_pending (counters (db j)) =? 0) && (retired =? 0) && negb progress
                    | Throw _ => true
                    end in
      (Returned (next_delay failed delay), if failed then count 1 0 0 0 (poll_state r) r else r)
  end).

(** ** A life of the endpoint *)
(** the process ends and starts again: the journals remain *)
Definition restarted (r : Runtime) : Runtime := {|
  inbox := inbox r; outcomes := outcomes r; artifacts := artifacts r;
  gate := {| agent_id_ := agent; gate_host_id := host; seen_ := ∅; durable_ledger_ := None |};
  pending_result := None; history := history r; emitted := emitted r; dispatched := dispatched r;
  artifact_failures := 0; result_commit_failures := 0; poll_failures := 0; parse_failures := 0;
  poll_state := 0; step := step r |}.
Inductive turn := Cycle | ArtifactPass (saved : nat -> list string) (delay : Z) | Restart.
Definition live_turn (t : turn) (r : Runtime) : Runtime :=
  match t with
  | Cycle => match run_response_cycle r with (Returned _, r) => r | (_, r) => restarted r end
  | ArtifactPass saved delay =>
      match artifact_pass saved delay r with (Returned _, r) => r | (_, r) => restarted r end
  | Restart => restarted r
  end.
Definition live (turns : list turn) (r : Runtime) : Runtime := foldl (fun r t => live_turn t r) r turns.
End Runtime_.
