(* ===== verification/ResponseFacts.v ===== *)
(** * What the response runtime promises

    Over any life of the endpoint - cycles, passes of the artifact thread, crashes
    before any use of a journal, the network or Windows, and restarts - a command
    is executed at most once. *)

From S2P Require Import Prelude Telemetry Ledger Journal JournalFacts JournalSpec Uploader UploaderFacts Identity Json Serializer Normalizer Enrollment Command CommandFacts ProcessActions Transport TransportFacts Outbox Response.

Create HintDb quiet.

Section Facts.
Context (cng_sha256 : string -> outcome (list Z)) (valid_utf8 : string -> bool).
Context (json_events : string -> bool + json) (dump : json -> result string) (dump_parsed : json -> string).
Context (base64_encode : string -> string) (base64_decode : string -> option string).
Context (sign_raw : EcKeyPair -> string -> outcome string).
Context (protect unprotect : string -> string -> result string).
Context (network : list Request -> reply) (world : nat -> Answers).
Context (client : Client) (identity : EnrolledIdentity) (config : ResponseConfig) (manager_url : string).
Context (context : NormalizationContext) (ledger : ReplayLedger) (artifact_key : option EcKeyPair).
Context (inbox_scope : string).
(** what is encrypted is decrypted *)
Context (unprotects : forall x k p, protect x k = Ok p -> unprotect p k = Ok x).
(** a printed document that was parsed from text is read back as the same document *)
Context (rereads : forall text tree, json_events text = inr tree ->
  exists tree', json_events (dump_parsed (dom tree)) = inr tree' /\ dom tree' = dom tree).

Abbreviation json_parse := (json_parse json_events).
Abbreviation perform := (fun disk => perform cng_sha256 valid_utf8 json_parse protect unprotect disk default_journal).
Abbreviation decode := (parse_command_json json_events dump_parsed).

(** ** The invariant of the inbox and the dispatches *)
(** the key under which a command is received *)
Definition own_key (id k : string) : Prop := sha256_hex cng_sha256 (inbox_scope +:+ ":" +:+ id) = inr k.
Definition row_ok (c : CommandRow) : Prop :=
  c_scope c = inbox_scope ->
  exists id, own_key id (c_key c) /\
    forall body cmd, unprotect (c_payload c) (inbox_scope +:+ c_key c +:+ "/command") = Ok body ->
      decode body = inr cmd -> command_id cmd = id.
Definition begun (j : JState) (k : string) : Prop :=
  exists c, c ∈ commands (db j) /\ c_scope c = inbox_scope /\ c_key c = k /\ 1 <= rank (c_state c).
Definition ordinary (ds : list Dispatch) : list Dispatch := filter (fun d => d_recovering d = false) ds.
Record inv (j : JState) (ds : list Dispatch) : Prop := {
  inv_journal : journal_ok default_journal (db j);
  inv_rows : forall c, c ∈ commands (db j) -> row_ok c;
  inv_keys : forall d, d ∈ ds -> own_key (command_id (d_command d)) (d_key d);
  inv_begun : forall d, d ∈ ds -> d_recovering d = false -> begun j (d_key d);
  inv_once : NoDup (d_key <$> ordinary ds);
  inv_recovering : forall d, d ∈ ds -> d_recovering d = true ->
    action (d_command d) = acquire_file /\ d_key d = command_id (d_command d)
}.
Definition grows (j j' : JState) : Prop := inbox_grows (db j) (db j').

Lemma begun_grows j j' k : grows j j' -> begun j k -> begun j' k.
Proof.
  intros Hg (c & Hc & Hs & Hk & Hr). destruct (Hg c Hc) as (c' & Hc' & Ek & Es & _ & _ & Er & _).
  exists c'. split_and!; [done|congruence|congruence|lia].
Qed.
(** a request that adds a command adds it under its own key *)
Definition request_ok (rq : request) : Prop :=
  match rq with
  | ReceiveCommand scope k body =>
      scope = inbox_scope /\ exists id, own_key id k /\ forall cmd, decode body = inr cmd -> command_id cmd = id
  | _ => True
  end.
Lemma request_step disk rq j x j' ds :
  request_ok rq -> inv j ds -> perform disk rq j = (x, j') -> inv j' ds /\ grows j j'.
Proof.
  intros Hrq [Hj Hrows Hkeys Hb Ho Hr] E.
  assert (Hrow' : journal_ok default_journal (db j') /\ inbox_rows protect rq (db j) (db j')).
  { split; [pose proof (perform_step cng_sha256 valid_utf8 json_parse protect unprotect disk default_journal rq j Hj) as H;
      by rewrite E in H|].
    destruct x as [x|e]; [eapply perform_rows; [apply Hj|exact E]|].
    rewrite (perform_atomic _ _ _ _ _ _ _ _ _ _ _ E). apply inbox_rows_same. }
  destruct Hrow' as [Hj' Hrow]. pose proof (inbox_rows_grow _ _ _ _ Hrow) as Hg. split; [|exact Hg].
  split; [done| |done|intros d Hd Hn; by eapply begun_grows, Hb|done|done].
  destruct Hrow as (old & new & El & Hold & Hnew). intros c. rewrite El, elem_of_app. intros [Hc|Hc].
  - apply list_elem_of_lookup in Hc as [i Hi]. destruct (Forall2_lookup_r _ _ _ _ _ Hold Hi) as (c0 & Hi0 & He).
    apply list_elem_of_lookup_2, Hrows in Hi0. destruct He as (Ek & Es & _ & Ep & _).
    intros Hsc. rewrite Es in Hsc. destruct (Hi0 Hsc) as (id & Hid & Hcmd). exists id. by rewrite Ek, Ep.
  - destruct Hnew as [->|(scope & k & body & p & row & -> & -> & Ek & Es & Ep & _ & Hp)]; [by apply not_elem_of_nil in Hc|].
    apply list_elem_of_singleton in Hc as ->. destruct Hrq as (-> & id & Hid & Hcmd). intros _. exists id.
    rewrite Ek, Ep. split; [done|]. intros b cmd Hb'. rewrite (unprotects _ _ _ Hp) in Hb'. injection Hb' as <-. apply Hcmd.
Qed.

(** ** Triples: only the inbox and the dispatches matter *)
Definition holds {A} (P : JState -> list Dispatch -> Prop) (m : R A) (Q : A -> JState -> list Dispatch -> Prop) : Prop :=
  forall r, P (inbox r) (dispatched r) ->
    grows (inbox r) (inbox (m r).2) /\
    match m r with
    | (Returned a, r') => Q a (inbox r') (dispatched r')
    | (_, r') => inv (inbox r') (dispatched r')
    end.
Definition quiet {A} (m : R A) : Prop :=
  forall r, inbox (m r).2 = inbox r /\ dispatched (m r).2 = dispatched r.
Lemma grows_refl j : grows j j.
Proof. apply inbox_refl. Qed.
Lemma grows_trans a b c : grows a b -> grows b c -> grows a c.
Proof. apply inbox_trans. Qed.
Lemma holds_bind {A B} P (m : R A) Q (f : A -> R B) Q' :
  holds P m Q -> (forall a, holds (Q a) (f a) Q') -> holds P (m ≫= f) Q'.
Proof.
  intros Hm Hf r Hr. specialize (Hm r Hr) as [Hg Hm]. unfold mbind, R_bind.
  destruct (m r) as [[a|e|] r']; [|done..]. destruct (Hf a r' Hm) as [Hg' H']. split; [by eapply grows_trans|done].
Qed.
Lemma holds_unmoved {A} (P : JState -> list Dispatch -> Prop) (m : R A) :
  quiet m -> (forall j ds, P j ds -> inv j ds) -> holds P m (fun _ => P).
Proof.
  intros Hq Hp r Hr. destruct (Hq r) as [Ei Ed].
  destruct (m r) as [[a|e|] r']; cbn [snd] in *; rewrite Ei, Ed; auto using grows_refl.
Qed.
Lemma holds_pre {A} (P P' : JState -> list Dispatch -> Prop) (m : R A) Q :
  (forall j ds, P' j ds -> P j ds) -> holds P m Q -> holds P' m Q.
Proof. intros Hp Hm r Hr. apply Hm. by apply Hp. Qed.
Lemma holds_post {A} P (m : R A) (Q Q' : A -> JState -> list Dispatch -> Prop) :
  (forall a j ds, Q a j ds -> Q' a j ds) -> holds P m Q -> holds P m Q'.
Proof.
  intros Hq Hm r Hr. specialize (Hm r Hr) as [Hg Hm]. split; [done|]. destruct (m r) as [[a|e|] r']; auto.
Qed.
Lemma holds_ret {A} (P : JState -> list Dispatch -> Prop) (a : A) (Q : A -> JState -> list Dispatch -> Prop) :
  (forall j ds, P j ds -> Q a j ds) -> holds P (mret a) Q.
Proof. intros H r Hr. split; [apply grows_refl|]. by apply H. Qed.
Lemma holds_catching {A} (m : R A) h (Q : A -> JState -> list Dispatch -> Prop) P :
  holds P m Q -> (forall e, holds inv (h e) Q) -> holds P (catching m h) Q.
Proof.
  intros Hm Hh r Hr. specialize (Hm r Hr) as [Hg Hm]. unfold catching. destruct (m r) as [[a|e|] r']; [done| |done].
  destruct (Hh e r' Hm) as [Hg' H']. split; [by eapply grows_trans|done].
Qed.
(** what grows with the inbox survives *)
Lemma holds_frame {A} P (m : R A) Q (F : JState -> Prop) :
  (forall j j', grows j j' -> F j -> F j') ->
  holds P m Q -> holds (fun j ds => P j ds /\ F j) m (fun a j ds => Q a j ds /\ F j).
Proof.
  intros Hf Hm r [Hr HF]. specialize (Hm r Hr) as [Hg Hm]. split; [done|].
  destruct (m r) as [[a|e|] r']; [|done..]. split; [done|]. by eapply Hf.
Qed.
Lemma quiet_seq {A B} (m : R A) (f : A -> R B) : quiet m -> (forall a, quiet (f a)) -> quiet (m ≫= f).
Proof.
  intros Hm Hf r. unfold mbind, R_bind. specialize (Hm r). destruct (m r) as [[a|e|] r']; cbn [snd] in *; [|done..].
  destruct (Hf a r') as [-> ->]. done.
Qed.
Lemma quiet_ret {A} (a : A) : quiet (mret a).
Proof. done. Qed.
Lemma quiet_query {A} (f : Answers -> A) : quiet (query world f).
Proof. intros r. unfold query, ask. by destruct (crash _). Qed.
Lemma quiet_result {A} (x : result A) : quiet (of_result x).
Proof. intros r. by destruct x. Qed.
Lemma quiet_count a b c d e : quiet (modify (fun r => count a b c d (e r) r)).
Proof. done. Qed.
Lemma quiet_call {A} (f : N A) : quiet (call world f).
Proof. intros r. unfold call, ask. destruct (crash _); [done|]. cbn. by destruct (f _). Qed.
Lemma quiet_catching {A} (m : R A) h : quiet m -> (forall e, quiet (h e)) -> quiet (catching m h).
Proof.
  intros Hm Hh r. unfold catching. specialize (Hm r). destruct (m r) as [[a|e|] r']; cbn [snd] in *; [done| |done].
  destruct (Hh e r') as [-> ->]. done.
Qed.
#[local] Hint Resolve quiet_seq quiet_ret quiet_query quiet_result quiet_count quiet_call quiet_catching : quiet.

Abbreviation agent := (Enrollment.agent_id identity).
Abbreviation retain := (retain_collection_artifact cng_sha256 valid_utf8 json_events dump base64_encode sign_raw
  protect unprotect world identity artifact_key).
Abbreviation execute := (execute_command cng_sha256 valid_utf8 json_events dump base64_encode sign_raw
  protect unprotect world identity config context artifact_key).
Abbreviation on_inbox := (on_inbox world).

Lemma quiet_retain c kind data receipt : quiet (retain c kind data receipt).
Proof.
  apply quiet_catching; [|intros e; apply quiet_seq; [apply quiet_count|intros; apply quiet_ret]].
  intros r. unfold ask. destruct (crash _); [done|]. destruct (artifacts (tick r)) as [j|]; [|done].
  match goal with |- context [match ?m with Ok _ => _ | Throw _ => _ end] => destruct m end; [|done].
  destruct (artifact_save _ _ _ _ _ _) as [x j']. cbn zeta.
  match goal with |- context [match ?m with Ok _ => _ | Throw _ => _ end] => destruct m end; done.
Qed.
Lemma quiet_collect c kind code why evidence receipt :
  quiet (collect cng_sha256 valid_utf8 json_events dump base64_encode sign_raw protect unprotect world identity
    artifact_key c kind code why evidence receipt).
Proof. destruct evidence; [apply quiet_ret|apply quiet_retain]. Qed.
Lemma quiet_validate c : quiet (validate world c).
Proof. intros r. unfold validate, ask. destruct (crash _); [done|]. by destruct (validate_and_mark _ _ _ _). Qed.
Lemma quiet_authorize c : quiet (authorize json_events network world client identity manager_url ledger c).
Proof.
  apply quiet_seq; [apply quiet_validate|]. intros receipt. cbv zeta. destruct (negb _); [apply quiet_ret|].
  auto with quiet.
Qed.
Lemma quiet_save_outcome text : quiet (save_outcome cng_sha256 valid_utf8 json_events dump protect unprotect world identity text).
Proof. intros r. unfold save_outcome, ask. destruct (crash _); [done|]. by destruct (result_save _ _ _ _ _ _). Qed.
Lemma quiet_pending p : quiet (set_pending p).
Proof. done. Qed.
Lemma quiet_flush : quiet (flush_outcomes cng_sha256 valid_utf8 json_events dump protect unprotect network world
  client identity manager_url).
Proof.
  intros r. unfold flush_outcomes, ask. destruct (crash _); [done|]. destruct (crash_in_flush _).
  - destruct (flushed _ _ _ _ _ _ _ _ _ _ _ _ _) as [[x j] h]. case_bool_decide; [|done].
    by destruct (flush_step _ _ _ _ _ _ _ _ _ _ _ _) as [[? ?] ?].
  - by destruct (flushed _ _ _ _ _ _ _ _ _ _ _ _ _) as [[x j] h].
Qed.
#[local] Hint Resolve quiet_retain quiet_collect quiet_authorize quiet_save_outcome quiet_pending quiet_flush : quiet.

(** ** Dispatch *)
Definition ready (k : string) (c : Command) (j : JState) (ds : list Dispatch) : Prop :=
  inv j ds /\ own_key (command_id c) k /\ begun j k /\ k ∉ d_key <$> ordinary ds.
Definition resumable (k : string) (c : Command) (j : JState) (ds : list Dispatch) : Prop :=
  inv j ds /\ own_key (command_id c) k /\ action c = acquire_file /\ k = command_id c.
Definition dispatchable (recovering : bool) : string -> Command -> JState -> list Dispatch -> Prop :=
  if recovering then resumable else ready.
Lemma dispatchable_inv b k c j ds : dispatchable b k c j ds -> inv j ds.
Proof. destruct b; by intros [? _]. Qed.
Lemma ordinary_app ds d : ordinary (ds ++ [d]) = ordinary ds ++ (if d_recovering d then [] else [d]).
Proof. unfold ordinary. rewrite filter_app, filter_cons. by destruct (d_recovering d). Qed.
Lemma dispatch_holds b k c :
  holds (dispatchable b k c) (dispatch world {| d_key := k; d_command := c; d_recovering := b |}) (fun _ => inv).
Proof.
  intros r Hr. unfold dispatch, ask.
  destruct (crash _); (split; [apply grows_refl|]); [by eapply dispatchable_inv|]. cbn.
  assert (Hown : own_key (command_id c) k) by (destruct b; apply Hr).
  pose proof (dispatchable_inv _ _ _ _ _ Hr) as [Hj Hrows Hkeys Hb Ho Hrec].
  split; [done|done| | | |].
  - intros d [Hd| ->%list_elem_of_singleton]%elem_of_app; [by apply Hkeys|done].
  - intros d [Hd| ->%list_elem_of_singleton]%elem_of_app Hf; [by apply Hb|]. cbn in Hf. subst b. apply Hr.
  - rewrite ordinary_app. destruct b; cbn [d_recovering]; [by rewrite app_nil_r|].
    rewrite fmap_app. apply NoDup_snoc; [done|apply Hr].
  - intros d [Hd| ->%list_elem_of_singleton]%elem_of_app Ht; [by apply Hrec|]. cbn in Ht. subst b. apply Hr.
Qed.
Lemma execute_holds b k c receipt : holds (dispatchable b k c) (execute k c receipt b) (fun _ => inv).
Proof.
  unfold execute_command. destruct (negb _); [apply holds_ret; intros j ds; apply dispatchable_inv|].
  eapply holds_bind; [apply holds_unmoved; [apply quiet_query|intros j ds; apply dispatchable_inv]|]. intros t. cbv beta.
  destruct (_ && _); [apply holds_ret; intros j ds; apply dispatchable_inv|].
  eapply holds_bind; [apply dispatch_holds|]. intros ?. cbv beta. apply holds_unmoved; [|done].
  destruct (action c); auto with quiet.
  - apply quiet_seq; [auto with quiet|]. intros [error|o]; auto with quiet.
  - apply quiet_seq; [auto with quiet|]. intros [[result_ error] o]. destruct result_; [|auto with quiet].
    destruct (bool_decide _); [|auto with quiet]. apply quiet_seq; [done|auto with quiet].
  - destruct (_ || _); [auto with quiet|]. apply quiet_seq; [auto with quiet|]. intros [error|]; auto with quiet.
  - apply quiet_seq; [auto with quiet|]. intros [applied error]. auto with quiet.
  - apply quiet_seq; [auto with quiet|]. intros [applied error]. auto with quiet.
Qed.

(** ** The inbox *)
Lemma on_inbox_holds {A} (m : (JournalDb -> DiskReport) -> M A) rq f (P : JState -> list Dispatch -> Prop) :
  (forall disk j, perform disk rq j = answering f (m disk) j) -> request_ok rq ->
  (forall j ds, P j ds -> inv j ds) ->
  holds P (on_inbox m) (fun a j' ds => exists j disk,
    P j ds /\ m disk j = (Ok a, j') /\ inv j' ds /\ grows j j').
Proof.
  intros Hrq Hok Hinv r Hr. unfold Response.on_inbox, ask.
  destruct (crash _); [split; [apply grows_refl|by apply Hinv]|]. cbn.
  set (disk := disk_of _). destruct (m disk (inbox r)) as [x j'] eqn:E.
  destruct (request_step disk rq (inbox r) (perform disk rq (inbox r)).1 j' (dispatched r) Hok (Hinv _ _ Hr)) as [Hi Hg].
  { rewrite (surjective_pairing (perform disk rq (inbox r))) at 1. f_equal. by rewrite Hrq, answering_state, E. }
  destruct x as [a|e]; cbn; (split; [done|]); [|done]. by exists (inbox r), disk.
Qed.
Lemma begin_true disk j k j' :
  begin_command disk default_journal inbox_scope k j = (Ok true, j') -> tables_ok (db j) ->
  begun j' k /\ ~ begun j k.
Proof.
  unfold begin_command. intros H Ht. apply transaction_Ok in H. inv_step H.
  destruct (find_scoped inbox_scope k (db j)) as [row|] eqn:F; [|by inv_step H].
  case_decide as Hst; [|by inv_step H]. apply find_scoped_Some in F as (Hin & Hs & Hk). inv_run H. split.
  - match goal with E : db ?y = _ |- _ => unfold begun; rewrite E end.
    exists (set_state Executing row). simpl. split_and!; [|done..]. apply list_elem_of_fmap.
    exists row. rewrite Hs, !String.eqb_refl. simpl. by rewrite decide_True.
  - intros (c & Hc & _ & Hck & Hr). assert (c = row) as -> by (eapply unique_command; eauto using ok_command_keys; congruence).
    rewrite Hst in Hr. simpl in Hr. lia.
Qed.
(** a command read from the inbox *)
Definition stored_ok (st : JournalCommand) (j : JState) : Prop :=
  exists c, c ∈ commands (db j) /\ c_scope c = inbox_scope /\ c_key c = jc_key st /\
    unprotect (c_payload c) (inbox_scope +:+ c_key c +:+ "/command") = Ok (jc_body st).
Lemma stored_grows st j j' : grows j j' -> stored_ok st j -> stored_ok st j'.
Proof.
  intros Hg (c & Hc & Hs & Hk & Hb). destruct (Hg c Hc) as (c' & Hc' & Ek & Es & _ & Ep & _).
  exists c'. rewrite Ek, Ep. split_and!; [done|congruence|congruence|done].
Qed.
Lemma stored_id st j ds cmd : inv j ds -> stored_ok st j -> decode (jc_body st) = inr cmd -> own_key (command_id cmd) (jc_key st).
Proof.
  intros Hi (c & Hc & Hs & Hk & Hb) Hd. destruct (inv_rows _ _ Hi c Hc Hs) as (id & Hid & Hcmd).
  rewrite (Hcmd _ _ Hb Hd), <- Hk. exact Hid.
Qed.
Lemma mapM_elem {A B} (f : A -> result B) l out b :
  mapM f l = Ok out -> b ∈ out -> exists a, a ∈ l /\ f a = Ok b.
Proof.
  revert out. induction l as [|a l IH]; intros out H Hb; cbn in H; [injection H as <-; by apply not_elem_of_nil in Hb|].
  inv_ok H. apply Ok_inj in H as <-. apply elem_of_cons in Hb as [->|Hb]; [exists a; by split; [left|]|].
  destruct (IH _ Ha0 Hb) as (x & Hx & Hf). exists x. split; [by right|done].
Qed.
Lemma pending_stored j l j' st :
  pending_commands unprotect inbox_scope 32 j = (Ok l, j') -> st ∈ l -> stored_ok st j.
Proof.
  unfold pending_commands. intros H Hst. inv_step H. inv_step H. apply lift_Ok in H as [H _].
  destruct (mapM_elem _ _ _ _ H Hst) as (c & Hc & Hf). apply elem_of_take in Hc as (i & Hc & _).
  apply list_elem_of_lookup_2, list_elem_of_filter in Hc as [[Hs _] Hin]. inv_ok Hf. apply Ok_inj in Hf as <-.
  by exists c.
Qed.

Abbreviation resolve := (resolve_command cng_sha256 valid_utf8 json_events dump base64_encode sign_raw protect
  unprotect network world client identity config manager_url context ledger artifact_key inbox_scope).
Abbreviation handle := (handle_command cng_sha256 valid_utf8 json_events dump dump_parsed base64_encode sign_raw protect
  unprotect network world client identity config manager_url context ledger artifact_key inbox_scope).
Abbreviation handle_all := (handle_all cng_sha256 valid_utf8 json_events dump dump_parsed base64_encode sign_raw protect
  unprotect network world client identity config manager_url context ledger artifact_key inbox_scope).
Abbreviation process := (process_durable_commands cng_sha256 valid_utf8 json_events dump dump_parsed base64_encode sign_raw
  protect unprotect network world client identity config manager_url context ledger artifact_key inbox_scope).
Abbreviation cycle := (run_response_cycle cng_sha256 valid_utf8 json_events dump dump_parsed base64_encode sign_raw
  protect unprotect network world client identity config manager_url context ledger artifact_key inbox_scope).

Lemma resolve_holds k state c :
  holds (fun j ds => inv j ds /\ own_key (command_id c) k) (resolve k state c) (fun _ => inv).
Proof.
  unfold resolve_command. destruct state; try (apply holds_ret; by intros j ds [? _]).
  - eapply holds_bind;
      [apply (on_inbox_holds _ (BeginCommand inbox_scope k) Started); [done|done|by intros j ds [? _]]|].
    intros b. cbv beta. destruct b; cbn [negb].
    2: { apply holds_ret. intros j' ds (j & disk & _ & _ & Hi & _). exact Hi. }
    apply (holds_pre (ready k c)).
    { intros j' ds (j & disk & [Hi Hown] & Hb & Hi' & Hg). apply begin_true in Hb as [Hb Hn]; [|apply Hi].
      split_and!; [done|done|done|]. intros Hin. apply list_elem_of_fmap in Hin as (d & -> & Hd).
      apply list_elem_of_filter in Hd as [Hf Hd]. apply Hn. by apply (inv_begun _ _ Hi). }
    eapply holds_bind; [apply holds_unmoved; [apply quiet_authorize|by intros j ds [? _]]|]. intros receipt. cbv beta.
    eapply holds_bind; [apply (execute_holds false)|]. intros r'. by apply holds_ret.
  - destruct (_ && _) eqn:E; [|apply holds_ret; by intros j ds [? _]].
    apply andb_true_iff in E as [Ha%bool_decide_eq_true Hk%String.eqb_eq]. apply (holds_bind _ _ (fun _ => inv)); [|intros r'; by apply holds_ret].
    eapply holds_pre; [|apply (execute_holds true)]. intros j ds [Hi Hown]. split_and!; done.
Qed.
Lemma finish_holds k text :
  holds inv (finish protect unprotect world inbox_scope k text) (fun _ => inv).
Proof.
  eapply holds_post; [|apply (on_inbox_holds _ (FinishCommand inbox_scope k text) (fun _ => Done)); done].
  intros a' j ds (j0 & disk & _ & _ & Hi & _). exact Hi.
Qed.
Lemma hand_over_holds k text :
  holds inv (hand_over cng_sha256 valid_utf8 json_events dump protect unprotect world identity inbox_scope k text) (fun _ => inv).
Proof.
  eapply holds_bind; [apply holds_unmoved; [apply quiet_save_outcome|done]|]. intros ?.
  eapply holds_post; [|apply (on_inbox_holds _ (MarkOutboxed inbox_scope k) (fun _ => Done)); done].
  intros a' j ds (j0 & disk & _ & _ & Hi & _). exact Hi.
Qed.
Lemma handle_holds st : holds (fun j ds => inv j ds /\ stored_ok st j) (handle st) (fun _ => inv).
Proof.
  unfold handle_command. destruct (bool_decide _); [eapply holds_pre; [|apply hand_over_holds]; by intros j ds [? _]|].
  destruct (decode (jc_body st)) as [error|c] eqn:Ec; [eapply holds_pre; [|apply holds_unmoved; [apply quiet_result|done]]; by intros j ds [? _]|].
  eapply holds_bind; [eapply holds_pre; [|apply resolve_holds]|].
  { intros j ds [Hi Hs]. split; [done|]. by eapply stored_id. }
  intros [receipt|]; [|by apply holds_ret].
  eapply holds_bind; [apply holds_unmoved; [apply quiet_result|done]|]. intros [error|text]; [apply holds_unmoved; [apply quiet_result|done]|].
  eapply holds_bind; [apply holds_unmoved; [apply quiet_pending|done]|]. intros ?.
  eapply holds_bind; [apply finish_holds|]. intros ?.
  eapply holds_bind; [apply holds_unmoved; [apply quiet_pending|done]|]. intros ?. apply hand_over_holds.
Qed.
Lemma handle_all_holds l :
  holds (fun j ds => inv j ds /\ Forall (fun st => stored_ok st j) l) (handle_all l) (fun _ => inv).
Proof.
  induction l as [|st l IH]; cbn [Response.handle_all]; [apply holds_ret; by intros j ds [? _]|].
  apply (holds_bind _ _ (fun _ j ds => inv j ds /\ Forall (fun st => stored_ok st j) l)); [|intros ?; apply IH].
  eapply holds_pre; [|apply holds_frame; [|apply (handle_holds st)]].
  - intros j ds [Hi [Hs Hl]%Forall_cons]. done.
  - intros j j' Hg Hl. eapply Forall_impl; [exact Hl|]. intros x. by apply stored_grows.
Qed.
Lemma process_holds : holds inv process (fun _ => inv).
Proof.
  unfold process_durable_commands.
  eapply holds_bind; [apply (on_inbox_holds _ (PendingCommands inbox_scope 32) Commands); done|].
  intros l. cbv beta. eapply holds_pre; [|apply handle_all_holds].
  intros j' ds (j & disk & _ & Hp & Hi & Hg). split; [done|]. apply Forall_forall. intros st Hst.
  eapply stored_grows; [exact Hg|]. by eapply pending_stored.
Qed.
(** the commands of a poll are received under their own keys *)
Lemma decoded_wire text c : decode text = inr c -> forall c', decode (canonical_wire_json c) = inr c' -> command_id c' = command_id c.
Proof.
  intros H c' H'. apply decoded_id in H as (tree & Ht & Hid & Hw). apply decoded_id in H' as (tree' & Ht' & Hid' & _).
  rewrite Hw in Ht'. destruct (rereads _ _ Ht) as (t2 & Ht2 & Hd). rewrite Ht2 in Ht'. injection Ht' as ->.
  rewrite Hd, Hid in Hid'. by injection Hid'.
Qed.
Lemma receive_holds cs :
  Forall (fun c => exists t, decode t = inr c) cs ->
  holds inv (receive_all cng_sha256 protect unprotect world inbox_scope cs) (fun _ => inv).
Proof.
  induction 1 as [|c cs [t Ht] _ IH]; cbn [receive_all]; [by apply holds_ret|].
  destruct (sha256_hex cng_sha256 _) as [error|k] eqn:Ek; [apply holds_unmoved; [apply quiet_result|done]|].
  eapply holds_bind; [apply (on_inbox_holds _ (ReceiveCommand inbox_scope k (canonical_wire_json c)) (fun _ => Done))|]; try done.
  - split; [done|]. exists (command_id c). split; [exact Ek|]. by eapply decoded_wire.
  - intros ?. cbv beta. eapply holds_pre; [|exact IH]. intros j' ds (j & disk & _ & _ & Hi & _). exact Hi.
Qed.
Lemma cycle_holds : holds inv cycle (fun _ => inv).
Proof.
  unfold run_response_cycle. eapply holds_bind.
  { apply (holds_catching _ _ (fun _ => inv)).
    - apply (holds_bind _ _ (fun _ => inv)).
      { intros r Hr. unfold finish_pending. destruct (pending_result r) as [[k text]|]; [|split; [apply grows_refl|done]].
        apply (holds_bind inv _ (fun _ => inv) _ (fun _ => inv)); [apply finish_holds| |done].
        intros ?. apply holds_unmoved; [apply quiet_pending|done]. }
      intros ?. apply (holds_bind _ _ (fun _ => inv)); [apply process_holds|]. intros ?.
      apply (holds_bind _ _ (fun _ => inv)); [apply holds_unmoved; [apply quiet_flush|done]|]. intros ?. by apply holds_ret.
    - intros e. apply holds_unmoved; [|done]. unfold commit_failed. auto with quiet. }
  intros proceed. cbv beta. destruct (negb proceed); [by apply holds_ret|].
  eapply holds_bind; [apply holds_unmoved; [apply quiet_query|done]|]. intros b. cbv beta.
  eapply holds_bind; [apply holds_unmoved; [apply quiet_result|done]|]. intros profile. cbv beta.
  eapply holds_bind; [apply holds_unmoved; [apply quiet_call|done]|]. intros poll. cbv beta.
  destruct poll as [error|text]; [by apply holds_unmoved|].
  destruct (parse_command_poll_response _ _ text 32) as [error|cs] eqn:Ep; [by apply holds_unmoved|].
  eapply holds_bind; [by apply holds_unmoved|]. intros ?. cbv beta.
  apply (holds_catching _ _ (fun _ => inv)); [|intros e; by apply holds_unmoved].
  eapply holds_bind; [apply receive_holds|intros ?; apply process_holds].
  apply Forall_forall. intros c Hc. by eapply (polled_decoded json_events dump_parsed).
Qed.
Abbreviation live := (live cng_sha256 valid_utf8 json_events dump dump_parsed base64_encode base64_decode sign_raw
  protect unprotect network world client identity config manager_url context ledger artifact_key inbox_scope).
Abbreviation live_turn := (live_turn cng_sha256 valid_utf8 json_events dump dump_parsed base64_encode base64_decode sign_raw
  protect unprotect network world client identity config manager_url context ledger artifact_key inbox_scope).
Definition runtime_ok (r : Runtime) : Prop := inv (inbox r) (dispatched r).
Lemma live_turn_ok t r : runtime_ok r -> runtime_ok (live_turn t r).
Proof.
  intros Hr. destruct t; cbn [Response.live_turn].
  - destruct (cycle_holds r Hr) as [_ H]. by destruct (cycle r) as [[a|e|] r'].
  - unfold artifact_pass, ask. destruct (crash _); [exact Hr|]. cbn. destruct (artifacts r); [|exact Hr].
    match goal with |- context [let '(_, _) := ?f in _] => destruct f as [[x j'] [h p]] end. cbn. by destruct (match x with Ok _ => _ | Throw _ => _ end).
  - exact Hr.
Qed.
Lemma live_ok turns r : runtime_ok r -> runtime_ok (live turns r).
Proof.
  unfold Response.live. revert r. induction turns as [|t turns IH]; intros r Hr; [done|]. apply IH. by apply live_turn_ok.
Qed.

(** an endpoint that starts with an empty inbox *)
Definition fresh (r : Runtime) : Prop :=
  journal_ok default_journal (db (inbox r)) /\ commands (db (inbox r)) = [] /\ dispatched r = [].
Lemma fresh_ok r : fresh r -> runtime_ok r.
Proof.
  intros (Hj & Hc & Hd). unfold runtime_ok. rewrite Hd. split; try done; try by intros d ?%not_elem_of_nil.
  - rewrite Hc. by intros c ?%not_elem_of_nil.
  - constructor.
Qed.
Lemma keys_follow_ids ds :
  (forall d, d ∈ ds -> own_key (command_id (d_command d)) (d_key d)) -> NoDup (d_key <$> ds) ->
  NoDup ((fun d => command_id (d_command d)) <$> ds).
Proof.
  intros Hk. induction ds as [|d ds IH]; intros H; [constructor|]. apply NoDup_cons in H as [Hd Hn].
  apply NoDup_cons. split; [|apply IH; [intros x Hx; apply Hk; by right|done]].
  intros (d' & E & Hd')%list_elem_of_fmap. apply Hd, list_elem_of_fmap. exists d'. split; [|done].
  pose proof (Hk d ltac:(left)) as Ha. pose proof (Hk d' ltac:(by right)) as Hb.
  unfold own_key in Ha, Hb. rewrite E, Hb in Ha. by injection Ha.
Qed.
(** CNG's SHA-256 digests have 32 bytes *)
Context (digests : forall text d, cng_sha256 text = inr d -> zlen d = 32).
Lemma own_key_hex id k : own_key id k -> slen k = 64.
Proof.
  unfold own_key, sha256_hex. case_match; [done|]. destruct (cng_sha256 _) as [|d] eqn:E; [done|]. intros [= <-].
  rewrite hex_bytes_length, (digests _ _ E). lia.
Qed.

(** C12: an endpoint that starts with an empty inbox and lives through any sequence
    of response cycles, artifact passes and restarts, polled commands of any
    content, refusing disks and crashes before any use of a journal, of the
    network or of Windows, enters the handler of an action at most once for each
    command id: a command is never repeated, also not after a crash that hides
    whether its action took place.  The only other entry is the recovery of an
    interrupted file acquisition. *)
Theorem commands_execute_at_most_once turns r :
  fresh r ->
  NoDup ((fun d => command_id (d_command d)) <$> ordinary (dispatched (live turns r))) /\
  forall d, d ∈ dispatched (live turns r) -> d_recovering d = true -> action (d_command d) = acquire_file.
Proof.
  intros Hr. pose proof (live_ok turns r (fresh_ok r Hr)) as H.
  split; [|intros d Hd Ht; apply (inv_recovering _ _ H d Hd Ht)].
  apply keys_follow_ids; [|apply (inv_once _ _ H)]. intros d Hd. apply (inv_keys _ _ H).
  apply list_elem_of_filter in Hd. apply Hd.
Qed.

(** C40: the recovery of an interrupted file acquisition, which the comment of
    [process_durable_commands] promises, does not happen: a command whose id has
    not the 64 characters of a digest is never dispatched for recovery in any
    life, and resolving it after an interruption answers that it is not
    repeated, whatever its action.  The dispatch compares the inbox key, a digest
    of scope and command id, with the command id itself. *)
Theorem interrupted_acquisition_not_resumed turns r c k :
  fresh r -> slen (command_id c) <> 64 ->
  (forall d, d ∈ dispatched (live turns r) -> command_id (d_command d) = command_id c -> d_recovering d = false) /\
  (own_key (command_id c) k -> forall r', resolve k Executing c r' = (Returned (Some (interrupted_receipt c)), r')).
Proof.
  intros Hr Hlen. pose proof (live_ok turns r (fresh_ok r Hr)) as H. split.
  - intros d Hd Hid. destruct (d_recovering d) eqn:Hrec; [|done]. exfalso. apply Hlen.
    rewrite <- Hid. pose proof (inv_keys _ _ H d Hd) as Hk. apply own_key_hex in Hk.
    by rewrite (proj2 (inv_recovering _ _ H d Hd Hrec)) in Hk.
  - intros Hk%own_key_hex r'. cbn. destruct (String.eqb_spec k (command_id c)) as [->|]; [done|].
    by rewrite andb_false_r.
Qed.
End Facts.
