(* ===== verification/ResponseExample.v ===== *)
(** * A life of the response runtime

    The theorems of the response runtime at work: a poll delivers one file
    acquisition, the process ends while the acquisition runs, and the next process
    reports the command as interrupted.  The parser knows the texts that occur,
    encryption is the identity, and a digest is constant. *)

From S2P Require Import Prelude Telemetry Ledger Journal JournalFacts Uploader Identity Json Serializer Normalizer Enrollment Command ProcessActions Transport Response ResponseFacts.

Definition toy_digest (_ : string) : outcome (list Z) := inr (repeat 0 32).
Definition toy_protect (x _ : string) : result string := Ok x.
Definition order_tree : json :=
  JObj [("action", JStr "ACQUIRE_FILE"); ("agent_id", JStr "agent-1"); ("command_id", JStr "cmd-9");
        ("correlation_id", JStr "corr-1"); ("created_at", JStr "2024-02-29T23:59:59Z");
        ("expires_at", JStr "2024-03-01T00:00:00Z"); ("host_id", JStr "host-1");
        ("schema_version", JStr "1");
        ("target", JObj [("capture_id", JStr "capture-1"); ("maximum_bytes", JUint 4096); ("path", JStr "a.bin")])].
Definition poll_tree : json := JObj [("commands", JArr [order_tree])].
Definition result_tree : json := JObj [("schema_version", JStr "2")].
Definition wrapped_tree : json := JObj [("agent_id", JStr "agent-1"); ("host_id", JStr "host-1"); ("result", JStr "result")].
Definition toy_texts : list (string * json) :=
  [("order", order_tree); ("poll", poll_tree); ("result", result_tree); ("wrapped", wrapped_tree)].
Definition toy_events (text : string) : bool + json :=
  match list_find (fun e => e.1 = text) toy_texts with Some (_, (_, tree)) => inr tree | None => inl false end.
Definition toy_dump (j : json) : result string :=
  Ok (if contains "result" j then "wrapped" else if contains "commands" j then "poll"
      else if contains "command_id" j && contains "action" j then "order" else "result").
Definition toy_print (j : json) : string := match toy_dump j with Ok text => text | Throw _ => "" end.

Definition toy_identity : EnrolledIdentity :=
  {| Enrollment.agent_id := "agent-1"; enrolled_host_id := "host-1"; bearer_token := "token" |}.
Definition toy_settings : ResponseConfig :=
  {| enabled := true; file_collection_root := "C:\Evidence"; forensic_store_root := "C:\Store";
     quarantine_root := ""; manager_exception_host := ""; manager_exception_port := 0;
     maximum_event_bytes := 65536 |}.
(** the poll is answered; the Manager is unavailable otherwise *)
Definition toy_network (h : list Request) : reply :=
  match last h with
  | Some rq => if String.eqb (method rq) "GET" then inr {| status_code := 200; response_body := "poll" |}
               else inl "unavailable"
  | None => inl "unavailable"
  end.
Definition toy_answers (ends : bool) : Answers := {|
  crash := ends; crash_in_flush := None; now := 1709251000; uptime := 0; boot_query := None;
  disk_of := fun _ => {| file_sizes := [Ok (Some 4096); Ok None; Ok None]; free_space := Ok 1000000000 |};
  observation := {| obs_boot := inl ""; obs_opened := false; obs_creation := None; obs_parent := None; obs_image := None |};
  termination := {| current_pid := 1; native_boot := inl ""; open_error := None; creation := inl 0;
    full_image := inl None; is_critical := None; protection_level := None; wait_before := (0, 0);
    terminate_error := None; wait_after := (0, 0) |};
  network_evidence := inl ""; file_evidence := inl "";
  quarantine := (None, "", {| q_state := q_refused; source_security_changed := false; source_removed := false;
    destination_protected := false; metadata_durable := false; stored_path := ""; metadata_path := ""; q_detail := "" |});
  key_error := None;
  acquisition := Ok {| capture_id := "capture-1"; acq_state := "complete"; acq_error := ""; captured_bytes := 10;
    acq_sha256 := "00"; existing_capture_verified := false |};
  isolation := (false, "") |}.
(** the process ends at the acquisition, its thirteenth step *)
Definition toy_world (n : nat) : Answers := toy_answers (Nat.eqb n 12).
Definition toy_context : NormalizationContext :=
  {| nc_agent := {| am_id := "agent-1"; am_version := "1" |};
     nc_host := {| hm_id := "host-1"; hm_hostname := "pc"; hm_os := {| os_name := "Windows"; os_build := "1" |} |} |}.
Definition empty_journal : JState := {| db := empty_db; storage_admission_refusals := 0 |}.
Definition first_start : Runtime := {|
  inbox := empty_journal; outcomes := empty_journal; artifacts := Some empty_journal;
  gate := {| agent_id_ := "agent-1"; gate_host_id := "host-1"; seen_ := ∅; durable_ledger_ := None |};
  pending_result := None; history := []; emitted := []; dispatched := []; artifact_failures := 0;
  result_commit_failures := 0; poll_failures := 0; parse_failures := 0; poll_state := 0; step := 0 |}.
Definition toy_ledger : ReplayLedger := {| Ledger.entries := ∅; maximum_entries := 10; Ledger.file := None |}.
Abbreviation toy_live := (live toy_digest (fun _ => true) toy_events toy_dump toy_print (fun s => s) Some
  (fun _ _ => inr "") toy_protect toy_protect toy_network toy_world default_client toy_identity toy_settings
  "https://manager" toy_context toy_ledger None "scope").

Lemma toy_unprotects x k p : toy_protect x k = Ok p -> toy_protect p k = Ok x.
Proof. by intros [= <-]. Qed.
Lemma toy_rereads text tree :
  toy_events text = inr tree -> exists tree', toy_events (toy_print (dom tree)) = inr tree' /\ dom tree' = dom tree.
Proof.
  unfold toy_events at 1. destruct (list_find _ _) as [[i [k t]]|] eqn:E; [|done]. intros [= ->].
  apply list_find_Some in E as (Hi & _ & _).
  repeat (destruct i as [|i]; [injection Hi as <- <-; vm_compute; by eexists|]). done.
Qed.
Lemma first_start_fresh : fresh first_start.
Proof.
  split_and!; [|done|done]. split; [|vm_compute; discriminate].
  constructor; simpl; try done; try constructor; try done; try apply NoDup_nil_2; constructor.
Qed.

Definition two_cycles : Runtime := toy_live [Cycle; Cycle] first_start.
(** the command was dispatched once, and its result waits in the outbox *)
Example two_cycles_run :
  ((fun d => (command_id (d_command d), d_recovering d)) <$> dispatched two_cycles,
   (fun c => (c_state c, c_result c)) <$> commands (db (inbox two_cycles)),
   length (observations (db (outcomes two_cycles))))
  = ([("cmd-9", false)], [(Outboxed, Some "result")], 1%nat).
Proof. vm_compute. reflexivity. Qed.

Lemma commands_execute_at_most_once_witness :
  dispatched two_cycles <> [] /\
  NoDup ((fun d => command_id (d_command d)) <$> ordinary (dispatched two_cycles)) /\
  forall d, d ∈ dispatched two_cycles -> d_recovering d = true -> action (d_command d) = acquire_file.
Proof.
  split; [vm_compute; discriminate|].
  apply (commands_execute_at_most_once toy_digest (fun _ => true) toy_events toy_dump toy_print (fun s => s) Some
    (fun _ _ => inr "") toy_protect toy_protect toy_network toy_world default_client toy_identity toy_settings
    "https://manager" toy_context toy_ledger None "scope" toy_unprotects toy_rereads [Cycle; Cycle] first_start
    first_start_fresh).
Defined.

(** the command of the poll and its inbox key *)
Definition ordered : Command := {|
  command_id := "cmd-9"; agent_id := "agent-1"; host_id := "host-1"; schema_version := "1";
  correlation_id := "corr-1"; action := acquire_file; expires_at_epoch_seconds := 1709251200;
  process_target := {| pt_host_id := "host-1"; pt_pid := 0; pt_start_time_ticks := 0; pt_boot_id := None |};
  file_target_path := "a.bin"; file_capture_id := "capture-1"; file_maximum_bytes := 4096;
  canonical_wire_json := "order" |}.
Definition ordered_key : string := hex_bytes (repeat 0 32).
Example ordered_decoded : parse_command_json toy_events toy_print "order" = inr ordered.
Proof. vm_compute. reflexivity. Qed.
Lemma toy_digests text d : toy_digest text = inr d -> zlen d = 32.
Proof. by intros [= <-]. Qed.
Lemma interrupted_acquisition_not_resumed_witness :
  action ordered = acquire_file /\ sha256_hex toy_digest "scope:cmd-9" = inr ordered_key /\
  (forall d, d ∈ dispatched two_cycles -> command_id (d_command d) = "cmd-9" -> d_recovering d = false) /\
  (own_key toy_digest "scope" "cmd-9" ordered_key -> forall r',
     resolve_command toy_digest (fun _ => true) toy_events toy_dump (fun s => s) (fun _ _ => inr "") toy_protect
       toy_protect toy_network toy_world default_client toy_identity toy_settings "https://manager" toy_context
       toy_ledger None "scope" ordered_key Executing ordered r'
     = (Returned (Some (interrupted_receipt ordered)), r')).
Proof.
  split; [reflexivity|]. split; [vm_compute; reflexivity|].
  apply (interrupted_acquisition_not_resumed toy_digest (fun _ => true) toy_events toy_dump toy_print (fun s => s) Some
    (fun _ _ => inr "") toy_protect toy_protect toy_network toy_world default_client toy_identity toy_settings
    "https://manager" toy_context toy_ledger None "scope" toy_unprotects toy_rereads toy_digests [Cycle; Cycle]
    first_start ordered ordered_key first_start_fresh).
  vm_compute. discriminate.
Defined.
