(* ===== verification/JournalLegacy.v ===== *)
(** * Opening the journal, the legacy spool and the statistics

    The constructor of [delivery/journal.cpp]: its limits, the counters an older
    database lacks, and [import_legacy], which reads the segment files of the
    spool ([Spool]) into the journal; and [stats].

    The directory listing is a list of [LegacyFile], the bytes each file gave
    before its end or before a read failed.  File names are ASCII, so the order
    of paths is the order of names. *)

From stdpp Require Import sorting.
From S2P Require Import Prelude Crc32 Telemetry Identity Json ProcessGraph Journal.

(** ** Frames of a legacy segment *)
Record LegacyFile := { l_name : string; l_regular : bool; l_data : option bytes; l_bad : bool }.
Definition legacy_frame_max : Z := 8 * 1024 * 1024 + 65537.
(** what the reader finds at an offset; only [Sound] and [Damaged] frames have a
    trustworthy length, so only after them it goes on *)
Inductive frame_kind := BadHeader | Truncated | Damaged | Sound (text : string).
Definition payload_kind (crc : Z) (payload : bytes) : frame_kind :=
  let id_size := le_value (take 2 payload) in
  if negb (journal_crc32 payload =? crc) || (zlen payload <? id_size + 2) then Damaged
  else Sound (to_str (drop (Z.to_nat (2 + id_size)) payload)).
Fixpoint frames_fuel (fuel : nat) (off : Z) (data : bytes) : list (Z * frame_kind) :=
  match fuel, data with
  | S fuel, _ :: _ =>
      let size := le_value (take 4 data) in
      let crc := le_value (take 4 (drop 4 data)) in
      if (zlen data <? 8) || (size <? 2) || (legacy_frame_max <? size) then [(off, BadHeader)]
      else
        let rest := drop 8 data in
        if zlen rest <? size then [(off, Truncated)]
        else (off, payload_kind crc (take (Z.to_nat size) rest))
             :: frames_fuel fuel (off + 8 + size) (drop (Z.to_nat size) rest)
  | _, _ => []
  end.
(** every frame takes at least ten bytes *)
Definition legacy_frames (data : bytes) : list (Z * frame_kind) := frames_fuel (length data) 0 data.

(** the loop over [body.find('\n', begin)] *)
Fixpoint body_lines (s : string) : list string :=
  match s with
  | "" => []
  | String c r =>
      if Ascii.eqb c newline then "" :: body_lines r
      else match body_lines r with
           | [] => [String c ""]
           | l :: ls => String c l :: ls
           end
  end.
(** [line.find_first_not_of(" \t\r") == npos] *)
Definition legacy_blank (s : string) : bool :=
  str_forallb (fun c => is_blank c || Ascii.eqb c carriage_return) s.
Definition ends_with (suffix s : string) : bool :=
  (String.length suffix <=? String.length s)%nat
  && String.eqb (str_drop (String.length s - String.length suffix) s) suffix.
Definition name_le (a b : LegacyFile) : Prop := String.leb (l_name a) (l_name b) = true.
#[global] Instance name_le_dec : RelDecision name_le.
Proof. intros a b. unfold name_le. apply _. Defined.
Definition legacy_paths (listing : list LegacyFile) : list LegacyFile :=
  merge_sort name_le
    (filter (fun f => starts_with "segment-" (l_name f) && ends_with ".dat" (l_name f) = true) listing).
Definition frame_origin (f : LegacyFile) (off : Z) : string := l_name f +:+ ":" +:+ to_string off.

(** ** Counters of an older database *)
(** the counters found in the file; [None] where the row does not exist yet *)
Record StoredCounters := {
  st_acknowledged : option Z; st_retained : option Z; st_pending : option Z; st_dead : option Z;
  st_history_bytes : option Z; st_history_count : option Z; st_graph_count : option Z;
  st_graph_unresolved : option Z
}.
(** [INSERT OR IGNORE INTO counters SELECT ...] *)
Definition initial_counters (c : StoredCounters) (d : JournalDb) : Counters := {|
  n_acknowledged := default 0 (st_acknowledged c);
  n_retained := default (zsum o_bytes (observations d)) (st_retained c);
  n_pending := default (zlen (filter (fun o => o_state o = Pending) (observations d))) (st_pending c);
  n_dead := default (zlen (filter (fun o => o_state o = Dead) (observations d))) (st_dead c);
  n_history_bytes := default (zsum h_bytes (process_history d)) (st_history_bytes c);
  n_history_count := default (zlen (process_history d)) (st_history_count c);
  n_graph_count := default (zlen (process_graph d)) (st_graph_count c);
  n_graph_unresolved := default (zlen (filter (fun g => g_quality g <> 0) (process_graph d))) (st_graph_unresolved c)
|}.

Record JournalStats := {
  pending_events : Z; dead_letter_events : Z; retained_bytes : Z; process_history_records : Z;
  process_history_bytes : Z; process_graph_indexed : Z; process_graph_unresolved : Z; acknowledged_events : Z;
  legacy_gaps : Z; commands_received : Z; commands_executing : Z; command_results_ready : Z; commands_outboxed : Z;
  commands_unknown_state : Z; disk_bytes : Z; caller_available_bytes : Z; stats_physical_limit : Z;
  stats_minimum_free : Z; stats_admission_refusals : Z
}.
(** [SUM(condition)] over [commands]; an empty table gives NULL, read as 0 *)
Definition count_commands (p : cmd_state -> bool) (d : JournalDb) : Z :=
  zsum (fun c => if p (c_state c) then 1 else 0) (commands d).
Definition is_state (st : cmd_state) (c : cmd_state) : bool := bool_decide (c = st).
Definition is_other (c : cmd_state) : bool := match c with OtherState _ => true | _ => false end.

(** [for (...) f(a)] *)
Fixpoint each {A} (f : A -> M unit) (l : list A) : M unit :=
  match l with
  | [] => mret tt
  | a :: l => _ ← f a; each f l
  end.

Section Legacy.
Context (cng_sha256 : string -> string + list Z).
Context (valid_utf8 : string -> bool).
Context (json_parse : string -> option json).
Context (protect : string -> string -> result string).
Context (disk : JournalDb -> DiskReport).
Context (config : JournalConfig).

Definition gap (origin reason : string) : M unit :=
  d ← get_db;
  match gaps d !! origin with
  | Some _ => mret tt
  | None =>
      _ ← admit_growth disk config (slen origin + slen reason);
      d ← get_db;
      put_db (with_imports (imports d) (<[origin := reason]> (gaps d)) d)
  end.
Definition legacy_key (origin : string) (index : Z) (line : string) : result string :=
  digest cng_sha256 ("legacy:" +:+ origin +:+ ":" +:+ to_string index +:+ ":" +:+ line).
Definition import_line (origin : string) (e : nat * string) : M unit :=
  if legacy_blank e.2 then mret tt
  else
    k ← lift (legacy_key origin (Z.of_nat e.1) e.2);
    insert cng_sha256 valid_utf8 json_parse protect disk config e.2 k.
Definition import_body (origin text : string) : M unit :=
  transaction (
    _ ← each (import_line origin) (imap pair (body_lines text));
    _ ← admit_growth disk config (slen origin);
    d ← get_db;
    put_db (with_imports ({[origin]} ∪ imports d) (gaps d) d)).
Definition import_frame (f : LegacyFile) (e : Z * frame_kind) : M unit :=
  let origin := frame_origin f e.1 in
  match e.2 with
  | BadHeader => gap origin "legacy invalid frame header or truncated tail; original retained"
  | Truncated => gap origin "legacy truncated payload; original retained"
  | Damaged => gap origin "legacy checksum or batch-ID framing failure; original retained"
  | Sound text =>
      d ← get_db;
      if bool_decide (origin ∈ imports d) then mret tt else import_body origin text
  end.
Definition import_file (f : LegacyFile) : M unit :=
  _ ← raise_if (negb (l_regular f)) (runtime_error "unsafe legacy spool path");
  data ← lift (of_option (l_data f) (runtime_error "legacy spool could not be read"));
  _ ← each (import_frame f) (legacy_frames data);
  raise_if (l_bad f) (runtime_error "legacy spool read failed; migration incomplete").
Definition import_legacy (listing : list LegacyFile) : M unit := each import_file (legacy_paths listing).

(** the constructor, from the database file: [native] is what securing the
    directory, opening, WAL mode and the integrity check answer *)
Definition open_journal (native : result unit) (schema : Z) (stored : StoredCounters) (listing : list LegacyFile)
  : M unit :=
  _ ← raise_if ((retained_payload_limit config =? 0) || (physical_admission_limit config =? 0)
                || (event_size_limit config =? 0) || (8 * 1024 * 1024 <? event_size_limit config))
        (invalid_argument "invalid journal limits");
  _ ← lift native;
  _ ← raise_if ((schema <? 0) || (6 <? schema)) (runtime_error "unsupported journal schema version");
  d ← get_db;
  _ ← put_db (with_observations (observations d) (initial_counters stored d) d);
  import_legacy listing.

Definition stats : M JournalStats := fun s =>
  let d := db s in
  let c := counters d in
  (_ ← throw_if ((u64 (n_history_count c) <? u64 (n_graph_count c))
                 || (u64 (n_graph_count c) <? u64 (n_graph_unresolved c)))
         (runtime_error "process graph counter accounting inconsistent");
   '(bytes, available) ← storage_sample disk d;
   Ok {| pending_events := u64 (n_pending c); dead_letter_events := u64 (n_dead c);
         retained_bytes := u64 (retained d); process_history_records := u64 (n_history_count c);
         process_history_bytes := u64 (n_history_bytes c); process_graph_indexed := u64 (n_graph_count c);
         process_graph_unresolved := u64 (n_graph_unresolved c); acknowledged_events := u64 (n_acknowledged c);
         legacy_gaps := Z.of_nat (size (gaps d)); commands_received := count_commands (is_state Received) d;
         commands_executing := count_commands (is_state Executing) d;
         command_results_ready := count_commands (is_state ResultReady) d;
         commands_outboxed := count_commands (is_state Outboxed) d;
         commands_unknown_state := count_commands is_other d; disk_bytes := bytes; caller_available_bytes := available;
         stats_physical_limit := physical_admission_limit config; stats_minimum_free := minimum_free_bytes config;
         stats_admission_refusals := storage_admission_refusals s |}, s).
End Legacy.
