(* ===== verification/JournalLegacyFacts.v ===== *)
(** * What the import of a legacy spool does

    The importer reads a segment exactly as the spool's own reader does; a run
    only adds to the journal, marks a frame as imported together with all its
    lines or not at all, accounts for every frame when it succeeds, and changes
    nothing when it is repeated. *)

From stdpp Require Import sorting.
From S2P Require Import Prelude Crc32 Telemetry Identity Json ProcessGraph Spool SpoolFrames Journal JournalFacts JournalSpec JournalRuns JournalLegacy.

(** ** Frames *)
Definition frames_at (off : Z) (data : bytes) : list (Z * frame_kind) := frames_fuel (length data) off data.
(** the length field and the payload, when the frame can be delimited *)
Definition delimited (data : bytes) : bool :=
  let size := le_value (take 4 data) in
  (8 <=? zlen data) && (2 <=? size) && (size <=? legacy_frame_max) && (size <=? zlen (drop 8 data)).
Lemma frames_fuel_enough f g off data : (length data <= f)%nat -> (length data <= g)%nat ->
  frames_fuel f off data = frames_fuel g off data.
Proof.
  revert g off data; induction f as [|f IH]; intros [|g] off [|c data] Hf Hg; try done; try (simpl in *; lia).
  cbn [frames_fuel]. destruct (_ || _); [done|]. destruct (zlen (drop 8 _) <? _); [done|]. f_equal.
  apply IH; rewrite !length_drop; simpl in *; lia.
Qed.
Lemma frames_unfold off data : frames_at off data =
  match data with
  | [] => []
  | _ =>
      let size := le_value (take 4 data) in
      if delimited data then
        (off, payload_kind (le_value (take 4 (drop 4 data))) (take (Z.to_nat size) (drop 8 data)))
        :: frames_at (off + 8 + size) (drop (8 + Z.to_nat size) data)
      else if (zlen data <? 8) || (size <? 2) || (legacy_frame_max <? size) then [(off, BadHeader)]
      else [(off, Truncated)]
  end.
Proof.
  unfold frames_at. destruct data as [|c data]; [done|]. cbn [length frames_fuel]. set (l := c :: data).
  unfold delimited. cbv zeta. set (size := le_value (take 4 l)).
  destruct ((zlen l <? 8) || (size <? 2) || (legacy_frame_max <? size)) eqn:E.
  { destruct (_ && _) eqn:E2; [|done]. lia. }
  destruct (Z.ltb_spec (zlen (drop 8 l)) size) as [Hc|Hc].
  { destruct (_ && _) eqn:E2; [lia|done]. }
  replace (_ && _) with true by lia. f_equal. rewrite drop_drop. apply frames_fuel_enough; [|lia].
  rewrite length_drop. simpl. lia.
Qed.
Lemma frame_at_delimited data : frame_at legacy_frame_max data 0 =
  if delimited data then Some (le_value (take 4 (drop 4 data)), take (Z.to_nat (le_value (take 4 data))) (drop 8 data))
  else None.
Proof.
  unfold frame_at, delimited. change (Z.to_nat 0) with 0%nat. rewrite drop_0. cbv zeta. set (size := le_value (take 4 data)).
  rewrite !length_take, length_drop. unfold zlen. rewrite length_take, !length_drop.
  destruct (Nat.eqb_spec (4 `min` length data) 4); cbn [negb]; [|by replace (8 <=? _) with false by lia].
  destruct (Z.leb_spec 2 size); [|by rewrite andb_false_r].
  destruct (Z.leb_spec size legacy_frame_max); [|cbn [andb negb]; by rewrite !andb_false_r]. cbn [andb negb].
  destruct (Nat.eqb_spec (4 `min` (length data - 4)) 4); cbn [negb]; [|by replace (8 <=? _) with false by lia].
  replace (8 <=? _) with true by lia. cbn [andb].
  destruct (Z.eqb_spec (Z.of_nat (Z.to_nat size `min` (length data - 8))) size) as [E|E]; cbn [negb].
  - destruct (Z.leb_spec size (Z.of_nat (length data - 8))); [done|lia].
  - destruct (Z.leb_spec size (Z.of_nat (length data - 8))); [lia|done].
Qed.
Lemma payload_kind_decode crc p : (2 <= length p)%nat -> 0 <= le_value (take 2 p) ->
  payload_kind crc p = match decode_payload crc p with Some r => Sound (Spool.body r) | None => Damaged end.
Proof.
  intros Hp Hid. unfold payload_kind, decode_payload. rewrite <- crc32_table_bitwise.
  destruct (negb _); [done|]. cbn [orb]. destruct (Z.ltb_spec (zlen p) 2); [unfold zlen in *; lia|].
  destruct (_ <? _); [done|]. cbn. by rewrite Z2Nat.inj_add by lia.
Qed.
Lemma le_value_nonneg l : 0 <= le_value l.
Proof. induction l as [|c l IH]; cbn [le_value]; [done|]. pose proof (code_range c). lia. Qed.

Definition sound_texts (l : list (Z * frame_kind)) : list string :=
  omap (fun e => match e.2 with Sound t => Some t | _ => None end) l.
Lemma sound_texts_cons e l : sound_texts (e :: l) =
  match e.2 with Sound t => t :: sound_texts l | _ => sound_texts l end.
Proof. by destruct e as [o []]. Qed.
Definition unreadable (k : frame_kind) : bool := match k with BadHeader | Truncated => true | _ => false end.
(** one frame of the importer and of the spool's reader *)
Lemma frames_scan off data :
  sound_texts (frames_at off data) = Spool.body <$> (scan legacy_frame_max data).1 /\
  ((exists e, e ∈ frames_at off data /\ unreadable e.2 = true) <-> (scan legacy_frame_max data).2 <> []).
Proof.
  revert off. induction data as [data E|data crc p E IH] using (scan_ind legacy_frame_max); intros off;
    rewrite frames_unfold, scan_unfold, E; rewrite frame_at_delimited in E.
  - destruct data as [|c data]; cbn [fst snd fmap list_fmap].
    { split; [done|]. split; [intros (e & He & _); by apply not_elem_of_nil in He|done]. }
    destruct (delimited (c :: data)); [done|]. cbv zeta. split; [by destruct (_ || _)|]. split; [done|]. intros _.
    destruct (_ || _); eexists; (split; [by left|done]).
  - pose proof (frame_at_delimited data) as Hf. destruct (delimited data) eqn:Ed; [|done]. injection E as Hc Hp.
    rewrite Hc, Hp in Hf. destruct (frame_at_Some _ _ _ _ Hf) as (Hp2 & Hl & _ & _ & Hsz & _).
    destruct data as [|c data]; [simpl in Hl; lia|]. set (l := c :: data) in *. cbv zeta. rewrite Hc, Hp, Hsz.
    replace (Z.to_nat (zlen p)) with (length p) by (unfold zlen; lia).
    destruct (IH (off + 8 + zlen p)) as [IH1 IH2]. rewrite payload_kind_decode by (done || apply le_value_nonneg).
    destruct (scan legacy_frame_max (drop (8 + length p) l)) as [rs rest]. cbn [fst snd] in *.
    split; [rewrite sound_texts_cons; destruct (decode_payload crc p); cbn [fst snd fmap list_fmap]; by rewrite IH1|].
    rewrite <- IH2. split.
    + intros (e & He & Hu). apply elem_of_cons in He as [->|He]; [by destruct (decode_payload crc p)|]. by exists e.
    + intros (e & He & Hu). exists e. split; [by right|done].
Qed.
Lemma frames_offsets off data : Forall (fun e => off <= e.1) (frames_at off data) /\ NoDup (frames_at off data).*1.
Proof.
  revert off. induction data as [data E|data crc p E IH] using (scan_ind legacy_frame_max); intros off;
    rewrite frames_unfold; pose proof (frame_at_delimited data) as Hf; rewrite E in Hf.
  - destruct data as [|c data]; [split; constructor|]. destruct (delimited (c :: data)); [done|].
    cbv zeta. destruct (_ || _); (split; [repeat constructor; simpl; lia|simpl; apply NoDup_singleton]).
  - destruct (delimited data); [|done]. injection Hf as _ Hp.
    destruct (frame_at_Some _ _ _ _ E) as (Hp2 & Hl & _ & _ & Hsz & _).
    destruct data as [|c data]; [simpl in Hl; lia|]. set (l := c :: data) in *. cbv zeta. rewrite Hsz.
    replace (Z.to_nat (zlen p)) with (length p) by (unfold zlen; lia). destruct (IH (off + 8 + zlen p)) as [F N].
    assert (0 <= zlen p) by (unfold zlen; lia). split; cbn [fmap list_fmap fst].
    + constructor; [simpl; lia|]. eapply Forall_impl; [exact F|]. simpl. intros e He. lia.
    + constructor; [|exact N]. intros Hin. apply list_elem_of_fmap in Hin as (e & He & Hin).
      rewrite Forall_forall in F. apply F in Hin. lia.
Qed.
Lemma frame_unique data off k k' : (off, k) ∈ legacy_frames data -> (off, k') ∈ legacy_frames data -> k = k'.
Proof.
  destruct (frames_offsets 0 data) as [_ N]. change (frames_at 0 data) with (legacy_frames data) in N. intros H1 H2.
  revert N. induction (legacy_frames data) as [|[o x] l IH]; [by apply not_elem_of_nil in H1|]. cbn [fmap list_fmap].
  intros N. apply NoDup_cons in N as [Hn N]. apply elem_of_cons in H1 as [[= -> ->]|H1], H2 as [H2|H2].
  - by injection H2.
  - destruct Hn. apply list_elem_of_fmap. by exists (o, k').
  - injection H2 as -> ->. destruct Hn. apply list_elem_of_fmap. by exists (o, k).
  - by apply IH.
Qed.
(** origins name one frame of one file *)
Lemma colon_split a b m n : str_contains ":" m = false -> str_contains ":" n = false ->
  a +:+ ":" +:+ m = b +:+ ":" +:+ n -> a = b /\ m = n.
Proof.
  intros Hm Hn. revert b. induction a as [|c a IH]; intros [|d b]; cbn [String.append].
  - by intros [= ->].
  - intros [= <- ->]. exfalso. revert Hm. clear. induction b as [|x b IH]; [done|]. cbn. intros [_ H]%orb_false_iff. by apply IH.
  - intros [= -> <-]. exfalso. revert Hn. clear. induction a as [|x a IH]; [done|]. cbn. intros [_ H]%orb_false_iff. by apply IH.
  - intros [= -> H]. apply IH in H as [-> ->]. done.
Qed.
Lemma digits_no_colon s : str_forallb is_digit s = true -> str_contains ":" s = false.
Proof.
  induction s as [|c s IH]; [done|]. cbn [str_forallb str_contains]. intros [Hc Hs]%andb_true_iff.
  rewrite IH, orb_false_r by done. destruct (Ascii.eqb_spec ":" c) as [<-|]; [discriminate Hc|done].
Qed.
Lemma frame_origin_inj f g a b : 0 <= a -> 0 <= b -> frame_origin f a = frame_origin g b ->
  l_name f = l_name g /\ a = b.
Proof.
  intros Ha Hb H. unfold frame_origin in H. rewrite !to_string_nonneg in H by done.
  apply colon_split in H as [H1 H2]; [|by apply digits_no_colon, udec_digits..]. split; [done|]. by apply udec_inj.
Qed.

(** ** Loops over the journal *)
Section Each.
Context (R : JournalDb -> JournalDb -> Prop) `{!PreOrder R}.
Definition moves {A} (m : M A) : Prop := forall s, R (db s) (db (m s).2).
Lemma moves_readonly {A} (m : M A) : readonly m -> moves m.
Proof. intros H s. by rewrite (H s). Qed.
Lemma moves_bind {A B} (m : M A) (f : A -> M B) : moves m -> (forall a, moves (f a)) -> moves (m ≫= f).
Proof.
  intros Hm Hf s. unfold mbind, M_bind. specialize (Hm s). destruct (m s) as [[a|e] s1]; [|done].
  etransitivity; [exact Hm|]. apply Hf.
Qed.
Lemma moves_each {A} (f : A -> M unit) l : (forall a, a ∈ l -> moves (f a)) -> moves (each f l).
Proof.
  induction l as [|a l IH]; intros H; [by apply moves_readonly, readonly_ret|].
  apply moves_bind; [apply H; by left|]. intros _. apply IH. intros b Hb. apply H. by right.
Qed.
Lemma moves_transaction {A} (m : M A) : (forall s a s', m s = (Ok a, s') -> R (db s) (db s')) -> moves (transaction m).
Proof. intros H s. unfold transaction. destruct (m s) as [[a|e] s1] eqn:E; [by eapply H|done]. Qed.
(** a property of each element that later steps keep *)
Lemma each_all {A} (f : A -> M unit) (P : A -> JournalDb -> Prop) l s u s' :
  (forall a d d', R d d' -> P a d -> P a d') ->
  (forall a s u s', a ∈ l -> f a s = (Ok u, s') -> R (db s) (db s') /\ P a (db s')) ->
  each f l s = (Ok u, s') -> R (db s) (db s') /\ forall a, a ∈ l -> P a (db s').
Proof.
  intros Hmono. revert s. induction l as [|a l IH]; intros s Hf H.
  { apply mret_Ok in H as [_ ->]. split; [done|]. intros a Ha. by apply not_elem_of_nil in Ha. }
  apply M_bind_Ok in H as ([] & s1 & H1 & H2). destruct (Hf a s tt s1) as [R1 P1]; [by left|done|].
  destruct (IH s1) as [R2 P2]; [intros b ? ? ? Hb; apply Hf; by right|done|].
  split; [by transitivity (db s1)|]. intros b Hb. apply elem_of_cons in Hb as [->|Hb]; [by eapply Hmono|auto].
Qed.
End Each.

(** ** What an import adds *)
Section Importing.
Context (cng_sha256 : string -> string + list Z).
Context (valid_utf8 : string -> bool).
Context (json_parse : string -> option json).
Context (protect : string -> string -> result string).
Context (disk : JournalDb -> DiskReport).
Context (config : JournalConfig).
Abbreviation insert := (Journal.insert cng_sha256 valid_utf8 json_parse protect disk config).
Abbreviation legacy_key := (JournalLegacy.legacy_key cng_sha256).
Abbreviation import_frame := (JournalLegacy.import_frame cng_sha256 valid_utf8 json_parse protect disk config).
Abbreviation import_file := (JournalLegacy.import_file cng_sha256 valid_utf8 json_parse protect disk config).
Abbreviation import_legacy := (JournalLegacy.import_legacy cng_sha256 valid_utf8 json_parse protect disk config).

(** the frame of a listed file that [origin] names *)
Definition sound_frame (paths : list LegacyFile) (origin text : string) : Prop :=
  exists f data off, f ∈ paths /\ l_data f = Some data /\ (off, Sound text) ∈ legacy_frames data /\
    origin = frame_origin f off.
Definition is_line (text : string) (i : nat) (line : string) : Prop :=
  body_lines text !! i = Some line /\ legacy_blank line = false.
(** the pending observation of one line of a sound frame *)
Definition legacy_row (paths : list LegacyFile) (o : Observation) : Prop :=
  exists origin text i line, sound_frame paths origin text /\ is_line text i line /\
    legacy_key origin (Z.of_nat i) line = Ok (o_key o) /\ protect line (o_key o) = Ok (o_payload o) /\
    o_state o = Pending.
Definition lines_retained (origin text : string) (d : JournalDb) : Prop :=
  forall i line, is_line text i line -> exists k, legacy_key origin (Z.of_nat i) line = Ok k /\ has_observation k d = true.

Record adds (paths : list LegacyFile) (d d' : JournalDb) : Prop := {
  a_obs : observations d `prefix_of` observations d';
  a_rows : forall o, o ∈ observations d' -> o ∈ observations d \/ legacy_row paths o;
  a_history : process_history d `prefix_of` process_history d';
  a_rest : commands d' = commands d /\ checkpoints d' = checkpoints d /\ identifiers d' = identifiers d;
  a_imports : imports d ⊆ imports d';
  a_marks : forall origin, origin ∈ imports d' -> origin ∈ imports d \/
    exists text, sound_frame paths origin text /\ lines_retained origin text d';
  a_gaps : gaps d ⊆ gaps d';
  a_ok : journal_ok config d -> journal_ok config d'
}.
Lemma has_observation_prefix k d d' : observations d `prefix_of` observations d' ->
  has_observation k d = true -> has_observation k d' = true.
Proof. intros [l Hl] H. unfold has_observation in *. by rewrite Hl, existsb_app, H. Qed.
Lemma lines_retained_mono origin text d d' : observations d `prefix_of` observations d' ->
  lines_retained origin text d -> lines_retained origin text d'.
Proof. intros Hp H i line Hl. destruct (H i line Hl) as (k & Hk & Hh). exists k. eauto using has_observation_prefix. Qed.
#[local] Instance adds_preorder paths : PreOrder (adds paths).
Proof.
  split.
  - intros d. constructor; auto.
  - intros a b c [A1 A2 A3 (A4 & A5 & A6) A7 A8 A9 A10] [B1 B2 B3 (B4 & B5 & B6) B7 B8 B9 B10].
    constructor; [by transitivity (observations b)| |by transitivity (process_history b)| |by transitivity (imports b)
      | |by transitivity (gaps b)|auto].
    + intros o Ho. apply B2 in Ho as [Ho|Ho]; auto.
    + split_and!; congruence.
    + intros o Ho. apply B8 in Ho as [Ho|Ho]; [|by right]. apply A8 in Ho as [Ho|(t & Ht & Hl)]; [by left|].
      right. exists t. split; [done|]. by eapply lines_retained_mono.
Qed.

(** what the archive keeps of the other tables *)
Lemma archived_rest line k p d d1 : archived json_parse config line k p d d1 ->
  observations d1 = observations d /\ process_history d `prefix_of` process_history d1 /\
  commands d1 = commands d /\ checkpoints d1 = checkpoints d /\ identifiers d1 = identifiers d /\
  imports d1 = imports d /\ gaps d1 = gaps d.
Proof.
  intros [[-> _]|(row & _ & _ & _ & -> & _)]; [done|]. unfold insert_graph.
  destruct (existsb _ _); simpl; (split_and!; [done|by eexists|done..]).
Qed.
Lemma insert_adds paths line k s u s' : insert line k s = (Ok u, s') ->
  (forall o, o_key o = k -> protect line k = Ok (o_payload o) -> o_state o = Pending -> legacy_row paths o) ->
  adds paths (db s) (db s') /\ has_observation k (db s') = true.
Proof.
  intros H Hrow. pose proof (insert_ok _ _ _ _ _ _ _ _ _ _ _ H) as Hok.
  apply insert_run in H as [(-> & Hh & _)|(p & d1 & Hp & Ha & H)]; [done|].
  apply archived_rest in Ha as (E1 & E2 & E3 & E4 & E5 & E6 & E7).
  assert (Hcase : has_observation k (db s) = true /\ db s' = d1 \/
    db s' = insert_observation k p (slen line) (line_protocol (json_parse line)) d1).
  { destruct (has_observation k (db s)); [by left|right; apply H]. }
  destruct Hcase as [[Hh E]|E]; rewrite E in *.
  - split; [|unfold has_observation in *; by rewrite E1]. constructor; rewrite ?E1, ?E6, ?E7; auto.
  - split; [constructor; simpl; rewrite ?E1, ?E6, ?E7; auto; [by eexists|]|].
    + intros o Ho. apply elem_of_app in Ho as [Ho|Ho%list_elem_of_singleton]; [by left|right]. subst o. by apply Hrow.
    + unfold has_observation. simpl. rewrite existsb_app. simpl. by rewrite String.eqb_refl, orb_true_r.
Qed.
Lemma with_imports_ok i g d : journal_ok config d -> journal_ok config (with_imports i g d).
Proof. intros [H1 H2]. split; [by destruct H1; constructor|exact H2]. Qed.
Lemma admit_db n s : db (admit_growth disk config n s).2 = db s.
Proof. unfold admit_growth. by destruct (admission _ _ _ _). Qed.
Lemma gap_run paths origin reason s r s' : gap disk config origin reason s = (r, s') ->
  adds paths (db s) (db s') /\ (r = Ok tt -> is_Some (gaps (db s') !! origin)).
Proof.
  unfold gap, mbind, M_bind, get_db. destruct (gaps (db s) !! origin) as [x|] eqn:E.
  { intros [= <- <-]. split; [done|]. intros _. by rewrite E. }
  pose proof (admit_db (slen origin + slen reason) s) as Hdb.
  destruct (admit_growth _ _ _ _) as [[a|e] s1]; cbn [snd] in Hdb.
  - intros [= <- <-]. cbn. rewrite Hdb. split; [|intros _; rewrite lookup_insert_eq; by eexists].
    constructor; simpl; auto using with_imports_ok. by apply insert_subseteq.
  - intros [= <- <-]. rewrite Hdb. split; [done|]. done.
Qed.
Lemma import_line_run paths origin text e s u s' : sound_frame paths origin text -> body_lines text !! e.1 = Some e.2 ->
  import_line cng_sha256 valid_utf8 json_parse protect disk config origin e s = (Ok u, s') ->
  adds paths (db s) (db s') /\
  (legacy_blank e.2 = false -> exists k, legacy_key origin (Z.of_nat e.1) e.2 = Ok k /\ has_observation k (db s') = true).
Proof.
  intros Hf Hl. unfold import_line. destruct (legacy_blank e.2) eqn:Eb.
  { intros H. apply mret_Ok in H as [_ ->]. done. }
  intros H. apply M_bind_Ok in H as (k & s1 & Hk & H). apply lift_Ok in Hk as [Hk ->].
  apply (insert_adds paths) in H as [Ha Hh]; [split; [done|]; intros _; by exists k|].
  intros o Ho Hp Hs. exists origin, text, e.1, e.2. rewrite Ho. by split_and!.
Qed.
Lemma import_body_run paths origin text s u s' : sound_frame paths origin text ->
  import_body cng_sha256 valid_utf8 json_parse protect disk config origin text s = (Ok u, s') ->
  adds paths (db s) (db s') /\ origin ∈ imports (db s') /\ lines_retained origin text (db s').
Proof.
  intros Hf H. apply transaction_Ok in H. apply M_bind_Ok in H as ([] & s1 & Hlines & H).
  apply (each_all (adds paths) _ (fun e d => legacy_blank e.2 = false ->
    exists k, legacy_key origin (Z.of_nat e.1) e.2 = Ok k /\ has_observation k d = true)) in Hlines as [Ha Hl].
  2:{ intros e d d' Hadd Hp Hb. destruct (Hp Hb) as (k & Hk & Hh). exists k. split; [done|].
      eapply has_observation_prefix; [apply Hadd|done]. }
  2:{ intros e s0 u0 s0' He. apply elem_of_lookup_imap in He as (i & x & -> & Hx). by apply (import_line_run paths origin text (i, x)). }
  assert (Hret : lines_retained origin text (db s1)).
  { intros i line [Hi Hb]. apply (Hl (i, line)); [|done]. apply elem_of_lookup_imap. by exists i, line. }
  inv_run H. rewrite H. split_and!; [|simpl; set_solver|exact Hret].
  transitivity (db s1); [exact Ha|]. constructor; simpl; auto using with_imports_ok; [set_solver|].
  intros o Ho. apply elem_of_union in Ho as [->%elem_of_singleton|Ho]; [|by left]. right. by exists text.
Qed.
(** the outcome of one frame *)
Definition accounted (f : LegacyFile) (e : Z * frame_kind) (d : JournalDb) : Prop :=
  match e.2 with
  | Sound _ => frame_origin f e.1 ∈ imports d
  | _ => is_Some (gaps d !! frame_origin f e.1)
  end.
Lemma accounted_mono paths f e d d' : adds paths d d' -> accounted f e d -> accounted f e d'.
Proof.
  intros [_ _ _ _ Hi _ Hg _]. unfold accounted. destruct e.2; try (intros [x Hx]; eapply lookup_weaken in Hx; [|done]; by eexists).
  set_solver.
Qed.
Lemma import_frame_run paths f data e s r s' : f ∈ paths -> l_data f = Some data -> e ∈ legacy_frames data ->
  import_frame f e s = (r, s') -> adds paths (db s) (db s') /\ (r = Ok tt -> accounted f e (db s')).
Proof.
  intros Hf Hd He. unfold JournalLegacy.import_frame, accounted. destruct e as [off k]; cbn [fst snd].
  destruct k as [| | |text]; try apply gap_run. unfold mbind, M_bind, get_db.
  destruct (bool_decide_reflect (frame_origin f off ∈ imports (db s))) as [Hin|Hin]; [by intros [= <- <-]|].
  intros H. assert (Hs : sound_frame paths (frame_origin f off) text) by by exists f, data, off.
  destruct r as [[]|ex].
  - by apply (import_body_run paths) in H as (Ha & Hi & _).
  - apply transaction_Throw in H. by rewrite H.
Qed.
Lemma import_file_run paths f s r s' : f ∈ paths -> import_file f s = (r, s') ->
  adds paths (db s) (db s') /\ (r = Ok tt -> l_regular f = true /\ l_bad f = false /\
    exists data, l_data f = Some data /\ forall e, e ∈ legacy_frames data -> accounted f e (db s')).
Proof.
  intros Hf. unfold JournalLegacy.import_file, raise_if, lift, mbind, M_bind.
  destruct (l_regular f); [|by intros [= <- <-]]. destruct (l_data f) as [data|] eqn:Ed; [|by intros [= <- <-]].
  cbn [negb throw_if of_option]. destruct (each _ _ s) as [r1 s1] eqn:E.
  assert (Ha : adds paths (db s) (db s1)).
  { change s1 with ((r1, s1).2). rewrite <- E. apply (moves_each (adds paths)). intros e He s0.
    destruct (import_frame f e s0) as [r0 s0'] eqn:E0. by apply (import_frame_run paths f data e) in E0 as [E0 _]. }
  assert (Hacc : r1 = Ok tt -> forall e, e ∈ legacy_frames data -> accounted f e (db s1)).
  { intros ->. apply (each_all (adds paths) _ (accounted f)) in E as [_ E]; [done|apply accounted_mono|].
    intros e s0 u s0' He H. destruct u. apply (import_frame_run paths f data e) in H as [H1 H2]; auto. }
  destruct r1 as [[]|e]; [|by intros [= <- <-]]. intros [= <- <-]. split; [done|].
  destruct (l_bad f); [done|]. intros _. split_and!; try done. exists data. auto.
Qed.
Lemma import_legacy_run listing s r s' : import_legacy listing s = (r, s') ->
  adds (legacy_paths listing) (db s) (db s') /\
  (r = Ok tt -> forall f, f ∈ legacy_paths listing -> l_regular f = true /\ l_bad f = false /\
     exists data, l_data f = Some data /\ forall e, e ∈ legacy_frames data -> accounted f e (db s')).
Proof.
  unfold JournalLegacy.import_legacy. set (paths := legacy_paths listing). intros H. split.
  - change s' with ((r, s').2). rewrite <- H. apply (moves_each (adds paths)). intros f Hf s0.
    destruct (import_file f s0) as [r0 s0'] eqn:E0. by apply (import_file_run paths) in E0 as [E0 _].
  - intros ->. apply (each_all (adds paths) _ (fun f d => l_regular f = true /\ l_bad f = false /\
      exists data, l_data f = Some data /\ forall e, e ∈ legacy_frames data -> accounted f e d)) in H as [_ H]; [done| |].
    + intros f d d' Ha (H1 & H2 & data & H3 & H4). split_and!; try done. exists data. split; [done|].
      intros e He. eapply accounted_mono; [exact Ha|auto].
    + intros f s0 [] s0' Hf E. apply (import_file_run paths) in E as [E1 E2]; auto.
Qed.
(** a frame that is accounted for is passed over *)
Lemma import_frame_again f e s : accounted f e (db s) -> import_frame f e s = (Ok tt, s).
Proof.
  unfold accounted, JournalLegacy.import_frame. destruct e as [off k]; cbn [fst snd].
  destruct k; try (intros [x Hx]; unfold gap, mbind, M_bind, get_db; by rewrite Hx).
  intros H. unfold mbind, M_bind, get_db. by rewrite bool_decide_eq_true_2.
Qed.
Lemma each_again {A} (f : A -> M unit) l s : (forall a, a ∈ l -> f a s = (Ok tt, s)) -> each f l s = (Ok tt, s).
Proof.
  induction l as [|a l IH]; intros H; [done|]. cbn [each]. unfold mbind, M_bind. rewrite (H a) by by left.
  apply IH. intros b Hb. apply H. by right.
Qed.
Lemma sound_frame_unique paths f data off text text' : NoDup (l_name <$> paths) -> f ∈ paths -> l_data f = Some data ->
  (off, Sound text) ∈ legacy_frames data -> sound_frame paths (frame_origin f off) text' -> text' = text.
Proof.
  intros Hn Hf Hd Ht (g & data' & off' & Hg & Hd' & Ht' & Ho).
  assert (Hpos : forall x o k, (o, k) ∈ legacy_frames x -> 0 <= o).
  { intros x o k H. destruct (frames_offsets 0 x) as [F _]. rewrite Forall_forall in F. exact (F _ H). }
  apply frame_origin_inj in Ho as [Hname ->]; [|by eapply Hpos..].
  assert (g = f) as ->.
  { clear -Hn Hf Hg Hname. induction paths as [|x l IH]; [by apply not_elem_of_nil in Hf|].
    cbn [fmap list_fmap] in Hn. apply NoDup_cons in Hn as [Hx Hn].
    apply elem_of_cons in Hf as [->|Hf], Hg as [->|Hg]; [done| | |auto]; destruct Hx; [rewrite Hname|rewrite <- Hname];
      by apply list_elem_of_fmap_2. }
  rewrite Hd in Hd'. injection Hd' as <-. pose proof (frame_unique _ _ _ _ Ht Ht') as E. by injection E.
Qed.
Lemma paths_names listing : NoDup (l_name <$> listing) -> NoDup (l_name <$> legacy_paths listing).
Proof.
  intros H. unfold legacy_paths. erewrite merge_sort_Permutation. eapply sublist_NoDup; [exact H|].
  apply fmap_sublist, sublist_filter.
Qed.

(** Importing a legacy spool neither loses nor invents evidence.  Whatever
    the outcome, the journal only grows: what it held stays, in order, with its
    commands, checkpoints and identifiers; each new observation is the protected
    text of one line of a sound frame, pending, under the key of that place; a
    frame is marked as imported only together with all its lines, and the
    accounting invariant is kept.  When the import succeeds, every frame of
    every segment file is marked with all its lines, or recorded as a gap. *)
Theorem legacy_import_exact (listing : list LegacyFile) (s : JState) :
  let '(r, s') := import_legacy listing s in
  adds (legacy_paths listing) (db s) (db s') /\
  (r = Ok tt -> NoDup (l_name <$> listing) ->
   forall f data off k, f ∈ legacy_paths listing -> l_data f = Some data -> (off, k) ∈ legacy_frames data ->
     accounted f (off, k) (db s') /\
     forall text, k = Sound text -> frame_origin f off ∉ imports (db s) ->
       lines_retained (frame_origin f off) text (db s')).
Proof.
  destruct (import_legacy listing s) as [r s'] eqn:E. apply import_legacy_run in E as [Ha Hok]. split; [done|].
  intros Hr Hn f data off k Hf Hd He. destruct (Hok Hr f Hf) as (_ & _ & data' & Hd' & Hacc).
  rewrite Hd in Hd'. injection Hd' as <-. specialize (Hacc _ He). split; [done|]. intros text -> Hnew.
  destruct (a_marks _ _ _ Ha _ Hacc) as [Hin|(text' & Hs & Hl)]; [done|].
  by apply (sound_frame_unique _ f data off text text') in Hs as ->; [|by apply paths_names|..].
Qed.

(** A completed import is final: running it again on the same files, as
    every start of the agent does, changes nothing at all, not even the count of
    refused admissions. *)
Theorem legacy_import_idempotent (listing : list LegacyFile) (s s' : JState) :
  import_legacy listing s = (Ok tt, s') -> import_legacy listing s' = (Ok tt, s').
Proof.
  intros E. apply import_legacy_run in E as [_ Hok]. specialize (Hok eq_refl).
  apply each_again. intros f Hf. destruct (Hok f Hf) as (H1 & H2 & data & H3 & H4).
  unfold JournalLegacy.import_file, raise_if, lift, mbind, M_bind. rewrite H1, H2, H3. cbn [negb throw_if of_option].
  rewrite each_again; [done|]. intros e He. by apply import_frame_again, H4.
Qed.

(** *** Opening *)
(** the counters the tables call for *)
Definition counted (acknowledged : Z) (d : JournalDb) : Counters := {|
  n_acknowledged := acknowledged; n_retained := zsum o_bytes (observations d);
  n_pending := zlen (filter (fun o => o_state o = Pending) (observations d));
  n_dead := zlen (filter (fun o => o_state o = Dead) (observations d));
  n_history_bytes := zsum h_bytes (process_history d); n_history_count := zlen (process_history d);
  n_graph_count := zlen (process_graph d);
  n_graph_unresolved := zlen (filter (fun g => g_quality g <> 0) (process_graph d)) |}.
Definition recounted (acknowledged : Z) (d : JournalDb) : JournalDb :=
  with_observations (observations d) (counted acknowledged d) d.
(** every counter the file has is right *)
Definition stored_right (c : StoredCounters) (d : JournalDb) : Prop :=
  let o := counted 0 d in
  default (n_retained o) (st_retained c) = n_retained o /\ default (n_pending o) (st_pending c) = n_pending o /\
  default (n_dead o) (st_dead c) = n_dead o /\ default (n_history_bytes o) (st_history_bytes c) = n_history_bytes o /\
  default (n_history_count o) (st_history_count c) = n_history_count o /\
  default (n_graph_count o) (st_graph_count c) = n_graph_count o /\
  default (n_graph_unresolved o) (st_graph_unresolved c) = n_graph_unresolved o.
Lemma initial_right c d : stored_right c d ->
  with_observations (observations d) (initial_counters c d) d = recounted (default 0 (st_acknowledged c)) d.
Proof.
  intros (H1 & H2 & H3 & H4 & H5 & H6 & H7). unfold recounted, initial_counters. f_equal. unfold counted in *. simpl in *.
  by rewrite H1, H2, H3, H4, H5, H6, H7.
Qed.
(** Opening a database whose counters are right or missing gives a journal
    whose counters are right, with the legacy spool added. *)
Theorem open_journal_accounts native schema stored listing s s' :
  open_journal cng_sha256 valid_utf8 json_parse protect disk config native schema stored listing s = (Ok tt, s') ->
  stored_right stored (db s) ->
  let d := recounted (default 0 (st_acknowledged stored)) (db s) in
  adds (legacy_paths listing) d (db s') /\ (journal_ok config d -> journal_ok config (db s')).
Proof.
  intros H Hc d. unfold open_journal in H. inv_step H. apply M_bind_Ok in H as (u & s1 & Hn & H). inv_step Hn.
  inv_step H. apply M_bind_Ok in H as (d0 & s1 & Hd & H). inv_step Hd. apply M_bind_Ok in H as ([] & s1 & Hp & H).
  inv_step Hp. rewrite initial_right in Hp by done. apply import_legacy_run in H as [Hadd _]. rewrite Hp in Hadd.
  split; [exact Hadd|apply Hadd].
Qed.

(** *** Statistics *)
Lemma graph_rows_bounded d : tables_ok d ->
  zlen (process_graph d) <= zlen (process_history d) /\
  zlen (filter (fun g => g_quality g <> 0) (process_graph d)) <= zlen (process_graph d).
Proof.
  intros H. destruct (ok_graph_seqs _ H) as [Hn Hs]. split.
  - apply (NoDup_submseteq _ _ Hn) in Hs. apply submseteq_length in Hs. rewrite !length_fmap in Hs. unfold zlen. lia.
  - unfold zlen. pose proof (length_filter (fun g => g_quality g <> 0) (process_graph d)). lia.
Qed.
(** The statistics are the truth about the tables: on a journal whose
    invariant holds they never report an accounting mismatch, and the counts of
    pending, dead, archived and indexed rows and of the commands in each state
    are the numbers of such rows. *)
Theorem stats_exact (s : JState) (bytes available : Z) :
  tables_ok (db s) -> zlen (process_history (db s)) <= u64_max -> zlen (observations (db s)) <= u64_max ->
  storage_sample disk (db s) = Ok (bytes, available) ->
  exists st, stats disk config s = (Ok st, s) /\
    pending_events st = zlen (filter (fun o => o_state o = Pending) (observations (db s))) /\
    dead_letter_events st = zlen (filter (fun o => o_state o = Dead) (observations (db s))) /\
    pending_events st + dead_letter_events st = zlen (observations (db s)) /\
    process_history_records st = zlen (process_history (db s)) /\
    process_graph_indexed st = zlen (process_graph (db s)) /\
    commands_received st + commands_executing st + command_results_ready st + commands_outboxed st
      + commands_unknown_state st = zlen (commands (db s)) /\
    legacy_gaps st = Z.of_nat (size (gaps (db s))) /\ (disk_bytes st, caller_available_bytes st) = (bytes, available).
Proof.
  intros Ht Hh Ho Hd. destruct (graph_rows_bounded _ Ht) as [Hg Hq].
  pose proof (ok_nhistory _ Ht) as [_ E1]. pose proof (ok_ngraph _ Ht) as [E2 E3].
  pose proof (ok_npending _ Ht) as E4. pose proof (ok_ndead _ Ht) as E5.
  assert (Hs : zlen (filter (fun o => o_state o = Pending) (observations (db s)))
    + zlen (filter (fun o => o_state o = Dead) (observations (db s))) = zlen (observations (db s))).
  { clear. induction (observations (db s)) as [|o l IH]; [done|]. rewrite !filter_cons. unfold zlen in *.
    destruct (o_state o); repeat case_decide; try done; simpl; lia. }
  assert (Hn : forall A (l : list A), 0 <= zlen l) by (intros; unfold zlen; lia).
  assert (Hc : count_commands (is_state Received) (db s) + count_commands (is_state Executing) (db s)
    + count_commands (is_state ResultReady) (db s) + count_commands (is_state Outboxed) (db s)
    + count_commands is_other (db s) = zlen (commands (db s))).
  { clear. unfold count_commands, is_state. induction (commands (db s)) as [|c l IH]; [done|]. unfold zlen in *. rewrite !zsum_cons. simpl.
    destruct (c_state c); cbn [is_other]; repeat case_bool_decide; try done; lia. }
  unfold stats. rewrite E1, E2, E3, E4, E5, Hd. 
  pose proof (Hn _ (process_history (db s))). pose proof (Hn _ (process_graph (db s))).
  pose proof (Hn _ (filter (fun g => g_quality g <> 0) (process_graph (db s)))).
  pose proof (Hn _ (filter (fun o => o_state o = Pending) (observations (db s)))).
  pose proof (Hn _ (filter (fun o => o_state o = Dead) (observations (db s)))).
  rewrite (u64_small (zlen (process_history _))), (u64_small (zlen (process_graph _))), !(u64_small (zlen (filter _ _))) by lia.
  rewrite !(proj2 (Z.ltb_ge _ _)) by lia. cbn [orb throw_if mbind result_bind].
  eexists. split; [done|]. cbn. by split_and!.
Qed.
End Importing.

(** The importer reads a segment exactly as the spool that wrote it: on any
    bytes, its sound frames are the records of the spool's reader, in order, and
    it records an undelimited tail exactly when that reader leaves bytes
    behind. *)
Theorem legacy_reads_like_spool (data : bytes) :
  sound_texts (legacy_frames data) = Spool.body <$> (scan legacy_frame_max data).1 /\
  ((exists e, e ∈ legacy_frames data /\ unreadable e.2 = true) <-> (scan legacy_frame_max data).2 <> []).
Proof. apply (frames_scan 0). Qed.

(** ** A concrete import: a record of two lines and a blank one, and a torn tail *)
Definition line_break : string := String newline "".
Definition legacy_record : SpoolRecord :=
  {| Spool.batch_id := "b1"; Spool.body := "x" +:+ line_break +:+ line_break +:+ "y" +:+ line_break |}.
Definition legacy_file : LegacyFile := {|
  l_name := "segment-000001.dat"; l_regular := true; l_bad := false;
  l_data := Some (encode_frame legacy_record ++ of_str "torn") |}.
Definition legacy_listing : list LegacyFile :=
  [{| l_name := "spool.cursor"; l_regular := true; l_bad := false; l_data := Some [] |}; legacy_file].
Abbreviation toy_import := (import_legacy toy_sha toy_utf8 no_parse toy_cipher toy_disk toy_config legacy_listing).
Definition migrated : JState := (toy_import start).2.
Example legacy_sample :
  (toy_import start).1 = Ok tt /\ (o_payload <$> observations (db migrated)) = ["x"; "y"] /\
  legacy_frames (default [] (l_data legacy_file)) = [(0, Sound (Spool.body legacy_record)); (17, BadHeader)] /\
  "segment-000001.dat:0" ∈ imports (db migrated) /\ is_Some (gaps (db migrated) !! "segment-000001.dat:17").
Proof. split_and!; vm_compute; [reflexivity..|]. by eexists. Qed.
Lemma legacy_import_exact_witness :
  lines_retained toy_sha "segment-000001.dat:0" (Spool.body legacy_record) (db migrated).
Proof.
  pose proof (legacy_import_exact toy_sha toy_utf8 no_parse toy_cipher toy_disk toy_config legacy_listing start) as H.
  unfold migrated. assert (E : (toy_import start).1 = Ok tt) by (vm_compute; reflexivity).
  destruct (toy_import start) as [r s']. cbn [fst snd] in *. destruct H as [_ H].
  destruct (H E ltac:(apply (bool_decide_unpack _); vm_compute; exact I) legacy_file
    (encode_frame legacy_record ++ of_str "torn") 0 (Sound (Spool.body legacy_record))) as [_ H'].
  - vm_compute. by left.
  - reflexivity.
  - vm_compute. by left.
  - apply H'; [reflexivity|]. apply (bool_decide_unpack _). vm_compute. exact I.
Defined.
Lemma legacy_import_idempotent_witness : toy_import migrated = (Ok tt, migrated).
Proof.
  apply (legacy_import_idempotent toy_sha toy_utf8 no_parse toy_cipher toy_disk toy_config legacy_listing start migrated).
  vm_compute. reflexivity.
Defined.
Lemma stats_exact_witness : exists st, stats toy_disk toy_config migrated = (Ok st, migrated) /\ pending_events st = 2 /\
  legacy_gaps st = 1.
Proof.
  destruct (stats_exact toy_disk toy_config migrated 4096 1000000000) as (st & E & H1 & _ & _ & _ & _ & _ & H2 & _).
  - destruct (toy_import start) as [r s'] eqn:E'. unfold migrated. rewrite E'. apply import_legacy_run in E' as [E' _].
    exact (proj1 (a_ok _ _ _ _ _ _ E' start_ok)).
  - vm_compute. discriminate.
  - vm_compute. discriminate.
  - vm_compute. reflexivity.
  - exists st. split; [exact E|]. rewrite H1, H2. vm_compute. by split.
Defined.
