(* ===== verification/Ancestry.v ===== *)
(** * The ancestry query of the journal

    [DurableJournal::process_ancestry] of [delivery/journal.cpp]: a bounded walk
    from a process to its reported parents over the archived lifecycle records
    and their index, and the marking of cycles among the edges it returns.  It
    reads one snapshot of the database and writes nothing.  [dump] is the JSON
    printer, whose output sizes the walk charges. *)

From S2P Require Import Prelude Crc32 Telemetry Identity Json ProcessGraph Journal.

Record Edge := { e_child : string; e_parent : string; e_record : string; e_cycle : bool }.
Definition edge_members (e : Edge) : list (string * json) :=
  [("child_entity_id", JStr (e_child e)); ("parent_entity_id", JStr (e_parent e)); ("record_id", JStr (e_record e));
   ("basis", JStr "exact decoded source GUID plus observed parent PID");
   ("relationship", JStr "source_reported_parent"); ("creator_verified", JBool false);
   ("cycle_detected", JBool (e_cycle e))].
(** an edge as it is charged, and as it is returned *)
Definition edge_json (e : Edge) : json := object (edge_members e).
Definition returned_edge_json (e : Edge) : json :=
  object (edge_members e ++ [("cycle_detection_scope", JStr "returned edge set only")]).

Record Evidence := { v_seq : Z; v_fact : ProcessGraphFact }.
Definition evidence_json (v : Evidence) : json :=
  object [("archive_sequence", JStr (to_string (v_seq v))); ("record_id", JStr (record_id (v_fact v)));
          ("operation", JStr (if stop (v_fact v) then "stop" else "start")); ("identity", fact_identity (v_fact v));
          ("reported_parent_identity", parent_identity (v_fact v))].
Record Node := {
  n_entity : string; n_evidence : list Evidence; n_birth : bool; n_stop : bool; n_complete : bool;
  n_parents : gset string
}.
Definition node_json (n : Node) : json :=
  object [("entity_id", JStr (n_entity n)); ("evidence", JArr (evidence_json <$> n_evidence n));
          ("birth_observed", JBool (n_birth n)); ("stop_observed", JBool (n_stop n)); ("liveness", JNull);
          ("parent_claims_conflict", JBool (1 <? Z.of_nat (size (n_parents n))));
          ("retained_evidence_read_complete", JBool (n_complete n))].
Record PendingNode := { p_entity : string; p_path : list string }.
(** the locals of the walk *)
Record Walk := {
  w_pending : list PendingNode; w_queued : gset string; w_visited : gset string; w_evidence : Z; w_consumed : Z;
  w_truncated : bool; w_nodes : list Node; w_edges : list Edge
}.
Record Ancestry := {
  a_root : string; a_nodes : list Node; a_edges : list Edge; a_truncated : bool; a_backlog : Z; a_evidence : Z;
  a_complete : bool
}.
Definition ancestry_json (a : Ancestry) : json :=
  object [("format", JStr "process_ancestry_v1"); ("state", JStr "degraded"); ("root_entity_id", JStr (a_root a));
          ("nodes", JArr (node_json <$> a_nodes a)); ("edges", JArr (returned_edge_json <$> a_edges a));
          ("truncated", JBool (a_truncated a)); ("index_backlog", JStr (to_string (a_backlog a)));
          ("source_coverage_complete", JBool false); ("creator_relationship_verified", JBool false);
          ("alias_promotion_performed", JBool false);
          ("snapshot_consistency", JStr "one SQLite read transaction over retained originals and index");
          ("scope", JStr "exact rederived identity only; observed parent reports may be spoofed; missing evidence never proves absence or liveness");
          ("evidence_records_read", JStr (to_string (a_evidence a)));
          ("retained_evidence_traversal_complete", JBool (a_complete a))].
(** the document before the walk, whose size is charged first *)
Definition initial_json (root : string) (backlog : Z) : json :=
  object [("format", JStr "process_ancestry_v1"); ("state", JStr "degraded"); ("root_entity_id", JStr root);
          ("nodes", JArr []); ("edges", JArr []); ("truncated", JBool false);
          ("index_backlog", JStr (to_string backlog));
          ("source_coverage_complete", JBool false); ("creator_relationship_verified", JBool false);
          ("alias_promotion_performed", JBool false);
          ("snapshot_consistency", JStr "one SQLite read transaction over retained originals and index");
          ("scope", JStr "exact rederived identity only; observed parent reports may be spoofed; missing evidence never proves absence or liveness")].

(** ** Steps of the walk *)
Definition truncate (w : Walk) : Walk := {|
  w_pending := w_pending w; w_queued := w_queued w; w_visited := w_visited w; w_evidence := w_evidence w;
  w_consumed := w_consumed w; w_truncated := true; w_nodes := w_nodes w; w_edges := w_edges w |}.
Definition visit (e : string) (w : Walk) : Walk := {|
  w_pending := w_pending w; w_queued := w_queued w; w_visited := {[e]} ∪ w_visited w; w_evidence := w_evidence w;
  w_consumed := w_consumed w; w_truncated := w_truncated w; w_nodes := w_nodes w; w_edges := w_edges w |}.
Definition charge_evidence (charge : Z) (w : Walk) : Walk := {|
  w_pending := w_pending w; w_queued := w_queued w; w_visited := w_visited w; w_evidence := w_evidence w + 1;
  w_consumed := u64 (w_consumed w + charge); w_truncated := w_truncated w; w_nodes := w_nodes w;
  w_edges := w_edges w |}.
Definition push_edge (e : Edge) (w : Walk) : Walk := {|
  w_pending := w_pending w; w_queued := w_queued w; w_visited := w_visited w; w_evidence := w_evidence w;
  w_consumed := w_consumed w; w_truncated := w_truncated w; w_nodes := w_nodes w; w_edges := w_edges w ++ [e] |}.
Definition push_node (n : Node) (bytes : Z) (w : Walk) : Walk := {|
  w_pending := w_pending w; w_queued := w_queued w; w_visited := w_visited w; w_evidence := w_evidence w;
  w_consumed := u64 (w_consumed w + bytes); w_truncated := w_truncated w; w_nodes := w_nodes w ++ [n];
  w_edges := w_edges w |}.
Definition enqueue (e : string) (path : list string) (w : Walk) : Walk := {|
  w_pending := w_pending w ++ [{| p_entity := e; p_path := path ++ [e] |}]; w_queued := {[e]} ∪ w_queued w;
  w_visited := w_visited w; w_evidence := w_evidence w; w_consumed := w_consumed w; w_truncated := w_truncated w;
  w_nodes := w_nodes w; w_edges := w_edges w |}.
Definition new_node (e : string) : Node := {|
  n_entity := e; n_evidence := []; n_birth := false; n_stop := false; n_complete := true; n_parents := ∅ |}.
Definition incomplete (n : Node) : Node := {|
  n_entity := n_entity n; n_evidence := n_evidence n; n_birth := n_birth n; n_stop := n_stop n; n_complete := false;
  n_parents := n_parents n |}.
Definition add_evidence (v : Evidence) (parents : gset string) (n : Node) : Node := {|
  n_entity := n_entity n; n_evidence := n_evidence n ++ [v]; n_birth := n_birth n || negb (stop (v_fact v));
  n_stop := n_stop n || stop (v_fact v); n_complete := n_complete n; n_parents := parents |}.
Definition start_walk (root : string) (consumed : Z) : Walk := {|
  w_pending := [{| p_entity := root; p_path := [root] |}]; w_queued := {[root]}; w_visited := ∅; w_evidence := 0;
  w_consumed := consumed; w_truncated := false; w_nodes := []; w_edges := [] |}.

(** ** Cycles among the returned edges *)
(** the parents reported for a child, in the order of the edges *)
Definition parents_of (edges : list Edge) (child : string) : list string :=
  e_parent <$> filter (fun e => e_child e = child) edges.
(** the rest of [search] from the index on; [None] when the fuel runs out *)
Fixpoint search (fuel : nat) (edges : list Edge) (child : string) (queue : list string) (examined : gset string)
  : option bool :=
  match fuel with
  | O => None
  | S fuel =>
      match queue with
      | [] => Some false
      | x :: queue =>
          if String.eqb x child then Some true
          else if bool_decide (x ∈ examined) then search fuel edges child queue examined
          else search fuel edges child (queue ++ parents_of edges x) ({[x]} ∪ examined)
      end
  end.
Definition search_fuel (edges : list Edge) : nat := length edges + 2.
Definition find_cycle (edges : list Edge) (e : Edge) : option bool :=
  search (search_fuel edges) edges (e_child e) [e_parent e] ∅.
Definition mark_cycle (edges : list Edge) (e : Edge) : result Edge :=
  b ← of_option (find_cycle edges e) (logic_error "fuel");
  Ok {| e_child := e_child e; e_parent := e_parent e; e_record := e_record e; e_cycle := b |}.

Section Ancestry.
Context (cng_sha256 : string -> string + list Z).
Context (valid_utf8 : string -> bool).
Context (json_parse : string -> option json).
Context (dump : json -> result string).
Context (unprotect : string -> string -> result string).
Context (max_nodes max_depth max_evidence max_bytes : Z).

(** the rows of the query for one entity, before its LIMIT *)
Definition entity_rows (d : JournalDb) (entity_digest : string) : list (HistoryRow * string) :=
  omap (fun h => (fun g => (h, g_parent g)) <$>
                   List.find (fun g => (g_seq g =? h_seq h) && String.eqb (g_entity g) entity_digest) (process_graph d))
    (process_history d).
(** does the row name this entity, and the index its parent? *)
Definition row_mismatch (current : string) (h : HistoryRow) (parent_digest : string) (fact : ProcessGraphFact)
  : result bool :=
  if (h_seq h <=? 0) || negb (interpretable fact) || negb (bool_decide (fact_entity_id fact = Some current)) then Ok true
  else
    expected ← match parent_entity_id fact with Some p => digest cng_sha256 p | None => Ok "" end;
    Ok (negb (String.eqb parent_digest expected)).
Definition row_edge (current : PendingNode) (fact : ProcessGraphFact) : option Edge :=
  p ← parent_entity_id fact;
  Some {| e_child := p_entity current; e_parent := p; e_record := record_id fact;
          e_cycle := bool_decide (p ∈ p_path current) |}.
Definition edge_bytes (e : option Edge) : result Z :=
  match e with Some e => t ← dump (edge_json e); Ok (slen t) | None => Ok 0 end.
(** follow an edge that was pushed *)
Definition follow (current : PendingNode) (e : Edge) (w : Walk) : Walk :=
  if e_cycle e then w
  else if bool_decide (e_parent e ∈ w_queued w) then w
  else if (zlen (p_path current) <? max_depth) && (zlen (w_pending w) <? max_nodes)
  then enqueue (e_parent e) (p_path current) w
  else truncate w.
Definition room (w : Walk) : Z := u64 (max_bytes - w_consumed w).
Fixpoint read_rows (current : PendingNode) (rows : list (HistoryRow * string)) (n : Node) (w : Walk)
  : result (Node * Walk) :=
  match rows with
  | [] => Ok (n, w)
  | (h, parent_digest) :: rows =>
      if max_evidence <=? w_evidence w then Ok (incomplete n, truncate w)
      else
        b ← unprotect (h_payload h) (h_key h);
        document ← of_option (json_parse b) (json_exception "parse error");
        fact ← process_graph_fact cng_sha256 valid_utf8 document;
        mismatch ← row_mismatch (p_entity current) h parent_digest fact;
        _ ← throw_if mismatch (runtime_error "process graph index does not match immutable evidence");
        let evidence := {| v_seq := h_seq h; v_fact := fact |} in
        let edge := row_edge current fact in
        evidence_text ← dump (evidence_json evidence);
        edge_size ← edge_bytes edge;
        let charge := slen b + slen evidence_text + edge_size + 2 in
        if room w <? charge then Ok (incomplete n, truncate w)
        else
          parents ← (if is_null (parent_identity fact) then Ok (n_parents n)
                     else t ← dump (parent_identity fact); Ok ({[t]} ∪ n_parents n));
          let w := charge_evidence charge w in
          let w := match edge with Some e => follow current e (push_edge e w) | None => w end in
          read_rows current rows (add_evidence evidence parents n) w
  end.
(** [for (cursor = 0; cursor < pending.size(); ++cursor)] *)
Fixpoint walk (fuel : nat) (d : JournalDb) (cursor : nat) (w : Walk) : result Walk :=
  match fuel with
  | O => Throw (logic_error "fuel")
  | S fuel =>
      match w_pending w !! cursor with
      | None => Ok w
      | Some current =>
          if bool_decide (p_entity current ∈ w_visited w) then walk fuel d (S cursor) w
          else if max_nodes <=? Z.of_nat (size (w_visited w)) then Ok (truncate w)
          else
            let w := visit (p_entity current) w in
            entity_digest ← digest cng_sha256 (p_entity current);
            let limit := Z.to_nat (max_evidence - w_evidence w + 1) in
            '(n, w) ← read_rows current (take limit (entity_rows d entity_digest)) (new_node (p_entity current)) w;
            t ← dump (node_json n);
            if room w <? slen t then Ok (truncate w)
            else
              let w := push_node n (slen t) w in
              if max_evidence <=? w_evidence w then Ok w else walk fuel d (S cursor) w
      end
  end.
(** the queue never holds more than [max_nodes] entries *)
Definition walk_fuel : nat := S (Z.to_nat max_nodes).
Definition ancestry_bounds (entity : string) : bool :=
  (slen entity =? 69) && starts_with "proc_" entity && str_forallb is_lower_hex (str_drop 5 entity)
  && (0 <? max_nodes) && (max_nodes <=? 256) && (0 <? max_depth) && (max_depth <=? 64)
  && (0 <? max_evidence) && (max_evidence <=? 1000) && (4096 <=? max_bytes) && (max_bytes <=? 8 * 1024 * 1024).
Definition process_ancestry (entity : string) (d : JournalDb) : result Ancestry :=
  _ ← throw_if (negb (ancestry_bounds entity)) (invalid_argument "invalid process ancestry identity or bounds");
  let backlog := n_history_count (counters d) - n_graph_count (counters d) in
  _ ← throw_if (backlog <? 0) (runtime_error "process graph index accounting mismatch");
  initial ← dump (initial_json entity backlog);
  w ← walk walk_fuel d 0 (start_walk entity (slen initial));
  let truncated := w_truncated w || (Z.of_nat (size (w_visited w)) <? zlen (w_pending w)) in
  edges ← mapM (mark_cycle (w_edges w)) (w_edges w);
  let a := {| a_root := entity; a_nodes := w_nodes w; a_edges := edges; a_truncated := truncated; a_backlog := backlog;
              a_evidence := w_evidence w; a_complete := negb truncated && (backlog =? 0) |} in
  text ← dump (ancestry_json a);
  _ ← throw_if (max_bytes <? slen text) (runtime_error "process ancestry output exceeds byte ceiling");
  Ok a.
End Ancestry.
