(* ===== verification/AncestryFacts.v ===== *)
(** * What the ancestry query returns

    Its cycle marks are exact for the edges it returns, everything it shows is
    backed by retained records, and when it says that its traversal is complete,
    no retained record of the processes it names is missing and no reported
    parent is left out. *)

From stdpp Require Import relations.
From S2P Require Import Prelude Crc32 Telemetry Identity Json ProcessGraph Journal JournalFacts JournalRuns Ancestry.

(** ** Cycles *)
(** a returned edge from a child to its parent *)
Definition reports (edges : list Edge) (x y : string) : Prop := exists e, e ∈ edges /\ e_child e = x /\ e_parent e = y.
Lemma parents_of_elem edges x y : y ∈ parents_of edges x <-> reports edges x y.
Proof.
  unfold parents_of, reports. rewrite list_elem_of_fmap. split.
  - intros (e & -> & [Hx He]%list_elem_of_filter). eauto.
  - intros (e & He & Hx & <-). exists e. split; [done|]. by apply list_elem_of_filter.
Qed.
Section Search.
Context (edges : list Edge) (child start : string).
(** edges that may still be appended *)
Definition unexamined (ex : gset string) : nat := length (filter (fun e => e_child e ∉ ex) edges).
Lemma unexamined_step x ex : x ∉ ex -> (unexamined ({[x]} ∪ ex) + length (parents_of edges x) = unexamined ex)%nat.
Proof.
  intros Hx. unfold unexamined, parents_of. rewrite length_fmap. induction edges as [|e l IH]; [done|].
  rewrite !filter_cons. repeat case_decide; simpl; try lia; set_solver.
Qed.
Lemma search_ends fuel queue ex : (length queue + unexamined ex < fuel)%nat ->
  exists b, search fuel edges child queue ex = Some b.
Proof.
  revert queue ex. induction fuel as [|fuel IH]; intros queue ex Hf; [lia|]. cbn [search].
  destruct queue as [|x queue]; [by eexists|]. destruct (String.eqb x child); [by eexists|]. simpl in Hf.
  destruct (bool_decide_reflect (x ∈ ex)) as [Hin|Hin]; [apply IH; lia|]. apply IH. rewrite length_app.
  pose proof (unexamined_step x ex Hin). lia.
Qed.
Lemma search_exact fuel queue ex b : search fuel edges child queue ex = Some b ->
  (forall x, x ∈ queue -> rtc (reports edges) start x) -> start ∈ ex \/ start ∈ queue ->
  (forall x y, x ∈ ex -> reports edges x y -> y ∈ ex \/ y ∈ queue) -> child ∉ ex ->
  b = true <-> rtc (reports edges) start child.
Proof.
  revert queue ex. induction fuel as [|fuel IH]; intros queue ex H Hr Hs Hc Hn; [done|]. cbn [search] in H.
  destruct queue as [|x queue].
  { injection H as <-. split; [done|]. intros Hp. exfalso. apply Hn. destruct Hs as [Hs|Hs]; [|by apply not_elem_of_nil in Hs].
    clear Hr Hn IH. revert Hs. generalize start Hp. clear Hp. induction 1 as [|a y c Hay _ IHp]; [done|]. intros Ha.
    apply IHp. destruct (Hc a y Ha Hay) as [|H]; [done|by apply not_elem_of_nil in H]. }
  destruct (String.eqb_spec x child) as [->|Hx].
  { injection H as <-. split; [|done]. intros _. apply Hr. by left. }
  destruct (bool_decide_reflect (x ∈ ex)) as [Hin|Hin].
  - apply (IH queue ex); try done; [set_solver|set_solver|].
    intros a y Ha Hy. destruct (Hc a y Ha Hy) as [|[->|]%elem_of_cons]; auto.
  - apply (IH (queue ++ parents_of edges x) ({[x]} ∪ ex)); [done| |set_solver| |set_solver].
    + intros y [Hy|Hy]%elem_of_app; [apply Hr; by right|]. apply parents_of_elem in Hy.
      eapply rtc_r; [apply Hr; by left|done].
    + intros a y [->%elem_of_singleton|Ha]%elem_of_union Hy; [right; apply elem_of_app; right; by apply parents_of_elem|].
      destruct (Hc a y Ha Hy) as [|[->|]%elem_of_cons]; set_solver.
Qed.
End Search.
Lemma find_cycle_exact edges e : exists b, find_cycle edges e = Some b /\
  (b = true <-> rtc (reports edges) (e_parent e) (e_child e)).
Proof.
  unfold find_cycle. destruct (search_ends edges (e_child e) (search_fuel edges) [e_parent e] ∅) as [b Hb].
  { unfold search_fuel, unexamined. cbn [length]. eapply Nat.le_lt_trans; [apply Nat.add_le_mono_l, length_filter|lia]. }
  exists b. split; [done|]. eapply search_exact; [exact Hb|..]; set_solver.
Qed.
Lemma mark_cycles edges l : exists marked, mapM (mark_cycle edges) l = Ok marked /\
  Forall2 (fun e m => e_child m = e_child e /\ e_parent m = e_parent e /\ e_record m = e_record e /\
    (e_cycle m = true <-> rtc (reports edges) (e_parent e) (e_child e))) l marked.
Proof.
  induction l as [|e l (marked & E & IH)]; [by exists []|]. destruct (find_cycle_exact edges e) as (b & Hb & Hx).
  assert (Hm : mark_cycle edges e = Ok {| e_child := e_child e; e_parent := e_parent e; e_record := e_record e; e_cycle := b |})
    by (unfold mark_cycle; by rewrite Hb).
  eexists. cbn [mapM]. rewrite Hm. cbn [mbind result_bind]. rewrite E. split; [reflexivity|]. by constructor.
Qed.
Lemma reports_marked (P : Edge -> Edge -> Prop) l marked :
  Forall2 (fun e m => e_child m = e_child e /\ e_parent m = e_parent e /\ P e m) l marked ->
  forall x y, reports marked x y <-> reports l x y.
Proof.
  intros F x y. split.
  - intros (m & Hm & <- & <-). apply list_elem_of_lookup in Hm as (i & Hi).
    destruct (Forall2_lookup_r _ _ _ _ _ F Hi) as (e & He & -> & -> & _). exists e. split; [|done].
    apply list_elem_of_lookup. by exists i.
  - intros (e & He & <- & <-). apply list_elem_of_lookup in He as (i & Hi).
    destruct (Forall2_lookup_l _ _ _ _ _ F Hi) as (m & Hm & E1 & E2 & _). exists m. split; [|done].
    apply list_elem_of_lookup. by exists i.
Qed.

(** ** The walk *)
Section Walk.
Context (cng_sha256 : string -> string + list Z).
Context (valid_utf8 : string -> bool).
Context (json_parse : string -> option json).
Context (dump : json -> result string).
Context (unprotect : string -> string -> result string).
Context (max_nodes max_depth max_evidence max_bytes : Z).
Context (root : string) (d : JournalDb).
Abbreviation read_rows := (Ancestry.read_rows cng_sha256 valid_utf8 json_parse dump unprotect max_nodes max_depth
  max_evidence max_bytes).
Abbreviation walk := (Ancestry.walk cng_sha256 valid_utf8 json_parse dump unprotect max_nodes max_depth max_evidence
  max_bytes).

Abbreviation entities w := (p_entity <$> w_pending w).
(** the queue: bounded, without repetition, with its paths inside it *)
Record queue_ok (w : Walk) : Prop := {
  q_len : zlen (w_pending w) <= max_nodes;
  q_nodup : NoDup (entities w);
  q_queued : forall x, x ∈ w_queued w <-> x ∈ entities w;
  q_paths : forall p x, p ∈ w_pending w -> x ∈ p_path p -> x ∈ entities w
}.
(** a retained record that says so *)
Definition archived_fact (entity : string) (v : Evidence) : Prop :=
  exists h b document, h ∈ process_history d /\ h_seq h = v_seq v /\ unprotect (h_payload h) (h_key h) = Ok b /\
    json_parse b = Some document /\ process_graph_fact cng_sha256 valid_utf8 document = Ok (v_fact v) /\
    fact_entity_id (v_fact v) = Some entity.
Definition edge_backed (e : Edge) : Prop :=
  exists v, archived_fact (e_child e) v /\ parent_entity_id (v_fact v) = Some (e_parent e) /\
    record_id (v_fact v) = e_record e.
Definition has_edge (edges : list Edge) (entity : string) (v : Evidence) : Prop :=
  forall p, parent_entity_id (v_fact v) = Some p -> reports edges entity p.
Record edges_ok (w : Walk) : Prop := {
  g_backed : Forall edge_backed (w_edges w);
  g_child : forall e, e ∈ w_edges w -> e_child e ∈ w_visited w;
  g_parent : forall e, e ∈ w_edges w -> w_truncated w = true \/ e_parent e ∈ entities w
}.
(** one node under construction, after the rows [pre] *)
Record reading (entity : string) (pre : list (HistoryRow * string)) (n : Node) (w : Walk) : Prop := {
  r_entity : n_entity n = entity;
  r_backed : Forall (archived_fact entity) (n_evidence n);
  r_all : w_truncated w = true \/ v_seq <$> n_evidence n = (h_seq ∘ fst) <$> pre;
  r_edges : Forall (has_edge (w_edges w) entity) (n_evidence n)
}.
Definition same_walk (w w' : Walk) : Prop :=
  w_visited w' = w_visited w /\ w_nodes w' = w_nodes w /\ w_pending w `prefix_of` w_pending w' /\
  w_edges w `prefix_of` w_edges w' /\ (w_truncated w = true -> w_truncated w' = true).
#[local] Instance same_walk_preorder : PreOrder same_walk.
Proof.
  split; [by intros w|]. intros a b c (A1 & A2 & A3 & A4 & A5) (B1 & B2 & B3 & B4 & B5).
  split_and!; [congruence|congruence|by transitivity (w_pending b)|by transitivity (w_edges b)|auto].
Qed.
Lemma has_edge_mono edges edges' x v : edges `prefix_of` edges' -> has_edge edges x v -> has_edge edges' x v.
Proof. intros [l ->] H p Hp. destruct (H p Hp) as (e & He & ?). exists e. split; [apply elem_of_app; by left|done]. Qed.
Lemma truncate_queue w : queue_ok w -> queue_ok (truncate w).
Proof. by intros []; constructor. Qed.
Lemma truncate_edges w : edges_ok w -> edges_ok (truncate w).
Proof. intros []; constructor; simpl; auto. Qed.
Lemma follow_ok current e w : queue_ok w -> current ∈ w_pending w -> edges_ok w -> edge_backed e ->
  e_child e ∈ w_visited w -> (e_cycle e = true -> e_parent e ∈ p_path current) ->
  let w' := follow max_nodes max_depth current e (push_edge e w) in
  queue_ok w' /\ edges_ok w' /\ same_walk (push_edge e w) w' /\ w_edges w' = w_edges w ++ [e] /\
  w_evidence w' = w_evidence w.
Proof.
  intros [Q1 Q2 Q3 Q4] Hc [G1 G2 G3] Hb Hv Hcy. unfold follow.
  assert (Hpush : forall w', w_edges w' = w_edges w ++ [e] -> w_visited w' = w_visited w ->
    (forall x, x ∈ entities w -> x ∈ entities w') -> (w_truncated w = true -> w_truncated w' = true) ->
    w_truncated w' = true \/ e_parent e ∈ entities w' -> edges_ok w').
  { intros w' E1 E2 E3 E4 E5. constructor; rewrite ?E1, ?E2.
    - apply Forall_app. split; [done|by constructor].
    - intros x [Hx| ->%list_elem_of_singleton]%elem_of_app; auto.
    - intros x [Hx| ->%list_elem_of_singleton]%elem_of_app; [|done]. destruct (G3 x Hx); auto. }
  destruct (e_cycle e) eqn:Ec.
  { split_and!; [by constructor|apply Hpush; auto; right; eauto|done|done|done]. }
  destruct (bool_decide_reflect (e_parent e ∈ w_queued (push_edge e w))) as [Hq|Hq].
  { split_and!; [by constructor|apply Hpush; auto; right; by apply Q3|done|done|done]. }
  destruct (_ && _) eqn:E.
  - apply andb_true_iff in E as [_ E%Z.ltb_lt]. simpl in Hq, E.
    assert (Hn : e_parent e ∉ entities w) by by rewrite <- Q3.
    split_and!; [|apply Hpush; simpl; auto; [|right]; rewrite fmap_app; set_solver| |done|done].
    + constructor; simpl; rewrite ?fmap_app.
      * unfold zlen in *. rewrite length_app. simpl. lia.
      * apply NoDup_app. split_and!; [done|set_solver|apply NoDup_singleton].
      * intros x. rewrite elem_of_union, elem_of_app, Q3. set_solver.
      * intros p x [Hp| ->%list_elem_of_singleton]%elem_of_app Hx; [set_solver|]. simpl in Hx. set_solver.
    + split_and!; try done. simpl. by eexists.
  - split_and!; [by constructor|apply Hpush; auto| |done|done]. by split_and!.
Qed.

Lemma charge_ok c w : queue_ok w -> edges_ok w -> queue_ok (charge_evidence c w) /\ edges_ok (charge_evidence c w).
Proof. intros [] []. split; by constructor. Qed.
Lemma reading_truncate entity pre n w : reading entity pre n w -> forall pre', reading entity pre' (incomplete n) (truncate w).
Proof. intros [] pre'. constructor; simpl; auto. Qed.
(** one row that was read *)
Lemma row_followed current fact h c w :
  queue_ok w -> edges_ok w -> current ∈ w_pending w -> p_entity current ∈ w_visited w ->
  archived_fact (p_entity current) {| v_seq := h; v_fact := fact |} ->
  let w' := match row_edge current fact with
            | Some e => follow max_nodes max_depth current e (push_edge e (charge_evidence c w))
            | None => charge_evidence c w
            end in
  queue_ok w' /\ edges_ok w' /\ same_walk w w' /\ w_evidence w' = w_evidence w + 1 /\
  has_edge (w_edges w') (p_entity current) {| v_seq := h; v_fact := fact |}.
Proof.
  intros Q G Hc Hv Hf. destruct (charge_ok c w Q G) as [Q' G']. unfold row_edge.
  destruct (parent_entity_id fact) as [p|] eqn:Ep; cbn [mbind option_bind].
  - set (e := {| e_child := _ |}).
    destruct (follow_ok current e (charge_evidence c w) Q' Hc G') as (A & B & S & E & V).
    { eexists. split; [exact Hf|]. by split. }
    { done. }
    { intros H. simpl in H. by apply bool_decide_eq_true in H. }
    split_and!; try done; [by transitivity (push_edge e (charge_evidence c w)); [split_and!; try done; by eexists|]|].
    intros p' Hp'. simpl in Hp'. rewrite Ep in Hp'. injection Hp' as <-. exists e. rewrite E. split; [|done].
    apply elem_of_app. right. by apply list_elem_of_singleton.
  - split_and!; try done. intros p' Hp'. simpl in Hp'. congruence.
Qed.
Lemma read_rows_ok current rows pre n w n' w' : read_rows current rows n w = Ok (n', w') ->
  queue_ok w -> edges_ok w -> current ∈ w_pending w -> p_entity current ∈ w_visited w ->
  Forall (fun r => r.1 ∈ process_history d) rows -> w_evidence w <= max_evidence ->
  reading (p_entity current) pre n w ->
  queue_ok w' /\ edges_ok w' /\ same_walk w w' /\ reading (p_entity current) (pre ++ rows) n' w' /\
  w_evidence w' <= max_evidence /\ w_evidence w' - w_evidence w = zlen (n_evidence n') - zlen (n_evidence n).
Proof.
  revert pre n w. induction rows as [|[h pd] rows IH]; intros pre n w H Q G Hc Hv Hrows Hev R; cbn [Ancestry.read_rows] in H.
  { injection H as <- <-. rewrite app_nil_r. split_and!; done || lia. }
  assert (Hcut : forall x y, Ok (incomplete n, truncate w) = Ok (x, y) ->
    queue_ok y /\ edges_ok y /\ same_walk w y /\ reading (p_entity current) (pre ++ (h, pd) :: rows) x y /\
    w_evidence y <= max_evidence /\ w_evidence y - w_evidence w = zlen (n_evidence x) - zlen (n_evidence n)).
  { intros x y [= <- <-]. split_and!; eauto using truncate_queue, truncate_edges, reading_truncate; simpl; try done; lia. }
  destruct (Z.leb_spec max_evidence (w_evidence w)); [by apply Hcut|].
  apply bind_Ok in H as (b & Hb & H). apply bind_Ok in H as (doc & Hdoc & H). apply bind_Ok in H as (fact & Hfact & H).
  apply bind_Ok in H as (mm & Hmm & H). apply bind_Ok in H as (u & Hu & H). apply throw_if_Ok in Hu. subst mm.
  apply bind_Ok in H as (et & _ & H). apply bind_Ok in H as (es & _ & H).
  destruct (_ <? _); [by apply Hcut|]. apply bind_Ok in H as (ps & _ & H). clear Hcut.
  apply Forall_cons in Hrows as [Hh Hrows]. simpl in Hh.
  assert (Hfa : archived_fact (p_entity current) {| v_seq := h_seq h; v_fact := fact |}).
  { unfold row_mismatch in Hmm. destruct (_ || _) eqn:E; [done|]. apply orb_false_iff in E as [_ E%negb_false_iff%bool_decide_eq_true].
    destruct (json_parse b) as [doc'|] eqn:Ej; [|done]. injection Hdoc as ->. by exists h, b, doc. }
  destruct (row_followed current fact (h_seq h) (slen b + slen et + es + 2) w Q G Hc Hv Hfa) as (Q' & G' & S & V & E).
  set (w1 := match row_edge current fact with Some _ => _ | None => _ end) in *.
  destruct S as (S1 & S2 & S3 & S4 & S5).
  apply (IH (pre ++ [(h, pd)])) in H as (A1 & A2 & A3 & A4 & A5 & A6); try done.
  - rewrite <- app_assoc in A4. split_and!; try done; [by transitivity w1|].
    simpl in A6. unfold zlen in *. rewrite length_app in A6. simpl in A6. lia.
  - destruct S3 as [l ->]. apply elem_of_app. by left.
  - by rewrite S1.
  - lia.
  - destruct R as [R1 R2 R3 R4]. constructor; simpl; [done| | |].
    + apply Forall_app. split; [done|by constructor].
    + destruct R3 as [R3|R3]; [left; auto|right]. by rewrite !fmap_app, R3.
    + apply Forall_app. split; [|by constructor]. eapply Forall_impl; [exact R4|]. intros v. by apply has_edge_mono.
Qed.

(** *** The whole walk *)
Definition node_backed (n : Node) : Prop := Forall (archived_fact (n_entity n)) (n_evidence n).
(** the node shows every indexed record of its process, and an edge for each reported parent *)
Definition node_full (edges : list Edge) (n : Node) : Prop :=
  (exists dig, digest cng_sha256 (n_entity n) = Ok dig /\
     v_seq <$> n_evidence n = (h_seq ∘ fst) <$> entity_rows d dig) /\
  Forall (has_edge edges (n_entity n)) (n_evidence n).
Record walk_ok (c : nat) (w : Walk) : Prop := {
  k_queue : queue_ok w;
  k_edges : edges_ok w;
  k_first : entities w !! 0%nat = Some root;
  k_cursor : (c <= length (w_pending w))%nat;
  k_visited : w_visited w = list_to_set (take c (entities w));
  k_nodes : n_entity <$> w_nodes w = take c (entities w);
  k_backed : Forall node_backed (w_nodes w);
  k_full : w_truncated w = true \/ Forall (node_full (w_edges w)) (w_nodes w);
  k_evidence : w_evidence w = zsum (zlen ∘ n_evidence) (w_nodes w) /\ w_evidence w <= max_evidence
}.
(** how the walk may end *)
Record walk_end (w : Walk) : Prop := {
  x_edges : edges_ok w;
  x_nodes : zlen (w_nodes w) <= max_nodes;
  x_backed : Forall node_backed (w_nodes w);
  x_evidence : zsum (zlen ∘ n_evidence) (w_nodes w) <= w_evidence w <= max_evidence;
  x_full : w_truncated w = true \/ exists c, walk_ok c w
}.
Lemma walk_ok_end c w : walk_ok c w -> walk_end w.
Proof.
  intros H. pose proof H as [Q G R0 L V N B F [E M]]. constructor; try done; [|lia|by right; exists c].
  apply (f_equal length) in N. rewrite length_fmap, length_take, length_fmap in N.
  pose proof (q_len _ Q). unfold zlen in *. lia.
Qed.
Lemma walk_ok_truncate c w : walk_ok c w -> walk_end (truncate w).
Proof.
  intros H. apply walk_ok_end in H as [G N B E F]. constructor; simpl; try done; [by apply truncate_edges|by left].
Qed.
Lemma entity_rows_history dig : Forall (fun r => r.1 ∈ process_history d) (entity_rows d dig).
Proof.
  apply Forall_forall. intros r Hr. apply list_elem_of_omap in Hr as (h & Hh & E).
  destruct (List.find _ _); [|done]. by injection E as <-.
Qed.
Lemma walk_ok_fresh c w current : walk_ok c w -> w_pending w !! c = Some current ->
  (p_entity current ∉ w_visited w) /\ Z.of_nat (size (w_visited w)) = Z.of_nat c /\ (c < length (w_pending w))%nat.
Proof.
  intros [Q _ _ L V _ _ _ _] Hc. pose proof (lookup_lt_Some _ _ _ Hc). pose proof (q_nodup _ Q) as Hn.
  assert (He : entities w !! c = Some (p_entity current)) by by rewrite list_lookup_fmap, Hc.
  assert (Ht : NoDup (take c (entities w))) by (eapply sublist_NoDup; [exact Hn|apply sublist_take]).
  rewrite V. split_and!; [|rewrite size_list_to_set by done; rewrite length_take, length_fmap; lia|done].
  rewrite elem_of_list_to_set. intros Hin. rewrite <- (take_drop_middle _ _ _ He) in Hn.
  apply NoDup_app in Hn as (_ & Hn & _). apply (Hn _ Hin). by left.
Qed.
(** the state after one node was read *)
Lemma visit_node c w current dig n w' :
  walk_ok c w -> w_pending w !! c = Some current -> digest cng_sha256 (p_entity current) = Ok dig ->
  read_rows current (take (Z.to_nat (max_evidence - w_evidence w + 1)) (entity_rows d dig)) (new_node (p_entity current))
    (visit (p_entity current) w) = Ok (n, w') ->
  walk_end (truncate w') /\ forall bytes, walk_ok (S c) (push_node n bytes w').
Proof.
  intros H Hc Hd Hr. pose proof (walk_ok_fresh _ _ _ H Hc) as (Hfr & _ & Hlt). pose proof H as [Q G R0 L V N B F [E M]].
  assert (He : entities w !! c = Some (p_entity current)) by by rewrite list_lookup_fmap, Hc.
  apply (read_rows_ok _ _ []) in Hr as (Q' & G' & (S1 & S2 & S3 & S4 & S5) & R & M' & E').
  2:{ by destruct Q; constructor. }
  2:{ destruct G as [G1 G2 G3]. constructor; simpl; auto. intros e He'. apply elem_of_union. right. auto. }
  2:{ simpl. by eapply list_elem_of_lookup_2. }
  2:{ simpl. set_solver. }
  2:{ apply Forall_take, entity_rows_history. }
  2:{ done. }
  2:{ constructor; simpl; auto. }
  simpl in *. destruct R as [R1 R2 R3 R4]. destruct S3 as [tail S3].
  assert (Htake : take (S c) (entities w') = take c (entities w) ++ [p_entity current]).
  { rewrite S3, fmap_app, take_app_le by (rewrite length_fmap; lia). by apply take_S_r. }
  assert (Hfull : w_truncated w' = true \/ node_full (w_edges w') n).
  { destruct R3 as [R3|R3]; [by left|right]. split; [|by rewrite R1]. exists dig. rewrite R1. split; [done|].
    rewrite R3. cbn [app]. f_equal. apply take_ge.
    apply (f_equal length) in R3. rewrite !length_fmap in R3. cbn [app] in R3. rewrite length_take in R3.
    unfold zlen in *. simpl in E'. lia. }
  assert (Hok : forall bytes, walk_ok (S c) (push_node n bytes w')).
  { intros bytes. constructor; simpl; rewrite ?S1, ?S2.
    - by destruct Q'; constructor.
    - destruct G' as [A1 A2 A3]. constructor; simpl; auto.
    - rewrite S3, fmap_app. by apply lookup_app_l_Some.
    - rewrite S3, length_app. lia.
    - rewrite Htake, list_to_set_app_L, V. simpl. set_solver.
    - rewrite fmap_app, N. simpl. by rewrite R1, Htake.
    - apply Forall_app. split; [done|]. constructor; [|done]. unfold node_backed. by rewrite R1.
    - destruct (w_truncated w') eqn:Et; [by left|right]. destruct Hfull as [|Hfull]; [done|].
      destruct F as [F|F]; [apply S5 in F; congruence|].
      apply Forall_app. split; [|by constructor]. eapply Forall_impl; [exact F|]. intros m [F1 F2]. split; [done|].
      eapply Forall_impl; [exact F2|]. intros v. by apply has_edge_mono.
    - rewrite zsum_app, <- E. unfold zsum, zlen in *. simpl in *. lia. }
  split; [|done]. constructor; simpl; rewrite ?S2; try done.
  - by apply truncate_edges.
  - apply (walk_ok_end c w H).
  - rewrite <- E. unfold zlen in *. simpl in E'. lia.
  - by left.
Qed.
Lemma walk_run fuel c w w' : walk fuel d c w = Ok w' -> walk_ok c w -> walk_end w'.
Proof.
  revert c w. induction fuel as [|fuel IH]; intros c w H Hk; [done|]. cbn [Ancestry.walk] in H.
  destruct (w_pending w !! c) as [current|] eqn:Hc; [|injection H as <-; by eapply walk_ok_end].
  destruct (walk_ok_fresh _ _ _ Hk Hc) as (Hfr & _ & _). rewrite bool_decide_eq_false_2 in H by done.
  destruct (_ <=? _); [injection H as <-; by eapply walk_ok_truncate|].
  apply bind_Ok in H as (dig & Hd & H). apply bind_Ok in H as ([n w1] & Hr & H). apply bind_Ok in H as (t & _ & H).
  destruct (visit_node _ _ _ _ _ _ Hk Hc Hd Hr) as [He Hn].
  destruct (_ <? _); [by injection H as <-|].
  destruct (_ <=? _); [injection H as <-; by eapply walk_ok_end|]. by eapply IH.
Qed.
(** more fuel than entries of the queue makes no difference *)
Lemma walk_enough f g c w : walk_ok c w -> max_nodes < Z.of_nat (c + f) -> max_nodes < Z.of_nat (c + g) ->
  walk f d c w = walk g d c w.
Proof.
  revert g c w. induction f as [|f IH]; intros g c w Hk Hf Hg.
  { pose proof (k_cursor _ _ Hk). pose proof (q_len _ (k_queue _ _ Hk)). unfold zlen in *. lia. }
  destruct g as [|g]; [pose proof (k_cursor _ _ Hk); pose proof (q_len _ (k_queue _ _ Hk)); unfold zlen in *; lia|].
  cbn [Ancestry.walk]. destruct (w_pending w !! c) as [current|] eqn:Hc; [|done].
  destruct (walk_ok_fresh _ _ _ Hk Hc) as (Hfr & _ & _). rewrite bool_decide_eq_false_2 by done.
  destruct (_ <=? _); [done|]. destruct (digest _ _) as [dig|] eqn:Hd; [|done]. cbn [mbind result_bind].
  simpl (w_evidence (visit _ _)).
  destruct (read_rows _ _ _ _) as [[n w1]|] eqn:Hr; [|done]. cbn [mbind result_bind].
  destruct (dump _) as [t|]; [|done]. cbn [mbind result_bind].
  destruct (_ <? _); [done|]. destruct (_ <=? _); [done|].
  destruct (visit_node _ _ _ _ _ _ Hk Hc Hd Hr) as [_ Hn]. apply IH; [done|lia|lia].
Qed.
Lemma start_walk_ok consumed : 0 < max_nodes -> 0 < max_evidence -> walk_ok 0 (start_walk root consumed).
Proof.
  intros H1 H2. constructor; simpl; try done; [| |lia|by right|split; [done|lia]].
  - constructor; simpl; [unfold zlen; simpl; lia|apply NoDup_singleton|set_solver|].
    intros p x ->%list_elem_of_singleton Hx. done.
  - constructor; simpl; [done|intros e He; by apply not_elem_of_nil in He..].
Qed.

(** *** The answer *)
Abbreviation process_ancestry := (Ancestry.process_ancestry cng_sha256 valid_utf8 json_parse dump unprotect max_nodes
  max_depth max_evidence max_bytes root d).
Abbreviation marked e m := (e_child m = e_child e /\ e_parent m = e_parent e /\ e_record m = e_record e).
Record answer (a : Ancestry) (w : Walk) : Prop := {
  s_end : walk_end w;
  s_nodes : a_nodes a = w_nodes w;
  s_marks : Forall2 (fun e m => marked e m /\ (e_cycle m = true <-> rtc (reports (w_edges w)) (e_parent e) (e_child e)))
    (w_edges w) (a_edges a);
  s_complete : a_complete a = true -> w_truncated w = false /\ zlen (w_pending w) <= Z.of_nat (size (w_visited w)) /\
    n_history_count (counters d) = n_graph_count (counters d);
  s_text : exists t, dump (ancestry_json a) = Ok t /\ slen t <= max_bytes;
  s_fuel : exists text, forall fuel, (walk_fuel max_nodes <= fuel)%nat -> walk fuel d 0 (start_walk root (slen text)) = Ok w
}.
Lemma ancestry_answer a : process_ancestry = Ok a -> exists w, answer a w.
Proof.
  unfold Ancestry.process_ancestry. intros H. apply bind_Ok in H as (u & Hb & H). apply throw_if_Ok, negb_false_iff in Hb.
  apply bind_Ok in H as (u2 & Hback & H). apply throw_if_Ok in Hback. apply bind_Ok in H as (t & _ & H).
  apply bind_Ok in H as (w & Hw & H). destruct (mark_cycles (w_edges w) (w_edges w)) as (m & Hm & F).
  rewrite Hm in H. cbn [mbind result_bind] in H. apply bind_Ok in H as (t2 & Ht2 & H).
  apply bind_Ok in H as (u3 & Hsz & H). apply throw_if_Ok in Hsz. apply Ok_inj in H.
  unfold ancestry_bounds in Hb. rewrite !andb_true_iff, !Z.ltb_lt in Hb.
  assert (Hs : walk_ok 0 (start_walk root (slen t))) by (apply start_walk_ok; apply Hb).
  exists w. subst a. constructor; cbn [a_nodes a_edges a_complete].
  - by eapply walk_run.
  - done.
  - eapply Forall2_impl; [exact F|]. tauto.
  - intros [Hc Hz]%andb_true_iff. apply negb_true_iff, orb_false_iff in Hc as [H1 H2]. split_and!; [done|lia|lia].
  - exists t2. split; [done|lia].
  - exists t. intros fuel Hf. rewrite <- Hw. apply walk_enough; [done| |]; unfold walk_fuel in *; lia.
Qed.
Lemma answer_reports a w : answer a w -> forall x y, reports (a_edges a) x y <-> reports (w_edges w) x y.
Proof.
  intros H. eapply (reports_marked (fun e m => e_record m = e_record e /\ (e_cycle m = true <-> _))).
  eapply Forall2_impl; [apply (s_marks _ _ H)|]. intros e m ((E1 & E2 & E3) & E4). split_and!; [done..|exact E4].
Qed.
Lemma answer_edge a w m : answer a w -> m ∈ a_edges a -> exists e, e ∈ w_edges w /\ marked e m /\
  (e_cycle m = true <-> rtc (reports (w_edges w)) (e_parent e) (e_child e)).
Proof.
  intros H Hm. apply list_elem_of_lookup in Hm as (i & Hi). destruct (Forall2_lookup_r _ _ _ _ _ (s_marks _ _ H) Hi) as (e & He & M & C).
  exists e. split_and!; try done; [by eapply list_elem_of_lookup_2|apply M..].
Qed.
(** a complete walk visited its whole queue *)
Lemma complete_walk c w : walk_ok c w -> zlen (w_pending w) <= Z.of_nat (size (w_visited w)) ->
  n_entity <$> w_nodes w = entities w /\ (forall x, x ∈ w_visited w -> x ∈ entities w).
Proof.
  intros [Q _ _ L V N _ _ _] Hs.
  assert (Ht : NoDup (take c (entities w))) by (eapply sublist_NoDup; [apply Q|apply sublist_take]).
  rewrite V, size_list_to_set, length_take, length_fmap in Hs by done. unfold zlen in Hs.
  rewrite take_ge in N, V by (rewrite length_fmap; lia). split; [done|]. rewrite V. set_solver.
Qed.
Lemma all_indexed : tables_ok d -> n_history_count (counters d) = n_graph_count (counters d) ->
  forall h, h ∈ process_history d -> exists g, g ∈ process_graph d /\ g_seq g = h_seq h.
Proof.
  intros Ht Hn h Hh. destruct (ok_graph_seqs _ Ht) as [Hd Hs]. pose proof (ok_nhistory _ Ht) as [_ E1].
  pose proof (ok_ngraph _ Ht) as [E2 _]. apply (NoDup_submseteq _ _ Hd) in Hs.
  apply submseteq_length_Permutation in Hs; [|rewrite !length_fmap; unfold zlen in *; lia].
  assert (Hin : h_seq h ∈ g_seq <$> process_graph d) by (rewrite Hs; by apply list_elem_of_fmap_2).
  apply list_elem_of_fmap in Hin as (g & E & Hg). by exists g.
Qed.

(** The cycle marks of an ancestry answer are exact: an edge is marked if
    and only if its child can be reached again from its parent over the edges
    that are returned. *)
Theorem ancestry_cycles_exact (a : Ancestry) (m : Edge) : process_ancestry = Ok a -> m ∈ a_edges a ->
  e_cycle m = true <-> rtc (reports (a_edges a)) (e_parent m) (e_child m).
Proof.
  intros H Hm. apply ancestry_answer in H as (w & H). destruct (answer_edge _ _ _ H Hm) as (e & _ & (-> & -> & _) & ->).
  pose proof (answer_reports _ _ H) as E. split; apply rtc_subrel; intros x y; apply E.
Qed.

(** C34: An ancestry answer shows only what is retained, and calls itself
    complete only when it is.  Every record it shows for a process is an
    archived record whose rederived identity is that process, and every edge is
    the parent such a record reports.  When the traversal is said to be
    complete, every archived record is indexed; the root is among the nodes, each
    once; each node shows all indexed records of its process, in order, with an
    edge for every reported parent; and both ends of every edge are nodes. *)
Theorem ancestry_truthful (a : Ancestry) : process_ancestry = Ok a ->
  Forall node_backed (a_nodes a) /\ Forall edge_backed (a_edges a) /\
  (tables_ok d -> a_complete a = true ->
     (forall h, h ∈ process_history d -> exists g, g ∈ process_graph d /\ g_seq g = h_seq h) /\
     NoDup (n_entity <$> a_nodes a) /\ root ∈ n_entity <$> a_nodes a /\
     Forall (node_full (a_edges a)) (a_nodes a) /\
     forall e, e ∈ a_edges a -> e_child e ∈ n_entity <$> a_nodes a /\ e_parent e ∈ n_entity <$> a_nodes a).
Proof.
  intros H. apply ancestry_answer in H as (w & H). pose proof (s_end _ _ H) as [G _ B _ F].
  rewrite (s_nodes _ _ H). split_and!; [done| |].
  - apply Forall_forall. intros m Hm. destruct (answer_edge _ _ _ H Hm) as (e & He & (E1 & E2 & E3) & _).
    destruct G as [G _ _]. rewrite Forall_forall in G. destruct (G e He) as (v & A & P & R).
    exists v. rewrite E1, E2, E3. by split_and!.
  - intros Ht Hc. destruct (s_complete _ _ H Hc) as (Hnt & Hsz & Hn). destruct F as [F|[c F]]; [congruence|].
    destruct (complete_walk c w F Hsz) as [Hnodes Hvis]. pose proof F as [Q _ R0 _ _ _ _ Ff _].
    rewrite Hnodes. split_and!; [by apply all_indexed|apply Q|by eapply list_elem_of_lookup_2| |].
    + destruct Ff as [Ff|Ff]; [congruence|]. eapply Forall_impl; [exact Ff|]. intros n [F1 F2]. split; [done|].
      eapply Forall_impl; [exact F2|]. intros v Hv p Hp. apply (answer_reports _ _ H). by apply Hv.
    + intros m Hm. destruct (answer_edge _ _ _ H Hm) as (e & He & (-> & -> & _) & _). destruct G as [_ G2 G3].
      split; [by apply Hvis, G2|]. destruct (G3 e He); [congruence|done].
Qed.

(** The ancestry query is bounded: at most the given number of nodes and of
    evidence records, a printed answer within the byte ceiling, and a walk that
    ends within its queue limit (more fuel changes nothing). *)
Theorem ancestry_bounded (a : Ancestry) : process_ancestry = Ok a ->
  zlen (a_nodes a) <= max_nodes /\ zsum (zlen ∘ n_evidence) (a_nodes a) <= max_evidence /\
  (exists t, dump (ancestry_json a) = Ok t /\ slen t <= max_bytes) /\
  exists w text, a_nodes a = w_nodes w /\
    forall fuel, (walk_fuel max_nodes <= fuel)%nat -> walk fuel d 0 (start_walk root (slen text)) = Ok w.
Proof.
  intros H. apply ancestry_answer in H as (w & H). pose proof (s_end _ _ H) as [_ N _ E _]. rewrite (s_nodes _ _ H).
  split_and!; [done|lia|apply H|]. destruct (s_fuel _ _ H) as (text & Hf). by exists w, text.
Qed.
End Walk.

(** ** A concrete walk: two processes that report each other as parent *)
Module AncestryExample.
Definition mix (s : string) : Z := foldl (fun h c => (31 * h + code c) `mod` 65536) 7 (of_str s).
Definition small_digest (s : string) : string + list Z := inr (mix s / 256 :: mix s `mod` 256 :: repeat 0 30).
Definition any_utf8 (_ : string) : bool := true.
Definition reference (p : Z) (guid : string) : ProcessReference :=
  match (st ← make_store "host" None 1; make_reference small_digest st p None (Some guid) "sysmon:Sysmon:") with
  | Ok r => r
  | Throw _ => {| observed_pid := 0; entity_id := None; resolution := ""; native_creation_ticks := None;
                  source_guid := None; boot_id := None; source_namespace := "" |}
  end.
Definition entity (p : Z) (guid : string) : string := default "" (entity_id (reference p guid)).
Definition birth (p : Z) (guid : string) (pp : Z) (pguid : string) : json :=
  object [("schema_version", JStr "1.0"); ("kind", JStr "observation");
    ("record_id", JStr ("rec_" +:+ hex_bytes (repeat 0 32)));
    ("endpoint", object [("host_id", JStr "host"); ("boot_id", JNull)]);
    ("provenance", object [("kind", JStr "sysmon"); ("provider", JStr "Sysmon"); ("channel", JNull)]);
    ("category", JStr "process"); ("subject", reference_json (reference p guid));
    ("data", object [
      ("event", object [("type", JStr "start")]);
      ("process", object [("entity_id", JStr (entity p guid)); ("pid", JUint p); ("start_time_ticks", JNull);
        ("parent", object [("identity", reference_json (reference pp pguid)); ("entity_id", JStr (entity pp pguid))])]);
      ("source_facts", object [("representation", JStr "decoded_source_facts_v1");
        ("family", JStr "process"); ("operation", JStr "start");
        ("source", object [("kind", JStr "sysmon"); ("provider", JStr "Sysmon"); ("channel", JNull)]);
        ("process", object [("pid", JUint p); ("start_time_ticks", JNull); ("process_guid", JStr guid);
          ("parent_pid", JUint pp); ("parent_process_guid", JStr pguid)])])])].
Definition parse (t : string) : option json :=
  if String.eqb t "child" then Some (birth 7 "g7" 3 "g3")
  else if String.eqb t "parent" then Some (birth 3 "g3" 7 "g7") else None.
Definition print (j : json) : result string := Ok "{}".
Definition journal : JState := perform_all small_digest any_utf8 parse toy_cipher toy_cipher toy_disk toy_config
  [Append "child"; Append "parent"] start.
Abbreviation ancestry := (process_ancestry small_digest any_utf8 parse print toy_cipher 8 8 8 4096 (entity 7 "g7") (db journal)).
Definition cyclic_edge : Edge := {|
  e_child := entity 7 "g7"; e_parent := entity 3 "g3"; e_record := "rec_" +:+ hex_bytes (repeat 0 32); e_cycle := true |}.
Definition answer_of : Ancestry := match ancestry with Ok a => a | Throw _ => {| a_root := ""; a_nodes := [];
  a_edges := []; a_truncated := true; a_backlog := 0; a_evidence := 0; a_complete := false |} end.
Example two_nodes : ancestry = Ok answer_of /\ a_complete answer_of = true /\ length (a_nodes answer_of) = 2%nat /\
  length (a_edges answer_of) = 2%nat.
Proof. vm_compute. by split_and!. Qed.
End AncestryExample.

Lemma ancestry_cycles_exact_witness :
  rtc (reports (a_edges AncestryExample.answer_of)) (e_parent AncestryExample.cyclic_edge)
    (e_child AncestryExample.cyclic_edge).
Proof.
  apply (ancestry_cycles_exact AncestryExample.small_digest AncestryExample.any_utf8 AncestryExample.parse
    AncestryExample.print toy_cipher 8 8 8 4096 (AncestryExample.entity 7 "g7") (db AncestryExample.journal)
    AncestryExample.answer_of AncestryExample.cyclic_edge).
  - vm_compute. reflexivity.
  - vm_compute. left.
  - reflexivity.
Defined.
Lemma ancestry_truthful_witness :
  AncestryExample.entity 3 "g3" ∈ n_entity <$> a_nodes AncestryExample.answer_of.
Proof.
  destruct (ancestry_truthful AncestryExample.small_digest AncestryExample.any_utf8 AncestryExample.parse
    AncestryExample.print toy_cipher 8 8 8 4096 (AncestryExample.entity 7 "g7") (db AncestryExample.journal)
    AncestryExample.answer_of) as (_ & _ & H).
  - vm_compute. reflexivity.
  - destruct H as (_ & _ & _ & _ & H).
    + exact (proj1 (perform_all_ok AncestryExample.small_digest AncestryExample.any_utf8 AncestryExample.parse toy_cipher
        toy_cipher toy_disk toy_config _ _ start_ok)).
    + vm_compute. reflexivity.
    + destruct (H AncestryExample.cyclic_edge) as [_ He]; [vm_compute; left|exact He].
Defined.
Lemma ancestry_bounded_witness : zlen (a_nodes AncestryExample.answer_of) <= 8.
Proof.
  apply (ancestry_bounded AncestryExample.small_digest AncestryExample.any_utf8 AncestryExample.parse
    AncestryExample.print toy_cipher 8 8 8 4096 (AncestryExample.entity 7 "g7") (db AncestryExample.journal)
    AncestryExample.answer_of).
  vm_compute. reflexivity.
Defined.
