(* ===== verification/Policy.v ===== *)
(** * Signed policy

    [configuration/policy.cpp]: a collection policy is a signed envelope; the
    store keeps the newest accepted one, the one in effect and the one before
    it, in a file that is replaced atomically.  The JSON library, the hash, the
    key import and the signature check are parameters, and what the file system
    answers during a call is a [PolicyIo]. *)

From S2P Require Import Prelude Identity Json.

Record TrustKey := { key_id : string; subject_public_key_info_der : string }.
Record FeatureState := { f_name : string; f_desired : bool; f_effective : bool; f_state : string }.
Record Snapshot := {
  authorized : bool; policy_expired : bool; rolled_back : bool;
  desired_generation : Z; effective_generation : Z; highest_accepted_generation : Z;
  policy_digest : string; snapshot_error : string; features : list FeatureState
}.
Definition empty_snapshot : Snapshot := {|
  authorized := false; policy_expired := false; rolled_back := false; desired_generation := 0;
  effective_generation := 0; highest_accepted_generation := 0; policy_digest := ""; snapshot_error := "";
  features := [] |}.
Record PolicyResult := { accepted : bool; changed : bool; snapshot : Snapshot }.

Definition kMaximumEnvelopeBytes : Z := 256 * 1024.
Definition kMaximumPayloadBytes : Z := 128 * 1024.
Definition kMaximumTrustKeys : Z := 8.
Definition kFeatures : list string :=
  ["process"; "network"; "dns"; "file_integrity"; "registry"; "powershell"; "authentication"; "persistence";
   "memory_inventory"].
Definition kMaxLifetime : Z := 30 * 24 * 60 * 60 * 1000.
Definition kDomain : string := "PANOPTICON-WINDOWS-CONFIG-V1" +:+ String (ascii_of_N 0) "".

Definition keys_are (j : json) (names : list string) : bool :=
  is_object j && (size_ j =? zlen names) && forallb (fun n => contains n j) names.
Definition uint_field (j : json) (n : string) : result Z :=
  match find n j with
  | Some (JUint v) => Ok (u64 v)
  | _ => Throw (runtime_error ("invalid unsigned field: " +:+ n))
  end.
Definition get_bool (j : json) : result bool :=
  match j with JBool b => Ok b | _ => Throw (json_exception "type must be boolean") end.
Definition feature (doc : json) (n : string) : result bool := get_bool (member n (member "features" doc)).

(** ** The duplicate-key guard *)
Section Guard.
Context (json_parse : string -> result json).
Definition is_ws (c : ascii) : bool := existsb (Z.eqb (code c)) [32; 9; 13; 10].
Fixpoint ws (s : string) : string :=
  match s with String c r => if is_ws c then ws r else s | "" => "" end.
(** the text of a string token, from its opening quote (already read) to its
    closing one, and what follows; [None] when it does not end *)
Fixpoint token_end (s : string) : option (string * string) :=
  match s with
  | "" => None
  | String c r =>
      if Ascii.eqb c "\" then
        match r with
        | "" => None
        | String d r => '(t, rest) ← token_end r; Some (String c (String d t), rest)
        end
      else if code c =? 34 then Some (String c "", r)
      else '(t, rest) ← token_end r; Some (String c t, rest)
  end.
(** [string()], after the opening quote: the value and the rest *)
Definition guard_string (s : string) : result (string * string) :=
  '(t, rest) ← of_option (token_end s) (runtime_error "unterminated JSON string");
  j ← json_parse (String (ascii_of_N 34) t);
  k ← get_string j;
  Ok (k, rest).
Fixpoint scalar (s : string) : string :=
  match s with
  | String c r => if Ascii.eqb c "," || Ascii.eqb c "]" || Ascii.eqb c "}" || is_ws c then s else scalar r
  | "" => ""
  end.
(** the text after [c], when it starts with it *)
Definition eat (c : ascii) (s : string) : option string :=
  match s with String d r => if Ascii.eqb d c then Some r else None | "" => None end.
Definition bad_object : exn := runtime_error "malformed JSON object".
(** [value(depth)] from [s] on, with the loops over members and elements; the
    answer is the rest of the text, or the exception, and [None] when the fuel
    runs out *)
Fixpoint guard_value (fuel : nat) (depth : Z) (s : string) : option (result string) :=
  match fuel with
  | O => None
  | S fuel =>
      let s := ws s in
      if (32 <? depth) || str_empty s then Some (Throw (runtime_error "JSON nesting or input bound exceeded"))
      else match eat "{" s with
      | Some r =>
          let r := ws r in
          match eat "}" r with Some rest => Some (Ok rest) | None => guard_members fuel depth r [] end
      | None =>
      match eat "[" s with
      | Some r =>
          let r := ws r in
          match eat "]" r with Some rest => Some (Ok rest) | None => guard_elements fuel depth r end
      | None =>
      match eat (ascii_of_N 34) s with
      | Some r => Some ('(_, rest) ← guard_string r; Ok rest)
      | None => Some (Ok (scalar s))
      end end end
  end
with guard_members (fuel : nat) (depth : Z) (s : string) (seen : list string) : option (result string) :=
  match fuel with
  | O => None
  | S fuel =>
      match eat (ascii_of_N 34) (ws s) with
      | None => Some (Throw (runtime_error "malformed JSON object key"))
      | Some r =>
          match guard_string r with
          | Throw e => Some (Throw e)
          | Ok (k, r) =>
              if bool_decide (k ∈ seen) then Some (Throw (runtime_error "duplicate JSON object key"))
              else match eat ":" (ws r) with
              | None => Some (Throw bad_object)
              | Some r =>
                  match guard_value fuel (depth + 1) r with
                  | Some (Ok r) =>
                      let r := ws r in
                      match eat "," r with
                      | Some r => guard_members fuel depth r (k :: seen)
                      | None => match eat "}" r with Some rest => Some (Ok rest) | None => Some (Throw bad_object) end
                      end
                  | other => other
                  end
              end
          end
      end
  end
with guard_elements (fuel : nat) (depth : Z) (s : string) : option (result string) :=
  match fuel with
  | O => None
  | S fuel =>
      match guard_value fuel (depth + 1) s with
      | Some (Ok r) =>
          let r := ws r in
          match eat "," r with
          | Some r => guard_elements fuel depth r
          | None => match eat "]" r with
                    | Some rest => Some (Ok rest)
                    | None => Some (Throw (runtime_error "malformed JSON array"))
                    end
          end
      | other => other
      end
  end.
Definition guard_fuel (s : string) : nat := 2 * String.length s + 2.
Definition validate (s : string) : option (result unit) :=
  match guard_value (guard_fuel s) 0 s with
  | None => None
  | Some (Throw e) => Some (Throw e)
  | Some (Ok rest) => Some (throw_if (negb (str_empty (ws rest))) (runtime_error "trailing JSON data"))
  end.

(** *** The guard always ends *)
Lemma ws_length s : (String.length (ws s) <= String.length s)%nat.
Proof. induction s as [|c s IH]; simpl; [lia|]. destruct (is_ws c); simpl; lia. Qed.
Lemma scalar_length s : (String.length (scalar s) <= String.length s)%nat.
Proof. induction s as [|c s IH]; simpl; [lia|]. destruct (_ || _); simpl; lia. Qed.
Lemma eat_length c s r : eat c s = Some r -> String.length s = S (String.length r).
Proof. destruct s as [|d s]; simpl; [done|]. destruct (Ascii.eqb d c); [|done]. by intros [= ->]. Qed.
Lemma token_length n s t rest : (String.length s <= n)%nat -> token_end s = Some (t, rest) ->
  (String.length rest < String.length s)%nat.
Proof.
  revert s t. induction n as [|n IH]; intros [|c s] t; simpl; try (done || lia). intros Hn.
  destruct (Ascii.eqb c "\").
  - destruct s as [|d s]; [done|]. destruct (token_end s) as [[t' r']|] eqn:E; [|done]. intros [= <- <-].
    simpl in *. apply IH in E; lia.
  - destruct (code c =? 34); [intros [= <- <-]; lia|]. destruct (token_end s) as [[t' r']|] eqn:E; [|done].
    intros [= <- <-]. apply IH in E; lia.
Qed.
Lemma guard_string_length s k rest : guard_string s = Ok (k, rest) -> (String.length rest < String.length s)%nat.
Proof.
  unfold guard_string. intros H. apply bind_Ok in H as ([t r] & H1 & H). apply bind_Ok in H as (j & _ & H).
  apply bind_Ok in H as (k' & _ & [= <- <-]). destruct (token_end s) as [[t' r']|] eqn:E; [|done].
  injection H1 as -> ->. by eapply token_length.
Qed.
Ltac shorter := repeat match goal with
  | H : eat _ _ = Some _ |- _ => apply eat_length in H
  | H : guard_string _ = Ok (_, _) |- _ => apply guard_string_length in H
  | H : context [ws ?s] |- _ => lazymatch goal with _ : (String.length (ws s) <= _)%nat |- _ => fail
      | _ => pose proof (ws_length s) end
  | |- context [ws ?s] => lazymatch goal with _ : (String.length (ws s) <= _)%nat |- _ => fail
      | _ => pose proof (ws_length s) end
  end.
(** enough fuel for the text ahead: an answer, and the rest is not longer *)
Definition answers (o : option (result string)) (s : string) : Prop :=
  exists r, o = Some r /\ forall rest, r = Ok rest -> (String.length rest <= String.length s)%nat.
Lemma answers_throw e s : answers (Some (Throw e)) s.
Proof. by eexists. Qed.
Lemma answers_ok rest s : (String.length rest <= String.length s)%nat -> answers (Some (Ok rest)) s.
Proof. intros H. eexists. split; [done|]. by intros ? [= ->]. Qed.
Lemma answers_le o s s' : answers o s -> (String.length s <= String.length s')%nat -> answers o s'.
Proof. intros (r & -> & H) Hl. eexists. split; [done|]. intros rest E. apply H in E. lia. Qed.
Lemma guard_answers fuel :
  (forall depth s, (2 * String.length s + 2 <= fuel)%nat -> answers (guard_value fuel depth s) s) /\
  (forall depth s seen, (2 * String.length s + 2 <= fuel)%nat -> answers (guard_members fuel depth s seen) s) /\
  (forall depth s, (2 * String.length s + 3 <= fuel)%nat -> answers (guard_elements fuel depth s) s).
Proof.
  induction fuel as [|fuel (IHv & IHm & IHe)]; [repeat split; lia|]. split_and!.
  - intros depth s Hf. cbn [guard_value]. destruct (_ || _); [apply answers_throw|].
    destruct (eat "{" (ws s)) as [r|] eqn:E1.
    { destruct (eat "}" (ws r)) as [rest|] eqn:E2; [apply answers_ok; shorter; lia|].
      eapply answers_le; [apply IHm|]; shorter; lia. }
    destruct (eat "[" (ws s)) as [r|] eqn:E2.
    { destruct (eat "]" (ws r)) as [rest|] eqn:E3; [apply answers_ok; shorter; lia|].
      eapply answers_le; [apply IHe|]; shorter; lia. }
    destruct (eat (ascii_of_N 34) (ws s)) as [r|] eqn:E3.
    { destruct (guard_string r) as [[k rest]|e] eqn:E4; cbn [mbind result_bind]; [|apply answers_throw].
      apply answers_ok. shorter. lia. }
    apply answers_ok. pose proof (scalar_length (ws s)). shorter. lia.
  - intros depth s seen Hf. cbn [guard_members]. destruct (eat (ascii_of_N 34) (ws s)) as [r|] eqn:E1; [|apply answers_throw].
    destruct (guard_string r) as [[k r1]|e] eqn:E2; [|apply answers_throw].
    destruct (bool_decide (k ∈ seen)); [apply answers_throw|].
    destruct (eat ":" (ws r1)) as [r2|] eqn:E3; [|apply answers_throw].
    assert (Hlen : (String.length r2 + 2 <= String.length s)%nat) by (shorter; lia).
    destruct (IHv (depth + 1) r2 ltac:(lia)) as (x & -> & Hx). destruct x as [r3|e]; [|apply answers_throw].
    specialize (Hx r3 eq_refl).
    destruct (eat "," (ws r3)) as [r4|] eqn:E4.
    + eapply answers_le; [apply IHm|]; shorter; lia.
    + destruct (eat "}" (ws r3)) as [rest|] eqn:E5; [|apply answers_throw]. apply answers_ok. shorter. lia.
  - intros depth s Hf. cbn [guard_elements].
    destruct (IHv (depth + 1) s ltac:(lia)) as (x & -> & Hx). destruct x as [r3|e]; [|apply answers_throw].
    specialize (Hx r3 eq_refl).
    destruct (eat "," (ws r3)) as [r4|] eqn:E4.
    + eapply answers_le; [apply IHe|]; shorter; lia.
    + destruct (eat "]" (ws r3)) as [rest|] eqn:E5; [|apply answers_throw]. apply answers_ok. shorter. lia.
Qed.
Lemma validate_ends s : exists r, validate s = Some r.
Proof.
  unfold validate. destruct (proj1 (guard_answers (guard_fuel s)) 0 s ltac:(unfold guard_fuel; lia)) as (r & -> & _).
  destruct r; eauto.
Qed.
End Guard.

(** ** Policies *)
Record Policy := {
  envelope : json; doc : json; payload : string; digest : string; gen : Z; issued : Z; expires : Z
}.
Definition validate_shape (d : json) : result unit :=
  _ ← throw_if (negb (keys_are d ["schema_version"; "generation"; "issued_at_unix_ms"; "expires_at_unix_ms";
                                  "features"; "limits"])
                || negb (match member "schema_version" d with JUint v => u32 v =? 1 | _ => false end))
        (runtime_error "unknown policy schema or field set");
  let f := member "features" d in
  _ ← throw_if (negb (is_object f) || negb (size_ f =? zlen kFeatures))
        (runtime_error "features must contain the closed version 1 feature set");
  _ ← throw_if (negb (forallb (fun n => contains n f && is_boolean (member n f)) kFeatures))
        (runtime_error "missing or non-boolean feature");
  let l := member "limits" d in
  _ ← throw_if (negb (keys_are l ["collection_interval_ms"; "max_batch_events"; "max_payload_bytes";
                                  "sampling_per_mille"]))
        (runtime_error "unknown limits field set");
  i ← uint_field l "collection_interval_ms";
  b ← uint_field l "max_batch_events";
  p ← uint_field l "max_payload_bytes";
  s ← uint_field l "sampling_per_mille";
  throw_if ((i <? 100) || (86400000 <? i) || (b =? 0) || (10000 <? b) || (p <? 4096) || (8 * 1024 * 1024 <? p)
            || (1000 <? s)) (runtime_error "policy limit outside fixed safe bounds").
(** the first loop of [reject_weakening] *)
Fixpoint features_kept (old next : json) (names : list string) : result unit :=
  match names with
  | [] => Ok tt
  | n :: names =>
      a ← feature old n;
      b ← (if (a : bool) then feature next n else Ok true);
      _ ← throw_if (a && negb b)
            (runtime_error "policy weakening refused: enabled collection cannot be disabled");
      features_kept old next names
  end.
Definition weakening_refused : exn :=
  runtime_error "policy weakening refused: sampling, collection interval, and resource ceilings are monotonic".
(** one comparison of the disjunction: the later ones run only when it is false *)
Definition not_below (a b : json) (n : string) : result unit :=
  y ← uint_field b n; x ← uint_field a n; throw_if (y <? x) weakening_refused.
Definition not_above (a b : json) (n : string) : result unit :=
  y ← uint_field b n; x ← uint_field a n; throw_if (x <? y) weakening_refused.
Definition reject_weakening (old next : json) : result unit :=
  _ ← features_kept old next kFeatures;
  let a := member "limits" old in
  let b := member "limits" next in
  _ ← not_below a b "sampling_per_mille";
  _ ← not_above a b "collection_interval_ms";
  _ ← not_below a b "max_batch_events";
  not_below a b "max_payload_bytes".

Section Store.
Context (cng_sha256 : string -> string + list Z).
Context (json_parse : string -> result json) (dump : json -> result string).
(** [CryptStringToBinaryA] *)
Context (base64_decode : string -> option string).
(** [CryptDecodeObjectEx]: the algorithm identifier of the key, when the DER decodes *)
Context (spki_algorithm : string -> option (option string)).
(** [CryptImportPublicKeyInfoEx2] and the algorithm name CNG reports *)
Context (Key : Type) (import_key : string -> option (Key * option string)).
Context (verify_signature : Key -> list Z -> string -> bool).

Definition sha (input : string) : result (list Z) :=
  match cng_sha256 input with inr d => Ok d | inl e => Throw (runtime_error e) end.
Definition base64 (s : string) : result string :=
  let bad := runtime_error "signature must be 64-byte base64 ECDSA P-256" in
  _ ← throw_if (str_empty s || (1024 <? slen s)) bad;
  b ← of_option (base64_decode s) bad;
  _ ← throw_if (negb (slen b =? 64)) bad;
  Ok b.
(** [JsonGuard(text).validate()]; the fuel is enough ([validate_ends]) *)
Definition guard (text : string) : result unit :=
  match validate json_parse text with Some r => r | None => Throw (logic_error "fuel") end.
Definition szOID_ECC_PUBLIC_KEY : string := "1.2.840.10045.2.1".
(** the pinned key of an envelope, imported *)
Definition pinned_key (trust : list TrustKey) (id : string) : result Key :=
  pin ← of_option (List.find (fun k => String.eqb (key_id k) id) trust) (runtime_error "signing key is not pinned");
  let der := subject_public_key_info_der pin in
  let bad := runtime_error "pinned SPKI fingerprint or size is invalid" in
  _ ← throw_if (str_empty der || (4096 <? slen der)) bad;
  fingerprint ← sha der;
  _ ← throw_if (negb (String.eqb (hex_bytes fingerprint) (key_id pin))) bad;
  oid ← of_option (spki_algorithm der) (runtime_error "pinned SPKI DER cannot be decoded");
  _ ← throw_if (negb (bool_decide (oid = Some szOID_ECC_PUBLIC_KEY)))
        (runtime_error "pinned key is not elliptic-curve public key");
  imported ← of_option (import_key der) (runtime_error "Windows CNG could not import pinned key");
  _ ← throw_if (negb (bool_decide (imported.2 = Some "ECDSA_P256"))) (runtime_error "pinned key must be ECDSA P-256");
  Ok imported.1.
(** everything [verify] does that does not depend on the time *)
Definition authenticate (raw : string) (trust : list TrustKey) : result Policy :=
  _ ← throw_if (str_empty raw || (kMaximumEnvelopeBytes <? slen raw))
        (runtime_error "envelope empty or exceeds 256 KiB");
  _ ← guard raw;
  e ← json_parse raw;
  _ ← throw_if (negb (keys_are e ["format"; "key_id"; "payload"; "signature"])
                || negb (is_text "panopticon_signed_policy_v1" (member "format" e))
                || negb (is_string (member "key_id" e)) || negb (is_string (member "payload" e))
                || negb (is_string (member "signature" e)))
        (runtime_error "unknown signed envelope format or field set");
  id ← get_string (member "key_id" e);
  text ← get_string (member "payload" e);
  _ ← throw_if (str_empty text || (kMaximumPayloadBytes <? slen text))
        (runtime_error "payload empty or exceeds 128 KiB");
  key ← pinned_key trust id;
  d ← sha (kDomain +:+ text);
  signature ← get_string (member "signature" e);
  sig ← base64 signature;
  _ ← throw_if (negb (verify_signature key d sig)) (runtime_error "signature verification failed");
  _ ← guard text;
  document ← json_parse text;
  _ ← validate_shape document;
  g ← uint_field document "generation";
  i ← uint_field document "issued_at_unix_ms";
  x ← uint_field document "expires_at_unix_ms";
  _ ← throw_if ((g =? 0) || (i =? 0) || (x <=? i) || (kMaxLifetime <? x - i))
        (runtime_error "invalid generation or policy lifetime");
  Ok {| envelope := e; doc := document; payload := text; digest := hex_bytes d; gen := g; issued := i; expires := x |}.
Definition verify (raw : string) (trust : list TrustKey) (now : Z) (check_expiry : bool) : result Policy :=
  p ← authenticate raw trust;
  _ ← throw_if ((now <? issued p) && (300000 <? issued p - now))
        (runtime_error "policy issue time is too far in the future");
  _ ← throw_if (check_expiry && (expires p <=? now)) (runtime_error "policy expired");
  Ok p.

(** ** The state file *)
Record PolicyState := {
  exists_ : bool; high : Z; high_digest : string; desired : string; effective : string; rollback_to : string;
  active : list string; rolled : bool
}.
Definition no_state : PolicyState := {|
  exists_ := false; high := 0; high_digest := ""; desired := ""; effective := ""; rollback_to := ""; active := [];
  rolled := false |}.
(** [std::set::insert]: [None] when the name is there *)
Fixpoint set_insert (n : string) (l : list string) : option (list string) :=
  match l with
  | [] => Some [n]
  | m :: r =>
      match String.compare n m with
      | Lt => Some (n :: l)
      | Eq => None
      | Gt => r ← set_insert n r; Some (m :: r)
      end
  end.
Fixpoint active_names (l : list json) (seen : list string) : result (list string) :=
  match l with
  | [] => Ok seen
  | f :: l =>
      match f with
      | JStr n =>
          if existsb (String.eqb n) kFeatures then
            match set_insert n seen with
            | Some seen => active_names l seen
            | None => Throw (runtime_error "invalid effective feature state")
            end
          else Throw (runtime_error "invalid effective feature state")
      | _ => Throw (runtime_error "invalid effective feature state")
      end
  end.
Definition state_keys : list string :=
  ["format"; "highest_generation"; "highest_digest"; "desired_envelope"; "effective_envelope"; "rollback_envelope";
   "effective_features"; "rolled_back"].
(** [load], of a file that could be opened and read *)
Definition load (file : option string) : result PolicyState :=
  match file with
  | None => Ok no_state
  | Some raw =>
      _ ← throw_if (str_empty raw || (1024 * 1024 <? slen raw))
            (runtime_error "state file unreadable or out of bounds");
      j ← json_parse raw;
      _ ← throw_if (negb (keys_are j state_keys) || negb (is_text "panopticon_policy_state_v2" (member "format" j))
                    || negb (is_string (member "highest_digest" j)) || negb (is_string (member "desired_envelope" j))
                    || negb (is_string (member "effective_envelope" j)) || negb (is_string (member "rollback_envelope" j))
                    || negb (is_array (member "effective_features" j)) || negb (is_boolean (member "rolled_back" j)))
            (runtime_error "malformed state schema");
      h ← uint_field j "highest_generation";
      dg ← get_string (member "highest_digest" j);
      d ← get_string (member "desired_envelope" j);
      e ← get_string (member "effective_envelope" j);
      r ← get_string (member "rollback_envelope" j);
      b ← get_bool (member "rolled_back" j);
      a ← active_names (match member "effective_features" j with JArr l => l | _ => [] end) [];
      _ ← throw_if ((h =? 0) || negb (slen dg =? 64) || str_empty d || str_empty e)
            (runtime_error "incomplete state record");
      Ok {| exists_ := true; high := h; high_digest := dg; desired := d; effective := e; rollback_to := r;
            active := a; rolled := b |}
  end.
Definition state_json (s : PolicyState) : json :=
  object [("format", JStr "panopticon_policy_state_v2"); ("highest_generation", JUint (high s));
          ("highest_digest", JStr (high_digest s)); ("desired_envelope", JStr (desired s));
          ("effective_envelope", JStr (effective s)); ("rollback_envelope", JStr (rollback_to s));
          ("effective_features", JArr (JStr <$> active s)); ("rolled_back", JBool (rolled s))].

(** ** Snapshots *)
Definition feature_state (desired_doc : json) (effective_doc : option json) (act supported : list string) (n : string)
  : result FeatureState :=
  d ← feature desired_doc n;
  let cap := existsb (String.eqb n) supported in
  e ← match effective_doc with
      | Some doc => if d && cap && existsb (String.eqb n) act then feature doc n else Ok false
      | None => Ok false
      end;
  Ok {| f_name := n; f_desired := d; f_effective := e;
        f_state := if negb d then "disabled" else if negb cap then "unsupported"
                   else if (e : bool) then "active" else "pending" |}.
(** [statuses] of an authorized policy *)
Definition statuses (desired_doc : json) (effective_doc : option json) (act supported : list string)
  : result (list FeatureState) :=
  foldr (fun n rest => f ← feature_state desired_doc effective_doc act supported n; fs ← rest; Ok (f :: fs))
    (Ok []) kFeatures.
Definition as_expired (only_desired : bool) (f : FeatureState) : FeatureState := {|
  f_name := f_name f; f_desired := f_desired f; f_effective := false;
  f_state := if only_desired && negb (f_desired f) then f_state f else "expired" |}.
(** [for (active : s.active) if (!doc["features"][active].get<bool>()) throw] *)
Fixpoint all_enabled (d : json) (names : list string) (refusal : exn) : result unit :=
  match names with
  | [] => Ok tt
  | n :: names => b ← feature d n; _ ← throw_if (negb b) refusal; all_enabled d names refusal
  end.
Definition snapshot_of (s : PolicyState) (trust : list TrustKey) (now : Z) (caps : list string) : result Snapshot :=
  if negb (exists_ s) then
    Ok {| authorized := false; policy_expired := false; rolled_back := false; desired_generation := 0;
          effective_generation := 0; highest_accepted_generation := high s; policy_digest := "";
          snapshot_error := "no authorized policy has been activated";
          features := (fun n => {| f_name := n; f_desired := false; f_effective := false;
                                   f_state := "unauthorized" |}) <$> kFeatures |}
  else
    d ← verify (desired s) trust now false;
    _ ← throw_if (negb (gen d =? high s) || negb (String.eqb (digest d) (high_digest s)))
          (runtime_error "state high-water record mismatch");
    if expires d <=? now then
      fs ← statuses (doc d) None [] caps;
      Ok {| authorized := false; policy_expired := true; rolled_back := false; desired_generation := gen d;
            effective_generation := 0; highest_accepted_generation := high s; policy_digest := digest d;
            snapshot_error := "desired policy expired; all collection remains disabled";
            features := as_expired false <$> fs |}
    else
      e ← verify (effective s) trust now false;
      _ ← throw_if (gen d <? gen e) (runtime_error "effective policy is newer than desired");
      _ ← all_enabled (doc e) (active s)
            (runtime_error "effective state claims a feature excluded by its signed policy");
      if expires e <=? now then
        fs ← statuses (doc d) None [] caps;
        Ok {| authorized := true; policy_expired := false; rolled_back := rolled s; desired_generation := gen d;
              effective_generation := gen e; highest_accepted_generation := high s; policy_digest := digest d;
              snapshot_error := "effective policy expired; collection must remain disabled";
              features := as_expired true <$> fs |}
      else
        fs ← statuses (doc d) (Some (doc e)) (active s) caps;
        Ok {| authorized := true; policy_expired := false; rolled_back := rolled s; desired_generation := gen d;
              effective_generation := gen e; highest_accepted_generation := high s; policy_digest := digest d;
              snapshot_error := ""; features := fs |}.

(** ** The store *)
(** how [atomic_save] ended: nothing replaced; replaced, without the final
    confirmation; replaced and confirmed *)
Inductive save_outcome := SaveFailed (e : exn) | Unconfirmed | Saved.
Record PolicyIo := {
  lock_error : option exn; read_error : option exn; parent_error : option exn; save_result : save_outcome;
  reread_error : option exn
}.
Definition io_error (o : option exn) : result unit := match o with Some e => Throw e | None => Ok tt end.
(** a call: the file, and what the result says so far *)
Record Call := { c_file : option string; c_accepted : bool; c_changed : bool }.
Definition C (A : Type) : Type := Call -> result A * Call.
#[local] Instance C_bind : MBind C := fun A B k m c =>
  match m c with (Ok a, c) => k a c | (Throw e, c) => (Throw e, c) end.
Definition pure_c {A} (r : result A) : C A := fun c => (r, c).
Definition load_locked (io : PolicyIo) : C PolicyState := fun c =>
  (_ ← io_error (lock_error io); _ ← io_error (read_error io); load (c_file c), c).
Definition atomic_save (io : PolicyIo) (s : PolicyState) : C unit := fun c =>
  let replaced raw := {| c_file := Some raw; c_accepted := c_accepted c; c_changed := c_changed c |} in
  match (_ ← io_error (parent_error io); dump (state_json s)) with
  | Throw e => (Throw e, c)
  | Ok raw =>
      if 1024 * 1024 <? slen raw then (Throw (runtime_error "serialized state exceeds 1 MiB"), c)
      else match save_result io with
      | SaveFailed e => (Throw e, c)
      | Unconfirmed =>
          (Throw (runtime_error "state replacement is visible but final durability confirmation failed"), replaced raw)
      | Saved => (Ok tt, replaced raw)
      end
  end.
Definition mark (change : bool) : C unit := fun c =>
  (Ok tt, {| c_file := c_file c; c_accepted := true; c_changed := change || c_changed c |}).
(** the [try] and [catch] around every operation *)
Definition conclude (io : PolicyIo) (m : C Snapshot) (file : option string) : PolicyResult * option string :=
  let '(r, c) := m {| c_file := file; c_accepted := false; c_changed := false |} in
  let shown := match r with
    | Ok s => s
    | Throw e =>
        {| authorized := false; policy_expired := false; rolled_back := false; desired_generation := 0;
           effective_generation := 0;
           highest_accepted_generation :=
             match (_ ← io_error (reread_error io); load (c_file c)) with Ok s => high s | Throw _ => 0 end;
           policy_digest := ""; snapshot_error := what e; features := [] |}
    end in
  ({| accepted := c_accepted c; changed := c_changed c; snapshot := shown |}, c_file c).

(** whether [next] is the policy already accepted; throws when it may not replace it *)
Definition known_generation (trust : list TrustKey) (s : PolicyState) (next : Policy) (now : Z) : result bool :=
  if exists_ s then
    old ← verify (desired s) trust now false;
    _ ← throw_if (negb (gen old =? high s) || negb (String.eqb (digest old) (high_digest s)))
          (runtime_error "durable high-water record mismatch");
    _ ← throw_if (gen next <? high s) (runtime_error "replay refused: generation below high-water mark");
    if gen next =? high s then
      _ ← throw_if (negb (String.eqb (digest next) (high_digest s)))
            (runtime_error "fork refused: same generation has different signed content");
      Ok true
    else
      _ ← reject_weakening (doc old) (doc next);
      Ok false
  else Ok false.
Definition activate (trust : list TrustKey) (raw : string) (now : Z) (caps : list string) (io : PolicyIo)
  : option string -> PolicyResult * option string := conclude io (
  s ← load_locked io;
  next ← pure_c (verify raw trust now true);
  known ← pure_c (known_generation trust s next now);
  if (known : bool) then
    _ ← mark false;
    pure_c (snapshot_of s trust now caps)
  else
    let saved := {| exists_ := true; high := gen next; high_digest := digest next; desired := raw; effective := raw;
                    rollback_to := if exists_ s then effective s else ""; active := active s; rolled := false |} in
    _ ← atomic_save io saved;
    _ ← mark true;
    pure_c (snapshot_of saved trust now caps)).
Definition rollback (trust : list TrustKey) (now : Z) (caps : list string) (io : PolicyIo)
  : option string -> PolicyResult * option string := conclude io (
  s ← load_locked io;
  _ ← pure_c (throw_if (negb (exists_ s) || str_empty (rollback_to s))
                (runtime_error "no previous valid effective policy for rollback"));
  d ← pure_c (verify (desired s) trust now false);
  old ← pure_c (verify (rollback_to s) trust now true);
  cur ← pure_c (verify (effective s) trust now false);
  _ ← pure_c (throw_if (negb (gen d =? high s) || negb (String.eqb (digest d) (high_digest s)) || (gen cur <=? gen old))
                (runtime_error "rollback target or high-water state invalid"));
  _ ← pure_c (reject_weakening (doc cur) (doc old));
  _ ← pure_c (all_enabled (doc old) (active s)
                (runtime_error "rollback would deactivate an effective collection feature"));
  let swapped back := {| exists_ := true; high := high s; high_digest := high_digest s; desired := desired s;
    effective := rollback_to s; rollback_to := back; active := active s; rolled := true |} in
  _ ← atomic_save io (swapped (effective s));
  back ← pure_c (dump (envelope cur));
  _ ← mark true;
  pure_c (snapshot_of (swapped back) trust now caps)).
(** the loop over the reported features *)
Fixpoint confirmed (d e : json) (supported : list string) (actual seen : list string) : result (list string) :=
  match actual with
  | [] => Ok seen
  | n :: actual =>
      let unknown := runtime_error "effective feature list contains an unknown or duplicate name" in
      let refused := runtime_error "effective feature was not desired, supported, and authorized by both policy views" in
      if existsb (String.eqb n) kFeatures then
        match set_insert n seen with
        | None => Throw unknown
        | Some seen =>
            _ ← throw_if (negb (existsb (String.eqb n) supported)) refused;
            a ← feature d n; _ ← throw_if (negb a) refused;
            b ← feature e n; _ ← throw_if (negb b) refused;
            confirmed d e supported actual seen
        end
      else Throw unknown
  end.
Definition confirm_effective (trust : list TrustKey) (generation : Z) (actual : list string) (now : Z)
  (caps : list string) (io : PolicyIo) : option string -> PolicyResult * option string := conclude io (
  s ← load_locked io;
  _ ← pure_c (throw_if (negb (exists_ s)) (runtime_error "no authorized desired policy"));
  d ← pure_c (verify (desired s) trust now true);
  e ← pure_c (verify (effective s) trust now true);
  _ ← pure_c (throw_if (negb (gen d =? high s) || negb (String.eqb (digest d) (high_digest s))
                        || negb (generation =? high s))
                (runtime_error "effective confirmation generation is stale or inconsistent"));
  act ← pure_c (confirmed (doc d) (doc e) caps actual []);
  let s' := {| exists_ := true; high := high s; high_digest := high_digest s; desired := desired s;
               effective := effective s; rollback_to := rollback_to s; active := act; rolled := rolled s |} in
  _ ← atomic_save io s';
  _ ← mark true;
  pure_c (snapshot_of s' trust now caps)).
Definition current (trust : list TrustKey) (now : Z) (caps : list string) (io : PolicyIo) (file : option string)
  : Snapshot :=
  match (_ ← io_error (lock_error io); _ ← io_error (read_error io); s ← load file; snapshot_of s trust now caps) with
  | Ok s => s
  | Throw e => {| authorized := false; policy_expired := false; rolled_back := false; desired_generation := 0;
                  effective_generation := 0; highest_accepted_generation := 0; policy_digest := "";
                  snapshot_error := what e; features := [] |}
  end.
Definition make_policy_store (trust : list TrustKey) : result (list TrustKey) :=
  _ ← throw_if ((zlen trust =? 0) || (kMaximumTrustKeys <? zlen trust))
        (invalid_argument "trust set must contain 1..8 pinned keys");
  _ ← throw_if (negb (forallb (fun k => (slen (key_id k) =? 64) && negb (str_empty (subject_public_key_info_der k))
                                        && (slen (subject_public_key_info_der k) <=? 4096)) trust
                      && bool_decide (NoDup (key_id <$> trust))))
        (invalid_argument "invalid, duplicate, or oversized trust key");
  Ok trust.
End Store.
