(* ===== verification/PolicyFacts.v ===== *)
(** * What the policy store promises

    Over any run of activations, rollbacks and confirmations, whatever the file
    system answers, the accepted policy only moves forward and never weakens;
    and a feature is shown as effective only when both signed policies, the
    platform and the collectors agree. *)

From stdpp Require Import sorting.
From S2P Require Import Prelude Identity Json Policy.

(** ** Order of policies *)
Definition limit_grows (a b : json) (n : string) : Prop :=
  forall x, uint_field a n = Ok x -> exists y, uint_field b n = Ok y /\ x <= y.
Definition limit_shrinks (a b : json) (n : string) : Prop :=
  forall x, uint_field a n = Ok x -> exists y, uint_field b n = Ok y /\ y <= x.
(** [next] collects at least what [old] does *)
Record at_least (old next : json) : Prop := {
  al_features : forall n, n ∈ kFeatures -> feature old n = Ok true -> feature next n = Ok true;
  al_sampling : limit_grows (member "limits" old) (member "limits" next) "sampling_per_mille";
  al_interval : limit_shrinks (member "limits" old) (member "limits" next) "collection_interval_ms";
  al_batch : limit_grows (member "limits" old) (member "limits" next) "max_batch_events";
  al_payload : limit_grows (member "limits" old) (member "limits" next) "max_payload_bytes"
}.
#[global] Instance at_least_preorder : PreOrder at_least.
Proof.
  split.
  - intros a. constructor; try done; intros x Hx; exists x; (split; [done|lia]).
  - intros a b c [A1 A2 A3 A4 A5] [B1 B2 B3 B4 B5].
    constructor; [eauto|intros x Hx..].
    + destruct (A2 x Hx) as (y & Hy & ?). destruct (B2 y Hy) as (z & ? & ?). exists z. split; [done|lia].
    + destruct (A3 x Hx) as (y & Hy & ?). destruct (B3 y Hy) as (z & ? & ?). exists z. split; [done|lia].
    + destruct (A4 x Hx) as (y & Hy & ?). destruct (B4 y Hy) as (z & ? & ?). exists z. split; [done|lia].
    + destruct (A5 x Hx) as (y & Hy & ?). destruct (B5 y Hy) as (z & ? & ?). exists z. split; [done|lia].
Qed.
Lemma features_kept_spec old next names : features_kept old next names = Ok tt ->
  forall n, n ∈ names -> feature old n = Ok true -> feature next n = Ok true.
Proof.
  induction names as [|m names IH]; cbn [features_kept]; intros H n Hn Ho; [by apply not_elem_of_nil in Hn|].
  apply bind_Ok in H as (a & Ha & H). apply bind_Ok in H as (b & Hb & H). apply bind_Ok in H as (u & Hu & H).
  apply throw_if_Ok in Hu. apply elem_of_cons in Hn as [->|Hn]; [|by apply IH].
  rewrite Ho in Ha. injection Ha as <-. simpl in *. destruct b; [done|discriminate Hu].
Qed.
Lemma not_below_spec a b n : not_below a b n = Ok tt -> limit_grows a b n.
Proof.
  unfold not_below. intros H x Hx. apply bind_Ok in H as (y & Hy & H). apply bind_Ok in H as (x' & Hx' & H).
  apply throw_if_Ok in H. exists y. split; [done|]. rewrite Hx in Hx'. injection Hx' as <-. lia.
Qed.
Lemma not_above_spec a b n : not_above a b n = Ok tt -> limit_shrinks a b n.
Proof.
  unfold not_above. intros H x Hx. apply bind_Ok in H as (y & Hy & H). apply bind_Ok in H as (x' & Hx' & H).
  apply throw_if_Ok in H. exists y. split; [done|]. rewrite Hx in Hx'. injection Hx' as <-. lia.
Qed.
Lemma reject_weakening_spec old next : reject_weakening old next = Ok tt -> at_least old next.
Proof.
  unfold reject_weakening. intros H. apply bind_Ok in H as ([] & H1 & H). apply bind_Ok in H as ([] & H2 & H).
  apply bind_Ok in H as ([] & H3 & H). apply bind_Ok in H as ([] & H4 & H).
  constructor; [by apply features_kept_spec|by apply not_below_spec|by apply not_above_spec|by apply not_below_spec..].
Qed.

(** ** Feature sets *)
Lemma set_insert_sorted n l l' : StronglySorted key_lt l -> set_insert n l = Some l' ->
  StronglySorted key_lt l' /\ forall x, x ∈ l' <-> x = n \/ x ∈ l.
Proof.
  intros Hs. revert l'. induction Hs as [|m r Hs IH F]; cbn [set_insert]; intros l' H.
  - injection H as <-. split; [repeat constructor|]. set_solver.
  - destruct (String.compare n m) eqn:E; [done| |].
    + injection H as <-. split; [|set_solver]. constructor; [by constructor|]. constructor; [done|].
      eapply Forall_impl; [exact F|]. intros x Hx. exact (key_lt_trans _ _ _ E Hx).
    + destruct (set_insert n r) as [r'|]; [|done]. injection H as <-. destruct (IH r' eq_refl) as [Hr Hm].
      assert (Hmn : key_lt m n) by (unfold key_lt; rewrite String.compare_antisym, E; done).
      split; [|set_solver]. constructor; [done|]. apply Forall_forall. intros x Hx. apply Hm in Hx as [->|Hx]; [done|].
      rewrite Forall_forall in F. auto.
Qed.
Lemma set_insert_end n l : Forall (fun m => key_lt m n) l -> set_insert n l = Some (l ++ [n]).
Proof.
  induction 1 as [|m l Hm _ IH]; [done|]. cbn [set_insert]. rewrite String.compare_antisym, Hm. simpl. by rewrite IH.
Qed.
Definition feature_set (l : list string) : Prop := StronglySorted key_lt l /\ Forall (fun n => n ∈ kFeatures) l.
Lemma known_feature n : existsb (String.eqb n) kFeatures = true <-> n ∈ kFeatures.
Proof.
  rewrite existsb_exists, list_elem_of_In. split.
  - intros (x & Hx & E%String.eqb_eq). by subst.
  - intros H. exists n. by rewrite String.eqb_refl.
Qed.
Lemma feature_set_insert n l l' : feature_set l -> n ∈ kFeatures -> set_insert n l = Some l' -> feature_set l'.
Proof.
  intros [Hs Hf] Hn H. apply (set_insert_sorted _ _ _ Hs) in H as [Hs' Hm]. split; [done|].
  rewrite Forall_forall in *. intros x Hx. apply Hm in Hx as [->|Hx]; auto.
Qed.
Lemma active_names_set l seen a : feature_set seen -> active_names l seen = Ok a -> feature_set a.
Proof.
  revert seen. induction l as [|j l IH]; cbn [active_names]; intros seen Hs H; [by injection H as <-|].
  destruct j; try done. destruct (existsb _ _) eqn:E; [|done]. destruct (set_insert s seen) as [seen'|] eqn:Ei; [|done].
  apply known_feature in E. eapply IH; [|exact H]. by eapply feature_set_insert.
Qed.
Lemma active_names_id l seen : feature_set (seen ++ l) -> active_names (JStr <$> l) seen = Ok (seen ++ l).
Proof.
  revert seen. induction l as [|n l IH]; cbn [fmap list_fmap active_names]; intros seen [Hs Hf]; [by rewrite app_nil_r|].
  assert (n ∈ kFeatures) as Hn%known_feature by (rewrite Forall_forall in Hf; apply Hf; set_solver).
  rewrite Hn, set_insert_end.
  - rewrite (IH (seen ++ [n])) by by rewrite <- app_assoc. by rewrite <- app_assoc.
  - clear -Hs. induction seen as [|m seen IH]; [constructor|]. apply StronglySorted_inv in Hs as [Hs F].
    constructor; [|by apply IH]. rewrite Forall_forall in F. apply F. set_solver.
Qed.
Lemma all_enabled_spec d names refusal : all_enabled d names refusal = Ok tt ->
  forall n, n ∈ names -> feature d n = Ok true.
Proof.
  induction names as [|m names IH]; cbn [all_enabled]; intros H n Hn; [by apply not_elem_of_nil in Hn|].
  apply bind_Ok in H as (b & Hb & H). apply bind_Ok in H as (u & Hu & H). apply throw_if_Ok in Hu.
  apply negb_false_iff in Hu. subst b. apply elem_of_cons in Hn as [->|Hn]; [done|by apply IH].
Qed.
Lemma confirmed_desired d e caps actual seen a : feature_set seen -> confirmed d e caps actual seen = Ok a ->
  forall n, n ∈ a -> n ∈ seen \/ feature d n = Ok true.
Proof.
  revert seen. induction actual as [|m actual IH]; cbn [confirmed]; intros seen Hs H n Hn; [injection H as <-; by left|].
  destruct (existsb _ _) eqn:E; [|done]. destruct (set_insert m seen) as [seen'|] eqn:Ei; [|done].
  apply bind_Ok in H as (? & _ & H). apply bind_Ok in H as (b & Hb & H). apply bind_Ok in H as (? & Hu & H).
  do 2 apply bind_Ok in H as (? & _ & H). apply throw_if_Ok in Hu. apply negb_false_iff in Hu. subst b.
  apply known_feature in E. apply (IH seen') in Hn; [|by eapply feature_set_insert|done].
  destruct Hn as [Hn|Hn]; [|by right]. apply (set_insert_sorted _ _ _ (proj1 Hs)) in Ei as [_ Hm].
  apply Hm in Hn as [->|Hn]; [by right|by left].
Qed.
Lemma confirmed_set d e caps actual seen a : feature_set seen -> confirmed d e caps actual seen = Ok a -> feature_set a.
Proof.
  revert seen. induction actual as [|n actual IH]; cbn [confirmed]; intros seen Hs H; [by injection H as <-|].
  destruct (existsb _ _) eqn:E; [|done]. destruct (set_insert n seen) as [seen'|] eqn:Ei; [|done].
  apply bind_Ok in H as (? & _ & H). apply bind_Ok in H as (? & _ & H). apply bind_Ok in H as (? & _ & H).
  apply bind_Ok in H as (? & _ & H). apply bind_Ok in H as (? & _ & H).
  apply known_feature in E. eapply IH; [|exact H]. by eapply feature_set_insert.
Qed.

(** ** The state file *)
Section Runs.
Context (cng_sha256 : string -> string + list Z).
Context (json_parse : string -> result json) (dump : json -> result string).
Context (base64_decode : string -> option string) (spki_algorithm : string -> option (option string)).
Context (Key : Type) (import_key : string -> option (Key * option string)).
Context (verify_signature : Key -> list Z -> string -> bool).
Context (trust : list TrustKey).
(** a digest has 32 bytes; the printed state reads back *)
Context (digest_size : forall input d, cng_sha256 input = inr d -> zlen d = 32).
Context (state_reparses : forall s t, dump (state_json s) = Ok t -> t <> "" /\ json_parse t = Ok (state_json s)).

Abbreviation authenticate := (Policy.authenticate cng_sha256 json_parse base64_decode spki_algorithm Key import_key
  verify_signature).
Abbreviation verify := (Policy.verify cng_sha256 json_parse base64_decode spki_algorithm Key import_key verify_signature).
Abbreviation load := (Policy.load json_parse).

Record state_ok (s : PolicyState) : Prop := {
  so_exists : exists_ s = true; so_high : 0 < high s <= u64_max; so_digest : slen (high_digest s) = 64;
  so_desired : desired s <> ""; so_effective : effective s <> ""; so_active : feature_set (active s)
}.
Lemma str_empty_false s : str_empty s = false <-> s <> "".
Proof. by destruct s. Qed.
Lemma load_state_ok file s : load file = Ok s -> s = no_state /\ file = None \/ state_ok s.
Proof.
  destruct file as [raw|]; cbn [Policy.load]; intros H; [|left; by injection H]. right.
  apply bind_Ok in H as (u & _ & H). apply bind_Ok in H as (j & _ & H). apply bind_Ok in H as (u2 & _ & H).
  apply bind_Ok in H as (h & Hh & H). apply bind_Ok in H as (dg & _ & H). apply bind_Ok in H as (d & _ & H).
  apply bind_Ok in H as (e & _ & H). apply bind_Ok in H as (r & _ & H). apply bind_Ok in H as (b & _ & H).
  apply bind_Ok in H as (a & Ha & H). apply bind_Ok in H as (u3 & Hu & H). apply throw_if_Ok in Hu.
  apply Ok_inj in H. subst s. rewrite !orb_false_iff in Hu. destruct Hu as [[[H1 H2] H3] H4].
  assert (Hr : 0 <= h <= u64_max).
  { unfold uint_field in Hh. destruct (find _ j) as [[]|]; try done. apply Ok_inj in Hh. subst h. apply u64_range. }
  constructor; cbn; try (by apply str_empty_false); try done; try lia.
  eapply active_names_set; [|exact Ha]. split; constructor.
Qed.
Lemma load_saved s raw : state_ok s -> dump (state_json s) = Ok raw -> slen raw <= 1024 * 1024 ->
  load (Some raw) = Ok s.
Proof.
  intros [H1 H2 H3 H4 H5 H6] Hd Hl. apply state_reparses in Hd as [Hne Hp]. cbn [Policy.load].
  apply str_empty_false in Hne. rewrite Hne. cbn [orb]. rewrite (proj2 (Z.ltb_ge _ _)) by lia.
  cbn [throw_if mbind result_bind]. rewrite Hp. cbn [mbind result_bind].
  change (keys_are (state_json s) state_keys) with true. change (member "format" (state_json s)) with (JStr "panopticon_policy_state_v2").
  rewrite is_text_refl.
  change (member "highest_digest" (state_json s)) with (JStr (high_digest s)).
  change (member "desired_envelope" (state_json s)) with (JStr (desired s)).
  change (member "effective_envelope" (state_json s)) with (JStr (effective s)).
  change (member "rollback_envelope" (state_json s)) with (JStr (rollback_to s)).
  change (member "effective_features" (state_json s)) with (JArr (JStr <$> active s)).
  change (member "rolled_back" (state_json s)) with (JBool (rolled s)).
  change (uint_field (state_json s) "highest_generation") with (Ok (u64 (high s))).
  cbn [is_string is_array is_boolean negb orb throw_if mbind result_bind get_string get_bool].
  rewrite u64_small by lia. rewrite (active_names_id (active s) []) by done. cbn [mbind result_bind app].
  apply str_empty_false in H4, H5. rewrite H4, H5, H3, (proj2 (Z.eqb_neq _ _)) by lia. cbn. destruct s; simpl in *. by subst.
Qed.
Lemma authenticate_facts raw p : authenticate raw trust = Ok p ->
  raw <> "" /\ 0 < gen p <= u64_max /\ slen (digest p) = 64.
Proof.
  unfold Policy.authenticate. intros H. apply bind_Ok in H as (u & Hu & H). apply throw_if_Ok in Hu.
  do 6 apply bind_Ok in H as (? & _ & H). apply bind_Ok in H as (key & _ & H).
  apply bind_Ok in H as (d & Hd & H). do 5 apply bind_Ok in H as (? & _ & H). apply bind_Ok in H as (? & _ & H).
  apply bind_Ok in H as (g & Hg & H). do 2 apply bind_Ok in H as (? & _ & H). apply bind_Ok in H as (u2 & Hu2 & H).
  apply throw_if_Ok in Hu2. apply Ok_inj in H. subst p. cbn. rewrite !orb_false_iff in Hu. rewrite !orb_false_iff in Hu2.
  assert (Hr : 0 <= g <= u64_max).
  { unfold uint_field in Hg. destruct (find _ _) as [[]|]; try done. apply Ok_inj in Hg. subst g. apply u64_range. }
  destruct Hu as [Hu _], Hu2 as [[[Hu2 _] _] _]. apply Z.eqb_neq in Hu2.
  split_and!; [by apply str_empty_false|lia|lia|].
  unfold sha in Hd. destruct (cng_sha256 _) as [|d'] eqn:E; [done|]. injection Hd as <-. apply digest_size in E.
  clear -E. assert (Hx : forall l, slen (hex_bytes l) = 2 * zlen l).
  { intros l. induction l as [|b l IH]; [done|]. simpl. rewrite !slen_cons, IH. unfold zlen. simpl. lia. }
  rewrite Hx, E. lia.
Qed.
Lemma verify_authentic raw now check p : verify raw trust now check = Ok p -> authenticate raw trust = Ok p.
Proof.
  unfold Policy.verify. intros H. apply bind_Ok in H as (q & Hq & H). do 2 apply bind_Ok in H as (? & _ & H).
  by injection H as <-.
Qed.

(** ** One operation *)
Abbreviation do_activate := (activate cng_sha256 json_parse dump base64_decode spki_algorithm Key import_key
  verify_signature trust).
Abbreviation do_rollback := (rollback cng_sha256 json_parse dump base64_decode spki_algorithm Key import_key
  verify_signature trust).
Abbreviation do_confirm := (confirm_effective cng_sha256 json_parse dump base64_decode spki_algorithm Key import_key
  verify_signature trust).

#[local] Existing Instance C_bind.
Lemma C_bind_inv {A B} (m : C A) (k : A -> C B) c r c' : (m ≫= k) c = (r, c') ->
  (exists a c1, m c = (Ok a, c1) /\ k a c1 = (r, c')) \/ (exists e, m c = (Throw e, c') /\ r = Throw e).
Proof. unfold mbind, C_bind. destruct (m c) as [[a|e] c1]; [eauto|]. intros [= <- <-]. eauto. Qed.
Lemma conclude_file io m file : (conclude json_parse io m file).2 =
  c_file (m {| c_file := file; c_accepted := false; c_changed := false |}).2.
Proof. unfold conclude. by destruct (m _) as [r c]. Qed.
(** what a call may do to the file: nothing, or replace it with a saved state *)
Definition replaced (file file' : option string) (ok : PolicyState -> Prop) : Prop :=
  file' = file \/ exists s raw, ok s /\ dump (state_json s) = Ok raw /\ slen raw <= 1024 * 1024 /\ file' = Some raw.
Lemma atomic_save_file io s c r c' : atomic_save dump io s c = (r, c') ->
  replaced (c_file c) (c_file c') (fun s' => s' = s).
Proof.
  unfold atomic_save. destruct (io_error (parent_error io)) as [u|e]; [|intros [= _ <-]; by left].
  cbn [mbind result_bind]. destruct (dump (state_json s)) as [raw|e] eqn:E; [|intros [= _ <-]; by left].
  destruct (Z.ltb_spec (1024 * 1024) (slen raw)); [intros [= _ <-]; by left|].
  destruct (save_result io); intros [= _ <-]; [by left|right; by exists s, raw..].
Qed.
Lemma replaced_impl file file' (P Q : PolicyState -> Prop) :
  replaced file file' P -> (forall s, P s -> Q s) -> replaced file file' Q.
Proof. intros [->|(s & raw & HP & Hd)] HPQ; [by left|right; exists s, raw; auto]. Qed.

(** invert one step of a call whose file is still the old one *)
Ltac c_step H := apply C_bind_inv in H; let H' := fresh "Hnext" in
  destruct H as [(?a & ?c1 & ?Hm & H')|(?e & ?Hm & ?Hr)]; [rename H' into H|].
(** a step that does not touch the file *)
Ltac c_pure H := c_step H;
  match goal with Hm : pure_c _ _ = (_, _) |- _ =>
    unfold pure_c in Hm; injection Hm as ?Hp <- end; [|by left].

Lemma save_then {A} io s (k : unit -> C A) c r c' :
  (forall u c1, c_file (k u c1).2 = c_file c1) -> (atomic_save dump io s ≫= k) c = (r, c') ->
  replaced (c_file c) (c_file c') (fun s' => s' = s).
Proof.
  intros Hk H. c_step H.
  - apply atomic_save_file in Hm. pose proof (Hk a c1) as E. rewrite H in E. simpl in E. by rewrite E.
  - by eapply atomic_save_file.
Qed.
Lemma known_generation_new s next now : Policy.known_generation cng_sha256 json_parse base64_decode spki_algorithm Key
    import_key verify_signature trust s next now = Ok false -> exists_ s = true ->
  exists old, authenticate (desired s) trust = Ok old /\ high s < gen next /\ at_least (doc old) (doc next).
Proof.
  unfold known_generation. intros H He. rewrite He in H. apply bind_Ok in H as (old & Ho%verify_authentic & H).
  apply bind_Ok in H as (? & _ & H). apply bind_Ok in H as (? & Hlow & H). apply throw_if_Ok in Hlow.
  destruct (gen next =? high s) eqn:E.
  - apply bind_Ok in H as (? & _ & H). done.
  - apply bind_Ok in H as ([] & Hw%reject_weakening_spec & _). exists old. split_and!; [done|lia|done].
Qed.
(** the locked load of a call *)
Lemma load_locked_inv io c r c' s : load (c_file c) = Ok s -> load_locked json_parse io c = (r, c') ->
  c' = c /\ (r = Ok s \/ exists e, r = Throw e).
Proof.
  unfold load_locked. intros Hl [= <- <-]. split; [done|].
  destruct (lock_error io); [right; by eexists|]. destruct (read_error io); [right; by eexists|]. left. exact Hl.
Qed.
Ltac c_load H Hl := c_step H;
  match goal with Hm : load_locked _ _ _ = _ |- _ => apply (load_locked_inv _ _ _ _ _ Hl) in Hm as [-> [?Hs|[? ?Hs]]] end;
  try discriminate; [|by left..];
  match goal with Hs : Ok _ = Ok _ |- _ => injection Hs as -> | _ => idtac end.
Lemma activate_file raw now caps io file s : load file = Ok s ->
  replaced file (do_activate raw now caps io file).2 (fun s' => exists next,
    authenticate raw trust = Ok next /\ desired s' = raw /\ effective s' = raw /\ high s' = gen next /\
    high_digest s' = digest next /\ active s' = active s /\ exists_ s' = true /\
    rollback_to s' = (if exists_ s then effective s else "") /\
    (exists_ s = true -> exists old, authenticate (desired s) trust = Ok old /\ high s < gen next /\
       at_least (doc old) (doc next))).
Proof.
  intros Hl. unfold activate. rewrite conclude_file.
  match goal with |- replaced _ (c_file (?m ?c0).2) _ => destruct (m c0) as [r c] eqn:H; change file with (c_file c0) in Hl |- *;
    set (c0' := c0) in * end.
  cbn [snd]. c_load H Hl. c_pure H. rename a into next. apply verify_authentic in Hp. c_pure H. rename Hp0 into Hk.
  destruct a; [c_step H; [|by left]; injection Hm as <- <-; injection H as _ <-; by left|].
  eapply replaced_impl; [eapply save_then; [|exact H]; done|].
  intros s' ->. exists next. split_and!; try done. by apply (known_generation_new s next now).
Qed.
Lemma rollback_file now caps io file s : load file = Ok s ->
  replaced file (do_rollback now caps io file).2 (fun s' =>
    desired s' = desired s /\ high s' = high s /\ high_digest s' = high_digest s /\ active s' = active s /\
    exists_ s' = true /\ exists_ s = true /\ effective s' = rollback_to s /\ rollback_to s' = effective s /\
    (forall old, authenticate (rollback_to s) trust = Ok old -> forall n, n ∈ active s -> feature (doc old) n = Ok true) /\
    exists cur old, authenticate (effective s) trust = Ok cur /\ authenticate (effective s') trust = Ok old /\
      gen old < gen cur /\ at_least (doc cur) (doc old)).
Proof.
  intros Hl. unfold rollback. rewrite conclude_file.
  match goal with |- replaced _ (c_file (?m ?c0).2) _ => destruct (m c0) as [r c] eqn:H; change file with (c_file c0) in Hl |- *;
    set (c0' := c0) in * end.
  cbn [snd]. c_load H Hl. c_pure H. c_pure H. c_pure H. c_pure H. c_pure H. c_pure H. c_pure H.
  eapply replaced_impl; [eapply save_then; [|exact H]|].
  { intros u c1. unfold mbind, C_bind, pure_c. by destruct (dump _). }
  apply throw_if_Ok in Hp, Hp3. apply orb_false_iff in Hp as [Hp%negb_false_iff _].
  apply orb_false_iff in Hp3 as [_ Hg]. destruct a4. apply reject_weakening_spec in Hp4.
  intros s' ->. cbn. split_and!; try done.
  { intros old Ho. apply verify_authentic in Hp1. destruct a5. rewrite Ho in Hp1. injection Hp1 as ->. by eapply all_enabled_spec. }
  exists a2, a1. split_and!; [by eapply verify_authentic..|lia|done].
Qed.
Lemma confirm_file generation actual now caps io file s : load file = Ok s ->
  replaced file (do_confirm generation actual now caps io file).2 (fun s' =>
    desired s' = desired s /\ high s' = high s /\ high_digest s' = high_digest s /\ exists_ s' = true /\
    exists_ s = true /\ effective s' = effective s /\ rollback_to s' = rollback_to s /\ feature_set (active s') /\
    exists d, authenticate (desired s) trust = Ok d /\ forall n, n ∈ active s' -> feature (doc d) n = Ok true).
Proof.
  intros Hl. unfold confirm_effective. rewrite conclude_file.
  match goal with |- replaced _ (c_file (?m ?c0).2) _ => destruct (m c0) as [r c] eqn:H; change file with (c_file c0) in Hl |- *;
    set (c0' := c0) in * end.
  cbn [snd]. c_load H Hl. c_pure H. c_pure H. c_pure H. c_pure H. c_pure H.
  eapply replaced_impl; [eapply save_then; [|exact H]; done|].
  apply throw_if_Ok in Hp. apply negb_false_iff in Hp. intros s' ->. cbn. split_and!; try done.
  - eapply confirmed_set; [|done]. split; constructor.
  - exists a0. split; [by eapply verify_authentic|]. intros n Hn.
    eapply confirmed_desired in Hn; [|split; constructor|done]. by destruct Hn as [Hn|Hn]; [apply not_elem_of_nil in Hn|].
Qed.

(** ** Runs *)
Inductive policy_op :=
| Activate (raw : string) (now : Z) (caps : list string) (io : PolicyIo)
| Rollback (now : Z) (caps : list string) (io : PolicyIo)
| Confirm (generation : Z) (actual : list string) (now : Z) (caps : list string) (io : PolicyIo).
Definition policy_step (file : option string) (o : policy_op) : option string :=
  match o with
  | Activate raw now caps io => (do_activate raw now caps io file).2
  | Rollback now caps io => (do_rollback now caps io file).2
  | Confirm generation actual now caps io => (do_confirm generation actual now caps io file).2
  end.
Definition policy_run (ops : list policy_op) (file : option string) : option string := foldl policy_step file ops.

(** what a later state keeps of an earlier one *)
Record keeps (s s' : PolicyState) : Prop := {
  k_exists : exists_ s = true -> exists_ s' = true;
  k_high : high s <= high s';
  k_same : exists_ s = true -> high s' = high s -> high_digest s' = high_digest s /\ desired s' = desired s;
  k_doc : forall p, exists_ s = true -> authenticate (desired s) trust = Ok p ->
    exists p', authenticate (desired s') trust = Ok p' /\ at_least (doc p) (doc p')
}.
#[local] Instance keeps_preorder : PreOrder keeps.
Proof.
  split.
  - intros s. constructor; try done. intros p _ Hp. by exists p.
  - intros a b c [A1 A2 A3 A4] [B1 B2 B3 B4]. constructor; [auto|lia| |].
    + intros He Hh. destruct (A3 He ltac:(lia)) as [<- <-]. apply B3; [auto|lia].
    + intros p He Hp. destruct (A4 p He Hp) as (q & Hq & ?). destruct (B4 q (A1 He) Hq) as (r & Hr & ?).
      exists r. split; [done|]. by transitivity (doc q).
Qed.
(** the policies of a state that the store wrote *)
Record coherent (s : PolicyState) (d e : Policy) : Prop := {
  co_desired : authenticate (desired s) trust = Ok d;
  co_effective : authenticate (effective s) trust = Ok e;
  co_high : gen d = high s /\ digest d = high_digest s;
  co_order : gen e <= gen d;
  co_equal : at_least (doc d) (doc e) /\ at_least (doc e) (doc d);
  co_active : forall n, n ∈ active s -> feature (doc d) n = Ok true /\ feature (doc e) n = Ok true;
  co_back : rollback_to s = "" \/ exists r, authenticate (rollback_to s) trust = Ok r /\ at_least (doc r) (doc d)
}.
Definition policy_inv (s : PolicyState) : Prop := s = no_state \/ exists d e, coherent s d e.

Lemma step_loads file s file' (ok : PolicyState -> Prop) : load file = Ok s -> replaced file file' ok ->
  (forall s', ok s' -> state_ok s' /\ keeps s s' /\ (policy_inv s -> policy_inv s')) ->
  exists s', load file' = Ok s' /\ keeps s s' /\ (policy_inv s -> policy_inv s').
Proof.
  intros Hl [->|(s' & raw & Hok & Hd & Hlen & ->)] H.
  - exists s. split_and!; done.
  - destruct (H s' Hok) as (Hs & Hk & Hi). exists s'. split_and!; try done. by apply load_saved.
Qed.
Lemma loaded_active file s : load file = Ok s -> feature_set (active s).
Proof. intros [[-> _]|H]%load_state_ok; [split; constructor|apply H]. Qed.
Lemma activate_step raw now caps io file s : load file = Ok s ->
  exists s', load (do_activate raw now caps io file).2 = Ok s' /\ keeps s s' /\ (policy_inv s -> policy_inv s').
Proof.
  intros Hl. eapply step_loads; [done|by apply activate_file|].
  intros s' (next & Hn & Hd & He & Hh & Hg & Ha & Hx & Hback & Hold).
  destruct (authenticate_facts raw next Hn) as (Hne & Hr & Hlen). pose proof (loaded_active _ _ Hl) as Hact.
  split_and!.
  - constructor; rewrite ?Hd, ?He, ?Hh, ?Hg, ?Ha; try done.
  - destruct (load_state_ok _ _ Hl) as [[-> _]|Hs].
    + constructor; try done. simpl. lia.
    + destruct (Hold (so_exists _ Hs)) as (old & Ho & Hlt & Hw). constructor; [done|lia|lia|].
      intros p _ Hp. rewrite Ho in Hp. injection Hp as <-. exists next. by rewrite Hd.
  - intros Hi. right. exists next, next. destruct (load_state_ok _ _ Hl) as [[-> _]|Hs].
    + constructor; rewrite ?Hd, ?He, ?Hh, ?Hg, ?Ha, ?Hback; try done; [|by left].
      intros n Hin. by apply not_elem_of_nil in Hin.
    + destruct Hi as [->|(d & e & [D E _ _ [DE ED] Hf _])]; [by destruct Hs|].
      destruct (Hold (so_exists _ Hs)) as (old & Ho & Hlt & Hw). rewrite D in Ho. injection Ho as <-.
      rewrite (so_exists _ Hs) in Hback.
      constructor; rewrite ?Hd, ?He, ?Hh, ?Hg, ?Ha, ?Hback; try done.
      * intros n Hin. assert (n ∈ kFeatures) by (destruct Hact as [_ F]; rewrite Forall_forall in F; auto).
        split; eapply (al_features _ _ Hw); try done; apply Hf, Hin.
      * right. exists e. split; [done|]. by transitivity (doc d).
Qed.
Lemma rollback_step now caps io file s : load file = Ok s ->
  exists s', load (do_rollback now caps io file).2 = Ok s' /\ keeps s s' /\ (policy_inv s -> policy_inv s').
Proof.
  intros Hl. eapply step_loads; [done|by apply rollback_file|].
  intros s' (Hd & Hh & Hg & Ha & Hx & Hx' & He & Hback & Hold & cur & old & Hc & Ho & Hlt & Hw).
  pose proof (loaded_active _ _ Hl) as Hact. destruct (authenticate_facts _ _ Ho) as (Hne & _ & _).
  destruct (load_state_ok _ _ Hl) as [[-> _]|Hs]; [done|]. split_and!.
  - constructor; rewrite ?Hd, ?Hh, ?Hg, ?Ha; try done; apply Hs.
  - constructor; rewrite ?Hh, ?Hg, ?Hd; try done. intros p _ Hp. by exists p.
  - intros [->|(d & e & [D E [Gh Gd] G [DE ED] Hf Hb])]; [done|]. right. exists d, old.
    rewrite E in Hc. injection Hc as ->.
    rewrite He in Ho. destruct Hb as [Hb|(r & Hr & Hrd)]; [by rewrite He, Hb in Hne|].
    rewrite Hr in Ho. injection Ho as ->.
    constructor; rewrite ?Hd, ?Hh, ?Hg, ?Ha, ?He, ?Hback; try done; [lia| | |].
    + split; [by transitivity (doc cur)|done].
    + intros n Hin. split; [by apply Hf|by apply Hold].
    + right. by exists cur.
Qed.
Lemma confirm_step generation actual now caps io file s : load file = Ok s ->
  exists s', load (do_confirm generation actual now caps io file).2 = Ok s' /\ keeps s s' /\ (policy_inv s -> policy_inv s').
Proof.
  intros Hl. eapply step_loads; [done|by apply confirm_file|].
  intros s' (Hd & Hh & Hg & Hx & Hx' & He & Hback & Hact & d' & Hd' & Hen).
  destruct (load_state_ok _ _ Hl) as [[-> _]|Hs]; [done|]. split_and!.
  - constructor; rewrite ?Hd, ?Hh, ?Hg, ?He; try done; apply Hs.
  - constructor; rewrite ?Hh, ?Hg, ?Hd; try done. intros p _ Hp. by exists p.
  - intros [->|(d & e & [D E G1 G [DE ED] Hf Hb])]; [done|]. right. exists d, e.
    rewrite D in Hd'. injection Hd' as <-.
    constructor; rewrite ?Hd, ?Hh, ?Hg, ?He, ?Hback; try done.
    intros n Hin. split; [by apply Hen|]. eapply (al_features _ _ DE); [|by apply Hen].
    destruct Hact as [_ F]. rewrite Forall_forall in F. auto.
Qed.
Lemma policy_step_ok o file s : load file = Ok s ->
  exists s', load (policy_step file o) = Ok s' /\ keeps s s' /\ (policy_inv s -> policy_inv s').
Proof. destruct o; [apply activate_step|apply rollback_step|apply confirm_step]. Qed.
Lemma policy_run_ok ops file s : load file = Ok s ->
  exists s', load (policy_run ops file) = Ok s' /\ keeps s s' /\ (policy_inv s -> policy_inv s').
Proof.
  revert file s. induction ops as [|o ops IH]; intros file s Hl; [by exists s|].
  destruct (policy_step_ok o _ _ Hl) as (s1 & H1 & K1 & I1). destruct (IH _ _ H1) as (s2 & H2 & K2 & I2).
  exists s2. split_and!; [done|by transitivity s1|auto].
Qed.

(** ** What is shown *)
Lemma statuses_effective d e act caps fs f : statuses d e act caps = Ok fs -> f ∈ fs -> f_effective f = true ->
  feature d (f_name f) = Ok true /\ f_name f ∈ caps /\ f_name f ∈ act /\
  exists e', e = Some e' /\ feature e' (f_name f) = Ok true.
Proof.
  unfold statuses. revert fs. induction kFeatures as [|n names IH]; cbn [foldr]; intros fs H Hf He.
  { injection H as <-. by apply not_elem_of_nil in Hf. }
  apply bind_Ok in H as (g & Hg & H). apply bind_Ok in H as (gs & Hgs & [= <-]).
  apply elem_of_cons in Hf as [->|Hf]; [|by apply (IH gs)]. clear IH Hgs.
  unfold feature_state in Hg. apply bind_Ok in Hg as (b & Hb & Hg). apply bind_Ok in Hg as (x & Hx & Hg).
  apply Ok_inj in Hg. subst g. cbn in *. subst x. destruct e as [e|]; [|done].
  destruct b; [|done]. destruct (existsb _ caps) eqn:E1; [|done]. destruct (existsb _ act) eqn:E2; [|done].
  apply existsb_exists in E1 as (x & Hx1 & <-%String.eqb_eq). apply existsb_exists in E2 as (y & Hy1 & <-%String.eqb_eq).
  rewrite !list_elem_of_In. split_and!; try done. by exists e.
Qed.
Lemma as_expired_off only (fs : list FeatureState) f : f ∈ as_expired only <$> fs -> f_effective f = false.
Proof. intros (g & -> & _)%list_elem_of_fmap. done. Qed.
Lemma verify_unexpired raw now p : verify raw trust now false = Ok p -> now < expires p ->
  verify raw trust now true = Ok p.
Proof.
  unfold Policy.verify. intros H Hn. apply bind_Ok in H as (q & Hq & H). apply bind_Ok in H as (u & Hu & H).
  injection H as ->. rewrite Hq. cbn [mbind result_bind]. rewrite Hu. cbn [mbind result_bind andb].
  by rewrite (proj2 (Z.leb_gt _ _)).
Qed.
Lemma snapshot_effective s now caps o f :
  snapshot_of cng_sha256 json_parse base64_decode spki_algorithm Key import_key verify_signature s trust now caps = Ok o ->
  f ∈ features o -> f_effective f = true ->
  authorized o = true /\ f_name f ∈ caps /\ f_name f ∈ active s /\
  exists d e, verify (desired s) trust now true = Ok d /\ verify (effective s) trust now true = Ok e /\
    gen d = high s /\ digest d = high_digest s /\ gen e <= gen d /\
    feature (doc d) (f_name f) = Ok true /\ feature (doc e) (f_name f) = Ok true.
Proof.
  unfold snapshot_of. intros H Hf He. destruct (negb (exists_ s)).
  { apply Ok_inj in H. subst o. cbn [features] in Hf. apply list_elem_of_fmap in Hf as (n & -> & _). done. }
  apply bind_Ok in H as (d & Hd & H). apply bind_Ok in H as (u & Hu & H). apply throw_if_Ok in Hu.
  apply orb_false_iff in Hu as [Hg%negb_false_iff%Z.eqb_eq Hdg%negb_false_iff%String.eqb_eq].
  destruct (Z.leb_spec (expires d) now) as [|Hx].
  { apply bind_Ok in H as (fs & _ & H). apply Ok_inj in H. subst o. apply as_expired_off in Hf. congruence. }
  apply bind_Ok in H as (e & He' & H). apply bind_Ok in H as (u2 & Hu2 & H). apply throw_if_Ok in Hu2.
  apply bind_Ok in H as (u3 & _ & H). destruct (Z.leb_spec (expires e) now) as [|Hx'].
  { apply bind_Ok in H as (fs & _ & H). apply Ok_inj in H. subst o. apply as_expired_off in Hf. congruence. }
  apply bind_Ok in H as (fs & Hfs & H). apply Ok_inj in H. subst o. cbn in *.
  destruct (statuses_effective _ _ _ _ _ _ Hfs Hf He) as (F1 & F2 & F3 & e' & [= <-] & F4).
  split_and!; try done. exists d, e. split_and!; try done; [by apply verify_unexpired..|lia].
Qed.

(** C27: over any sequence of activations, rollbacks and confirmations, with
    whatever outcome of each lock, read and save, a readable state stays
    readable, the highest accepted generation never falls, a generation keeps
    the content it was accepted with, and the accepted policy collects at least
    what it did before: no feature is switched off, no sampling or ceiling
    lowered, no interval made longer. *)
Theorem policy_never_weakens ops file s : load file = Ok s ->
  exists s', load (policy_run ops file) = Ok s' /\ keeps s s'.
Proof. intros Hl. destruct (policy_run_ok ops _ _ Hl) as (s' & ? & ? & _). by exists s'. Qed.

(** C28: over any run from no state file, the state that is read back is
    coherent: the accepted and the effective policy carry valid signatures, the
    accepted one is the high-water mark, the effective one is not newer and
    collects exactly as much, every feature recorded as active is enabled in
    both, and what a rollback would install is signed and not stronger. *)
Theorem effective_matches_desired ops : exists s, load (policy_run ops None) = Ok s /\ policy_inv s.
Proof.
  destruct (policy_run_ok ops None no_state eq_refl) as (s & H & _ & Hi). exists s. split; [done|]. apply Hi. by left.
Qed.

(** a feature is shown as effective only if the state file names it as
    active, the platform supports it, and the accepted policy and the effective
    one both verify, have not expired and enable it. *)
Theorem effective_feature_authorized now caps io file f :
  let o := current cng_sha256 json_parse base64_decode spki_algorithm Key import_key verify_signature trust now caps io file in
  f ∈ features o -> f_effective f = true ->
  authorized o = true /\ f_name f ∈ caps /\
  exists s d e, load file = Ok s /\ f_name f ∈ active s /\
    verify (desired s) trust now true = Ok d /\ verify (effective s) trust now true = Ok e /\
    gen d = high s /\ digest d = high_digest s /\ gen e <= gen d /\
    feature (doc d) (f_name f) = Ok true /\ feature (doc e) (f_name f) = Ok true.
Proof.
  intros o. unfold o, current. clear o. destruct (io_error (lock_error io)) as [u|]; [|intros Hf; by apply not_elem_of_nil in Hf].
  destruct (io_error (read_error io)) as [u'|]; [|intros Hf; by apply not_elem_of_nil in Hf]. cbn [mbind result_bind].
  destruct (load file) as [s|]; [|intros Hf; by apply not_elem_of_nil in Hf]. cbn [mbind result_bind].
  match goal with |- context [match ?x with Ok _ => _ | Throw _ => _ end] => destruct x as [o|] eqn:E end;
    [|intros Hf; by apply not_elem_of_nil in Hf].
  intros Hf He. destruct (snapshot_effective _ _ _ _ _ E Hf He) as (A & B & C' & d & e & R).
  split_and!; try done. exists s, d, e. tauto.
Qed.
End Runs.

(** C39: the duplicate-key guard that scans every envelope and payload ends on
    every text, whatever the JSON library answers for the string tokens. *)
Theorem policy_guard_terminates json_parse text : exists r, validate json_parse text = Some r.
Proof. apply validate_ends. Qed.

(** ** A concrete store *)
Module PolicyExample.
Definition features_of (on : list string) : json :=
  object ((fun n => (n, JBool (bool_decide (n ∈ on)))) <$> kFeatures).
Definition policy_doc (version generation interval : Z) (on : list string) : json :=
  object [("schema_version", JUint version); ("generation", JUint generation); ("issued_at_unix_ms", JUint 1000);
          ("expires_at_unix_ms", JUint 100000); ("features", features_of on);
          ("limits", object [("collection_interval_ms", JUint interval); ("max_batch_events", JUint 100);
                             ("max_payload_bytes", JUint 65536); ("sampling_per_mille", JUint 1000)])].
Definition pin : TrustKey := {| key_id := hex_bytes (replicate 32 7); subject_public_key_info_der := "der" |}.
Definition signed (payload : string) : json :=
  object [("format", JStr "panopticon_signed_policy_v1"); ("key_id", JStr (key_id pin)); ("payload", JStr payload);
          ("signature", JStr "sig")].
Definition state (generation : Z) (raw back : string) (on : list string) : PolicyState :=
  {| exists_ := true; high := generation; high_digest := hex_bytes (replicate 32 7); desired := raw; effective := raw;
     rollback_to := back; active := on; rolled := false |}.
Definition docs : list (string * json) :=
  [("E1", signed "P1"); ("P1", policy_doc 1 1 5000 ["process"]);
   ("E2", signed "P2"); ("P2", policy_doc 1 2 4000 ["process"; "dns"]);
   ("E3", signed "P3"); ("P3", policy_doc 1 3 4000 ["dns"])].
Definition states : list (string * PolicyState) :=
  [("S1", state 1 "E1" "" []); ("S1a", state 1 "E1" "" ["process"]); ("S2", state 2 "E2" "E1" ["process"]);
   ("S2none", state 2 "E2" "E1" [])].
Definition table : list (string * json) := docs ++ (prod_map id state_json <$> states).
Definition parse (text : string) : result json :=
  match List.find (fun e => String.eqb e.1 text) table with
  | Some e => Ok e.2
  | None => Throw (json_exception "parse error")
  end.
Definition print (j : json) : result string :=
  match List.find (fun e => bool_decide (e.2 = j)) table with
  | Some e => Ok e.1
  | None => Throw (json_exception "not printable here")
  end.
Definition sha256 (input : string) : string + list Z := inr (replicate 32 7).
Definition decode64 (s : string) : option string := if String.eqb s "sig" then Some (string_of_list_ascii (replicate 64 Ascii.zero)) else None.
Definition algorithm (der : string) : option (option string) := Some (Some szOID_ECC_PUBLIC_KEY).
Definition key_of (der : string) : option (unit * option string) := Some (tt, Some "ECDSA_P256").
Definition checks (k : unit) (d : list Z) (sig : string) : bool := true.
Definition healthy : PolicyIo :=
  {| lock_error := None; read_error := None; parent_error := None; save_result := Saved; reread_error := None |}.
Abbreviation run := (policy_run sha256 parse print decode64 algorithm unit key_of checks [pin]).
Abbreviation show := (current sha256 parse decode64 algorithm unit key_of checks [pin]).
Lemma digest_32 input d : sha256 input = inr d -> zlen d = 32.
Proof. by intros [= <-]. Qed.
Lemma table_reparses : Forall (fun e => e.1 <> "" /\ parse e.1 = Ok e.2) table.
Proof. apply (bool_decide_unpack _). vm_compute. exact I. Qed.
Lemma states_reparse s t : print (state_json s) = Ok t -> t <> "" /\ parse t = Ok (state_json s).
Proof.
  unfold print. destruct (List.find _ table) as [e|] eqn:E; [|done]. intros [= <-].
  apply List.find_some in E as [Hin%list_elem_of_In <-%bool_decide_eq_true].
  exact (proj1 (Forall_forall _ _) table_reparses e Hin).
Qed.
Definition story : list policy_op :=
  [Activate "E1" 2000 ["process"] healthy; Confirm 1 ["process"] 2001 ["process"] healthy;
   Activate "E2" 2002 ["process"] healthy; Activate "E1" 2003 ["process"] healthy; Activate "E3" 2004 ["process"] healthy;
   Rollback 2005 ["process"] healthy].
Example story_files :
  (fun n => run (take n story) None) <$> seq 0 7 = [None; Some "S1"; Some "S1a"; Some "S2"; Some "S2"; Some "S2"; Some "S2"].
Proof. vm_compute. reflexivity. Qed.
(** an empty confirmation removes an active feature and reports no error *)
Example confirmation_drops_features :
  let '(r, file) := confirm_effective sha256 parse print decode64 algorithm unit key_of checks [pin] 2 [] 2006 ["process"]
    healthy (Some "S2") in
  (accepted r, changed r, snapshot_error (snapshot r), file) = (true, true, "", Some "S2none") /\
  active (state 2 "E2" "E1" ["process"]) = ["process"] /\ load parse file = Ok (state 2 "E2" "E1" []).
Proof. vm_compute. by split_and!. Qed.
(** the schema version is compared after truncation to 32 bits *)
Example wide_schema_version_accepted : validate_shape (policy_doc 4294967297 1 5000 ["process"]) = Ok tt.
Proof. vm_compute. reflexivity. Qed.
End PolicyExample.

Lemma policy_never_weakens_witness : let run := policy_run PolicyExample.sha256 PolicyExample.parse PolicyExample.print
    PolicyExample.decode64 PolicyExample.algorithm unit PolicyExample.key_of PolicyExample.checks [PolicyExample.pin] in
  run PolicyExample.story (Some "S1") = Some "S2" /\
  exists s', load PolicyExample.parse (run PolicyExample.story (Some "S1")) = Ok s' /\
    keeps PolicyExample.sha256 PolicyExample.parse PolicyExample.decode64 PolicyExample.algorithm unit
      PolicyExample.key_of PolicyExample.checks [PolicyExample.pin] (PolicyExample.state 1 "E1" "" []) s'.
Proof.
  intros run. split; [vm_compute; reflexivity|].
  exact (policy_never_weakens _ _ _ _ _ _ _ _ _ PolicyExample.digest_32 PolicyExample.states_reparse PolicyExample.story
    (Some "S1") (PolicyExample.state 1 "E1" "" []) ltac:(vm_compute; reflexivity)).
Defined.
Lemma effective_matches_desired_witness : exists s,
  load PolicyExample.parse (policy_run PolicyExample.sha256 PolicyExample.parse PolicyExample.print
    PolicyExample.decode64 PolicyExample.algorithm unit PolicyExample.key_of PolicyExample.checks [PolicyExample.pin]
    PolicyExample.story None) = Ok s /\
  policy_inv PolicyExample.sha256 PolicyExample.parse PolicyExample.decode64 PolicyExample.algorithm unit
    PolicyExample.key_of PolicyExample.checks [PolicyExample.pin] s.
Proof.
  exact (effective_matches_desired _ _ _ _ _ _ _ _ _ PolicyExample.digest_32 PolicyExample.states_reparse
    PolicyExample.story).
Defined.
Lemma effective_feature_authorized_witness :
  let o := current PolicyExample.sha256 PolicyExample.parse PolicyExample.decode64 PolicyExample.algorithm unit
    PolicyExample.key_of PolicyExample.checks [PolicyExample.pin] 2006 ["process"] PolicyExample.healthy (Some "S2") in
  authorized o = true /\ "process" ∈ ["process"].
Proof.
  intros o.
  pose proof (effective_feature_authorized PolicyExample.sha256 PolicyExample.parse PolicyExample.decode64
    PolicyExample.algorithm unit PolicyExample.key_of PolicyExample.checks [PolicyExample.pin] 2006 ["process"]
    PolicyExample.healthy (Some "S2") {| f_name := "process"; f_desired := true; f_effective := true; f_state := "active" |}
    ltac:(vm_compute; left) eq_refl) as H.
  split; apply H.
Defined.
