(* ===== verification/UpdateTrust.v ===== *)
(** * Signed update trust

    [deployment/update_package.cpp], the part shared by the two stores: the
    checks on every object of the staging directory, the signed envelopes, and
    the publisher trust bundles with their rotation rules.  The JSON library,
    the hash, the key import and the signature check are parameters. *)

From S2P Require Import Prelude Identity Json.

Definition kMaximumUpdatePackageBytes : Z := 512 * 1024 * 1024.
Definition kMaximumUpdateManifestBytes : Z := 64 * 1024.
Definition kMaximumUpdateTrustKeys : Z := 8.
Record PublisherPin := { key_id : string; subject_public_key_info_der : string }.
Record PublisherTrustKey := {
  publisher : PublisherPin; activates_at_unix_ms : Z; retires_at_unix_ms : Z; revoked_at_unix_ms : Z
}.
Definition nul : string := String (ascii_of_N 0) "".
Definition kDomain : string := "PANOPTICON-WINDOWS-UPDATE-MANIFEST-V1" +:+ nul.
Definition kTrustDomain : string := "PANOPTICON-WINDOWS-PUBLISHER-TRUST-V1" +:+ nul.
Definition kMaximumLifetimeMs : Z := 30 * 24 * 60 * 60 * 1000.
Definition kRotationOverlapMs : Z := 24 * 60 * 60 * 1000.

(** ** Objects of the staging directory

    What an open handle shows of an object: its attributes and its security
    descriptor.  An identifier of a principal is its text. *)
Record Ace := { ace_type : Z; ace_size : Z; ace_mask : Z; ace_sid : option (string * Z) (* [None]: not valid; its length *) }.
Record Security := {
  info_error : option exn; owner_ : option string; dacl : option (list Ace); control_read : bool; dacl_protected : bool
}.
(** [ob_error]: the object could not be opened or inspected *)
Record Object := { ob_error : option exn; reparse_point : bool; directory : bool; security : Security }.
Definition io_error (o : option exn) : result unit := match o with Some e => Throw e | None => Ok tt end.

Definition ACCESS_ALLOWED_ACE_TYPE : Z := 0.
Definition ACCESS_DENIED_ACE_TYPE : Z := 1.
Definition SYSTEM_AUDIT_ACE_TYPE : Z := 2.
(** FILE_WRITE_DATA, FILE_APPEND_DATA, FILE_WRITE_EA, FILE_DELETE_CHILD,
    FILE_WRITE_ATTRIBUTES, DELETE, WRITE_DAC, WRITE_OWNER *)
Definition dangerous : Z := foldr Z.lor 0 [0x2; 0x4; 0x10; 0x40; 0x100; 0x10000; 0x40000; 0x80000].
(** [MapGenericMask] with the file mapping: read, write, execute, all *)
Definition generic_mapping : list (Z * Z) := [(31, 0x120089); (30, 0x120116); (29, 0x1200a0); (28, 0x1f01ff)].
Definition map_generic (mask : Z) : Z :=
  Z.land (foldl (fun m e => if Z.testbit mask e.1 then Z.lor m e.2 else m) mask generic_mapping) 0x0fffffff.
Section Acl.
(** the account of the service *)
Context (process_user : result string).
Definition system_sid : string := "S-1-5-18".
Definition admins_sid : string := "S-1-5-32-544".
Definition owner_rights_sid : string := "S-1-3-4".
Definition principal (user sid : string) : bool :=
  String.eqb sid user || String.eqb sid system_sid || String.eqb sid admins_sid.
Definition trusted (user owner sid : string) : bool :=
  principal user sid || (principal user owner && String.eqb sid owner_rights_sid).
(** one turn of the loop over the entries *)
Definition check_ace (user owner : string) (a : Ace) : result unit :=
  if (ace_type a =? ACCESS_DENIED_ACE_TYPE) || (ace_type a =? SYSTEM_AUDIT_ACE_TYPE) then Ok tt
  else
    _ ← throw_if (negb (ace_type a =? ACCESS_ALLOWED_ACE_TYPE))
          (runtime_error "update object DACL contains an unsupported access-granting ACE");
    _ ← throw_if (ace_size a <? 12) (runtime_error "update object DACL contains a truncated allow ACE");
    match ace_sid a with
    | Some (sid, length) =>
        _ ← throw_if (ace_size a - 8 <? length)
              (runtime_error "update object DACL contains an invalid trustee SID");
        throw_if (negb (Z.land (map_generic (ace_mask a)) dangerous =? 0) && negb (trusted user owner sid))
          (runtime_error "untrusted principal has update staging write/delete rights")
    | None => Throw (runtime_error "update object DACL contains an invalid trustee SID")
    end.
Fixpoint check_aces (user owner : string) (l : list Ace) : result unit :=
  match l with [] => Ok tt | a :: l => _ ← check_ace user owner a; check_aces user owner l end.
Definition validate_object_acl (s : Security) (require_protected_dacl : bool) : result unit :=
  _ ← io_error (info_error s);
  let absent := runtime_error "update object owner or DACL is absent/invalid" in
  owner ← of_option (owner_ s) absent;
  aces ← of_option (dacl s) absent;
  _ ← throw_if (negb (control_read s) || (require_protected_dacl && negb (dacl_protected s)))
        (runtime_error "update staging root DACL must be protected");
  user ← process_user;
  _ ← throw_if (negb (trusted user owner owner))
        (runtime_error "update object is not owned by the service, SYSTEM, or administrators");
  _ ← throw_if (128 <? zlen aces) (runtime_error "update object DACL ACE bound exceeded");
  check_aces user owner aces.
Definition verify_not_reparse (o : Object) (require_directory : bool) : result unit :=
  throw_if (reparse_point o || (require_directory && negb (directory o)) || (negb require_directory && directory o))
    (runtime_error "update object has an unsafe reparse or directory type").
(** an opened handle is checked; only the directory itself needs a protected list *)
Definition check_object (o : Object) (is_root : bool) : result unit :=
  _ ← io_error (ob_error o);
  _ ← verify_not_reparse o is_root;
  validate_object_acl (security o) is_root.
Definition open_update_directory (o : Object) : result unit := check_object o true.
End Acl.

(** ** Fields *)
Definition has_keys (j : json) (names : list string) : bool :=
  is_object j && (size_ j =? zlen names) && forallb (fun n => contains n j) names.
Definition uint_field (j : json) (k : string) : result Z :=
  match find k j with
  | Some (JUint v) => Ok (u64 v)
  | _ => Throw (runtime_error ("invalid unsigned manifest field: " +:+ k))
  end.
(** [j[k].is_number_unsigned() && j[k].get<unsigned>() == 1] *)
Definition schema_one (j : json) : bool :=
  match member "schema_version" j with JUint v => u32 v =? 1 | _ => false end.
Definition hex_digit (c : ascii) : option Z :=
  if is_digit c then Some (digit_val c)
  else if (97 <=? code c) && (code c <=? 102) then Some (code c - 97 + 10) else None.
Definition bad_hex : exn := runtime_error "publisher SPKI hex must be lowercase canonical hexadecimal".
Fixpoint decode_pairs (s : string) : result string :=
  match s with
  | String a (String b s) =>
      high ← of_option (hex_digit a) bad_hex;
      low ← of_option (hex_digit b) bad_hex;
      rest ← decode_pairs s;
      Ok (String (ascii_of_N (Z.to_N (Z.lor (Z.shiftl high 4) low))) rest)
  | _ => Ok ""
  end.
Definition decode_hex (encoded : string) (maximum_bytes : Z) : result string :=
  _ ← throw_if (str_empty encoded || negb (slen encoded `mod` 2 =? 0) || (maximum_bytes <? slen encoded / 2))
        (runtime_error "publisher SPKI hex is empty, odd-sized, or oversized");
  decode_pairs encoded.
Definition sha_text (s : string) : bool := (slen s =? 64) && str_forallb is_lower_hex s.

(** ** Signed envelopes *)
Section Signed.
Context (cng_sha256 : string -> string + list Z).
Context (json_parse : string -> result json) (dump : json -> result string).
(** [CryptStringToBinaryA] *)
Context (base64_decode : string -> option string).
(** [CryptDecodeObjectEx]: the algorithm identifier of the key, when the DER decodes *)
Context (spki_algorithm : string -> option (option string)).
(** [CryptImportPublicKeyInfoEx2] and the algorithm name CNG reports *)
Context (Key : Type) (import_key : string -> option (Key * option string)).
Context (verify_signature : Key -> list Z -> string -> bool).

Definition digest_of (input : string) : result (list Z) :=
  match cng_sha256 input with inr d => Ok d | inl e => Throw (runtime_error e) end.
Definition sha256 (input : string) : result string := d ← digest_of input; Ok (hex_bytes d).
Definition decode_signature (encoded : string) : result string :=
  let bad := runtime_error "signature must be a 64-byte base64 ECDSA P-256 signature" in
  _ ← throw_if (str_empty encoded || (1024 <? slen encoded)) bad;
  b ← of_option (base64_decode encoded) bad;
  _ ← throw_if (negb (slen b =? 64)) bad;
  Ok b.
Definition szOID_ECC_PUBLIC_KEY : string := "1.2.840.10045.2.1".
(** the messages of the two verifiers, in the order of their checks *)
Record Messages := {
  e_bound : string; e_envelope : string; e_payload : string; e_pin : string; e_fingerprint : string; e_der : string;
  e_curve : string; e_import : string; e_algorithm : string; e_signature : string
}.
Definition trust_messages : Messages := {|
  e_bound := "signed trust bundle is empty or exceeds the 64 KiB bound";
  e_envelope := "unknown signed trust bundle envelope or field set";
  e_payload := "signed trust bundle payload is empty or oversized";
  e_pin := "trust bundle signer is not a valid caller-provisioned bootstrap pin";
  e_fingerprint := "trust bundle signer is not a valid caller-provisioned bootstrap pin";
  e_der := "bootstrap SPKI DER is invalid"; e_curve := "bootstrap key is not elliptic-curve public key material";
  e_import := "Windows CNG cannot import bootstrap key"; e_algorithm := "bootstrap key must be ECDSA P-256";
  e_signature := "trust bundle bootstrap signature verification failed" |}.
Definition manifest_messages : Messages := {|
  e_bound := "update manifest is empty or exceeds the 64 KiB bound";
  e_envelope := "unknown update envelope format or field set";
  e_payload := "update manifest payload is empty or oversized"; e_pin := "update publisher key is not pinned";
  e_fingerprint := "pinned publisher SPKI fingerprint or size is invalid";
  e_der := "pinned publisher SPKI DER is invalid"; e_curve := "publisher key is not elliptic-curve public key material";
  e_import := "Windows CNG cannot import pinned publisher key"; e_algorithm := "publisher key must be ECDSA P-256";
  e_signature := "update manifest signature verification failed" |}.
(** the pin of [id], its key imported *)
Definition pinned_key (msg : Messages) (pins : list PublisherPin) (id : string) : result Key :=
  pin ← of_option (List.find (fun p => String.eqb (key_id p) id) pins) (runtime_error (e_pin msg));
  let der := subject_public_key_info_der pin in
  _ ← throw_if (str_empty der || (4096 <? slen der)) (runtime_error (e_fingerprint msg));
  fingerprint ← sha256 der;
  _ ← throw_if (negb (String.eqb fingerprint (key_id pin))) (runtime_error (e_fingerprint msg));
  oid ← of_option (spki_algorithm der) (runtime_error (e_der msg));
  _ ← throw_if (negb (bool_decide (oid = Some szOID_ECC_PUBLIC_KEY))) (runtime_error (e_curve msg));
  imported ← of_option (import_key der) (runtime_error (e_import msg));
  _ ← throw_if (negb (bool_decide (imported.2 = Some "ECDSA_P256"))) (runtime_error (e_algorithm msg));
  Ok imported.1.
(** the checks both verifiers make: the envelope and its payload *)
Definition signed_payload (msg : Messages) (raw format domain : string) (pins : list PublisherPin)
  : result (json * string) :=
  _ ← throw_if (str_empty raw || (kMaximumUpdateManifestBytes <? slen raw)) (runtime_error (e_bound msg));
  envelope ← json_parse raw;
  _ ← throw_if (negb (has_keys envelope ["format"; "key_id"; "payload"; "signature"])
                || negb (is_string (member "format" envelope)) || negb (is_text format (member "format" envelope))
                || negb (is_string (member "key_id" envelope)) || negb (is_string (member "payload" envelope))
                || negb (is_string (member "signature" envelope)))
        (runtime_error (e_envelope msg));
  id ← get_string (member "key_id" envelope);
  payload ← get_string (member "payload" envelope);
  _ ← throw_if (str_empty payload || (kMaximumUpdateManifestBytes <? slen payload)) (runtime_error (e_payload msg));
  key ← pinned_key msg pins id;
  digest ← digest_of (domain +:+ payload);
  encoded ← get_string (member "signature" envelope);
  signature ← decode_signature encoded;
  _ ← throw_if (negb (verify_signature key digest signature)) (runtime_error (e_signature msg));
  Ok (envelope, payload).
Definition verify_signed_payload (raw : string) (pins : list PublisherPin) : result (json * string) :=
  signed_payload trust_messages raw "panopticon_signed_publisher_trust_v1" kTrustDomain pins.

(** ** Trust bundles *)
Record ParsedTrustBundle := { envelope_ : json; generation_ : Z; keys_ : list PublisherTrustKey }.
Definition active_at (now : Z) (k : PublisherTrustKey) : bool :=
  (activates_at_unix_ms k <=? now) && (now <? retires_at_unix_ms k)
  && ((revoked_at_unix_ms k =? 0) || (now <? revoked_at_unix_ms k)).
(** one item of the key list; [ids] are those before it *)
Definition trust_key (issued expires : Z) (ids : list string) (item : json) : result PublisherTrustKey :=
  _ ← throw_if (negb (has_keys item ["key_id"; "spki_der_hex"; "activates_at_unix_ms"; "retires_at_unix_ms";
                                     "revoked_at_unix_ms"])
                || negb (is_string (member "key_id" item)) || negb (is_string (member "spki_der_hex" item)))
        (runtime_error "publisher trust key has unknown fields or invalid types");
  id ← get_string (member "key_id" item);
  encoded ← get_string (member "spki_der_hex" item);
  der ← decode_hex encoded 4096;
  activates ← uint_field item "activates_at_unix_ms";
  retires ← uint_field item "retires_at_unix_ms";
  revoked ← uint_field item "revoked_at_unix_ms";
  let bad := runtime_error "publisher key fingerprint is invalid or duplicated" in
  _ ← throw_if (negb (sha_text id)) bad;
  fingerprint ← sha256 der;
  _ ← throw_if (negb (String.eqb fingerprint id) || bool_decide (id ∈ ids)) bad;
  _ ← throw_if ((activates <? issued) || (retires <=? activates) || (expires <? retires)
                || (negb (revoked =? 0) && ((revoked <? activates) || (expires <? revoked))))
        (runtime_error "publisher key activation, retirement, or revocation interval is invalid");
  oid ← of_option (spki_algorithm der) (runtime_error "publisher key SPKI DER is invalid");
  let refused := runtime_error "publisher trust key is not importable ECDSA P-256" in
  _ ← throw_if (negb (bool_decide (oid = Some szOID_ECC_PUBLIC_KEY))) refused;
  imported ← of_option (import_key der) refused;
  _ ← throw_if (negb (bool_decide (imported.2 = Some "ECDSA_P256"))) refused;
  Ok {| publisher := {| key_id := id; subject_public_key_info_der := der |}; activates_at_unix_ms := activates;
        retires_at_unix_ms := retires; revoked_at_unix_ms := revoked |}.
Fixpoint trust_keys (issued expires : Z) (ids : list string) (items : list json) : result (list PublisherTrustKey) :=
  match items with
  | [] => Ok []
  | item :: items =>
      k ← trust_key issued expires ids item;
      ks ← trust_keys issued expires (key_id (publisher k) :: ids) items;
      Ok (k :: ks)
  end.
(** [std::sort] by activation: at most eight keys, which the library sorts by insertion *)
Fixpoint insert_key (k : PublisherTrustKey) (l : list PublisherTrustKey) : list PublisherTrustKey :=
  match l with
  | [] => [k]
  | m :: r => if activates_at_unix_ms k <? activates_at_unix_ms m then k :: l else m :: insert_key k r
  end.
Definition sort_keys (l : list PublisherTrustKey) : list PublisherTrustKey := foldl (fun acc k => insert_key k acc) [] l.
Definition key_end (k : PublisherTrustKey) : Z :=
  if revoked_at_unix_ms k =? 0 then retires_at_unix_ms k else Z.min (retires_at_unix_ms k) (revoked_at_unix_ms k).
Definition overlap (prior next : PublisherTrustKey) : Z :=
  let overlap_end := Z.min (key_end prior) (key_end next) in
  if activates_at_unix_ms next <? overlap_end then overlap_end - activates_at_unix_ms next else 0.
Fixpoint check_rotation (rotation : list PublisherTrustKey) : result unit :=
  match rotation with
  | prior :: ((next :: _) as rest) =>
      _ ← throw_if (overlap prior next <? kRotationOverlapMs)
            (runtime_error "publisher rotation requires at least 24 hours of key overlap");
      check_rotation rest
  | _ => Ok tt
  end.
Definition rotation_of (now : Z) (keys : list PublisherTrustKey) : list PublisherTrustKey :=
  sort_keys (filter (fun k => (revoked_at_unix_ms k =? 0) || (now <? revoked_at_unix_ms k)) keys).
Definition outside_window (issued expires now : Z) : bool :=
  (expires <=? issued) || (kMaximumLifetimeMs <? expires - issued)
  || ((now <? issued) && (300000 <? issued - now)) || (expires <=? now).
Definition parse_trust_bundle (raw : string) (bootstrap : list PublisherPin) (now : Z) (require_active : bool)
  : result ParsedTrustBundle :=
  '(envelope, payload) ← verify_signed_payload raw bootstrap;
  document ← json_parse payload;
  text ← dump document;
  _ ← throw_if (negb (String.eqb text payload)
                || negb (has_keys document ["schema_version"; "product"; "generation"; "issued_at_unix_ms";
                                            "expires_at_unix_ms"; "keys"])
                || negb (schema_one document) || negb (is_text "panopticon-windows-agent" (member "product" document))
                || negb (is_array (member "keys" document)))
        (runtime_error "publisher trust payload is noncanonical or has an unsupported closed schema");
  generation ← uint_field document "generation";
  issued ← uint_field document "issued_at_unix_ms";
  expires ← uint_field document "expires_at_unix_ms";
  _ ← throw_if ((generation =? 0) || outside_window issued expires now)
        (runtime_error "publisher trust generation or issue/expiry window is invalid");
  let items := match member "keys" document with JArr l => l | _ => [] end in
  _ ← throw_if ((zlen items =? 0) || (kMaximumUpdateTrustKeys <? zlen items))
        (runtime_error "publisher keyset must contain 1..8 bounded keys");
  keys ← trust_keys issued expires [] items;
  _ ← check_rotation (rotation_of now keys);
  _ ← throw_if (require_active && negb (existsb (active_at now) keys))
        (runtime_error "trust bundle has no publisher active at the current time");
  Ok {| envelope_ := envelope; generation_ := generation; keys_ := keys |}.
End Signed.
