(* ===== verification/UpdatePackage.v ===== *)
(** * Update staging

    [deployment/update_package.cpp]: the publisher trust store and the package
    store work in one protected directory, under one lock.  The directory is a
    map from file names to contents, every change of it is recorded, and what
    the operating system answers to a call is an argument, so that a theorem
    holds for every outcome and at every point at which the process may stop.
    All names are ASCII in lower case, which the file system keeps apart. *)

From S2P Require Import Prelude Identity Json UpdateTrust.

(** ** The directory *)
Inductive Entry := File (contents : string) | Unsafe (* a directory or a reparse point *).
#[global] Instance Entry_eq_dec : EqDecision Entry.
Proof. solve_decision. Defined.
Abbreviation Disk := (gmap string Entry).
Definition kLockFile : string := "update-stage-state.lock".
Definition kStateFile : string := "update-stage-state.json".
Definition kTrustFile : string := "publisher-trust-state.json".

Record UpdateResult := {
  state : string; generation : Z; version : string; package_sha256 : string; staged_path : string;
  rollback_candidate : string; error : string
}.
Definition no_result : UpdateResult := {|
  state := "failed"; generation := 0; version := ""; package_sha256 := ""; staged_path := ""; rollback_candidate := "";
  error := "" |}.

(** a call: the directory, the directories it has been, newest first, and the
    result so far *)
Record Call := { c_disk : Disk; c_past : list Disk; c_result : UpdateResult }.
Definition M (A : Type) : Type := Call -> result A * Call.
#[global] Instance M_bind : MBind M := fun A B k m c =>
  match m c with (Ok a, c) => k a c | (Throw e, c) => (Throw e, c) end.
Definition pure {A} (r : result A) : M A := fun c => (r, c).
Definition disk : M Disk := fun c => (Ok (c_disk c), c).
Definition change (f : Disk -> Disk) : M unit := fun c =>
  (Ok tt, {| c_disk := f (c_disk c); c_past := c_disk c :: c_past c; c_result := c_result c |}).
Definition report (f : UpdateResult -> UpdateResult) : M unit := fun c =>
  (Ok tt, {| c_disk := c_disk c; c_past := c_past c; c_result := f (c_result c) |}).
(** [try { m } catch (...) { handler; throw; }] *)
Definition on_error {A} (m : M A) (handler : M unit) : M A := fun c =>
  match m c with
  | (Ok a, c) => (Ok a, c)
  | (Throw e, c) => (Throw e, (handler c).2)
  end.

(** what the system answers during one call *)
Inductive write_answer :=
| WriteCreateFailed (e : exn)
| WriteStopped (written : nat) (e : exn)      (* the temporary is left behind *)
| WriteMoveFailed (e : exn) (deleted : bool)
| WriteDone.
Record Recovery := { find_failed : nat -> option exn; find_stopped : nat -> option exn; candidate : nat -> Object;
                     delete_failed : nat -> option exn }.
Record Io := {
  io_pid : Z; io_tick : Z; io_write_tick : Z;
  io_root : Object; io_lock_open : option exn; io_lock : Object; io_lock_failed : option exn; io_recovery : Recovery;
  io_trust : Object; io_trust_read : option exn; io_state : Object; io_state_read : option exn;
  io_source_error : option exn; io_source_regular : bool; io_source_size : Z; io_reads : list (exn + string);
  io_temp_open : option exn; io_temp : Object; io_write_failed : nat -> option (nat * exn); io_flush : option exn;
  io_deleted : bool; io_move : option exn; io_staged : Object; io_staged_failed : option exn;
  io_write : write_answer; io_write_object : Object
}.

(** ** Abandoned temporaries *)
Fixpoint ends_with (suffix s : string) : bool :=
  String.eqb s suffix || match s with "" => false | String _ s => ends_with suffix s end.
(** the three search patterns: what stands before the star and after it *)
Definition patterns : list (string * string) :=
  [(".stage-", ".tmp"); ("update-stage-state.json.tmp-", ""); ("publisher-trust-state.json.tmp-", "")].
Definition matches (p : string * string) (name : string) : bool :=
  starts_with p.1 name && ends_with p.2 (str_drop (String.length p.1) name).
Definition maximum_candidates : nat := 4096.

Section Stores.
Context (cng_sha256 : string -> string + list Z).
Context (json_parse : string -> result json) (dump : json -> result string).
Context (base64_decode : string -> option string) (spki_algorithm : string -> option (option string)).
Context (Key : Type) (import_key : string -> option (Key * option string)).
Context (verify_signature : Key -> list Z -> string -> bool).
Context (process_user : result string).

Abbreviation verify_signed_payload := (UpdateTrust.verify_signed_payload cng_sha256 json_parse base64_decode
  spki_algorithm Key import_key verify_signature).
Abbreviation parse_trust_bundle := (UpdateTrust.parse_trust_bundle cng_sha256 json_parse dump base64_decode
  spki_algorithm Key import_key verify_signature).
Abbreviation check := (check_object process_user).

Fixpoint recover_names (r : Recovery) (names : list string) (examined : nat) : M nat :=
  match names with
  | [] => pure (Ok examined)
  | name :: names =>
      let examined := S examined in
      _ ← pure (throw_if (maximum_candidates <? examined)%nat
                  (runtime_error "abandoned update transaction count exceeds recovery bound"));
      d ← disk;
      _ ← pure (throw_if (bool_decide (d !! name = Some Unsafe))
                  (runtime_error "unsafe directory or reparse object occupies update temporary name"));
      _ ← pure (check (candidate r examined) false);
      _ ← pure (io_error (delete_failed r examined));
      _ ← change (delete name);
      recover_names r names examined
  end.
Fixpoint recover_patterns (r : Recovery) (i : nat) (l : list (string * string)) (examined : nat) : M unit :=
  match l with
  | [] => pure (Ok tt)
  | p :: l =>
      d ← disk;
      let names := filter (fun name => matches p name) (map_to_list d).*1 in
      _ ← pure (io_error (find_failed r i));
      examined ← recover_names r names examined;
      _ ← pure (match names with [] => Ok tt | _ => io_error (find_stopped r i) end);
      recover_patterns r (S i) l examined
  end.
Definition recover_transaction_temporaries (io : Io) : M unit := recover_patterns (io_recovery io) 0 patterns 0.
(** the lock file is created when it is missing, and kept *)
Definition state_lock (io : Io) : M unit :=
  _ ← pure (io_error (io_lock_open io));
  d ← disk;
  _ ← match d !! kLockFile with Some _ => pure (Ok tt) | None => change (insert kLockFile (File "")) end;
  _ ← pure (check (io_lock io) false);
  pure (io_error (io_lock_failed io)).

(** ** Files *)
(** [None] when there is no such file *)
Definition read_regular (name : string) (o : Object) (failed : option exn) (limit : Z) (kind size : string)
  : M (option string) :=
  _ ← pure (io_error (ob_error o));
  d ← disk;
  match d !! name with
  | None => pure (Ok None)
  | Some Unsafe => pure (Throw (runtime_error kind))
  | Some (File c) =>
      _ ← pure (check o false);
      _ ← pure (throw_if ((slen c =? 0) || (limit <? slen c)) (runtime_error size));
      _ ← pure (io_error failed);
      pure (Ok (Some c))
  end.
(** the loop of [digest_open_handle]; [reads] are the answers of [ReadFile], and
    the text is what was read before *)
Fixpoint copy_loop (output : option (string * Io)) (expected_size : Z) (i : nat) (reads : list (exn + string))
  (text : string) : M string :=
  match reads with
  | [] => pure (Ok text)
  | inl e :: _ => pure (Throw e)
  | inr data :: reads =>
      if str_empty data then pure (Ok text)
      else
        _ ← pure (throw_if ((expected_size <? slen text) || (expected_size - slen text <? slen data))
                    (runtime_error "package grew beyond signed size"));
        _ ← match output with
            | None => pure (Ok tt)
            | Some (name, io) =>
                match io_write_failed io i with
                | Some (n, e) => _ ← change (insert name (File (text +:+ str_take n data))); pure (Throw e)
                | None => change (insert name (File (text +:+ data)))
                end
            end;
        copy_loop output expected_size (S i) reads (text +:+ data)
  end.
(** a hash that fails is reported after the copy *)
Definition digest_open_handle (output : option (string * Io)) (expected_size : Z) (reads : list (exn + string))
  : M string :=
  text ← copy_loop output expected_size 0 reads "";
  _ ← pure (throw_if (negb (slen text =? expected_size)) (runtime_error "package size differs from signed manifest"));
  digest ← pure (sha256 cng_sha256 text);
  _ ← pure (match output with Some (_, io) => io_error (io_flush io) | None => Ok tt end);
  pure (Ok digest).
Definition verify_staged_file (name : string) (expected_size : Z) (expected_hash : string) (io : Io) : M unit :=
  d ← disk;
  match d !! name with
  | Some (File c) =>
      _ ← pure (check (io_staged io) false);
      _ ← pure (throw_if (negb (slen c =? expected_size))
                  (runtime_error "staged package size does not match signed metadata"));
      digest ← digest_open_handle None expected_size
                 (match io_staged_failed io with Some e => [inl e] | None => [inr c] end);
      pure (throw_if (negb (String.eqb digest expected_hash))
              (runtime_error "staged package digest does not match signed metadata"))
  | _ => pure (Throw (runtime_error "staged package is missing or unsafe"))
  end.
Definition write_temp_name (path : string) (io : Io) : string :=
  path +:+ ".tmp-" +:+ to_string (io_pid io) +:+ "-" +:+ to_string (io_write_tick io).
Definition atomic_write (path bytes : string) (io : Io) : M unit :=
  let temp := write_temp_name path io in
  d ← disk;
  _ ← pure (throw_if (bool_decide (is_Some (d !! temp))) (runtime_error "cannot create update metadata temporary file"));
  _ ← pure (match io_write io with WriteCreateFailed e => Throw e | _ => Ok tt end);
  _ ← change (insert temp (File ""));
  _ ← pure (check (io_write_object io) false);
  _ ← match io_write io with
      | WriteStopped n e => _ ← change (insert temp (File (str_take n bytes))); pure (Throw e)
      | _ => change (insert temp (File bytes))
      end;
  match io_write io with
  | WriteMoveFailed e deleted =>
      _ ← (if (deleted : bool) then change (delete temp) else pure (Ok tt)); pure (Throw e)
  | _ => change (fun d => insert path (File bytes) (delete temp d))
  end.
Definition safe_child (filename : string) : result string :=
  _ ← throw_if (str_empty filename || str_contains "\" filename || str_contains "/" filename || str_contains ":" filename
                || String.eqb filename "." || String.eqb filename "..")
        (runtime_error "unsafe staged package filename in metadata");
  Ok filename.

(** ** Manifests *)
Record Manifest := {
  m_document : json; exact_envelope : string; m_generation : Z; m_size : Z; m_expires : Z; m_version : string;
  m_architecture : string; package_hash : string
}.
Definition version_char (c : ascii) : bool :=
  is_alnum c || Ascii.eqb c "." || Ascii.eqb c "-" || Ascii.eqb c "+".
Definition manifest_keys : list string :=
  ["schema_version"; "product"; "generation"; "version"; "architecture"; "package_size"; "package_sha256";
   "issued_at_unix_ms"; "expires_at_unix_ms"].
Definition verify_manifest (raw : string) (pins : list PublisherPin) (now : Z) (architecture : string) : result Manifest :=
  '(envelope, payload) ← signed_payload cng_sha256 json_parse base64_decode spki_algorithm Key import_key
    verify_signature manifest_messages raw "panopticon_signed_update_manifest_v1" kDomain pins;
  doc ← json_parse payload;
  text ← dump doc;
  _ ← throw_if (negb (String.eqb text payload)) (runtime_error "manifest payload must use canonical JSON encoding");
  _ ← throw_if (negb (has_keys doc manifest_keys) || negb (schema_one doc)
                || negb (is_text "panopticon-windows-agent" (member "product" doc))
                || negb (is_string (member "version" doc)) || negb (is_string (member "architecture" doc))
                || negb (is_string (member "package_sha256" doc)))
        (runtime_error "unknown update manifest schema, product, or field set");
  generation ← uint_field doc "generation";
  size ← uint_field doc "package_size";
  issued ← uint_field doc "issued_at_unix_ms";
  expires ← uint_field doc "expires_at_unix_ms";
  version ← get_string (member "version" doc);
  arch ← get_string (member "architecture" doc);
  hash ← get_string (member "package_sha256" doc);
  _ ← throw_if (str_empty version || (64 <? slen version) || negb (str_forallb version_char version))
        (runtime_error "invalid bounded product version string");
  _ ← throw_if (negb (String.eqb arch "x64") && negb (String.eqb arch "arm64"))
        (runtime_error "unsupported package architecture");
  _ ← throw_if (negb (String.eqb arch architecture))
        (runtime_error "package architecture does not match this endpoint");
  _ ← throw_if ((generation =? 0) || (size =? 0) || (kMaximumUpdatePackageBytes <? size) || negb (sha_text hash))
        (runtime_error "generation, package size, or SHA-256 identity is invalid");
  _ ← throw_if (outside_window issued expires now)
        (runtime_error "manifest is expired or outside the bounded issue/expiry window");
  Ok {| m_document := envelope; exact_envelope := raw; m_generation := generation; m_size := size; m_expires := expires;
        m_version := version; m_architecture := arch; package_hash := hash |}.
Definition package_name (generation : Z) (hash : string) : string :=
  "package-" +:+ to_string generation +:+ "-" +:+ hash +:+ ".pkg".
(** the payload of an envelope that is not verified here *)
Definition payload_document (raw : string) : result json :=
  envelope ← json_parse raw;
  p ← at_ "payload" envelope;
  payload ← get_string p;
  json_parse payload.

(** ** The stage state *)
Definition legacy_state_keys : list string :=
  ["format"; "highest_generation"; "manifest"; "package_sha256"; "staged_filename"; "previous_generation";
   "previous_manifest"; "previous_filename"; "rollback_intent_generation"].
Definition stage_state_keys : list string := legacy_state_keys ++ ["publisher_trust_bundle"; "previous_trust_bundle"].
Definition stage_state (highest : Z) (manifest hash filename : string) (previous : Z) (previous_manifest
  previous_filename : string) (intent : Z) (bundle previous_bundle : string) : json :=
  object [("format", JStr "panopticon_update_stage_state_v2"); ("highest_generation", JUint highest);
          ("manifest", JStr manifest); ("package_sha256", JStr hash); ("staged_filename", JStr filename);
          ("previous_generation", JUint previous); ("previous_manifest", JStr previous_manifest);
          ("previous_filename", JStr previous_filename); ("rollback_intent_generation", JUint intent);
          ("publisher_trust_bundle", JStr bundle); ("previous_trust_bundle", JStr previous_bundle)].
(** [load_state] of the text of the file *)
Definition parse_state (raw : string) : result json :=
  state ← json_parse raw;
  let legacy := has_keys state legacy_state_keys
                && is_text "panopticon_update_stage_state_v1" (member "format" state) in
  let current := has_keys state stage_state_keys
                 && is_text "panopticon_update_stage_state_v2" (member "format" state) in
  _ ← throw_if ((negb legacy && negb current)
                || negb (forallb (fun k => is_string (member k state))
                           ["manifest"; "previous_manifest"; "package_sha256"; "staged_filename"; "previous_filename"]))
        (runtime_error "malformed update metadata schema");
  if legacy then
    Ok (set_member "format" (JStr "panopticon_update_stage_state_v2")
          (set_member "previous_trust_bundle" (JStr "") (set_member "publisher_trust_bundle" (JStr "") state)))
  else
    _ ← throw_if (negb (is_string (member "publisher_trust_bundle" state))
                  || negb (is_string (member "previous_trust_bundle" state)))
          (runtime_error "malformed update trust provenance fields");
    Ok state.
Definition load_state (io : Io) : M json :=
  raw ← read_regular kStateFile (io_state io) (io_state_read io) (1024 * 1024) "update metadata is not a regular file"
    "update metadata is empty, unreadable, or oversized";
  pure (match raw with None => Ok (stage_state 0 "" "" "" 0 "" "" 0 "" "") | Some raw => parse_state raw end).
Definition verify_persisted_manifest (state : json) (pins : list PublisherPin) : result Manifest :=
  raw ← value_string "manifest" state;
  _ ← throw_if (str_empty raw) (runtime_error "durable update high-water record lacks its signed manifest");
  document ← payload_document raw;
  issued ← uint_field document "issued_at_unix_ms";
  a ← at_ "architecture" document;
  architecture ← get_string a;
  manifest ← verify_manifest raw pins issued architecture;
  highest ← uint_field state "highest_generation";
  hash ← value_string "package_sha256" state;
  filename ← value_string "staged_filename" state;
  _ ← throw_if (negb (m_generation manifest =? highest) || negb (String.eqb (package_hash manifest) hash)
                || negb (String.eqb filename (package_name (m_generation manifest) (package_hash manifest))))
        (runtime_error "durable update high-water metadata disagrees with its signed manifest");
  Ok manifest.

(** ** The trust store *)
Record PublisherTrustSnapshot := {
  t_state : string; t_generation : Z; active_publishers : list PublisherPin; t_keys : list PublisherTrustKey;
  signed_bundle : string; t_error : string
}.
Definition unavailable (generation : Z) (bundle : string) (e : exn) : PublisherTrustSnapshot := {|
  t_state := "unavailable"; t_generation := generation; active_publishers := []; t_keys := []; signed_bundle := bundle;
  t_error := what e |}.
(** [read_trust_state] of the text of the file *)
Definition parse_trust_state (raw : string) : result json :=
  state ← json_parse raw;
  _ ← throw_if (negb (has_keys state ["format"; "generation"; "signed_bundle"])
                || negb (is_text "panopticon_publisher_trust_state_v1" (member "format" state))
                || negb (is_string (member "signed_bundle" state)))
        (runtime_error "publisher trust state schema is invalid");
  Ok state.
Definition read_trust_state (io : Io) : M (option json) :=
  raw ← read_regular kTrustFile (io_trust io) (io_trust_read io) (kMaximumUpdateManifestBytes + 4096)
    "publisher trust state is not a regular file" "publisher trust state is empty or oversized";
  pure (match raw with None => Ok None | Some raw => state ← parse_trust_state raw; Ok (Some state) end).
Definition trust_state (generation : Z) (bundle : string) : json :=
  object [("format", JStr "panopticon_publisher_trust_state_v1"); ("generation", JUint generation);
          ("signed_bundle", JStr bundle)].
Definition publishers_at (now : Z) (keys : list PublisherTrustKey) : list PublisherPin :=
  publisher <$> filter (fun k => active_at now k) keys.
(** the end of both snapshots: without an active key nothing is trusted *)
Definition with_active (generation : Z) (keys : list PublisherTrustKey) (bundle : string) (now : Z) (none : string)
  : PublisherTrustSnapshot :=
  match publishers_at now keys with
  | [] => unavailable generation bundle (runtime_error none)
  | pins => {| t_state := "healthy"; t_generation := generation; active_publishers := pins; t_keys := keys;
               signed_bundle := bundle; t_error := "" |}
  end.
Section Bootstrap.
Context (bootstrap_pins_ : list PublisherPin).
Definition snapshot_locked (now : Z) (io : Io) : M PublisherTrustSnapshot := fun c =>
  let '(r, c) := read_trust_state io c in
  (Ok match r with
      | Throw e => unavailable 0 "" e
      | Ok None => {| t_state := "unknown"; t_generation := 0; active_publishers := []; t_keys := []; signed_bundle := "";
                      t_error := "no signed publisher trust bundle has been committed" |}
      | Ok (Some state) =>
          match (b ← at_ "signed_bundle" state; raw ← get_string b;
                 parsed ← parse_trust_bundle raw bootstrap_pins_ now true; Ok (raw, parsed)) with
          | Throw e => unavailable 0 "" e
          | Ok (raw, parsed) =>
              match (g ← uint_field state "generation";
                     throw_if (negb (g =? generation_ parsed))
                       (runtime_error "durable trust generation disagrees with signed bundle")) with
              | Throw e => unavailable (generation_ parsed) "" e
              | Ok _ => with_active (generation_ parsed) (keys_ parsed) raw now
                          "no publisher key is active at the requested time"
              end
          end
      end, c).
Definition historical_publishers (bundle : string) (issued_at : Z) : PublisherTrustSnapshot :=
  match ('(_, payload) ← verify_signed_payload bundle bootstrap_pins_;
         document ← json_parse payload;
         bundle_issue ← uint_field document "issued_at_unix_ms";
         bundle_expiry ← uint_field document "expires_at_unix_ms";
         _ ← throw_if ((issued_at <? bundle_issue) || (bundle_expiry <=? issued_at))
               (runtime_error "package manifest issue time is outside its signed publisher trust bundle window");
         parse_trust_bundle bundle bootstrap_pins_ bundle_issue false) with
  | Throw e => unavailable 0 "" e
  | Ok parsed => with_active (generation_ parsed) (keys_ parsed) bundle issued_at
                   "historical bundle had no publisher active at package issue time"
  end.
(** whether the bundle is the one that is installed; throws when it may not replace it *)
Definition known_bundle (parsed : ParsedTrustBundle) (state : json) : result bool :=
  b ← at_ "signed_bundle" state;
  previous_raw ← get_string b;
  previous_envelope ← json_parse previous_raw;
  p ← at_ "payload" previous_envelope;
  previous_payload ← get_string p;
  previous_document ← json_parse previous_payload;
  previous_issue ← uint_field previous_document "issued_at_unix_ms";
  previous ← parse_trust_bundle previous_raw bootstrap_pins_ previous_issue false;
  previous_generation ← uint_field state "generation";
  _ ← throw_if (negb (generation_ previous =? previous_generation))
        (runtime_error "durable trust generation disagrees with signed prior bundle");
  _ ← throw_if (generation_ parsed <? previous_generation)
        (runtime_error "publisher trust replay refused below durable generation high-water");
  if generation_ parsed =? previous_generation then
    q ← at_ "payload" (envelope_ parsed);
    payload ← get_string q;
    _ ← throw_if (negb (String.eqb previous_payload payload))
          (runtime_error "publisher trust fork refused at an existing generation");
    Ok true
  else Ok false.
Definition install_body (bundle : string) (now : Z) (io : Io) : M (string * Z) :=
  _ ← pure (open_update_directory process_user (io_root io));
  _ ← state_lock io;
  _ ← recover_transaction_temporaries io;
  parsed ← pure (parse_trust_bundle bundle bootstrap_pins_ now true);
  state ← read_trust_state io;
  known ← pure (match state with Some state => known_bundle parsed state | None => Ok false end);
  if (known : bool) then pure (Ok ("already_installed", generation_ parsed))
  else
    text ← pure (dump (trust_state (generation_ parsed) bundle));
    _ ← atomic_write kTrustFile text io;
    pure (Ok ("installed", generation_ parsed)).
End Bootstrap.
Record PublisherTrustResult := { r_state : string; r_generation : Z; r_error : string }.
Definition start (d : Disk) : Call := {| c_disk := d; c_past := []; c_result := no_result |}.
Definition install_signed_bundle (bootstrap : list PublisherPin) (bundle : string) (now : Z) (io : Io) (d : Disk)
  : PublisherTrustResult * Call :=
  match install_body bootstrap bundle now io (start d) with
  | (Ok (s, g), c) => ({| r_state := s; r_generation := g; r_error := "" |}, c)
  | (Throw e, c) => ({| r_state := "unavailable"; r_generation := 0; r_error := what e |}, c)
  end.
Definition trust_snapshot (bootstrap : list PublisherPin) (now : Z) (io : Io) (d : Disk) : PublisherTrustSnapshot * Call :=
  match (_ ← pure (open_update_directory process_user (io_root io)); _ ← state_lock io; snapshot_locked bootstrap now io)
          (start d) with
  | (Ok s, c) => (s, c)
  | (Throw e, c) => (unavailable 0 "" e, c)
  end.

(** ** The package store *)
(** static pins, or a trust store with its bootstrap pins *)
Record UpdatePackageStore := { pins_ : list PublisherPin; trust_store_ : option (list PublisherPin) }.
(** the pins under which a package issued at that time was verified *)
Definition provenance_pins (store : UpdatePackageStore) (bundle : string) (issued_at : result Z) (whose : string)
  : result (list PublisherPin) :=
  match trust_store_ store with
  | None => Ok (pins_ store)
  | Some bootstrap =>
      issued ← issued_at;
      let historical := historical_publishers bootstrap bundle issued in
      _ ← throw_if (negb (String.eqb (t_state historical) "healthy"))
            (runtime_error (whose +:+ " package trust provenance is " +:+ t_state historical +:+ ": " +:+ t_error historical));
      Ok (active_publishers historical)
  end.
Definition issued_of (raw : string) : result Z := d ← payload_document raw; uint_field d "issued_at_unix_ms".
(** the pins that may sign now, and the bundle that names them *)
Definition current_pins (store : UpdatePackageStore) (now : Z) (io : Io) : M (list PublisherPin * string) :=
  match trust_store_ store with
  | None => pure (Ok (pins_ store, ""))
  | Some bootstrap =>
      trust ← snapshot_locked bootstrap now io;
      _ ← pure (throw_if (negb (String.eqb (t_state trust) "healthy"))
                  (runtime_error ("publisher trust is " +:+ t_state trust +:+ ": " +:+ t_error trust)));
      pure (Ok (active_publishers trust, signed_bundle trust))
  end.
(** the source package: its path, its handle and its size *)
Definition check_source (manifest : Manifest) (io : Io) : result unit :=
  _ ← io_error (io_source_error io);
  throw_if (negb (io_source_regular io) || (io_source_size io <? 0) || negb (io_source_size io =? m_size manifest))
    (runtime_error "source package is not a regular file of the signed size").
(** the recorded package verifies under the trust of its time *)
Definition check_prior (store : UpdatePackageStore) (state : json) (prior_generation : Z) (bundle : string) : result unit :=
  if prior_generation =? 0 then Ok tt
  else
    raw ← value_string "manifest" state;
    prior_pins ← provenance_pins store bundle (issued_of raw) "prior";
    _ ← verify_persisted_manifest state prior_pins;
    Ok tt.
(** the new manifest neither goes back nor forks *)
Definition check_generation (state : json) (prior_generation : Z) (manifest : Manifest) (envelope : json) : result unit :=
  _ ← throw_if (negb (prior_generation =? 0) && (m_generation manifest <? prior_generation))
        (runtime_error "update replay refused: generation is below durable high-water mark");
  if (prior_generation =? m_generation manifest) && negb (prior_generation =? 0) then
    raw ← value_string "manifest" state;
    text ← dump envelope;
    throw_if (negb (String.eqb raw text))
      (runtime_error "update fork refused: generation has different signed manifest")
  else Ok tt.
Definition stage_temp_name (io : Io) : string :=
  ".stage-" +:+ to_string (io_pid io) +:+ "-" +:+ to_string (io_tick io) +:+ ".tmp".
(** [DeleteFileW], whose outcome is not looked at *)
Definition delete_file (name : string) (io : Io) : M unit :=
  if io_deleted io then change (delete name) else pure (Ok tt).
(** the copy of the source into a temporary, and its hash *)
Definition copy_package (manifest : Manifest) (io : Io) : M unit :=
  let temp := stage_temp_name io in
  d ← disk;
  _ ← pure (throw_if (bool_decide (is_Some (d !! temp))) (runtime_error "cannot create package staging temporary"));
  _ ← pure (io_error (io_temp_open io));
  _ ← change (insert temp (File ""));
  _ ← pure (check (io_temp io) false);
  actual ← on_error (digest_open_handle (Some (temp, io)) (m_size manifest) (io_reads io)) (delete_file temp io);
  if String.eqb actual (package_hash manifest) then pure (Ok tt)
  else _ ← delete_file temp io; pure (Throw (runtime_error "package SHA-256 does not match signed manifest")).
(** the temporary becomes the package, unless it is there *)
Definition promote (manifest : Manifest) (final : string) (io : Io) : M unit :=
  let temp := stage_temp_name io in
  d ← disk;
  match io_move io with
  | Some e => _ ← delete_file temp io; pure (Throw e)
  | None =>
      match d !! final with
      | Some _ => _ ← delete_file temp io; verify_staged_file final (m_size manifest) (package_hash manifest) io
      | None => change (fun d => match d !! temp with Some x => insert final x (delete temp d) | None => d end)
      end
  end.
Definition set_identity (m : Manifest) (r : UpdateResult) : UpdateResult := {|
  state := state r; generation := m_generation m; version := m_version m; package_sha256 := package_hash m;
  staged_path := staged_path r; rollback_candidate := rollback_candidate r; error := error r |}.
Definition set_staged (s path : string) (r : UpdateResult) : UpdateResult := {|
  state := s; generation := generation r; version := version r; package_sha256 := package_sha256 r;
  staged_path := path; rollback_candidate := rollback_candidate r; error := error r |}.
Definition set_candidate (path : string) (r : UpdateResult) : UpdateResult := {|
  state := state r; generation := generation r; version := version r; package_sha256 := package_sha256 r;
  staged_path := staged_path r; rollback_candidate := path; error := error r |}.
Definition stage_body (store : UpdatePackageStore) (raw : string) (now : Z) (architecture : string) (io : Io) : M unit :=
  _ ← pure (open_update_directory process_user (io_root io));
  _ ← state_lock io;
  _ ← recover_transaction_temporaries io;
  '(pins, bundle) ← current_pins store now io;
  manifest ← pure (verify_manifest raw pins now architecture);
  _ ← report (set_identity manifest);
  _ ← pure (check_source manifest io);
  state ← load_state io;
  prior_generation ← pure (uint_field state "highest_generation");
  recorded ← pure (value_string "publisher_trust_bundle" state);
  let prior_bundle := if negb (prior_generation =? 0) && bool_decide (is_Some (trust_store_ store)) && str_empty recorded
                      then bundle else recorded in
  _ ← pure (check_prior store state prior_generation prior_bundle);
  envelope ← pure (json_parse raw);
  _ ← pure (check_generation state prior_generation manifest envelope);
  let filename := package_name (m_generation manifest) (package_hash manifest) in
  final ← pure (safe_child filename);
  _ ← copy_package manifest io;
  prior_name ← pure (value_string "staged_filename" state);
  if (prior_generation =? m_generation manifest) && negb (prior_generation =? 0) then
    _ ← delete_file (stage_temp_name io) io;
    prior_file ← pure (safe_child prior_name);
    _ ← verify_staged_file prior_file (m_size manifest) (package_hash manifest) io;
    _ ← report (set_staged "already_staged" prior_file);
    previous ← pure (value_string "previous_filename" state);
    if str_empty previous then pure (Ok tt)
    else path ← pure (safe_child previous); report (set_candidate path)
  else
    _ ← promote manifest final io;
    manifest_text ← pure (dump envelope);
    prior_manifest ← pure (value_string "manifest" state);
    text ← pure (dump (stage_state (m_generation manifest) manifest_text (package_hash manifest) filename prior_generation
                         prior_manifest prior_name 0 bundle prior_bundle));
    _ ← atomic_write kStateFile text io;
    _ ← report (set_staged "staged" final);
    if prior_generation =? 0 then pure (Ok tt)
    else path ← pure (safe_child prior_name); report (set_candidate path).
(** the [catch] of both operations keeps what the result says already *)
Definition failed (e : exn) (r : UpdateResult) : UpdateResult := {|
  state := "failed"; generation := generation r; version := version r; package_sha256 := package_sha256 r;
  staged_path := staged_path r; rollback_candidate := rollback_candidate r; error := what e |}.
Definition conclude (m : M unit) (d : Disk) : UpdateResult * Call :=
  match m (start d) with
  | (Ok _, c) => (c_result c, c)
  | (Throw e, c) => (failed e (c_result c), c)
  end.
Definition stage (store : UpdatePackageStore) (raw : string) (now : Z) (architecture : string) (io : Io) (d : Disk)
  : UpdateResult * Call := conclude (stage_body store raw now architecture io) d.

(** the prior package, verified under the trust of its time *)
Definition rollback_target (store : UpdatePackageStore) (state : json) : result (Manifest * string * Z) :=
  previous_generation ← uint_field state "previous_generation";
  current_generation ← uint_field state "highest_generation";
  _ ← throw_if (current_generation =? 0) (runtime_error "no staged update metadata is available");
  raw ← value_string "manifest" state;
  bundle ← value_string "publisher_trust_bundle" state;
  pins ← provenance_pins store bundle (issued_of raw) "current";
  _ ← verify_persisted_manifest state pins;
  previous_name ← value_string "previous_filename" state;
  _ ← throw_if ((previous_generation =? 0) || str_empty previous_name)
        (runtime_error "no prior staged package is available");
  candidate ← safe_child previous_name;
  previous_raw ← value_string "previous_manifest" state;
  _ ← throw_if (str_empty previous_raw) (runtime_error "prior signed manifest is unavailable");
  document ← payload_document previous_raw;
  issued ← uint_field document "issued_at_unix_ms";
  a ← at_ "architecture" document;
  architecture ← get_string a;
  previous_bundle ← value_string "previous_trust_bundle" state;
  rollback_pins ← provenance_pins store previous_bundle (Ok issued) "rollback";
  verified ← verify_manifest previous_raw rollback_pins issued architecture;
  _ ← throw_if (negb (m_generation verified =? previous_generation)
                || negb (String.eqb previous_name (package_name previous_generation (package_hash verified))))
        (runtime_error "prior rollback metadata does not match its signed package identity");
  Ok (verified, candidate, previous_generation).
Definition set_intent (g : Z) (path : string) (r : UpdateResult) : UpdateResult := {|
  state := "rollback_intent_recorded"; generation := g; version := version r; package_sha256 := package_sha256 r;
  staged_path := staged_path r; rollback_candidate := path;
  error := "selection recorded only; external authorization and installer rollback are not performed" |}.
Definition rollback_body (store : UpdatePackageStore) (io : Io) : M unit :=
  _ ← pure (open_update_directory process_user (io_root io));
  _ ← state_lock io;
  _ ← recover_transaction_temporaries io;
  state ← load_state io;
  '(verified, candidate, previous_generation) ← pure (rollback_target store state);
  _ ← verify_staged_file candidate (m_size verified) (package_hash verified) io;
  text ← pure (dump (set_member "rollback_intent_generation" (JUint previous_generation) state));
  _ ← atomic_write kStateFile text io;
  report (set_intent previous_generation candidate).
Definition record_rollback_intent (store : UpdatePackageStore) (io : Io) (d : Disk) : UpdateResult * Call :=
  conclude (rollback_body store io) d.

(** ** Construction *)
Definition pins_ok (pins : list PublisherPin) : bool :=
  forallb (fun p => (slen (key_id p) =? 64) && negb (str_empty (subject_public_key_info_der p))
                    && (slen (subject_public_key_info_der p) <=? 4096)) pins
  && bool_decide (NoDup (key_id <$> pins)).
(** the root: a local fixed drive, no reparse point on the way, a protected directory *)
Record Root := { fixed_drive : bool; components : result unit; root_object : Object }.
Definition make_trust_store (root : Root) (bootstrap_pins : list PublisherPin) : result (list PublisherPin) :=
  _ ← throw_if (negb (fixed_drive root)) (invalid_argument "publisher trust root must be on a local fixed drive");
  _ ← throw_if ((zlen bootstrap_pins =? 0) || (kMaximumUpdateTrustKeys <? zlen bootstrap_pins))
        (invalid_argument "bootstrap trust must contain 1..8 caller-provisioned pins");
  _ ← throw_if (negb (pins_ok bootstrap_pins)) (invalid_argument "invalid, duplicate, or oversized bootstrap pin");
  _ ← components root;
  _ ← open_update_directory process_user (root_object root);
  Ok bootstrap_pins.
Definition make_pinned_store (root : Root) (pins : list PublisherPin) : result UpdatePackageStore :=
  _ ← throw_if (negb (fixed_drive root)) (invalid_argument "update staging root must be on a local fixed drive");
  _ ← throw_if ((zlen pins =? 0) || (kMaximumUpdateTrustKeys <? zlen pins))
        (invalid_argument "publisher trust set must contain 1..8 pinned keys");
  _ ← throw_if (negb (pins_ok pins)) (invalid_argument "invalid, duplicate, or oversized publisher pin");
  _ ← components root;
  _ ← open_update_directory process_user (root_object root);
  Ok {| pins_ := pins; trust_store_ := None |}.
Definition make_trusting_store (root : Root) (same_root : bool) (bootstrap : list PublisherPin) : result UpdatePackageStore :=
  _ ← throw_if (negb (fixed_drive root)) (invalid_argument "update staging root must be on a local fixed drive");
  _ ← throw_if (negb same_root)
        (invalid_argument "publisher trust state and update stage must share one protected root and lock");
  _ ← components root;
  _ ← open_update_directory process_user (root_object root);
  Ok {| pins_ := []; trust_store_ := Some bootstrap |}.
End Stores.
