(* ===== verification/UpdateLogic.v ===== *)
(** * A crash logic for the update directory

    A triple says what holds of the directory before a computation, after it
    returns, and at every point in between at which the process may stop.  The
    triples of the building blocks of [UpdatePackage] follow: none of them
    changes a package, the stage state or the trust state, except the two
    places that publish a new one. *)

From S2P Require Import Prelude Identity Json UpdateTrust UpdatePackage.

(** ** Triples *)
Definition disks (c : Call) : list Disk := c_disk c :: c_past c.
Definition triple {A} (P : Disk -> UpdateResult -> Prop) (m : M A) (Q : A -> Disk -> UpdateResult -> Prop)
  (E : Disk -> Prop) : Prop := forall c, P (c_disk c) (c_result c) ->
  exists added, c_past (m c).2 = added ++ c_past c /\ Forall E (c_disk (m c).2 :: added) /\
    forall a, (m c).1 = Ok a -> Q a (c_disk (m c).2) (c_result (m c).2).

Lemma triple_conseq {A} (P P' : Disk -> UpdateResult -> Prop) (m : M A) (Q Q' : A -> Disk -> UpdateResult -> Prop)
  (E E' : Disk -> Prop) : triple P m Q E -> (forall d r, P' d r -> P d r) -> (forall a d r, Q a d r -> Q' a d r) ->
  (forall d, E d -> E' d) -> triple P' m Q' E'.
Proof.
  intros H HP HQ HE c Hc. destruct (H c (HP _ _ Hc)) as (added & H1 & H2 & H3).
  exists added. split_and!; [done|by eapply Forall_impl|auto].
Qed.
Lemma triple_pure {A} (r : result A) (P : Disk -> UpdateResult -> Prop) (E : Disk -> Prop) :
  (forall d u, P d u -> E d) -> triple P (pure r) (fun a d u => P d u /\ r = Ok a) E.
Proof. intros HE c Hc. exists []. split_and!; [done| |done]. constructor; [by eapply HE|done]. Qed.
Lemma triple_pure_end {A} (r : result A) P (Q : A -> Disk -> UpdateResult -> Prop) (E : Disk -> Prop) :
  (forall d u, P d u -> E d) -> (forall a d u, r = Ok a -> P d u -> Q a d u) -> triple P (pure r) Q E.
Proof. intros HE HQ c Hc. exists []. split_and!; [done| |eauto]. constructor; [by eapply HE|done]. Qed.
Lemma triple_disk (P : Disk -> UpdateResult -> Prop) (E : Disk -> Prop) :
  (forall d u, P d u -> E d) -> triple P disk (fun a d u => P d u /\ a = d) E.
Proof. intros HE c Hc. exists []. split_and!; [done| |by intros a [= <-]]. constructor; [by eapply HE|done]. Qed.
Lemma triple_change (f : Disk -> Disk) (P Q : Disk -> UpdateResult -> Prop) (E : Disk -> Prop) :
  (forall d u, P d u -> E d /\ E (f d) /\ Q (f d) u) -> triple P (change f) (fun _ => Q) E.
Proof.
  intros H c Hc. destruct (H _ _ Hc) as (H1 & H2 & H3). exists [c_disk c]. split_and!; [done| |done].
  by repeat constructor.
Qed.
Lemma triple_report (f : UpdateResult -> UpdateResult) (P Q : Disk -> UpdateResult -> Prop) (E : Disk -> Prop) :
  (forall d u, P d u -> E d /\ Q d (f u)) -> triple P (report f) (fun _ => Q) E.
Proof. intros H c Hc. destruct (H _ _ Hc) as (H1 & H2). exists []. split_and!; [done| |done]. by repeat constructor. Qed.
Lemma triple_bind {A B} (m : M A) (k : A -> M B) (P : Disk -> UpdateResult -> Prop)
  (Q : A -> Disk -> UpdateResult -> Prop) (R : B -> Disk -> UpdateResult -> Prop) (E : Disk -> Prop) :
  triple P m Q E -> (forall a, triple (Q a) (k a) R E) -> triple P (m ≫= k) R E.
Proof.
  intros Hm Hk c Hc. destruct (Hm c Hc) as (x1 & P1 & E1 & Q1). unfold mbind, M_bind.
  destruct (m c) as [[a|e] c1]; cbn [fst snd] in *; [|by exists x1].
  destruct (Hk a c1 (Q1 a eq_refl)) as (x2 & P2 & E2 & Q2). exists (x2 ++ x1).
  apply Forall_cons in E1 as [_ E1]. apply Forall_cons in E2 as [? E2].
  rewrite P2, P1, app_assoc. split_and!; [done| |done]. constructor; [done|by apply Forall_app].
Qed.
(** a pure step only adds what it returned *)
Lemma triple_pure_bind {A B} (r : result A) (k : A -> M B) P (R : B -> Disk -> UpdateResult -> Prop) (E : Disk -> Prop) :
  (forall d u, P d u -> E d) -> (forall a, r = Ok a -> triple P (k a) R E) -> triple P (pure r ≫= k) R E.
Proof.
  intros HE Hk c Hc. unfold mbind, M_bind, pure. destruct r as [a|e]; cbn [fst snd].
  - exact (Hk a eq_refl c Hc).
  - exists []. split_and!; [done| |done]. constructor; [by eapply HE|done].
Qed.
Lemma triple_disk_bind {B} (k : Disk -> M B) P (R : B -> Disk -> UpdateResult -> Prop) (E : Disk -> Prop) :
  (forall d u, P d u -> E d) -> (forall d, triple (fun d' u => P d' u /\ d' = d) (k d) R E) -> triple P (disk ≫= k) R E.
Proof. intros HE Hk c Hc. exact (Hk (c_disk c) c (conj Hc eq_refl)). Qed.
Lemma triple_throw {A} e (P : Disk -> UpdateResult -> Prop) (Q : A -> Disk -> UpdateResult -> Prop) (E : Disk -> Prop) :
  (forall d u, P d u -> E d) -> triple P (pure (Throw e)) Q E.
Proof. intros HE c Hc. exists []. split_and!; [done| |done]. constructor; [by eapply HE|done]. Qed.
Lemma triple_return {A} (a : A) (P : Disk -> UpdateResult -> Prop) (Q : A -> Disk -> UpdateResult -> Prop)
  (E : Disk -> Prop) : (forall d u, P d u -> E d /\ Q a d u) -> triple P (pure (Ok a)) Q E.
Proof.
  intros H c Hc. destruct (H _ _ Hc). exists []. split_and!; [done|by repeat constructor|]. by intros b [= <-].
Qed.
Lemma triple_on_error {A} (m : M A) (h : M unit) P (Q : A -> Disk -> UpdateResult -> Prop) (E : Disk -> Prop)
  (X : Disk -> Prop) :
  triple P m Q X -> (forall d, X d -> E d) -> triple (fun d _ => X d) h (fun _ _ _ => True) E ->
  triple P (on_error m h) Q E.
Proof.
  intros Hm HX Hh c Hc. destruct (Hm c Hc) as (x1 & P1 & E1 & Q1). unfold on_error.
  destruct (m c) as [[a|e] c1]; cbn [fst snd] in *.
  - exists x1. split_and!; [done|by eapply Forall_impl|done].
  - apply Forall_cons in E1 as [X1 E1]. destruct (Hh c1 X1) as (x2 & P2 & E2 & _). exists (x2 ++ x1).
    apply Forall_cons in E2 as [? E2]. rewrite P2, P1, app_assoc. split_and!; [done| |done].
    constructor; [done|]. apply Forall_app. split; [done|by eapply Forall_impl].
Qed.
(** a pure precondition *)
Lemma triple_assume {A} (F : Prop) P (m : M A) Q E :
  (F -> triple P m Q E) -> triple (fun d u => P d u /\ F) m Q E.
Proof. intros H c [Hc HF]. exact (H HF c Hc). Qed.

(** ** Names *)
Lemma starts_with_split p s : starts_with p s = true -> exists r, s = p +:+ r.
Proof.
  revert s. induction p as [|a p IH]; intros [|b s]; cbn [starts_with]; intros H; try done; [by exists ""|by exists (String b s)|].
  apply andb_true_iff in H as [->%Ascii.eqb_eq H]. apply IH in H as [r ->]. by exists r.
Qed.
Create HintDb update.
Definition package (name : string) : bool := starts_with "package-" name.
(** a name that is neither a package nor one of the two states *)
Definition scratch (name : string) : Prop := package name = false /\ name <> kStateFile /\ name <> kTrustFile.
Lemma matches_scratch p name : p ∈ patterns -> matches p name = true -> scratch name.
Proof.
  unfold patterns, matches. intros Hp [H _]%andb_true_iff. apply starts_with_split in H as [r ->].
  repeat (apply elem_of_cons in Hp as [->|Hp]; [by split_and!|]). by apply not_elem_of_nil in Hp.
Qed.
Lemma write_temp_scratch path io : path = kStateFile \/ path = kTrustFile -> scratch (write_temp_name path io).
Proof. intros [->| ->]; by split_and!. Qed.
Lemma stage_temp_scratch io : scratch (stage_temp_name io).
Proof. by split_and!. Qed.
Lemma lock_scratch : scratch kLockFile.
Proof. by split_and!. Qed.
Lemma package_name_package g hash : package (package_name g hash) = true.
Proof. done. Qed.
Lemma scratch_not_package name other : scratch name -> package other = true -> other <> name.
Proof. intros (H & _ & _) Ho ->. congruence. Qed.
#[global] Hint Resolve matches_scratch stage_temp_scratch lock_scratch package_name_package : update.

(** ** Assertions that scratch files do not matter to *)
Definition stable (P : Disk -> UpdateResult -> Prop) : Prop := forall d u name, scratch name -> P d u ->
  (forall x, P (<[name := x]> d) u) /\ P (delete name d) u.
(** packages and states are as in [d0]; packages may have been added *)
Record quiet (d0 d : Disk) : Prop := {
  q_packages : forall name x, package name = true -> d0 !! name = Some x -> d !! name = Some x;
  q_state : d !! kStateFile = d0 !! kStateFile;
  q_trust : d !! kTrustFile = d0 !! kTrustFile
}.
#[global] Instance quiet_preorder : PreOrder quiet.
Proof. split; [by constructor|]. intros a b c [A1 A2 A3] [B1 B2 B3]. constructor; [auto|congruence..]. Qed.
Lemma quiet_stable d0 : stable (fun d _ => quiet d0 d).
Proof.
  intros d u name Hn [H1 H2 H3]. pose proof Hn as (_ & N1 & N2).
  assert (forall other, package other = true -> name <> other) by (intros other Ho; apply not_eq_sym; by eapply scratch_not_package).
  split; [intros x|]; (constructor; [intros other y Ho Hy| |]); rewrite ?lookup_insert_ne, ?lookup_delete_ne by auto; auto.
Qed.
Lemma stable_and P Q : stable P -> stable Q -> stable (fun d u => P d u /\ Q d u).
Proof. intros HP HQ d u n Hn [Hp Hq]. destruct (HP _ _ _ Hn Hp), (HQ _ _ _ Hn Hq). split; auto. Qed.
Lemma stable_pure (F : Prop) : stable (fun _ _ => F).
Proof. done. Qed.
Lemma stable_result (F : UpdateResult -> Prop) : stable (fun _ u => F u).
Proof. done. Qed.
Lemma stable_lookup name x : ~ scratch name -> stable (fun d _ => d !! name = x).
Proof.
  intros Hn d u n Hs Hd. assert (name <> n) by congruence.
  split; intros; by rewrite ?lookup_insert_ne, ?lookup_delete_ne by done.
Qed.
#[global] Hint Resolve quiet_stable stable_and stable_pure stable_result : update.

Section Blocks.
Context (cng_sha256 : string -> string + list Z) (process_user : result string).
Abbreviation check := (check_object process_user).

(** the file is there and has that size and hash *)
Definition holds (d : Disk) (name : string) (size : Z) (hash : string) : Prop :=
  exists c, d !! name = Some (File c) /\ slen c = size /\ sha256 cng_sha256 c = Ok hash.
Lemma holds_stable name size hash : package name = true -> stable (fun d _ => holds d name size hash).
Proof.
  intros Hp d u n Hn (c & Hc & H). assert (name <> n) by by eapply scratch_not_package.
  split; intros; exists c; by rewrite ?lookup_insert_ne, ?lookup_delete_ne.
Qed.
Lemma holds_quiet d0 d name size hash : quiet d0 d -> package name = true -> holds d0 name size hash ->
  holds d name size hash.
Proof. intros [H _ _] Hp (c & Hc & Hh). exists c. split; [by apply H|done]. Qed.

Lemma digest_only_triple (P : Disk -> UpdateResult -> Prop) (E : Disk -> Prop) size c failed :
  (forall d u, P d u -> E d) ->
  triple P (digest_open_handle cng_sha256 None size (match failed with Some e => [inl e] | None => [inr c] end))
    (fun digest d u => P d u /\ (slen c = size -> sha256 cng_sha256 c = Ok digest)) E.
Proof.
  intros HE. unfold digest_open_handle. eapply (triple_bind _ _ _ (fun t d u => P d u /\ t = c)).
  - destruct failed; cbn [copy_loop]; [by apply triple_throw|]. destruct c as [|ch c]; cbn [str_empty].
    { apply triple_return. eauto. }
    apply triple_pure_bind; [done|intros _ _]. apply triple_pure_bind; [done|intros _ _].
    apply triple_return. eauto.
  - intros t. apply triple_pure_bind; [naive_solver|intros _ _]. apply triple_pure_bind; [naive_solver|intros dg Hd].
    apply triple_pure_bind; [naive_solver|intros _ _]. apply triple_return. intros d u [Hp ->]. eauto.
Qed.

(** the copy of the source: what was read is in the temporary *)
Lemma copy_loop_triple (P : Disk -> UpdateResult -> Prop) (E : Disk -> Prop) temp io size i reads text :
  stable P -> (forall d u, P d u -> E d) -> scratch temp ->
  triple (fun d u => P d u /\ d !! temp = Some (File text)) (copy_loop (Some (temp, io)) size i reads text)
    (fun t d u => P d u /\ d !! temp = Some (File t)) E.
Proof.
  intros HP HE Hs. revert i text. induction reads as [|[e|data] reads IH]; intros i text; cbn [copy_loop].
  - apply triple_return. naive_solver.
  - apply triple_throw. naive_solver.
  - destruct (str_empty data); [apply triple_return; naive_solver|].
    apply triple_pure_bind; [naive_solver|intros _ _].
    assert (Hput : forall t d u, P d u /\ d !! temp = Some (File text) ->
      E d /\ E (<[temp := File t]> d) /\ P (<[temp := File t]> d) u /\ <[temp := File t]> d !! temp = Some (File t)).
    { intros t d u [Hd _]. destruct (HP _ _ _ Hs Hd) as [Hi _]. rewrite lookup_insert_eq. split_and!; eauto. }
    destruct (io_write_failed io i) as [[n e]|].
    + eapply triple_bind; [|intros ?; apply IH]. eapply triple_bind.
      * apply (triple_change _ _ (fun d u => P d u)). intros d u Hd. destruct (Hput (text +:+ str_take n data) d u Hd). naive_solver.
      * intros ?. apply triple_throw. eauto.
    + eapply triple_bind; [|intros ?; apply IH]. apply triple_change. intros d u Hd. by apply Hput.
Qed.

Section Stable.
Context (P : Disk -> UpdateResult -> Prop) (E : Disk -> Prop) (HP : stable P) (HE : forall d u, P d u -> E d).
Lemma recover_names_triple r names examined : Forall scratch names ->
  triple P (recover_names process_user r names examined) (fun _ => P) E.
Proof.
  intros Hn. revert examined. induction Hn as [|name names Hs _ IH]; intros examined; cbn [recover_names].
  { apply triple_return. eauto. }
  apply triple_pure_bind; [done|intros _ _]. apply triple_disk_bind; [done|intros d].
  apply triple_pure_bind; [naive_solver|intros _ _]. apply triple_pure_bind; [naive_solver|intros _ _].
  apply triple_pure_bind; [naive_solver|intros _ _].
  eapply triple_bind; [apply (triple_change _ _ P)|intros ?; apply IH].
  intros d' u [Hd _]. destruct (HP _ _ _ Hs Hd). eauto.
Qed.
Lemma recover_patterns_triple r i l examined : incl l patterns ->
  triple P (recover_patterns process_user r i l examined) (fun _ => P) E.
Proof.
  revert i examined. induction l as [|p l IH]; intros i examined Hl; cbn [recover_patterns]; [apply triple_return; eauto|].
  apply triple_disk_bind; [done|intros d]. apply triple_pure_bind; [naive_solver|intros _ _].
  eapply triple_bind.
  { eapply triple_conseq; [eapply (recover_names_triple r _ examined)| |exact (fun _ _ _ H => H)|done]; [|by intros ? ? [? _]].
    apply Forall_forall. intros name Hin. apply list_elem_of_filter in Hin as [Hm _].
    eapply matches_scratch; [|by apply Is_true_true]. apply list_elem_of_In, Hl. by left. }
  intros n. apply triple_pure_bind; [done|intros _ _]. apply IH. intros x Hx. apply Hl. by right.
Qed.
Lemma recover_triple io : triple P (recover_transaction_temporaries process_user io) (fun _ => P) E.
Proof. apply recover_patterns_triple, incl_refl. Qed.
Lemma state_lock_triple io : triple P (state_lock process_user io) (fun _ => P) E.
Proof.
  unfold state_lock. apply triple_pure_bind; [done|intros _ _]. apply triple_disk_bind; [done|intros d].
  eapply (triple_bind _ _ _ (fun _ => P)).
  - destruct (d !! kLockFile); [apply triple_return; naive_solver|]. apply (triple_change _ _ P).
    intros d' u [Hd _]. destruct (HP _ _ _ lock_scratch Hd). eauto.
  - intros _. apply triple_pure_bind; [done|intros _ _]. eapply triple_conseq; [by apply triple_pure| |by intros ? ? ? [? _]|]; done.
Qed.
Lemma delete_file_triple name io : scratch name -> triple P (delete_file name io) (fun _ => P) E.
Proof.
  intros Hn. unfold delete_file. destruct (io_deleted io); [|apply triple_return; eauto].
  apply (triple_change _ _ P). intros d u Hd. destruct (HP _ _ _ Hn Hd). eauto.
Qed.
(** the new contents appear at once *)
Lemma atomic_write_triple path bytes io : path = kStateFile \/ path = kTrustFile ->
  (forall d u, P d u -> E (<[path := File bytes]> d)) ->
  triple P (atomic_write process_user path bytes io) (fun _ d' u => exists d, P d u /\ d' = <[path := File bytes]> d) E.
Proof.
  intros Hp Hnew. pose proof (write_temp_scratch path io Hp) as Hs. unfold atomic_write. apply triple_disk_bind; [done|intros d].
  apply triple_pure_bind; [naive_solver|intros _ _]. apply triple_pure_bind; [naive_solver|intros _ _].
  eapply triple_bind; [apply (triple_change _ _ P)|intros ?].
  { intros d' u [Hd _]. destruct (HP _ _ _ Hs Hd) as [? _]. eauto. }
  apply triple_pure_bind; [done|intros _ _].
  eapply (triple_bind _ _ _ (fun _ => P)).
  - destruct (io_write io).
    2: { eapply triple_bind; [apply (triple_change _ _ P)|intros ?; apply triple_throw; done].
         intros d' u Hd. destruct (HP _ _ _ Hs Hd) as [? _]. eauto. }
    all: apply (triple_change _ _ P); intros d' u Hd; destruct (HP _ _ _ Hs Hd) as [? _]; eauto.
  - intros _. destruct (io_write io).
    3: { eapply (triple_bind _ _ _ (fun _ => P)); [|intros _; apply triple_throw; done].
         destruct deleted; [|apply triple_return; eauto]. apply (triple_change _ _ P).
         intros d' u Hd. destruct (HP _ _ _ Hs Hd). eauto. }
    all: apply (triple_change _ P (fun d1 u => exists d, P d u /\ d1 = <[path := File bytes]> d)).
    all: intros d' u Hd; destruct (HP _ _ _ Hs Hd) as [_ ?]; split_and!; eauto.
Qed.
Lemma read_regular_triple name o failed limit kind size :
  triple P (read_regular process_user name o failed limit kind size) (fun a d u => P d u /\
    match a with
    | None => d !! name = None
    | Some c => d !! name = Some (File c) /\ slen c <> 0 /\ slen c <= limit
    end) E.
Proof.
  unfold read_regular. apply triple_pure_bind; [done|intros _ _]. apply triple_disk_bind; [done|intros d].
  destruct (d !! name) as [[c|]|] eqn:Ed; [|apply triple_throw; naive_solver|apply triple_return; naive_solver].
  apply triple_pure_bind; [naive_solver|intros _ _]. apply triple_pure_bind; [naive_solver|intros ? Hs].
  apply triple_pure_bind; [naive_solver|intros _ _]. apply triple_return. intros d' u [Hd ->]. split; [eauto|].
  apply throw_if_Ok, orb_false_iff in Hs as [?%Z.eqb_neq ?]. split_and!; try done. lia.
Qed.
Lemma verify_staged_triple name size hash io :
  triple P (verify_staged_file cng_sha256 process_user name size hash io)
    (fun _ d u => P d u /\ holds d name size hash) E.
Proof.
  unfold verify_staged_file. apply triple_disk_bind; [done|intros d].
  destruct (d !! name) as [[c|]|] eqn:Ed; try (apply triple_throw; naive_solver).
  apply triple_pure_bind; [naive_solver|intros _ _]. apply triple_pure_bind; [naive_solver|intros ? Hs].
  apply throw_if_Ok, negb_false_iff, Z.eqb_eq in Hs.
  eapply triple_bind; [apply digest_only_triple; naive_solver|intros dg]. cbn beta.
  apply triple_pure_end; [naive_solver|]. intros u1 d' u He [[H1 ->] H2].
  split; [done|]. exists c. apply throw_if_Ok, negb_false_iff, String.eqb_eq in He as <-. auto.
Qed.
Lemma copy_package_triple m io : triple P (copy_package cng_sha256 process_user m io)
  (fun _ d u => P d u /\ holds d (stage_temp_name io) (m_size m) (package_hash m)) E.
Proof.
  pose proof (stage_temp_scratch io) as Hs. unfold copy_package. apply triple_disk_bind; [done|intros d].
  do 2 (apply triple_pure_bind; [naive_solver|intros _ _]).
  eapply triple_bind; [apply (triple_change _ _ (fun d u => P d u /\ d !! stage_temp_name io = Some (File "")))|intros ?].
  { intros d' u [Hd _]. destruct (HP _ _ _ Hs Hd) as [Hi _]. rewrite lookup_insert_eq. split_and!; eauto. }
  apply triple_pure_bind; [naive_solver|intros _ _].
  eapply (triple_bind _ _ _ (fun dg d u => P d u /\ exists c, d !! stage_temp_name io = Some (File c) /\
    slen c = m_size m /\ sha256 cng_sha256 c = Ok dg)).
  - eapply (triple_on_error _ _ _ _ _ (fun d => exists u, P d u)); [|naive_solver|].
    + unfold digest_open_handle. eapply triple_bind; [by apply (copy_loop_triple P); eauto|]. intros t. cbn beta.
      apply triple_pure_bind; [naive_solver|intros ? Hl]. apply triple_pure_bind; [naive_solver|intros dg Hd].
      apply triple_pure_bind; [naive_solver|intros _ _]. apply triple_return. intros d' u [Hp Ht]. split; [eauto|].
      split; [done|]. exists t. apply throw_if_Ok, negb_false_iff, Z.eqb_eq in Hl. done.
    + intros c0 (u & Hd). destruct (delete_file_triple _ io Hs {| c_disk := c_disk c0; c_past := c_past c0; c_result := u |} Hd)
        as (x & X1 & X2 & _). unfold delete_file, change, pure in *.
      destruct (io_deleted io); cbn in *; exists x; split_and!; done.
  - intros dg. destruct (String.eqb_spec dg (package_hash m)) as [->|].
    + apply triple_return. intros d' u [Hp (c & Hc)]. split; [eauto|]. split; [done|]. exists c. tauto.
    + eapply triple_bind; [|intros ?; apply triple_throw; exact HE].
      eapply triple_conseq; [apply (delete_file_triple _ io Hs)|naive_solver|exact (fun _ _ _ H => H)|done].
Qed.
(** the package appears under its name, or was there *)
Lemma promote_triple m final io : package final = true ->
  (forall d u x, d !! final = None -> P d u -> E (<[final := x]> d) /\ P (<[final := x]> d) u) ->
  triple (fun d u => P d u /\ holds d (stage_temp_name io) (m_size m) (package_hash m))
    (promote cng_sha256 process_user m final io)
    (fun _ d u => P d u /\ holds d final (m_size m) (package_hash m)) E.
Proof.
  intros Hf Hadd. pose proof (stage_temp_scratch io) as Hs. unfold promote. apply triple_disk_bind; [naive_solver|intros d].
  destruct (io_move io).
  { eapply triple_bind; [|intros ?; apply triple_throw; exact HE].
    eapply triple_conseq; [apply (delete_file_triple _ io Hs)|naive_solver|exact (fun _ _ _ H => H)|done]. }
  destruct (d !! final) eqn:Ed.
  { eapply triple_bind; [|intros ?; apply verify_staged_triple].
    eapply triple_conseq; [apply (delete_file_triple _ io Hs)|naive_solver|exact (fun _ _ _ H => H)|done]. }
  apply triple_change. intros d' u [[Hd (c & Hc & Hh)] ->]. rewrite Hc.
  destruct (HP _ _ _ Hs Hd) as [_ Hdel].
  assert (final <> stage_temp_name io) by by eapply scratch_not_package.
  destruct (Hadd (delete (stage_temp_name io) d) u (File c)) as [? ?]; [by rewrite lookup_delete_ne|done|].
  split_and!; [eauto|done|done|]. exists c. by rewrite lookup_insert_eq.
Qed.
End Stable.
End Blocks.
