(* ===== verification/UpdateFacts.v ===== *)
(** * What the update stores promise

    Over any sequence of calls, each of which may stop at any point and meet
    any answer of the system: the recorded generation never falls or forks, a
    recorded package is signed, complete and on disk, and so is the one a
    rollback would select. *)

From S2P Require Import Prelude Identity Json UpdateTrust UpdatePackage UpdateLogic.

Section Stores.
Context (cng_sha256 : string -> string + list Z).
Context (json_parse : string -> result json) (dump : json -> result string).
Context (base64_decode : string -> option string) (spki_algorithm : string -> option (option string)).
Context (Key : Type) (import_key : string -> option (Key * option string)).
Context (verify_signature : Key -> list Z -> string -> bool).
Context (process_user : result string).

Abbreviation parse_trust_bundle := (UpdateTrust.parse_trust_bundle cng_sha256 json_parse dump base64_decode
  spki_algorithm Key import_key verify_signature).
Abbreviation verify_manifest := (UpdatePackage.verify_manifest cng_sha256 json_parse dump base64_decode
  spki_algorithm Key import_key verify_signature).
Abbreviation check_prior := (UpdatePackage.check_prior cng_sha256 json_parse dump base64_decode
  spki_algorithm Key import_key verify_signature).
Abbreviation current_pins := (UpdatePackage.current_pins cng_sha256 json_parse dump base64_decode
  spki_algorithm Key import_key verify_signature process_user).
Abbreviation stage_body := (UpdatePackage.stage_body cng_sha256 json_parse dump base64_decode
  spki_algorithm Key import_key verify_signature process_user).
Abbreviation do_stage := (UpdatePackage.stage cng_sha256 json_parse dump base64_decode
  spki_algorithm Key import_key verify_signature process_user).
Abbreviation parse_state := (UpdatePackage.parse_state json_parse).
Abbreviation holds := (UpdateLogic.holds cng_sha256).

(** ** What the directory records *)
Definition first_state : json := stage_state 0 "" "" "" 0 "" "" 0 "" "".
Definition recorded (d : Disk) : result json :=
  match d !! kStateFile with
  | None => Ok first_state
  | Some Unsafe => Throw (runtime_error "update metadata is not a regular file")
  | Some (File c) =>
      if (slen c =? 0) || (1024 * 1024 <? slen c)
      then Throw (runtime_error "update metadata is empty, unreadable, or oversized") else parse_state c
  end.
Lemma load_state_triple P (E : Disk -> Prop) io : (forall d u, P d u -> E d) ->
  triple P (load_state json_parse process_user io) (fun s d u => P d u /\ recorded d = Ok s) E.
Proof.
  intros HE. unfold load_state. eapply triple_bind; [by apply read_regular_triple|]. intros o. cbn beta.
  apply triple_pure_end; [naive_solver|]. intros s d u Hs [Hp Ho]. split; [done|]. unfold recorded.
  destruct o as [c|]; [|by rewrite Ho]. destruct Ho as (-> & Hn & Hl).
  rewrite (proj2 (Z.eqb_neq _ _) Hn), (proj2 (Z.ltb_ge _ _) Hl). exact Hs.
Qed.
Definition trust_record (d : Disk) : result (option json) :=
  match d !! kTrustFile with
  | None => Ok None
  | Some Unsafe => Throw (runtime_error "publisher trust state is not a regular file")
  | Some (File c) =>
      if (slen c =? 0) || (kMaximumUpdateManifestBytes + 4096 <? slen c)
      then Throw (runtime_error "publisher trust state is empty or oversized")
      else state ← parse_trust_state json_parse c; Ok (Some state)
  end.
Lemma read_regular_same name o failed limit kind size c :
  (read_regular process_user name o failed limit kind size c).2 = c.
Proof. unfold read_regular, mbind, M_bind, pure, disk. repeat case_match; simplify_eq; done. Qed.
Lemma read_trust_same io c : (read_trust_state json_parse process_user io c).2 = c.
Proof.
  unfold read_trust_state, mbind, M_bind, pure.
  pose proof (read_regular_same kTrustFile (io_trust io) (io_trust_read io) (kMaximumUpdateManifestBytes + 4096)
    "publisher trust state is not a regular file" "publisher trust state is empty or oversized" c) as H.
  destruct (read_regular _ _ _ _ _ _ _ c) as [[a|e] c1]; done.
Qed.
Lemma read_trust_triple P (E : Disk -> Prop) io : (forall d u, P d u -> E d) ->
  triple P (read_trust_state json_parse process_user io) (fun o d u => P d u /\ trust_record d = Ok o) E.
Proof.
  intros HE. unfold read_trust_state. eapply triple_bind; [by apply read_regular_triple|]. intros o. cbn beta.
  apply triple_pure_end; [naive_solver|]. intros s d u Hs [Hp Ho]. split; [done|]. unfold trust_record.
  destruct o as [c|]; [|by rewrite Ho]. destruct Ho as (-> & Hn & Hl).
  rewrite (proj2 (Z.eqb_neq _ _) Hn), (proj2 (Z.ltb_ge _ _) Hl). exact Hs.
Qed.

(** ** Who may sign now *)
Definition signers (store : UpdatePackageStore) (now : Z) (pins : list PublisherPin) (bundle : string) : Prop :=
  match trust_store_ store with
  | None => pins = pins_ store /\ bundle = ""
  | Some bootstrap => exists parsed, parse_trust_bundle bundle bootstrap now true = Ok parsed /\
      pins = publishers_at now (keys_ parsed)
  end.
(** the bundle is the one the trust store has installed *)
Definition installed (store : UpdatePackageStore) (d : Disk) (bundle : string) : Prop :=
  trust_store_ store <> None -> exists state, trust_record d = Ok (Some state) /\ find "signed_bundle" state = Some (JStr bundle).
Lemma snapshot_healthy bootstrap now io c s : 
  snapshot_locked cng_sha256 json_parse dump base64_decode spki_algorithm Key import_key verify_signature process_user
    bootstrap now io c = (Ok s, c) -> t_state s = "healthy" ->
  exists state parsed, (read_trust_state json_parse process_user io c).1 = Ok (Some state) /\
    find "signed_bundle" state = Some (JStr (signed_bundle s)) /\
    parse_trust_bundle (signed_bundle s) bootstrap now true = Ok parsed /\
    active_publishers s = publishers_at now (keys_ parsed).
Proof.
  unfold snapshot_locked. destruct (read_trust_state _ _ _ _) as [r c1]. intros [= Hs ->] Hh. subst s. cbn [fst].
  destruct r as [[state|]|e]; [|done|done]. 
  destruct (at_ "signed_bundle" state) as [b|] eqn:Ea; cbn [mbind result_bind] in *; [|done].
  destruct (get_string b) as [raw|] eqn:Eg; cbn [mbind result_bind] in *; [|done].
  destruct (parse_trust_bundle raw bootstrap now true) as [parsed|] eqn:Ep; cbn [mbind result_bind] in *; [|done].
  destruct (_ ≫= _) in Hh |- *; [|done]. unfold with_active in *.
  destruct (publishers_at now (keys_ parsed)) eqn:El; [done|]. exists state, parsed. split_and!; try done.
  - apply at_Ok in Ea. destruct b; try done. cbn in Eg. injection Eg as ->. done.
Qed.
Lemma current_pins_triple P (E : Disk -> Prop) store now io : (forall d u, P d u -> E d) ->
  triple P (current_pins store now io)
    (fun a d u => P d u /\ signers store now a.1 a.2 /\ installed store d a.2) E.
Proof.
  intros HE. unfold UpdatePackage.current_pins, signers, installed. destruct (trust_store_ store) as [bootstrap|] eqn:Et.
  - eapply (triple_bind _ _ _ (fun s d u => P d u /\ (t_state s = "healthy" ->
      (exists parsed, parse_trust_bundle (signed_bundle s) bootstrap now true = Ok parsed /\
         active_publishers s = publishers_at now (keys_ parsed)) /\
      exists state, trust_record d = Ok (Some state) /\ find "signed_bundle" state = Some (JStr (signed_bundle s))))).
    + intros c Hc. destruct (read_trust_triple P E io HE c Hc) as (x & X1 & X2 & X3).
      pose proof (snapshot_healthy bootstrap now io c) as Hh. pose proof (read_trust_same io c) as Hsame.
      unfold snapshot_locked in *. destruct (read_trust_state _ _ _ _) as [r c1]. cbn [fst snd] in *. subst c1.
      exists x. split_and!; [done..|]. intros s [= <-]. split; [done|]. intros Hst.
      destruct (Hh _ eq_refl Hst) as (state & parsed & Hr & Hf & Hp & Ha).
      split; [by exists parsed|]. exists state. split; [|done]. by apply X3.
    + intros s. apply triple_pure_bind; [naive_solver|intros ? Hh].
      apply throw_if_Ok, negb_false_iff, String.eqb_eq in Hh. apply triple_return. naive_solver.
  - apply triple_return. naive_solver.
Qed.

(** ** Staging *)
(** what a call that gets as far as the copy has established *)
Record Staging := {
  g_state : json; g_prior : Z; g_pins : list PublisherPin; g_bundle : string; g_prior_bundle : string; g_envelope : json;
  g_manifest : Manifest
}.
Definition prior_bundle_of (store : UpdatePackageStore) (prior : Z) (bundle recorded : string) : string :=
  if negb (prior =? 0) && bool_decide (is_Some (trust_store_ store)) && str_empty recorded then bundle else recorded.
Record accepted (store : UpdatePackageStore) (raw : string) (now : Z) (arch : string) (d0 : Disk) (g : Staging) : Prop := {
  ac_state : recorded d0 = Ok (g_state g);
  ac_prior : uint_field (g_state g) "highest_generation" = Ok (g_prior g);
  ac_signers : signers store now (g_pins g) (g_bundle g);
  ac_installed : installed store d0 (g_bundle g);
  ac_manifest : verify_manifest raw (g_pins g) now arch = Ok (g_manifest g);
  ac_bundle : exists b, value_string "publisher_trust_bundle" (g_state g) = Ok b /\
    g_prior_bundle g = prior_bundle_of store (g_prior g) (g_bundle g) b;
  ac_check : check_prior store (g_state g) (g_prior g) (g_prior_bundle g) = Ok tt;
  ac_envelope : json_parse raw = Ok (g_envelope g);
  ac_generation : check_generation dump (g_state g) (g_prior g) (g_manifest g) (g_envelope g) = Ok tt
}.
Definition g_name (g : Staging) : string := package_name (m_generation (g_manifest g)) (package_hash (g_manifest g)).
Definition g_holds (d : Disk) (name : string) (g : Staging) : Prop :=
  holds d name (m_size (g_manifest g)) (package_hash (g_manifest g)).
Definition new_state (g : Staging) (text prior_manifest prior_name : string) : json :=
  stage_state (m_generation (g_manifest g)) text (package_hash (g_manifest g)) (g_name g) (g_prior g) prior_manifest
    prior_name 0 (g_bundle g) (g_prior_bundle g).
(** the directory with the new state *)
Definition published (d0 d : Disk) (g : Staging) : Prop := exists d1 text prior_manifest prior_name written,
  quiet d0 d1 /\ g_holds d1 (g_name g) g /\ (g_prior g = 0 \/ g_prior g <> m_generation (g_manifest g)) /\
  dump (g_envelope g) = Ok text /\ value_string "manifest" (g_state g) = Ok prior_manifest /\
  value_string "staged_filename" (g_state g) = Ok prior_name /\
  dump (new_state g text prior_manifest prior_name) = Ok written /\ d = <[kStateFile := File written]> d1.
Definition stage_point (store : UpdatePackageStore) (raw : string) (now : Z) (arch : string) (d0 d : Disk) : Prop :=
  quiet d0 d \/ exists g, accepted store raw now arch d0 g /\ published d0 d g.
(** a successful call *)
Definition stage_done (store : UpdatePackageStore) (raw : string) (now : Z) (arch : string) (d0 d : Disk)
  (u : UpdateResult) : Prop := exists g, accepted store raw now arch d0 g /\
  generation u = m_generation (g_manifest g) /\ version u = m_version (g_manifest g) /\
  package_sha256 u = package_hash (g_manifest g) /\ g_holds d (staged_path u) g /\
  (state u = "already_staged" /\ quiet d0 d /\ g_prior g = m_generation (g_manifest g) /\ g_prior g <> 0 /\
     value_string "staged_filename" (g_state g) = Ok (staged_path u)
   \/ state u = "staged" /\ published d0 d g /\ staged_path u = g_name g).
Lemma safe_child_same name path : safe_child name = Ok path -> path = name.
Proof. unfold safe_child. intros H. apply bind_Ok in H as (? & _ & [= <-]). done. Qed.
Lemma recorded_quiet d0 d : quiet d0 d -> recorded d = recorded d0.
Proof. intros [_ H _]. unfold recorded. by rewrite H. Qed.
Lemma installed_quiet store d0 d b : quiet d0 d -> installed store d b -> installed store d0 b.
Proof. intros [_ _ H]. unfold installed, trust_record. by rewrite H. Qed.
Lemma quiet_add d0 d name x : package name = true -> d !! name = None -> quiet d0 d -> quiet d0 (<[name := x]> d).
Proof.
  intros Hp Hn [H1 H2 H3]. assert (name <> kStateFile /\ name <> kTrustFile) as [? ?] by (split; by intros ->).
  constructor; [|by rewrite lookup_insert_ne..]. intros other y Ho Hy. apply H1 in Hy; [|done].
  rewrite lookup_insert_ne; congruence.
Qed.
(** the result names the manifest *)
Definition named (m : Manifest) (u : UpdateResult) : Prop :=
  generation u = m_generation m /\ version u = m_version m /\ package_sha256 u = package_hash m.
Lemma stage_triple_known store raw now arch io d0 g : accepted store raw now arch d0 g ->
  g_prior g = m_generation (g_manifest g) -> g_prior g <> 0 ->
  triple (fun d u => (quiet d0 d /\ named (g_manifest g) u) /\
      holds d (stage_temp_name io) (m_size (g_manifest g)) (package_hash (g_manifest g)))
    (prior_name ← pure (value_string "staged_filename" (g_state g));
     _ ← delete_file (stage_temp_name io) io;
     prior_file ← pure (safe_child prior_name);
     _ ← verify_staged_file cng_sha256 process_user prior_file (m_size (g_manifest g)) (package_hash (g_manifest g)) io;
     _ ← report (set_staged "already_staged" prior_file);
     previous ← pure (value_string "previous_filename" (g_state g));
     if str_empty previous then pure (Ok tt)
     else path ← pure (safe_child previous); report (set_candidate path))
    (fun _ d u => stage_done store raw now arch d0 d u) (stage_point store raw now arch d0).
Proof.
  intros Ha Hg H0. set (P := fun (d : Disk) (u : UpdateResult) => quiet d0 d /\ named (g_manifest g) u).
  assert (HS : stable P) by (apply stable_and; [apply quiet_stable|apply stable_result]).
  assert (HE : forall d u, P d u -> stage_point store raw now arch d0 d) by (intros d u [? _]; by left).
  apply triple_pure_bind; [intros d u [? _]; by apply (HE d u)|intros prior_name Hn]. eapply triple_bind.
  { eapply triple_conseq; [by apply (delete_file_triple P _ HS HE _ io), stage_temp_scratch|by intros ? ? [? _]
      |exact (fun _ _ _ H => H)|done]. }
  intros ?. apply triple_pure_bind; [done|intros path ->%safe_child_same].
  eapply triple_bind; [by apply verify_staged_triple|intros ?]. cbn beta.
  eapply triple_bind; [apply (triple_report _ _ (stage_done store raw now arch d0))|intros ?].
  { intros d u [[Hq (N1 & N2 & N3)] Hh]. split; [by left|]. exists g. split_and!; try done. left. by split_and!. }
  assert (HD : forall d u, stage_done store raw now arch d0 d u -> stage_point store raw now arch d0 d).
  { intros d u (g' & Hac & _ & _ & _ & _ & [(_ & ? & _)|(_ & ? & _)]); [by left|right; eauto]. }
  apply triple_pure_bind; [done|intros previous _].
  destruct (str_empty previous); [apply triple_return; eauto|].
  apply triple_pure_bind; [done|intros other _]. apply triple_report. intros d u Hd. split; [eauto|]. exact Hd.
Qed.
Lemma stage_triple_fresh store raw now arch io d0 g : accepted store raw now arch d0 g ->
  (g_prior g = 0 \/ g_prior g <> m_generation (g_manifest g)) ->
  triple (fun d u => (quiet d0 d /\ named (g_manifest g) u) /\
      holds d (stage_temp_name io) (m_size (g_manifest g)) (package_hash (g_manifest g)))
    (prior_name ← pure (value_string "staged_filename" (g_state g));
     _ ← promote cng_sha256 process_user (g_manifest g) (g_name g) io;
     text ← pure (dump (g_envelope g));
     prior_manifest ← pure (value_string "manifest" (g_state g));
     written ← pure (dump (new_state g text prior_manifest prior_name));
     _ ← atomic_write process_user kStateFile written io;
     _ ← report (set_staged "staged" (g_name g));
     if g_prior g =? 0 then pure (Ok tt)
     else path ← pure (safe_child prior_name); report (set_candidate path))
    (fun _ d u => stage_done store raw now arch d0 d u) (stage_point store raw now arch d0).
Proof.
  intros Ha Hg. set (P := fun (d : Disk) (u : UpdateResult) => quiet d0 d /\ named (g_manifest g) u).
  assert (HS : stable P) by (apply stable_and; [apply quiet_stable|apply stable_result]).
  assert (HE : forall d u, P d u -> stage_point store raw now arch d0 d) by (intros d u [? _]; by left).
  apply triple_pure_bind; [intros d u [? _]; by apply (HE d u)|intros prior_name Hn].
  eapply triple_bind; [apply (promote_triple _ _ P _ HS HE); [done|]|intros ?; cbn beta].
  { intros d u x Hd [Hq Hu]. assert (quiet d0 (<[g_name g := x]> d)) by by apply quiet_add. split; [by left|done]. }
  pose (P1 := fun (d : Disk) (u : UpdateResult) => P d u /\ g_holds d (g_name g) g).
  assert (HS1 : stable P1) by (apply stable_and; [done|by apply holds_stable]).
  assert (HE1 : forall d u, P1 d u -> stage_point store raw now arch d0 d) by (intros d u [? _]; eauto).
  apply triple_pure_bind; [done|intros text Ht]. apply triple_pure_bind; [done|intros pm Hpm].
  apply triple_pure_bind; [done|intros written Hw].
  assert (HP : forall d u, P1 d u -> published d0 (<[kStateFile := File written]> d) g).
  { intros d u [[Hq _] Hh]. by exists d, text, pm, prior_name, written. }
  eapply triple_bind; [apply (atomic_write_triple cng_sha256 _ P1 _ HS1 HE1); [by left|]|intros ?; cbn beta].
  { intros d u Hd. right. exists g. eauto. }
  assert (HD : forall d u, stage_done store raw now arch d0 d u -> stage_point store raw now arch d0 d).
  { intros d u (g' & Hac & _ & _ & _ & _ & [(_ & ? & _)|(_ & ? & _)]); [by left|right; eauto]. }
  eapply triple_bind; [apply (triple_report _ _ (stage_done store raw now arch d0))|intros ?].
  { intros d' u (d & Hd & ->). split; [right; exists g; eauto|]. exists g. pose proof Hd as [[_ (N1 & N2 & N3)] (c & Hc & Hh)].
    split_and!; try done; [|right; split_and!; eauto]. exists c. by rewrite lookup_insert_ne. }
  destruct (g_prior g =? 0); [apply triple_return; eauto|].
  apply triple_pure_bind; [done|intros other _]. apply triple_report. intros d u Hd. split; [eauto|]. exact Hd.
Qed.
Lemma stage_triple store raw now arch io d0 :
  triple (fun d _ => d = d0) (stage_body store raw now arch io) (fun _ d u => stage_done store raw now arch d0 d u)
    (stage_point store raw now arch d0).
Proof.
  unfold UpdatePackage.stage_body. set (Q0 := fun (d : Disk) (_ : UpdateResult) => quiet d0 d).
  assert (HS : stable Q0) by apply quiet_stable. assert (HE : forall d u, Q0 d u -> stage_point store raw now arch d0 d) by (by left).
  apply (triple_conseq Q0 _ _ (fun _ d u => stage_done store raw now arch d0 d u) _ (stage_point store raw now arch d0) _);
    [|intros d u ->; unfold Q0; done|done|done].
  apply triple_pure_bind; [done|intros _ _]. eapply triple_bind; [by apply state_lock_triple|intros ?].
  eapply triple_bind; [by apply recover_triple|intros ?].
  eapply triple_bind; [by apply current_pins_triple|intros [pins bundle]]. cbn [fst snd].
  apply triple_pure_bind; [naive_solver|intros m Hm].
  set (P := fun (d : Disk) (u : UpdateResult) => quiet d0 d /\ named m u).
  assert (HSP : stable P) by (apply stable_and; [apply quiet_stable|apply stable_result]).
  assert (HEP : forall d u, P d u -> stage_point store raw now arch d0 d) by (intros d u [? _]; by left).
  eapply triple_bind; [apply (triple_report _ _ (fun d u => P d u /\ (signers store now pins bundle /\ installed store d0 bundle)))|intros ?].
  { intros d u (Hq & Hs & Hi). split; [by left|]. split_and!; try done. by eapply installed_quiet. }
  apply triple_assume. intros [Hsig Hins]. apply triple_pure_bind; [done|intros _ _].
  eapply triple_bind; [by apply load_state_triple|intros s]. cbn beta.
  eapply (triple_conseq (fun d u => P d u /\ recorded d0 = Ok s)); [apply triple_assume; intros Hrec| |exact (fun _ _ _ H => H)|done].
  2: { intros d u [Hp Hr]. split; [done|]. destruct Hp as [Hq _]. by rewrite <- (recorded_quiet d0 d Hq). }
  apply triple_pure_bind; [done|intros prior Hprior]. apply triple_pure_bind; [done|intros b Hb]. cbv zeta.
  fold (prior_bundle_of store prior bundle b).
  apply triple_pure_bind; [done|intros [] Hcheck]. apply triple_pure_bind; [done|intros env Henv].
  apply triple_pure_bind; [done|intros [] Hgen]. apply triple_pure_bind; [done|intros final ->%safe_child_same].
  pose (g := {| g_state := s; g_prior := prior; g_pins := pins; g_bundle := bundle;
    g_prior_bundle := prior_bundle_of store prior bundle b; g_envelope := env; g_manifest := m |}).
  assert (Hac : accepted store raw now arch d0 g) by (constructor; try done; by exists b).
  eapply triple_bind; [by apply copy_package_triple|intros ?].
  destruct ((prior =? m_generation m) && negb (prior =? 0)) eqn:Eg.
  { apply andb_true_iff in Eg as [E1%Z.eqb_eq E2%negb_true_iff%Z.eqb_neq].
    exact (stage_triple_known store raw now arch io d0 g Hac E1 E2). }
  apply andb_false_iff in Eg. apply (stage_triple_fresh store raw now arch io d0 g Hac).
  destruct Eg as [E1%Z.eqb_neq|E1%negb_false_iff%Z.eqb_eq]; [by right|by left].
Qed.

(** ** The other operations *)
Abbreviation rollback_target := (UpdatePackage.rollback_target cng_sha256 json_parse dump base64_decode
  spki_algorithm Key import_key verify_signature).
Abbreviation rollback_body := (UpdatePackage.rollback_body cng_sha256 json_parse dump base64_decode
  spki_algorithm Key import_key verify_signature process_user).
Abbreviation install_body := (UpdatePackage.install_body cng_sha256 json_parse dump base64_decode
  spki_algorithm Key import_key verify_signature process_user).
Abbreviation known_bundle := (UpdatePackage.known_bundle cng_sha256 json_parse dump base64_decode
  spki_algorithm Key import_key verify_signature).
Abbreviation provenance_pins := (UpdatePackage.provenance_pins cng_sha256 json_parse dump base64_decode
  spki_algorithm Key import_key verify_signature).
(** the package a rollback selects was verified under the trust of its time *)
Lemma rollback_target_facts store s m name g : rollback_target store s = Ok (m, name, g) ->
  uint_field s "previous_generation" = Ok g /\ g <> 0 /\ value_string "previous_filename" s = Ok name /\
  m_generation m = g /\ name = package_name g (package_hash m) /\
  exists raw bundle pins issued arch, value_string "previous_manifest" s = Ok raw /\
    value_string "previous_trust_bundle" s = Ok bundle /\ issued_of json_parse raw = Ok issued /\
    provenance_pins store bundle (Ok issued) "rollback" = Ok pins /\ verify_manifest raw pins issued arch = Ok m.
Proof.
  unfold UpdatePackage.rollback_target. intros H. apply bind_Ok in H as (pg & Hpg & H).
  do 6 apply bind_Ok in H as (? & _ & H). apply bind_Ok in H as (pn & Hpn & H). apply bind_Ok in H as (? & H0 & H).
  apply bind_Ok in H as (cand & ->%safe_child_same & H). apply bind_Ok in H as (raw & Hraw & H). apply bind_Ok in H as (? & _ & H).
  apply bind_Ok in H as (doc & Hdoc & H). apply bind_Ok in H as (issued & Hi & H). do 2 apply bind_Ok in H as (? & _ & H).
  apply bind_Ok in H as (bundle & Hb & H). apply bind_Ok in H as (pins & Hpins & H). apply bind_Ok in H as (v & Hv & H).
  apply bind_Ok in H as (? & Hc & H). apply throw_if_Ok in H0, Hc. injection H as <- <- <-.
  apply orb_false_iff in H0 as [H0%Z.eqb_neq _].
  apply orb_false_iff in Hc as [Hg%negb_false_iff%Z.eqb_eq Hn%negb_false_iff%String.eqb_eq].
  split_and!; try done. exists raw, bundle, pins, issued. eexists. split_and!; try done.
  unfold issued_of. rewrite Hdoc. exact Hi.
Qed.
Definition with_intent (g : Z) (s : json) : json := set_member "rollback_intent_generation" (JUint g) s.
(** the directory after a recorded intent *)
Definition intended (store : UpdatePackageStore) (d0 d : Disk) (s : json) (m : Manifest) (name : string) (g : Z) : Prop :=
  recorded d0 = Ok s /\ rollback_target store s = Ok (m, name, g) /\ exists d1 text, quiet d0 d1 /\
  holds d1 name (m_size m) (package_hash m) /\ dump (with_intent g s) = Ok text /\ d = <[kStateFile := File text]> d1.
Lemma rollback_triple store io d0 :
  triple (fun d _ => d = d0) (rollback_body store io)
    (fun _ d u => exists s m name g, intended store d0 d s m name g /\ state u = "rollback_intent_recorded" /\
       generation u = g /\ rollback_candidate u = name)
    (fun d => quiet d0 d \/ exists s m name g, intended store d0 d s m name g).
Proof.
  unfold UpdatePackage.rollback_body. set (E := fun d => quiet d0 d \/ _).
  set (P := fun (d : Disk) (_ : UpdateResult) => quiet d0 d).
  assert (HS : stable P) by apply quiet_stable. assert (HE : forall d u, P d u -> E d) by (by left).
  eapply (triple_conseq P); [|intros d u ->; unfold P; done|exact (fun _ _ _ H => H)|exact (fun _ H => H)].
  apply triple_pure_bind; [done|intros _ _]. eapply triple_bind; [by apply state_lock_triple|intros ?].
  eapply triple_bind; [by apply recover_triple|intros ?].
  eapply triple_bind; [by apply load_state_triple|intros s]. cbn beta.
  eapply (triple_conseq (fun d u => P d u /\ recorded d0 = Ok s)); [apply triple_assume; intros Hrec| |exact (fun _ _ _ H => H)|done].
  2: { intros d u [Hp Hr]. split; [done|]. by rewrite <- (recorded_quiet d0 d Hp). }
  apply triple_pure_bind; [done|intros [[m name] g] Ht].
  eapply triple_bind; [by apply verify_staged_triple|intros ?]. cbn beta.
  apply triple_pure_bind; [naive_solver|intros text Hd].
  pose proof (rollback_target_facts store s m name g Ht) as (_ & _ & _ & _ & Hname & _).
  assert (Hn : package name = true) by by rewrite Hname.
  pose (P1 := fun d (u : UpdateResult) => P d u /\ holds d name (m_size m) (package_hash m)).
  assert (HS1 : stable P1) by (apply stable_and; [done|by apply holds_stable]).
  assert (HE1 : forall d u, P1 d u -> E d) by (intros d u [? _]; by left).
  assert (HI : forall d u, P1 d u -> intended store d0 (<[kStateFile := File text]> d) s m name g).
  { intros d u [Hq Hh]. split_and!; try done. by exists d, text. }
  eapply triple_bind; [apply (atomic_write_triple cng_sha256 _ P1 _ HS1 HE1); [by left|]|intros ?; cbn beta].
  { intros d u Hp. right. exists s, m, name, g. eauto. }
  apply triple_report. intros d' u (d & Hp & ->). split; [right; exists s, m, name, g; eauto|].
  exists s, m, name, g. split_and!; eauto.
Qed.
(** the directory after an installed bundle *)
Definition bundle_installed (bootstrap : list PublisherPin) (bundle : string) (now : Z) (d0 d : Disk) : Prop :=
  exists parsed old d1 text, parse_trust_bundle bundle bootstrap now true = Ok parsed /\ trust_record d0 = Ok old /\
    match old with Some st => known_bundle bootstrap parsed st = Ok false | None => True end /\ quiet d0 d1 /\
    dump (trust_state (generation_ parsed) bundle) = Ok text /\ d = <[kTrustFile := File text]> d1.
Lemma install_triple bootstrap bundle now io d0 :
  triple (fun d _ => d = d0) (install_body bootstrap bundle now io)
    (fun a d _ => a.1 = "already_installed" /\ quiet d0 d \/ a.1 = "installed" /\ bundle_installed bootstrap bundle now d0 d)
    (fun d => quiet d0 d \/ bundle_installed bootstrap bundle now d0 d).
Proof.
  unfold UpdatePackage.install_body. set (E := fun d => quiet d0 d \/ _).
  set (P := fun (d : Disk) (_ : UpdateResult) => quiet d0 d).
  assert (HS : stable P) by apply quiet_stable. assert (HE : forall d u, P d u -> E d) by (by left).
  eapply (triple_conseq P); [|intros d u ->; unfold P; done|exact (fun _ _ _ H => H)|exact (fun _ H => H)].
  apply triple_pure_bind; [done|intros _ _]. eapply triple_bind; [by apply state_lock_triple|intros ?].
  eapply triple_bind; [by apply recover_triple|intros ?]. apply triple_pure_bind; [done|intros parsed Hp].
  eapply triple_bind; [by apply read_trust_triple|intros old]. cbn beta.
  eapply (triple_conseq (fun d u => P d u /\ trust_record d0 = Ok old)); [apply triple_assume; intros Hrec| |exact (fun _ _ _ H => H)|done].
  2: { intros d u [Hq Hr]. split; [done|]. rewrite <- Hr. unfold trust_record. by rewrite (q_trust _ _ Hq). }
  apply triple_pure_bind; [done|intros [] Hk]; [apply triple_return; intros d u Hd; split; [eauto|by left]|].
  apply triple_pure_bind; [done|intros text Ht].
  assert (HI : forall d u, P d u -> bundle_installed bootstrap bundle now d0 (<[kTrustFile := File text]> d)).
  { intros d u Hq. exists parsed, old, d, text. split_and!; try done. by destruct old. }
  eapply triple_bind; [apply (atomic_write_triple cng_sha256 _ P _ HS HE); [by right|]|intros ?; cbn beta].
  { intros d u Hd. right. eauto. }
  apply triple_return. intros d' u (d & Hd & ->). split; [right; eauto|]. right. eauto.
Qed.
Lemma snapshot_triple bootstrap now io d0 :
  triple (fun d _ => d = d0) (_ ← pure (open_update_directory process_user (io_root io)); _ ← state_lock process_user io;
    snapshot_locked cng_sha256 json_parse dump base64_decode spki_algorithm Key import_key verify_signature process_user
      bootstrap now io) (fun _ _ _ => True) (quiet d0).
Proof.
  set (P := fun (d : Disk) (_ : UpdateResult) => quiet d0 d). assert (HS : stable P) by apply quiet_stable.
  eapply (triple_conseq P); [|intros d u ->; unfold P; done|exact (fun _ _ _ H => H)|exact (fun _ H => H)].
  apply triple_pure_bind; [done|intros _ _]. eapply triple_bind; [by apply state_lock_triple|intros ?].
  intros c Hc. exists []. pose proof (read_trust_same io c) as Hsame. unfold snapshot_locked.
  destruct (read_trust_state _ _ _ _) as [r c1]. cbn [fst snd] in *. subst c1. split_and!; [done| |done].
  constructor; [exact Hc|constructor].
Qed.
End Stores.
