(* ===== verification/UpdateRuns.v ===== *)
(** * Runs of the update stores

    A step is a call of one of the stores that may stop at any point; a run is
    a sequence of steps.  The generation that is recorded never falls and never
    changes its content, and what is recorded is signed and on disk. *)

From stdpp Require Import relations.
From S2P Require Import Prelude Identity Json UpdateTrust UpdatePackage UpdateLogic UpdateFacts.

Section Runs.
Context (cng_sha256 : string -> string + list Z).
Context (json_parse : string -> result json) (dump : json -> result string).
Context (base64_decode : string -> option string) (spki_algorithm : string -> option (option string)).
Context (Key : Type) (import_key : string -> option (Key * option string)).
Context (verify_signature : Key -> list Z -> string -> bool).
Context (process_user : result string).
Abbreviation verify_manifest := (UpdatePackage.verify_manifest cng_sha256 json_parse dump base64_decode
  spki_algorithm Key import_key verify_signature).
Abbreviation parse_trust_bundle := (UpdateTrust.parse_trust_bundle cng_sha256 json_parse dump base64_decode
  spki_algorithm Key import_key verify_signature).
Abbreviation accepted := (UpdateFacts.accepted cng_sha256 json_parse dump base64_decode
  spki_algorithm Key import_key verify_signature).
Abbreviation signers := (UpdateFacts.signers cng_sha256 json_parse dump base64_decode
  spki_algorithm Key import_key verify_signature).
Abbreviation published := (UpdateFacts.published cng_sha256 dump).
Abbreviation intended := (UpdateFacts.intended cng_sha256 json_parse dump base64_decode
  spki_algorithm Key import_key verify_signature).
Abbreviation bundle_installed := (UpdateFacts.bundle_installed cng_sha256 json_parse dump base64_decode
  spki_algorithm Key import_key verify_signature).
Abbreviation recorded := (UpdateFacts.recorded json_parse).
Abbreviation trust_record := (UpdateFacts.trust_record json_parse).
Abbreviation holds := (UpdateLogic.holds cng_sha256).
Abbreviation do_stage := (UpdatePackage.stage cng_sha256 json_parse dump base64_decode
  spki_algorithm Key import_key verify_signature process_user).
Abbreviation do_rollback := (UpdatePackage.record_rollback_intent cng_sha256 json_parse dump base64_decode
  spki_algorithm Key import_key verify_signature process_user).
Abbreviation do_install := (UpdatePackage.install_signed_bundle cng_sha256 json_parse dump base64_decode
  spki_algorithm Key import_key verify_signature process_user).
Abbreviation do_snapshot := (UpdatePackage.trust_snapshot cng_sha256 json_parse dump base64_decode
  spki_algorithm Key import_key verify_signature process_user).

(** ** Documents that the library prints and reads *)
Definition scalar (j : json) : bool := match j with JStr _ => true | JUint v => (0 <=? v) && (v <=? u64_max) | _ => false end.
Inductive document : json -> Prop :=
| document_parsed t j : json_parse t = Ok j -> document j
| document_object l : Forall (fun m => scalar m.2 = true) l -> document (object l)
| document_set k v j : scalar v = true -> document j -> document (set_member k v j).
(** a printed document is not empty and reads back; printing what was read
    gives no longer text *)
Context (reparses : forall j t, document j -> dump j = Ok t -> t <> "" /\ json_parse t = Ok j).
Context (no_longer : forall t j t', json_parse t = Ok j -> dump j = Ok t' -> slen t' <= slen t).

(** ** Manifests *)
Lemma uint_field_range j k v : uint_field j k = Ok v -> 0 <= v <= u64_max.
Proof. unfold uint_field. destruct (find k j) as [[]|]; try done. intros H. apply Ok_inj in H. subst v. apply u64_range. Qed.
Lemma manifest_facts raw pins now arch m : verify_manifest raw pins now arch = Ok m ->
  0 < m_generation m <= u64_max /\ 0 < m_size m <= kMaximumUpdatePackageBytes /\ sha_text (package_hash m) = true /\
  m_architecture m = arch /\ now < m_expires m.
Proof.
  unfold UpdatePackage.verify_manifest. intros H. apply bind_Ok in H as ([e p] & _ & H). do 4 apply bind_Ok in H as (? & _ & H).
  apply bind_Ok in H as (g & Hg%uint_field_range & H). apply bind_Ok in H as (sz & Hs%uint_field_range & H).
  apply bind_Ok in H as (i & _ & H). apply bind_Ok in H as (expiry & _ & H). do 3 apply bind_Ok in H as (? & _ & H).
  do 2 apply bind_Ok in H as (? & _ & H). apply bind_Ok in H as (? & Ha & H). apply bind_Ok in H as (? & Hb & H).
  apply bind_Ok in H as (? & Hw & H). apply throw_if_Ok in Ha, Hb, Hw. apply Ok_inj in H. subst m. cbn.
  rewrite !orb_false_iff in Hb. destruct Hb as [[[? ?] ?] ?%negb_false_iff].
  apply negb_false_iff, String.eqb_eq in Ha. unfold outside_window in Hw. rewrite !orb_false_iff in Hw.
  destruct Hw as [_ Hw]. split_and!; try done; lia.
Qed.
(** the envelope printed again verifies as the original did *)
Lemma reencoded raw pins now arch m env text : verify_manifest raw pins now arch = Ok m ->
  json_parse raw = Ok env -> dump env = Ok text ->
  exists m', verify_manifest text pins now arch = Ok m' /\ m_generation m' = m_generation m /\ m_size m' = m_size m /\
    package_hash m' = package_hash m.
Proof.
  intros H He Ht. destruct (reparses env text (document_parsed raw env He) Ht) as [Hne Hp].
  pose proof (no_longer raw env text He Ht) as Hl. unfold UpdatePackage.verify_manifest, signed_payload in *.
  apply bind_Ok in H as ([e p] & Hs & H). apply bind_Ok in Hs as (? & Hb & Hs). apply throw_if_Ok in Hb.
  rewrite He in Hs. cbn [mbind result_bind] in Hs. apply orb_false_iff in Hb as [_ Hb].
  destruct text as [|ch text]; [done|]. cbn [str_empty orb]. rewrite (proj2 (Z.ltb_ge _ _)) by lia.
  cbn [throw_if mbind result_bind]. rewrite Hp. cbn [mbind result_bind] in *. rewrite Hs. cbn [mbind result_bind].
  revert H. clear. intros H. repeat (apply bind_Ok in H as (? & -> & H); cbn [mbind result_bind]).
  apply Ok_inj in H. subst m. by eexists.
Qed.

(** ** States that are read back *)
Lemma recorded_v2 d s : recorded d = Ok s -> document s /\ find "format" s = Some (JStr "panopticon_update_stage_state_v2").
Proof.
  unfold UpdateFacts.recorded. destruct (d !! kStateFile) as [[c|]|]; [|done|].
  2: { intros H. apply Ok_inj in H. subst s. split; [|done]. apply document_object. by repeat constructor. }
  destruct (_ || _); [done|]. unfold parse_state. intros H. apply bind_Ok in H as (j & Hj & H).
  pose proof (document_parsed _ _ Hj) as Hd. apply bind_Ok in H as (? & Hk & H). apply throw_if_Ok in Hk.
  destruct (has_keys j legacy_state_keys && _) eqn:El.
  - apply Ok_inj in H. subst s. apply andb_true_iff in El as [El _]. unfold has_keys in El. rewrite !andb_true_iff in El.
    destruct El as [[Ho _] _]. split; [by repeat (apply document_set; [done|])|].
    rewrite find_set by by rewrite !set_is_object. done.
  - apply bind_Ok in H as (? & _ & H). apply Ok_inj in H. subst s. split; [done|].
    apply orb_false_iff in Hk as [Hk _]. apply andb_false_iff in Hk as [Hk|Hk]; apply negb_false_iff in Hk; [done|].
    apply andb_true_iff in Hk as [_ Hk%is_text_spec]. unfold member in Hk. by destruct (find "format" j) as [f|]; cbn in Hk; subst.
Qed.
(** a current state that is written is what is read back, if anything is *)
Lemma recorded_written d j t s : document j -> find "format" j = Some (JStr "panopticon_update_stage_state_v2") ->
  dump j = Ok t -> recorded (<[kStateFile := File t]> d) = Ok s -> s = j.
Proof.
  intros Hd Hf Ht. unfold UpdateFacts.recorded. rewrite lookup_insert_eq. destruct (_ || _); [done|].
  destruct (reparses j t Hd Ht) as [_ Hp]. unfold parse_state. rewrite Hp. cbn [mbind result_bind].
  intros H. apply bind_Ok in H as (? & _ & H).
  assert (El : has_keys j legacy_state_keys && is_text "panopticon_update_stage_state_v1" (member "format" j) = false).
  { unfold member. rewrite Hf. cbn. apply andb_false_r. }
  rewrite El in H. apply bind_Ok in H as (? & _ & H). by apply Ok_inj in H.
Qed.
Lemma new_state_document g text pm pn : 0 <= m_generation (g_manifest g) <= u64_max -> 0 <= g_prior g <= u64_max ->
  document (new_state g text pm pn).
Proof.
  intros H1 H2. apply document_object. repeat (apply Forall_cons; split; [|]); try done; unfold scalar; cbn [snd];
    rewrite andb_true_iff, !Z.leb_le; lia.
Qed.

(** ** Order of states *)
Definition identity_keys : list string := ["manifest"; "package_sha256"; "staged_filename"].
Definition state_le (s s' : json) : Prop := forall g, uint_field s "highest_generation" = Ok g ->
  exists g', uint_field s' "highest_generation" = Ok g' /\ g <= g' /\
    (g' = g -> Forall (fun k => value_string k s' = value_string k s) identity_keys).
(** whatever is readable afterwards extends what was readable before *)
Definition keeps (d d' : Disk) : Prop := forall s', recorded d' = Ok s' -> exists s, recorded d = Ok s /\ state_le s s'.
#[global] Instance state_le_preorder : PreOrder state_le.
Proof.
  split.
  - intros s g Hg. exists g. split_and!; [done|lia|]. intros _. by repeat constructor.
  - intros a b c Hab Hbc g Hg. destruct (Hab g Hg) as (g1 & H1 & L1 & S1). destruct (Hbc g1 H1) as (g2 & H2 & L2 & S2).
    exists g2. split_and!; [done|lia|]. intros ->. assert (g1 = g) as -> by lia. specialize (S1 eq_refl). specialize (S2 eq_refl).
    rewrite !Forall_forall in *. intros k Hk. by rewrite S2, S1.
Qed.
#[global] Instance keeps_preorder : PreOrder keeps.
Proof.
  split; [intros d s Hs; by exists s|]. intros a b c Hab Hbc s'' Hs. destruct (Hbc _ Hs) as (s' & Hs' & L').
  destruct (Hab _ Hs') as (s & Hr & L). exists s. split; [done|by transitivity s'].
Qed.
Lemma keeps_quiet d d' : quiet d d' -> keeps d d'.
Proof. intros Hq s Hs. exists s. split; [|done]. by rewrite <- (recorded_quiet _ _ _ Hq). Qed.
Lemma accepted_order store raw now arch d0 g : accepted store raw now arch d0 g ->
  (g_prior g = 0 \/ g_prior g <> m_generation (g_manifest g)) -> 0 <= g_prior g < m_generation (g_manifest g).
Proof.
  intros [_ Hp%uint_field_range _ _ Hm _ _ _ Hg] Hn. apply manifest_facts in Hm as (Hr & _).
  unfold check_generation in Hg. apply bind_Ok in Hg as (? & Hl & _). apply throw_if_Ok in Hl.
  destruct Hn as [->|Hn]; [lia|]. destruct (Z.eqb_spec (g_prior g) 0); [lia|]. cbn in Hl. lia.
Qed.
Lemma keeps_published store raw now arch d0 d g : accepted store raw now arch d0 g -> published d0 d g -> keeps d0 d.
Proof.
  intros Ha (d1 & text & pm & pn & written & Hq & Hh & Hn & Ht & Hpm & Hpn & Hw & ->) s' Hs.
  pose proof (accepted_order _ _ _ _ _ _ Ha Hn) as Ho. destruct (manifest_facts _ _ _ _ _ (ac_manifest _ _ _ _ _ _ _ _ _ _ _ _ _ _ Ha)) as (Hr & _).
  apply (recorded_written _ (new_state g text pm pn)) in Hs; [|apply new_state_document; lia|done|done]. subst s'.
  exists (g_state g). split; [apply Ha|]. intros p Hp. rewrite (ac_prior _ _ _ _ _ _ _ _ _ _ _ _ _ _ Ha) in Hp. injection Hp as <-.
  exists (m_generation (g_manifest g)). split_and!; [|lia|lia]. change (Ok (u64 (m_generation (g_manifest g))) = Ok (m_generation (g_manifest g))).
  by rewrite u64_small by lia.
Qed.
Lemma with_intent_find k g s : k <> "rollback_intent_generation" -> is_object s = true -> find k (with_intent g s) = find k s.
Proof. intros Hk Hs. unfold with_intent. rewrite find_set by done. by rewrite (proj2 (String.eqb_neq _ _) Hk). Qed.
Lemma with_intent_value k g s : k <> "rollback_intent_generation" -> is_object s = true ->
  value_string k (with_intent g s) = value_string k s /\ uint_field (with_intent g s) k = uint_field s k.
Proof.
  intros Hk Hs. pose proof (with_intent_find k g s Hk Hs) as H. unfold uint_field. rewrite H. split; [|done].
  destruct s; try done. unfold value_string, with_intent, set_member in *. cbn [find] in H. by rewrite H.
Qed.
Lemma intended_state store d0 d s m name g s' : intended store d0 d s m name g -> recorded d = Ok s' ->
  s' = with_intent g s /\ is_object s = true.
Proof.
  intros (Hr & Ht & d1 & text & Hq & _ & Hd & ->) Hs. destruct (recorded_v2 _ _ Hr) as [Hdoc Hf].
  pose proof (find_is_object _ _ _ Hf) as Ho. apply rollback_target_facts in Ht as (Hg%uint_field_range & _). split; [|done].
  eapply recorded_written; [| |done|done].
  - apply document_set; [|done]. cbn. rewrite andb_true_iff, !Z.leb_le. lia.
  - by rewrite with_intent_find.
Qed.
Lemma keeps_intended store d0 d s m name g : intended store d0 d s m name g -> keeps d0 d.
Proof.
  intros H s' Hs. destruct (intended_state _ _ _ _ _ _ _ _ H Hs) as [-> Ho]. exists s. split; [apply H|].
  intros p Hp. exists p. split_and!; [|lia|].
  - by rewrite (proj2 (with_intent_value "highest_generation" g s ltac:(done) Ho)).
  - intros _. repeat (apply Forall_cons; split); try done; by apply with_intent_value.
Qed.

(** ** Steps *)
Section Store.
Context (store : UpdatePackageStore).
(** a call reaches any of the directories it goes through *)
Inductive update_step (d : Disk) : Disk -> Prop :=
| step_stage raw now arch io d' : d' ∈ disks (do_stage store raw now arch io d).2 -> update_step d d'
| step_rollback io d' : d' ∈ disks (do_rollback store io d).2 -> update_step d d'
| step_install bootstrap bundle now io d' : d' ∈ disks (do_install bootstrap bundle now io d).2 -> update_step d d'
| step_snapshot bootstrap now io d' : d' ∈ disks (do_snapshot bootstrap now io d).2 -> update_step d d'.
Lemma triple_points {A} (m : M A) (Q : A -> Disk -> UpdateResult -> Prop) (E : Disk -> Prop) d0 :
  triple (fun d _ => d = d0) m Q E -> Forall E (disks (m (start d0)).2).
Proof.
  intros H. destruct (H (start d0) eq_refl) as (x & Hx & He & _). unfold disks. rewrite Hx.
  change (c_past (start d0)) with (@nil Disk). by rewrite app_nil_r.
Qed.
(** what a step does: nothing that is recorded changes, or one of the three
    records is replaced *)
Lemma update_step_inv d d' : update_step d d' ->
  quiet d d' \/ (exists raw now arch g, accepted store raw now arch d g /\ published d d' g) \/
  (exists s m name g, intended store d d' s m name g) \/
  (exists bootstrap bundle now, bundle_installed bootstrap bundle now d d').
Proof.
  destruct 1 as [raw now arch io d' H|io d' H|bootstrap bundle now io d' H|bootstrap now io d' H].
  - pose proof (triple_points _ _ _ d (stage_triple cng_sha256 json_parse dump base64_decode spki_algorithm Key import_key
      verify_signature process_user store raw now arch io d)) as HF. rewrite Forall_forall in HF.
    unfold stage, conclude in H. destruct (stage_body _ _ _ _ _ _ _ _ _ _ _ _ _ _ (start d)) as [[u|e] c]; cbn [snd] in *;
      (destruct (HF d' H) as [?|(g & ? & ?)]; [by left|right; left; by exists raw, now, arch, g]).
  - pose proof (triple_points _ _ _ d (rollback_triple cng_sha256 json_parse dump base64_decode spki_algorithm Key import_key
      verify_signature process_user store io d)) as HF. rewrite Forall_forall in HF.
    unfold record_rollback_intent, conclude in H. destruct (rollback_body _ _ _ _ _ _ _ _ _ _ _ (start d)) as [[u|e] c];
      cbn [snd] in *; (destruct (HF d' H) as [?|?]; [by left|by right; right; left]).
  - pose proof (triple_points _ _ _ d (install_triple cng_sha256 json_parse dump base64_decode spki_algorithm Key import_key
      verify_signature process_user bootstrap bundle now io d)) as HF. rewrite Forall_forall in HF.
    unfold install_signed_bundle in H. destruct (install_body _ _ _ _ _ _ _ _ _ _ _ _ _ (start d)) as [[[? ?]|e] c];
      cbn [snd] in *; (destruct (HF d' H) as [?|?]; [by left|right; right; right; by exists bootstrap, bundle, now]).
  - pose proof (triple_points _ _ _ d (snapshot_triple cng_sha256 json_parse dump base64_decode spki_algorithm Key import_key
      verify_signature process_user bootstrap now io d)) as HF. rewrite Forall_forall in HF.
    unfold trust_snapshot in H. left. match type of H with _ ∈ disks (match ?m with _ => _ end).2 => destruct m as [[?|?] ?] in HF, H end;
      by apply HF.
Qed.
Definition update_run : Disk -> Disk -> Prop := rtc update_step.
Lemma installed_recorded bootstrap bundle now d d' : bundle_installed bootstrap bundle now d d' -> recorded d' = recorded d.
Proof.
  intros (parsed & old & d1 & text & _ & _ & _ & Hq & _ & ->). unfold UpdateFacts.recorded.
  rewrite lookup_insert_ne by done. by rewrite (q_state _ _ Hq).
Qed.
Lemma update_step_keeps d d' : update_step d d' -> keeps d d'.
Proof.
  intros [H|[(raw & now & arch & g & Ha & Hp)|[(s & m & name & g & H)|(bs & b & now & H)]]]%update_step_inv.
  - by apply keeps_quiet.
  - by eapply keeps_published.
  - by eapply keeps_intended.
  - intros s Hs. exists s. split; [|done]. by rewrite <- (installed_recorded _ _ _ _ _ H).
Qed.

(** ** What is recorded is on disk *)
(** the package of one slot of the state: signed under the trust of its time
    by a publisher that was active then, and on disk as signed *)
Definition package_ok (d : Disk) (g : Z) (raw name bundle : string) : Prop := exists m pins now arch,
  verify_manifest raw pins now arch = Ok m /\ signers store now pins bundle /\ m_generation m = g /\
  name = package_name g (package_hash m) /\ holds d name (m_size m) (package_hash m).
Definition slot_ok (d : Disk) (s : json) (kg km kn kb : string) : Prop := forall g, uint_field s kg = Ok g -> g <> 0 ->
  exists raw name bundle, value_string km s = Ok raw /\ value_string kn s = Ok name /\ value_string kb s = Ok bundle /\
    package_ok d g raw name bundle.
Record state_ok (d : Disk) (s : json) : Prop := {
  so_current : slot_ok d s "highest_generation" "manifest" "staged_filename" "publisher_trust_bundle";
  so_previous : slot_ok d s "previous_generation" "previous_manifest" "previous_filename" "previous_trust_bundle";
  so_order : forall p g, uint_field s "previous_generation" = Ok p -> uint_field s "highest_generation" = Ok g -> p <= g
}.
Definition disk_ok (d : Disk) : Prop := forall s, recorded d = Ok s -> state_ok d s.
(** packages stay as they are *)
Definition packages_kept (d d' : Disk) : Prop :=
  forall name x, package name = true -> d !! name = Some x -> d' !! name = Some x.
Lemma slot_kept d d' s kg km kn kb : packages_kept d d' -> slot_ok d s kg km kn kb -> slot_ok d' s kg km kn kb.
Proof.
  intros Hk H g Hg H0. destruct (H g Hg H0) as (raw & name & bundle & H1 & H2 & H3 & m & pins & now & arch & Hm & Hs & Hgen & Hn & c & Hc & Hh).
  exists raw, name, bundle. split_and!; try done. exists m, pins, now, arch. split_and!; try done. exists c. split; [|done].
  apply Hk; [by rewrite Hn|done].
Qed.
Lemma state_kept d d' s : packages_kept d d' -> state_ok d s -> state_ok d' s.
Proof. intros Hk [H1 H2 H3]. constructor; [by eapply slot_kept..|done]. Qed.
Lemma packages_publish d d1 f t : f = kStateFile \/ f = kTrustFile -> quiet d d1 -> packages_kept d (<[f := t]> d1).
Proof.
  intros Hf Hq name x Hp Hx. rewrite lookup_insert_ne; [by apply (q_packages _ _ Hq)|]. destruct Hf as [->| ->]; by intros <-.
Qed.
Lemma slot_same d s s' kg km kn kb : uint_field s' kg = uint_field s kg ->
  Forall (fun k => value_string k s' = value_string k s) [km; kn; kb] -> slot_ok d s kg km kn kb -> slot_ok d s' kg km kn kb.
Proof.
  intros Hg Hv H g. rewrite Hg. intros H1 H2. rewrite !Forall_cons in Hv. destruct Hv as (-> & -> & -> & _). by apply H.
Qed.
(** a bundle that was accepted is not empty *)
Lemma signers_bundle now pins bundle : signers store now pins bundle ->
  bool_decide (is_Some (trust_store_ store)) && str_empty bundle = false.
Proof.
  unfold UpdateFacts.signers. destruct (trust_store_ store) as [b|]; [|done]. intros (parsed & Hp & _).
  destruct bundle; [done|]. by rewrite andb_false_r.
Qed.
Lemma published_ok raw now arch d0 d g : accepted store raw now arch d0 g -> published d0 d g -> disk_ok d0 -> disk_ok d.
Proof.
  intros Ha (d1 & text & pm & pn & written & Hq & Hh & Hn & Ht & Hpm & Hpn & Hw & ->) Hok s' Hs.
  pose proof (accepted_order _ _ _ _ _ _ Ha Hn) as Ho. destruct Ha as [Hst Hpr Hsig _ Hm (b & Hb & Hpb) _ He _].
  destruct (manifest_facts _ _ _ _ _ Hm) as (Hr & _).
  apply (recorded_written _ (new_state g text pm pn)) in Hs; [|apply new_state_document; lia|done|done]. subst s'.
  assert (U1 : uint_field (new_state g text pm pn) "highest_generation" = Ok (m_generation (g_manifest g)))
    by (change (Ok (u64 (m_generation (g_manifest g))) = Ok (m_generation (g_manifest g))); by rewrite u64_small by lia).
  assert (U2 : uint_field (new_state g text pm pn) "previous_generation" = Ok (g_prior g))
    by (change (Ok (u64 (g_prior g)) = Ok (g_prior g)); by rewrite u64_small by lia).
  constructor.
  - intros x Hx _. rewrite U1 in Hx. injection Hx as <-. exists text, (g_name g), (g_bundle g). split_and!; try done.
    destruct (reencoded _ _ _ _ _ _ _ Hm He Ht) as (m' & Hm' & G1 & G2 & G3). exists m', (g_pins g), now, arch.
    rewrite G2, G3. split_and!; try done. destruct Hh as (c & Hc & Hh). exists c. by rewrite lookup_insert_ne.
  - intros x Hx H0. rewrite U2 in Hx. injection Hx as <-. exists pm, pn, (g_prior_bundle g). split_and!; try done.
    destruct (so_current _ _ (Hok _ Hst) (g_prior g) Hpr H0) as (r1 & n1 & b1 & V1 & V2 & V3 & P1).
    rewrite Hpm in V1. rewrite Hpn in V2. rewrite Hb in V3. injection V1 as ->. injection V2 as ->. injection V3 as ->.
    assert (Hsame : g_prior_bundle g = b1).
    { rewrite Hpb. unfold prior_bundle_of. destruct P1 as (m1 & p1 & t1 & a1 & _ & S1 & _). apply signers_bundle in S1.
      rewrite <- andb_assoc, S1. by rewrite andb_false_r. }
    rewrite Hsame. destruct P1 as (m1 & p1 & t1 & a1 & M1 & S1 & E1 & N1 & c & Hc & Hc2). exists m1, p1, t1, a1.
    split_and!; try done. exists c. split; [|done]. eapply packages_publish; [by left|done| |done]. by rewrite N1.
  - intros x y Hx Hy. rewrite U2 in Hx. rewrite U1 in Hy. injection Hx as <-. injection Hy as <-. lia.
Qed.
Lemma intended_ok d0 d s m name g : intended store d0 d s m name g -> disk_ok d0 -> disk_ok d.
Proof.
  intros H Hok s' Hs. destruct (intended_state _ _ _ _ _ _ _ _ H Hs) as [-> Ho]. destruct H as (Hr & _ & d1 & text & Hq & _ & _ & ->).
  apply (state_kept d0); [by apply packages_publish; [left|]|]. destruct (Hok _ Hr) as [H1 H2 H3].
  assert (U : forall k, k <> "rollback_intent_generation" -> uint_field (with_intent g s) k = uint_field s k)
    by (intros k Hk; by apply with_intent_value).
  constructor.
  - eapply slot_same; [by apply U| |done]. repeat (apply Forall_cons; split); try done; by apply with_intent_value.
  - eapply slot_same; [by apply U| |done]. repeat (apply Forall_cons; split); try done; by apply with_intent_value.
  - intros x y. rewrite !U by done. apply H3.
Qed.
Lemma update_step_ok d d' : update_step d d' -> disk_ok d -> disk_ok d'.
Proof.
  intros [H|[(raw & now & arch & g & Ha & Hp)|[(s & m & name & g & H)|(bs & b & now & H)]]]%update_step_inv Hok.
  - intros s Hs. rewrite (recorded_quiet _ _ _ H) in Hs. apply (state_kept d); [exact (q_packages _ _ H)|auto].
  - by eapply published_ok.
  - by eapply intended_ok.
  - intros s Hs. rewrite (installed_recorded _ _ _ _ _ H) in Hs. apply (state_kept d); [|auto].
    destruct H as (? & ? & d1 & text & _ & _ & _ & Hq & _ & ->). by apply packages_publish; [right|].
Qed.
Lemma update_step_packages d d' : update_step d d' -> packages_kept d d'.
Proof.
  intros [H|[(raw & now & arch & g & Ha & Hp)|[(s & m & name & g & H)|(bs & b & now & H)]]]%update_step_inv.
  - exact (q_packages _ _ H).
  - destruct Hp as (d1 & ? & ? & ? & ? & Hq & _ & _ & _ & _ & _ & _ & ->). by apply packages_publish; [left|].
  - destruct H as (_ & _ & d1 & ? & Hq & _ & _ & ->). by apply packages_publish; [left|].
  - destruct H as (? & ? & d1 & ? & _ & _ & _ & Hq & _ & ->). by apply packages_publish; [right|].
Qed.
End Store.
End Runs.
