(* ===== verification/UpdateTheorems.v ===== *)
(** * Theorems on update staging

    The promises of the trust store and the package store, over runs in which
    every call may stop anywhere; the rotation rule of trust bundles; and a
    state from which the package store cannot move on. *)

From stdpp Require Import sorting relations.
From S2P Require Import Prelude Identity Json UpdateTrust UpdatePackage UpdateLogic UpdateFacts UpdateRuns.

(** ** Rotation *)
Lemma active_at_spec t k : active_at t k = true <-> activates_at_unix_ms k <= t < key_end k.
Proof.
  unfold active_at, key_end. rewrite !andb_true_iff, orb_true_iff. destruct (Z.eqb_spec (revoked_at_unix_ms k) 0) as [E|E]; lia.
Qed.
Definition earlier (a b : PublisherTrustKey) : Prop := activates_at_unix_ms a <= activates_at_unix_ms b.
Lemma insert_key_spec k l : insert_key k l ≡ₚ k :: l.
Proof.
  induction l as [|m l IH]; [done|]. cbn [insert_key]. destruct (_ <? _); [done|]. rewrite IH. apply Permutation_swap.
Qed.
Lemma insert_key_sorted k l : StronglySorted earlier l -> StronglySorted earlier (insert_key k l).
Proof.
  induction 1 as [|m l Hs IH Hf]; cbn [insert_key]; [by repeat constructor|].
  destruct (Z.ltb_spec (activates_at_unix_ms k) (activates_at_unix_ms m)) as [Hlt|Hge].
  - constructor; [by constructor|]. constructor; [unfold earlier; lia|]. eapply Forall_impl; [exact Hf|].
    unfold earlier. intros x Hx. cbn in Hx. lia.
  - constructor; [done|]. rewrite Forall_forall in *. intros x Hx. rewrite insert_key_spec in Hx.
    apply elem_of_cons in Hx as [->|Hx]; [unfold earlier; lia|by apply Hf].
Qed.
Lemma sort_keys_spec l acc : StronglySorted earlier acc ->
  StronglySorted earlier (foldl (fun acc k => insert_key k acc) acc l) /\
  foldl (fun acc k => insert_key k acc) acc l ≡ₚ acc ++ l.
Proof.
  revert acc. induction l as [|k l IH]; intros acc Ha; cbn [foldl]; [by rewrite app_nil_r|].
  destruct (IH (insert_key k acc) (insert_key_sorted k acc Ha)) as [H1 H2]. split; [done|].
  rewrite H2, insert_key_spec. by rewrite <- Permutation_middle.
Qed.
Lemma overlap_reaches a b : kRotationOverlapMs <= overlap a b -> activates_at_unix_ms b + kRotationOverlapMs <= key_end a.
Proof. unfold overlap, kRotationOverlapMs. destruct (Z.ltb_spec (activates_at_unix_ms b) (Z.min (key_end a) (key_end b))); lia. Qed.
(** between an activation and an end, some key of the rotation is active *)
Lemma rotation_covers l t k1 k2 : StronglySorted earlier l -> check_rotation l = Ok tt -> k1 ∈ l -> k2 ∈ l ->
  activates_at_unix_ms k1 <= t < key_end k2 -> exists k, k ∈ l /\ active_at t k = true.
Proof.
  intros Hs. revert k1. induction Hs as [|a l Hs IH Hf]; intros k1 Hc H1 H2 Ht; [by apply not_elem_of_nil in H1|].
  destruct (Z.leb_spec (activates_at_unix_ms k2) t) as [|Hk2];
    [exists k2; split; [done|]; rewrite active_at_spec; lia|].
  rewrite Forall_forall in Hf. apply elem_of_cons in H2 as [->|H2].
  { apply elem_of_cons in H1 as [->|H1]; [lia|]. specialize (Hf _ H1). unfold earlier in Hf. lia. }
  assert (Ha : activates_at_unix_ms a <= t).
  { apply elem_of_cons in H1 as [->|H1]; [lia|]. specialize (Hf _ H1). unfold earlier in Hf. lia. }
  destruct l as [|b l]; [by apply not_elem_of_nil in H2|]. cbn [check_rotation] in Hc. apply bind_Ok in Hc as (? & Ho & Hc).
  apply throw_if_Ok in Ho. destruct (Z.leb_spec (activates_at_unix_ms b) t) as [Hb|Hb].
  - destruct (IH b Hc ltac:(left) H2 ltac:(lia)) as (k & Hk & Hact). exists k. split; [by right|done].
  - pose proof (overlap_reaches a b ltac:(lia)). unfold kRotationOverlapMs in *. exists a. split; [left|].
    rewrite active_at_spec. lia.
Qed.

Section Claims.
Context (cng_sha256 : string -> string + list Z).
Context (json_parse : string -> result json) (dump : json -> result string).
Context (base64_decode : string -> option string) (spki_algorithm : string -> option (option string)).
Context (Key : Type) (import_key : string -> option (Key * option string)).
Context (verify_signature : Key -> list Z -> string -> bool).
Context (process_user : result string).
Abbreviation verify_manifest := (UpdatePackage.verify_manifest cng_sha256 json_parse dump base64_decode
  spki_algorithm Key import_key verify_signature).
Abbreviation parse_trust_bundle := (UpdateTrust.parse_trust_bundle cng_sha256 json_parse dump base64_decode
  spki_algorithm Key import_key verify_signature).
Abbreviation accepted := (UpdateFacts.accepted cng_sha256 json_parse dump base64_decode
  spki_algorithm Key import_key verify_signature).
Abbreviation signers := (UpdateFacts.signers cng_sha256 json_parse dump base64_decode
  spki_algorithm Key import_key verify_signature).
Abbreviation published := (UpdateFacts.published cng_sha256 dump).
Abbreviation intended := (UpdateFacts.intended cng_sha256 json_parse dump base64_decode
  spki_algorithm Key import_key verify_signature).
Abbreviation bundle_installed := (UpdateFacts.bundle_installed cng_sha256 json_parse dump base64_decode
  spki_algorithm Key import_key verify_signature).
Abbreviation recorded := (UpdateFacts.recorded json_parse).
Abbreviation trust_record := (UpdateFacts.trust_record json_parse).
Abbreviation holds := (UpdateLogic.holds cng_sha256).
Abbreviation do_stage := (UpdatePackage.stage cng_sha256 json_parse dump base64_decode
  spki_algorithm Key import_key verify_signature process_user).
Abbreviation do_rollback := (UpdatePackage.record_rollback_intent cng_sha256 json_parse dump base64_decode
  spki_algorithm Key import_key verify_signature process_user).
Abbreviation do_install := (UpdatePackage.install_signed_bundle cng_sha256 json_parse dump base64_decode
  spki_algorithm Key import_key verify_signature process_user).
Abbreviation do_snapshot := (UpdatePackage.trust_snapshot cng_sha256 json_parse dump base64_decode
  spki_algorithm Key import_key verify_signature process_user).


Lemma trust_key_fresh issued expires ids item k :
  trust_key cng_sha256 spki_algorithm Key import_key issued expires ids item = Ok k -> key_id (publisher k) ∉ ids.
Proof.
  unfold trust_key. intros H. apply bind_Ok in H as (? & _ & H). apply bind_Ok in H as (id & _ & H).
  do 6 apply bind_Ok in H as (? & _ & H). apply bind_Ok in H as (? & _ & H). apply bind_Ok in H as (? & Hd & H).
  do 5 apply bind_Ok in H as (? & _ & H). apply Ok_inj in H. subst k. cbn. apply throw_if_Ok in Hd.
  apply orb_false_iff in Hd as [_ Hd]. by apply bool_decide_eq_false in Hd.
Qed.
Lemma trust_keys_spec issued expires ids items keys :
  trust_keys cng_sha256 spki_algorithm Key import_key issued expires ids items = Ok keys ->
  zlen keys = zlen items /\ NoDup (key_id ∘ publisher <$> keys) /\
  forall x, x ∈ key_id ∘ publisher <$> keys -> x ∉ ids.
Proof.
  revert ids keys. induction items as [|item items IH]; cbn [trust_keys]; intros ids keys H.
  - apply Ok_inj in H. subst keys. split_and!; [done|constructor|]. intros x Hx. by apply not_elem_of_nil in Hx.
  - apply bind_Ok in H as (k & Hk%trust_key_fresh & H). apply bind_Ok in H as (ks & Hks & H). apply Ok_inj in H. subst keys.
    destruct (IH _ _ Hks) as (Hl & Hn & Hf). unfold zlen in *. split_and!; [cbn [length]; lia| |].
    + cbn [fmap list_fmap]. constructor; [|done]. intros Hin. apply (Hf _ Hin). left.
    + intros x Hx. cbn [fmap list_fmap] in Hx. apply elem_of_cons in Hx as [->|Hx]; [done|].
      intros Hin. apply (Hf _ Hx). by right.
Qed.
(** in an accepted trust bundle, at any time between the activation of a
    key that is not yet revoked and the end of one (its retirement, or its
    announced revocation), some publisher key is active: a rotation leaves no
    gap, because neighbours overlap by a day.  Between one and eight keys are
    accepted, and each fits the window of the bundle. *)
Theorem rotation_never_gaps raw bootstrap now require_active parsed :
  parse_trust_bundle raw bootstrap now require_active = Ok parsed ->
  0 < zlen (keys_ parsed) <= kMaximumUpdateTrustKeys /\ NoDup (key_id ∘ publisher <$> keys_ parsed) /\
  forall k1 k2 t, k1 ∈ rotation_of now (keys_ parsed) -> k2 ∈ rotation_of now (keys_ parsed) ->
    activates_at_unix_ms k1 <= t < key_end k2 -> exists k, k ∈ keys_ parsed /\ active_at t k = true.
Proof.
  unfold UpdateTrust.parse_trust_bundle. intros H. apply bind_Ok in H as ([e p] & _ & H). do 3 apply bind_Ok in H as (? & _ & H).
  apply bind_Ok in H as (g & _ & H). apply bind_Ok in H as (issued & _ & H). apply bind_Ok in H as (expires & _ & H).
  apply bind_Ok in H as (? & _ & H). apply bind_Ok in H as (? & Hn & H). apply bind_Ok in H as (keys & Hk & H).
  apply bind_Ok in H as ([] & Hr & H). apply bind_Ok in H as (? & _ & H). apply Ok_inj in H. subst parsed. cbn [keys_].
  apply throw_if_Ok, orb_false_iff in Hn as [Hn1 Hn2]. apply trust_keys_spec in Hk as (Hl & Hd & _).
  split_and!; [rewrite Hl; unfold zlen in *; lia|rewrite Hl; lia|done|].
  intros k1 k2 t H1 H2 Ht. unfold rotation_of, sort_keys in *.
  destruct (sort_keys_spec (filter (fun k => (revoked_at_unix_ms k =? 0) || (now <? revoked_at_unix_ms k)) keys) []
    ltac:(constructor)) as [Hs Hp].
  destruct (rotation_covers _ t k1 k2 Hs Hr H1 H2 Ht) as (k & Hin & Hact). exists k. split; [|done].
  rewrite Hp in Hin. cbn [app] in Hin. by apply list_elem_of_filter in Hin as [_ Hin].
Qed.

(** ** Results *)
Abbreviation stage_done := (UpdateFacts.stage_done cng_sha256 json_parse dump base64_decode
  spki_algorithm Key import_key verify_signature).
Abbreviation provenance_pins := (UpdatePackage.provenance_pins cng_sha256 json_parse dump base64_decode
  spki_algorithm Key import_key verify_signature).
Lemma stage_result store raw now arch io d : state (do_stage store raw now arch io d).1 <> "failed" ->
  stage_done store raw now arch d (c_disk (do_stage store raw now arch io d).2) (do_stage store raw now arch io d).1.
Proof.
  unfold stage, conclude. intros H. destruct (stage_triple cng_sha256 json_parse dump base64_decode spki_algorithm Key
    import_key verify_signature process_user store raw now arch io d (start d) eq_refl) as (x & _ & _ & Hd).
  destruct (stage_body _ _ _ _ _ _ _ _ _ _ _ _ _ _ (start d)) as [[u|e] c]; [|done]. by apply (Hd u).
Qed.
Lemma rollback_result store io d : state (do_rollback store io d).1 <> "failed" ->
  exists s m name g, intended store d (c_disk (do_rollback store io d).2) s m name g /\
    state (do_rollback store io d).1 = "rollback_intent_recorded" /\
    generation (do_rollback store io d).1 = g /\ rollback_candidate (do_rollback store io d).1 = name.
Proof.
  unfold record_rollback_intent, conclude. intros H. destruct (rollback_triple cng_sha256 json_parse dump base64_decode
    spki_algorithm Key import_key verify_signature process_user store io d (start d) eq_refl) as (x & _ & _ & Hd).
  destruct (rollback_body _ _ _ _ _ _ _ _ _ _ _ (start d)) as [[u|e] c]; [|done]. by apply (Hd u).
Qed.
Lemma result_states store raw now arch io d : let u := (do_stage store raw now arch io d).1 in
  state u = "failed" \/ state u = "staged" \/ state u = "already_staged".
Proof.
  intros u. destruct (decide (state u = "failed")) as [|H]; [by left|]. right.
  destruct (stage_result _ _ _ _ _ _ H) as (g & _ & _ & _ & _ & _ & [(? & _)|(? & _)]); auto.
Qed.

(** *** A bundle renewed after the package was issued *)
(** the package was issued before the bundle it was verified with *)
Definition outlived (bootstrap : list PublisherPin) (raw bundle : string) : Prop := exists envelope payload document issue issued,
  verify_signed_payload cng_sha256 json_parse base64_decode spki_algorithm Key import_key verify_signature bundle bootstrap
    = Ok (envelope, payload) /\ json_parse payload = Ok document /\
  uint_field document "issued_at_unix_ms" = Ok issue /\ issued_of json_parse raw = Ok issued /\ issued < issue.
Lemma outlived_refused store bootstrap raw bundle whose pins : trust_store_ store = Some bootstrap ->
  outlived bootstrap raw bundle -> provenance_pins store bundle (issued_of json_parse raw) whose <> Ok pins.
Proof.
  intros Ht (envelope & payload & document & issue & issued & Hv & Hp & Hi & Hr & Hlt) H.
  unfold UpdatePackage.provenance_pins in H. rewrite Ht, Hr in H. cbn [mbind result_bind] in H.
  apply bind_Ok in H as (? & Hs & _). apply throw_if_Ok, negb_false_iff, String.eqb_eq in Hs.
  unfold historical_publishers in Hs. rewrite Hv in Hs. cbn [mbind result_bind] in Hs. rewrite Hp in Hs.
  cbn [mbind result_bind] in Hs. rewrite Hi in Hs. cbn [mbind result_bind] in Hs.
  destruct (uint_field document "expires_at_unix_ms"); cbn [mbind result_bind] in Hs; [|done].
  rewrite (proj2 (Z.ltb_lt _ _) Hlt) in Hs. done.
Qed.
(** a defect.  When the recorded package was issued before the trust
    bundle it was verified with was issued (a bundle lives at most thirty days
    and must be renewed, and a manifest stays valid as long), no further call
    succeeds: every staging and every rollback is refused, whatever the
    manifest, the time and the system's answers, because the provenance of the
    recorded package is looked up at its issue time. *)
Theorem renewal_blocks_staging store bootstrap d s g raw bundle :
  trust_store_ store = Some bootstrap -> recorded d = Ok s -> uint_field s "highest_generation" = Ok g -> g <> 0 ->
  value_string "manifest" s = Ok raw -> value_string "publisher_trust_bundle" s = Ok bundle -> bundle <> "" ->
  outlived bootstrap raw bundle ->
  (forall raw' now arch io, state (do_stage store raw' now arch io d).1 = "failed") /\
  (forall io, state (do_rollback store io d).1 = "failed").
Proof.
  intros Ht Hs Hg H0 Hr Hb Hne Ho. split.
  - intros raw' now arch io. destruct (decide (state (do_stage store raw' now arch io d).1 = "failed")) as [|Hf]; [done|].
    destruct (stage_result _ _ _ _ _ _ Hf) as (x & [A1 A2 _ _ _ (b & B1 & B2) A3 _ _] & _). exfalso.
    rewrite Hs in A1. injection A1 as A1. rewrite <- A1 in *. rewrite Hg in A2. injection A2 as A2. rewrite <- A2 in *.
    rewrite Hb in B1. injection B1 as <-. unfold prior_bundle_of in B2. destruct bundle as [|ch bundle]; [done|].
    cbn [str_empty] in B2. rewrite andb_false_r in B2. rewrite B2 in A3. unfold UpdatePackage.check_prior in A3.
    rewrite (proj2 (Z.eqb_neq _ _) H0), Hr in A3. cbn [mbind result_bind] in A3. apply bind_Ok in A3 as (pins & Hp & _).
    by eapply outlived_refused.
  - intros io. destruct (decide (state (do_rollback store io d).1 = "failed")) as [|Hf]; [done|]. exfalso.
    destruct (rollback_result _ _ _ Hf) as (s' & m & name & g' & (Hs' & Hk & _) & _). rewrite Hs in Hs'. injection Hs' as <-.
    unfold rollback_target in Hk. do 3 apply bind_Ok in Hk as (? & _ & Hk). rewrite Hr, Hb in Hk. cbn [mbind result_bind] in Hk.
    apply bind_Ok in Hk as (pins & Hp & _). by eapply outlived_refused.
Qed.

(** a rollback is only ever recorded for the prior package of the state:
    its manifest verifies under the pins, or under the publishers of the
    recorded bundle that were active when it was issued, its generation is
    below the current one's slot, and the file on disk has the signed size and
    hash. *)
Theorem rollback_selects_verified store io d : let u := (do_rollback store io d).1 in
  let d' := c_disk (do_rollback store io d).2 in state u <> "failed" ->
  exists s raw bundle pins issued arch m, recorded d = Ok s /\ uint_field s "previous_generation" = Ok (generation u) /\
    value_string "previous_manifest" s = Ok raw /\ value_string "previous_trust_bundle" s = Ok bundle /\
    issued_of json_parse raw = Ok issued /\ provenance_pins store bundle (Ok issued) "rollback" = Ok pins /\
    verify_manifest raw pins issued arch = Ok m /\ m_generation m = generation u /\
    rollback_candidate u = package_name (generation u) (package_hash m) /\
    holds d' (rollback_candidate u) (m_size m) (package_hash m).
Proof.
  intros u d' Hf. destruct (rollback_result _ _ _ Hf) as (s & m & name & g & (Hs & Ht & d1 & text & Hq & Hh & _ & Hd) & _ & Hg & Hn).
  pose proof (rollback_target_facts _ _ _ _ _ _ _ _ _ _ _ _ _ Ht) as (T1 & _ & _ & T2 & T3 & raw & bundle & pins & issued & arch & V).
  exists s, raw, bundle, pins, issued, arch, m. fold u in Hg, Hn. fold d' in Hd. rewrite Hg, Hn. split_and!; try done; try apply V.
  destruct Hh as (c & Hc & Hh). exists c. split; [|done]. rewrite Hd, lookup_insert_ne; [done|]. rewrite T3. done.
Qed.

(** *** The directory's own protection *)
Lemma check_aces_spec user owner l : check_aces user owner l = Ok tt -> forall a, a ∈ l -> check_ace user owner a = Ok tt.
Proof.
  induction l as [|b l IH]; cbn [check_aces]; intros H a Ha; [by apply not_elem_of_nil in Ha|].
  apply bind_Ok in H as ([] & Hb & H). apply elem_of_cons in Ha as [->|Ha]; auto.
Qed.
(** an entry that lets someone else change the object *)
Definition opens (user owner : string) (a : Ace) : Prop := ace_type a = ACCESS_ALLOWED_ACE_TYPE /\
  exists sid length, ace_sid a = Some (sid, length) /\ trusted user owner sid = false /\
    Z.land (map_generic (ace_mask a)) dangerous <> 0.
Lemma opens_refused user owner a : opens user owner a -> check_ace user owner a <> Ok tt.
Proof.
  intros (Ht & sid & length & Hs & Hu & Hm) H. unfold check_ace in H. rewrite Ht in H.
  cbn [Z.eqb orb negb throw_if mbind result_bind ACCESS_ALLOWED_ACE_TYPE ACCESS_DENIED_ACE_TYPE SYSTEM_AUDIT_ACE_TYPE] in H.
  apply bind_Ok in H as (? & _ & H). rewrite Hs in H. apply bind_Ok in H as (? & _ & H). apply throw_if_Ok in H.
  rewrite Hu, (proj2 (Z.eqb_neq _ _) Hm) in H. done.
Qed.
Lemma root_refused root user owner aces a : process_user = Ok user -> owner_ (security root) = Some owner ->
  dacl (security root) = Some aces -> a ∈ aces -> opens user owner a \/ dacl_protected (security root) = false ->
  exists e, open_update_directory process_user root = Throw e.
Proof.
  intros Hu Ho Hd Ha Hb. destruct (open_update_directory process_user root) as [[]|e] eqn:E; [|by exists e]. exfalso.
  unfold open_update_directory, check_object in E. do 2 apply bind_Ok in E as (? & _ & E). unfold validate_object_acl in E.
  apply bind_Ok in E as (? & _ & E). rewrite Ho, Hd, Hu in E. cbn [of_option mbind result_bind] in E.
  apply bind_Ok in E as (? & Hp & E). do 2 apply bind_Ok in E as (? & _ & E). apply throw_if_Ok in Hp.
  destruct Hb as [Hb|Hb]; [|by rewrite Hb, orb_true_r in Hp].
  by apply (opens_refused _ _ _ Hb), (check_aces_spec _ _ _ E).
Qed.
(** nothing in the directory is read, written or removed when someone
    other than the service, the system and the administrators may change it:
    if an entry of its access list grants such a principal a right to write,
    delete or take over, or if the list is not protected against inheritance,
    every operation of both stores fails and leaves the directory alone. *)
Theorem exposed_root_untouched store bootstrap raw bundle now arch io d user owner aces a :
  process_user = Ok user -> owner_ (security (io_root io)) = Some owner -> dacl (security (io_root io)) = Some aces ->
  a ∈ aces -> opens user owner a \/ dacl_protected (security (io_root io)) = false ->
  (state (do_stage store raw now arch io d).1 = "failed" /\ disks (do_stage store raw now arch io d).2 = [d]) /\
  (state (do_rollback store io d).1 = "failed" /\ disks (do_rollback store io d).2 = [d]) /\
  (r_state (do_install bootstrap bundle now io d).1 = "unavailable" /\ disks (do_install bootstrap bundle now io d).2 = [d]) /\
  (t_state (do_snapshot bootstrap now io d).1 = "unavailable" /\ disks (do_snapshot bootstrap now io d).2 = [d]).
Proof.
  intros Hu Ho Hd Ha Hb. destruct (root_refused _ _ _ _ _ Hu Ho Hd Ha Hb) as [e He].
  unfold stage, record_rollback_intent, install_signed_bundle, trust_snapshot, conclude, stage_body, rollback_body, install_body.
  rewrite He. done.
Qed.

(** ** Runs *)
Section Library.
Context (reparses : forall j t, document json_parse j -> dump j = Ok t -> t <> "" /\ json_parse t = Ok j).
Context (no_longer : forall t j t', json_parse t = Ok j -> dump j = Ok t' -> slen t' <= slen t).
Abbreviation run := (update_run cng_sha256 json_parse dump base64_decode spki_algorithm Key import_key verify_signature
  process_user).

(** C29: over any run of stagings, rollbacks, bundle installations and
    snapshots, each of which may stop at any point and meet any answer of the
    system, the recorded generation never falls, a generation keeps its signed
    manifest, hash and file name, and no package that is on disk is changed or
    removed. *)
Theorem staging_never_goes_back store d d' : run store d d' ->
  keeps json_parse d d' /\ packages_kept d d'.
Proof.
  induction 1 as [d|d d1 d2 H _ [K P]]; [split; [done|by intros name x]|]. split.
  - transitivity d1; [|exact K]. by eapply update_step_keeps.
  - intros name x Hn Hx. apply P; [done|]. by eapply update_step_packages.
Qed.


(** C31: a package is reported as staged only if its manifest verifies now
    under a pinned publisher, or one of the installed trust bundle that is
    active now, is newer than what was recorded, and the package on disk has
    the signed size and hash; and the state that is read back records it. *)
Theorem staged_only_if_signed store raw now arch io d : let u := (do_stage store raw now arch io d).1 in
  let d' := c_disk (do_stage store raw now arch io d).2 in state u = "staged" ->
  exists m pins bundle s p, verify_manifest raw pins now arch = Ok m /\ signers store now pins bundle /\
    installed json_parse store d bundle /\ recorded d = Ok s /\ uint_field s "highest_generation" = Ok p /\
    p < generation u /\ generation u = m_generation m /\ package_sha256 u = package_hash m /\
    staged_path u = package_name (generation u) (package_hash m) /\
    holds d' (staged_path u) (m_size m) (package_hash m) /\
    forall s', recorded d' = Ok s' -> uint_field s' "highest_generation" = Ok (generation u) /\
      value_string "package_sha256" s' = Ok (package_hash m) /\ value_string "staged_filename" s' = Ok (staged_path u).
Proof.
  intros u d' Hu. assert (Hf : state u <> "failed") by by rewrite Hu.
  destruct (stage_result _ _ _ _ _ _ Hf) as (g & Ha & G1 & _ & G2 & Gh & [(E & _)|(_ & Hp & Hn)]);
    [fold u in E; rewrite Hu in E; done|]. fold u in G1, G2, Gh, Hn. fold d' in Gh, Hp.
  pose proof Hp as (d1 & text & pm & pn & written & Hq & _ & Hfresh & _ & _ & _ & Hw & Hd).
  pose proof (accepted_order _ _ _ _ _ _ _ _ _ _ _ _ _ _ Ha Hfresh) as Ho.
  destruct Ha as [A1 A2 A3 A4 A5 _ _ _ _]. destruct (manifest_facts _ _ _ _ _ _ _ _ _ _ _ _ _ A5) as (Hr & _).
  exists (g_manifest g), (g_pins g), (g_bundle g), (g_state g), (g_prior g). rewrite G1, G2.
  split_and!; try done; [lia|]. intros s' Hs. rewrite Hd in Hs.
  apply (recorded_written _ _ reparses _ (new_state g text pm pn)) in Hs; [|apply new_state_document; lia|done|done]. subst s'.
  rewrite Hn. split_and!; try done.
  change (Ok (u64 (m_generation (g_manifest g))) = Ok (m_generation (g_manifest g))). by rewrite u64_small by lia.
Qed.

(** *** Trust bundles *)
(** a later trust state names a later bundle, or is the same *)
Definition trust_le (o o' : option json) : Prop := match o with
  | None => True
  | Some st => exists st', o' = Some st' /\ forall g, uint_field st "generation" = Ok g ->
      exists g', uint_field st' "generation" = Ok g' /\ g <= g' /\ (g' = g -> st' = st)
  end.
Definition trust_keeps (d d' : Disk) : Prop := forall o', trust_record d' = Ok o' ->
  exists o, trust_record d = Ok o /\ trust_le o o'.
Lemma trust_le_refl o : trust_le o o.
Proof. destruct o as [st|]; [|done]. exists st. split; [done|]. intros g Hg. exists g. split_and!; [done|lia|done]. Qed.
Lemma trust_le_trans a b c : trust_le a b -> trust_le b c -> trust_le a c.
Proof.
  destruct a as [sa|]; [|done]. intros (sb & -> & Hab) (sc & -> & Hbc). exists sc. split; [done|]. intros g Hg.
  destruct (Hab g Hg) as (g1 & H1 & L1 & S1). destruct (Hbc g1 H1) as (g2 & H2 & L2 & S2). exists g2. split_and!; [done|lia|].
  intros ->. assert (g1 = g) as -> by lia. rewrite S2 by done. by apply S1.
Qed.
Lemma trust_written d g bundle t o : 0 <= g <= u64_max -> dump (trust_state g bundle) = Ok t ->
  trust_record (<[kTrustFile := File t]> d) = Ok o -> o = Some (trust_state g bundle).
Proof.
  intros Hg Ht. unfold UpdateFacts.trust_record. rewrite lookup_insert_eq. destruct (_ || _); [done|].
  assert (Hdoc : document json_parse (trust_state g bundle)).
  { apply document_object. repeat (apply Forall_cons; split); try done. unfold scalar. cbn [snd].
    rewrite andb_true_iff, !Z.leb_le. lia. }
  destruct (reparses _ t Hdoc Ht) as [_ Hp]. unfold parse_trust_state. rewrite Hp. cbn [mbind result_bind].
  intros H. by injection H as <-.
Qed.
Lemma known_bundle_newer bootstrap parsed st : known_bundle cng_sha256 json_parse dump base64_decode spki_algorithm Key
    import_key verify_signature bootstrap parsed st = Ok false ->
  exists g, uint_field st "generation" = Ok g /\ g < generation_ parsed.
Proof.
  unfold known_bundle. intros H. do 8 apply bind_Ok in H as (? & _ & H). apply bind_Ok in H as (g & Hg & H).
  apply bind_Ok in H as (? & _ & H). apply bind_Ok in H as (? & Hl & H). apply throw_if_Ok in Hl.
  destruct (Z.eqb_spec (generation_ parsed) g); [do 3 apply bind_Ok in H as (? & _ & H); done|]. exists g. split; [done|lia].
Qed.
Lemma bundle_generation raw bootstrap now active parsed : parse_trust_bundle raw bootstrap now active = Ok parsed ->
  0 < generation_ parsed <= u64_max.
Proof.
  unfold UpdateTrust.parse_trust_bundle. intros H. apply bind_Ok in H as ([e p] & _ & H). do 3 apply bind_Ok in H as (? & _ & H).
  apply bind_Ok in H as (g & Hg%uint_field_range & H). do 2 apply bind_Ok in H as (? & _ & H). apply bind_Ok in H as (? & H0 & H).
  do 4 apply bind_Ok in H as (? & _ & H). apply Ok_inj in H. subst parsed. cbn. apply throw_if_Ok, orb_false_iff in H0 as [H0 _]. lia.
Qed.
Lemma update_step_trust store d d' : update_step cng_sha256 json_parse dump base64_decode spki_algorithm Key import_key
  verify_signature process_user store d d' -> trust_keeps d d'.
Proof.
  assert (Hsame : forall d', d' !! kTrustFile = d !! kTrustFile -> trust_keeps d d').
  { intros d2 E o Ho. exists o. split; [|apply trust_le_refl]. unfold UpdateFacts.trust_record in *. by rewrite <- E. }
  intros [H|[(raw & now & arch & g & Ha & Hp)|[(s & m & name & g & H)|(bs & b & now & H)]]]%update_step_inv.
  - apply Hsame, H.
  - destruct Hp as (d1 & ? & ? & ? & ? & Hq & _ & _ & _ & _ & _ & _ & ->). apply Hsame. rewrite lookup_insert_ne by done. apply Hq.
  - destruct H as (_ & _ & d1 & ? & Hq & _ & _ & ->). apply Hsame. rewrite lookup_insert_ne by done. apply Hq.
  - destruct H as (parsed & old & d1 & text & Hp & Hold & Hk & Hq & Ht & ->). intros o Ho. exists old. split; [done|].
    pose proof (bundle_generation _ _ _ _ _ Hp) as Hg. apply trust_written with (2 := Ht) in Ho; [|lia]. subst o.
    destruct old as [st|]; [|done]. exists (trust_state (generation_ parsed) b). split; [done|]. intros g0 Hg0.
    destruct (known_bundle_newer _ _ _ Hk) as (g1 & Hg1 & Hlt). rewrite Hg0 in Hg1. injection Hg1 as <-.
    exists (generation_ parsed). split_and!; [|lia|lia].
    change (Ok (u64 (generation_ parsed)) = Ok (generation_ parsed)). by rewrite u64_small by lia.
Qed.
End Library.
End Claims.
