(* ===== verification/UpdateExample.v ===== *)
(** * A concrete update directory

    A table stands for the JSON library, every signature is good and the hash
    shows the length of its input; on it the stores are run, and the theorems
    of [UpdateTheorems] are applied. *)

From stdpp Require Import relations.
From S2P Require Import Prelude Identity Json UpdateTrust UpdatePackage UpdateLogic UpdateFacts UpdateRuns UpdateTheorems.

Module UpdateExample.
Definition digest (n : Z) : list Z := replicate 31 7 ++ [n].
Definition sha (input : string) : string + list Z := inr (digest (slen input `mod` 256)).
Definition id_of (der : string) : string := hex_bytes (digest (slen der)).
Definition bootstrap : list PublisherPin := [{| key_id := id_of "boot"; subject_public_key_info_der := "boot" |}].
Definition signed (format key payload : string) : json :=
  object [("format", JStr format); ("key_id", JStr (id_of key)); ("payload", JStr payload); ("signature", JStr "sig")].
Definition trust_item (der encoded : string) (activates retires : Z) : json :=
  object [("key_id", JStr (id_of der)); ("spki_der_hex", JStr encoded); ("activates_at_unix_ms", JUint activates);
          ("retires_at_unix_ms", JUint retires); ("revoked_at_unix_ms", JUint 0)].
(** two keys that overlap by more than a day *)
Definition trust_doc (generation issued : Z) : json :=
  object [("schema_version", JUint 1); ("product", JStr "panopticon-windows-agent"); ("generation", JUint generation);
          ("issued_at_unix_ms", JUint issued); ("expires_at_unix_ms", JUint 2000000000);
          ("keys", JArr [trust_item "k1" "6b31" issued 500000000; trust_item "k22" "6b3232" 400000000 2000000000])].
Definition manifest_doc (generation issued : Z) (package : string) : json :=
  object [("schema_version", JUint 1); ("product", JStr "panopticon-windows-agent"); ("generation", JUint generation);
          ("version", JStr "1.2.3"); ("architecture", JStr "x64"); ("package_size", JUint (slen package));
          ("package_sha256", JStr (id_of package)); ("issued_at_unix_ms", JUint issued);
          ("expires_at_unix_ms", JUint 1000000000)].
Definition name1 : string := package_name 1 (id_of "pkg1").
Definition name2 : string := package_name 2 (id_of "pkg-2").
Definition table : list (string * json) :=
  [("B1", signed "panopticon_signed_publisher_trust_v1" "boot" "T1"); ("T1", trust_doc 1 1000);
   ("B2", signed "panopticon_signed_publisher_trust_v1" "boot" "T2"); ("T2", trust_doc 2 5000);
   ("E1", signed "panopticon_signed_update_manifest_v1" "k1" "P1"); ("P1", manifest_doc 1 2000 "pkg1");
   ("E2", signed "panopticon_signed_update_manifest_v1" "k1" "P2"); ("P2", manifest_doc 2 6000 "pkg-2");
   ("U1", trust_state 1 "B1"); ("U2", trust_state 2 "B2");
   ("S1", stage_state 1 "E1" (id_of "pkg1") name1 0 "" "" 0 "B1" "");
   ("S1late", stage_state 1 "E1" (id_of "pkg1") name1 0 "" "" 0 "B2" "");
   ("S2", stage_state 2 "E2" (id_of "pkg-2") name2 1 "E1" name1 0 "B1" "B1");
   ("S2back", stage_state 2 "E2" (id_of "pkg-2") name2 1 "E1" name1 1 "B1" "B1")].
Definition parse (text : string) : result json :=
  match List.find (fun e => String.eqb e.1 text) table with
  | Some e => Ok e.2
  | None => Throw (json_exception "parse error")
  end.
Definition print (j : json) : result string :=
  match List.find (fun e => bool_decide (e.2 = j)) table with
  | Some e => Ok e.1
  | None => Throw (json_exception "not printable here")
  end.
Definition decode64 (s : string) : option string :=
  if String.eqb s "sig" then Some (string_of_list_ascii (replicate 64 Ascii.zero)) else None.
Definition algorithm (der : string) : option (option string) := Some (Some szOID_ECC_PUBLIC_KEY).
Definition key_of (der : string) : option (unit * option string) := Some (tt, Some "ECDSA_P256").
Definition checks (k : unit) (d : list Z) (sig : string) : bool := true.
Definition user : result string := Ok "S-1-5-80-1".

Lemma table_prints : Forall (fun e => e.1 <> "" /\ parse e.1 = Ok e.2 /\ print e.2 = Ok e.1) table.
Proof. apply (bool_decide_unpack _). vm_compute. exact I. Qed.
Lemma table_find {A} (p : string * json -> bool) (f : string * json -> A) (z : A) (o : A) :
  match List.find p table with Some e => f e | None => z end = o -> o <> z ->
  exists e, e ∈ table /\ p e = true /\ o = f e.
Proof.
  destruct (List.find p table) as [e|] eqn:E; [|done]. intros <- _. apply List.find_some in E as [Hin Hp].
  exists e. by rewrite list_elem_of_In.
Qed.
Lemma prints_back j t : document parse j -> print j = Ok t -> t <> "" /\ parse t = Ok j.
Proof.
  intros _ H. destruct (table_find _ _ _ _ H ltac:(done)) as (e & He & <-%bool_decide_eq_true & [= ->]).
  destruct (proj1 (Forall_forall _ _) table_prints e He) as (? & ? & _). done.
Qed.
Lemma prints_same t j t' : parse t = Ok j -> print j = Ok t' -> slen t' <= slen t.
Proof.
  intros H Ht. destruct (table_find _ _ _ _ H ltac:(done)) as (e & He & <-%String.eqb_eq & [= ->]).
  destruct (proj1 (Forall_forall _ _) table_prints e He) as (_ & _ & Hp). rewrite Hp in Ht. injection Ht as ->. lia.
Qed.

(** ** A protected directory and a working system *)
Definition owned (protected : bool) (aces : list Ace) : Security :=
  {| info_error := None; owner_ := Some system_sid; dacl := Some aces; control_read := true; dacl_protected := protected |}.
Definition system_ace : Ace := {| ace_type := 0; ace_size := 20; ace_mask := 0x1f01ff; ace_sid := Some (system_sid, 12) |}.
Definition users_read : Ace := {| ace_type := 0; ace_size := 20; ace_mask := 0x80000000; ace_sid := Some ("S-1-5-32-545", 12) |}.
Definition users_write : Ace := {| ace_type := 0; ace_size := 20; ace_mask := 0x40000000; ace_sid := Some ("S-1-5-32-545", 12) |}.
Definition root (aces : list Ace) : Object :=
  {| ob_error := None; reparse_point := false; directory := true; security := owned true aces |}.
Definition file : Object :=
  {| ob_error := None; reparse_point := false; directory := false; security := owned false [system_ace] |}.
Definition healthy (aces : list Ace) (package : string) (write : write_answer) : Io := {|
  io_pid := 4; io_tick := 10; io_write_tick := 11; io_root := root aces; io_lock_open := None; io_lock := file;
  io_lock_failed := None;
  io_recovery := {| find_failed := fun _ => None; find_stopped := fun _ => None; candidate := fun _ => file;
                    delete_failed := fun _ => None |};
  io_trust := file; io_trust_read := None; io_state := file; io_state_read := None; io_source_error := None;
  io_source_regular := true; io_source_size := slen package; io_reads := [inr package]; io_temp_open := None;
  io_temp := file; io_write_failed := fun _ => None; io_flush := None; io_deleted := true; io_move := None;
  io_staged := file; io_staged_failed := None; io_write := write; io_write_object := file |}.
Definition ok (package : string) : Io := healthy [system_ace; users_read] package WriteDone.
Definition store : UpdatePackageStore := {| pins_ := []; trust_store_ := Some bootstrap |}.
Abbreviation do_stage := (UpdatePackage.stage sha parse print decode64 algorithm unit key_of checks user).
Abbreviation do_rollback := (record_rollback_intent sha parse print decode64 algorithm unit key_of checks user).
Abbreviation do_install := (install_signed_bundle sha parse print decode64 algorithm unit key_of checks user).

(** the directory after each call *)
Definition d1 : gmap string Entry := c_disk (do_install bootstrap "B1" 1500 (ok "") ∅).2.
Definition d2 : gmap string Entry := c_disk (do_stage store "E1" 2500 "x64" (ok "pkg1") d1).2.
Definition d3 : gmap string Entry := c_disk (do_stage store "E2" 2600 "x64" (ok "pkg-2") d2).2.
Definition d4 : gmap string Entry := c_disk (do_rollback store (ok "") d3).2.
Example story : (map_to_list d4 : list (string * Entry)) ≡ₚ
  [(kLockFile, File ""); (kTrustFile, File "U1"); (kStateFile, File "S2back"); (name1, File "pkg1"); (name2, File "pkg-2")].
Proof. apply (bool_decide_unpack _). vm_compute. exact I. Qed.
(** interrupted while the new state is written: the old one stands, and the next
    call removes the temporaries and stages the package *)
Definition stopped : Io := healthy [system_ace] "pkg-2" (WriteStopped 1 (runtime_error "power")).
Definition d3stopped : gmap string Entry := c_disk (do_stage store "E2" 2600 "x64" stopped d2).2.
Example interrupted :
  (d3stopped !! kStateFile, d3stopped !! write_temp_name kStateFile stopped) = (Some (File "S1"), Some (File "S")) /\
  (state (do_stage store "E2" 2600 "x64" stopped d2).1 = "failed") /\
  (c_disk (do_stage store "E2" 2700 "x64" (ok "pkg-2") d3stopped).2 !! kStateFile = Some (File "S2")).
Proof. vm_compute. by split_and!. Qed.
(** the bundle is renewed, then the manifest that was issued before is staged:
    the call succeeds, and the next one is refused *)
Definition w1 : gmap string Entry := c_disk (do_install bootstrap "B2" 6000 (ok "") d1).2.
Definition w2 : gmap string Entry := c_disk (do_stage store "E1" 6500 "x64" (ok "pkg1") w1).2.
Example renewed :
  (state (do_stage store "E1" 6500 "x64" (ok "pkg1") w1).1, w2 !! kStateFile) = ("staged", Some (File "S1late")) /\
  error (do_stage store "E2" 7000 "x64" (ok "pkg-2") w2).1 =
    "prior package trust provenance is unavailable: package manifest issue time is outside its signed publisher trust bundle window".
Proof. vm_compute. by split_and!. Qed.
(** a write right of an ordinary group closes the stores *)
Example exposed : error (do_stage store "E1" 2500 "x64" (healthy [system_ace; users_write] "pkg1" WriteDone) d1).1 =
  "untrusted principal has update staging write/delete rights".
Proof. vm_compute. reflexivity. Qed.
Lemma run_story : update_run sha parse print decode64 algorithm unit key_of checks user store d1 d4.
Proof.
  eapply rtc_l; [apply (step_stage _ _ _ _ _ _ _ _ _ _ _ "E1" 2500 "x64" (ok "pkg1") d2); left|].
  eapply rtc_l; [apply (step_stage _ _ _ _ _ _ _ _ _ _ _ "E2" 2600 "x64" (ok "pkg-2") d3); left|].
  apply rtc_once. apply (step_rollback _ _ _ _ _ _ _ _ _ _ _ (ok "") d4). left.
Qed.
End UpdateExample.

Lemma rotation_never_gaps_witness : exists parsed,
  parse_trust_bundle UpdateExample.sha UpdateExample.parse UpdateExample.print UpdateExample.decode64 UpdateExample.algorithm
    unit UpdateExample.key_of UpdateExample.checks "B1" UpdateExample.bootstrap 1500 true = Ok parsed /\
  0 < zlen (keys_ parsed) <= kMaximumUpdateTrustKeys.
Proof.
  eexists. split; [vm_compute; reflexivity|].
  exact (proj1 (rotation_never_gaps UpdateExample.sha UpdateExample.parse UpdateExample.print UpdateExample.decode64
    UpdateExample.algorithm unit UpdateExample.key_of UpdateExample.checks "B1" UpdateExample.bootstrap 1500 true _
    ltac:(vm_compute; reflexivity))).
Defined.
Lemma renewal_blocks_staging_witness :
  state (stage UpdateExample.sha UpdateExample.parse UpdateExample.print UpdateExample.decode64 UpdateExample.algorithm
    unit UpdateExample.key_of UpdateExample.checks UpdateExample.user UpdateExample.store "E2" 2600 "x64"
    (UpdateExample.healthy [] "pkg2" WriteDone) UpdateExample.w2).1
  = "failed".
Proof.
  refine (proj1 (renewal_blocks_staging UpdateExample.sha UpdateExample.parse UpdateExample.print UpdateExample.decode64
    UpdateExample.algorithm unit UpdateExample.key_of UpdateExample.checks UpdateExample.user UpdateExample.store
    UpdateExample.bootstrap UpdateExample.w2
    (stage_state 1 "E1" (UpdateExample.id_of "pkg1") UpdateExample.name1 0 "" "" 0 "B2" "") 1 "E1" "B2"
    eq_refl ltac:(vm_compute; reflexivity) ltac:(vm_compute; reflexivity) ltac:(done) eq_refl eq_refl ltac:(done) _)
    _ _ _ _).
  eexists _, _, _, _, _. split_and!; [vm_compute; reflexivity..|vm_compute; reflexivity].
Defined.
Lemma rollback_selects_verified_witness :
  let u := (record_rollback_intent UpdateExample.sha UpdateExample.parse UpdateExample.print UpdateExample.decode64
    UpdateExample.algorithm unit UpdateExample.key_of UpdateExample.checks UpdateExample.user UpdateExample.store
    (UpdateExample.ok "") UpdateExample.d3).1 in
  exists m, rollback_candidate u = package_name (generation u) (package_hash m).
Proof.
  intros u.
  destruct (rollback_selects_verified UpdateExample.sha UpdateExample.parse UpdateExample.print UpdateExample.decode64
    UpdateExample.algorithm unit UpdateExample.key_of UpdateExample.checks UpdateExample.user UpdateExample.store
    (UpdateExample.ok "") UpdateExample.d3 ltac:(vm_compute; discriminate)) as (s & raw & b & pins & i & a & m & H).
  exists m. apply H.
Defined.
Lemma exposed_root_untouched_witness :
  let io := UpdateExample.healthy [UpdateExample.users_write] "pkg1" WriteDone in
  disks (stage UpdateExample.sha UpdateExample.parse UpdateExample.print UpdateExample.decode64 UpdateExample.algorithm
    unit UpdateExample.key_of UpdateExample.checks UpdateExample.user UpdateExample.store "E1" 2500 "x64" io
    UpdateExample.d1).2 = [UpdateExample.d1].
Proof.
  intros io. refine (proj2 (proj1 (exposed_root_untouched UpdateExample.sha UpdateExample.parse UpdateExample.print
    UpdateExample.decode64 UpdateExample.algorithm unit UpdateExample.key_of UpdateExample.checks UpdateExample.user
    UpdateExample.store UpdateExample.bootstrap "E1" "B1" 2500 "x64" io UpdateExample.d1 "S-1-5-80-1" system_sid
    [UpdateExample.users_write] UpdateExample.users_write eq_refl eq_refl eq_refl ltac:(left) _))).
  left. split; [reflexivity|]. exists "S-1-5-32-545", 12. split_and!; [reflexivity..|vm_compute; discriminate].
Defined.
Lemma staging_never_goes_back_witness : keeps UpdateExample.parse UpdateExample.d1 UpdateExample.d4.
Proof.
  exact (proj1 (staging_never_goes_back UpdateExample.sha UpdateExample.parse UpdateExample.print UpdateExample.decode64
    UpdateExample.algorithm unit UpdateExample.key_of UpdateExample.checks UpdateExample.user UpdateExample.prints_back
    UpdateExample.store UpdateExample.d1 UpdateExample.d4 UpdateExample.run_story)).
Defined.
Lemma staged_only_if_signed_witness :
  let u := (stage UpdateExample.sha UpdateExample.parse UpdateExample.print UpdateExample.decode64 UpdateExample.algorithm
    unit UpdateExample.key_of UpdateExample.checks UpdateExample.user UpdateExample.store "E1" 2500 "x64"
    (UpdateExample.ok "pkg1") UpdateExample.d1).1 in
  exists m, generation u = m_generation m /\ package_sha256 u = package_hash m.
Proof.
  intros u.
  destruct (staged_only_if_signed UpdateExample.sha UpdateExample.parse UpdateExample.print UpdateExample.decode64
    UpdateExample.algorithm unit UpdateExample.key_of UpdateExample.checks UpdateExample.user UpdateExample.prints_back
    UpdateExample.store "E1" 2500 "x64" (UpdateExample.ok "pkg1") UpdateExample.d1 ltac:(vm_compute; reflexivity))
    as (m & pins & b & s & p & H).
  exists m. split; apply H.
Defined.
